(* ===== verification/_CoqProject ===== *)
-Q . S2P
Prelude.v
FreeQueue.v
BlockPool.v
KVSpec.v
Coordinator.v
HashChain.v
PrefixCache.v
CacheClient.v
Offload.v
CpuTier.v
CpuTierInv.v
CpuTierSpec.v
BatchPlanner.v
PlannerInv.v
PlannerStages.v
PlannerSteps.v
PlannerSpec.v
PyText.v
Reasoning.v
ToolParser.v
ToolChunking.v
ToolSpec.v
Detokenizer.v
NgramProposer.v
SlotBatch.v
SlotSpec.v
StopCriteria.v
Scheduler.v
SchedulerInv.v
Harvest.v
SchedulerPasses.v
Worker.v
Evolution.v
SchedulerSync.v
SchedulerOps.v
SchedulerSpec.v
EngineDemo.v
EventLoop.v
EventLoopSpec.v
EngineLimits.v
Spmd.v
Topology.v
ParallelState.v
Collectives.v
CollectiveSpec.v
DPAttention.v
MoE.v
ExpertSum.v
TokenExchange.v
MoESpec.v
SlotPlacement.v
AllToAllSpec.v
MoEForward.v
ParallelDemo.v
StateExn.v
LoadPolicy.v
LoadPolicySpec.v
Affinity.v
Router.v
RouterInv.v
RouterSpec.v
RouterLedger.v
RouterSends.v
RouterGenerate.v
RouterDemo.v
AsyncEngine.v
AsyncInv.v
AsyncSpec.v
AsyncText.v
AsyncDemo.v
Lockstep.v
LockstepSpec.v
LockstepModel.v
LockstepLimits.v
LockstepDemo.v
