(* ===== verification/Prelude.v ===== *)
(** * RapidLLM engine: verification library

    RapidLLM is an LLM inference engine; its scheduler decides, step by step,
    which requests run, which KV-cache blocks they hold and what is reused,
    and its stream code turns tokens into text, reasoning and tool calls.
    Around it, a process grid splits the model over ranks, a router spreads
    requests over replicas and an asynchronous engine serves clients.  This
    library models that core, in [src/rapid_llm/engine/],
    [src/rapid_llm/distributed/] and parts of [executor/] and [modules/moe/],
    and proves what makes it correct.  Definitions keep the names of the
    Python code.

    ** The parts, and the files that model them

    - [Prelude]: exceptions as values ([result]), loops that may raise
      ([rfold]), the total-correctness judgment [returns], shared list,
      arithmetic and map lemmas, tactics.
    - [FreeQueue] (block_pool.py, [FreeBlockQueue]): the intrusive doubly
      linked list with its sentinels, as a heap of link fields; it implements
      a list, errors included.
    - [BlockPool] (block_pool.py, [BlockPool]): reference counts, the hash
      index, eviction order, allocation, reset.  The invariant [Pool.wf] ties
      the three ledgers together; every operation keeps it.
    - [KVSpec], [Coordinator] (kv_cache_spec.py): the attention specs, the
      groups a model partitions into, the longest prefix hit of a spec, and
      the coordinator that allocates, caches, frees and matches over several
      groups.  A ghost count of who holds what makes the ledger exact.
    - [HashChain], [PrefixCache] (prefix_cache.py): the chained block hashes
      over a digest parameter, and the per-request cache state.  Reuse is
      sound: a hit only hands out blocks of sequences that agree.
    - [CacheClient]: what a well-behaved client of the prefix cache may do,
      the interface the planner's proofs are written against.
    - [Offload] (kv_offload/base.py): the vocabulary and the
      [OffloadingManager] interface, a type class.  [CpuTier] (kv_offload/cpu.py,
      tiering.py) implements it by a second block pool; [CpuTierInv] proves
      the ledger of blocks in flight, [CpuTierSpec] what callers rely on, for
      the tier as a state machine whose copy streams move on their own.
    - [BatchPlanner] (batch_planner.py): request objects in a heap that the
      queues alias, slots, admission, chunked prefill, preemption, retirement,
      promotion from an offloading tier, speculative growth.  [PlannerInv]
      has the invariant and the operations it is built from, [PlannerStages]
      the three stages of [plan], [PlannerSteps] the remaining operations and
      the step relation of a running engine, [PlannerSpec] the theorems.
    - [PyText]: Python strings as lists of code points.  [Reasoning]
      (reasoning.py), [ToolParser] (tool_parser.py), [Detokenizer]
      (detokenizer.py) and [NgramProposer] (ngram_proposer.py) are the stream
      components; [ToolChunking] has the argument about splitting a text that
      both tool parsers share, [ToolSpec] applies it.
    - [SlotBatch] (slot_batch.py, with dcp.py, the metadata record of
      attention_metadata.py, the graph padding of cuda_graph.py and
      model_runner.py, and the rows the kernels of backend/cpu.py touch): the
      block tables on the device and the layout of every pass; [SlotSpec] has
      its theorems.
    - [StopCriteria] (stop_criteria.py): the repetition detector and the flags.
      [Scheduler] (scheduler.py, with the parameters of sampler.py and the pass
      records of worker.py): the passes built from a plan, the harvest of
      sampled tokens, speculative verification, the synchronous and pipelined
      steps, submission and abort, the constructor, over an [Executor] interface.
      [EventLoop] (scheduler_ipc.py, [run_event_loop]): commands in, events out.
    - On the engine loop: [SchedulerInv] has its invariant and the laws of an
      executor, [Harvest] the harvest of a batch as one fold per request,
      [SchedulerPasses] what a pass promises, [Worker] (worker.py, sampler.py)
      what the worker answers to a pass and that it keeps the executor's laws on
      any device that keeps [DeviceLaws], [Evolution] what may become of a
      request, [SchedulerSync] the synchronous step stage by stage,
      [SchedulerOps] submissions, jobs and aborts, [SchedulerSpec] the theorems
      over all runs, [EventLoopSpec] those of the command loop.  [EngineDemo]
      is a small engine the witnesses run on, the worker on a toy device, [EngineLimits] three runs of it
      where the loop falls short.

    - [Spmd]: programs that all ranks of a grid run, the collectives they meet
      in, and why the order of the meetings is irrelevant.  [Topology]
      (topology.py) and [ParallelState] (parallel_state.py) lay the grid out:
      coordinates, process groups, [init_parallel].  [Collectives] and
      [CollectiveSpec] are its padded and ragged exchanges, [DPAttention]
      (dp_attention.py) the handshake and the pooling of DP attention.
    - [MoE] (modules/moe/layer.py, token_dispatcher/all_to_all.py,
      kernels/ops/moe/ep_dispatch.py, batch_overlap/comm_overlap.py, the routed
      part of kernels/backend/cpu.py): the routed expert layer on a rank.
      [ExpertSum] has the sums over experts, [TokenExchange] what the
      collectives compute on a laid out grid, [MoESpec] and [SlotPlacement]
      the placement of slots into the send buffer, [AllToAllSpec] the expert
      exchange, [MoEForward] the whole layer, [ParallelDemo] the witnesses.
    - [Lockstep] (scheduler.py, worker.py): the steps and the event loop of a
      replica under DP attention as the program of one rank, dummy passes
      included, and [together], what all replicas compute side by side.
      [LockstepSpec] relates the two, [LockstepModel] composes them with the
      routed layer, [LockstepLimits] shows where replicas leave each other
      waiting, [LockstepDemo] runs two of them.

    - [StateExn]: a monad whose state survives an exception, with its triples;
      the router and the asynchronous engine catch exceptions and go on with
      the state they left.
    - [LoadPolicy], [LoadPolicySpec], [Affinity] (data_parallel.py, the four
      policies): routing by turn, load or cached prefixes, behind the interface
      [LoadPolicyLaws].  [Router] (data_parallel.py, [DataParallelController]):
      routes, charges, queues, receiving, blocking generation.  [RouterInv]
      has the invariant, [RouterSpec] and [RouterLedger] the reachable states,
      [RouterSends] and [RouterGenerate] sending and generation, [RouterDemo]
      the witnesses.
    - [AsyncEngine] (async_engine.py): clients, the receiver thread and the
      shutdown as program counters over shared state, any interleaving of
      their atomic sections a run; the backend is the interface [Backend], with
      the scheduler process and the controller as instances.  [AsyncInv] has
      the invariant, [AsyncSpec] that calls end, [AsyncText] what they are
      told, [AsyncDemo] the witnesses and two runs that fall short.

    The planner owns a prefix cache, which owns a coordinator, which owns a
    pool, which owns a queue: each is a record field of the next, and the
    operations thread the state as the code does.

    ** What the theorems show

    - Planner: on every reachable planner [plan] returns and plans soundly;
      slots, queues and ids stay consistent; no block is lost; admission,
      eviction, retirement, preemption and reservation do exactly what they
      say.  [prefill_livelock] shows two unfinished prefills on a pool that holds
      a whole context, which no number of plans moves.
    - Cache: reuse is sound, tables stay in step, hashing is incremental and
      total up to the 32-bit range, hits are the longest possible, the
      reference ledger is exact in every reachable state.
    - Offloading: a HIT names a block last written under that key; loads read
      blocks that cannot be handed out; draining reports exactly what landed.
    - Slot view: the device tables agree with the blocks a request holds, a
      decode or extend pass stays in its own blocks on every rank of a
      context-parallel group of any size, the in-place advance and
      the device layout equal their host references; [prefill_grid_rows] and
      [chunked_reads_need_consecutive_blocks] say where the padded grid and the
      chunked kernel leave them.
    - Engine loop: a synchronous engine on an executor that runs well-formed
      passes never raises, whatever is submitted or aborted; a request's tokens
      are its prompt and generated tokens that are no stop tokens, within its
      cap; the harvest is per request; speculation is greedy decoding; every
      answer of a submission; the command loop survives any commands.
      All of this is for executors that answer the passes that fit them
      ([ExecutorLaws]: a token per sampled row, records where asked for); on the
      repository's worker it needs the chunked prefill kernel off, because the
      worker raises on a resumed grid that overhangs the table ([grids_taken]).
      [EngineLimits] shows the events of an evicted request lost, and the pipeline
      running past the context and evicting a request in flight.
    - Streams: splitting a text into deltas does not change what the splitter
      answers, and changes what the tool parsers answer only where stated;
      deltas of the detokenizer add up to the one-shot decode for tokenizers that
      read a token the same after any complete text ([Reads]: byte-level ones and
      SentencePiece).
    - Grid: every rank gets through the setup on every schedule
      ([init_parallel_lockstep]); the routed layer, on any layout and backend,
      is the unpartitioned layer ([moe_forward_exact]), and a bounded capacity
      drops exactly the late slots ([capacity_drops_late_slots]); both for steps
      in which every replica brings a token, as the exchange raises otherwise.
    - Replicas in lockstep: under DP attention no replica waits in vain, however
      uneven the work ([replicas_never_wait_in_vain]), as long as the TP size is 1, a shutdown
      reaches all of them in one turn ([late_shutdown_strands_replicas]) and
      the pipeline is off ([idle_pipelined_replica_raises]).
    - Router: routes, charges and queues agree in every reachable state
      ([ledgers_agree]); sends of valid requests route and charge
      everything or nothing ([sends_are_atomic]);
      generation returns each prompt's own text ([generate_exact]); predicted
      prefixes were really sent ([affinity_sound]).
    - Asynchronous engine: once it stops every call ends
      ([no_client_is_stranded]), and clients are told the decoding of their
      tokens ([clients_are_told_the_text]); behind the controller a replica
      that dies silently strands them ([dead_replica_strands_clients]).

    ** Fuel

    Loops that are not structural carry fuel, with theorems that it suffices:
    [reserve] evicts at most once per running request (fuel: their number plus
    one); [resume] visits each running request once; [admit_loop] each waiting
    one; [promote_ready] each ready one; the parsers' loop shortens the text or
    changes phase at every turn ([fuel_for]); the search for a free request id
    tries one more id than can be in use ([id_fuel]).  None returns [OutOfFuel].
    [drive], the loop of [generate], has no such bound: see [prefill_livelock].
    The loops that wait for a queue ([serve], [run], the controller's [generate],
    the receiver thread) run over the list of what they find at each turn; where
    the list ends they are still waiting.

    ** Parameters

    The block digest (a collision-free function where a theorem needs it),
    the copier of the CPU tier with its events, the tokenizer's [decode]
    ([Reads] where the streaming theorems need it) and [encode] (32-bit ids
    where the engine's theorems need it), the executor ([ExecutorLaws]) and,
    under the worker, the device ([DeviceLaws]).
    What a collective answers is [wire], with the documented behaviour of
    torch.distributed as [WireLaws]; hidden states add in exact arithmetic
    ([HiddenLaws]); the router of the expert layer, the experts, the order in
    which a device's parallel stores land, the junk in fresh buffers and the
    choice to overlap are arguments of the layer.  Under DP attention what runs
    inside the region of a pass is [forward], assumed to answer as the executor
    does when all replicas bring a pass whose rows the handshake agreed on;
    [LockstepModel.model_meets] proves that of any model that works on its own
    rows and in routed layers, and the witness runs such a model.
    Each theorem with such a hypothesis has a witness at a concrete function.

    ** Not modelled

    Kernels, models, the rest of the executor (uploads, graph replay, readback), attention over sharded
    sequences and batch overlap on streams are tensor code on a device.  The
    sampler works on floating-point logits.  Clocks, metrics, tracing, logging,
    HTTP and argument parsing are left out, and so are the two cache ratios
    that are floats.  Processes, threads and queues appear as programs, steps
    and lists: starting, joining and terminating them is not modelled, nor are
    the followers of a TP group, so replicas in lockstep are one rank each.  The
    constructor of the scheduler is modelled from the point where the executor
    is built.  In the components over [result] an exception discards the state
    it was raised in, which no caller inspects.  A request's shared hash chain
    is passed by value: the code only appends to it and hands the same list
    back.  The theorems on the planner are for engines without an offloading
    tier; its promotion steps are modelled but not covered by the invariant. *)

From stdpp Require Export base tactics list gmap strings.
From Stdlib Require Export ZArith Lia.

Create HintDb rllm.

(** ** Python exceptions and fallible computations *)

(** The exceptions the modelled code raises.  [OutOfFuel] is not a Python
    exception: it marks a loop whose fuel ran out, and the termination lemmas
    show that no operation returns it. *)
Inductive exn :=
  | ValueError
  | IndexError
  | KeyError
  | AssertionError
  | StructError
  | ZeroDivisionError
  | NotImplementedError
  | TypeError
  | RuntimeError
  | TimeoutError
  | QueueEmpty
  | OutOfFuel.

Inductive result (A : Type) :=
  | Ok (a : A)
  | Err (e : exn).
Arguments Ok {A} _.
Arguments Err {A} _.

#[export] Instance exn_eq_dec : EqDecision exn.
Proof. solve_decision. Defined.

#[export] Instance result_eq_dec {A} `{EqDecision A} : EqDecision (result A).
Proof. solve_decision. Defined.

#[export] Instance result_ret : MRet result := λ A a, Ok a.
#[export] Instance result_bind : MBind result := λ A B f r,
  match r with
  | Ok a => f a
  | Err e => Err e
  end.

(** [assert b e]: raise [e] unless [b]. *)
Definition rguard (b : bool) (e : exn) : result unit :=
  if b then Ok tt else Err e.

(** A Python [for] loop over an iterable, threading the mutable state. *)
Fixpoint rfold {A S} (f : A → S → result S) (l : list A) (s : S) : result S :=
  match l with
  | [] => Ok s
  | a :: l' => s' ← f a s; rfold f l' s'
  end.

(** A comprehension whose body may raise. *)
Fixpoint rmap {A B} (f : A → result B) (l : list A) : result (list B) :=
  match l with
  | [] => Ok []
  | a :: l => b ← f a; bs ← rmap f l; Ok (b :: bs)
  end.

(** [l[i]] for a natural [i]. *)
Definition item {A} (l : list A) (i : nat) : result A :=
  match l !! i with Some a => Ok a | None => Err IndexError end.

(** A state-and-exception computation, for components whose methods call each
    other through [self]. *)
Definition M (S A : Type) : Type := S → result (A * S).

(** ** Tactics *)

(** Split the equation of a successful [bind]. *)
Lemma bind_Ok {A B} (f : A → result B) (r : result A) b :
  (r ≫= f) = Ok b ↔ ∃ a, r = Ok a ∧ f a = Ok b.
Proof. destruct r as [a|e]; split; naive_solver. Qed.

Ltac inv_ok :=
  repeat match goal with
  | H : (_ ≫= _) = Ok _ |- _ => apply bind_Ok in H as (? & ? & H)
  | H : Ok _ = Ok _ |- _ => injection H as H
  | H : Err _ = Ok _ |- _ => discriminate H
  | H : Ok _ = Err _ |- _ => discriminate H
  | H : mret _ = Ok _ |- _ => injection H as H
  | H : rguard ?b _ = Ok _ |- _ => unfold rguard in H; destruct b eqn:?; [|discriminate H]
  | H : (let '(_, _) := ?x in _) = Ok _ |- _ => destruct x eqn:?
  end.

(** ** Monadic folds *)

Lemma rfold_app {A S} (f : A → S → result S) l1 l2 s :
  rfold f (l1 ++ l2) s = (s' ← rfold f l1 s; rfold f l2 s').
Proof.
  revert s. induction l1 as [|a l1 IH]; intros s; [done|].
  cbn. destruct (f a s) as [s'|e]; [apply IH|done].
Qed.

(** Loop invariants: [P done s] holds of the items consumed so far. *)
Lemma rfold_invariant {A S} (P : list A → S → Prop) (f : A → S → result S) l s s' :
  (∀ pre a post s1 s2, l = pre ++ a :: post → P pre s1 → f a s1 = Ok s2 → P (pre ++ [a]) s2) →
  P [] s → rfold f l s = Ok s' → P l s'.
Proof.
  intros Hstep HP Hrun.
  enough (∀ pre post s1, l = pre ++ post → P pre s1 → rfold f post s1 = Ok s' → P l s') as Hgen
    by (apply (Hgen [] l s); done).
  intros pre post. revert pre. induction post as [|a post IH]; intros pre s1 -> HP1 Hr.
  - cbn in Hr. injection Hr as ->. by rewrite app_nil_r.
  - cbn in Hr. apply bind_Ok in Hr as (s2 & Hf & Hr).
    apply (IH (pre ++ [a]) s2); [by rewrite <- app_assoc| |done].
    by eapply Hstep.
Qed.

Lemma rfold_concat {A S} (f : A → S → result S) ls s :
  rfold f (concat ls) s = rfold (rfold f) ls s.
Proof.
  revert s. induction ls as [|l ls IH]; intros s; [done|].
  cbn. rewrite rfold_app. destruct (rfold f l s) as [s'|e]; [apply IH|done].
Qed.

(** A loop whose body never raises under [P] does not raise either. *)
Lemma rfold_total {A S} (P : list A → S → Prop) (f : A → S → result S) l s :
  (∀ pre a post s1, l = pre ++ a :: post → P pre s1 → ∃ s2, f a s1 = Ok s2 ∧ P (pre ++ [a]) s2) →
  P [] s → ∃ s', rfold f l s = Ok s' ∧ P l s'.
Proof.
  intros Hstep HP.
  enough (∀ pre post s1, l = pre ++ post → P pre s1 → ∃ s', rfold f post s1 = Ok s' ∧ P l s') as Hgen
    by (apply (Hgen [] l s); done).
  intros pre post. revert pre. induction post as [|a post IH]; intros pre s1 -> HP1.
  - exists s1. cbn. by rewrite app_nil_r.
  - destruct (Hstep pre a post s1) as (s2 & Hf & HP2); [done..|].
    destruct (IH (pre ++ [a]) s2) as (s' & Hr & HP'); [by rewrite <- app_assoc|done|].
    exists s'. cbn. rewrite Hf. done.
Qed.

Lemma rmap_Ok {A B} (f : A → result B) (g : A → B) l :
  (∀ a, a ∈ l → f a = Ok (g a)) → rmap f l = Ok (g <$> l).
Proof.
  induction l as [|a l IH]; intros Hf; [done|]. cbn.
  rewrite (Hf a) by left. cbn [mbind result_bind]. by rewrite IH by (intros; apply Hf; by right).
Qed.

Lemma rmap_inv {A B} (f : A → result B) l bs :
  rmap f l = Ok bs → Forall2 (λ a b, f a = Ok b) l bs.
Proof.
  revert bs. induction l as [|a l IH]; cbn; intros bs; [by intros [= <-]; constructor|].
  intros (b & Hb & (bs' & Hbs & [= <-])%bind_Ok)%bind_Ok. constructor; auto.
Qed.

Lemma item_Ok {A} (l : list A) i a : l !! i = Some a → item l i = Ok a.
Proof. unfold item. by intros ->. Qed.

(** ** Total correctness: a computation returns, with a postcondition *)

Definition returns {A} (m : result A) (Q : A → Prop) : Prop := ∃ a, m = Ok a ∧ Q a.

Lemma returns_ret {A} (a : A) (Q : A → Prop) : Q a → returns (Ok a) Q.
Proof. intros Ha. by exists a. Qed.

Lemma returns_bind {A B} (m : result A) (f : A → result B) (Q : B → Prop) :
  returns m (λ a, returns (f a) Q) → returns (m ≫= f) Q.
Proof. intros (a & -> & Hf). exact Hf. Qed.

Lemma returns_guard {B} b e (f : unit → result B) (Q : B → Prop) :
  b = true → returns (f tt) Q → returns (rguard b e ≫= f) Q.
Proof. by intros ->. Qed.

Lemma returns_mono {A} (m : result A) (Q R : A → Prop) :
  returns m Q → (∀ a, Q a → R a) → returns m R.
Proof. intros (a & -> & Ha) H. exists a. auto. Qed.

Lemma returns_rmap {A B} (f : A → result B) (Q : A → B → Prop) l :
  (∀ a, a ∈ l → returns (f a) (Q a)) → returns (rmap f l) (Forall2 Q l).
Proof.
  induction l as [|a l IH]; intros Hf; [by apply returns_ret|].
  cbn [rmap]. apply returns_bind. destruct (Hf a) as (b & -> & Hb); [by left|].
  apply returns_ret, returns_bind. destruct IH as (bs & -> & Hbs); [intros; apply Hf; by right|].
  by do 2 apply returns_ret; constructor.
Qed.

Lemma returns_rfold {A S} (P : list A → S → Prop) (f : A → S → result S) l s :
  P [] s →
  (∀ pre a post s1, l = pre ++ a :: post → P pre s1 → returns (f a s1) (P (pre ++ [a]))) →
  returns (rfold f l s) (P l).
Proof. intros H0 Hstep. by apply rfold_total. Qed.

(** Step through a bind whose first part is known to return. *)
Ltac step_with H := apply returns_bind; eapply returns_mono; [exact H|].

(** ** Lists *)

Section Lists.
Context {A : Type}.
Implicit Types (l : list A) (x : A) (n : nat).

Lemma elem_take x n l : x ∈ take n l → x ∈ l.
Proof. intros Hx. rewrite <- (take_drop n l). apply elem_of_app. by left. Qed.
Lemma elem_drop x n l : x ∈ drop n l → x ∈ l.
Proof. intros Hx. rewrite <- (take_drop n l). apply elem_of_app. by right. Qed.
Lemma NoDup_take n l : NoDup l → NoDup (take n l).
Proof. intros Hl. rewrite <- (take_drop n l) in Hl. by apply NoDup_app in Hl as (? & _). Qed.
Lemma take_drop_disjoint n l x : NoDup l → x ∈ take n l → x ∈ drop n l → False.
Proof.
  intros Hl H1 H2. rewrite <- (take_drop n l) in Hl. apply NoDup_app in Hl as (_ & Hd & _).
  by apply (Hd x).
Qed.
Lemma take_add n m l : take (n + m) l = take n l ++ take m (drop n l).
Proof.
  revert l. induction n as [|n IH]; intros [|x l]; cbn; try done.
  - by rewrite take_nil.
  - by rewrite IH.
Qed.
Lemma lookup_slice start n l k x :
  take n (drop start l) !! k = Some x ↔ l !! (start + k) = Some x ∧ k < n.
Proof.
  destruct (decide (k < n)) as [Hk|Hk].
  - rewrite lookup_take_lt, lookup_drop by done. naive_solver.
  - rewrite lookup_take_ge by lia. naive_solver lia.
Qed.
Lemma filter_ext_in (P Q : A → Prop) `{!∀ x, Decision (P x), !∀ x, Decision (Q x)} l :
  (∀ x, x ∈ l → P x ↔ Q x) → filter P l = filter Q l.
Proof.
  induction l as [|x l IH]; intros HPQ; [done|]. rewrite !filter_cons.
  rewrite IH by (intros y Hy; apply HPQ; by right).
  assert (P x ↔ Q x) by (apply HPQ; left). repeat case_decide; naive_solver.
Qed.
Lemma filter_all (P : A → Prop) `{!∀ x, Decision (P x)} l :
  (∀ x, x ∈ l → P x) → filter P l = l.
Proof.
  induction l as [|x l IH]; intros HP; [done|].
  rewrite filter_cons, decide_True by (apply HP; left).
  f_equal. apply IH. intros y Hy. apply HP. by right.
Qed.
Lemma elem_of_concat x (ls : list (list A)) : x ∈ concat ls ↔ ∃ l, x ∈ l ∧ l ∈ ls.
Proof.
  induction ls as [|l ls IH]; cbn; [split; [by intros ?%elem_of_nil|by intros (? & _ & ?%elem_of_nil)]|].
  rewrite elem_of_app, IH. setoid_rewrite elem_of_cons. naive_solver.
Qed.
Lemma filter_length_lt (P : A → Prop) `{!∀ x, Decision (P x)} l x :
  x ∈ l → ¬ P x → length (filter P l) < length l.
Proof.
  intros Hx HP. induction l as [|y l IH]; [by apply elem_of_nil in Hx|].
  rewrite filter_cons. pose proof (length_filter P l) as Hle.
  apply elem_of_cons in Hx as [<-|Hx]; [rewrite decide_False by done; cbn; lia|].
  specialize (IH Hx). case_decide; cbn; lia.
Qed.
End Lists.

(** ** Arithmetic *)

Lemma mod_mod_trans (a b c : nat) : a mod b = 0 → b mod c = 0 → a mod c = 0.
Proof.
  intros Hab Hbc. pose proof (Nat.div_mod_eq a b). pose proof (Nat.div_mod_eq b c).
  replace a with (a / b * (b / c) * c) by nia. apply Nat.Div0.mod_mul.
Qed.

#[export] Hint Resolve elem_take elem_drop NoDup_take : rllm.

(** ** Sums over a map *)

Definition map_sum {K V} `{Countable K} (f : V → Z) (m : gmap K V) : Z :=
  foldr (λ kv acc, f kv.2 + acc)%Z 0%Z (map_to_list m).

Section MapSum.
Context {K V : Type} `{Countable K} (f : V → Z).
Implicit Types (m : gmap K V).

Lemma foldr_sum_perm (l1 l2 : list (K * V)) :
  l1 ≡ₚ l2 → foldr (λ kv acc, f kv.2 + acc)%Z 0%Z l1 = foldr (λ kv acc, f kv.2 + acc)%Z 0%Z l2.
Proof. induction 1; cbn; lia. Qed.

Lemma map_sum_empty : map_sum f (∅ : gmap K V) = 0%Z.
Proof. unfold map_sum. by rewrite map_to_list_empty. Qed.

Lemma map_sum_insert_None m k v : m !! k = None → map_sum f (<[k:=v]> m) = (f v + map_sum f m)%Z.
Proof. intros Hk. unfold map_sum. by rewrite (foldr_sum_perm _ _ (map_to_list_insert m k v Hk)). Qed.

Lemma map_sum_delete m k v : m !! k = Some v → map_sum f m = (f v + map_sum f (delete k m))%Z.
Proof.
  intros Hk. rewrite <- (insert_delete_id m k v Hk) at 1.
  apply map_sum_insert_None, lookup_delete_eq.
Qed.

Lemma map_sum_insert m k v :
  map_sum f (<[k:=v]> m) = (map_sum f m - match m !! k with Some v' => f v' | None => 0 end + f v)%Z.
Proof.
  destruct (m !! k) as [v'|] eqn:E.
  - rewrite (map_sum_delete (<[k:=v]> m) k v) by apply lookup_insert_eq.
    rewrite delete_insert_eq. rewrite (map_sum_delete m k v' E). lia.
  - rewrite map_sum_insert_None by done. lia.
Qed.

Lemma map_sum_nonneg m : (∀ v, 0 ≤ f v)%Z → (0 ≤ map_sum f m)%Z.
Proof.
  intros Hf. unfold map_sum. induction (map_to_list m) as [|[k v] l IH]; cbn; [lia|].
  pose proof (Hf v). lia.
Qed.

Lemma map_sum_lookup_le m k v : (∀ v, 0 ≤ f v)%Z → m !! k = Some v → (f v ≤ map_sum f m)%Z.
Proof.
  intros Hf Hk. rewrite (map_sum_delete m k v Hk).
  pose proof (map_sum_nonneg (delete k m) Hf). lia.
Qed.
End MapSum.
