(* ===== verification/FreeQueue.v ===== *)
(** * The free-block queue ([FreeBlockQueue] of src/rapid_llm/engine/block_pool.py)

    The intrusive doubly linked list that keeps the free blocks in eviction
    order.  The state is the heap of [prev_free_block] / [next_free_block]
    fields, the two sentinels included; [repr q l] says that the heap [q] holds
    exactly the list of block ids [l], and each operation is proved to act on
    the heap as its list counterpart acts on [l]. *)

From S2P Require Export Prelude.

Module FreeBlockQueue.

(** A node of the list: a sentinel or the block with that id.  The two
    sentinels carry the same [block_id] in the code and are told apart by
    identity. *)
Inductive ref :=
  | Head
  | Tail
  | Blk (i : nat).

#[global] Instance ref_eq_dec : EqDecision ref.
Proof. solve_decision. Defined.

#[global] Instance ref_countable : Countable ref.
Proof.
  refine (inj_countable' (λ r, match r with Head => inl true | Tail => inl false | Blk i => inr i end)
    (λ s, match s with inl true => Head | inl false => Tail | inr i => Blk i end) _).
  by intros [].
Defined.

(** The two link fields of a block. *)
Record link := Link {
  prev_free_block : option ref;
  next_free_block : option ref;
}.

Definition no_link : link := Link None None.

Record queue := Queue {
  links : gmap ref link;
  num_free_blocks : Z;
}.

Definition get_link (q : queue) (r : ref) : link := default no_link (links q !! r).
Definition get_prev (q : queue) (r : ref) : option ref := prev_free_block (get_link q r).
Definition get_next (q : queue) (r : ref) : option ref := next_free_block (get_link q r).

(** [r.next_free_block = x] and [r.prev_free_block = x]. *)
Definition set_next (r : ref) (x : option ref) (q : queue) : queue :=
  Queue (<[r := Link (get_prev q r) x]> (links q)) (num_free_blocks q).
Definition set_prev (r : ref) (x : option ref) (q : queue) : queue :=
  Queue (<[r := Link x (get_next q r)]> (links q)) (num_free_blocks q).
Definition add_free (d : Z) (q : queue) : queue :=
  Queue (links q) (num_free_blocks q + d)%Z.

Definition append (block : nat) (q : queue) : result queue :=
  match get_prev q Tail with
  | None => Err AssertionError
  | Some prev =>
      let q := set_next prev (Some (Blk block)) q in
      let q := set_prev (Blk block) (Some prev) q in
      let q := set_next (Blk block) (Some Tail) q in
      let q := set_prev Tail (Some (Blk block)) q in
      Ok (add_free 1 q)
  end.

Definition prepend (block : nat) (q : queue) : result queue :=
  match get_next q Head with
  | None => Err AssertionError
  | Some nxt =>
      let q := set_next Head (Some (Blk block)) q in
      let q := set_prev (Blk block) (Some Head) q in
      let q := set_next (Blk block) (Some nxt) q in
      let q := set_prev nxt (Some (Blk block)) q in
      Ok (add_free 1 q)
  end.

Definition remove (block : nat) (q : queue) : result queue :=
  match get_prev q (Blk block), get_next q (Blk block) with
  | Some prev, Some nxt =>
      let q := set_next prev (Some nxt) q in
      let q := set_prev nxt (Some prev) q in
      let q := set_next (Blk block) None (set_prev (Blk block) None q) in
      Ok (add_free (-1) q)
  | _, _ => Err ValueError
  end.

Definition popleft (q : queue) : result (nat * queue) :=
  match get_next q Head with
  | Some (Blk block) => q' ← remove block q; Ok (block, q')
  | _ => Err IndexError
  end.

(** [FreeBlockQueue.__init__]: link the sentinels, then append each block. *)
Definition queue_init (blocks : list nat) : result queue :=
  let q := Queue ∅ 0 in
  let q := set_next Head (Some Tail) q in
  let q := set_prev Tail (Some Head) q in
  rfold append blocks q.

(** [__iter__]: walk the [next] fields from the head until the tail sentinel. *)
Fixpoint walk (fuel : nat) (r : option ref) (q : queue) : list nat :=
  match fuel, r with
  | S fuel, Some (Blk b) => b :: walk fuel (get_next q (Blk b)) q
  | _, _ => []
  end.

Definition iter (q : queue) : list nat :=
  walk (Z.to_nat (num_free_blocks q)) (get_next q Head) q.

(** ** The abstraction *)

(** [linked q a b]: [b] follows [a], seen from both sides. *)
Definition linked (q : queue) (a b : ref) : Prop :=
  get_next q a = Some b ∧ get_prev q b = Some a.

(** The nodes of [l] are chained in order between [a] and [z]. *)
Fixpoint seg (q : queue) (a : ref) (l : list nat) (z : ref) : Prop :=
  match l with
  | [] => linked q a z
  | b :: l' => linked q a (Blk b) ∧ seg q (Blk b) l' z
  end.

Record repr (q : queue) (l : list nat) : Prop := {
  repr_nodup : NoDup l;
  repr_seg : seg q Head l Tail;
  repr_out : ∀ b, b ∉ l → get_link q (Blk b) = no_link;
  repr_len : num_free_blocks q = Z.of_nat (length l);
}.

(** The node before the end of [seg q a l z], and the one after its start. *)
Definition last_ref (a : ref) (l : list nat) : ref :=
  match last l with None => a | Some b => Blk b end.
Definition head_ref (l : list nat) (z : ref) : ref :=
  match l with [] => z | b :: _ => Blk b end.

(** ** Heap lemmas *)

Lemma get_next_set_next q r x r' :
  get_next (set_next r x q) r' = if decide (r = r') then x else get_next q r'.
Proof.
  unfold get_next, get_link, set_next; cbn. rewrite lookup_insert.
  by case_decide.
Qed.
Lemma get_next_set_prev q r x r' : get_next (set_prev r x q) r' = get_next q r'.
Proof.
  unfold get_next, get_link, set_prev; cbn. rewrite lookup_insert.
  by case_decide; subst.
Qed.
Lemma get_prev_set_prev q r x r' :
  get_prev (set_prev r x q) r' = if decide (r = r') then x else get_prev q r'.
Proof.
  unfold get_prev, get_link, set_prev; cbn. rewrite lookup_insert.
  by case_decide.
Qed.
Lemma get_prev_set_next q r x r' : get_prev (set_next r x q) r' = get_prev q r'.
Proof.
  unfold get_prev, get_link, set_next; cbn. rewrite lookup_insert.
  by case_decide; subst.
Qed.
Lemma get_next_add q d r : get_next (add_free d q) r = get_next q r.
Proof. done. Qed.
Lemma get_prev_add q d r : get_prev (add_free d q) r = get_prev q r.
Proof. done. Qed.

#[global] Hint Rewrite get_next_set_next get_next_set_prev get_prev_set_prev
  get_prev_set_next get_next_add get_prev_add : queue.

(** Compute link reads through a sequence of writes. *)
Ltac links :=
  autorewrite with queue in *;
  repeat (case_decide || (rewrite decide_False by done) || simplify_eq);
  autorewrite with queue in *;
  try done.

Lemma link_eta q r : get_link q r = Link (get_prev q r) (get_next q r).
Proof. unfold get_prev, get_next. by destruct (get_link q r). Qed.

Lemma no_link_iff q r : get_link q r = no_link ↔ get_prev q r = None ∧ get_next q r = None.
Proof. rewrite link_eta. unfold no_link. split; [by intros [= -> ->]|by intros [-> ->]]. Qed.

(** ** Segments *)

Lemma seg_app q a l1 b l2 z :
  seg q a (l1 ++ b :: l2) z ↔ seg q a l1 (Blk b) ∧ seg q (Blk b) l2 z.
Proof.
  revert a. induction l1 as [|c l1 IH]; intros a; cbn; [done|].
  rewrite IH. tauto.
Qed.

Lemma seg_frame q q' a l z :
  seg q a l z →
  (∀ r, r = a ∨ (∃ b, b ∈ l ∧ r = Blk b) → get_next q' r = get_next q r) →
  (∀ r, r = z ∨ (∃ b, b ∈ l ∧ r = Blk b) → get_prev q' r = get_prev q r) →
  seg q' a l z.
Proof.
  revert a. induction l as [|b l IH]; intros a Hs Hn Hp; cbn in *.
  - destruct Hs. split; [rewrite Hn|rewrite Hp]; auto.
  - destruct Hs as [[H1 H2] Hs]. split.
    + split; [rewrite Hn|rewrite Hp]; auto. right; exists b; split; [left|done].
    + apply IH; [done| |].
      * intros r [->|(c & Hc & ->)]; apply Hn; right; eexists; (split; [|done]); set_solver.
      * intros r [->|(c & Hc & ->)]; apply Hp; [by left|right]. exists c. set_solver.
Qed.

Lemma last_ref_cons a b l : last_ref a (b :: l) = last_ref (Blk b) l.
Proof. unfold last_ref. rewrite last_cons. by destruct (last l). Qed.

Lemma seg_prev q a l z : seg q a l z → get_prev q z = Some (last_ref a l).
Proof.
  revert a. induction l as [|b l IH]; intros a; cbn.
  - by intros [_ ?].
  - intros [_ Hs]. by rewrite (IH _ Hs), last_ref_cons.
Qed.

Lemma seg_next q a l z : seg q a l z → get_next q a = Some (head_ref l z).
Proof. destruct l; cbn; unfold linked; naive_solver. Qed.

(** Redirect the end of a segment to another node. *)
Lemma seg_retarget q q' a l z z' :
  NoDup l → a ∉ (Blk <$> l) →
  seg q a l z →
  get_next q' (last_ref a l) = Some z' → get_prev q' z' = Some (last_ref a l) →
  (∀ r, r ≠ last_ref a l → r = a ∨ (∃ b, b ∈ l ∧ r = Blk b) → get_next q' r = get_next q r) →
  (∀ b, b ∈ l → get_prev q' (Blk b) = get_prev q (Blk b)) →
  seg q' a l z'.
Proof.
  intros Hnd Ha Hs Hln Hzp Hn Hp.
  destruct (decide (l = [])) as [->|Hne]; [by split|].
  destruct (exists_last Hne) as (l' & c & ->).
  assert (Hlast : last_ref a (l' ++ [c]) = Blk c) by (unfold last_ref; by rewrite last_snoc).
  rewrite Hlast in Hln, Hzp, Hn.
  apply seg_app in Hs as [Hs1 _]. apply seg_app. split; [|by split].
  apply NoDup_app in Hnd as (Hnd & Hdisj & _).
  eapply seg_frame; [done| |].
  - intros r Hr. apply Hn.
    + intros ->. destruct Hr as [<-|(b & Hb & [= <-])].
      * apply Ha. apply list_elem_of_fmap. exists c. split; [done|]. set_solver.
      * by apply (Hdisj c), list_elem_of_singleton.
    + destruct Hr as [->|(b & Hb & ->)]; [by left|right].
      exists b. set_solver.
  - intros r Hr. destruct Hr as [->|(b & Hb & ->)]; apply Hp; set_solver.
Qed.

(** Redirect the start of a segment to another node. *)
Lemma seg_restart q q' a a' l z :
  NoDup l → z ∉ (Blk <$> l) →
  seg q a l z →
  get_prev q' (head_ref l z) = Some a' → get_next q' a' = Some (head_ref l z) →
  (∀ r, r ≠ head_ref l z → r = z ∨ (∃ b, b ∈ l ∧ r = Blk b) → get_prev q' r = get_prev q r) →
  (∀ b, b ∈ l → get_next q' (Blk b) = get_next q (Blk b)) →
  seg q' a' l z.
Proof.
  intros Hnd Hz Hs Hhp Han Hp Hn. destruct l as [|b l]; cbn in *; [by split|].
  destruct Hs as [_ Hs]. split; [by split|]. apply NoDup_cons in Hnd as [Hb Hnd].
  eapply seg_frame; [done| |].
  - intros r [->|(c & Hc & ->)]; apply Hn; set_solver.
  - intros r Hr. apply Hp; [|destruct Hr as [->|(c & Hc & ->)]; [by left|right; set_solver]].
    intros ->. destruct Hr as [<-|(c & Hc & [= <-])]; set_solver.
Qed.

Lemma last_ref_in a l : last_ref a l = a ∨ ∃ c, c ∈ l ∧ last_ref a l = Blk c.
Proof.
  unfold last_ref. destruct (last l) as [c|] eqn:E; [right|by left].
  exists c. split; [|done]. by apply last_Some_elem_of.
Qed.
Lemma head_ref_in l z : head_ref l z = z ∨ ∃ c, c ∈ l ∧ head_ref l z = Blk c.
Proof. destruct l as [|c l]; [by left|right]. exists c. split; [left|done]. Qed.

Lemma sentinel_notin (r : ref) (l : list nat) : r = Head ∨ r = Tail → r ∉ Blk <$> l.
Proof. intros Hr (c & -> & _)%list_elem_of_fmap. naive_solver. Qed.

(** A node of a represented list is never linked to nothing, and conversely. *)
Lemma repr_in_linked q l b : repr q l → b ∈ l →
  ∃ l1 l2, l = l1 ++ b :: l2 ∧ b ∉ l1 ∧ b ∉ l2 ∧
    get_prev q (Blk b) = Some (last_ref Head l1) ∧ get_next q (Blk b) = Some (head_ref l2 Tail) ∧
    seg q Head l1 (Blk b) ∧ seg q (Blk b) l2 Tail.
Proof.
  intros [Hnd Hs _ _] (l1 & l2 & ->)%list_elem_of_split.
  apply seg_app in Hs as [Hs1 Hs2].
  exists l1, l2. rewrite (seg_prev _ _ _ _ Hs1), (seg_next _ _ _ _ Hs2).
  apply NoDup_app in Hnd as (_ & Hd & [? ?]%NoDup_cons).
  split_and!; try done. intros ?. apply (Hd b); [done|left].
Qed.

(** ** The operations refine the list operations *)

Lemma append_repr q l b :
  repr q l → b ∉ l → ∃ q', append b q = Ok q' ∧ repr q' (l ++ [b]).
Proof.
  intros [Hnd Hs Hout Hlen] Hb. unfold append.
  rewrite (seg_prev _ _ _ _ Hs). eexists; split; [done|].
  assert (Hlast : last_ref Head l ≠ Blk b).
  { destruct (last_ref_in Head l) as [->|(c & Hc & ->)]; [done|]. by intros [= ->]. }
  split.
  - apply NoDup_app. split_and!; [done|set_solver|apply NoDup_singleton].
  - apply seg_app. split; [|split; links].
    eapply seg_retarget; [done| |exact Hs|links..].
    + by apply sentinel_notin; left.
    + intros r Hr Hin. links. by destruct Hin as [?|(?&?&?)]; simplify_eq.
    + intros c Hc. links.
  - intros b' [Hb' [Hne _]%not_elem_of_cons]%not_elem_of_app. specialize (Hout _ Hb').
    apply no_link_iff. apply no_link_iff in Hout as [? ?].
    split; links. destruct (last_ref_in Head l) as [E|(c & Hc & E)]; congruence.
  - cbn. rewrite Hlen, length_app. cbn. lia.
Qed.

Lemma prepend_repr q l b :
  repr q l → b ∉ l → ∃ q', prepend b q = Ok q' ∧ repr q' (b :: l).
Proof.
  intros [Hnd Hs Hout Hlen] Hb. unfold prepend.
  rewrite (seg_next _ _ _ _ Hs). eexists; split; [done|].
  assert (Hhead : head_ref l Tail ≠ Blk b).
  { destruct (head_ref_in l Tail) as [->|(c & Hc & ->)]; [done|]. by intros [= ->]. }
  split.
  - by apply NoDup_cons.
  - cbn. split; [split; links|].
    eapply seg_restart; [done| |exact Hs|links..].
    + by apply sentinel_notin; right.
    + intros r Hr Hin. links. by destruct Hin as [?|(?&?&?)]; simplify_eq.
    + intros c Hc. links.
  - intros b' [Hne Hb']%not_elem_of_cons. specialize (Hout _ Hb').
    apply no_link_iff. apply no_link_iff in Hout as [? ?].
    split; links. destruct (head_ref_in l Tail) as [E|(c & Hc & E)]; congruence.
  - cbn. rewrite Hlen. lia.
Qed.

Lemma seg_join q a l1 l2 z :
  seg q a l1 (head_ref l2 z) → seg q (last_ref a l1) l2 z → seg q a (l1 ++ l2) z.
Proof.
  destruct l2 as [|b l2]; cbn; [by rewrite app_nil_r|].
  intros H1 [_ H2]. by apply seg_app.
Qed.

Lemma remove_repr_split q l1 b l2 :
  repr q (l1 ++ b :: l2) → ∃ q', remove b q = Ok q' ∧ repr q' (l1 ++ l2).
Proof.
  intros [Hnd Hs Hout Hlen].
  apply seg_app in Hs as [Hs1 Hs2].
  assert (Hnd' := Hnd).
  apply NoDup_app in Hnd as (Hnd1 & Hd & [Hb2 Hnd2]%NoDup_cons).
  assert (Hb1 : b ∉ l1) by (intros ?; apply (Hd b); [done|left]).
  unfold remove. rewrite (seg_prev _ _ _ _ Hs1), (seg_next _ _ _ _ Hs2).
  eexists; split; [done|].
  assert (Hlast : last_ref Head l1 ≠ Blk b).
  { destruct (last_ref_in Head l1) as [->|(c & Hc & ->)]; [done|]. by intros [= ->]. }
  assert (Hhead : head_ref l2 Tail ≠ Blk b).
  { destruct (head_ref_in l2 Tail) as [->|(c & Hc & ->)]; [done|]. by intros [= ->]. }
  assert (Hl1 : ∀ c, c ∈ l1 → Blk c ≠ head_ref l2 Tail).
  { intros c Hc. destruct (head_ref_in l2 Tail) as [->|(d & Hd' & ->)]; [done|].
    intros [= ->]. apply (Hd d); [done|by right]. }
  assert (Hl2 : ∀ c, c ∈ l2 → Blk c ≠ last_ref Head l1).
  { intros c Hc. destruct (last_ref_in Head l1) as [->|(d & Hd' & ->)]; [done|].
    intros [= ->]. apply (Hd d); [done|by right]. }
  split.
  - apply NoDup_app. split_and!; [done| |done]. intros c Hc Hc2. apply (Hd c); [done|by right].
  - apply seg_join.
    + eapply seg_retarget; [done| |exact Hs1|links..].
      * by apply sentinel_notin; left.
      * intros r Hr Hin. links. by destruct Hin as [?|(?&?&?)]; simplify_eq.
      * intros c Hc. specialize (Hl1 c Hc). links.
    + eapply seg_restart; [done| |exact Hs2|links..].
      * by apply sentinel_notin; right.
      * intros r Hr Hin. links. by destruct Hin as [?|(?&?&?)]; simplify_eq.
      * intros c Hc. specialize (Hl2 c Hc). links.
  - intros b' [Hb1' Hb2']%not_elem_of_app. apply no_link_iff.
    destruct (decide (b' = b)) as [->|Hne]; [by split; links|].
    assert (Hout' : b' ∉ l1 ++ b :: l2) by set_solver.
    apply Hout, no_link_iff in Hout' as [? ?].
    destruct (last_ref_in Head l1) as [E1|(c1 & Hc1 & E1)],
      (head_ref_in l2 Tail) as [E2|(c2 & Hc2 & E2)]; rewrite E1, E2; split; links.
  - cbn. rewrite Hlen, !length_app. cbn. lia.
Qed.

Lemma NoDup_filter_ne (l1 l2 : list nat) b :
  NoDup (l1 ++ b :: l2) → filter (λ x, x ≠ b) (l1 ++ b :: l2) = l1 ++ l2.
Proof.
  intros (_ & Hd & [Hb2 _]%NoDup_cons)%NoDup_app.
  assert (Hb1 : b ∉ l1) by (intros ?; apply (Hd b); [done|left]).
  assert (Hid : ∀ l : list nat, b ∉ l → filter (λ x, x ≠ b) l = l).
  { induction l as [|c l IH]; intros Hb; [done|].
    rewrite filter_cons, decide_True by set_solver. f_equal. apply IH. set_solver. }
  rewrite filter_app, filter_cons, decide_False by naive_solver.
  by rewrite !Hid.
Qed.

Lemma remove_repr q l b :
  repr q l → b ∈ l → ∃ q', remove b q = Ok q' ∧ repr q' (filter (λ x, x ≠ b) l).
Proof.
  intros Hr (l1 & l2 & ->)%list_elem_of_split.
  rewrite NoDup_filter_ne by apply Hr. by apply remove_repr_split.
Qed.

Lemma remove_absent q l b : repr q l → b ∉ l → remove b q = Err ValueError.
Proof.
  intros Hr Hb. apply (repr_out _ _ Hr), no_link_iff in Hb as [Hp _].
  unfold remove. by rewrite Hp.
Qed.

Lemma popleft_repr q b l :
  repr q (b :: l) → ∃ q', popleft q = Ok (b, q') ∧ repr q' l.
Proof.
  intros Hr. unfold popleft.
  rewrite (seg_next _ _ _ _ (repr_seg _ _ Hr)). cbn.
  destruct (remove_repr_split q [] b l Hr) as (q' & -> & ?). by exists q'.
Qed.

Lemma popleft_empty q : repr q [] → popleft q = Err IndexError.
Proof.
  intros Hr. unfold popleft. by rewrite (seg_next _ _ _ _ (repr_seg _ _ Hr)).
Qed.

Lemma walk_seg q a l z fuel :
  seg q a l z → (∀ b, z ≠ Blk b) → length l ≤ fuel → walk fuel (get_next q a) q = l.
Proof.
  revert a fuel. induction l as [|b l IH]; intros a fuel Hs Hz Hf.
  - destruct Hs as [-> _]. destruct fuel, z; naive_solver.
  - destruct Hs as [[-> _] Hs]. cbn in Hf. destruct fuel as [|fuel]; [lia|]. cbn.
    f_equal. apply IH; [done|done|lia].
Qed.

(** The iterator yields exactly the represented list, so [repr] is functional. *)
Lemma iter_repr q l : repr q l → iter q = l.
Proof.
  intros [Hnd Hs Hout Hlen]. unfold iter.
  eapply walk_seg; [done|done|lia].
Qed.

Lemma repr_fun q l1 l2 : repr q l1 → repr q l2 → l1 = l2.
Proof. intros <-%iter_repr <-%iter_repr. done. Qed.

Lemma repr_empty :
  repr (set_prev Tail (Some Head) (set_next Head (Some Tail) (Queue ∅ 0))) [].
Proof.
  split; [by apply NoDup_nil|split; links| |done].
  intros b _. apply no_link_iff. split; links.
Qed.

Lemma queue_init_repr blocks :
  NoDup blocks → ∃ q, queue_init blocks = Ok q ∧ repr q blocks.
Proof.
  intros Hnd. unfold queue_init.
  destruct (rfold_total (λ done q, repr q done) append blocks
    (set_prev Tail (Some Head) (set_next Head (Some Tail) (Queue ∅ 0)))) as (q & -> & Hq);
    [|apply repr_empty|by exists q].
  intros pre b post s1 -> Hr. apply append_repr; [done|].
  apply NoDup_app in Hnd as (_ & Hd & _). intros Hb. apply (Hd b); [done|left].
Qed.

#[global] Hint Resolve append_repr prepend_repr remove_repr popleft_repr : rllm.

(** ** Properties *)

(** C39: the doubly linked free queue implements a list.  On a heap holding the
    list [l], iterating yields [l]; appending and prepending a block that is not
    queued add it at that end; removing a queued block takes it out wherever it
    sits, and removing one that is not queued raises [ValueError]; [popleft]
    takes the front and raises [IndexError] on the empty queue. *)
Theorem queue_refines_list q l (Hr : repr q l) :
  iter q = l ∧
  (∀ b, b ∉ l →
    (∃ q', append b q = Ok q' ∧ repr q' (l ++ [b])) ∧
    (∃ q', prepend b q = Ok q' ∧ repr q' (b :: l)) ∧
    remove b q = Err ValueError) ∧
  (∀ b, b ∈ l → ∃ q', remove b q = Ok q' ∧ repr q' (filter (λ x, x ≠ b) l)) ∧
  match l with
  | [] => popleft q = Err IndexError
  | b :: l' => ∃ q', popleft q = Ok (b, q') ∧ repr q' l'
  end.
Proof.
  split; [by apply iter_repr|]. split; [|split; [by eauto with rllm|]].
  - intros b Hb. split_and!; eauto using remove_absent with rllm.
  - destruct l; eauto using popleft_empty with rllm.
Qed.

Lemma queue_refines_list_witness :
  ∃ q q', queue_init [3; 1; 2] = Ok q ∧ iter q = [3; 1; 2] ∧
    remove 1 q = Ok q' ∧ iter q' = [3; 2].
Proof.
  destruct (queue_init_repr [3; 1; 2]) as (q & Hq & Hr).
  { apply (bool_decide_eq_true_1 _). reflexivity. }
  destruct (queue_refines_list q _ Hr) as (Hi & _ & Hrem & _).
  destruct (Hrem 1) as (q' & Hq' & Hr'); [right; left|].
  exists q, q'. split_and!; [done..|]. by apply iter_repr in Hr'.
Defined.

End FreeBlockQueue.
