(* ===== verification/BlockPool.v ===== *)
(** * The physical block pool ([BlockPool] of src/rapid_llm/engine/block_pool.py)

    Reference counts, the free queue and the block-hash index of the KV cache.
    A block object is named by its id, its position in [blocks]; an inner
    dictionary [block id -> block] of the hash index is the list of its keys in
    insertion order. *)

From S2P Require Export FreeQueue.

Module Pool.

(** [NULL_BLOCK_ID]. *)
Definition NULL_BLOCK_ID : nat := 0.

(** The fields of a block other than the two link fields, which live in the
    heap of the free queue. *)
Record KVCacheBlock := Block {
  block_id : nat;
  ref_cnt : Z;
  block_hash : option Z;
}.

(** [BlockPool] with the two counters of [BlockPoolStats] inlined. *)
Record BlockPool := MkPool {
  num_blocks : nat;
  block_size : nat;
  enable_caching : bool;
  evictions : Z;
  resets : Z;
  blocks : list KVCacheBlock;
  free_block_queue : FreeBlockQueue.queue;
  cached_block_hash_to_block : gmap Z (list nat);
}.

(** ** Attribute writes *)

Definition set_blocks (bs : list KVCacheBlock) (p : BlockPool) : BlockPool :=
  MkPool (num_blocks p) (block_size p) (enable_caching p) (evictions p) (resets p)
    bs (free_block_queue p) (cached_block_hash_to_block p).
Definition set_queue (q : FreeBlockQueue.queue) (p : BlockPool) : BlockPool :=
  MkPool (num_blocks p) (block_size p) (enable_caching p) (evictions p) (resets p)
    (blocks p) q (cached_block_hash_to_block p).
Definition set_index (m : gmap Z (list nat)) (p : BlockPool) : BlockPool :=
  MkPool (num_blocks p) (block_size p) (enable_caching p) (evictions p) (resets p)
    (blocks p) (free_block_queue p) m.
Definition set_stats (e r : Z) (p : BlockPool) : BlockPool :=
  MkPool (num_blocks p) (block_size p) (enable_caching p) e r
    (blocks p) (free_block_queue p) (cached_block_hash_to_block p).

Definition get_block (p : BlockPool) (i : nat) : result KVCacheBlock :=
  match blocks p !! i with Some b => Ok b | None => Err IndexError end.
Definition set_ref (i : nat) (n : Z) (p : BlockPool) : BlockPool :=
  set_blocks (alter (λ b, Block (block_id b) n (block_hash b)) i (blocks p)) p.
Definition set_hash (i : nat) (h : option Z) (p : BlockPool) : BlockPool :=
  set_blocks (alter (λ b, Block (block_id b) (ref_cnt b) h) i (blocks p)) p.

(** ** Construction and views *)

Definition init (num_blocks block_size : nat) (enable_caching : bool) : result BlockPool :=
  _ ← rguard (bool_decide (2 ≤ num_blocks)) ValueError;
  _ ← rguard (bool_decide (1 ≤ block_size)) ValueError;
  let blocks := (λ i, Block i (if decide (i = NULL_BLOCK_ID) then 1 else 0) None)
                  <$> seq 0 num_blocks in
  q ← FreeBlockQueue.queue_init (seq (NULL_BLOCK_ID + 1) (num_blocks - 1));
  Ok (MkPool num_blocks block_size enable_caching 0 0 blocks q ∅).

Definition num_free_blocks (p : BlockPool) : Z :=
  FreeBlockQueue.num_free_blocks (free_block_queue p).
Definition num_used_blocks (p : BlockPool) : Z :=
  Z.of_nat (num_blocks p) - num_free_blocks p.
Definition num_cached_blocks (p : BlockPool) : nat :=
  sum_list (length ∘ snd <$> map_to_list (cached_block_hash_to_block p)).

(** ** Lookup *)

(** The first block inserted under that hash and still there. *)
Definition get_cached_block (block_hash : Z) (p : BlockPool) : option nat :=
  match cached_block_hash_to_block p !! block_hash with
  | Some (i :: _) => Some i
  | _ => None
  end.

(** ** Allocation *)

(** [by_id.pop(i, None)], dropping the hash when its dictionary empties. *)
Definition index_evict (h : Z) (i : nat) (m : gmap Z (list nat)) : gmap Z (list nat) :=
  match m !! h with
  | None => m
  | Some by_id =>
      let by_id' := filter (λ j, j ≠ i) by_id in
      if decide (by_id' = []) then delete h m else <[h := by_id']> m
  end.

(** [_maybe_evict_cached_block] *)
Definition maybe_evict_cached_block (i : nat) (p : BlockPool) : BlockPool :=
  match blocks p !! i ≫= block_hash with
  | None => p
  | Some h =>
      let p := set_index (index_evict h i (cached_block_hash_to_block p)) p in
      let p := set_hash i None p in
      set_stats (evictions p + 1) (resets p) p
  end.

(** One turn of the loop of [get_new_blocks]. *)
Definition take_block (p : BlockPool) : result (nat * BlockPool) :=
  '(i, q) ← FreeBlockQueue.popleft (free_block_queue p);
  let p := set_queue q p in
  b ← get_block p i;
  _ ← rguard (ref_cnt b =? 0)%Z AssertionError;
  Ok (i, set_ref i 1 (maybe_evict_cached_block i p)).

Fixpoint take_blocks (n : nat) (p : BlockPool) : result (list nat * BlockPool) :=
  match n with
  | 0 => Ok ([], p)
  | S n =>
      '(i, p) ← take_block p;
      '(taken, p) ← take_blocks n p;
      Ok (i :: taken, p)
  end.

Definition get_new_blocks (n : Z) (p : BlockPool) : result (option (list nat) * BlockPool) :=
  _ ← rguard (0 <=? n)%Z ValueError;
  if (num_free_blocks p <? n)%Z then Ok (None, p)
  else
    '(taken, p) ← take_blocks (Z.to_nat n) p;
    Ok (Some taken, p).

Definition touch_one (i : nat) (p : BlockPool) : result BlockPool :=
  if decide (i = NULL_BLOCK_ID) then Ok p
  else
    b ← get_block p i;
    p ← (if (ref_cnt b =? 0)%Z
         then q ← FreeBlockQueue.remove i (free_block_queue p); Ok (set_queue q p)
         else Ok p);
    Ok (set_ref i (ref_cnt b + 1) p).

Definition touch (ids : list nat) (p : BlockPool) : result BlockPool :=
  rfold touch_one ids p.

Definition free_one (i : nat) (p : BlockPool) : result BlockPool :=
  if decide (i = NULL_BLOCK_ID) then Ok p
  else
    b ← get_block p i;
    _ ← rguard (0 <? ref_cnt b)%Z ValueError;
    let n := (ref_cnt b - 1)%Z in
    let p := set_ref i n p in
    if (0 <? n)%Z then Ok p
    else
      q ← (match block_hash b with
           | None => FreeBlockQueue.prepend i (free_block_queue p)
           | Some _ => FreeBlockQueue.append i (free_block_queue p)
           end);
      Ok (set_queue q p).

Definition free_blocks (ordered_blocks : list nat) (p : BlockPool) : result BlockPool :=
  rfold free_one ordered_blocks p.

(** ** The hash index *)

(** [index.setdefault(h, {})[i] = block] *)
Definition index_insert (h : Z) (i : nat) (m : gmap Z (list nat)) : gmap Z (list nat) :=
  let by_id := default [] (m !! h) in
  <[h := if decide (i ∈ by_id) then by_id else by_id ++ [i]]> m.

Definition cache_one (ih : nat * Z) (p : BlockPool) : result BlockPool :=
  let '(i, h) := ih in
  if decide (i = NULL_BLOCK_ID) then Ok p
  else
    b ← get_block p i;
    match block_hash b with
    | Some _ => Ok p
    | None =>
        let p := set_hash i (Some h) p in
        Ok (set_index (index_insert h i (cached_block_hash_to_block p)) p)
    end.

Definition cache_full_blocks (ids : list nat) (block_hashes : list Z) (p : BlockPool) :
    result BlockPool :=
  if negb (enable_caching p) then Ok p
  else
    _ ← rguard (bool_decide (length ids = length block_hashes)) ValueError;
    rfold cache_one (zip ids block_hashes) p.

Definition reset_prefix_cache (p : BlockPool) : bool * BlockPool :=
  if decide (num_used_blocks p ≠ 1%Z) then (false, p)
  else
    let p := set_blocks ((λ b, Block (block_id b) (ref_cnt b) None) <$> blocks p) p in
    let p := set_index ∅ p in
    (true, set_stats (evictions p) (resets p + 1) p).

(** ** Views and the well-formedness invariant *)

Definition free_list (p : BlockPool) : list nat := FreeBlockQueue.iter (free_block_queue p).
Definition refc (p : BlockPool) (i : nat) : Z := default 0%Z (ref_cnt <$> blocks p !! i).
Definition bhash (p : BlockPool) (i : nat) : option Z := blocks p !! i ≫= block_hash.
Definition index (p : BlockPool) (h : Z) : list nat :=
  default [] (cached_block_hash_to_block p !! h).

(** The pool's ledgers agree: the queue holds the blocks nobody references, the
    hash index holds the blocks that carry that hash, and the null block keeps
    its permanent reference. *)
Record wf (p : BlockPool) : Prop := {
  wf_len : length (blocks p) = num_blocks p;
  wf_min : 2 ≤ num_blocks p;
  wf_bs : 1 ≤ block_size p;
  wf_id : ∀ i b, blocks p !! i = Some b → block_id b = i;
  wf_null : refc p NULL_BLOCK_ID = 1%Z ∧ bhash p NULL_BLOCK_ID = None;
  wf_repr : FreeBlockQueue.repr (free_block_queue p) (free_list p);
  wf_free : ∀ i, i ∈ free_list p ↔ i < num_blocks p ∧ refc p i = 0%Z;
  wf_ref : ∀ i, (0 ≤ refc p i)%Z;
  wf_index : ∀ h i, i ∈ index p h ↔ bhash p i = Some h;
  wf_index_nodup : ∀ h, NoDup (index p h);
  wf_index_ne : ∀ h, cached_block_hash_to_block p !! h ≠ Some [];
}.

(** The eviction order: blocks with nothing to lose come before cached ones. *)
Definition hashless_first (p : BlockPool) : Prop :=
  ∃ l1 l2, free_list p = l1 ++ l2 ∧
    Forall (λ i, bhash p i = None) l1 ∧ Forall (λ i, bhash p i ≠ None) l2.

(** Two pools of one geometry. *)
Definition same_geometry (p p' : BlockPool) : Prop :=
  num_blocks p' = num_blocks p ∧ block_size p' = block_size p ∧
  enable_caching p' = enable_caching p.

(** References a list of block ids accounts for, the null block excepted. *)
Fixpoint uses (i : nat) (l : list nat) : Z :=
  match l with
  | [] => 0
  | j :: l' => (if decide (j = i ∧ j ≠ NULL_BLOCK_ID) then 1 else 0) + uses i l'
  end.

(** ** Reading the views through attribute writes *)

Section Views.
Implicit Types (p : BlockPool) (i j : nat).

Lemma refc_set_ref p i n j :
  i < length (blocks p) → refc (set_ref i n p) j = if decide (i = j) then n else refc p j.
Proof.
  intros Hi. unfold refc, set_ref, set_blocks; cbn. rewrite list_lookup_alter.
  case_decide as E; [subst|done].
  destruct (lookup_lt_is_Some_2 (blocks p) j Hi) as [b ->]. done.
Qed.
Lemma bhash_set_ref p i n j : bhash (set_ref i n p) j = bhash p j.
Proof.
  unfold bhash, set_ref, set_blocks; cbn. rewrite list_lookup_alter.
  case_decide; [subst|done]. by destruct (blocks p !! j).
Qed.
Lemma refc_set_hash p i h j : refc (set_hash i h p) j = refc p j.
Proof.
  unfold refc, set_hash, set_blocks; cbn. rewrite list_lookup_alter.
  case_decide; [subst|done]. by destruct (blocks p !! j).
Qed.
Lemma bhash_set_hash p i h j :
  i < length (blocks p) → bhash (set_hash i h p) j = if decide (i = j) then h else bhash p j.
Proof.
  intros Hi. unfold bhash, set_hash, set_blocks; cbn. rewrite list_lookup_alter.
  case_decide as E; [subst|done].
  destruct (lookup_lt_is_Some_2 (blocks p) j Hi) as [b ->]. done.
Qed.
Lemma length_set_ref p i n : length (blocks (set_ref i n p)) = length (blocks p).
Proof. apply length_alter. Qed.
Lemma length_set_hash p i h : length (blocks (set_hash i h p)) = length (blocks p).
Proof. apply length_alter. Qed.

Lemma ids_alter (bs : list KVCacheBlock) f i :
  (∀ b, block_id (f b) = block_id b) →
  (∀ j b, bs !! j = Some b → block_id b = j) →
  ∀ j b, alter f i bs !! j = Some b → block_id b = j.
Proof.
  intros Hf Hid j b. rewrite list_lookup_alter. case_decide; [subst|apply Hid].
  destruct (bs !! j) as [b'|] eqn:E; [|done]. intros [= <-]. rewrite Hf. by apply Hid.
Qed.

Lemma index_insert_lookup h i m h' :
  default [] (index_insert h i m !! h') =
    if decide (h = h')
    then let by_id := default [] (m !! h) in if decide (i ∈ by_id) then by_id else by_id ++ [i]
    else default [] (m !! h').
Proof. unfold index_insert. rewrite lookup_insert. by case_decide. Qed.

Lemma elem_index_insert h i m j h' :
  j ∈ default [] (index_insert h i m !! h') ↔
    j ∈ default [] (m !! h') ∨ (j = i ∧ h' = h).
Proof.
  rewrite index_insert_lookup. case_decide as E; [subst|set_solver]. cbn.
  case_decide; [|set_solver]. split; [by left|]. intros [?|[-> _]]; done.
Qed.

Lemma valid_block p i :
  wf p → i < num_blocks p →
  ∃ b, get_block p i = Ok b ∧ ref_cnt b = refc p i ∧ block_hash b = bhash p i.
Proof.
  intros Hwf Hi. rewrite <- (wf_len _ Hwf) in Hi.
  destruct (lookup_lt_is_Some_2 (blocks p) i Hi) as [b Hb].
  exists b. unfold get_block, refc, bhash. by rewrite Hb.
Qed.

Lemma bhash_valid p i h : wf p → bhash p i = Some h → i < num_blocks p.
Proof.
  intros Hwf Hh. rewrite <- (wf_len _ Hwf). unfold bhash in Hh.
  destruct (blocks p !! i) eqn:E; [|done]. by eapply lookup_lt_Some.
Qed.

Lemma null_not_free p : wf p → NULL_BLOCK_ID ∉ free_list p.
Proof. intros Hwf [_ H0]%(wf_free _ Hwf). destruct (wf_null _ Hwf) as [H1 _]. lia. Qed.

Lemma free_list_nodup p : wf p → NoDup (free_list p).
Proof. intros Hwf. apply (wf_repr _ Hwf). Qed.

Lemma free_list_set_queue p q l : FreeBlockQueue.repr q l → free_list (set_queue q p) = l.
Proof. intros Hr. by apply FreeBlockQueue.iter_repr. Qed.

Lemma num_free_length p : wf p → num_free_blocks p = Z.of_nat (length (free_list p)).
Proof. intros Hwf. apply (wf_repr _ Hwf). Qed.

(** A well-formed pool whose reference counts and queue change together. *)
Lemma wf_refs p p' l :
  wf p → same_geometry p p' → length (blocks p') = length (blocks p) →
  (∀ i b, blocks p' !! i = Some b → block_id b = i) →
  (∀ i, bhash p' i = bhash p i) →
  cached_block_hash_to_block p' = cached_block_hash_to_block p →
  FreeBlockQueue.repr (free_block_queue p') l →
  (∀ i, i ∈ l ↔ i < num_blocks p ∧ refc p' i = 0%Z) →
  (∀ i, (0 ≤ refc p' i)%Z) → refc p' NULL_BLOCK_ID = 1%Z →
  wf p'.
Proof.
  intros Hwf (Hn & Hb & _) Hlen Hid Hh Hc Hq Hf Hr H0.
  assert (Hfl : free_list p' = l) by (by apply FreeBlockQueue.iter_repr).
  split; rewrite ?Hn, ?Hb, ?Hlen, ?Hfl; [by apply Hwf..|done| |done|done|done| | |].
  - split; [done|]. rewrite Hh. apply (wf_null _ Hwf).
  - intros h i. unfold index. rewrite Hc, Hh. apply (wf_index _ Hwf).
  - intros h. unfold index. rewrite Hc. apply (wf_index_nodup _ Hwf).
  - intros h. rewrite Hc. apply (wf_index_ne _ Hwf).
Qed.

Lemma uses_app i l1 l2 : uses i (l1 ++ l2) = (uses i l1 + uses i l2)%Z.
Proof. induction l1; cbn; lia. Qed.
Lemma uses_nonneg i l : (0 ≤ uses i l)%Z.
Proof. induction l; cbn; [lia|case_decide; lia]. Qed.
Lemma uses_null l : uses NULL_BLOCK_ID l = 0%Z.
Proof. induction l; cbn; [done|]. rewrite decide_False by naive_solver. lia. Qed.
Lemma uses_notin i l : i ∉ l → uses i l = 0%Z.
Proof.
  induction l; cbn; [done|]. intros [??]%not_elem_of_cons.
  rewrite decide_False by naive_solver. by rewrite IHl.
Qed.
Lemma uses_pos i l : i ∈ l → i ≠ NULL_BLOCK_ID → (0 < uses i l)%Z.
Proof.
  induction 1; cbn; intros.
  - rewrite decide_True by done. pose proof (uses_nonneg x l). lia.
  - case_decide; [pose proof (uses_nonneg x l)|]; naive_solver lia.
Qed.
Lemma uses_perm i l1 l2 : l1 ≡ₚ l2 → uses i l1 = uses i l2.
Proof. induction 1; cbn; lia. Qed.
Lemma uses_nodup i l : NoDup l → i ∈ l → i ≠ NULL_BLOCK_ID → uses i l = 1%Z.
Proof.
  induction 1 as [|j l Hj Hl IH]; [by intros ?%elem_of_nil|].
  intros [->|Hi]%elem_of_cons Hn; cbn.
  - rewrite decide_True by done. by rewrite uses_notin.
  - rewrite decide_False by (intros [-> _]; done). by rewrite IH.
Qed.
End Views.

#[global] Hint Resolve uses_nonneg : rllm.

(** Steps that move references only: the geometry, the hashes, the index and
    the counters stay. *)
Record keeps (p p' : BlockPool) : Prop := {
  keeps_geometry : same_geometry p p';
  keeps_bhash : ∀ i, bhash p' i = bhash p i;
  keeps_index : cached_block_hash_to_block p' = cached_block_hash_to_block p;
  keeps_stats : evictions p' = evictions p ∧ resets p' = resets p;
}.

#[global] Instance same_geometry_preorder : PreOrder same_geometry.
Proof. unfold same_geometry. split; [done|]. intros p1 p2 p3. intuition congruence. Qed.

#[global] Instance keeps_preorder : PreOrder keeps.
Proof.
  split; [done|]. intros p1 p2 p3 [G1 B1 I1 [E1 R1]] [G2 B2 I2 [E2 R2]].
  split; [by etrans|intros i; by rewrite B2|by rewrite I2|split; congruence].
Qed.

Lemma keeps_num p p' : keeps p p' → num_blocks p' = num_blocks p.
Proof. intros [(? & _) _ _ _]. done. Qed.

(** ** References: [touch] and [free_blocks] *)

Section References.
Implicit Types (p : BlockPool) (i j : nat).

Lemma set_ref_keeps p i n : keeps p (set_ref i n p).
Proof. split; [done|intros j; apply bhash_set_ref|done|done]. Qed.
Lemma set_queue_keeps p q : keeps p (set_queue q p).
Proof. by split. Qed.

Lemma set_ref_ids p i n :
  wf p → ∀ j b, blocks (set_ref i n p) !! j = Some b → block_id b = j.
Proof. intros Hwf. apply ids_alter; [done|apply (wf_id _ Hwf)]. Qed.

Lemma filter_ne_notin (l : list nat) i : i ∉ l → filter (λ j, j ≠ i) l = l.
Proof.
  induction l as [|j l IH]; intros Hi; [done|].
  rewrite filter_cons, decide_True by set_solver. f_equal. apply IH. set_solver.
Qed.

Lemma touch_one_spec p i :
  wf p → i < num_blocks p →
  ∃ p', touch_one i p = Ok p' ∧ wf p' ∧ keeps p p' ∧
    (∀ j, refc p' j = (refc p j + uses j [i])%Z) ∧
    free_list p' = filter (λ j, j ≠ i) (free_list p).
Proof.
  intros Hwf Hi. unfold touch_one. case_decide as Hnull.
  { exists p. split_and!; [done..| |].
    - intros j. cbn. rewrite decide_False by naive_solver. lia.
    - subst. by rewrite filter_ne_notin by (by apply null_not_free). }
  destruct (valid_block p i Hwf Hi) as (b & -> & Hr & Hh). cbn.
  assert (Hlen : i < length (blocks p)) by (by rewrite (wf_len _ Hwf)).
  set (l' := filter (λ j, j ≠ i) (free_list p)).
  assert (∃ q, (if (ref_cnt b =? 0)%Z then q ← FreeBlockQueue.remove i (free_block_queue p);
      Ok (set_queue q p) else Ok p) = Ok (set_queue q p) ∧ FreeBlockQueue.repr q l')
    as (q & -> & Hq).
  { destruct (Z.eqb_spec (ref_cnt b) 0) as [E|E].
    - destruct (FreeBlockQueue.remove_repr (free_block_queue p) (free_list p) i) as (q & -> & Hq);
        [by apply Hwf|by apply (wf_free _ Hwf); split; [|congruence]|].
      by exists q.
    - exists (free_block_queue p). split; [by destruct p|].
      unfold l'. rewrite filter_ne_notin; [by apply Hwf|].
      intros [_ ?]%(wf_free _ Hwf). congruence. }
  cbn. eexists; split; [done|].
  assert (Href : ∀ j, refc (set_ref i (ref_cnt b + 1) (set_queue q p)) j =
    (refc p j + uses j [i])%Z).
  { intros j. rewrite refc_set_ref by done. cbn. unfold refc at 1; cbn. fold (refc p j).
    repeat case_decide; try naive_solver; subst; lia. }
  assert (Hk : keeps p (set_ref i (ref_cnt b + 1) (set_queue q p))).
  { etrans; [apply set_queue_keeps|apply set_ref_keeps]. }
  split_and!; [|done|done|by apply FreeBlockQueue.iter_repr].
  apply (wf_refs p _ l'); try done; try apply Hk.
  - apply length_alter.
  - exact (set_ref_ids p _ _ Hwf).
  - intros j. unfold l'. rewrite list_elem_of_filter, (wf_free _ Hwf), Href. cbn.
    pose proof (wf_ref _ Hwf j). case_decide; naive_solver lia.
  - intros j. rewrite Href. pose proof (wf_ref _ Hwf j). pose proof (uses_nonneg j [i]). lia.
  - rewrite Href, uses_null. destruct (wf_null _ Hwf). lia.
Qed.

Lemma free_one_spec p i :
  wf p → i < num_blocks p → (i ≠ NULL_BLOCK_ID → 0 < refc p i)%Z →
  ∃ p', free_one i p = Ok p' ∧ wf p' ∧ keeps p p' ∧
    (∀ j, refc p' j = (refc p j - uses j [i])%Z) ∧
    (free_list p' = free_list p ∨
     free_list p' = i :: free_list p ∧ bhash p i = None ∨
     free_list p' = free_list p ++ [i] ∧ bhash p i ≠ None).
Proof.
  intros Hwf Hi Hpos. unfold free_one. case_decide as Hnull.
  { exists p. split_and!; [done..| |by left].
    intros j. cbn. rewrite decide_False by naive_solver. lia. }
  destruct (valid_block p i Hwf Hi) as (b & -> & Hr & Hh). cbn.
  specialize (Hpos Hnull). rewrite <- Hr in Hpos.
  unfold rguard. rewrite (proj2 (Z.ltb_lt _ _) Hpos). cbn.
  assert (Hlen : i < length (blocks p)) by (by rewrite (wf_len _ Hwf)).
  set (p1 := set_ref i (ref_cnt b - 1) p).
  assert (Href : ∀ j, refc p1 j = (refc p j - uses j [i])%Z).
  { intros j. unfold p1. rewrite refc_set_ref by done. cbn.
    repeat case_decide; try naive_solver; subst; lia. }
  assert (Hk : keeps p p1) by apply set_ref_keeps.
  assert (Hin : i ∉ free_list p) by (intros [_ ?]%(wf_free _ Hwf); lia).
  assert (Hge : ∀ j, (0 ≤ refc p1 j)%Z).
  { intros j. rewrite Href. pose proof (wf_ref _ Hwf j). cbn. case_decide; naive_solver lia. }
  assert (Hnull1 : refc p1 NULL_BLOCK_ID = 1%Z).
  { rewrite Href, uses_null. destruct (wf_null _ Hwf). lia. }
  destruct (Z.ltb_spec 0 (ref_cnt b - 1)) as [Hlt|Hlt].
  - exists p1. split_and!; [done| |done|done|by left].
    apply (wf_refs p _ (free_list p)); try done; try apply Hk; try by apply Hwf.
    + apply length_alter.
    + exact (set_ref_ids p _ _ Hwf).
    + intros j. rewrite (wf_free _ Hwf), Href. cbn. case_decide; naive_solver lia.
  - assert (∃ q l', (match block_hash b with
        | None => FreeBlockQueue.prepend i (free_block_queue p)
        | Some _ => FreeBlockQueue.append i (free_block_queue p) end) = Ok q ∧
        FreeBlockQueue.repr q l' ∧
        (l' = i :: free_list p ∧ bhash p i = None ∨ l' = free_list p ++ [i] ∧ bhash p i ≠ None))
      as (q & l' & Hq & Hrepr & Hl').
    { rewrite Hh. destruct (bhash p i) eqn:E.
      - destruct (FreeBlockQueue.append_repr (free_block_queue p) (free_list p) i)
          as (q & -> & ?); [apply Hwf|done|]. exists q. eexists; split_and!; eauto.
      - destruct (FreeBlockQueue.prepend_repr (free_block_queue p) (free_list p) i)
          as (q & -> & ?); [apply Hwf|done|]. exists q. eexists; split_and!; eauto. }
    change (free_block_queue p1) with (free_block_queue p). rewrite Hq. cbn.
    exists (set_queue q p1).
    assert (Hfl : free_list (set_queue q p1) = l') by (by apply FreeBlockQueue.iter_repr).
    split_and!; [done| |by etrans|done|rewrite Hfl; by right].
    apply (wf_refs p _ l'); try done; try apply Hk.
    + apply length_alter.
    + exact (set_ref_ids p _ _ Hwf).
    + intros j. assert (j ∈ l' ↔ j = i ∨ j ∈ free_list p) as ->
        by (destruct Hl' as [[-> _]|[-> _]]; set_solver).
      change (refc (set_queue q p1) j) with (refc p1 j).
      rewrite (wf_free _ Hwf), Href. cbn.
      destruct (decide (j = i)) as [->|]; [rewrite decide_True by done|
        rewrite decide_False by (intros [<- _]; done)]; intuition lia.
Qed.

Lemma filter_filter_notin (ids : list nat) i (l : list nat) :
  filter (λ j, j ∉ ids) (filter (λ j, j ≠ i) l) = filter (λ j, j ∉ i :: ids) l.
Proof.
  induction l as [|j l IH]; [done|].
  rewrite !filter_cons. destruct (decide (j = i)) as [->|Hne].
  - rewrite (decide_False (P := i ≠ i)) by naive_solver.
    rewrite decide_False by set_solver. done.
  - rewrite (decide_True (P := j ≠ i)) by done. rewrite filter_cons, IH.
    destruct (decide (j ∈ ids)).
    + rewrite !decide_False by set_solver. done.
    + rewrite !decide_True by set_solver. done.
Qed.

Lemma touch_spec ids p :
  wf p → Forall (λ i, i < num_blocks p) ids →
  ∃ p', touch ids p = Ok p' ∧ wf p' ∧ keeps p p' ∧
    (∀ j, refc p' j = (refc p j + uses j ids)%Z) ∧
    free_list p' = filter (λ j, j ∉ ids) (free_list p).
Proof.
  unfold touch. revert p. induction ids as [|i ids IH]; intros p Hwf Hids.
  - exists p. split_and!; [done..| |]; [intros j; cbn; lia|].
    induction (free_list p) as [|j l IHl]; [done|].
    rewrite filter_cons, decide_True by set_solver. by f_equal.
  - apply Forall_cons in Hids as [Hi Hids].
    destruct (touch_one_spec p i Hwf Hi) as (p1 & E1 & Hwf1 & Hk1 & Hr1 & Hf1).
    destruct (IH p1 Hwf1) as (p2 & E2 & Hwf2 & Hk2 & Hr2 & Hf2).
    { by rewrite (keeps_num _ _ Hk1). }
    exists p2. cbn. rewrite E1. cbn. split_and!; [done..|by etrans| |].
    + intros j. rewrite Hr2, Hr1. cbn. lia.
    + by rewrite Hf2, Hf1, filter_filter_notin.
Qed.

(** What [free_blocks] does to the queue: every block that reaches zero is
    pushed on the end its hash calls for. *)
Inductive freed (p : BlockPool) : list nat → list nat → Prop :=
  | freed_nil l : freed p l l
  | freed_front i l l' : bhash p i = None → freed p (i :: l) l' → freed p l l'
  | freed_back i l l' : bhash p i ≠ None → freed p (l ++ [i]) l' → freed p l l'.

Lemma freed_keeps p p' l l' : keeps p p' → freed p' l l' → freed p l l'.
Proof.
  intros Hk. induction 1; [constructor|eapply freed_front|eapply freed_back]; try done;
    by rewrite <- (keeps_bhash _ _ Hk).
Qed.

Lemma free_blocks_spec ids p :
  wf p → Forall (λ i, i < num_blocks p) ids → (∀ i, uses i ids ≤ refc p i)%Z →
  ∃ p', free_blocks ids p = Ok p' ∧ wf p' ∧ keeps p p' ∧
    (∀ j, refc p' j = (refc p j - uses j ids)%Z) ∧
    freed p (free_list p) (free_list p').
Proof.
  unfold free_blocks. revert p. induction ids as [|i ids IH]; intros p Hwf Hids Huse.
  - exists p. split_and!; [done..| |constructor]. intros j; cbn; lia.
  - apply Forall_cons in Hids as [Hi Hids].
    destruct (free_one_spec p i Hwf Hi) as (p1 & E1 & Hwf1 & Hk1 & Hr1 & Hf1).
    { intros Hn. specialize (Huse i). cbn in Huse. rewrite decide_True in Huse by done.
      pose proof (uses_nonneg i ids). lia. }
    destruct (IH p1 Hwf1) as (p2 & E2 & Hwf2 & Hk2 & Hr2 & Hf2).
    { by rewrite (keeps_num _ _ Hk1). }
    { intros j. rewrite Hr1. specialize (Huse j). cbn in *. lia. }
    exists p2. cbn. rewrite E1. cbn. split_and!; [done..|by etrans| |].
    + intros j. rewrite Hr2, Hr1. cbn. lia.
    + apply (freed_keeps _ _ _ _ Hk1) in Hf2.
      destruct Hf1 as [Hf1|[[Hf1 ?]|[Hf1 ?]]]; rewrite Hf1 in Hf2; [done| |].
      * by eapply freed_front.
      * by eapply freed_back.
Qed.

(** The block is freed more often than it is referenced: the code raises. *)
Lemma free_one_unreferenced p i :
  wf p → i < num_blocks p → i ≠ NULL_BLOCK_ID → refc p i = 0%Z →
  free_one i p = Err ValueError.
Proof.
  intros Hwf Hi Hn Hr. unfold free_one. rewrite decide_False by done.
  destruct (valid_block p i Hwf Hi) as (b & -> & Hb & _). cbn. rewrite Hb, Hr. done.
Qed.

Lemma hashless_first_filter p p' (P : nat → Prop) `{!∀ x, Decision (P x)} :
  keeps p p' → hashless_first p → free_list p' = filter P (free_list p) → hashless_first p'.
Proof.
  intros Hk (l1 & l2 & E & H1 & H2) Hf. exists (filter P l1), (filter P l2).
  rewrite Hf, E, filter_app. split; [done|]. split; apply Forall_forall.
  - intros x [_ Hx]%list_elem_of_filter. rewrite (keeps_bhash _ _ Hk).
    by apply (Forall_forall (λ i, bhash p i = None) l1).
  - intros x [_ Hx]%list_elem_of_filter. rewrite (keeps_bhash _ _ Hk).
    by apply (Forall_forall (λ i, bhash p i ≠ None) l2).
Qed.

Lemma freed_hashless p l l' :
  freed p l l' →
  (∃ l1 l2, l = l1 ++ l2 ∧ Forall (λ i, bhash p i = None) l1 ∧ Forall (λ i, bhash p i ≠ None) l2) →
  ∃ l1 l2, l' = l1 ++ l2 ∧ Forall (λ i, bhash p i = None) l1 ∧ Forall (λ i, bhash p i ≠ None) l2.
Proof.
  induction 1 as [|i l l' Hi _ IH|i l l' Hi _ IH]; [done| |];
    intros (l1 & l2 & -> & H1 & H2); apply IH.
  - exists (i :: l1), l2. split_and!; [done|by constructor|done].
  - exists l1, (l2 ++ [i]). rewrite app_assoc. split_and!; [done|done|].
    apply Forall_app. by split; [|constructor].
Qed.

Lemma hashless_first_freed p p' :
  keeps p p' → hashless_first p → freed p (free_list p) (free_list p') → hashless_first p'.
Proof.
  intros Hk Hh Hf. destruct (freed_hashless _ _ _ Hf Hh) as (l1 & l2 & E & H1 & H2).
  exists l1, l2. split; [done|].
  split; eapply Forall_impl; try done; intros x; cbn; by rewrite (keeps_bhash _ _ Hk).
Qed.
End References.

(** ** Allocation and eviction *)

Section Allocation.
Implicit Types (p : BlockPool) (i j : nat).

Lemma get_cached_block_head h p :
  (∀ h', cached_block_hash_to_block p !! h' ≠ Some []) →
  get_cached_block h p = head (index p h).
Proof.
  intros _. unfold get_cached_block, index.
  by destruct (cached_block_hash_to_block p !! h) as [[|i l]|].
Qed.

Lemma get_cached_block_Some h p i :
  wf p → get_cached_block h p = Some i →
  bhash p i = Some h ∧ i < num_blocks p ∧ i ≠ NULL_BLOCK_ID.
Proof.
  intros Hwf Hi. rewrite get_cached_block_head in Hi by apply Hwf.
  assert (Hb : bhash p i = Some h).
  { apply (wf_index _ Hwf). destruct (index p h); [done|]. injection Hi as ->. left. }
  split_and!; [done|by eapply bhash_valid|].
  intros ->. destruct (wf_null _ Hwf). congruence.
Qed.

Lemma get_cached_block_None h p :
  wf p → get_cached_block h p = None ↔ ∀ i, bhash p i ≠ Some h.
Proof.
  intros Hwf. rewrite get_cached_block_head by apply Hwf.
  destruct (index p h) as [|i l] eqn:E; split; try done.
  - intros _ i Hi%(wf_index _ Hwf). rewrite E in Hi. by apply elem_of_nil in Hi.
  - intros Hno. exfalso. apply (Hno i), (wf_index _ Hwf). rewrite E. left.
Qed.

Lemma filter_notin_id (ids l : list nat) :
  (∀ j, j ∈ l → j ∉ ids) → filter (λ j, j ∉ ids) l = l.
Proof.
  induction l as [|j l IH]; intros Hd; [done|].
  rewrite filter_cons, decide_True by (apply Hd; left). f_equal.
  apply IH. intros k Hk. apply Hd. by right.
Qed.

(** [_maybe_evict_cached_block] forgets one block's hash and its index entry. *)
Lemma maybe_evict_spec p i :
  wf p → i < num_blocks p →
  let p' := maybe_evict_cached_block i p in
  same_geometry p p' ∧ length (blocks p') = length (blocks p) ∧
  (∀ j b, blocks p' !! j = Some b → block_id b = j) ∧
  free_block_queue p' = free_block_queue p ∧
  (∀ j, refc p' j = refc p j) ∧
  (∀ j, bhash p' j = if decide (i = j) then None else bhash p j) ∧
  (∀ h, index p' h = filter (λ j, j ≠ i) (index p h)) ∧
  (∀ h, cached_block_hash_to_block p' !! h ≠ Some []) ∧
  evictions p' = (evictions p + match bhash p i with Some _ => 1 | None => 0 end)%Z ∧
  resets p' = resets p.
Proof.
  intros Hwf Hi. unfold maybe_evict_cached_block. fold (bhash p i).
  destruct (bhash p i) as [h|] eqn:Eh; cbn; cycle 1.
  { split_and!; try done; try apply Hwf; try lia.
    - intros j. by case_decide; subst.
    - intros h. rewrite filter_ne_notin; [done|]. intros Hin%(wf_index _ Hwf). congruence. }
  assert (Hlen : i < length (blocks p)) by (by rewrite (wf_len _ Hwf)).
  assert (Hidx : ∀ h', default [] (index_evict h i (cached_block_hash_to_block p) !! h') =
    filter (λ j, j ≠ i) (index p h')).
  { intros h'. unfold index_evict, index.
    destruct (decide (h' = h)) as [->|Hne].
    - destruct (cached_block_hash_to_block p !! h) as [l|] eqn:E; cbn; [|by rewrite E].
      case_decide as El; [by rewrite lookup_delete_eq, El|by rewrite lookup_insert_eq].
    - assert (Hnoi : i ∉ index p h').
      { intros Hin%(wf_index _ Hwf). congruence. }
      rewrite filter_ne_notin by done.
      destruct (cached_block_hash_to_block p !! h) as [l|]; [|done].
      case_decide; [by rewrite lookup_delete_ne|by rewrite lookup_insert_ne]. }
  split_and!; try done.
  - apply length_alter.
  - apply ids_alter; [done|apply (wf_id _ Hwf)].
  - intros j. exact (refc_set_hash p i None j).
  - intros j. exact (bhash_set_hash p i None j Hlen).
  - intros h'. unfold index_evict. pose proof (wf_index_ne _ Hwf h') as Hne.
    destruct (cached_block_hash_to_block p !! h) as [l|] eqn:E; [|done].
    case_decide; [destruct (decide (h' = h)) as [->|]|destruct (decide (h' = h)) as [->|]].
    + by rewrite lookup_delete_eq.
    + by rewrite lookup_delete_ne.
    + rewrite lookup_insert_eq. congruence.
    + by rewrite lookup_insert_ne.
Qed.

(** One allocated block: the front of the queue, its cache entry dropped. *)
Lemma take_block_spec p i l :
  wf p → free_list p = i :: l →
  ∃ p', take_block p = Ok (i, p') ∧ wf p' ∧ same_geometry p p' ∧ free_list p' = l ∧
    (∀ j, refc p' j = if decide (i = j) then 1%Z else refc p j) ∧
    (∀ j, bhash p' j = if decide (i = j) then None else bhash p j) ∧
    (∀ h, index p' h = filter (λ j, j ≠ i) (index p h)) ∧
    evictions p' = (evictions p + match bhash p i with Some _ => 1 | None => 0 end)%Z ∧
    resets p' = resets p.
Proof.
  intros Hwf Hl. pose proof (wf_repr _ Hwf) as Hrepr. rewrite Hl in Hrepr.
  destruct (FreeBlockQueue.popleft_repr _ _ _ Hrepr) as (q & Hpop & Hq).
  assert (Hfree : i ∈ free_list p) by (rewrite Hl; left).
  destruct (proj1 (wf_free _ Hwf i) Hfree) as [Hi Hr0].
  destruct (valid_block p i Hwf Hi) as (b & Hb & Hbr & _).
  destruct (maybe_evict_spec p i Hwf Hi)
    as (Hg & Hlen & Hids & Hqueue & Href & Hhash & Hidx & Hne & Hev & Hrs).
  set (p1 := maybe_evict_cached_block i p) in *.
  unfold take_block. rewrite Hpop. cbn. unfold get_block in *; cbn. rewrite Hb. cbn.
  rewrite Hbr, Hr0. cbn.
  set (p' := set_ref i 1 (maybe_evict_cached_block i (set_queue q p))).
  assert (Hp' : p' = set_queue q (set_ref i 1 p1)).
  { unfold p', p1, maybe_evict_cached_block. cbn.
    by destruct (blocks p !! i ≫= block_hash). }
  exists p'. rewrite Hp'. split; [done|].
  assert (Hlen1 : i < length (blocks p1)) by (by rewrite Hlen, (wf_len _ Hwf)).
  assert (Hr' : ∀ j, refc (set_queue q (set_ref i 1 p1)) j = if decide (i = j) then 1%Z else refc p j).
  { intros j. etrans; [exact (refc_set_ref p1 i 1 j Hlen1)|]. by rewrite Href. }
  assert (Hb' : ∀ j, bhash (set_queue q (set_ref i 1 p1)) j =
    if decide (i = j) then None else bhash p j).
  { intros j. etrans; [exact (bhash_set_ref p1 i 1 j)|]. apply Hhash. }
  assert (Hf' : free_list (set_queue q (set_ref i 1 p1)) = l) by (by apply FreeBlockQueue.iter_repr).
  pose proof (free_list_nodup _ Hwf) as Hnd. rewrite Hl in Hnd.
  apply NoDup_cons in Hnd as [Hil Hnd].
  assert (Hi0 : i ≠ NULL_BLOCK_ID) by (intros ->; by apply (null_not_free p Hwf)).
  destruct Hg as (Hg1 & Hg2 & Hg3).
  split_and!; try done. split.
  - cbn. rewrite length_alter. congruence || (rewrite Hlen, (wf_len _ Hwf); done).
  - cbn. rewrite Hg1. apply (wf_min _ Hwf).
  - cbn. rewrite Hg2. apply (wf_bs _ Hwf).
  - apply ids_alter; done.
  - rewrite Hr', Hb', !decide_False by done. apply (wf_null _ Hwf).
  - by rewrite Hf'.
  - intros j. rewrite Hf', Hr'. cbn. rewrite Hg1.
    assert (j ∈ l ↔ j ≠ i ∧ j ∈ free_list p) as ->.
    { rewrite Hl, elem_of_cons. split; [|naive_solver]. intros Hj. split; [by intros ->|by right]. }
    rewrite (wf_free _ Hwf). case_decide; [subst; lia|intuition].
  - intros j. rewrite Hr'. case_decide; [lia|apply (wf_ref _ Hwf)].
  - intros h j. etrans; [apply (iff_refl (j ∈ index p1 h))|].
    rewrite Hidx, list_elem_of_filter, (wf_index _ Hwf), Hb'. case_decide; naive_solver.
  - intros h. change (NoDup (index p1 h)). rewrite Hidx. apply NoDup_filter, (wf_index_nodup _ Hwf).
  - done.
Qed.

(** How many of the listed blocks are in the hash index. *)
Definition num_hashed p (l : list nat) : Z :=
  Z.of_nat (length (filter (λ i, is_Some (bhash p i)) l)).

Lemma take_blocks_spec n p :
  wf p → n ≤ length (free_list p) →
  ∃ p', take_blocks n p = Ok (take n (free_list p), p') ∧ wf p' ∧ same_geometry p p' ∧
    free_list p' = drop n (free_list p) ∧
    (∀ j, refc p' j = if decide (j ∈ take n (free_list p)) then 1%Z else refc p j) ∧
    (∀ j, bhash p' j = if decide (j ∈ take n (free_list p)) then None else bhash p j) ∧
    (∀ h, index p' h = filter (λ j, j ∉ take n (free_list p)) (index p h)) ∧
    evictions p' = (evictions p + num_hashed p (take n (free_list p)))%Z ∧
    resets p' = resets p.
Proof.
  revert p. induction n as [|n IH]; intros p Hwf Hn.
  - exists p. rewrite take_0. cbn. split_and!; try done.
    + intros h. by rewrite filter_notin_id by (intros; apply not_elem_of_nil).
    + unfold num_hashed. cbn. lia.
  - destruct (free_list p) as [|i l] eqn:El; cbn in Hn; [lia|].
    destruct (take_block_spec p i l Hwf El)
      as (p1 & E1 & Hwf1 & Hg1 & Hf1 & Hr1 & Hb1 & Hx1 & He1 & Hs1).
    destruct (IH p1 Hwf1) as (p2 & E2 & Hwf2 & Hg2 & Hf2 & Hr2 & Hb2 & Hx2 & He2 & Hs2).
    { rewrite Hf1. lia. }
    pose proof (free_list_nodup _ Hwf) as Hnd. rewrite El in Hnd.
    apply NoDup_cons in Hnd as [Hil Hnd].
    assert (Hit : i ∉ take n l) by (intros Hin; apply Hil; by eapply elem_take).
    rewrite Hf1 in *.
    exists p2. cbn. rewrite E1. cbn. rewrite E2. cbn.
    split_and!; [done|done|by etrans|done| | | | |congruence].
    + intros j. rewrite Hr2, Hr1. repeat case_decide; set_solver.
    + intros j. rewrite Hb2, Hb1. repeat case_decide; set_solver.
    + intros h. by rewrite Hx2, Hx1, filter_filter_notin.
    + rewrite He2, He1. unfold num_hashed. rewrite filter_cons.
      assert (filter (λ i0, is_Some (bhash p1 i0)) (take n l) =
        filter (λ i0, is_Some (bhash p i0)) (take n l)) as ->.
      { apply filter_ext_in. intros x Hx. rewrite Hb1. by rewrite decide_False by set_solver. }
      destruct (bhash p i) eqn:E.
      * rewrite decide_True by done. cbn. lia.
      * rewrite decide_False by (by intros [??]). cbn. lia.
Qed.

(** The effect of handing out [taken], the front of the queue. *)
Record allocates (taken : list nat) (p p' : BlockPool) : Prop := {
  alloc_wf : wf p';
  alloc_geometry : same_geometry p p';
  alloc_free : free_list p = taken ++ free_list p';
  alloc_ref : ∀ j, refc p' j = (refc p j + uses j taken)%Z;
  alloc_hash : ∀ j, bhash p' j = if decide (j ∈ taken) then None else bhash p j;
  alloc_index : ∀ h, index p' h = filter (λ j, j ∉ taken) (index p h);
  alloc_evictions : evictions p' = (evictions p + num_hashed p taken)%Z;
  alloc_resets : resets p' = resets p;
}.

(** [get_new_blocks]: the first [n] free blocks, or nothing at all. *)
Lemma get_new_blocks_spec (n : nat) p :
  wf p →
  if decide (length (free_list p) < n)
  then get_new_blocks (Z.of_nat n) p = Ok (None, p)
  else ∃ p', get_new_blocks (Z.of_nat n) p = Ok (Some (take n (free_list p)), p') ∧
    allocates (take n (free_list p)) p p'.
Proof.
  intros Hwf. unfold get_new_blocks, rguard. rewrite (num_free_length p Hwf).
  rewrite (proj2 (Z.leb_le 0 (Z.of_nat n))) by lia. cbn.
  case_decide as E.
  - by rewrite (proj2 (Z.ltb_lt _ _)) by lia.
  - rewrite (proj2 (Z.ltb_ge _ _)) by lia. rewrite Nat2Z.id.
    destruct (take_blocks_spec n p Hwf) as (p' & -> & ? & ? & Hf & Hr & ? & ? & ? & ?); [lia|].
    exists p'. cbn. split; [done|]. split; try done; [by rewrite Hf, take_drop|].
    intros j. rewrite Hr. case_decide as Hj; [|rewrite uses_notin by done; lia].
    assert (Hjf : j ∈ free_list p) by (by eapply elem_take).
    assert (j ≠ NULL_BLOCK_ID) by (intros ->; by apply (null_not_free p Hwf)).
    rewrite uses_nodup; [|by apply NoDup_take, free_list_nodup|done..].
    apply (wf_free _ Hwf) in Hjf. lia.
Qed.

(** The same, read off a run that did not raise. *)
Lemma get_new_blocks_inv n r p p' :
  wf p → get_new_blocks n p = Ok (r, p') →
  (0 ≤ n)%Z ∧
  match r with
  | None => p' = p ∧ (Z.of_nat (length (free_list p)) < n)%Z
  | Some taken => taken = take (Z.to_nat n) (free_list p) ∧
      Z.of_nat (length taken) = n ∧ allocates taken p p'
  end.
Proof.
  intros Hwf E. assert (Hn : (0 ≤ n)%Z).
  { unfold get_new_blocks in E. apply bind_Ok in E as ([] & Hg & _).
    unfold rguard in Hg. destruct (Z.leb_spec 0 n); done. }
  split; [done|]. pose proof (get_new_blocks_spec (Z.to_nat n) p Hwf) as Hs.
  rewrite Z2Nat.id, E in Hs by done. case_decide as Hl.
  - injection Hs as -> ->. split; [done|lia].
  - destruct Hs as (p2 & [= -> ->] & Ha). split_and!; [done| |done].
    rewrite length_take. lia.
Qed.

Lemma hashless_first_alloc taken p p' :
  wf p → allocates taken p p' → hashless_first p → hashless_first p'.
Proof.
  intros Hwf [_ _ Hf _ Hb _ _ _] (l1 & l2 & E & H1 & H2).
  pose proof (free_list_nodup _ Hwf) as Hnd. rewrite Hf in Hnd.
  apply NoDup_app in Hnd as (_ & Hd & _).
  assert (Hb' : ∀ j, j ∈ free_list p' → bhash p' j = bhash p j).
  { intros j Hj. rewrite Hb, decide_False; [done|]. intros Ht. by apply (Hd j). }
  assert (Hfl : free_list p' = drop (length taken) (l1 ++ l2)) by (by rewrite <- E, Hf, drop_app_length).
  rewrite drop_app in Hfl. rewrite Hfl in Hb'. eexists _, _. split; [exact Hfl|].
  split; apply Forall_forall; intros x Hx; rewrite Hb' by set_solver.
  - apply (Forall_forall (λ i, bhash p i = None) l1); [done|by eapply elem_drop].
  - apply (Forall_forall (λ i, bhash p i ≠ None) l2); [done|by eapply elem_drop].
Qed.
End Allocation.

(** ** The hash index *)

Section HashIndex.
Implicit Types (p : BlockPool) (i j : nat).

(** Indexing leaves references and the queue alone and never drops a hash. *)
Record indexes (ids : list nat) (hashes : list Z) (p p' : BlockPool) : Prop := {
  indexes_geometry : same_geometry p p';
  indexes_ref : ∀ j, refc p' j = refc p j;
  indexes_queue : free_block_queue p' = free_block_queue p;
  indexes_mono : ∀ j h, bhash p j = Some h → bhash p' j = Some h;
  indexes_origin : ∀ j h, bhash p' j = Some h → bhash p j = Some h ∨
    ∃ k, ids !! k = Some j ∧ hashes !! k = Some h ∧ j ≠ NULL_BLOCK_ID;
  indexes_order : ∀ h, ∃ l, index p' h = index p h ++ l;
  indexes_stats : evictions p' = evictions p ∧ resets p' = resets p;
}.

Lemma indexes_refl p : indexes [] [] p p.
Proof. split; try done; [by left|]. intros h. exists []. by rewrite app_nil_r. Qed.

Lemma indexes_cons i h ids hashes p p1 p2 :
  indexes [i] [h] p p1 → indexes ids hashes p1 p2 → indexes (i :: ids) (h :: hashes) p p2.
Proof.
  intros [G1 R1 Q1 M1 O1 X1 [E1 S1]] [G2 R2 Q2 M2 O2 X2 [E2 S2]]. split.
  - by etrans.
  - intros j. by rewrite R2.
  - by rewrite Q2.
  - auto.
  - intros j h' [Hj|(k & ? & ? & ?)]%O2; [|right; exists (S k); done].
    apply O1 in Hj as [?|(k & Hk & Hh & ?)]; [by left|right].
    exists 0. by destruct k as [|[|k]].
  - intros h'. destruct (X1 h') as [l1 H1], (X2 h') as [l2 H2].
    exists (l1 ++ l2). by rewrite H2, H1, app_assoc.
  - split; congruence.
Qed.

Lemma indexes_nothing ids hashes p : indexes ids hashes p p.
Proof. split; try done; [by left|]. intros h. exists []. by rewrite app_nil_r. Qed.

Lemma cache_one_spec i h p :
  wf p → i < num_blocks p →
  ∃ p', cache_one (i, h) p = Ok p' ∧ wf p' ∧ indexes [i] [h] p p' ∧
    (i ≠ NULL_BLOCK_ID → bhash p' i ≠ None) ∧
    (∀ h', index p' h' = index p h' ++
      (if decide (i ≠ NULL_BLOCK_ID ∧ bhash p i = None ∧ h' = h) then [i] else [])).
Proof.
  intros Hwf Hi. unfold cache_one. case_decide as Hn.
  { exists p. split_and!; [done|done|apply indexes_nothing|done|].
    intros h'. by rewrite decide_False, app_nil_r by naive_solver. }
  destruct (valid_block p i Hwf Hi) as (b & -> & Hr & Hh). cbn. rewrite Hh.
  destruct (bhash p i) as [h0|] eqn:Eh.
  { exists p. split_and!; [done|done|apply indexes_nothing|congruence|].
    intros h'. rewrite decide_False by naive_solver. by rewrite app_nil_r. }
  assert (Hlen : i < length (blocks p)) by (by rewrite (wf_len _ Hwf)).
  assert (Hnot : ∀ h', i ∉ index p h') by (intros h' ?%(wf_index _ Hwf); congruence).
  eexists; split; [done|].
  set (p' := set_index _ _).
  assert (Hb : ∀ j, bhash p' j = if decide (i = j) then Some h else bhash p j)
    by (intros j; exact (bhash_set_hash p i (Some h) j Hlen)).
  assert (Href : ∀ j, refc p' j = refc p j) by (intros j; exact (refc_set_hash p i (Some h) j)).
  assert (Hx : ∀ h', index p' h' = index p h' ++ (if decide (h' = h) then [i] else [])).
  { intros h'. etrans; [apply index_insert_lookup|]. cbn. unfold index in *.
    repeat case_decide; subst; try done; [|by rewrite app_nil_r].
    exfalso. by eapply Hnot. }
  split_and!; [split|split| |].
  - cbn. rewrite length_alter. apply (wf_len _ Hwf).
  - apply (wf_min _ Hwf).
  - apply (wf_bs _ Hwf).
  - apply ids_alter; [done|apply (wf_id _ Hwf)].
  - rewrite Href, Hb, decide_False by done. apply (wf_null _ Hwf).
  - apply (wf_repr _ Hwf).
  - intros j. rewrite Href. apply (wf_free _ Hwf).
  - intros j. rewrite Href. apply (wf_ref _ Hwf).
  - intros h' j. rewrite Hx, elem_of_app, (wf_index _ Hwf), Hb.
    repeat case_decide; subst; set_solver.
  - intros h'. rewrite Hx. apply NoDup_app. split_and!; [apply (wf_index_nodup _ Hwf)| |].
    + intros j Hj. case_decide; [|by apply not_elem_of_nil].
      intros ->%list_elem_of_singleton. by apply (Hnot h').
    + case_decide; [apply NoDup_singleton|by apply NoDup_nil].
  - intros h'. cbn. unfold index_insert. rewrite lookup_insert.
    case_decide; [|apply (wf_index_ne _ Hwf)].
    case_decide; [|by destruct (default [] _)].
    intros [= E]. rewrite E in *. by eapply not_elem_of_nil.
  - done.
  - done.
  - done.
  - intros j h'. rewrite Hb. case_decide; congruence.
  - intros j h'. rewrite Hb. case_decide; [|by left]. intros [= <-]. right. by exists 0; subst.
  - intros h'. eexists. apply Hx.
  - done.
  - rewrite Hb, decide_True by done. done.
  - intros h'. rewrite Hx. f_equal. repeat case_decide; naive_solver.
Qed.

Lemma cache_full_blocks_spec ids hashes p :
  wf p → Forall (λ i, i < num_blocks p) ids → length ids = length hashes →
  ∃ p', cache_full_blocks ids hashes p = Ok p' ∧ wf p' ∧ indexes ids hashes p p' ∧
    (enable_caching p = true → ∀ i, i ∈ ids → i ≠ NULL_BLOCK_ID → bhash p' i ≠ None).
Proof.
  intros Hwf Hids Hl. unfold cache_full_blocks.
  destruct (enable_caching p) eqn:Een; cbn; [|exists p; split_and!; [done|done|apply indexes_nothing|done]].
  unfold rguard. rewrite bool_decide_true by done. cbn. clear Een.
  revert p hashes Hwf Hids Hl. induction ids as [|i ids IH]; intros p [|h hashes] Hwf Hids Hl;
    try done.
  { exists p. split_and!; [done|done|apply indexes_refl|].
    intros _ i Hi. by apply not_elem_of_nil in Hi. }
  apply Forall_cons in Hids as [Hi Hids]. injection Hl as Hl.
  destruct (cache_one_spec i h p Hwf Hi) as (p1 & E1 & Hwf1 & Hx1 & Hn1 & _).
  destruct (IH p1 hashes Hwf1) as (p2 & E2 & Hwf2 & Hx2 & Hn2); [|done|].
  { by rewrite (proj1 (indexes_geometry _ _ _ _ Hx1)). }
  exists p2. change (zip (i :: ids) (h :: hashes)) with ((i, h) :: zip ids hashes).
  cbn [rfold]. rewrite E1. cbn. split_and!; [done|done|by eapply indexes_cons|].
  intros He j [->|Hj]%elem_of_cons Hnull; [|by apply Hn2].
  specialize (Hn1 Hnull). destruct (bhash p1 i) eqn:E; [|done].
  by rewrite (indexes_mono _ _ _ _ Hx2 _ _ E).
Qed.

Lemma cache_full_blocks_mismatch ids hashes p :
  enable_caching p = true → length ids ≠ length hashes →
  cache_full_blocks ids hashes p = Err ValueError.
Proof.
  intros He Hl. unfold cache_full_blocks, rguard. rewrite He. cbn.
  by rewrite bool_decide_false.
Qed.

(** Indexing referenced blocks cannot disturb the eviction order. *)
Lemma hashless_first_indexes ids hashes p p' :
  wf p → indexes ids hashes p p' → Forall (λ i, i ≠ NULL_BLOCK_ID → 0 < refc p i)%Z ids →
  hashless_first p → hashless_first p'.
Proof.
  intros Hwf Hx Hpos (l1 & l2 & E & H1 & H2). exists l1, l2.
  unfold free_list. rewrite (indexes_queue _ _ _ _ Hx). fold (free_list p).
  split; [done|]. split; apply Forall_forall; intros j Hj.
  - destruct (bhash p' j) as [h|] eqn:Eh; [exfalso|done].
    apply (indexes_origin _ _ _ _ Hx) in Eh as [Eh|(k & Hk & _ & Hn)].
    + apply (Forall_forall (λ i, bhash p i = None) l1) in Hj; [congruence|done].
    + assert (j ∈ free_list p) as [_ Hr]%(wf_free _ Hwf) by (rewrite E; set_solver).
      apply list_elem_of_lookup_2 in Hk. rewrite Forall_forall in Hpos.
      specialize (Hpos _ Hk Hn). lia.
  - apply (Forall_forall (λ i, bhash p i ≠ None) l2) in Hj; [|done].
    destruct (bhash p j) as [h|] eqn:Eh; [|done].
    by rewrite (indexes_mono _ _ _ _ Hx _ _ Eh).
Qed.
End HashIndex.

(** ** Construction and reset *)

Section Lifecycle.
Implicit Types (p : BlockPool) (i j : nat).

Lemma free_list_bounds p i : wf p → i ∈ free_list p → 1 ≤ i < num_blocks p.
Proof.
  intros Hwf Hi. pose proof Hi as [Hlt _]%(wf_free _ Hwf). split; [|done].
  destruct i; [|lia]. exfalso. by apply (null_not_free p Hwf).
Qed.

(** The pool counts one used block exactly when nobody holds one. *)
Lemma unused_iff p :
  wf p → num_used_blocks p = 1%Z ↔ ∀ i, 1 ≤ i < num_blocks p → refc p i = 0%Z.
Proof.
  intros Hwf. unfold num_used_blocks. rewrite (num_free_length p Hwf).
  pose proof (wf_min _ Hwf) as Hmin. pose proof (free_list_nodup _ Hwf) as Hnd.
  assert (Hsub : free_list p ⊆+ seq 1 (num_blocks p - 1)).
  { apply NoDup_submseteq; [done|]. intros i Hi%free_list_bounds; [|done].
    apply elem_of_seq. lia. }
  split.
  - intros Hlen i Hi.
    assert (Hperm : free_list p ≡ₚ seq 1 (num_blocks p - 1)).
    { apply submseteq_length_Permutation; [done|]. rewrite length_seq. lia. }
    assert (i ∈ free_list p) as [_ ?]%(wf_free _ Hwf); [|done].
    rewrite Hperm. apply elem_of_seq. lia.
  - intros Hall.
    assert (Hperm : seq 1 (num_blocks p - 1) ⊆+ free_list p).
    { apply NoDup_submseteq; [apply NoDup_seq|]. intros i Hi%elem_of_seq.
      apply (wf_free _ Hwf). split; [lia|]. apply Hall. lia. }
    apply submseteq_length in Hperm, Hsub. rewrite length_seq in Hperm, Hsub. lia.
Qed.

Lemma reset_spec p :
  wf p →
  let '(ok, p') := reset_prefix_cache p in
  wf p' ∧ (ok = true ↔ ∀ i, 1 ≤ i < num_blocks p → refc p i = 0%Z) ∧
  if ok
  then same_geometry p p' ∧ (∀ i, refc p' i = refc p i) ∧ (∀ i, bhash p' i = None) ∧
       num_cached_blocks p' = 0 ∧ free_list p' = free_list p ∧
       resets p' = (resets p + 1)%Z ∧ evictions p' = evictions p
  else p' = p.
Proof.
  intros Hwf. pose proof (unused_iff p Hwf) as Hiff. unfold reset_prefix_cache.
  case_decide as Hu; [split_and!; [done|naive_solver|done]|].
  assert (Hused : num_used_blocks p = 1%Z) by lia.
  set (p' := set_stats _ _ _).
  assert (Href : ∀ i, refc p' i = refc p i).
  { intros i. unfold refc; cbn. rewrite list_lookup_fmap. by destruct (blocks p !! i). }
  assert (Hb : ∀ i, bhash p' i = None).
  { intros i. unfold bhash; cbn. rewrite list_lookup_fmap. by destruct (blocks p !! i). }
  split_and!; [|naive_solver|done..]. split.
  - cbn. rewrite length_fmap. apply (wf_len _ Hwf).
  - apply (wf_min _ Hwf).
  - apply (wf_bs _ Hwf).
  - intros i b. cbn. rewrite list_lookup_fmap.
    destruct (blocks p !! i) as [b'|] eqn:E; [|done]. intros [= <-]. cbn. by apply (wf_id _ Hwf).
  - rewrite Href. split; [apply (wf_null _ Hwf)|done].
  - apply (wf_repr _ Hwf).
  - intros i. rewrite Href. apply (wf_free _ Hwf).
  - intros i. rewrite Href. apply (wf_ref _ Hwf).
  - intros h i. rewrite Hb. unfold index; cbn. rewrite lookup_empty. cbn. set_solver.
  - intros h. unfold index; cbn. rewrite lookup_empty. by apply NoDup_nil.
  - intros h. cbn. by rewrite lookup_empty.
Qed.

Lemma init_spec n bs c :
  2 ≤ n → 1 ≤ bs →
  ∃ p, init n bs c = Ok p ∧ wf p ∧ hashless_first p ∧ num_blocks p = n ∧ block_size p = bs ∧
    enable_caching p = c ∧ free_list p = seq 1 (n - 1) ∧
    (∀ i, refc p i = if decide (i = NULL_BLOCK_ID) then 1%Z else 0%Z) ∧
    (∀ i, bhash p i = None).
Proof.
  intros Hn Hbs. unfold init, rguard. rewrite !bool_decide_true by done. cbn.
  destruct (FreeBlockQueue.queue_init_repr (seq 1 (n - 1))) as (q & Hq & Hrepr);
    [apply NoDup_seq|]. change (NULL_BLOCK_ID + 1) with 1. unfold NULL_BLOCK_ID in *.
  change (0 + 1) with 1. rewrite Hq. cbn. eexists; split; [done|].
  set (p := MkPool _ _ _ _ _ _ _ _).
  assert (Hlk : ∀ i, blocks p !! i =
    if decide (i < n) then Some (Block i (if decide (i = 0) then 1%Z else 0%Z) None) else None).
  { intros i. unfold p; cbn. rewrite list_lookup_fmap. case_decide as Hi.
    - by rewrite lookup_seq_lt by lia.
    - by rewrite lookup_seq_ge by lia. }
  assert (Hfl : free_list p = seq 1 (n - 1)) by (by apply FreeBlockQueue.iter_repr).
  assert (Href : ∀ i, refc p i = if decide (i = 0) then 1%Z else 0%Z).
  { intros i. unfold refc. rewrite Hlk. repeat case_decide; done || lia. }
  assert (Hb : ∀ i, bhash p i = None).
  { intros i. unfold bhash. rewrite Hlk. by case_decide. }
  split_and!; try done.
  - split; try done.
    + unfold p; cbn. by rewrite length_fmap, length_seq.
    + intros i b. rewrite Hlk. case_decide; [|done]. by intros [= <-].
    + rewrite Hfl. done.
    + intros i. rewrite Hfl, elem_of_seq, Href. change (num_blocks p) with n. case_decide; lia.
    + intros i. rewrite Href. case_decide; lia.
    + intros h i. rewrite Hb. unfold index; cbn. rewrite lookup_empty. cbn. set_solver.
    + intros h. unfold index; cbn. rewrite lookup_empty. by apply NoDup_nil.
  - exists (free_list p), []. rewrite app_nil_r. split_and!; [done| |by constructor].
    apply Forall_forall. intros i _. apply Hb.
Qed.

Lemma init_Ok n bs c p :
  init n bs c = Ok p →
  wf p ∧ hashless_first p ∧ num_blocks p = n ∧ block_size p = bs ∧
  free_list p = seq 1 (n - 1) ∧ (∀ i, i ≠ NULL_BLOCK_ID → refc p i = 0%Z) ∧
  enable_caching p = c ∧ (∀ i, bhash p i = None).
Proof.
  intros Hinit. unfold init, rguard in Hinit. repeat case_bool_decide; try done.
  destruct (init_spec n bs c) as (p1 & E1 & Hwf & Ho & Hn & Hb & Hc & Hf & Hr & Hh); [done..|].
  unfold init, rguard in E1. rewrite !bool_decide_true in E1 by done.
  assert (p1 = p) as -> by congruence. split_and!; try done.
  intros i Hi. by rewrite Hr, decide_False.
Qed.
End Lifecycle.

(** ** Reachable pools *)

(** One call on the pool.  Callers only pass blocks of this pool, and only
    index blocks somebody holds. *)
Inductive step (p : BlockPool) : BlockPool → Prop :=
  | step_alloc n r p' :
      get_new_blocks n p = Ok (r, p') → step p p'
  | step_touch ids p' :
      Forall (λ i, i < num_blocks p) ids → touch ids p = Ok p' → step p p'
  | step_free ids p' :
      Forall (λ i, i < num_blocks p) ids → free_blocks ids p = Ok p' → step p p'
  | step_cache ids hashes p' :
      Forall (λ i, i < num_blocks p ∧ (0 < refc p i)%Z) ids →
      cache_full_blocks ids hashes p = Ok p' → step p p'
  | step_reset b p' :
      reset_prefix_cache p = (b, p') → step p p'.

Section Reachable.
Implicit Types (p : BlockPool).

Lemma free_blocks_Ok_uses ids p p' :
  wf p → Forall (λ i, i < num_blocks p) ids → free_blocks ids p = Ok p' →
  ∀ i, (uses i ids ≤ refc p i)%Z.
Proof.
  unfold free_blocks. revert p. induction ids as [|j ids IH]; intros p Hwf Hids Hok i.
  - apply (wf_ref _ Hwf).
  - apply Forall_cons in Hids as [Hj Hids]. cbn in Hok.
    apply bind_Ok in Hok as (p1 & E1 & Hok).
    assert (Hpos : (j ≠ NULL_BLOCK_ID → 0 < refc p j)%Z).
    { intros Hn. pose proof (wf_ref _ Hwf j).
      destruct (decide (refc p j = 0%Z)) as [E0|]; [|lia].
      by rewrite (free_one_unreferenced p j) in E1. }
    destruct (free_one_spec p j Hwf Hj Hpos) as (p1' & E1' & Hwf1 & Hk1 & Hr1 & _).
    assert (p1' = p1) as -> by congruence.
    specialize (IH p1 Hwf1). rewrite (keeps_num _ _ Hk1) in IH.
    specialize (IH Hids Hok i). rewrite Hr1 in IH. cbn in *. lia.
Qed.

Lemma cache_full_blocks_Ok_length ids hashes p p' :
  cache_full_blocks ids hashes p = Ok p' → enable_caching p = false ∧ p' = p ∨
  enable_caching p = true ∧ length ids = length hashes.
Proof.
  unfold cache_full_blocks. destruct (enable_caching p); cbn; [|left; naive_solver].
  intros (? & Hg & _)%bind_Ok. right. unfold rguard in Hg. by case_bool_decide.
Qed.

Lemma pool_step_wf p p' : step p p' → wf p ∧ hashless_first p → wf p' ∧ hashless_first p'.
Proof.
  intros Hs [Hwf Ho]. destruct Hs as [n r p' E|ids p' Hv E|ids p' Hv E|ids hs p' Hv E|b p' E].
  - apply (get_new_blocks_inv _ _ _ _ Hwf) in E as (_ & Hr). destruct r as [taken|].
    + destruct Hr as (_ & _ & Ha). split; [apply Ha|by eapply hashless_first_alloc].
    + by destruct Hr as [-> _].
  - destruct (touch_spec ids p Hwf Hv) as (p2 & E2 & Hwf2 & Hk & _ & Hf).
    assert (p2 = p') as -> by congruence. split; [done|by eapply hashless_first_filter].
  - destruct (free_blocks_spec ids p Hwf Hv) as (p2 & E2 & Hwf2 & Hk & _ & Hf).
    { by eapply free_blocks_Ok_uses. }
    assert (p2 = p') as -> by congruence. split; [done|by eapply hashless_first_freed].
  - destruct (cache_full_blocks_Ok_length _ _ _ _ E) as [[_ ->]|[_ Hl]]; [done|].
    destruct (cache_full_blocks_spec ids hs p Hwf) as (p2 & E2 & Hwf2 & Hx & _);
      [eapply Forall_impl; [done|by intros ? [? _]]|done|].
    assert (p2 = p') as -> by congruence. split; [done|].
    apply (hashless_first_indexes ids hs p); [done|done| |done].
    eapply Forall_impl; [done|]. by intros ? [_ ?].
  - pose proof (reset_spec p Hwf) as Hr. rewrite E in Hr. destruct Hr as (Hwf' & _ & Hb).
    split; [done|]. destruct b; [|by rewrite Hb].
    destruct Hb as (_ & _ & Hn & _ & Hf & _). exists (free_list p'), [].
    rewrite app_nil_r. split_and!; [done| |by constructor]. apply Forall_forall; auto.
Qed.
End Reachable.

(** ** Properties *)

Section Properties.
Implicit Types (p : BlockPool).

(** C33: every pool reached from construction by any sequence of allocations,
    touches, frees, indexings and resets keeps its three ledgers consistent --
    the free queue holds exactly the unreferenced blocks, the hash index holds
    exactly the blocks carrying that hash, the null block is never handed out
    -- and the queue hands out hash-less blocks before it evicts a cached one. *)
Theorem pool_reachable_wf n bs c p0 p
    (Hinit : init n bs c = Ok p0) (Hrun : rtc step p0 p) :
  wf p ∧ hashless_first p.
Proof.
  assert (H0 : wf p0 ∧ hashless_first p0) by (split; by eapply init_Ok).
  clear Hinit. induction Hrun; [done|]. apply IHHrun. by eapply pool_step_wf.
Qed.

(** [get_new_blocks] either refuses, exactly when fewer blocks are free than
    asked for and then changes nothing, or hands out that many distinct
    unreferenced blocks with one reference each, none of them the null block
    and none of them reachable through the hash index any more, without
    touching any other block. *)
Theorem get_new_blocks_exclusive p n (Hwf : wf p) (Hn : (0 ≤ n)%Z) :
  match get_new_blocks n p with
  | Err _ => False
  | Ok (None, p') => p' = p ∧ (num_free_blocks p < n)%Z
  | Ok (Some taken, p') =>
      Z.of_nat (length taken) = n ∧ NoDup taken ∧ (n ≤ num_free_blocks p)%Z ∧
      (∀ i, i ∈ taken → i ≠ NULL_BLOCK_ID ∧ i < num_blocks p ∧ refc p i = 0%Z ∧
        refc p' i = 1%Z ∧ ∀ h, get_cached_block h p' ≠ Some i) ∧
      (∀ i, i ∉ taken → refc p' i = refc p i ∧ bhash p' i = bhash p i)
  end.
Proof.
  destruct (get_new_blocks n p) as [[r p']|e] eqn:E; cycle 1.
  { pose proof (get_new_blocks_spec (Z.to_nat n) p Hwf) as Hs.
    rewrite Z2Nat.id, E in Hs by done. case_decide; [done|]. by destruct Hs as (? & ? & _). }
  apply (get_new_blocks_inv _ _ _ _ Hwf) in E as (_ & Hr). rewrite (num_free_length p Hwf).
  destruct r as [taken|]; [|by destruct Hr].
  destruct Hr as (_ & Hlen & Ha). pose proof (free_list_nodup _ Hwf) as Hnd.
  rewrite (alloc_free _ _ _ Ha) in Hnd |- *. apply NoDup_app in Hnd as (Hnd & _ & _).
  rewrite length_app. split_and!; [done|done|lia| |].
  - intros i Hi. assert (Hf : i ∈ free_list p) by (rewrite (alloc_free _ _ _ Ha); set_solver).
    pose proof (free_list_bounds p i Hwf Hf). apply (wf_free _ Hwf) in Hf as [? Hr0].
    split_and!; [unfold NULL_BLOCK_ID; lia|done|done| |].
    + rewrite (alloc_ref _ _ _ Ha), uses_nodup by (done || unfold NULL_BLOCK_ID; lia). lia.
    + intros h Hc. apply get_cached_block_Some in Hc as (Hc & _); [|apply Ha].
      by rewrite (alloc_hash _ _ _ Ha), decide_True in Hc.
  - intros i Hi. rewrite (alloc_ref _ _ _ Ha), (alloc_hash _ _ _ Ha).
    rewrite uses_notin, decide_False by done. split; [lia|done].
Qed.

(** C40: taking a reference on a list of blocks and giving it back, tail first,
    restores every reference count, every hash and the set of free blocks. *)
Theorem touch_free_roundtrip p ids
    (Hwf : wf p) (Hids : Forall (λ i, i < num_blocks p) ids) :
  ∃ p1 p2, touch ids p = Ok p1 ∧ free_blocks (reverse ids) p1 = Ok p2 ∧
    (∀ i, refc p1 i = (refc p i + uses i ids)%Z) ∧
    (∀ i, refc p2 i = refc p i ∧ bhash p2 i = bhash p i) ∧
    free_list p2 ≡ₚ free_list p ∧
    cached_block_hash_to_block p2 = cached_block_hash_to_block p.
Proof.
  destruct (touch_spec ids p Hwf Hids) as (p1 & E1 & Hwf1 & Hk1 & Hr1 & _).
  destruct (free_blocks_spec (reverse ids) p1 Hwf1) as (p2 & E2 & Hwf2 & Hk2 & Hr2 & _).
  { rewrite (keeps_num _ _ Hk1). by rewrite reverse_Permutation. }
  { intros i. rewrite (uses_perm i (reverse ids) ids) by apply reverse_Permutation.
    rewrite Hr1. pose proof (wf_ref _ Hwf i). lia. }
  assert (Hr : ∀ i, refc p2 i = refc p i).
  { intros i. rewrite Hr2, Hr1.
    rewrite (uses_perm i (reverse ids) ids) by apply reverse_Permutation. lia. }
  pose proof (keeps_preorder.(PreOrder_Transitive) _ _ _ Hk1 Hk2) as Hk.
  exists p1, p2. split_and!; [done..| | |apply Hk].
  - intros i. split; [apply Hr|apply Hk].
  - apply NoDup_Permutation; [by apply free_list_nodup..|].
    intros i. rewrite (wf_free _ Hwf), (wf_free _ Hwf2), Hr. by rewrite (keeps_num _ _ Hk).
Qed.

(** [reset_prefix_cache] succeeds exactly when no block but the null block is
    referenced; it then empties the index, and otherwise changes nothing. *)
Theorem reset_prefix_cache_iff_idle p (Hwf : wf p) :
  let '(ok, p') := reset_prefix_cache p in
  (ok = true ↔ ∀ i, 1 ≤ i < num_blocks p → refc p i = 0%Z) ∧
  (ok = true → num_cached_blocks p' = 0 ∧ (∀ h, get_cached_block h p' = None) ∧
    ∀ i, refc p' i = refc p i) ∧
  (ok = false → p' = p).
Proof.
  pose proof (reset_spec p Hwf) as Hs. destruct (reset_prefix_cache p) as [ok p'].
  destruct Hs as (Hwf' & Hiff & Hb). split; [done|]. destruct ok; [|by split].
  split; [|done]. intros _. destruct Hb as (_ & Hr & Hh & Hc & _).
  split_and!; [done| |done]. intros h. apply get_cached_block_None; [done|].
  intros i. by rewrite Hh.
Qed.

End Properties.

(** ** Witnesses *)

Lemma pool_reachable_wf_witness :
  ∃ p0 p1 p2, init 4 16 true = Ok p0 ∧ get_new_blocks 2 p0 = Ok (Some [1; 2], p1) ∧
    cache_full_blocks [1; 2] [77; 78]%Z p1 = Ok p2 ∧ wf p2 ∧ hashless_first p2.
Proof.
  do 3 eexists. split; [vm_compute; reflexivity|].
  split; [vm_compute; reflexivity|]. split; [vm_compute; reflexivity|].
  eapply (pool_reachable_wf 4 16 true); [vm_compute; reflexivity|].
  eapply rtc_l; [eapply (step_alloc _ 2%Z (Some [1; 2])); vm_compute; reflexivity|].
  eapply rtc_l; [|apply rtc_refl].
  eapply (step_cache _ [1; 2] [77; 78]%Z); [|vm_compute; reflexivity].
  repeat constructor.
Defined.

Lemma get_new_blocks_exclusive_witness :
  ∃ p, init 4 16 true = Ok p ∧
    match get_new_blocks 2 p with
    | Ok (Some taken, p') => length taken = 2 ∧ ∀ i, i ∈ taken → refc p' i = 1%Z
    | _ => False
    end.
Proof.
  destruct (init_spec 4 16 true) as (p & E & Hwf & _); [lia|lia|].
  exists p. split; [done|].
  pose proof (get_new_blocks_exclusive p 2 Hwf ltac:(lia)) as H.
  vm_compute in E. injection E as <-.
  destruct (get_new_blocks 2 _) as [[[taken|] p']|e] eqn:E2; [|vm_compute in E2; discriminate|done].
  destruct H as (Hl & _ & _ & Hi & _). split; [lia|]. intros i Hin. by apply Hi.
Defined.

Lemma touch_free_roundtrip_witness :
  ∃ p p1 p2, init 4 16 true = Ok p ∧ touch [1; 2; 1] p = Ok p1 ∧
    free_blocks [1; 2; 1] p1 = Ok p2 ∧ refc p1 1 = 2%Z ∧ refc p2 1 = 0%Z.
Proof.
  destruct (init_spec 4 16 true) as (p & E & Hwf & _ & Hn & _ & _ & _ & Hr & _); [lia|lia|].
  destruct (touch_free_roundtrip p [1; 2; 1] Hwf) as (p1 & p2 & E1 & E2 & H1 & H2 & _).
  { rewrite Hn. repeat constructor; lia. }
  exists p, p1, p2. split_and!; [done|done|exact E2| |].
  - rewrite H1, Hr. reflexivity.
  - rewrite (proj1 (H2 1)), Hr. reflexivity.
Defined.

Lemma reset_prefix_cache_iff_idle_witness :
  ∃ p, init 4 16 true = Ok p ∧ (reset_prefix_cache p).1 = true.
Proof.
  destruct (init_spec 4 16 true) as (p & E & Hwf & _ & Hn & _ & _ & _ & Hr & _); [lia|lia|].
  exists p. split; [done|]. pose proof (reset_prefix_cache_iff_idle p Hwf) as H.
  destruct (reset_prefix_cache p) as [ok p']. apply (proj1 H).
  intros i Hi. rewrite Hr, decide_False; [done|]. unfold NULL_BLOCK_ID. lia.
Defined.

End Pool.
