(* ===== verification/KVSpec.v ===== *)
(** * KV cache groups ([kv_cache_spec.py], the specs and the configuration)

    What a group of layers needs from the cache -- block counts, the projection
    of the prompt's hash chain on the group's block size -- and how far a cached
    prefix is reusable for its kind of attention. *)

From S2P Require Export BlockPool.

Module Spec.

(** [cdiv]: ceiling division written as in the code, [-(-a // b)]. *)
Definition cdiv (a b : Z) : Z := - ((- a) / b).

(** [l[start::step]] for [0 < step]. *)
Definition slice_from {A} (start step : nat) (l : list A) : list A :=
  omap (λ j, l !! (start + j * step)) (seq 0 (Z.to_nat (cdiv (Z.of_nat (length l) - Z.of_nat start) (Z.of_nat step)))).

(** The spec classes; [kv_row] is the pair [(slots, dim)]. *)
Inductive KVCacheSpec :=
  | FullAttentionSpec (block_size : nat) (kv_row : nat * nat)
  | MLASpec (block_size : nat) (kv_row : nat * nat)
  | SlidingWindowSpec (block_size : nat) (kv_row : nat * nat) (sliding_window : nat).

Definition block_size (s : KVCacheSpec) : nat :=
  match s with FullAttentionSpec b _ | MLASpec b _ | SlidingWindowSpec b _ _ => b end.
Definition kv_row (s : KVCacheSpec) : nat * nat :=
  match s with FullAttentionSpec _ r | MLASpec _ r | SlidingWindowSpec _ r _ => r end.
(** [0] means that attention reaches back to position 0. *)
Definition window (s : KVCacheSpec) : nat :=
  match s with SlidingWindowSpec _ _ w => w | _ => 0 end.
Definition is_sliding (s : KVCacheSpec) : bool :=
  match s with SlidingWindowSpec _ _ _ => true | _ => false end.

(** [__post_init__], the subclass's included. *)
Definition post_init (s : KVCacheSpec) : result unit :=
  _ ← rguard (bool_decide (1 ≤ block_size s)) ValueError;
  match s with
  | SlidingWindowSpec _ _ w => rguard (bool_decide (1 ≤ w)) ValueError
  | _ => Ok tt
  end.

Definition page_size_bytes (s : KVCacheSpec) (num_layers dtype_size : nat) : nat :=
  let '(slots, dim) := kv_row s in
  block_size s * slots * dim * num_layers * dtype_size.

Definition num_blocks_for (s : KVCacheSpec) (num_tokens : nat) : nat :=
  Z.to_nat (cdiv (Z.of_nat num_tokens) (Z.of_nat (block_size s))).

(** [SlidingWindowSpec.num_window_blocks] *)
Definition num_window_blocks (sliding_window block_size : nat) : nat :=
  Z.to_nat (cdiv (Z.of_nat sliding_window - 1) (Z.of_nat block_size) + 1).

Definition group_block_hashes (s : KVCacheSpec) (block_hashes : list Z) (hash_block_size : nat) :
    result (list Z) :=
  if decide (block_size s mod hash_block_size ≠ 0) then Err ValueError
  else
    let ratio := block_size s / hash_block_size in
    if decide (ratio = 1) then Ok block_hashes
    else Ok (slice_from (ratio - 1) ratio block_hashes).

(** The loop of [_prefix_run_hit]: cached blocks up to the first miss. *)
Fixpoint prefix_run (hashes : list Z) (pool : Pool.BlockPool) : list nat :=
  match hashes with
  | [] => []
  | h :: hashes =>
      match Pool.get_cached_block h pool with
      | None => []
      | Some b => b :: prefix_run hashes pool
      end
  end.

Definition prefix_run_hit (s : KVCacheSpec) (block_hashes : list Z) (max_length : nat)
    (pool : Pool.BlockPool) (hash_block_size : nat) : result (list nat) :=
  hashes ← group_block_hashes s block_hashes hash_block_size;
  let num_blocks := Nat.min (max_length / block_size s) (length hashes) in
  Ok (prefix_run (take num_blocks hashes) pool).

(** The right-to-left loop of [SlidingWindowSpec.find_longest_cache_hit]; [n] is
    the number of indices left, so the body runs at [index = n - 1]. *)
Fixpoint window_loop (needed : nat) (hashes : list Z) (pool : Pool.BlockPool)
    (n run : nat) (hit : list nat) : list nat :=
  match n with
  | 0 => take run hit
  | S index =>
      match Pool.get_cached_block (hashes !!! index) pool with
      | None => window_loop needed hashes pool index 0 hit
      | Some block =>
          let hit := <[index := block]> hit in
          let run := S run in
          if decide (needed ≤ run) then take (index + run) hit
          else window_loop needed hashes pool index run hit
      end
  end.

Definition window_hit (s : KVCacheSpec) (sliding_window : nat) (block_hashes : list Z)
    (max_length : nat) (pool : Pool.BlockPool) (hash_block_size : nat) : result (list nat) :=
  hashes ← group_block_hashes s block_hashes hash_block_size;
  let num_blocks := Nat.min (max_length / block_size s) (length hashes) in
  let needed := num_window_blocks sliding_window (block_size s) in
  Ok (window_loop needed hashes pool num_blocks 0 (replicate num_blocks Pool.NULL_BLOCK_ID)).

(** [find_longest_cache_hit], dispatched on the class. *)
Definition find_longest_cache_hit (s : KVCacheSpec) (block_hashes : list Z) (max_length : nat)
    (pool : Pool.BlockPool) (hash_block_size : nat) : result (list nat) :=
  match s with
  | SlidingWindowSpec _ _ w => window_hit s w block_hashes max_length pool hash_block_size
  | _ => prefix_run_hit s block_hashes max_length pool hash_block_size
  end.

Record KVCacheGroup := Group {
  group_id : nat;
  spec : KVCacheSpec;
  layer_ids : list nat;
}.

Record KVCacheConfig := Config {
  groups : list KVCacheGroup;
  hash_block_size : nat;
}.

(** [KVCacheConfig(groups, hash_block_size)] with its [__post_init__]. *)
Definition make_config (groups : list KVCacheGroup) (hash_block_size : nat) :
    result KVCacheConfig :=
  _ ← rguard (bool_decide (groups ≠ [])) ValueError;
  _ ← rfold (λ g (_ : unit), _ ← group_block_hashes (spec g) [] hash_block_size; Ok tt) groups tt;
  Ok (Config groups hash_block_size).

Definition num_groups (c : KVCacheConfig) : nat := length (groups c).
Definition is_homogeneous (c : KVCacheConfig) : bool := bool_decide (length (groups c) = 1).

Fixpoint group_of_layer_in (groups : list KVCacheGroup) (layer : nat) : result nat :=
  match groups with
  | [] => Err KeyError
  | g :: groups =>
      if decide (layer ∈ layer_ids g) then Ok (group_id g) else group_of_layer_in groups layer
  end.
Definition group_of_layer (c : KVCacheConfig) (layer : nat) : result nat :=
  group_of_layer_in (groups c) layer.

(** [FullAttentionSpec(...)] and so on: the constructor call runs [__post_init__]. *)
Definition make_spec (s : KVCacheSpec) : result KVCacheSpec := _ ← post_init s; Ok s.

Definition homogeneous (block_size num_layers : nat) (kv_row : nat * nat)
    (hash_block_size : option nat) : result KVCacheConfig :=
  s ← make_spec (FullAttentionSpec block_size kv_row);
  make_config [Group 0 s (seq 0 num_layers)]
    (match hash_block_size with Some (S n) => S n | _ => block_size end).

(** The attributes [from_model_config] reads off a model config; an absent
    [is_mla], [sliding_window] or [sliding_window_layers] is its default. *)
Record ModelView := Model {
  num_layers : nat;
  is_mla : bool;
  kv_lora_rank : nat;
  qk_rope_head_dim : nat;
  num_kv_heads : nat;
  head_dim : nat;
  sliding_window : nat;
  sliding_window_layers : list nat;
}.

Definition from_model_config (config : ModelView) (tp_size block_size : nat)
    (hash_block_size : option nat) : result KVCacheConfig :=
  let hash_block_size := match hash_block_size with Some (S n) => S n | _ => block_size end in
  let all_layers := seq 0 (num_layers config) in
  if is_mla config then
    s ← make_spec (MLASpec block_size (1, kv_lora_rank config + qk_rope_head_dim config));
    make_config [Group 0 s all_layers] hash_block_size
  else
    let kv_heads := num_kv_heads config / tp_size in
    let remainder := num_kv_heads config mod tp_size in
    if decide (remainder ≠ 0 ∨ kv_heads = 0) then Err ValueError
    else
      let full_row := (2 * kv_heads, head_dim config) in
      let window := sliding_window config in
      let windowed := sliding_window_layers config in
      if decide (window = 0 ∨ windowed = []) then
        full ← make_spec (FullAttentionSpec block_size full_row);
        make_config [Group 0 full all_layers] hash_block_size
      else
        let dense := filter (λ i, i ∉ windowed) all_layers in
        sw ← make_spec (SlidingWindowSpec block_size full_row window);
        if decide (dense = []) then make_config [Group 0 sw windowed] hash_block_size
        else
          full ← make_spec (FullAttentionSpec block_size full_row);
          make_config [Group 0 sw windowed; Group 1 full dense] hash_block_size.

(** ** Lemmas *)

Lemma cdiv_bounds a b : (0 < b)%Z → (a ≤ b * cdiv a b < a + b)%Z.
Proof.
  intros Hb. unfold cdiv.
  pose proof (Z.div_mod (- a) b ltac:(lia)). pose proof (Z.mod_pos_bound (- a) b Hb). lia.
Qed.

Lemma num_blocks_for_bounds s n :
  1 ≤ block_size s →
  n ≤ num_blocks_for s n * block_size s < n + block_size s.
Proof.
  intros Hb. unfold num_blocks_for.
  pose proof (cdiv_bounds (Z.of_nat n) (Z.of_nat (block_size s)) ltac:(lia)). nia.
Qed.

Lemma num_blocks_for_mono s n m : 1 ≤ block_size s → n ≤ m → num_blocks_for s n ≤ num_blocks_for s m.
Proof.
  intros Hb Hn. pose proof (num_blocks_for_bounds s n Hb).
  pose proof (num_blocks_for_bounds s m Hb). nia.
Qed.

Lemma num_blocks_for_mul s k : 1 ≤ block_size s → num_blocks_for s (k * block_size s) = k.
Proof. intros Hb. pose proof (num_blocks_for_bounds s (k * block_size s) Hb). nia. Qed.

Lemma slice_from_lookup {A} (start step : nat) (l : list A) j :
  1 ≤ step → slice_from start step l !! j = l !! (start + j * step).
Proof.
  intros Hstep. unfold slice_from.
  set (n := Z.to_nat _).
  assert (Hn : ∀ k, k < n ↔ start + k * step < length l).
  { intros k. unfold n.
    pose proof (cdiv_bounds (Z.of_nat (length l) - Z.of_nat start) (Z.of_nat step) ltac:(lia)).
    nia. }
  clearbody n. revert j.
  assert (Hall : ∀ k, k < n → ∃ x, l !! (start + k * step) = Some x).
  { intros k Hk. apply lookup_lt_is_Some. by apply Hn. }
  assert (Hgen : ∀ m o, (∀ k, k < m → ∃ x, l !! (start + (o + k) * step) = Some x) →
    ∀ j, omap (λ j, l !! (start + j * step)) (seq o m) !! j =
      if decide (j < m) then l !! (start + (o + j) * step) else None).
  { induction m as [|m IH]; intros o Ho j; cbn.
    - by rewrite decide_False by lia.
    - destruct (Ho 0) as [x Hx]; [lia|]. rewrite Nat.add_0_r in Hx. rewrite Hx.
      destruct j as [|j]; cbn; [by rewrite decide_True, Nat.add_0_r by lia|].
      rewrite IH.
      + replace (S o + j) with (o + S j) by lia. repeat case_decide; done || lia.
      + intros k Hk. destruct (Ho (S k)) as [y Hy]; [lia|]. exists y.
        by replace (S o + k) with (o + S k) by lia. }
  intros j. rewrite Hgen; [|intros k Hk; by apply Hall].
  case_decide as Hj; [done|]. symmetry. apply lookup_ge_None. rewrite Hn in Hj. lia.
Qed.

Section Hits.
Context (pool : Pool.BlockPool).
Implicit Types (hashes : list Z).

(** Block [b] is what the pool serves for entry [i] of the chain. *)
Definition serves hashes (i b : nat) : Prop :=
  ∃ h, hashes !! i = Some h ∧ Pool.get_cached_block h pool = Some b.
Definition misses hashes (i : nat) : Prop :=
  ∃ h, hashes !! i = Some h ∧ Pool.get_cached_block h pool = None.

Lemma prefix_run_serves hashes i b :
  prefix_run hashes pool !! i = Some b → serves hashes i b.
Proof.
  revert i. induction hashes as [|h hashes IH]; intros i; cbn; [done|].
  destruct (Pool.get_cached_block h pool) as [c|] eqn:E; [|done].
  destruct i as [|i]; cbn; [|apply IH]. intros [= ->]. by exists h.
Qed.

Lemma prefix_run_maximal hashes :
  length (prefix_run hashes pool) ≤ length hashes ∧
  (length (prefix_run hashes pool) < length hashes →
   misses hashes (length (prefix_run hashes pool))).
Proof.
  induction hashes as [|h hashes [IH1 IH2]]; cbn; [lia|].
  destruct (Pool.get_cached_block h pool) as [c|] eqn:E; cbn.
  - split; [lia|]. intros Hlt. apply IH2. lia.
  - split; [lia|]. intros _. by exists h.
Qed.

(** The state of the right-to-left scan: a run of [run] served blocks starts at
    [n], nothing is filled in below [n], and no longer prefix has a complete
    window. *)
Record scan (needed : nat) hashes (N n run : nat) (hit : list nat) : Prop := {
  scan_len : length hit = N;
  scan_bound : n + run ≤ N;
  scan_run : ∀ i, n ≤ i < n + run → ∃ b, hit !! i = Some b ∧ serves hashes i b;
  scan_null : ∀ i, i < n → hit !! i = Some Pool.NULL_BLOCK_ID;
  scan_needed : run < needed;
  scan_max : ∀ m, n + run < m ≤ N → ∃ i, m - needed ≤ i < m ∧ misses hashes i;
}.

(** What the scan returns: null blocks, then the served blocks of one window. *)
Record window_result (needed : nat) hashes (N : nat) (hit : list nat) : Prop := {
  wres_len : length hit ≤ N;
  wres_served : ∀ i, length hit - needed ≤ i < length hit →
    ∃ b, hit !! i = Some b ∧ serves hashes i b;
  wres_null : ∀ i, i < length hit - needed → hit !! i = Some Pool.NULL_BLOCK_ID;
  wres_max : ∀ m, length hit < m ≤ N → ∃ i, m - needed ≤ i < m ∧ misses hashes i;
}.

Lemma window_loop_result needed hashes N n run hit :
  N ≤ length hashes → scan needed hashes N n run hit →
  window_result needed hashes N (window_loop needed hashes pool n run hit).
Proof.
  intros HN. revert run hit. induction n as [|index IH]; intros run hit Hscan; cbn;
    destruct Hscan as [Hlen Hbd Hrun Hnull Hneed Hmax].
  - assert (Hl : length (take run hit) = run) by (rewrite length_take; lia).
    split; rewrite ?Hl; [lia| |lia|done].
    intros i Hi. rewrite lookup_take_lt by lia. apply Hrun. lia.
  - assert (Hlk : hashes !! index = Some (hashes !!! index)).
    { destruct (lookup_lt_is_Some_2 hashes index) as [h Hh]; [lia|].
      by rewrite (list_lookup_total_correct _ _ _ Hh). }
    destruct (Pool.get_cached_block _ pool) as [b|] eqn:E.
    + assert (Hserve : ∀ i, index ≤ i < index + S run → ∃ b',
        <[index:=b]> hit !! i = Some b' ∧ serves hashes i b').
      { intros i Hi. destruct (decide (i = index)) as [->|Hne].
        - exists b. rewrite list_lookup_insert_eq by lia. split; [done|]. by eexists.
        - rewrite list_lookup_insert_ne by done. apply Hrun. lia. }
      assert (Hnull' : ∀ i, i < index → <[index:=b]> hit !! i = Some Pool.NULL_BLOCK_ID).
      { intros i Hi. rewrite list_lookup_insert_ne by lia. apply Hnull. lia. }
      case_decide as Hd.
      * assert (Hl : length (take (index + S run) (<[index:=b]> hit)) = index + S run)
          by (rewrite length_take, length_insert; lia).
        split; rewrite ?Hl; [lia| | |].
        -- intros i Hi. rewrite lookup_take_lt by lia. apply Hserve. lia.
        -- intros i Hi. rewrite lookup_take_lt by lia. apply Hnull'. lia.
        -- intros m Hm. apply Hmax. lia.
      * apply IH. split; [by rewrite length_insert|lia|done|done|lia|].
        intros m Hm. apply Hmax. lia.
    + apply IH. split; [done|lia|lia| |lia|].
      * intros i Hi. apply Hnull. lia.
      * intros m Hm. destruct (decide (S index + run < m)) as [?|?]; [apply Hmax; lia|].
        exists index. split; [lia|]. by eexists.
Qed.

Lemma scan_init needed hashes N :
  1 ≤ needed → scan needed hashes N N 0 (replicate N Pool.NULL_BLOCK_ID).
Proof.
  intros Hn. split; [apply length_replicate|lia|lia| |lia|lia].
  intros i Hi. by apply lookup_replicate_2.
Qed.
End Hits.

Lemma num_window_blocks_pos w b : 1 ≤ w → 1 ≤ b → 1 ≤ num_window_blocks w b.
Proof.
  intros Hw Hb. unfold num_window_blocks.
  pose proof (cdiv_bounds (Z.of_nat w - 1) (Z.of_nat b) ltac:(lia)). nia.
Qed.

(** The window's blocks cover every position a query reads below it. *)
Lemma window_blocks_cover w b n j :
  1 ≤ w → 1 ≤ b → j < n → n * b + 1 < (j + 1) * b + w →
  n - num_window_blocks w b ≤ j.
Proof.
  intros Hw Hb Hj Hc. unfold num_window_blocks.
  pose proof (cdiv_bounds (Z.of_nat w - 1) (Z.of_nat b) ltac:(lia)). nia.
Qed.

Lemma group_block_hashes_Ok s hashes hbs hs :
  1 ≤ block_size s → group_block_hashes s hashes hbs = Ok hs →
  ∃ r, 1 ≤ r ∧ block_size s = r * hbs ∧ ∀ j, hs !! j = hashes !! (r - 1 + j * r).
Proof.
  intros Hbs. unfold group_block_hashes. case_decide as Hmod; [done|].
  assert (Hd : block_size s = block_size s / hbs * hbs).
  { pose proof (Nat.div_mod_eq (block_size s) hbs). lia. }
  assert (Hr : 1 ≤ block_size s / hbs) by nia.
  intros Hhs. exists (block_size s / hbs). split_and!; [done|done|]. intros j.
  case_decide as E; injection Hhs as <-.
  - rewrite E. f_equal. lia.
  - by apply slice_from_lookup.
Qed.

Lemma window_loop_length pool needed hashes n run hit :
  length (window_loop needed hashes pool n run hit) ≤ length hit.
Proof.
  revert run hit. induction n as [|n IH]; intros run hit; cbn; [rewrite length_take; lia|].
  destruct (Pool.get_cached_block _ pool) as [b0|]; [|apply IH].
  case_decide; [rewrite length_take, length_insert; lia|].
  etrans; [apply IH|]. by rewrite length_insert.
Qed.

(** Every entry of a window hit is the null block or served. *)
Lemma window_loop_entries pool needed hashes n run hit :
  n ≤ length hashes →
  (∀ i b, hit !! i = Some b → b = Pool.NULL_BLOCK_ID ∨ serves pool hashes i b) →
  ∀ i b, window_loop needed hashes pool n run hit !! i = Some b →
    b = Pool.NULL_BLOCK_ID ∨ serves pool hashes i b.
Proof.
  revert run hit. induction n as [|n IH]; intros run hit Hn Hhit i b; cbn.
  { intros Hi. apply (Hhit i). by apply lookup_take_Some in Hi as [? _]. }
  destruct (Pool.get_cached_block _ pool) as [b0|] eqn:E; [|by apply IH; [lia|]].
  assert (Hhit' : ∀ i b, <[n:=b0]> hit !! i = Some b →
    b = Pool.NULL_BLOCK_ID ∨ serves pool hashes i b).
  { intros i' b' [(<- & <- & _)|[_ Hi]]%list_lookup_insert_Some; [|by apply Hhit].
    right. destruct (lookup_lt_is_Some_2 hashes n) as [h Hh]; [lia|].
    exists h. by rewrite (list_lookup_total_correct _ _ _ Hh) in E. }
  case_decide; [|by apply IH; [lia|]].
  intros Hi. apply (Hhit' i). by apply lookup_take_Some in Hi as [? _].
Qed.

(** Every entry of a hit is the null block, or what the pool serves for the
    chain entry of its position. *)
Lemma find_hit_entries s hashes max_length pool hbs hit i b :
  1 ≤ block_size s → find_longest_cache_hit s hashes max_length pool hbs = Ok hit →
  hit !! i = Some b →
  (i + 1) * block_size s ≤ max_length ∧
  (b = Pool.NULL_BLOCK_ID ∨ ∃ r h, 1 ≤ r ∧ block_size s = r * hbs ∧
    hashes !! (r - 1 + i * r) = Some h ∧ Pool.get_cached_block h pool = Some b).
Proof.
  intros Hbs Hf Hi.
  assert (∃ hs, group_block_hashes s hashes hbs = Ok hs ∧
    length hit ≤ max_length / block_size s ∧
    (b = Pool.NULL_BLOCK_ID ∨ serves pool hs i b)) as (hs & Hhs & Hlen & Hb).
  { destruct s; cbn in Hf; unfold prefix_run_hit, window_hit in Hf;
      apply bind_Ok in Hf as (hs & Hhs & [= <-]); exists hs; (split; [done|]).
    1, 2: destruct (prefix_run_maximal pool (take (Nat.min (max_length / block_size0) (length hs)) hs))
        as [Hl _]; rewrite length_take in Hl; split; [cbn; cbn in Hl; lia|right];
      destruct (prefix_run_serves pool _ _ _ Hi) as (h & Hh & Hc);
      apply lookup_take_Some in Hh as [Hh _]; by exists h.
    split; [|eapply window_loop_entries; [| |exact Hi]; [lia|]].
    - etrans; [apply window_loop_length|]. rewrite length_replicate. cbn. lia.
    - intros i' b' [-> _]%lookup_replicate. by left. }
  split.
  - apply lookup_lt_Some in Hi. pose proof (Nat.Div0.mul_div_le max_length (block_size s)). nia.
  - destruct Hb as [?|(h & Hh & Hc)]; [by left|right].
    destruct (group_block_hashes_Ok _ _ _ _ Hbs Hhs) as (r & Hr & Hrb & Hlk).
    exists r, h. split_and!; [done|done|by rewrite <- Hlk|done].
Qed.

(** ** Properties *)

(** For full attention and MLA, a hit is the longest unbroken run of cached
    blocks from block 0 under the length ceiling: block [i] of the hit is what
    the pool serves for the chain entry that ends group block [i], and when
    another whole block would still fit under the ceiling, its entry is missing
    from the pool. *)
Theorem prefix_hit_longest s hashes max_length pool hbs hit
    (Hkind : is_sliding s = false) (Hbs : 1 ≤ block_size s)
    (Hhit : find_longest_cache_hit s hashes max_length pool hbs = Ok hit) :
  let r := block_size s / hbs in
  length hit * block_size s ≤ max_length ∧
  (∀ i b, hit !! i = Some b →
    ∃ h, hashes !! (r - 1 + i * r) = Some h ∧ Pool.get_cached_block h pool = Some b) ∧
  (∀ h, (length hit + 1) * block_size s ≤ max_length →
    hashes !! (r - 1 + length hit * r) = Some h → Pool.get_cached_block h pool = None).
Proof.
  assert (Hf : prefix_run_hit s hashes max_length pool hbs = Ok hit) by (by destruct s).
  unfold prefix_run_hit in Hf. apply bind_Ok in Hf as (hs & Hhs & [= <-]).
  apply group_block_hashes_Ok in Hhs as (r & Hr & Hrbs & Hlk); [|done].
  assert (block_size s / hbs = r) as ->.
  { rewrite Hrbs. apply Nat.div_mul. intros ->. lia. }
  set (n := Nat.min _ _). set (run := prefix_run _ _).
  destruct (prefix_run_maximal pool (take n hs)) as [Hle Hmax].
  fold run in Hle, Hmax. rewrite length_take in Hle, Hmax.
  assert (Hn : n * block_size s ≤ max_length).
  { pose proof (Nat.Div0.mul_div_le max_length (block_size s)). nia. }
  cbn zeta. split_and!.
  - nia.
  - intros i b Hi. pose proof (lookup_lt_Some _ _ _ Hi) as Hil.
    apply prefix_run_serves in Hi as (h & Hh & Hc).
    rewrite lookup_take_lt in Hh by lia. exists h. by rewrite <- Hlk.
  - intros h Hfit Hh. rewrite <- Hlk in Hh. pose proof (lookup_lt_Some _ _ _ Hh) as Hlt.
    assert (length run < max_length / block_size s).
    { apply Nat.div_le_lower_bound; lia. }
    destruct Hmax as (h' & Hh' & Hc); [lia|].
    rewrite lookup_take_lt in Hh' by lia. congruence.
Qed.

(** For a sliding window, every block of the hit that a query at the end of
    the hit can reach back to is served by the pool for its chain entry, the
    blocks before the window are the null block, and no longer prefix under the
    ceiling has all the blocks of its window cached. *)
Theorem window_hit_longest b row w hashes max_length pool hbs hit
    (Hb : 1 ≤ b) (Hw : 1 ≤ w)
    (Hhit : find_longest_cache_hit (SlidingWindowSpec b row w) hashes max_length pool hbs = Ok hit) :
  let r := b / hbs in
  let needed := num_window_blocks w b in
  length hit * b ≤ max_length ∧
  (∀ j, j < length hit → length hit * b + 1 < (j + 1) * b + w →
    ∃ id h, hit !! j = Some id ∧ hashes !! (r - 1 + j * r) = Some h ∧
      Pool.get_cached_block h pool = Some id) ∧
  (∀ j, j < length hit - needed → hit !! j = Some Pool.NULL_BLOCK_ID) ∧
  (∀ m, length hit < m → m * b ≤ max_length → is_Some (hashes !! (r - 1 + (m - 1) * r)) →
    ∃ i h, m - needed ≤ i < m ∧ hashes !! (r - 1 + i * r) = Some h ∧
      Pool.get_cached_block h pool = None).
Proof.
  cbn in Hhit. unfold window_hit in Hhit. apply bind_Ok in Hhit as (hs & Hhs & [= <-]).
  apply group_block_hashes_Ok in Hhs as (r & Hr & Hrbs & Hlk); [cbn in Hrbs, Hlk|done].
  assert (b / hbs = r) as ->.
  { rewrite Hrbs. apply Nat.div_mul. intros ->. lia. }
  cbn [block_size]. set (n := Nat.min _ _). set (needed := num_window_blocks w b).
  pose proof (num_window_blocks_pos w b Hw Hb) as Hneed. fold needed in Hneed.
  destruct (window_loop_result pool needed hs n n 0 (replicate n Pool.NULL_BLOCK_ID))
    as [Hlen Hserved Hnull Hmax]; [lia|by apply scan_init|].
  set (hit := window_loop _ _ _ _ _ _) in *.
  assert (Hn : n * b ≤ max_length).
  { pose proof (Nat.Div0.mul_div_le max_length b). nia. }
  cbn zeta. split_and!; [nia| |done|].
  - intros j Hj Hreach. pose proof (window_blocks_cover w b (length hit) j Hw Hb Hj Hreach) as Hcov.
    fold needed in Hcov. destruct (Hserved j) as (id & Hid & h & Hh & Hc); [lia|].
    exists id, h. by rewrite <- Hlk.
  - intros m Hm Hfit [h Hh]. rewrite <- Hlk in Hh. apply lookup_lt_Some in Hh.
    assert (m ≤ max_length / b) by (apply Nat.div_le_lower_bound; lia).
    destruct (Hmax m) as (i & Hi & h' & Hh' & Hc); [lia|].
    exists i, h'. by rewrite <- Hlk.
Qed.

Definition divides_hash_blocks (c : KVCacheConfig) : Prop :=
  ∀ g, g ∈ groups c → block_size (spec g) mod hash_block_size c = 0.

(** [layer] is in group [k] and in no other, and [group_of_layer] says so. *)
Definition owned_by (c : KVCacheConfig) (layer k : nat) : Prop :=
  (∃ g, groups c !! k = Some g ∧ layer ∈ layer_ids g ∧ group_id g = k) ∧
  group_of_layer c layer = Ok k ∧
  ∀ k' g', groups c !! k' = Some g' → layer ∈ layer_ids g' → k' = k.

Lemma make_config_Ok gs h c :
  make_config gs h = Ok c → groups c = gs ∧ divides_hash_blocks c.
Proof.
  unfold make_config. intros (? & _ & Hm)%bind_Ok. apply bind_Ok in Hm as ([] & Hf & [= <-]).
  split; [done|]. unfold divides_hash_blocks; cbn.
  clear -Hf. induction gs as [|g gs IH]; [by intros g ?%elem_of_nil|].
  cbn in Hf. apply bind_Ok in Hf as ([] & Hg & Hf).
  apply bind_Ok in Hg as (hs & Hg & _). unfold group_block_hashes in Hg.
  case_decide as E; [done|]. intros g' [->|Hg']%elem_of_cons; [lia|by apply IH].
Qed.

Lemma one_group_owns s n h c layer :
  make_config [Group 0 s (seq 0 n)] h = Ok c → layer < n → owned_by c layer 0.
Proof.
  intros [Hg _]%make_config_Ok Hl. assert (layer ∈ seq 0 n) by (apply elem_of_seq; lia).
  unfold owned_by, group_of_layer. rewrite Hg. cbn. rewrite decide_True by done.
  split_and!; [by eexists|done|]. by intros [|[|k']].
Qed.

Lemma two_groups_own s1 s2 l1 l2 h c layer :
  make_config [Group 0 s1 l1; Group 1 s2 l2] h = Ok c →
  (layer ∈ l1 ∧ layer ∉ l2 → owned_by c layer 0) ∧
  (layer ∉ l1 ∧ layer ∈ l2 → owned_by c layer 1).
Proof.
  intros [Hg _]%make_config_Ok. unfold owned_by, group_of_layer. rewrite Hg. cbn.
  split; intros [H1 H2]; split_and!; try by eexists.
  - by rewrite decide_True.
  - intros [|[|[|k']]] g' Hk Hin; try done. by injection Hk as <-.
  - by rewrite decide_False, decide_True.
  - intros [|[|[|k']]] g' Hk Hin; try done. by injection Hk as <-.
Qed.

(** The groups [from_model_config] builds partition the model's layers: each
    layer belongs to exactly one group, which is the one [group_of_layer]
    answers, and every group's block size is a multiple of the hash block size. *)
Theorem from_model_config_partitions config tp bs hbs c
    (Hc : from_model_config config tp bs hbs = Ok c) :
  (∀ layer, layer < num_layers config → ∃ k, owned_by c layer k) ∧ divides_hash_blocks c.
Proof.
  unfold from_model_config in Hc. destruct (is_mla config).
  { apply bind_Ok in Hc as (s & _ & Hc). split; [|by eapply make_config_Ok].
    intros layer Hl. exists 0. by eapply one_group_owns. }
  case_decide; [done|]. case_decide as Hw.
  { apply bind_Ok in Hc as (s & _ & Hc). split; [|by eapply make_config_Ok].
    intros layer Hl. exists 0. by eapply one_group_owns. }
  apply bind_Ok in Hc as (s & _ & Hc).
  assert (Hdense : ∀ layer, layer < num_layers config →
    layer ∈ filter (λ i, i ∉ sliding_window_layers config) (seq 0 (num_layers config)) ↔
    layer ∉ sliding_window_layers config).
  { intros layer Hl. rewrite list_elem_of_filter, elem_of_seq. intuition lia. }
  case_decide as Hd.
  - pose proof (make_config_Ok _ _ _ Hc) as [Hg Hm]. split; [|done]. intros layer Hl.
    specialize (Hdense layer Hl). rewrite Hd in Hdense.
    assert (layer ∈ sliding_window_layers config).
    { destruct (decide (layer ∈ sliding_window_layers config)); [done|]. set_solver. }
    exists 0. unfold owned_by, group_of_layer. rewrite Hg. cbn. rewrite decide_True by done.
    split_and!; [by eexists|done|]. by intros [|[|k']].
  - apply bind_Ok in Hc as (s2 & _ & Hc). split; [|by eapply make_config_Ok].
    intros layer Hl. specialize (Hdense layer Hl).
    destruct (two_groups_own _ _ _ _ _ _ layer Hc) as [H0 H1].
    destruct (decide (layer ∈ sliding_window_layers config)); [exists 0; apply H0|exists 1; apply H1];
      naive_solver.
Qed.

(** ** Witnesses *)

(** A pool holding three cached blocks 1, 2, 3 under the hashes 101, 102, 104. *)
Definition demo_pool : Pool.BlockPool :=
  match
    (p ← Pool.init 8 4 true;
     '(_, p) ← Pool.get_new_blocks 3 p;
     Pool.cache_full_blocks [1; 2; 3] [101; 102; 104]%Z p)
  with
  | Ok p => p
  | Err _ => Pool.MkPool 0 0 false 0 0 [] (FreeBlockQueue.Queue ∅ 0) ∅
  end.

Lemma prefix_hit_longest_witness :
  ∃ hit, find_longest_cache_hit (FullAttentionSpec 4 (0, 0)) [101; 102; 103; 104]%Z 100 demo_pool 4
    = Ok hit ∧ hit = [1; 2] ∧ Pool.get_cached_block 103 demo_pool = None.
Proof.
  exists [1; 2]. assert (E : find_longest_cache_hit (FullAttentionSpec 4 (0, 0))
    [101; 102; 103; 104]%Z 100 demo_pool 4 = Ok [1; 2]) by (vm_compute; reflexivity).
  split_and!; [done|done|].
  destruct (prefix_hit_longest (FullAttentionSpec 4 (0, 0)) _ _ _ _ _ eq_refl ltac:(cbn; lia) E) as (_ & _ & Hmax).
  apply (Hmax 103%Z); [cbn; lia|reflexivity].
Defined.

Lemma window_hit_longest_witness :
  find_longest_cache_hit (SlidingWindowSpec 4 (0, 0) 4) [100; 101; 102; 103]%Z 100 demo_pool 4
    = Ok [0; 1; 2] ∧
  ∃ id h, [0; 1; 2] !! 2 = Some id ∧ [100; 101; 102; 103]%Z !! 2 = Some h ∧
    Pool.get_cached_block h demo_pool = Some id.
Proof.
  assert (E : find_longest_cache_hit (SlidingWindowSpec 4 (0, 0) 4)
    [100; 101; 102; 103]%Z 100 demo_pool 4 = Ok [0; 1; 2]) by (vm_compute; reflexivity).
  split; [done|].
  destruct (window_hit_longest 4 (0, 0) 4 _ _ _ _ _ ltac:(lia) ltac:(lia) E) as (_ & H & _).
  apply (H 2); cbn; lia.
Defined.

Lemma from_model_config_partitions_witness :
  ∃ c, from_model_config (Model 4 false 0 0 8 64 128 [0; 2]) 2 16 None = Ok c ∧
    ∃ k, owned_by c 3 k.
Proof.
  eexists. split; [vm_compute; reflexivity|].
  apply (from_model_config_partitions (Model 4 false 0 0 8 64 128 [0; 2]) 2 16 None);
    [vm_compute; reflexivity|cbn; lia].
Defined.

End Spec.
