(* ===== verification/Coordinator.v ===== *)
(** * The cache coordinator ([KVCacheCoordinator] of kv_cache_spec.py)

    N cache groups over one block pool: which blocks each request holds, the
    prefix hit every group can serve, allocation, indexing, release.  The
    ledger invariant says that the pool's reference counts are exactly the
    references the tracked requests account for. *)

From S2P Require Export KVSpec.

Module Coord.

(** [_RequestBlocks] *)
Record RequestBlocks := ReqBlocks {
  per_group : list (list nat);
  num_cached : list nat;
}.

Record KVCacheCoordinator := Coordinator {
  pool : Pool.BlockPool;
  groups : list Spec.KVCacheGroup;
  hash_block_size : nat;
  requests : gmap string RequestBlocks;
}.

Definition set_pool (p : Pool.BlockPool) (c : KVCacheCoordinator) : KVCacheCoordinator :=
  Coordinator p (groups c) (hash_block_size c) (requests c).
Definition set_requests (m : gmap string RequestBlocks) (c : KVCacheCoordinator) :
    KVCacheCoordinator :=
  Coordinator (pool c) (groups c) (hash_block_size c) m.

(** [KVCacheCoordinator(pool, groups, hash_block_size)] *)
Definition init (pool : Pool.BlockPool) (groups : list Spec.KVCacheGroup) (hash_block_size : nat) :
    KVCacheCoordinator :=
  Coordinator pool groups hash_block_size ∅.

(** ** Lookup *)

Fixpoint group_hits (groups : list Spec.KVCacheGroup) (block_hashes : list Z) (max_length : nat)
    (pool : Pool.BlockPool) (hbs : nat) : result (list (list nat)) :=
  match groups with
  | [] => Ok []
  | g :: groups =>
      hit ← Spec.find_longest_cache_hit (Spec.spec g) block_hashes max_length pool hbs;
      hits ← group_hits groups block_hashes max_length pool hbs;
      Ok (hit :: hits)
  end.

(** [min] and [max] of a non-empty sequence. *)
Fixpoint minimum (x : nat) (l : list nat) : nat :=
  match l with [] => x | y :: l => Nat.min x (minimum y l) end.
Fixpoint maximum (x : nat) (l : list nat) : nat :=
  match l with [] => x | y :: l => Nat.max x (maximum y l) end.

Definition block_sizes (gs : list Spec.KVCacheGroup) : list nat :=
  (λ g, Spec.block_size (Spec.spec g)) <$> gs.

Definition find_longest_cache_hit (block_hashes : list Z) (max_length : nat)
    (c : KVCacheCoordinator) : result (list (list nat) * nat) :=
  hits ← group_hits (groups c) block_hashes max_length (pool c) (hash_block_size c);
  match zip_with (λ hit b, length hit * b) hits (block_sizes (groups c)), block_sizes (groups c) with
  | n :: ns, b :: bs =>
      let len := minimum n ns in
      let len :=
        if decide (1 < length (groups c)) then len - len mod maximum b bs else len in
      if decide (len = 0) then Ok ((λ _, []) <$> groups c, 0)
      else Ok (zip_with (λ hit b, take (len / b) hit) hits (block_sizes (groups c)), len)
  | _, _ => Err ValueError
  end.

(** ** Release *)

(** The loop of [free]: each group's blocks, tail first. *)
Definition free_groups (per_group : list (list nat)) (p : Pool.BlockPool) : result Pool.BlockPool :=
  rfold (λ blocks p, Pool.free_blocks (reverse blocks) p) per_group p.

Definition free (request_id : string) (c : KVCacheCoordinator) : result KVCacheCoordinator :=
  match requests c !! request_id with
  | None => Ok c
  | Some state =>
      let c := set_requests (delete request_id (requests c)) c in
      p ← free_groups (per_group state) (pool c);
      Ok (set_pool p c)
  end.

(** ** Allocation *)

(** The loop over [enumerate(adopted)]: reference the blocks, then record them. *)
Fixpoint adopt (adopted per_group : list (list nat)) (num_cached : list nat) (p : Pool.BlockPool) :
    result (list (list nat) * list nat * Pool.BlockPool) :=
  match adopted, per_group, num_cached with
  | [], _, _ => Ok (per_group, num_cached, p)
  | blocks :: adopted, held :: per_group, _ :: num_cached =>
      _ ← rguard (bool_decide (held = [])) ValueError;
      p ← Pool.touch blocks p;
      '(per_group, num_cached, p) ← adopt adopted per_group num_cached p;
      Ok (blocks :: per_group, length blocks :: num_cached, p)
  | _, _, _ => Err IndexError
  end.

Definition needed_blocks (gs : list Spec.KVCacheGroup) (per_group : list (list nat))
    (num_tokens : nat) : list nat :=
  zip_with (λ g blocks, Spec.num_blocks_for (Spec.spec g) num_tokens - length blocks)
    gs per_group.

(** The cursor loop that deals the fresh blocks out to the groups. *)
Fixpoint distribute (per_group : list (list nat)) (needed fresh : list nat) : list (list nat) :=
  match per_group, needed with
  | blocks :: per_group, count :: needed =>
      (blocks ++ take count fresh) :: distribute per_group needed (drop count fresh)
  | _, _ => per_group
  end.

(** The request's record, created empty on first contact. *)
Definition tracked (request_id : string) (c : KVCacheCoordinator) : RequestBlocks :=
  let state := default (ReqBlocks [] []) (requests c !! request_id) in
  if decide (per_group state = [])
  then ReqBlocks (replicate (length (groups c)) []) (replicate (length (groups c)) 0)
  else state.

Definition allocate (request_id : string) (num_tokens : nat) (new_computed_blocks : list (list nat))
    (c : KVCacheCoordinator) : result (bool * KVCacheCoordinator) :=
  let state := tracked request_id c in
  let adopted := new_computed_blocks in
  '(state, p) ←
    (if decide (adopted = []) then Ok (state, pool c)
     else
       _ ← rguard (bool_decide (length adopted = length (groups c))) ValueError;
       '(pg, nc, p) ← adopt adopted (per_group state) (num_cached state) (pool c);
       Ok (ReqBlocks pg nc, p));
  let c := set_pool p (set_requests (<[request_id := state]> (requests c)) c) in
  let needed := needed_blocks (groups c) (per_group state) num_tokens in
  let total := sum_list needed in
  if decide (total = 0) then Ok (true, c)
  else
    '(fresh, p) ← Pool.get_new_blocks (Z.of_nat total) (pool c);
    let c := set_pool p c in
    match fresh with
    | None =>
        if decide (adopted = []) then Ok (false, c)
        else c ← free request_id c; Ok (false, c)
    | Some fresh =>
        let state := ReqBlocks (distribute (per_group state) needed fresh) (num_cached state) in
        Ok (true, set_requests (<[request_id := state]> (requests c)) c)
    end.

(** ** Indexing *)

(** One turn of the loop of [cache_blocks]: the freshly indexed blocks, the
    group's new cursor and the pool. *)
Definition cache_group (index : nat) (g : Spec.KVCacheGroup) (held : list nat) (start : nat)
    (block_hashes : list Z) (hbs num_computed_tokens : nat) (p : Pool.BlockPool) :
    result (list (nat * nat * Z) * nat * Pool.BlockPool) :=
  hashes ← Spec.group_block_hashes (Spec.spec g) block_hashes hbs;
  let full := Nat.min (num_computed_tokens / Spec.block_size (Spec.spec g)) (length hashes) in
  if decide (full ≤ start) then Ok ([], start, p)
  else
    let blocks := take (full - start) (drop start held) in
    let hashes := take (full - start) (drop start hashes) in
    if decide (length blocks < full - start) then Ok ([], start, p)
    else
      let gained := filter (λ bh, Pool.bhash p bh.1 = None) (zip blocks hashes) in
      p ← Pool.cache_full_blocks blocks hashes p;
      Ok ((λ '(b, h), (index, b, h)) <$> gained, full, p).

Fixpoint cache_groups (index : nat) (gs : list Spec.KVCacheGroup) (per_group : list (list nat))
    (num_cached : list nat) (block_hashes : list Z) (hbs num_computed_tokens : nat)
    (p : Pool.BlockPool) : result (list (nat * nat * Z) * list nat * Pool.BlockPool) :=
  match gs, per_group, num_cached with
  | [], _, _ => Ok ([], num_cached, p)
  | g :: gs, held :: per_group, start :: num_cached =>
      '(gained, full, p) ← cache_group index g held start block_hashes hbs num_computed_tokens p;
      '(fresh, num_cached, p) ←
        cache_groups (S index) gs per_group num_cached block_hashes hbs num_computed_tokens p;
      Ok (gained ++ fresh, full :: num_cached, p)
  | _, _, _ => Err IndexError
  end.

Definition cache_blocks (request_id : string) (block_hashes : list Z) (num_computed_tokens : nat)
    (c : KVCacheCoordinator) : result (list (nat * nat * Z) * KVCacheCoordinator) :=
  match requests c !! request_id with
  | None => Ok ([], c)
  | Some state =>
      if decide (per_group state = []) then Ok ([], c)
      else
        '(fresh, nc, p) ← cache_groups 0 (groups c) (per_group state) (num_cached state)
          block_hashes (hash_block_size c) num_computed_tokens (pool c);
        let state := ReqBlocks (per_group state) nc in
        Ok (fresh, set_pool p (set_requests (<[request_id := state]> (requests c)) c))
  end.

(** ** Window release *)

(** One turn of the loop of [remove_skipped_blocks]. *)
Definition skip_group (g : Spec.KVCacheGroup) (blocks : list nat) (num_computed_tokens : nat)
    (p : Pool.BlockPool) : result (list nat * Pool.BlockPool) :=
  let window := Spec.window (Spec.spec g) in
  if decide (window = 0) then Ok (blocks, p)
  else
    let keep_from :=
      Nat.min ((num_computed_tokens - window) / Spec.block_size (Spec.spec g)) (length blocks) in
    let dead := filter (λ b, b ≠ Pool.NULL_BLOCK_ID) (take keep_from blocks) in
    if decide (dead = []) then Ok (blocks, p)
    else
      let blocks := replicate keep_from Pool.NULL_BLOCK_ID ++ drop keep_from blocks in
      p ← Pool.free_blocks (reverse dead) p;
      Ok (blocks, p).

Fixpoint skip_groups (gs : list Spec.KVCacheGroup) (per_group : list (list nat))
    (num_computed_tokens : nat) (p : Pool.BlockPool) : result (list (list nat) * Pool.BlockPool) :=
  match gs, per_group with
  | g :: gs, blocks :: per_group =>
      '(blocks, p) ← skip_group g blocks num_computed_tokens p;
      '(per_group, p) ← skip_groups gs per_group num_computed_tokens p;
      Ok (blocks :: per_group, p)
  | [], [] => Ok ([], p)
  | _, _ => Err ValueError
  end.

Definition remove_skipped_blocks (request_id : string) (num_computed_tokens : nat)
    (c : KVCacheCoordinator) : result KVCacheCoordinator :=
  match requests c !! request_id with
  | None => Ok c
  | Some state =>
      '(pg, p) ← skip_groups (groups c) (per_group state) num_computed_tokens (pool c);
      let state := ReqBlocks pg (num_cached state) in
      Ok (set_pool p (set_requests (<[request_id := state]> (requests c)) c))
  end.

(** ** Views *)

(** [block_ids] and [held_blocks]: both are the request's ids here. *)
Definition block_ids (request_id : string) (c : KVCacheCoordinator) : list (list nat) :=
  match requests c !! request_id with
  | None => (λ _, []) <$> groups c
  | Some state => per_group state
  end.

Definition num_tracked_requests (c : KVCacheCoordinator) : nat := size (requests c).

(** ** The ledger *)

(** All the references a request accounts for. *)
Definition holds (state : RequestBlocks) : list nat := concat (per_group state).
Definition holds_of (m : gmap string RequestBlocks) (r : string) : list nat :=
  match m !! r with Some state => holds state | None => [] end.
Definition held (m : gmap string RequestBlocks) (i : nat) : Z :=
  map_sum (λ state, Pool.uses i (holds state)) m.

Definition valid_ids (p : Pool.BlockPool) (l : list nat) : Prop :=
  Forall (λ i, i < Pool.num_blocks p) l.

Definition group_ok (g : Spec.KVCacheGroup) : Prop := 1 ≤ Spec.block_size (Spec.spec g).

Record wf (c : KVCacheCoordinator) : Prop := {
  wf_pool : Pool.wf (pool c);
  wf_order : Pool.hashless_first (pool c);
  wf_groups : groups c ≠ [] ∧ Forall group_ok (groups c);
  wf_hbs : Forall (λ g, Spec.block_size (Spec.spec g) mod hash_block_size c = 0) (groups c);
  wf_shape : ∀ r state, requests c !! r = Some state →
    length (per_group state) = length (groups c) ∧ length (num_cached state) = length (groups c);
  wf_valid : ∀ r, valid_ids (pool c) (holds_of (requests c) r);
  (** reference counts are exact *)
  wf_ledger : ∀ i, i ≠ Pool.NULL_BLOCK_ID → Pool.refc (pool c) i = held (requests c) i;
}.

(** ** Ledger arithmetic *)

Section Ledger.
Implicit Types (m : gmap string RequestBlocks) (i : nat).

Lemma holds_of_insert m r state : holds_of (<[r := state]> m) r = holds state.
Proof. unfold holds_of. by rewrite lookup_insert_eq. Qed.
Lemma holds_of_insert_ne m r r' state :
  r ≠ r' → holds_of (<[r := state]> m) r' = holds_of m r'.
Proof. intros. unfold holds_of. by rewrite lookup_insert_ne. Qed.
Lemma holds_of_delete m r : holds_of (delete r m) r = [].
Proof. unfold holds_of. by rewrite lookup_delete_eq. Qed.
Lemma holds_of_delete_ne m r r' : r ≠ r' → holds_of (delete r m) r' = holds_of m r'.
Proof. intros. unfold holds_of. by rewrite lookup_delete_ne. Qed.

Lemma held_insert m r state i :
  held (<[r := state]> m) i =
    (held m i - Pool.uses i (holds_of m r) + Pool.uses i (holds state))%Z.
Proof. unfold held, holds_of. rewrite map_sum_insert. by destruct (m !! r). Qed.

Lemma held_delete m r i : held (delete r m) i = (held m i - Pool.uses i (holds_of m r))%Z.
Proof.
  unfold held, holds_of. destruct (m !! r) as [state|] eqn:E.
  - rewrite (map_sum_delete _ m r state E). lia.
  - rewrite delete_id by done. cbn. lia.
Qed.

Lemma uses_holds_le m r i : (Pool.uses i (holds_of m r) ≤ held m i)%Z.
Proof.
  unfold holds_of. destruct (m !! r) as [state|] eqn:E.
  - apply (map_sum_lookup_le (λ state, Pool.uses i (holds state)) m r state); [|done].
    intros. apply Pool.uses_nonneg.
  - apply map_sum_nonneg. intros. apply Pool.uses_nonneg.
Qed.

Lemma uses_concat_nil i n : Pool.uses i (concat (replicate n [])) = 0%Z.
Proof. induction n; done. Qed.

Lemma concat_reverse_perm (ls : list (list nat)) : concat (reverse <$> ls) ≡ₚ concat ls.
Proof.
  induction ls as [|l ls IH]; [done|]. cbn. rewrite IH.
  by rewrite reverse_Permutation.
Qed.

(** [free] on the pool side. *)
Lemma free_groups_spec pg p :
  Pool.wf p → valid_ids p (concat pg) → (∀ i, Pool.uses i (concat pg) ≤ Pool.refc p i)%Z →
  ∃ p', free_groups pg p = Ok p' ∧ Pool.wf p' ∧ Pool.keeps p p' ∧
    (∀ i, Pool.refc p' i = Pool.refc p i - Pool.uses i (concat pg))%Z ∧
    Pool.freed p (Pool.free_list p) (Pool.free_list p').
Proof.
  intros Hwf Hv Hu. pose proof (concat_reverse_perm pg) as Hp.
  destruct (Pool.free_blocks_spec (concat (reverse <$> pg)) p Hwf) as (p' & E & ? & ? & Hr & ?).
  { unfold valid_ids in Hv. by rewrite Hp. }
  { intros i. by rewrite (Pool.uses_perm i _ _ Hp). }
  exists p'. split_and!; try done.
  - unfold free_groups. unfold Pool.free_blocks in E. rewrite rfold_concat in E.
    rewrite <- E. clear. revert p. induction pg as [|l pg IH]; intros p; [done|].
    cbn. unfold Pool.free_blocks. destruct (rfold _ _ _); [apply IH|done].
  - intros i. by rewrite Hr, (Pool.uses_perm i _ _ Hp).
Qed.

(** The adoption loop touches all the adopted blocks. *)
Lemma adopt_spec adopted pg nc p p' :
  length adopted = length pg → length nc = length pg → concat pg = [] →
  Pool.touch (concat adopted) p = Ok p' →
  adopt adopted pg nc p = Ok (adopted, length <$> adopted, p').
Proof.
  unfold Pool.touch. rewrite rfold_concat.
  revert pg nc p. induction adopted as [|l adopted IH]; intros [|h pg] [|n nc] p Hl Hn Hc Ht;
    try done.
  - cbn in Ht. by injection Ht as ->.
  - cbn in Hc. apply app_nil in Hc as [-> Hc]. cbn in Ht |- *.
    apply bind_Ok in Ht as (p1 & E1 & Ht). unfold Pool.touch. rewrite E1. cbn.
    injection Hl as Hl. injection Hn as Hn. by rewrite (IH pg nc p1 Hl Hn Hc Ht).
Qed.

Lemma distribute_length pg needed fresh : length (distribute pg needed fresh) = length pg.
Proof.
  revert needed fresh. induction pg as [|l pg IH]; intros [|n needed] fresh; cbn; auto.
Qed.

Lemma uses_distribute pg needed fresh i :
  length needed = length pg →
  Pool.uses i (concat (distribute pg needed fresh)) =
    (Pool.uses i (concat pg) + Pool.uses i (take (sum_list needed) fresh))%Z.
Proof.
  revert needed fresh. induction pg as [|l pg IH]; intros [|n needed] fresh Hl; try done.
  injection Hl as Hl. cbn. rewrite !Pool.uses_app, IH by done.
  rewrite take_add.
  rewrite Pool.uses_app. lia.
Qed.

Lemma distribute_lookup pg needed fresh k l n :
  pg !! k = Some l → needed !! k = Some n → sum_list needed ≤ length fresh →
  ∃ new, distribute pg needed fresh !! k = Some (l ++ new) ∧ length new = n ∧ new ⊆ fresh.
Proof.
  revert needed fresh k. induction pg as [|l0 pg IH]; intros [|n0 needed] fresh k; cbn; try done.
  destruct k as [|k]; cbn.
  - intros [= ->] [= ->] Hs. exists (take n fresh). rewrite length_take.
    split_and!; [done|lia|]. intros x. apply elem_take.
  - intros Hl Hn Hs. destruct (IH needed (drop n0 fresh) k) as (new & ? & ? & Hsub); [done..| |].
    { rewrite length_drop. lia. }
    exists new. split_and!; [done..|]. intros x Hx%Hsub. by eapply elem_drop.
Qed.

Lemma valid_distribute p pg needed fresh :
  valid_ids p (concat pg) → valid_ids p fresh → valid_ids p (concat (distribute pg needed fresh)).
Proof.
  unfold valid_ids. revert needed fresh. induction pg as [|l pg IH]; intros [|n needed] fresh;
    cbn; try done. rewrite !Forall_app. intros [? ?] Hf. split_and!; [done| |].
  - by apply Forall_take.
  - apply IH; [done|]. by apply Forall_drop.
Qed.
End Ledger.

(** ** The operations keep the ledger *)

Definition same_config (c c' : KVCacheCoordinator) : Prop :=
  groups c' = groups c ∧ hash_block_size c' = hash_block_size c ∧
  Pool.same_geometry (pool c) (pool c').

#[global] Instance same_config_preorder : PreOrder same_config.
Proof.
  split; [done|]. intros c1 c2 c3 (? & ? & ?) (? & ? & ?).
  split_and!; [congruence|congruence|by etrans].
Qed.

Section Operations.
Implicit Types (c : KVCacheCoordinator) (r : string).

Lemma valid_ids_geometry p p' l : Pool.same_geometry p p' → valid_ids p l → valid_ids p' l.
Proof. unfold valid_ids. intros (-> & _). done. Qed.

(** Rebuild the invariant after a change of the pool and of one request. *)
Lemma wf_change c p' m' r :
  wf c → Pool.wf p' → Pool.hashless_first p' → Pool.same_geometry (pool c) p' →
  (∀ r', r' ≠ r → m' !! r' = requests c !! r') →
  (∀ state, m' !! r = Some state →
    length (per_group state) = length (groups c) ∧ length (num_cached state) = length (groups c)) →
  valid_ids p' (holds_of m' r) →
  (∀ i, i ≠ Pool.NULL_BLOCK_ID → Pool.refc p' i =
    (Pool.refc (pool c) i - Pool.uses i (holds_of (requests c) r) + Pool.uses i (holds_of m' r))%Z) →
  wf (Coordinator p' (groups c) (hash_block_size c) m').
Proof.
  intros Hwf Hp Ho Hg Hne Hsh Hv Hr.
  split; cbn; try done; try apply Hwf.
  - intros r' state. destruct (decide (r' = r)) as [->|Hn]; [apply Hsh|].
    rewrite Hne by done. apply (wf_shape _ Hwf).
  - intros r'. destruct (decide (r' = r)) as [->|Hn]; [done|].
    unfold holds_of. rewrite Hne by done. eapply valid_ids_geometry; [done|].
    apply (wf_valid _ Hwf r').
  - intros i Hi. rewrite Hr, (wf_ledger _ Hwf) by done.
    assert (held m' i = held (delete r (requests c)) i + Pool.uses i (holds_of m' r))%Z as ->.
    { rewrite <- (Z.sub_add (Pool.uses i (holds_of m' r)) (held m' i)).
      rewrite <- held_delete. do 2 f_equal. apply map_eq. intros r'.
      destruct (decide (r' = r)) as [->|Hn]; [by rewrite !lookup_delete_eq|].
      rewrite !lookup_delete_ne by done. by apply Hne. }
    rewrite held_delete. lia.
Qed.

Lemma wf_insert c p' r state :
  wf c → Pool.wf p' → Pool.hashless_first p' → Pool.same_geometry (pool c) p' →
  length (per_group state) = length (groups c) → length (num_cached state) = length (groups c) →
  valid_ids p' (holds state) →
  (∀ i, i ≠ Pool.NULL_BLOCK_ID → Pool.refc p' i =
    (Pool.refc (pool c) i - Pool.uses i (holds_of (requests c) r) + Pool.uses i (holds state))%Z) →
  wf (set_pool p' (set_requests (<[r := state]> (requests c)) c)).
Proof.
  intros Hwf Hp Ho Hg H1 H2 Hv Hr. apply (wf_change c p' (<[r := state]> (requests c)) r);
    rewrite ?holds_of_insert; try done.
  - intros r' Hr'. cbn. by rewrite lookup_insert_ne.
  - intros state'. cbn. rewrite lookup_insert_eq. by intros [= <-].
Qed.

Lemma uses_holds_refc c r i : wf c → (Pool.uses i (holds_of (requests c) r) ≤ Pool.refc (pool c) i)%Z.
Proof.
  intros Hwf. destruct (decide (i = Pool.NULL_BLOCK_ID)) as [->|Hi].
  - rewrite Pool.uses_null. apply (Pool.wf_ref _ (wf_pool _ Hwf)).
  - rewrite (wf_ledger _ Hwf) by done. apply uses_holds_le.
Qed.

Lemma free_spec c r :
  wf c →
  ∃ c', free r c = Ok c' ∧ wf c' ∧ same_config c c' ∧ requests c' = delete r (requests c) ∧
    Pool.keeps (pool c) (pool c') ∧
    (∀ i, Pool.refc (pool c') i =
      Pool.refc (pool c) i - Pool.uses i (holds_of (requests c) r))%Z ∧
    Pool.freed (pool c) (Pool.free_list (pool c)) (Pool.free_list (pool c')).
Proof.
  intros Hwf. unfold free. destruct (requests c !! r) as [state|] eqn:E; cycle 1.
  { exists c. split_and!; try done; [by rewrite delete_id| |constructor].
    intros i. unfold holds_of. rewrite E. cbn. lia. }
  assert (Hh : holds_of (requests c) r = concat (per_group state)) by (unfold holds_of; by rewrite E).
  destruct (free_groups_spec (per_group state) (pool c)) as (p & Ef & Hp & Hk & Hr & Hf);
    [apply Hwf| | |].
  { rewrite <- Hh. apply (wf_valid _ Hwf). }
  { intros i. rewrite <- Hh. by apply uses_holds_refc. }
  cbn. rewrite Ef. cbn. eexists; split; [done|]. split; [|split_and!; try done].
  - apply (wf_change c p (delete r (requests c)) r); try done.
    + eapply Pool.hashless_first_freed; [done|apply Hwf|done].
    + apply Hk.
    + intros r' Hr'. by rewrite lookup_delete_ne.
    + intros state'. by rewrite lookup_delete_eq.
    + rewrite holds_of_delete. by constructor.
    + intros i Hi. rewrite holds_of_delete, Hr, Hh. cbn. lia.
  - split_and!; [done|done|apply Hk].
  - intros i. cbn. by rewrite Hr, Hh.
Qed.

Lemma tracked_shape c r :
  wf c → length (per_group (tracked r c)) = length (groups c) ∧
    length (num_cached (tracked r c)) = length (groups c) ∧
    holds (tracked r c) = holds_of (requests c) r ∧
    (∀ state, requests c !! r = Some state → tracked r c = state).
Proof.
  intros Hwf. unfold tracked, holds_of. pose proof (proj1 (wf_groups _ Hwf)) as Hne.
  destruct (requests c !! r) as [state|] eqn:E; cbn.
  - destruct (wf_shape _ Hwf r state E) as [H1 H2]. rewrite decide_False; [naive_solver|].
    intros E0. rewrite E0 in H1. cbn in H1. by destruct (groups c).
  - rewrite decide_True by done. cbn. rewrite !length_replicate. split_and!; try done.
    unfold holds. cbn. clear. induction (length (groups c)); done.
Qed.

Lemma tracked_block_ids c r : wf c → per_group (tracked r c) = block_ids r c.
Proof.
  intros Hwf. unfold tracked, block_ids. destruct (requests c !! r) as [state|] eqn:E; cbn.
  - rewrite decide_False; [done|]. intros E0.
    destruct (wf_shape _ Hwf r state E) as [H1 _]. rewrite E0 in H1.
    pose proof (proj1 (wf_groups _ Hwf)). by destruct (groups c).
  - rewrite decide_True by done. cbn. clear. by induction (groups c); cbn; f_equal.
Qed.

Lemma concat_block_ids c r : concat (block_ids r c) = holds_of (requests c) r.
Proof.
  unfold block_ids, holds_of. destruct (requests c !! r) as [state|]; [done|].
  by induction (groups c).
Qed.

Lemma block_ids_empty c r :
  wf c → holds_of (requests c) r = [] → block_ids r c = (λ _, []) <$> groups c.
Proof.
  intros Hwf. unfold holds_of, block_ids.
  destruct (requests c !! r) as [state|] eqn:E; [|done].
  destruct (wf_shape _ Hwf r state E) as [H1 _]. unfold holds. revert H1.
  generalize (per_group state) as pg. clear.
  induction (groups c) as [|g gs IH]; intros [|l pg] Hl Hc; try done. cbn in *.
  apply app_nil in Hc as [-> Hc]. f_equal. apply IH; [lia|done].
Qed.

(** What a request may adopt: nothing, or valid blocks for every group, and then
    only while it holds none. *)
Definition adoptable c r (adopted : list (list nat)) : Prop :=
  adopted = [] ∨
  length adopted = length (groups c) ∧ holds_of (requests c) r = [] ∧
  valid_ids (pool c) (concat adopted).

Lemma adoptable_config c c' r adopted :
  same_config c c' → holds_of (requests c') r = [] → adoptable c r adopted →
  adoptable c' r adopted.
Proof.
  intros (Hg & _ & Hgeo) He [->|(Hl & _ & Hv)]; [by left|right].
  rewrite Hg. split_and!; [done|done|by eapply valid_ids_geometry].
Qed.

(** The blocks a request starts from when it is extended. *)
Definition base_blocks c r (adopted : list (list nat)) : list (list nat) :=
  if decide (adopted = []) then per_group (tracked r c) else adopted.

(** The first half of [allocate]: register the request and adopt the hit. *)
Lemma adopt_step c r adopted :
  wf c → adoptable c r adopted →
  ∃ nc p, (if decide (adopted = []) then Ok (tracked r c, pool c)
      else
        _ ← rguard (bool_decide (length adopted = length (groups c))) ValueError;
        '(pg, nc, p) ← adopt adopted (per_group (tracked r c)) (num_cached (tracked r c)) (pool c);
        Ok (ReqBlocks pg nc, p)) = Ok (ReqBlocks (base_blocks c r adopted) nc, p) ∧
    let c1 := set_pool p
      (set_requests (<[r := ReqBlocks (base_blocks c r adopted) nc]> (requests c)) c) in
    wf c1 ∧ length (base_blocks c r adopted) = length (groups c) ∧
    Pool.keeps (pool c) p ∧
    (∀ i, Pool.refc p i = Pool.refc (pool c) i + Pool.uses i (concat adopted))%Z.
Proof.
  intros Hwf Had. destruct (tracked_shape c r Hwf) as (Hpg & Hnc & Hh & _).
  unfold base_blocks. case_decide as E.
  - exists (num_cached (tracked r c)), (pool c).
    split; [by destruct (tracked r c)|]. cbn. split_and!; [|done|done|].
    + apply wf_insert; try done; try apply Hwf; unfold holds; cbn;
        change (concat (per_group (tracked r c))) with (holds (tracked r c)); rewrite Hh;
        [apply (wf_valid _ Hwf)|lia].
    + intros i. rewrite E. cbn. lia.
  - destruct Had as [?|(Hlen & Hempty & Hv)]; [done|].
    unfold rguard. rewrite bool_decide_true by done. cbn.
    destruct (Pool.touch_spec (concat adopted) (pool c)) as (p & Et & Hp & Hk & Hr & Hf);
      [apply Hwf|done|].
    rewrite (adopt_spec _ _ _ _ p); [|congruence|congruence|by rewrite <- Hempty, <- Hh|done].
    exists (length <$> adopted), p. cbn. split; [done|]. split_and!; [|done|done|done].
    apply wf_insert; try done.
    + eapply Pool.hashless_first_filter; [done|apply Hwf|done].
    + apply Hk.
    + cbn. by rewrite length_fmap.
    + eapply valid_ids_geometry; [apply Hk|done].
    + intros i _. rewrite Hr, Hempty. unfold holds; cbn. lia.
Qed.

(** A granted allocation: every group keeps its base blocks and is extended by
    exactly the blocks it lacks, all of them free until now. *)
Definition granted c r (adopted : list (list nat)) (num_tokens : nat) (c' : KVCacheCoordinator) :
    Prop :=
  ∃ state, requests c' !! r = Some state ∧
    ∀ k g, groups c !! k = Some g → ∃ old new,
      base_blocks c r adopted !! k = Some old ∧ per_group state !! k = Some (old ++ new) ∧
      length new = Spec.num_blocks_for (Spec.spec g) num_tokens - length old ∧
      ∀ i, i ∈ new → i ≠ Pool.NULL_BLOCK_ID ∧ Pool.refc (pool c) i = 0%Z ∧ i ∉ concat adopted.

(** A refused one: references and hashes are what they were. *)
Record refused c r (c' : KVCacheCoordinator) : Prop := {
  refused_ref : ∀ i, Pool.refc (pool c') i = Pool.refc (pool c) i;
  refused_keeps : Pool.keeps (pool c) (pool c');
  refused_blocks : block_ids r c' = block_ids r c;
}.

Lemma needed_lookup gs pg n k g l :
  gs !! k = Some g → pg !! k = Some l →
  needed_blocks gs pg n !! k = Some (Spec.num_blocks_for (Spec.spec g) n - length l).
Proof. intros Hg Hl. unfold needed_blocks. by rewrite lookup_zip_with, Hg, Hl. Qed.

Lemma sum_list_zero (l : list nat) k n : sum_list l = 0 → l !! k = Some n → n = 0.
Proof.
  revert k. induction l as [|m l IH]; intros k Hs; [done|]. cbn in Hs.
  destruct k as [|k]; cbn; [intros [= ->]; lia|]. apply IH. lia.
Qed.

(** No block gains or changes a hash. *)
Definition shrunk (p p' : Pool.BlockPool) : Prop :=
  ∀ i h, Pool.bhash p' i = Some h → Pool.bhash p i = Some h.

(** The second half of [allocate] when the pool has room: the fresh blocks are
    dealt out to the groups. *)
Lemma extend_step c r base nc num_tokens :
  wf c → requests c !! r = Some (ReqBlocks base nc) →
  let needed := needed_blocks (groups c) base num_tokens in
  sum_list needed ≤ length (Pool.free_list (pool c)) →
  ∃ p, Pool.get_new_blocks (Z.of_nat (sum_list needed)) (pool c) =
      Ok (Some (take (sum_list needed) (Pool.free_list (pool c))), p) ∧
    let state := ReqBlocks
      (distribute base needed (take (sum_list needed) (Pool.free_list (pool c)))) nc in
    let c' := set_pool p (set_requests (<[r := state]> (requests c)) c) in
    wf c' ∧ same_config c c' ∧ shrunk (pool c) p.
Proof.
  intros Hwf Hst needed Hroom.
  assert (Hh : holds_of (requests c) r = concat base) by (unfold holds_of; by rewrite Hst).
  destruct (wf_shape _ Hwf r _ Hst) as [Hbl Hnc]; cbn in Hbl, Hnc.
  assert (Hneed : length needed = length base).
  { unfold needed, needed_blocks. rewrite length_zip_with. lia. }
  pose proof (Pool.get_new_blocks_spec (sum_list needed) (pool c) (wf_pool _ Hwf)) as Hnew.
  rewrite decide_False in Hnew by lia. destruct Hnew as (p & Enew & Hal).
  exists p. split; [done|]. cbv zeta. split_and!; [|split_and!; [done|done|apply Hal]|]; cycle 1.
  { intros i h Hi. rewrite (Pool.alloc_hash _ _ _ Hal) in Hi. by case_decide. }
  apply wf_insert; [done|apply Hal| |apply Hal| |done| |].
  - eapply Pool.hashless_first_alloc; [apply Hwf|done|apply Hwf].
  - cbn. by rewrite distribute_length.
  - apply valid_distribute.
    + eapply valid_ids_geometry; [apply Hal|]. rewrite <- Hh. apply (wf_valid _ Hwf).
    + apply Forall_forall. intros i Hi%elem_take.
      rewrite (proj1 (Pool.alloc_geometry _ _ _ Hal)).
      by apply (Pool.wf_free _ (wf_pool _ Hwf)).
  - intros i Hi. rewrite (Pool.alloc_ref _ _ _ Hal), Hh. unfold holds; cbn.
    rewrite uses_distribute by done. rewrite take_take, Nat.min_id. lia.
Qed.

(** What the granted request holds. *)
Lemma granted_intro c r adopted num_tokens nc p c' fresh :
  let base := base_blocks c r adopted in
  let needed := needed_blocks (groups c) base num_tokens in
  length base = length (groups c) → wf c → Pool.wf p →
  (∀ i, Pool.refc p i = Pool.refc (pool c) i + Pool.uses i (concat adopted))%Z →
  sum_list needed ≤ length fresh → fresh ⊆ Pool.free_list p →
  requests c' !! r = Some (ReqBlocks (distribute base needed fresh) nc) →
  granted c r adopted num_tokens c'.
Proof.
  intros base needed Hbl Hwf Hp Hr Hfl Hfree Hreq. eexists; split; [exact Hreq|]. cbn.
  intros k g Hg.
  assert (∃ old, base !! k = Some old) as [old Hold].
  { apply lookup_lt_is_Some. rewrite Hbl. by eapply lookup_lt_Some. }
  pose proof (needed_lookup _ _ num_tokens _ _ _ Hg Hold) as Hn.
  destruct (distribute_lookup base needed fresh k _ _ Hold Hn Hfl) as (new & Hd & Hlen & Hsub).
  exists old, new. split_and!; try done. intros i Hi%Hsub%Hfree.
  assert (i ≠ Pool.NULL_BLOCK_ID) by (intros ->; by eapply Pool.null_not_free).
  apply (Pool.wf_free _ Hp) in Hi as [_ H0]. rewrite Hr in H0.
  pose proof (Pool.wf_ref _ (wf_pool _ Hwf) i). pose proof (Pool.uses_nonneg i (concat adopted)).
  split_and!; [done|lia|]. intros Hin. apply (Pool.uses_pos i) in Hin; [lia|done].
Qed.

Lemma distribute_nil pg needed : distribute pg needed [] = pg.
Proof.
  revert needed. induction pg as [|l pg IH]; intros [|n needed]; cbn; [done..|].
  by rewrite take_nil, drop_nil, app_nil_r, IH.
Qed.

(** A refused allocation gives back what it adopted. *)
Lemma refuse_step c r adopted nc p :
  wf c → adoptable c r adopted → Pool.keeps (pool c) p →
  (∀ i, Pool.refc p i = Pool.refc (pool c) i + Pool.uses i (concat adopted))%Z →
  let c1 := set_pool p
    (set_requests (<[r := ReqBlocks (base_blocks c r adopted) nc]> (requests c)) c) in
  wf c1 →
  ∃ c', (if decide (adopted = []) then Ok (false, c1)
      else c ← free r c1; Ok (false, c)) = Ok (false, c') ∧
    wf c' ∧ same_config c1 c' ∧ refused c r c' ∧
    (∀ r', r' ≠ r → requests c' !! r' = requests c !! r').
Proof.
  intros Hwf Had Hk Hr c1 Hwf1. unfold base_blocks in c1.
  assert (Hoth : ∀ r', r' ≠ r → requests c1 !! r' = requests c !! r').
  { intros r' Hr'. cbn. by rewrite lookup_insert_ne. }
  destruct (decide (adopted = [])) as [E|E].
  - exists c1. split_and!; try done. split; [|done|].
    + intros i. cbn. rewrite Hr, E. cbn. lia.
    + unfold block_ids at 1. cbn. rewrite lookup_insert_eq. by apply tracked_block_ids.
  - destruct (free_spec c1 r Hwf1) as (c2 & Ef & Hwf2 & Hc2 & Hreq & Hk2 & Hr2 & _).
    rewrite Ef. cbn. exists c2. split_and!; try done.
    + destruct Had as [?|(_ & Hempty & _)]; [done|]. split; [|by etrans|].
      * intros i. rewrite Hr2. cbn. rewrite holds_of_insert, Hr. unfold holds; cbn. lia.
      * unfold block_ids at 1. rewrite Hreq, lookup_delete_eq. destruct Hc2 as (-> & _).
        rewrite (block_ids_empty c r Hwf Hempty). done.
    + intros r' Hr'. rewrite Hreq, lookup_delete_ne by done. by apply Hoth.
Qed.

Lemma allocate_spec c r adopted num_tokens :
  wf c → adoptable c r adopted →
  ∃ b c', allocate r num_tokens adopted c = Ok (b, c') ∧ wf c' ∧ same_config c c' ∧
    shrunk (pool c) (pool c') ∧ (∀ r', r' ≠ r → requests c' !! r' = requests c !! r') ∧
    if (b : bool) then granted c r adopted num_tokens c' else refused c r c'.
Proof.
  intros Hwf Had.
  destruct (adopt_step c r adopted Hwf Had) as (nc & p & Ea & Hwf1 & Hbl & Hk & Hr).
  unfold allocate. rewrite Ea.
  change (Ok ?x ≫= ?f) with (f x). cbv beta iota zeta.
  set (c1 := set_pool p _) in *.
  change (groups c1) with (groups c). change (pool c1) with p.
  change (per_group (ReqBlocks ?x _)) with x. change (num_cached (ReqBlocks _ ?x)) with x.
  set (base := base_blocks c r adopted) in *.
  set (needed := needed_blocks (groups c) base num_tokens).
  assert (Hreq : requests c1 !! r = Some (ReqBlocks base nc)) by apply lookup_insert_eq.
  assert (Hconf : same_config c c1) by (split_and!; [done|done|apply Hk]).
  assert (Hoth : ∀ st r', r' ≠ r → <[r := st]> (requests c1) !! r' = requests c !! r').
  { intros st r' Hr'. cbn. by rewrite !lookup_insert_ne. }
  assert (Hb : ∀ p', shrunk p p' → shrunk (pool c) p').
  { intros p' Hs i h Hi%Hs. by rewrite <- (Pool.keeps_bhash _ _ Hk). }
  destruct (decide (sum_list needed = 0)) as [Htot|Htot].
  { exists true, c1. split_and!; try done.
    - apply Hb; by intros i h.
    - intros r' Hr'. cbn. by rewrite lookup_insert_ne.
    - apply (granted_intro c r adopted num_tokens nc p _ []); try done.
      + apply (wf_pool _ Hwf1).
      + fold base needed. cbn. lia.
      + apply list_subseteq_nil.
      + by rewrite distribute_nil. }
  destruct (decide (length (Pool.free_list p) < sum_list needed)) as [Hshort|Hroom].
  - pose proof (Pool.get_new_blocks_spec (sum_list needed) p (wf_pool _ Hwf1)) as Hnew.
    rewrite decide_True in Hnew by lia. rewrite Hnew.
    destruct (refuse_step c r adopted nc p Hwf Had Hk Hr Hwf1) as (c' & E & ? & ? & Href & ?).
    exists false, c'. split; [exact E|]. split_and!; try done; [by etrans|].
    intros i h. by rewrite (Pool.keeps_bhash _ _ (refused_keeps _ _ _ Href)).
  - apply Nat.nlt_ge in Hroom.
    destruct (extend_step c1 r base nc num_tokens Hwf1 Hreq Hroom) as (p2 & Enew & Hwf2 & Hc2 & Hb2).
    change (needed_blocks (groups c1)) with (needed_blocks (groups c)) in Enew.
    change (pool c1) with p in Enew. fold needed in Enew. rewrite Enew. eexists true, _. split; [reflexivity|].
    split_and!; [exact Hwf2|by etrans|by apply Hb|intros r' Hr'; by apply Hoth|].
    eapply (granted_intro c r adopted num_tokens nc p _ (take (sum_list needed) (Pool.free_list p)));
      try done; [apply Hwf1| |intros i; apply elem_take|cbn; apply lookup_insert_eq].
    fold base needed. rewrite length_take. lia.
Qed.
End Operations.

(** ** Indexing the computed blocks *)

(** Indexing only adds hashes. *)
Record grown (p p' : Pool.BlockPool) : Prop := {
  grown_geometry : Pool.same_geometry p p';
  grown_ref : ∀ i, Pool.refc p' i = Pool.refc p i;
  grown_queue : Pool.free_block_queue p' = Pool.free_block_queue p;
  grown_mono : ∀ i h, Pool.bhash p i = Some h → Pool.bhash p' i = Some h;
}.

#[global] Instance grown_preorder : PreOrder grown.
Proof.
  split; [split; done|]. intros p1 p2 p3 [G1 R1 Q1 M1] [G2 R2 Q2 M2]. split.
  - by etrans.
  - intros i. by rewrite R2.
  - congruence.
  - auto.
Qed.

(** Entry [i] of a group's block list is computed in full by [n] tokens and [h]
    is the prompt's chain hash at its end. *)
Definition computed_block (g : Spec.KVCacheGroup) (hbs : nat) (hashes : list Z) (n k : nat) (h : Z) :
    Prop :=
  let r := Spec.block_size (Spec.spec g) / hbs in
  (k + 1) * Spec.block_size (Spec.spec g) ≤ n ∧ hashes !! (r - 1 + k * r) = Some h.

Section Indexing.
Implicit Types (p : Pool.BlockPool) (g : Spec.KVCacheGroup) (hashes : list Z).

(** References on every block of a list. *)
Definition referenced p (l : list nat) : Prop :=
  valid_ids p l ∧ ∀ i, i ∈ l → i ≠ Pool.NULL_BLOCK_ID → (0 < Pool.refc p i)%Z.

Lemma referenced_grown p p' l : grown p p' → referenced p l → referenced p' l.
Proof.
  intros Hg [Hv Hr]. split; [eapply valid_ids_geometry; [apply Hg|done]|].
  intros i. rewrite (grown_ref _ _ Hg). apply Hr.
Qed.

Lemma group_hashes_total g hashes hbs :
  Spec.block_size (Spec.spec g) mod hbs = 0 →
  ∃ hs, Spec.group_block_hashes (Spec.spec g) hashes hbs = Ok hs.
Proof.
  intros Hm. unfold Spec.group_block_hashes. rewrite decide_False by lia.
  case_decide; by eexists.
Qed.

(** The hashes of the slice of a group's chain. *)
Lemma computed_slice g hashes hbs hs start n k h :
  group_ok g → Spec.group_block_hashes (Spec.spec g) hashes hbs = Ok hs →
  let full := Nat.min (n / Spec.block_size (Spec.spec g)) (length hs) in
  take (full - start) (drop start hs) !! k = Some h →
  computed_block g hbs hashes n (start + k) h.
Proof.
  intros Hg Hhs full [Hk Hlt]%lookup_slice.
  destruct (Spec.group_block_hashes_Ok _ _ _ _ Hg Hhs) as (r & Hr1 & Hrb & Hlk).
  unfold computed_block. set (bs := Spec.block_size (Spec.spec g)) in *.
  assert (bs / hbs = r) as ->.
  { rewrite Hrb. apply Nat.div_mul. intros ->. unfold group_ok in Hg. fold bs in Hg. lia. }
  split; [|by rewrite <- Hlk]. pose proof (Nat.Div0.mul_div_le n bs). unfold full in Hlt. nia.
Qed.

(** A block without a hash has one now, if it can have one. *)
Definition gains p p' (b : nat) : Prop :=
  Pool.bhash p b = None ∧
  (Pool.enable_caching p = true → b ≠ Pool.NULL_BLOCK_ID → Pool.bhash p' b ≠ None).

(** What one group's turn does. *)
Record caches (index : nat) g (held : list nat) (start : nat) hashes (hbs n : nat) p
    (gained : list (nat * nat * Z)) (full : nat) p' : Prop := {
  caches_wf : Pool.wf p';
  caches_order : Pool.hashless_first p';
  caches_grown : grown p p';
  caches_cursor : start ≤ full;
  (** only computed blocks gain a hash: the one of their position *)
  caches_origin : ∀ i h, Pool.bhash p' i = Some h → Pool.bhash p i = Some h ∨
    ∃ k, held !! k = Some i ∧ computed_block g hbs hashes n k h;
  (** the blocks the cursor passes are indexed *)
  caches_done : Pool.enable_caching p = true → ∀ k i, start ≤ k < full →
    held !! k = Some i → i ≠ Pool.NULL_BLOCK_ID → Pool.bhash p' i ≠ None;
  (** what is reported had no hash and has one now *)
  caches_gained : ∀ j b h, (j, b, h) ∈ gained → j = index ∧ gains p p' b ∧
    ∃ k, held !! k = Some b ∧ computed_block g hbs hashes n k h;
}.

Lemma caches_nothing (index : nat) g held start hashes hbs n p :
  Pool.wf p → Pool.hashless_first p → caches index g held start hashes hbs n p [] start p.
Proof. intros. split; try done; [by left|lia|]. by intros j b h ?%not_elem_of_nil. Qed.

Lemma cache_group_spec index g held start hashes hbs n p :
  Pool.wf p → Pool.hashless_first p → group_ok g →
  Spec.block_size (Spec.spec g) mod hbs = 0 → referenced p held →
  ∃ gained full p', cache_group index g held start hashes hbs n p = Ok (gained, full, p') ∧
    caches index g held start hashes hbs n p gained full p'.
Proof.
  intros Hwf Ho Hg Hm [Hv Hr]. destruct (group_hashes_total g hashes hbs Hm) as [hs Hhs].
  unfold cache_group. rewrite Hhs. cbn -[Pool.cache_full_blocks].
  pose proof (λ k h, computed_slice g hashes hbs hs start n k h Hg Hhs) as Hcomp. cbn zeta in Hcomp.
  set (full := Nat.min _ (length hs)) in *.
  case_decide as Hd; [eexists _, _, _; split; [done|by apply caches_nothing]|].
  case_decide as Hd2; [eexists _, _, _; split; [done|by apply caches_nothing]|].
  rewrite length_take, length_drop in Hd2.
  set (ids := take _ (drop start held)) in *. set (hh := take _ (drop start hs)) in *.
  assert (Hids : ∀ k i, ids !! k = Some i → held !! (start + k) = Some i).
  { intros k i [Hk _]%lookup_slice. done. }
  destruct (Pool.cache_full_blocks_spec ids hh p) as (p' & E & Hwf' & Hx & Hn); [done| | |].
  { apply Forall_take, Forall_drop, Hv. }
  { unfold ids, hh. rewrite !length_take, !length_drop. lia. }
  rewrite E. cbn -[Pool.cache_full_blocks]. eexists _, full, p'. split; [done|]. split.
  - done.
  - apply (Pool.hashless_first_indexes ids hh p); [done|done| |done].
    apply Forall_forall. intros i [k Hk%Hids]%list_elem_of_lookup.
    apply Hr. by eapply list_elem_of_lookup_2.
  - split; apply Hx.
  - lia.
  - intros i h Hi. apply (Pool.indexes_origin _ _ _ _ Hx) in Hi as [?|(k & Hk & Hh & _)]; [by left|].
    right. exists (start + k). auto.
  - intros He k i Hk Hi. apply (Hn He). apply list_elem_of_lookup. exists (k - start).
    apply lookup_slice. replace (start + (k - start)) with k by lia. split; [done|lia].
  - intros j b h ([b' h'] & [= -> -> ->] & [Hb Hin]%list_elem_of_filter)%list_elem_of_fmap.
    apply list_elem_of_lookup in Hin as [k [Hk1 Hk2]%lookup_zip_Some].
    split_and!; [done|split; [done|]|exists (start + k); auto].
    intros He Hnull. apply (Hn He); [|done]. by eapply list_elem_of_lookup_2.
Qed.

(** A hash a request's blocks may carry after indexing. *)
Definition own_hash (gs : list Spec.KVCacheGroup) (pg : list (list nat)) (hbs : nat) hashes
    (n i : nat) (h : Z) : Prop :=
  ∃ k g held j, gs !! k = Some g ∧ pg !! k = Some held ∧ held !! j = Some i ∧
    computed_block g hbs hashes n j h.

Lemma own_hash_cons g gs held pg hbs hashes n i h :
  own_hash gs pg hbs hashes n i h → own_hash (g :: gs) (held :: pg) hbs hashes n i h.
Proof. intros (k & g' & held' & j & ?). by exists (S k), g', held', j. Qed.

Lemma gains_grown_r p p1 p2 b : gains p p1 b → grown p1 p2 → gains p p2 b.
Proof.
  intros [H1 H2] Hg. split; [done|]. intros He Hb. specialize (H2 He Hb).
  destruct (Pool.bhash p1 b) as [h|] eqn:E; [|done]. by rewrite (grown_mono _ _ Hg _ _ E).
Qed.
Lemma gains_grown_l p p1 p2 b : grown p p1 → gains p1 p2 b → gains p p2 b.
Proof.
  intros Hg [H1 H2]. split.
  - destruct (Pool.bhash p b) as [h|] eqn:E; [|done].
    apply (grown_mono _ _ Hg) in E. congruence.
  - destruct (grown_geometry _ _ Hg) as (_ & _ & He). rewrite <- He. done.
Qed.

Lemma cache_groups_spec hashes hbs n gs : ∀ index pg nc p,
  Pool.wf p → Pool.hashless_first p → Forall group_ok gs →
  Forall (λ g, Spec.block_size (Spec.spec g) mod hbs = 0) gs →
  length pg = length gs → length nc = length gs → Forall (referenced p) pg →
  ∃ fresh nc' p', cache_groups index gs pg nc hashes hbs n p = Ok (fresh, nc', p') ∧
    Pool.wf p' ∧ Pool.hashless_first p' ∧ grown p p' ∧ length nc' = length gs ∧
    (∀ i h, Pool.bhash p' i = Some h →
      Pool.bhash p i = Some h ∨ own_hash gs pg hbs hashes n i h) ∧
    (∀ j b h, (j, b, h) ∈ fresh → gains p p' b).
Proof.
  induction gs as [|g gs IH]; intros index [|held pg] [|start nc] p Hwf Ho Hg Hm Hl1 Hl2 Hr; try done.
  { exists [], [], p. split_and!; try done; [by left|by intros j b h ?%not_elem_of_nil]. }
  apply Forall_cons in Hg as [Hg Hgs], Hm as [Hm Hms], Hr as [Hr Hrs].
  injection Hl1 as Hl1. injection Hl2 as Hl2.
  destruct (cache_group_spec index g held start hashes hbs n p) as (gained & full & p1 & E1 & H1);
    [done..|].
  destruct (IH (S index) pg nc p1) as (fresh & nc' & p2 & E2 & Hwf2 & Ho2 & Hg2 & Hl & Hx2 & Hf2);
    [apply H1|apply H1|done..| |].
  { eapply Forall_impl; [done|]. intros l. by eapply referenced_grown, H1. }
  cbn [cache_groups]. rewrite E1. cbn [mbind result_bind]. rewrite E2. cbn.
  pose proof (caches_grown _ _ _ _ _ _ _ _ _ _ _ H1) as Hg1.
  eexists _, _, p2. split; [done|]. split_and!; try done; [by etrans|cbn; lia| |].
  - intros i h [Hi|Hi]%Hx2; [|right; by apply own_hash_cons].
    apply (caches_origin _ _ _ _ _ _ _ _ _ _ _ H1) in Hi as [?|(k & ? & ?)]; [by left|].
    right. by exists 0, g, held, k.
  - intros j b h [Hin|Hin]%elem_of_app.
    + apply (caches_gained _ _ _ _ _ _ _ _ _ _ _ H1) in Hin as (_ & Hgain & _).
      by eapply gains_grown_r.
    + by eapply gains_grown_l, Hf2.
Qed.

End Indexing.

Section Requests.
Implicit Types (c : KVCacheCoordinator) (r : string).

Lemma request_referenced c r state :
  wf c → requests c !! r = Some state → Forall (referenced (pool c)) (per_group state).
Proof.
  intros Hwf Hst. apply Forall_forall. intros l Hl.
  assert (Hh : holds_of (requests c) r = holds state) by (unfold holds_of; by rewrite Hst).
  assert (Hin : ∀ i, i ∈ l → i ∈ holds_of (requests c) r).
  { intros i Hi. rewrite Hh. apply list_elem_of_In, in_concat. exists l.
    split; by apply list_elem_of_In. }
  pose proof (wf_valid _ Hwf r) as Hv. unfold valid_ids in Hv. rewrite Forall_forall in Hv.
  split; [apply Forall_forall; auto|]. intros i Hi Hn.
  pose proof (uses_holds_refc c r i Hwf). pose proof (Pool.uses_pos i _ (Hin i Hi) Hn). lia.
Qed.

Lemma cache_blocks_spec c r hashes n :
  wf c →
  ∃ fresh c', cache_blocks r hashes n c = Ok (fresh, c') ∧ wf c' ∧ same_config c c' ∧
    grown (pool c) (pool c') ∧
    (∀ r', block_ids r' c' = block_ids r' c) ∧ dom (requests c') = dom (requests c) ∧
    (∀ i h, Pool.bhash (pool c') i = Some h → Pool.bhash (pool c) i = Some h ∨
      own_hash (groups c) (block_ids r c) (hash_block_size c) hashes n i h) ∧
    (∀ j b h, (j, b, h) ∈ fresh → gains (pool c) (pool c') b).
Proof.
  intros Hwf. unfold cache_blocks. destruct (requests c !! r) as [state|] eqn:Est; cycle 1.
  { exists [], c. split_and!; try done; [by left|by intros j b h ?%not_elem_of_nil]. }
  destruct (wf_shape _ Hwf r state Est) as [Hl1 Hl2].
  rewrite decide_False; cycle 1.
  { intros E0. rewrite E0 in Hl1. pose proof (proj1 (wf_groups _ Hwf)). by destruct (groups c). }
  destruct (cache_groups_spec hashes (hash_block_size c) n (groups c) 0 (per_group state)
    (num_cached state) (pool c)) as (fresh & nc & p & E & Hp & Ho & Hg & Hl & Hx & Hf);
    try apply Hwf; [done|done|by eapply request_referenced|].
  assert (Hids : block_ids r c = per_group state) by (unfold block_ids; by rewrite Est).
  assert (Hh : holds_of (requests c) r = holds state) by (unfold holds_of; by rewrite Est).
  rewrite E. cbn. eexists _, _. split; [done|]. split_and!.
  - apply wf_insert; try done; try apply Hg.
    + eapply valid_ids_geometry; [apply Hg|]. change (valid_ids (pool c) (holds state)).
      rewrite <- Hh. apply (wf_valid _ Hwf).
    + intros i _. rewrite (grown_ref _ _ Hg), Hh. unfold holds. cbn. lia.
  - split_and!; [done|done|apply Hg].
  - done.
  - intros r'. unfold block_ids. cbn. destruct (decide (r' = r)) as [->|Hne].
    + by rewrite lookup_insert_eq, Est.
    + by rewrite lookup_insert_ne.
  - cbn. rewrite dom_insert_L. apply elem_of_dom_2 in Est. set_solver.
  - by rewrite Hids.
  - done.
Qed.
End Requests.

(** ** Releasing blocks below the window *)

(** Table positions below this one hold nothing a query may still read. *)
Definition live_from (g : Spec.KVCacheGroup) (n : nat) : nat :=
  if decide (Spec.window (Spec.spec g) = 0) then 0
  else (n - Spec.window (Spec.spec g)) / Spec.block_size (Spec.spec g).

(** A block list with its entries below [k] repointed at the null block. *)
Definition null_below (k : nat) (blocks : list nat) : list nat :=
  replicate (Nat.min k (length blocks)) Pool.NULL_BLOCK_ID ++ drop k blocks.

Section WindowRelease.
Implicit Types (p : Pool.BlockPool) (g : Spec.KVCacheGroup).

Lemma null_below_length k blocks : length (null_below k blocks) = length blocks.
Proof. unfold null_below. rewrite length_app, length_replicate, length_drop. lia. Qed.

Lemma null_below_lookup k blocks j i :
  blocks !! j = Some i →
  null_below k blocks !! j = Some (if decide (j < k) then Pool.NULL_BLOCK_ID else i).
Proof.
  intros Hj. pose proof (lookup_lt_Some _ _ _ Hj). unfold null_below. case_decide.
  - rewrite lookup_app_l by (rewrite length_replicate; lia). apply lookup_replicate_2. lia.
  - rewrite lookup_app_r; rewrite length_replicate; [|lia].
    rewrite lookup_drop, <- Hj. f_equal. lia.
Qed.

Lemma null_below_live k blocks :
  Forall (λ b, b = Pool.NULL_BLOCK_ID) (take k blocks) → null_below k blocks = blocks.
Proof.
  intros Hn. unfold null_below. rewrite <- (take_drop k blocks) at 3. f_equal.
  rewrite <- length_take. induction Hn as [|b l -> Hn IH]; [done|]. cbn. by rewrite IH.
Qed.

Lemma uses_filter_null i l : Pool.uses i (filter (λ b, b ≠ Pool.NULL_BLOCK_ID) l) = Pool.uses i l.
Proof.
  induction l as [|b l IH]; [done|]. rewrite filter_cons. case_decide as Hb; cbn; rewrite IH;
    [done|]. rewrite (decide_False (P := b = i ∧ _)) by tauto. done.
Qed.

Lemma uses_null_below i k blocks :
  Pool.uses i (null_below k blocks) = (Pool.uses i blocks - Pool.uses i (take k blocks))%Z.
Proof.
  unfold null_below. rewrite <- (take_drop k blocks) at 3. rewrite !Pool.uses_app.
  assert (∀ m, Pool.uses i (replicate m Pool.NULL_BLOCK_ID) = 0%Z) as ->; [|lia].
  intros m. induction m as [|m IH]; [done|]. cbn [replicate Pool.uses]. rewrite IH.
  rewrite decide_False by tauto. done.
Qed.

Lemma valid_null_below p n gs pg :
  Pool.wf p → valid_ids p (concat pg) →
  valid_ids p (concat (zip_with (λ g, null_below (live_from g n)) gs pg)).
Proof.
  intros Hwf. unfold valid_ids. revert pg.
  induction gs as [|g gs IH]; intros [|l pg] Hv; try by constructor.
  cbn in Hv |- *. apply Forall_app in Hv as [Hv1 Hv2]. apply Forall_app. split; [|by apply IH].
  unfold null_below. apply Forall_app. split; [|by apply Forall_drop].
  apply Forall_replicate. pose proof (Pool.wf_min _ Hwf). unfold Pool.NULL_BLOCK_ID. lia.
Qed.

(** The pool side of releasing: what the lists lost is what was given back. *)
Record releases (before after : list nat) p p' : Prop := {
  rel_wf : Pool.wf p';
  rel_order : Pool.hashless_first p';
  rel_keeps : Pool.keeps p p';
  rel_ref : ∀ i, Pool.refc p' i = (Pool.refc p i - Pool.uses i before + Pool.uses i after)%Z;
}.

Lemma releases_refl l p : Pool.wf p → Pool.hashless_first p → releases l l p p.
Proof. intros. split; [done..|]. intros i. lia. Qed.

Lemma skip_group_spec g blocks n p :
  Pool.wf p → Pool.hashless_first p → valid_ids p blocks →
  (∀ i, Pool.uses i blocks ≤ Pool.refc p i)%Z →
  ∃ p', skip_group g blocks n p = Ok (null_below (live_from g n) blocks, p') ∧
    releases blocks (null_below (live_from g n) blocks) p p'.
Proof.
  intros Hwf Ho Hv Hu. unfold skip_group, live_from.
  case_decide as Hw.
  { exists p. rewrite (null_below_live 0 blocks) by constructor.
    split; [done|by apply releases_refl]. }
  set (k := (n - _) / _). set (dead := filter _ _).
  assert (Htk : take (Nat.min k (length blocks)) blocks = take k blocks).
  { destruct (decide (k ≤ length blocks)); [by rewrite Nat.min_l by lia|].
    rewrite Nat.min_r, !take_ge by lia. done. }
  assert (Hd : ∀ i, Pool.uses i dead = Pool.uses i (take k blocks)).
  { intros i. unfold dead. by rewrite uses_filter_null, Htk. }
  case_decide as Hdead.
  { exists p. rewrite null_below_live; [split; [done|by apply releases_refl]|].
    rewrite <- Htk. apply Forall_forall. intros b Hb.
    destruct (decide (b = Pool.NULL_BLOCK_ID)) as [?|Hn]; [done|].
    assert (b ∈ dead) as Hin by (apply list_elem_of_filter; done).
    rewrite Hdead in Hin. by apply not_elem_of_nil in Hin. }
  pose proof (reverse_Permutation dead) as Hperm.
  destruct (Pool.free_blocks_spec (reverse dead) p Hwf) as (p' & E & Hp & Hk & Hr & Hf).
  { rewrite Hperm. apply Forall_forall. intros b [_ Hb%elem_take]%list_elem_of_filter.
    unfold valid_ids in Hv. rewrite Forall_forall in Hv. by apply Hv. }
  { intros i. rewrite (Pool.uses_perm i _ _ Hperm), Hd. specialize (Hu i).
    rewrite <- (take_drop k blocks), Pool.uses_app in Hu.
    pose proof (Pool.uses_nonneg i (drop k blocks)). lia. }
  cbn -[Pool.free_blocks]. rewrite E. exists p'. cbn. split.
  - unfold null_below. do 3 f_equal.
    destruct (decide (k ≤ length blocks)); [by rewrite Nat.min_l by lia|].
    rewrite Nat.min_r, !drop_ge by lia. done.
  - split; [done| |done|].
    + eapply Pool.hashless_first_freed; [exact Hk|done|done].
    + intros i. rewrite Hr, (Pool.uses_perm i _ _ Hperm), Hd, uses_null_below. lia.
Qed.

Lemma skip_groups_spec n gs : ∀ pg p,
  Pool.wf p → Pool.hashless_first p → length pg = length gs → valid_ids p (concat pg) →
  (∀ i, Pool.uses i (concat pg) ≤ Pool.refc p i)%Z →
  let pg' := zip_with (λ g, null_below (live_from g n)) gs pg in
  ∃ p', skip_groups gs pg n p = Ok (pg', p') ∧ releases (concat pg) (concat pg') p p'.
Proof.
  induction gs as [|g gs IH]; intros [|l pg] p Hwf Ho Hl Hv Hu; try done.
  { exists p. split; [done|by apply releases_refl]. }
  injection Hl as Hl. cbn in Hv. apply Forall_app in Hv as [Hvl Hvp].
  assert (Hu' : ∀ i, (Pool.uses i l + Pool.uses i (concat pg) ≤ Pool.refc p i)%Z).
  { intros i. specialize (Hu i). cbn in Hu. by rewrite Pool.uses_app in Hu. }
  destruct (skip_group_spec g l n p Hwf Ho Hvl) as (p1 & E1 & R1).
  { intros i. specialize (Hu' i). pose proof (Pool.uses_nonneg i (concat pg)). lia. }
  destruct (IH pg p1) as (p2 & E2 & R2); [apply R1|apply R1|done| | |].
  { eapply valid_ids_geometry; [apply R1|done]. }
  { intros i. rewrite (rel_ref _ _ _ _ R1). specialize (Hu' i).
    pose proof (Pool.uses_nonneg i (null_below (live_from g n) l)). lia. }
  cbn [skip_groups]. rewrite E1. cbn [mbind result_bind]. rewrite E2. exists p2. split; [done|].
  split; [apply R2|apply R2| |].
  - etrans; [apply R1|apply R2].
  - intros i. rewrite (rel_ref _ _ _ _ R2), (rel_ref _ _ _ _ R1). cbn.
    rewrite !Pool.uses_app. lia.
Qed.
End WindowRelease.

Section Release.
Implicit Types (c : KVCacheCoordinator) (r : string).

Lemma remove_skipped_blocks_spec c r n :
  wf c →
  ∃ c', remove_skipped_blocks r n c = Ok c' ∧ wf c' ∧ same_config c c' ∧
    Pool.keeps (pool c) (pool c') ∧ dom (requests c') = dom (requests c) ∧
    (∀ r', r' ≠ r → block_ids r' c' = block_ids r' c) ∧
    (r ∈ dom (requests c) →
      block_ids r c' = zip_with (λ g, null_below (live_from g n)) (groups c) (block_ids r c)).
Proof.
  intros Hwf. unfold remove_skipped_blocks.
  destruct (requests c !! r) as [state|] eqn:Est; cycle 1.
  { exists c. split_and!; try done. intros Hd. by apply not_elem_of_dom in Est. }
  destruct (wf_shape _ Hwf r state Est) as [Hl1 Hl2].
  assert (Hh : holds_of (requests c) r = holds state) by (unfold holds_of; by rewrite Est).
  assert (Hv : valid_ids (pool c) (holds state)) by (rewrite <- Hh; apply (wf_valid _ Hwf)).
  destruct (skip_groups_spec n (groups c) (per_group state) (pool c)) as (p & E & R);
    try apply Hwf; [done|done| |].
  { intros i. pose proof (uses_holds_refc c r i Hwf). by rewrite Hh in *. }
  set (pg' := zip_with _ _ _) in *.
  rewrite E. cbn. eexists. split; [done|]. split_and!.
  - apply wf_insert; try done; try apply R.
    + cbn. unfold pg'. rewrite length_zip_with. lia.
    + eapply valid_ids_geometry; [apply R|]. unfold holds, pg'; cbn.
      apply valid_null_below; [apply Hwf|done].
    + intros i _. rewrite (rel_ref _ _ _ _ R), Hh. unfold holds. cbn. lia.
  - split_and!; [done|done|apply R].
  - apply R.
  - cbn. rewrite dom_insert_L. apply elem_of_dom_2 in Est. set_solver.
  - intros r' Hr'. unfold block_ids. cbn. by rewrite lookup_insert_ne.
  - intros _. unfold block_ids. cbn. by rewrite lookup_insert_eq, Est.
Qed.
End Release.

(** ** Lookup *)

Section Lookup.
Implicit Types (c : KVCacheCoordinator).

Lemma minimum_le x l : Forall (λ y, minimum x l ≤ y) (x :: l).
Proof.
  revert x. induction l as [|y l IH]; intros x; cbn; [by repeat constructor|].
  constructor; [lia|]. eapply Forall_impl; [apply IH|]. cbn. intros; lia.
Qed.
Lemma maximum_ge x l : Forall (λ y, y ≤ maximum x l) (x :: l).
Proof.
  revert x. induction l as [|y l IH]; intros x; cbn; [by repeat constructor|].
  constructor; [lia|]. eapply Forall_impl; [apply IH|]. cbn. intros; lia.
Qed.

Lemma group_hits_lookup gs hashes max_length p hbs hits :
  group_hits gs hashes max_length p hbs = Ok hits →
  length hits = length gs ∧ ∀ k g, gs !! k = Some g → ∃ hit, hits !! k = Some hit ∧
    Spec.find_longest_cache_hit (Spec.spec g) hashes max_length p hbs = Ok hit.
Proof.
  revert hits. induction gs as [|g gs IH]; intros hits; cbn.
  - intros [= <-]. split; [done|]. intros k g. by rewrite lookup_nil.
  - intros (hit & Eh & (hits' & Es & [= <-])%bind_Ok)%bind_Ok.
    destruct (IH hits' Es) as [Hl Hk]. split; [cbn; by rewrite Hl|].
    intros [|k] g'; cbn; [|apply Hk]. intros [= <-]. by exists hit.
Qed.

Lemma group_hits_total gs hashes max_length p hbs :
  Forall (λ g, Spec.block_size (Spec.spec g) mod hbs = 0) gs →
  ∃ hits, group_hits gs hashes max_length p hbs = Ok hits.
Proof.
  induction 1 as [|g gs Hm _ [hits IH]]; [by exists []|].
  destruct (group_hashes_total g hashes hbs Hm) as [hs Hhs]. cbn [group_hits].
  assert (∃ hit, Spec.find_longest_cache_hit (Spec.spec g) hashes max_length p hbs = Ok hit)
    as [hit Eh].
  { unfold Spec.find_longest_cache_hit, Spec.prefix_run_hit, Spec.window_hit.
    destruct (Spec.spec g); rewrite Hhs; by eexists. }
  rewrite Eh. cbn. rewrite IH. by eexists.
Qed.

Definition stride c : nat :=
  match block_sizes (groups c) with [] => 1 | b :: bs => maximum b bs end.

(** The shape of the answer. *)
Lemma find_longest_cache_hit_inv hashes max_length c hits n :
  Forall group_ok (groups c) →
  find_longest_cache_hit hashes max_length c = Ok (hits, n) →
  length hits = length (groups c) ∧ n mod stride c = 0 ∧
  ∀ k g, groups c !! k = Some g → ∃ own,
    Spec.find_longest_cache_hit (Spec.spec g) hashes max_length (pool c) (hash_block_size c) = Ok own ∧
    n ≤ length own * Spec.block_size (Spec.spec g) ∧
    hits !! k = Some (take (n / Spec.block_size (Spec.spec g)) own).
Proof.
  intros Hg. unfold find_longest_cache_hit, stride.
  intros (own & Eown & Hrest)%bind_Ok. apply group_hits_lookup in Eown as [Hlo Hko].
  destruct (zip_with _ own _) as [|n0 ns] eqn:Ez; [done|].
  destruct (block_sizes (groups c)) as [|b0 bs] eqn:Eb; [done|].
  set (len0 := if decide (1 < _) then _ else minimum n0 ns) in Hrest.
  assert (Hlen0 : len0 ≤ minimum n0 ns) by (unfold len0; destruct (decide (1 < _)); lia).
  assert (Hmod : len0 mod maximum b0 bs = 0).
  { unfold len0. destruct (decide (1 < _)) as [_|H1].
    - destruct (decide (maximum b0 bs = 0)) as [Hz|Hz].
      { assert (Hb0 : b0 ≠ 0); [|pose proof (Forall_inv (maximum_ge b0 bs)) as Hmx; cbn beta in Hmx; lia].
        destruct (groups c) as [|g gs]; [done|]. injection Eb as <- <-.
        apply Forall_cons in Hg as [Hg _]. unfold group_ok in Hg. lia. }
      pose proof (Nat.div_mod_eq (minimum n0 ns) (maximum b0 bs)).
      replace (_ - _) with (minimum n0 ns / maximum b0 bs * maximum b0 bs) by lia.
      by apply Nat.Div0.mod_mul.
    - destruct (groups c) as [|g [|g2 gs]]; [done| |cbn in H1; lia]. injection Eb as <- <-.
      destruct own as [|o [|]]; try done. injection Ez as <- <-. apply Nat.Div0.mod_mul. }
  assert (Hbs : ∀ k g, groups c !! k = Some g → (b0 :: bs) !! k = Some (Spec.block_size (Spec.spec g))).
  { intros k g Hk. rewrite <- Eb. unfold block_sizes. by rewrite list_lookup_fmap, Hk. }
  assert (Hmin : ∀ k g o, groups c !! k = Some g → own !! k = Some o →
    len0 ≤ length o * Spec.block_size (Spec.spec g)).
  { intros k g o Hk Ho. pose proof (minimum_le n0 ns) as Hall. rewrite Forall_forall in Hall.
    assert ((n0 :: ns) !! k = Some (length o * Spec.block_size (Spec.spec g))) as Hlk.
    { rewrite <- Ez, lookup_zip_with, Ho. cbn. by rewrite (Hbs k g Hk). }
    apply list_elem_of_lookup_2, Hall in Hlk. lia. }
  clearbody len0. destruct (decide (len0 = 0)) as [Hz|Hz]; injection Hrest as <- <-.
  - split_and!; [by rewrite length_fmap|by apply Nat.Div0.mod_0_l|]. intros k g Hk.
    destruct (Hko k g Hk) as (o & Ho & Ho'). exists o. split_and!; [done|lia|].
    rewrite list_lookup_fmap, Hk. by rewrite Nat.Div0.div_0_l.
  - split_and!; [|done|].
    + rewrite length_zip_with, Hlo, <- Eb. unfold block_sizes. rewrite length_fmap. lia.
    + intros k g Hk. destruct (Hko k g Hk) as (o & Ho & Ho'). exists o.
      split_and!; [done|by eapply Hmin|]. rewrite lookup_zip_with, Ho. cbn. by rewrite (Hbs k g Hk).
Qed.
End Lookup.

(** ** Reachable states *)

Section Reach.
Implicit Types (c : KVCacheCoordinator) (r : string) (p : Pool.BlockPool).

Lemma cached_valid h p b : Pool.wf p → Pool.get_cached_block h p = Some b → b < Pool.num_blocks p.
Proof.
  intros Hwf (Hb & _)%(Pool.get_cached_block_Some h p b Hwf). by eapply Pool.bhash_valid.
Qed.

Lemma prefix_run_valid hashes p : Pool.wf p → valid_ids p (Spec.prefix_run hashes p).
Proof.
  intros Hwf. apply Forall_forall. intros b [i Hi]%list_elem_of_lookup.
  apply Spec.prefix_run_serves in Hi as (h & _ & Hc). by eapply cached_valid.
Qed.

Lemma window_loop_valid needed hashes p n run hit :
  Pool.wf p → valid_ids p hit → valid_ids p (Spec.window_loop needed hashes p n run hit).
Proof.
  intros Hwf. revert run hit. induction n as [|n IH]; intros run hit Hv; cbn;
    [by apply Forall_take|].
  destruct (Pool.get_cached_block _ p) as [b|] eqn:E; [|by apply IH].
  assert (valid_ids p (<[n:=b]> hit)).
  { apply Forall_insert; [done|by eapply cached_valid]. }
  case_decide; [by apply Forall_take|by apply IH].
Qed.

Lemma null_valid p : Pool.wf p → Pool.NULL_BLOCK_ID < Pool.num_blocks p.
Proof. intros Hwf. pose proof (Pool.wf_min _ Hwf). unfold Pool.NULL_BLOCK_ID. lia. Qed.

Lemma spec_hit_valid s hashes max_length p hbs hit :
  Pool.wf p → Spec.find_longest_cache_hit s hashes max_length p hbs = Ok hit → valid_ids p hit.
Proof.
  intros Hwf. unfold Spec.find_longest_cache_hit, Spec.prefix_run_hit, Spec.window_hit.
  destruct s; intros (hs & _ & [= <-])%bind_Ok; try by apply prefix_run_valid.
  apply window_loop_valid; [done|]. by apply Forall_replicate, null_valid.
Qed.

Lemma hit_valid hashes max_length c hits n :
  wf c → find_longest_cache_hit hashes max_length c = Ok (hits, n) →
  length hits = length (groups c) ∧ valid_ids (pool c) (concat hits).
Proof.
  intros Hwf Hf. apply find_longest_cache_hit_inv in Hf as (Hl & _ & Hk); [|apply Hwf].
  split; [done|]. apply Forall_concat, Forall_forall. intros hit [k Hhit]%list_elem_of_lookup.
  destruct (lookup_lt_is_Some_2 (groups c) k) as [g Hg].
  { rewrite <- Hl. by eapply lookup_lt_Some. }
  destruct (Hk k g Hg) as (own & Hown & _ & Heq). rewrite Heq in Hhit. injection Hhit as <-.
  apply Forall_take. eapply spec_hit_valid; [apply Hwf|done].
Qed.

(** What the cache does to its coordinator: admit a request on the prefix it
    found, extend a running one, index, release below the window, free. *)
Inductive step c : KVCacheCoordinator → Prop :=
  | step_admit r hashes max_length hits n num_tokens b c' :
      find_longest_cache_hit hashes max_length c = Ok (hits, n) →
      holds_of (requests c) r = [] →
      allocate r num_tokens hits c = Ok (b, c') → step c c'
  | step_extend r num_tokens b c' : allocate r num_tokens [] c = Ok (b, c') → step c c'
  | step_cache r hashes n fresh c' : cache_blocks r hashes n c = Ok (fresh, c') → step c c'
  | step_skip r n c' : remove_skipped_blocks r n c = Ok c' → step c c'
  | step_free r c' : free r c = Ok c' → step c c'
  | step_reset b p : Pool.reset_prefix_cache (pool c) = (b, p) → step c (set_pool p c).

Lemma reset_step_wf c b p :
  wf c → Pool.reset_prefix_cache (pool c) = (b, p) → wf (set_pool p c).
Proof.
  intros Hwf E. destruct (Pool.pool_step_wf (pool c) p) as [Hp Ho];
    [by eapply Pool.step_reset|split; apply Hwf|].
  pose proof (Pool.reset_spec (pool c) (wf_pool _ Hwf)) as Hs. rewrite E in Hs.
  destruct Hs as (_ & _ & Hb).
  assert (Hsame : Pool.num_blocks p = Pool.num_blocks (pool c) ∧
    ∀ i, Pool.refc p i = Pool.refc (pool c) i).
  { destruct b; [|by rewrite Hb]. destruct Hb as ((Hn & _) & Hr & _). done. }
  destruct Hsame as [Hn Hr]. split; cbn; try done; try apply Hwf.
  - intros r. unfold valid_ids. rewrite Hn. apply (wf_valid _ Hwf).
  - intros i Hi. rewrite Hr. by apply (wf_ledger _ Hwf).
Qed.

Lemma coord_step_wf c c' : step c c' → wf c → wf c'.
Proof.
  intros Hs Hwf. destruct Hs as [r hs ml hits n m b c' Hf Hh E|r m b c' E|r hs n f c' E|r n c' E
    |r c' E|b p E].
  - destruct (hit_valid _ _ _ _ _ Hwf Hf) as [Hl Hv].
    destruct (allocate_spec c r hits m Hwf) as (b' & c2 & E' & Hwf' & _); [by right|congruence].
  - destruct (allocate_spec c r [] m Hwf) as (b' & c2 & E' & Hwf' & _); [by left|congruence].
  - destruct (cache_blocks_spec c r hs n Hwf) as (f' & c2 & E' & Hwf' & _). congruence.
  - destruct (remove_skipped_blocks_spec c r n Hwf) as (c2 & E' & Hwf' & _). congruence.
  - destruct (free_spec c r Hwf) as (c2 & E' & Hwf' & _). congruence.
  - by eapply reset_step_wf.
Qed.

Lemma coord_init_wf gs hbs nb bs ec p :
  gs ≠ [] → Forall group_ok gs → Forall (λ g, Spec.block_size (Spec.spec g) mod hbs = 0) gs →
  Pool.init nb bs ec = Ok p → wf (init p gs hbs).
Proof.
  intros Hne Hg Hm Hp.
  destruct (Pool.init_Ok _ _ _ _ Hp) as (Hwf & Ho & _ & _ & _ & Hr & _). split; try done.
  intros r. by constructor.
Qed.

Lemma find_hit_total c hashes max_length :
  wf c → ∃ hits n, find_longest_cache_hit hashes max_length c = Ok (hits, n).
Proof.
  intros Hwf. unfold find_longest_cache_hit.
  destruct (group_hits_total (groups c) hashes max_length (pool c) (hash_block_size c)) as [own E];
    [apply Hwf|]. rewrite E. apply group_hits_lookup in E as [Hl _]. cbn.
  pose proof (proj1 (wf_groups _ Hwf)) as Hne. destruct (groups c) as [|g gs] eqn:Eg; [done|].
  destruct own as [|o own]; [done|]. cbn [zip_with block_sizes fmap list_fmap].
  match goal with |- context [if decide (?x = 0) then _ else _] => destruct (decide (x = 0)) end;
    by do 2 eexists.
Qed.

(** The window arithmetic: position [j] is dead exactly when its last token is
    out of every later query's window. *)
Lemma live_from_iff g n j :
  group_ok g → j < live_from g n ↔
    Spec.window (Spec.spec g) ≠ 0 ∧
    (j + 1) * Spec.block_size (Spec.spec g) + Spec.window (Spec.spec g) ≤ n.
Proof.
  unfold group_ok, live_from. intros Hb. case_decide as Hw; [lia|].
  set (bs := Spec.block_size _) in *. set (w := Spec.window _) in *.
  pose proof (Nat.div_mod_eq (n - w) bs). pose proof (Nat.mod_upper_bound (n - w) bs ltac:(lia)).
  split.
  - intros Hj. split; [done|]. nia.
  - intros [_ Hn]. apply Nat.lt_le_trans with (m := j + 1); [lia|].
    apply Nat.div_le_lower_bound; nia.
Qed.
End Reach.

(** ** Properties *)

(** C24: from a fresh pool, after any sequence of admissions on the prefix the
    lookup found, extensions, indexings, window releases, frees and resets, the
    reference count of every block is exactly the number of times the tracked
    requests hold it; so once no request is tracked every block but the null
    block is free again. *)
Theorem ledger_exact gs hbs nb bs ec p c
    (Hgs : gs ≠ []) (Hok : Forall group_ok gs)
    (Hdiv : Forall (λ g, Spec.block_size (Spec.spec g) mod hbs = 0) gs)
    (Hpool : Pool.init nb bs ec = Ok p) (Hrun : rtc step (init p gs hbs) c) :
  (∀ i, i ≠ Pool.NULL_BLOCK_ID → Pool.refc (pool c) i = held (requests c) i) ∧
  Pool.wf (pool c) ∧
  (num_tracked_requests c = 0 →
    Pool.num_free_blocks (pool c) = (Z.of_nat (Pool.num_blocks (pool c)) - 1)%Z).
Proof.
  assert (Hwf : wf c).
  { pose proof (coord_init_wf gs hbs nb bs ec p Hgs Hok Hdiv Hpool) as H0.
    clear Hpool. induction Hrun as [|c1 c2 c3 Hs Hrun IH]; [done|]. by eapply IH, coord_step_wf. }
  split_and!; [apply Hwf|apply Hwf|]. intros Hz. apply map_size_empty_inv in Hz.
  assert (Hun : Pool.num_used_blocks (pool c) = 1%Z); [|unfold Pool.num_used_blocks in Hun; lia].
  apply Pool.unused_iff; [apply Hwf|]. intros i Hi. rewrite (wf_ledger _ Hwf), Hz.
  - unfold held. by rewrite map_sum_empty.
  - unfold Pool.NULL_BLOCK_ID. lia.
Qed.

(** [allocate] is all or nothing.  When it answers true, every group holds
    what it adopted (or held) followed by exactly the blocks it lacked for
    [num_tokens], each unreferenced until now; when it answers false, no
    reference count, hash or holding of any request differs from before.  No
    other request changes either way, and it never raises. *)
Theorem allocate_all_or_nothing c r adopted num_tokens
    (Hwf : wf c) (Hadopt : adoptable c r adopted) :
  ∃ b c', allocate r num_tokens adopted c = Ok (b, c') ∧ wf c' ∧
    (∀ r', r' ≠ r → requests c' !! r' = requests c !! r') ∧
    if (b : bool) then granted c r adopted num_tokens c' else refused c r c'.
Proof.
  destruct (allocate_spec c r adopted num_tokens Hwf Hadopt) as (b & c' & ? & ? & _ & _ & ? & ?).
  by exists b, c'.
Qed.

(** The coordinated lookup never raises on a well-formed configuration; its
    answer is under the ceiling, every group's share is a prefix of what that
    group can serve on its own and holds only blocks of the pool, and when all
    block sizes divide the coarsest one it covers exactly the promised tokens. *)
Theorem coordinated_hit c hashes max_length (Hwf : wf c) :
  ∃ hits n, find_longest_cache_hit hashes max_length c = Ok (hits, n) ∧
    length hits = length (groups c) ∧ valid_ids (pool c) (concat hits) ∧
    ∀ k g, groups c !! k = Some g → ∃ own hit,
      Spec.find_longest_cache_hit (Spec.spec g) hashes max_length (pool c) (hash_block_size c) = Ok own ∧
      hits !! k = Some hit ∧ hit `prefix_of` own ∧
      n ≤ length own * Spec.block_size (Spec.spec g) ∧
      ((∀ g', g' ∈ groups c → stride c mod Spec.block_size (Spec.spec g') = 0) →
        length hit * Spec.block_size (Spec.spec g) = n).
Proof.
  destruct (find_hit_total c hashes max_length Hwf) as (hits & n & E).
  destruct (hit_valid _ _ _ _ _ Hwf E) as [Hl Hv]. exists hits, n. split_and!; try done.
  apply find_longest_cache_hit_inv in E as (_ & Hmod & Hk); [|apply Hwf].
  intros k g Hg. destruct (Hk k g Hg) as (own & Hown & Hn & Hhit).
  exists own. eexists. split_and!; [done|done|apply prefix_take|done|]. intros Hst.
  set (b := Spec.block_size (Spec.spec g)) in *.
  assert (Hb : 1 ≤ b).
  { apply list_elem_of_lookup_2 in Hg. pose proof (proj2 (wf_groups _ Hwf)) as Hall.
    rewrite Forall_forall in Hall. by apply Hall in Hg. }
  assert (Hnb : n mod b = 0) by (eapply mod_mod_trans; [done|]; by eapply Hst, list_elem_of_lookup_2).
  pose proof (Nat.div_mod_eq n b). rewrite length_take, Nat.min_l; nia.
Qed.

(** [cache_blocks] gives a block a hash only when the request holds it at a
    position whose tokens have all been computed, and then the prompt's chain
    hash of that position; it changes no reference, no request's blocks and no
    hash a block already carries, and it never raises. *)
Theorem cache_blocks_only_computed c r hashes n (Hwf : wf c) :
  ∃ fresh c', cache_blocks r hashes n c = Ok (fresh, c') ∧ wf c' ∧
    (∀ i h, Pool.bhash (pool c') i = Some h → Pool.bhash (pool c) i = Some h ∨
      own_hash (groups c) (block_ids r c) (hash_block_size c) hashes n i h) ∧
    (∀ i h, Pool.bhash (pool c) i = Some h → Pool.bhash (pool c') i = Some h) ∧
    (∀ i, Pool.refc (pool c') i = Pool.refc (pool c) i) ∧
    (∀ r', block_ids r' c' = block_ids r' c).
Proof.
  destruct (cache_blocks_spec c r hashes n Hwf) as (f & c' & ? & ? & _ & Hg & ? & _ & ? & _).
  exists f, c'. split_and!; try done; apply Hg.
Qed.

(** [remove_skipped_blocks] leaves in place every table entry a query at
    position [n] or later can still read through its window, repoints every
    entry wholly below the window at the null block, gives exactly those references back, and
    keeps other requests, every hash and every other reference. *)
Theorem remove_skipped_keeps_window c r n (Hwf : wf c) :
  ∃ c', remove_skipped_blocks r n c = Ok c' ∧ wf c' ∧ Pool.keeps (pool c) (pool c') ∧
    (∀ r', r' ≠ r → block_ids r' c' = block_ids r' c) ∧
    ∀ k g blocks, r ∈ dom (requests c) → groups c !! k = Some g → block_ids r c !! k = Some blocks →
      ∃ blocks', block_ids r c' !! k = Some blocks' ∧ length blocks' = length blocks ∧
        ∀ j i, blocks !! j = Some i →
          let w := Spec.window (Spec.spec g) in
          let bs := Spec.block_size (Spec.spec g) in
          (w = 0 ∨ n < (j + 1) * bs + w → blocks' !! j = Some i) ∧
          (w ≠ 0 → (j + 1) * bs + w ≤ n → blocks' !! j = Some Pool.NULL_BLOCK_ID).
Proof.
  destruct (remove_skipped_blocks_spec c r n Hwf) as (c' & E & Hwf' & _ & Hk & _ & Ho & Hr).
  exists c'. split_and!; try done. intros k g blocks Hd Hg Hb.
  exists (null_below (live_from g n) blocks). rewrite (Hr Hd), lookup_zip_with, Hg, Hb. cbn [mbind].
  split_and!; [done|apply null_below_length|]. intros j i Hj. cbv zeta.
  assert (Hbs : group_ok g).
  { pose proof (proj2 (wf_groups _ Hwf)) as Hall. rewrite Forall_forall in Hall.
    by eapply Hall, list_elem_of_lookup_2. }
  pose proof (live_from_iff g n j Hbs) as Hiff.
  rewrite (null_below_lookup _ _ _ _ Hj). split; intros; do 2 f_equal.
  - rewrite decide_False; [done|]. rewrite Hiff. lia.
  - rewrite decide_True; [done|]. rewrite Hiff. lia.
Qed.

(** ** Witnesses *)

Definition demo_groups : list Spec.KVCacheGroup :=
  [Spec.Group 0 (Spec.SlidingWindowSpec 2 (1, 1) 3) [0]; Spec.Group 1 (Spec.FullAttentionSpec 2 (1, 1)) [1]].

Lemma demo_groups_ok :
  demo_groups ≠ [] ∧ Forall group_ok demo_groups ∧
  Forall (λ g, Spec.block_size (Spec.spec g) mod 2 = 0) demo_groups.
Proof. unfold group_ok. split_and!; [done| |]; repeat constructor. Qed.

Lemma coord_demo_wf p : Pool.init 10 2 true = Ok p → wf (init p demo_groups 2).
Proof. intros Hp. destruct demo_groups_ok as (? & ? & ?). by eapply coord_init_wf. Qed.

(** Request "a" computes four blocks' worth of tokens, its prompt is indexed,
    "b" is admitted on the hit, "a" ends. *)
Lemma ledger_exact_witness :
  ∃ p c, Pool.init 10 2 true = Ok p ∧ rtc step (init p demo_groups 2) c ∧
    num_tracked_requests c = 1 ∧ Pool.refc (pool c) 5 = held (requests c) 5.
Proof.
  destruct demo_groups_ok as (H1 & H2 & H3).
  destruct (Pool.init 10 2 true) as [p|] eqn:Hp; [|vm_compute in Hp; discriminate].
  assert (∃ c, rtc step (init p demo_groups 2) c ∧ num_tracked_requests c = 1) as (c & Hrun & Hn).
  { vm_compute in Hp. injection Hp as <-. eexists. split.
    - eapply rtc_l; [eapply (step_extend _ "a" 6 true); vm_compute; reflexivity|].
      eapply rtc_l; [eapply (step_cache _ "a" [11; 22; 33]%Z 6); vm_compute; reflexivity|].
      eapply rtc_l; [eapply (step_admit _ "b" [11; 22; 44]%Z 5); [vm_compute; reflexivity..|]|].
      { instantiate (2 := true). instantiate (2 := 5). vm_compute; reflexivity. }
      eapply rtc_l; [eapply (step_free _ "a"); vm_compute; reflexivity|]. apply rtc_refl.
    - vm_compute. reflexivity. }
  exists p, c. split_and!; try done. by apply (ledger_exact demo_groups 2 10 2 true p c).
Defined.

Lemma allocate_all_or_nothing_witness :
  ∃ p c', Pool.init 10 2 true = Ok p ∧
    allocate "a" 6 [] (init p demo_groups 2) = Ok (true, c') ∧ wf c'.
Proof.
  destruct (Pool.init 10 2 true) as [p|] eqn:Hp; [|vm_compute in Hp; discriminate].
  destruct (allocate_all_or_nothing (init p demo_groups 2) "a" [] 6) as (b & c' & E & Hwf & _);
    [by apply coord_demo_wf|by left|].
  exists p, c'. split_and!; try done. rewrite E. destruct b; [done|].
  exfalso. vm_compute in Hp. injection Hp as <-. vm_compute in E. discriminate.
Defined.

Lemma coordinated_hit_witness :
  ∃ p, Pool.init 10 2 true = Ok p ∧
    find_longest_cache_hit [11; 22]%Z 4 (init p demo_groups 2) = Ok ([[]; []], 0).
Proof.
  destruct (Pool.init 10 2 true) as [p|] eqn:Hp; [|vm_compute in Hp; discriminate].
  destruct (coordinated_hit (init p demo_groups 2) [11; 22]%Z 4) as (hits & n & E & _);
    [by apply coord_demo_wf|].
  exists p. split; [done|]. vm_compute in Hp. injection Hp as <-. rewrite E.
  vm_compute in E. by injection E as <- <-.
Defined.

Lemma cache_blocks_only_computed_witness :
  ∃ p c fresh c', Pool.init 10 2 true = Ok p ∧
    allocate "a" 6 [] (init p demo_groups 2) = Ok (true, c) ∧
    cache_blocks "a" [11; 22; 33]%Z 5 c = Ok (fresh, c') ∧
    fresh = [(0, 1, 11%Z); (0, 2, 22%Z); (1, 4, 11%Z); (1, 5, 22%Z)] ∧ wf c'.
Proof.
  destruct (Pool.init 10 2 true) as [p|] eqn:Hp; [|vm_compute in Hp; discriminate].
  destruct (allocate_spec (init p demo_groups 2) "a" [] 6) as (b & c & E & Hwf & _);
    [by apply coord_demo_wf|by left|].
  destruct (cache_blocks_only_computed c "a" [11; 22; 33]%Z 5 Hwf) as (fresh & c' & E2 & Hwf2 & _).
  vm_compute in Hp. injection Hp as <-. vm_compute in E. injection E as <- <-.
  do 4 eexists. split_and!; [reflexivity|vm_compute; reflexivity|exact E2| |exact Hwf2].
  vm_compute in E2. by injection E2 as <-.
Defined.

Lemma remove_skipped_keeps_window_witness :
  ∃ p c c', Pool.init 10 2 true = Ok p ∧
    allocate "a" 6 [] (init p demo_groups 2) = Ok (true, c) ∧
    remove_skipped_blocks "a" 6 c = Ok c' ∧
    block_ids "a" c' = [[0; 2; 3]; [4; 5; 6]] ∧ wf c'.
Proof.
  destruct (Pool.init 10 2 true) as [p|] eqn:Hp; [|vm_compute in Hp; discriminate].
  destruct (allocate_spec (init p demo_groups 2) "a" [] 6) as (b & c & E & Hwf & _);
    [by apply coord_demo_wf|by left|].
  destruct (remove_skipped_keeps_window c "a" 6 Hwf) as (c' & E2 & Hwf2 & _).
  vm_compute in Hp. injection Hp as <-. vm_compute in E. injection E as <- <-.
  do 3 eexists. split_and!; [reflexivity|vm_compute; reflexivity|exact E2| |exact Hwf2].
  vm_compute in E2. by injection E2 as <-.
Defined.

(** ** What the lookup does not promise *)

(** A pool where the chain entries 11, 22, 44 and 55 are cached and 33 is not. *)
Definition holed_pool : result Pool.BlockPool :=
  p ← Pool.init 8 1 true;
  '(_, p) ← Pool.get_new_blocks 4 p;
  Pool.cache_full_blocks [1; 2; 3; 4] [11; 22; 44; 55]%Z p.

(** Truncating a sliding-window group's hit to the common length can leave null
    blocks inside its window: on its own the group serves all five blocks, the
    full-attention group only two, and the common answer points the window of
    the first group at the null block. *)
Theorem truncated_window_is_null :
  ∃ p, holed_pool = Ok p ∧
    find_longest_cache_hit [11; 22; 33; 44; 55]%Z 5
      (init p [Spec.Group 0 (Spec.SlidingWindowSpec 1 (1, 1) 2) [0];
               Spec.Group 1 (Spec.FullAttentionSpec 1 (1, 1)) [1]] 1) =
    Ok ([[Pool.NULL_BLOCK_ID; Pool.NULL_BLOCK_ID]; [1; 2]], 2).
Proof. eexists. split; vm_compute; reflexivity. Qed.

(** Aligning to the coarsest block size is not aligning to every block size: of
    the three tokens promised here the first group's one block covers two. *)
Theorem stride_not_common :
  ∃ p, holed_pool = Ok p ∧
    find_longest_cache_hit [99; 11; 22; 44]%Z 4
      (init p [Spec.Group 0 (Spec.FullAttentionSpec 2 (1, 1)) [0];
               Spec.Group 1 (Spec.FullAttentionSpec 3 (1, 1)) [1]] 1) = Ok ([[1]; [2]], 3).
Proof. eexists. split; vm_compute; reflexivity. Qed.

(** The hash index does not know groups: a request that holds distinct blocks
    per group leaves them under one hash, and the next request is given the
    first group's block for the second group too. *)
Theorem groups_share_the_index :
  (p ← Pool.init 10 2 true;
   '(_, c) ← allocate "a" 2 [] (init p demo_groups 2);
   '(_, c') ← cache_blocks "a" [11]%Z 2 c;
   hit ← find_longest_cache_hit [11]%Z 2 c';
   Ok (block_ids "a" c, hit)) = Ok ([[1]; [2]], ([[1]; [1]], 2)).
Proof. vm_compute. reflexivity. Qed.

End Coord.
