(* ===== verification/HashChain.v ===== *)
(** * The prefix hash chain ([iter_block_hashes], [extend_block_hashes] of
    prefix_cache.py)

    A sequence is hashed block by block, each digest folding in the previous
    one.  The digest function is a parameter; [struct.pack] is modelled byte by
    byte. *)

From S2P Require Export Prelude.

Module Chain.

(** ** Bytes *)

(** [z.to_bytes(k, "little")] and [int.from_bytes(l, "little")]. *)
Fixpoint to_le (k : nat) (z : Z) : list Z :=
  match k with 0 => [] | S k => (z mod 256)%Z :: to_le k (z / 256)%Z end.
Fixpoint of_le (l : list Z) : Z :=
  match l with [] => 0 | b :: l => b + 256 * of_le l end%Z.

(** One unsigned field of [k] bytes of [struct.pack]. *)
Definition pack_uint (k : nat) (z : Z) : result (list Z) :=
  if decide (0 ≤ z < 256 ^ Z.of_nat k)%Z then Ok (to_le k z) else Err StructError.

Fixpoint pack_uints (k : nat) (l : list Z) : result (list Z) :=
  match l with
  | [] => Ok []
  | z :: l => b ← pack_uint k z; bs ← pack_uints k l; Ok (b ++ bs)
  end.

(** [struct.pack(f"<Q{len(block)}I", parent, *block)] *)
Definition pack (parent : Z) (block : list Z) : result (list Z) :=
  p ← pack_uint 8 parent; b ← pack_uints 4 block; Ok (p ++ b).

(** ** The chain *)

Definition block_at (b block_size : nat) (token_ids : list Z) : list Z :=
  take block_size (drop (b * block_size) token_ids).

Definition seed_parent (seed : Z) : Z := Z.land seed 0xFFFFFFFFFFFFFFFF.

Section Digest.
(** [hashlib.blake2b(message, digest_size=8).digest()] *)
Variable digest : list Z → list Z.

Definition next_hash (parent : Z) (block : list Z) : result Z :=
  message ← pack parent block;
  Ok (of_le (digest message)).

(** The loop over the [n] blocks from block [b] on. *)
Fixpoint chain_from (block_size : nat) (token_ids : list Z) (n b : nat) (parent : Z) :
    result (list Z) :=
  match n with
  | 0 => Ok []
  | S n =>
      h ← next_hash parent (block_at b block_size token_ids);
      hs ← chain_from block_size token_ids n (S b) h;
      Ok (h :: hs)
  end.

Definition iter_block_hashes (token_ids : list Z) (block_size : nat) (seed : Z) :
    result (list Z) :=
  _ ← rguard (bool_decide (block_size ≠ 0)) ZeroDivisionError;
  chain_from block_size token_ids (length token_ids / block_size) 0 (seed_parent seed).

(** The extended chain; the source appends in place. *)
Definition extend_block_hashes (hashes : list Z) (token_ids : list Z) (block_size : nat) (seed : Z) :
    result (list Z) :=
  _ ← rguard (bool_decide (block_size ≠ 0)) ZeroDivisionError;
  let parent := default (seed_parent seed) (last hashes) in
  fresh ← chain_from block_size token_ids (length token_ids / block_size - length hashes)
    (length hashes) parent;
  Ok (hashes ++ fresh).

(** ** Lemmas *)

Definition is_byte (z : Z) : Prop := (0 ≤ z < 256)%Z.

Lemma to_le_length k z : length (to_le k z) = k.
Proof. revert z. induction k; intros; cbn; auto. Qed.

Lemma to_le_of_le k z : (0 ≤ z < 256 ^ Z.of_nat k)%Z → of_le (to_le k z) = z.
Proof.
  revert z. induction k as [|k IH]; intros z Hz; cbn; [cbn in Hz; lia|].
  rewrite Nat2Z.inj_succ, Z.pow_succ_r in Hz by lia.
  rewrite IH; [pose proof (Z.div_mod z 256); lia|].
  split; [apply Z.div_pos; lia|]. apply Z.div_lt_upper_bound; lia.
Qed.

Lemma of_le_bounds l : Forall is_byte l → (0 ≤ of_le l < 256 ^ Z.of_nat (length l))%Z.
Proof.
  unfold is_byte. induction 1 as [|b l Hb Hl IH]; cbn [of_le length]; [lia|].
  rewrite Nat2Z.inj_succ, Z.pow_succ_r by lia. lia.
Qed.

Lemma pack_uint_inj k z1 z2 b : pack_uint k z1 = Ok b → pack_uint k z2 = Ok b → z1 = z2.
Proof.
  unfold pack_uint. repeat case_decide; try done. intros [= <-] [= H2].
  rewrite <- (to_le_of_le k z1), <- (to_le_of_le k z2) by done. by rewrite H2.
Qed.

Lemma pack_uint_length k z b : pack_uint k z = Ok b → length b = k.
Proof. unfold pack_uint. case_decide; [|done]. intros [= <-]. apply to_le_length. Qed.

Lemma pack_uints_inj k l1 l2 b :
  k ≠ 0 → pack_uints k l1 = Ok b → pack_uints k l2 = Ok b → l1 = l2.
Proof.
  intros Hk. revert l2 b. induction l1 as [|z1 l1 IH]; intros [|z2 l2] b; cbn; try done.
  - intros [= <-] (b1 & E1 & (b2 & _ & [= E])%bind_Ok)%bind_Ok.
    apply app_nil in E as [-> _]. by apply pack_uint_length in E1.
  - intros (b1 & E1 & (b2 & _ & [= <-])%bind_Ok)%bind_Ok [= E].
    symmetry in E. apply app_nil in E as [-> _]. by apply pack_uint_length in E1.
  - intros (b1 & E1 & (b2 & E2 & [= <-])%bind_Ok)%bind_Ok (c1 & F1 & (c2 & F2 & [= E])%bind_Ok)%bind_Ok.
    apply app_inj_1 in E as [-> ->];
      [|by rewrite (pack_uint_length _ _ _ E1), (pack_uint_length _ _ _ F1)].
    f_equal; [by eapply pack_uint_inj|by eapply IH].
Qed.

(** The packing is unambiguous. *)
Lemma pack_inj p1 p2 l1 l2 m : pack p1 l1 = Ok m → pack p2 l2 = Ok m → p1 = p2 ∧ l1 = l2.
Proof.
  unfold pack. intros (b1 & E1 & (b2 & E2 & [= <-])%bind_Ok)%bind_Ok
    (c1 & F1 & (c2 & F2 & [= E])%bind_Ok)%bind_Ok.
  apply app_inj_1 in E as [-> ->];
    [|by rewrite (pack_uint_length _ _ _ E1), (pack_uint_length _ _ _ F1)].
  split; [by eapply pack_uint_inj|by apply (pack_uints_inj 4 l1 l2 b2)].
Qed.

Lemma pack_uints_total k l :
  Forall (λ z, 0 ≤ z < 256 ^ Z.of_nat k)%Z l → ∃ b, pack_uints k l = Ok b.
Proof.
  induction 1 as [|z l Hz _ [b IH]]; [by exists []|]. cbn. unfold pack_uint.
  rewrite decide_True by done. cbn. rewrite IH. by eexists.
Qed.

Lemma pack_uints_Ok k l b :
  pack_uints k l = Ok b → Forall (λ z, 0 ≤ z < 256 ^ Z.of_nat k)%Z l.
Proof.
  revert b. induction l as [|z l IH]; intros b; cbn; [by constructor|].
  intros (b1 & E1 & (b2 & E2 & _)%bind_Ok)%bind_Ok. unfold pack_uint in E1.
  case_decide; [|done]. constructor; [done|by eapply IH].
Qed.

Lemma pack_uints_err k l e : pack_uints k l = Err e → e = StructError.
Proof.
  induction l as [|z l IH]; cbn; [done|]. unfold pack_uint. case_decide; cbn; [|congruence].
  destruct (pack_uints k l); cbn; [done|]. intros [= <-]. by apply IH.
Qed.

Lemma seed_parent_bounds seed : (0 ≤ seed_parent seed < 256 ^ 8)%Z.
Proof.
  unfold seed_parent. change 0xFFFFFFFFFFFFFFFF%Z with (Z.ones 64).
  rewrite Z.land_ones by lia. apply Z.mod_pos_bound. lia.
Qed.
(** *** The chain block by block *)

Lemma block_at_prefix b bs t1 t2 :
  t1 `prefix_of` t2 → (b + 1) * bs ≤ length t1 → block_at b bs t1 = block_at b bs t2.
Proof.
  intros [t ->] Hb. unfold block_at. rewrite drop_app_le by lia.
  rewrite take_app_le; [done|]. rewrite length_drop. lia.
Qed.

Lemma block_fits b bs (t : list Z) : b < length t / bs → (b + 1) * bs ≤ length t.
Proof.
  intros Hb. pose proof (Nat.Div0.mul_div_le (length t) bs). nia.
Qed.

Lemma chain_from_ext bs t1 t2 n b p :
  (∀ j, j < n → block_at (b + j) bs t1 = block_at (b + j) bs t2) →
  chain_from bs t1 n b p = chain_from bs t2 n b p.
Proof.
  revert b p. induction n as [|n IH]; intros b p Hj; [done|]. cbn.
  pose proof (Hj 0 ltac:(lia)) as H0. rewrite Nat.add_0_r in H0. rewrite H0.
  destruct (next_hash _ _) as [h|]; [|done]. cbn. rewrite IH; [done|].
  intros j Hjn. replace (S b + j) with (b + S j) by lia. apply Hj. lia.
Qed.

Lemma chain_from_app bs t n m b p :
  chain_from bs t (n + m) b p =
    (hs ← chain_from bs t n b p;
     hs' ← chain_from bs t m (b + n) (default p (last hs));
     Ok (hs ++ hs')).
Proof.
  revert b p. induction n as [|n IH]; intros b p; cbn.
  - rewrite Nat.add_0_r. by destruct (chain_from bs t m b p).
  - destruct (next_hash _ _) as [h|]; [|done]. cbn. rewrite IH.
    destruct (chain_from bs t n (S b) h) as [hs|]; [|done]. cbn.
    rewrite <- Nat.add_succ_comm. cbn [Nat.add].
    assert (last (h :: hs) = Some (default h (last hs))) as ->.
    { rewrite last_cons. by destruct (last hs). }
    cbn. by destruct (chain_from bs t m _ _).
Qed.

Lemma chain_from_length bs t n b p hs : chain_from bs t n b p = Ok hs → length hs = n.
Proof.
  revert b p hs. induction n as [|n IH]; intros b p hs; cbn; [by intros [= <-]|].
  intros (h & _ & (hs' & E & [= <-])%bind_Ok)%bind_Ok. cbn. f_equal. by eapply IH.
Qed.

Lemma iter_Ok t bs seed hs :
  iter_block_hashes t bs seed = Ok hs →
  bs ≠ 0 ∧ chain_from bs t (length t / bs) 0 (seed_parent seed) = Ok hs ∧ length hs = length t / bs.
Proof.
  unfold iter_block_hashes, rguard. case_bool_decide; [|done]. cbn. intros E.
  split_and!; [done|done|by eapply chain_from_length].
Qed.

(** The messages a chain hashes. *)
Fixpoint messages (bs : nat) (t : list Z) (n b : nat) (parent : Z) : list (list Z) :=
  match n with
  | 0 => []
  | S n =>
      match pack parent (block_at b bs t) with
      | Ok m => m :: messages bs t n (S b) (of_le (digest m))
      | Err _ => []
      end
  end.
Definition hashed (t : list Z) (bs : nat) (seed : Z) : list (list Z) :=
  messages bs t (length t / bs) 0 (seed_parent seed).

Lemma chain_from_lookup bs t n b p hs k h :
  chain_from bs t n b p = Ok hs → hs !! k = Some h →
  ∃ p' m, pack p' (block_at (b + k) bs t) = Ok m ∧ m ∈ messages bs t n b p ∧
    h = of_le (digest m) ∧ match k with 0 => p' = p | S k => hs !! k = Some p' end.
Proof.
  revert b p hs k. induction n as [|n IH]; intros b p hs k; cbn; [by intros [= <-]|].
  unfold next_hash. intros (h0 & (m & Em & [= <-])%bind_Ok & (hs' & E & [= <-])%bind_Ok)%bind_Ok.
  rewrite Em. destruct k as [|k]; cbn.
  - intros [= <-]. exists p, m. rewrite Nat.add_0_r. split_and!; try done. by left.
  - intros Hk. destruct (IH _ _ _ _ E Hk) as (p' & m' & Em' & Hin & -> & Hp).
    exists p', m'. replace (b + S k) with (S b + k) by lia. split_and!; try done; [by right|].
    destruct k as [|k]; cbn; [by subst|done].
Qed.

(** Digests are eight bytes, they do not collide on the messages hashed and no
    chain value equals the seed the chains start from. *)
Definition digest_ok : Prop := ∀ m, length (digest m) = 8 ∧ Forall is_byte (digest m).
Definition collision_free (ms : list (list Z)) : Prop :=
  ∀ m1 m2, m1 ∈ ms → m2 ∈ ms → digest m1 = digest m2 → m1 = m2.
Definition seed_free (ms : list (list Z)) (seed : Z) : Prop :=
  ∀ m, m ∈ ms → of_le (digest m) ≠ seed_parent seed.

Lemma to_le_bytes l : Forall is_byte l → to_le (length l) (of_le l) = l.
Proof.
  unfold is_byte. induction 1 as [|b l Hb Hl IH]; [done|]. cbn.
  rewrite (Z.mul_comm 256), Z.mod_add, Z.mod_small, Z.div_add, Z.div_small, Z.add_0_l by lia.
  by rewrite IH.
Qed.

Lemma digest_value_inj m1 m2 :
  digest_ok → of_le (digest m1) = of_le (digest m2) → digest m1 = digest m2.
Proof.
  intros Hd E. destruct (Hd m1) as [L1 B1], (Hd m2) as [L2 B2].
  rewrite <- (to_le_bytes _ B1), <- (to_le_bytes _ B2). by rewrite L1, L2, E.
Qed.

Lemma take_block k bs (t : list Z) :
  take ((S k + 1) * bs) t = take ((k + 1) * bs) t ++ block_at (S k) bs t.
Proof.
  unfold block_at. replace ((S k + 1) * bs) with ((k + 1) * bs + bs) by lia.
  rewrite take_add. by replace (S k * bs) with ((k + 1) * bs) by lia.
Qed.

(** Equal chain entries, equal positions and equal prefixes. *)
Lemma chain_entry_prefix t1 t2 bs seed hs1 hs2 k1 k2 h :
  digest_ok → collision_free (hashed t1 bs seed ++ hashed t2 bs seed) →
  seed_free (hashed t1 bs seed ++ hashed t2 bs seed) seed →
  iter_block_hashes t1 bs seed = Ok hs1 → iter_block_hashes t2 bs seed = Ok hs2 →
  hs1 !! k1 = Some h → hs2 !! k2 = Some h →
  k1 = k2 ∧ take ((k1 + 1) * bs) t1 = take ((k1 + 1) * bs) t2.
Proof.
  intros Hd Hc Hs (_ & E1 & _)%iter_Ok (_ & E2 & _)%iter_Ok.
  revert k2 h. induction k1 as [|k1 IH]; intros k2 h H1 H2;
    destruct (chain_from_lookup _ _ _ _ _ _ _ _ E1 H1) as (p1 & m1 & P1 & I1 & V1 & R1);
    destruct (chain_from_lookup _ _ _ _ _ _ _ _ E2 H2) as (p2 & m2 & P2 & I2 & V2 & R2);
    (assert (m1 = m2) as <-;
      [apply Hc; [set_solver|set_solver|apply digest_value_inj; [done|congruence]]|]);
    destruct (pack_inj _ _ _ _ _ P1 P2) as [-> Hb];
    destruct k2 as [|k2].
  - split; [done|]. by rewrite !Nat.add_0_l, !Nat.mul_1_l.
  - subst p2. exfalso.
    destruct (chain_from_lookup _ _ _ _ _ _ _ _ E2 R2) as (p' & m' & _ & I' & V' & _).
    apply (Hs m'); [set_solver|done].
  - subst p2. exfalso.
    destruct (chain_from_lookup _ _ _ _ _ _ _ _ E1 R1) as (p' & m' & _ & I' & V' & _).
    apply (Hs m'); [set_solver|done].
  - destruct (IH k2 p2 R1 R2) as [-> Ht]. split; [done|].
    cbn [Nat.add] in Hb. by rewrite !take_block, Ht, Hb.
Qed.

(** A chain extended over a longer sequence is the longer sequence's chain. *)
Lemma extend_iter t1 t2 bs seed hs :
  t1 `prefix_of` t2 → iter_block_hashes t1 bs seed = Ok hs →
  extend_block_hashes hs t2 bs seed = iter_block_hashes t2 bs seed.
Proof.
  intros Hp E. pose proof (iter_Ok _ _ _ _ E) as (Hbs & Hc & Hl).
  unfold extend_block_hashes, iter_block_hashes, rguard. rewrite bool_decide_true by done. cbn.
  assert (Hle : length t1 / bs ≤ length t2 / bs).
  { apply Nat.Div0.div_le_mono. by apply prefix_length. }
  replace (length t2 / bs) with (length hs + (length t2 / bs - length hs)) at 2 by lia.
  rewrite chain_from_app, (chain_from_ext bs t2 t1 (length hs) 0), Hl, Hc; [done|].
  intros j Hj. symmetry. apply block_at_prefix; [done|]. apply block_fits. lia.
Qed.
Definition is_token (z : Z) : Prop := (0 ≤ z < 256 ^ 4)%Z.
#[global] Instance is_token_dec z : Decision (is_token z).
Proof. unfold is_token. apply _. Defined.

Definition is_hash (h : Z) : Prop := (0 ≤ h < 256 ^ 8)%Z.

Lemma next_hash_cases p block :
  digest_ok → is_hash p →
  match next_hash p block with
  | Ok h => Forall is_token block ∧ is_hash h
  | Err e => e = StructError ∧ ¬ Forall is_token block
  end.
Proof.
  intros Hd Hp. unfold next_hash, pack, pack_uint. rewrite decide_True by done. cbn.
  destruct (pack_uints 4 block) as [m|e] eqn:E; cbn.
  - split; [exact (pack_uints_Ok 4 block m E)|]. destruct (Hd (to_le 8 p ++ m)) as [Hl Hb].
    pose proof (of_le_bounds _ Hb) as Hbd. by rewrite Hl in Hbd.
  - split; [by eapply pack_uints_err|]. intros Hf.
    destruct (pack_uints_total 4 block Hf) as [m Hm]. congruence.
Qed.

Lemma chain_from_cases bs t n b p :
  digest_ok → is_hash p →
  let tokens := take (n * bs) (drop (b * bs) t) in
  match chain_from bs t n b p with
  | Ok hs => Forall is_token tokens ∧ Forall is_hash hs
  | Err e => e = StructError ∧ ¬ Forall is_token tokens
  end.
Proof.
  intros Hd. revert b p. induction n as [|n IH]; intros b p Hp; cbn [Nat.mul chain_from].
  { by split; constructor. }
  cbn zeta. rewrite take_add, drop_drop. replace (b * bs + bs) with (S b * bs) by lia.
  fold (block_at b bs t). pose proof (next_hash_cases p (block_at b bs t) Hd Hp) as Hn.
  destruct (next_hash _ _) as [h|e]; cbn [mbind result_bind].
  - destruct Hn as [Hb Hh]. specialize (IH (S b) h Hh). cbn zeta in IH.
    destruct (chain_from bs t n (S b) h) as [hs|e]; cbn; rewrite Forall_app; naive_solver.
  - rewrite Forall_app. naive_solver.
Qed.

Lemma iter_cases t bs seed :
  digest_ok → bs ≠ 0 →
  match iter_block_hashes t bs seed with
  | Ok hs => Forall is_token (take (length t / bs * bs) t) ∧ length hs = length t / bs ∧
      Forall is_hash hs
  | Err e => e = StructError ∧ ¬ Forall is_token (take (length t / bs * bs) t)
  end.
Proof.
  intros Hd Hbs. pose proof (chain_from_cases bs t (length t / bs) 0 (seed_parent seed) Hd
    (seed_parent_bounds seed)) as Hc. cbn zeta in Hc. rewrite drop_0 in Hc.
  unfold iter_block_hashes, rguard. rewrite bool_decide_true by done. cbn.
  destruct (chain_from _ _ _ _ _) as [hs|e] eqn:E; [|done].
  destruct Hc. split_and!; try done. by eapply chain_from_length.
Qed.

End Digest.

(** ** Properties *)

(** Identical chain entries imply identical prefixes.  When the digest is
    eight bytes, does not collide on the messages the two chains hash and never
    hits the seed, an entry of one sequence's chain equals an entry of another's
    only at the same position and after the same tokens. *)
Theorem equal_hashes_equal_prefixes digest t1 t2 bs seed hs1 hs2 k1 k2 h
    (Hdigest : digest_ok digest)
    (Hcoll : collision_free digest (hashed digest t1 bs seed ++ hashed digest t2 bs seed))
    (Hseed : seed_free digest (hashed digest t1 bs seed ++ hashed digest t2 bs seed) seed)
    (H1 : iter_block_hashes digest t1 bs seed = Ok hs1)
    (H2 : iter_block_hashes digest t2 bs seed = Ok hs2)
    (Hk1 : hs1 !! k1 = Some h) (Hk2 : hs2 !! k2 = Some h) :
  k1 = k2 ∧ take ((k1 + 1) * bs) t1 = take ((k1 + 1) * bs) t2.
Proof. by eapply chain_entry_prefix. Qed.

(** Extending the chain of a sequence over the tokens it has since produced
    gives, errors included, the chain of the whole sequence, of which the old
    chain is a prefix. *)
Theorem extend_is_incremental digest t1 t2 bs seed hs
    (Hpre : t1 `prefix_of` t2) (Hhs : iter_block_hashes digest t1 bs seed = Ok hs) :
  extend_block_hashes digest hs t2 bs seed = iter_block_hashes digest t2 bs seed ∧
  ∀ hs2, iter_block_hashes digest t2 bs seed = Ok hs2 → hs `prefix_of` hs2.
Proof.
  pose proof (extend_iter digest t1 t2 bs seed hs Hpre Hhs) as E. split; [done|].
  intros hs2 E2. rewrite E2 in E. unfold extend_block_hashes in E.
  apply bind_Ok in E as (_ & _ & (fresh & _ & [= <-])%bind_Ok). by exists fresh.
Qed.

(** Hashing succeeds exactly when every token of a complete block fits in 32
    bits, and then yields one 64-bit value per complete block; otherwise it
    raises [struct.error]. *)
Theorem hashing_total digest t bs seed (Hdigest : digest_ok digest) (Hbs : bs ≠ 0) :
  let tokens := take (length t / bs * bs) t in
  match iter_block_hashes digest t bs seed with
  | Ok hs => Forall is_token tokens ∧ length hs = length t / bs ∧ Forall is_hash hs
  | Err e => e = StructError ∧ ¬ Forall is_token tokens
  end.
Proof. by apply iter_cases. Qed.

(** ** Witnesses *)

(** A toy digest: the length of the message and a position-weighted sum. *)
Definition toy_digest (m : list Z) : list Z :=
  to_le 8 (foldr (λ b acc, (b + 1 + 257 * acc) mod 18446744073709551557)%Z 0%Z m).

Lemma toy_digest_ok : digest_ok toy_digest.
Proof.
  intros m. unfold toy_digest. split; [apply to_le_length|].
  generalize (foldr (λ b acc, (b + 1 + 257 * acc) mod 18446744073709551557)%Z 0%Z m) as z.
  generalize 8 as k. induction k as [|k IH]; intros z; constructor; [|apply IH].
  apply Z.mod_pos_bound. lia.
Qed.

Definition collision_free_b (digest : list Z → list Z) (ms : list (list Z)) : bool :=
  forallb (λ m1, forallb (λ m2, bool_decide (digest m1 = digest m2 → m1 = m2)) ms) ms.

Lemma collision_free_b_sound digest ms : collision_free_b digest ms = true → collision_free digest ms.
Proof.
  unfold collision_free_b. rewrite forallb_forall. intros Hf m1 m2 H1 H2.
  apply list_elem_of_In in H1, H2. specialize (Hf m1 H1). rewrite forallb_forall in Hf.
  by apply (bool_decide_unpack _), Is_true_true, Hf.
Qed.

Definition seed_free_b (digest : list Z → list Z) (ms : list (list Z)) (seed : Z) : bool :=
  forallb (λ m, bool_decide (of_le (digest m) ≠ seed_parent seed)) ms.

Lemma seed_free_b_sound digest ms seed : seed_free_b digest ms seed = true → seed_free digest ms seed.
Proof.
  unfold seed_free_b. rewrite forallb_forall. intros Hf m Hm. apply list_elem_of_In in Hm.
  by apply (bool_decide_unpack _), Is_true_true, Hf.
Qed.

(** Two prompts that share a first block and differ in the second. *)
Lemma equal_hashes_equal_prefixes_witness :
  ∃ h0 h1 h2, iter_block_hashes toy_digest [5; 6; 7; 8; 9]%Z 2 1 = Ok [h0; h1] ∧
    iter_block_hashes toy_digest [5; 6; 1; 8]%Z 2 1 = Ok [h0; h2] ∧ h1 ≠ h2 ∧
    take 2 [5; 6; 7; 8; 9]%Z = take 2 [5; 6; 1; 8]%Z.
Proof.
  do 3 eexists. split; [vm_compute; reflexivity|]. split; [vm_compute; reflexivity|].
  split; [done|].
  eapply (equal_hashes_equal_prefixes toy_digest [5; 6; 7; 8; 9]%Z [5; 6; 1; 8]%Z 2 1 _ _ 0 0).
  - apply toy_digest_ok.
  - apply collision_free_b_sound. vm_compute. reflexivity.
  - apply seed_free_b_sound. vm_compute. reflexivity.
  - vm_compute. reflexivity.
  - vm_compute. reflexivity.
  - reflexivity.
  - reflexivity.
Defined.

Lemma extend_is_incremental_witness :
  ∃ hs hs2, iter_block_hashes toy_digest [5; 6; 7]%Z 2 1 = Ok hs ∧
    extend_block_hashes toy_digest hs [5; 6; 7; 8]%Z 2 1 = Ok hs2 ∧ length hs2 = 2.
Proof.
  do 2 eexists. split; [vm_compute; reflexivity|]. split.
  - rewrite (proj1 (extend_is_incremental toy_digest [5; 6; 7]%Z [5; 6; 7; 8]%Z 2 1 _
      ltac:(by exists [8]%Z) ltac:(vm_compute; reflexivity))).
    vm_compute. reflexivity.
  - reflexivity.
Defined.

Lemma hashing_total_witness :
  ∃ hs, iter_block_hashes toy_digest [5; 6; 7]%Z 2 1 = Ok hs ∧ Forall is_hash hs.
Proof.
  pose proof (hashing_total toy_digest [5; 6; 7]%Z 2 1 toy_digest_ok ltac:(done)) as H.
  destruct (iter_block_hashes toy_digest [5; 6; 7]%Z 2 1) as [hs|e] eqn:E.
  - exists hs. split; [done|apply H].
  - vm_compute in E. discriminate.
Defined.
End Chain.
