(* ===== verification/PrefixCache.v ===== *)
(** * The prefix cache ([PrefixCache] of prefix_cache.py)

    The scheduler's view of the KV cache: hash chains of the live sequences on
    top of the coordinator, the capped lookup, commit of executed blocks and
    the block-table writes the executor has not been given yet. *)

From S2P Require Export Coordinator HashChain.

Module Cache.

(** [PrefixMatch] *)
Record PrefixMatch := Match {
  num_tokens : nat;
  blocks : list (list nat);
}.

(** [_Sequence] *)
Record Sequence_ := MkSeq {
  block_hashes : list Z;
  num_cached_tokens : nat;
  num_mapped_blocks : list nat;
}.

Record PrefixCache := MkCache {
  block_size : nat;
  hash_seed : Z;
  enable_caching : bool;
  config : Spec.KVCacheConfig;
  coordinator : Coord.KVCacheCoordinator;
  num_requests : nat;
  queried_tokens : nat;
  hit_tokens : nat;
  eviction_base : Z;
  sequences : gmap string Sequence_;
}.

Definition set_coordinator (c : Coord.KVCacheCoordinator) (s : PrefixCache) : PrefixCache :=
  MkCache (block_size s) (hash_seed s) (enable_caching s) (config s) c
    (num_requests s) (queried_tokens s) (hit_tokens s) (eviction_base s) (sequences s).
Definition set_sequences (m : gmap string Sequence_) (s : PrefixCache) : PrefixCache :=
  MkCache (block_size s) (hash_seed s) (enable_caching s) (config s) (coordinator s)
    (num_requests s) (queried_tokens s) (hit_tokens s) (eviction_base s) m.
Definition set_stats (requests queried hit : nat) (base : Z) (s : PrefixCache) : PrefixCache :=
  MkCache (block_size s) (hash_seed s) (enable_caching s) (config s) (coordinator s)
    requests queried hit base (sequences s).

Definition pool (s : PrefixCache) : Pool.BlockPool := Coord.pool (coordinator s).

(** [PrefixCache(num_blocks, block_size, kv_cache_config, hash_seed, enable_caching)] *)
Definition init (num_blocks block_size : nat) (kv_cache_config : option Spec.KVCacheConfig)
    (hash_seed : Z) (enable_caching : bool) : result PrefixCache :=
  _ ← rguard (bool_decide (1 ≤ block_size)) ValueError;
  config ←
    match kv_cache_config with
    | Some config => Ok config
    | None => Spec.homogeneous block_size 1 (0, 0) None
    end;
  pool ← Pool.init num_blocks block_size enable_caching;
  let coordinator := Coord.init pool (Spec.groups config) (Spec.hash_block_size config) in
  Ok (MkCache block_size hash_seed enable_caching config coordinator 0 0 0 0%Z ∅).

(** [stats.evictions] *)
Definition evictions (s : PrefixCache) : Z := (Pool.evictions (pool s) - eviction_base s)%Z.

(** ** Lookup and allocation *)

Definition lookup (block_hashes : list Z) (num_tokens : nat) (s : PrefixCache) :
    result (PrefixMatch * PrefixCache) :=
  let s := set_stats (S (num_requests s)) (queried_tokens s + num_tokens) (hit_tokens s)
    (eviction_base s) s in
  if decide (enable_caching s = false ∨ num_tokens < 1)
  then Ok (Match 0 ((λ _, []) <$> Spec.groups (config s)), s)
  else
    '(blocks, hit) ←
      Coord.find_longest_cache_hit block_hashes (num_tokens - 1) (coordinator s);
    let s := set_stats (num_requests s) (queried_tokens s) (hit_tokens s + hit)
      (eviction_base s) s in
    Ok (Match hit blocks, s).

Definition adopted_blocks (m : option PrefixMatch) : list (list nat) :=
  match m with
  | Some m => if decide (num_tokens m = 0) then [] else blocks m
  | None => []
  end.

Definition allocate (request_id : string) (num_tokens : nat) (m : option PrefixMatch)
    (s : PrefixCache) : result (bool * PrefixCache) :=
  '(ok, c) ← Coord.allocate request_id num_tokens (adopted_blocks m) (coordinator s);
  Ok (ok, set_coordinator c s).

(** The group an offloading tier may mirror. *)
Definition offloadable_group (s : PrefixCache) : option nat :=
  match Spec.groups (config s) with
  | [g] => if Spec.is_sliding (Spec.spec g) then None else Some 0
  | _ => None
  end.

(** [[(block_id, key) for group_id, block_id, key in fresh if group_id == group]] *)
Definition of_group (group : nat) (fresh : list (nat * nat * Z)) : list (nat * Z) :=
  omap (λ '(group_id, block_id, key),
    if decide (group_id = group) then Some (block_id, key) else None) fresh.

(** Index the executed blocks; the pairs the offloading tier mirrors. *)
Definition commit (request_id : string) (num_computed_tokens : nat) (s : PrefixCache) :
    result (list (nat * Z) * PrefixCache) :=
  match sequences s !! request_id with
  | None => Ok ([], s)
  | Some state =>
      if decide (num_computed_tokens ≤ num_cached_tokens state) then Ok ([], s)
      else
        '(fresh, c) ← Coord.cache_blocks request_id (block_hashes state) num_computed_tokens
          (coordinator s);
        let state := MkSeq (block_hashes state) num_computed_tokens (num_mapped_blocks state) in
        let s := set_sequences (<[request_id := state]> (sequences s)) (set_coordinator c s) in
        match offloadable_group s with
        | None => Ok ([] : list (nat * Z), s)
        | Some group =>
            Ok (of_group group fresh, s)
        end
  end.

Definition free (request_id : string) (s : PrefixCache) : result PrefixCache :=
  c ← Coord.free request_id (coordinator s);
  Ok (set_sequences (delete request_id (sequences s)) (set_coordinator c s)).

Definition reset (s : PrefixCache) : bool * PrefixCache :=
  let '(ok, p) := Pool.reset_prefix_cache (pool s) in
  let s := set_coordinator (Coord.set_pool p (coordinator s)) s in
  if ok then (true, set_stats 0 0 0 (Pool.evictions p) (set_sequences ∅ s))
  else (false, s).

(** ** Block-table writes *)

Definition block_ids (request_id : string) (s : PrefixCache) : list (list nat) :=
  Coord.block_ids request_id (coordinator s).

(** The loop over [zip(groups, held)]: the writes and the advanced cursors. *)
Fixpoint table_writes (groups : list Spec.KVCacheGroup) (held : list (list nat))
    (mapped : list nat) : result (list (nat * nat * list nat) * list nat) :=
  match groups, held, mapped with
  | [], [], _ => Ok ([], mapped)
  | g :: groups, blocks :: held, start :: mapped =>
      '(writes, mapped) ← table_writes groups held mapped;
      if decide (start < length blocks)
      then Ok ((Spec.group_id g, start, drop start blocks) :: writes, length blocks :: mapped)
      else Ok (writes, start :: mapped)
  | _ :: _, _ :: _, [] => Err IndexError
  | _, _, _ => Err ValueError
  end.

(** The cursors, created on first use. *)
Definition cursors (state : Sequence_) (groups : list Spec.KVCacheGroup) : list nat :=
  if decide (num_mapped_blocks state = []) then replicate (length groups) 0
  else num_mapped_blocks state.

Definition take_table_writes (request_id : string) (s : PrefixCache) :
    result (list (nat * nat * list nat) * PrefixCache) :=
  match sequences s !! request_id with
  | None => Ok ([], s)
  | Some state =>
      let groups := Spec.groups (config s) in
      '(writes, mapped) ←
        table_writes groups (block_ids request_id s) (cursors state groups);
      let state := MkSeq (block_hashes state) (num_cached_tokens state) mapped in
      Ok (writes, set_sequences (<[request_id := state]> (sequences s)) s)
  end.

(** ** Views *)

Definition num_committed_tokens (request_id : string) (s : PrefixCache) : nat :=
  match sequences s !! request_id with Some state => num_cached_tokens state | None => 0 end.
Definition tracked_hashes (request_id : string) (s : PrefixCache) : list Z :=
  match sequences s !! request_id with Some state => block_hashes state | None => [] end.
Definition num_blocks (s : PrefixCache) : nat := Pool.num_blocks (pool s).
Definition num_free_blocks (s : PrefixCache) : Z := Pool.num_free_blocks (pool s).
Definition num_cached_blocks (s : PrefixCache) : nat := Pool.num_cached_blocks (pool s).
Definition num_referenced_blocks (s : PrefixCache) : Z :=
  (Z.of_nat (length (filter (λ b, 0 < Pool.ref_cnt b)%Z (Pool.blocks (pool s)))) - 1)%Z.
Definition num_evictable_blocks (s : PrefixCache) : nat :=
  length (filter (λ b, Pool.ref_cnt b = 0%Z ∧ Pool.block_hash b ≠ None) (Pool.blocks (pool s))).

Section Hashing.
(** [hashlib.blake2b(message, digest_size=8).digest()] *)
Variable digest : list Z → list Z.

Definition hash_tokens (token_ids : list Z) (s : PrefixCache) : result (list Z) :=
  Chain.iter_block_hashes digest token_ids (block_size s) (hash_seed s).

(** The chain of a sequence, grown to [token_ids]. *)
Definition grow (state : Sequence_) (token_ids : list Z) (s : PrefixCache) : result Sequence_ :=
  hashes ← Chain.extend_block_hashes digest (block_hashes state) token_ids (block_size s)
    (hash_seed s);
  Ok (MkSeq hashes (num_cached_tokens state) (num_mapped_blocks state)).

Definition track (request_id : string) (token_ids : list Z) (s : PrefixCache) :
    result (list Z * PrefixCache) :=
  state ←
    match sequences s !! request_id with
    | None => hashes ← hash_tokens token_ids s; Ok (MkSeq hashes 0 [])
    | Some state => grow state token_ids s
    end;
  Ok (block_hashes state, set_sequences (<[request_id := state]> (sequences s)) s).

Definition observe (request_id : string) (token_ids : list Z) (s : PrefixCache) :
    result (list Z * PrefixCache) :=
  match sequences s !! request_id with
  | None => Ok ([], s)
  | Some state =>
      state ← grow state token_ids s;
      Ok (block_hashes state, set_sequences (<[request_id := state]> (sequences s)) s)
  end.

(** ** The invariant *)

(** [h] is an entry of the chain of a sequence in [hist], the token lists the
    cache has been shown. *)
Definition chain_value (s : PrefixCache) (hist : list (list Z)) (h : Z) : Prop :=
  ∃ ts hs k, ts ∈ hist ∧ hash_tokens ts s = Ok hs ∧ hs !! k = Some h.

(** The mapping cursors are behind what the request holds. *)
Definition mapped_ok (s : PrefixCache) (r : string) (state : Sequence_) : Prop :=
  (num_mapped_blocks state = [] ∨
    length (num_mapped_blocks state) = length (Spec.groups (config s))) ∧
  ∀ k n blocks, num_mapped_blocks state !! k = Some n →
    block_ids r s !! k = Some blocks → n ≤ length blocks.

Record wf (s : PrefixCache) (hist : list (list Z)) : Prop := {
  wf_coord : Coord.wf (coordinator s);
  wf_config : Coord.groups (coordinator s) = Spec.groups (config s) ∧
    Coord.hash_block_size (coordinator s) = Spec.hash_block_size (config s);
  wf_caching : Pool.enable_caching (pool s) = enable_caching s;
  wf_chains : ∀ r state, sequences s !! r = Some state →
    ∃ ts, ts ∈ hist ∧ hash_tokens ts s = Ok (block_hashes state);
  wf_indexed : ∀ i h, Pool.bhash (pool s) i = Some h → chain_value s hist h;
  wf_mapped : ∀ r state, sequences s !! r = Some state → mapped_ok s r state;
}.

(** A configuration [PrefixCache] may be built on. *)
Definition config_ok (c : Spec.KVCacheConfig) : Prop :=
  Spec.groups c ≠ [] ∧ Forall Coord.group_ok (Spec.groups c) ∧
  Forall (λ g, Spec.block_size (Spec.spec g) mod Spec.hash_block_size c = 0) (Spec.groups c).

Lemma cache_init_wf nb bs cfg seed ec s :
  (∀ c, cfg = Some c → config_ok c) → init nb bs cfg seed ec = Ok s → wf s [].
Proof.
  unfold init, rguard. intros Hcfg. case_bool_decide as Hbs; [|done]. cbn [mbind result_bind].
  intros (c & Hc & (p & Hp & [= <-])%bind_Ok)%bind_Ok.
  assert (Hok : config_ok c).
  { destruct cfg as [c'|]; [injection Hc as ->; by apply Hcfg|].
    unfold Spec.homogeneous, Spec.make_spec in Hc. apply bind_Ok in Hc as (x & Hx & Hc).
    apply bind_Ok in Hx as (? & _ & [= <-]). apply Spec.make_config_Ok in Hc as (Hg & Hd).
    unfold config_ok. unfold Spec.divides_hash_blocks in Hd. rewrite Hg in Hd |- *.
    split_and!; [done|by repeat constructor|]. apply Forall_forall. intros g Hin. by apply Hd. }
  destruct Hok as (H1 & H2 & H3).
  destruct (Pool.init_Ok _ _ _ _ Hp) as (Hwf & _ & _ & _ & _ & _ & He & Hb). split; try done.
  - by eapply Coord.coord_init_wf.
  - cbn. intros i h. unfold pool; cbn. by rewrite Hb.
Qed.

Lemma init_keys nb bs cfg seed ec s :
  init nb bs cfg seed ec = Ok s →
  block_size s = bs ∧ hash_seed s = seed ∧
  match cfg with Some c => config s = c | None => Spec.hash_block_size (config s) = bs end.
Proof.
  unfold init, rguard. case_bool_decide as Hbs; [|done]. cbn [mbind result_bind].
  intros (c & Hc & (p & _ & [= <-])%bind_Ok)%bind_Ok. cbn. split_and!; [done|done|].
  destruct cfg as [c'|]; [congruence|].
  unfold Spec.homogeneous in Hc. apply bind_Ok in Hc as (x & _ & Hc).
  unfold Spec.make_config in Hc. apply bind_Ok in Hc as (? & _ & Hc).
  by apply bind_Ok in Hc as (? & _ & [= <-]).
Qed.

(** *** Sequences and chains *)

Lemma hash_tokens_same s s' ts :
  block_size s' = block_size s → hash_seed s' = hash_seed s →
  hash_tokens ts s' = hash_tokens ts s.
Proof. unfold hash_tokens. by intros -> ->. Qed.

(** [toks] continues what request [r] was tracked with. *)
Definition continues (s : PrefixCache) (r : string) (toks : list Z) : Prop :=
  ∀ state, sequences s !! r = Some state →
    ∃ ts, hash_tokens ts s = Ok (block_hashes state) ∧ ts `prefix_of` toks.

Lemma grow_Ok s state toks state' ts :
  hash_tokens ts s = Ok (block_hashes state) → ts `prefix_of` toks →
  grow state toks s = Ok state' →
  hash_tokens toks s = Ok (block_hashes state') ∧
  num_mapped_blocks state' = num_mapped_blocks state ∧
  num_cached_tokens state' = num_cached_tokens state.
Proof.
  unfold grow, hash_tokens. intros Hts Hp (hs & Hg & [= <-])%bind_Ok. cbn.
  by rewrite (Chain.extend_iter _ _ _ _ _ _ Hp Hts) in Hg.
Qed.

(** A sequence replaced by one with a chain of the history. *)
Lemma wf_sequence s hist hist' r state :
  wf s hist → hist ⊆ hist' →
  (∃ ts, ts ∈ hist' ∧ hash_tokens ts s = Ok (block_hashes state)) → mapped_ok s r state →
  wf (set_sequences (<[r := state]> (sequences s)) s) hist'.
Proof.
  intros [H1 H2 H3 H4 H5 H6] Hsub Hst Hm. split; try done; cbn.
  - intros r' state'. destruct (decide (r' = r)) as [->|Hn].
    + rewrite lookup_insert_eq. by intros [= <-].
    + rewrite lookup_insert_ne by done. intros (ts & ? & ?)%H4. exists ts. split; [by apply Hsub|done].
  - intros i h Hi. destruct (H5 i h Hi) as (ts & hs' & k & ? & ? & ?). exists ts, hs', k. split_and!; [by apply Hsub|done|done].
  - intros r' state'. destruct (decide (r' = r)) as [->|Hn].
    + rewrite lookup_insert_eq. by intros [= <-].
    + rewrite lookup_insert_ne by done. apply H6.
Qed.

Lemma track_spec s hist r toks hs s' :
  wf s hist → continues s r toks → track r toks s = Ok (hs, s') →
  wf s' (toks :: hist) ∧ hash_tokens toks s = Ok hs ∧
  coordinator s' = coordinator s ∧ tracked_hashes r s' = hs.
Proof.
  intros Hwf Hc. unfold track. intros (state & Hst & [= <- <-])%bind_Ok.
  assert (Hhs : hash_tokens toks s = Ok (block_hashes state) ∧ mapped_ok s r state).
  { destruct (sequences s !! r) as [st|] eqn:E.
    - destruct (Hc st E) as (ts & Hts & Hp).
      destruct (grow_Ok s st toks state ts Hts Hp Hst) as (? & Hm & _). split; [done|].
      unfold mapped_ok. rewrite Hm. by apply (wf_mapped _ _ Hwf).
    - apply bind_Ok in Hst as (hs & Hhs & [= <-]). split; [done|].
      split; [by left|]. intros k n blocks. cbn. by rewrite lookup_nil. }
  destruct Hhs as [Hhs Hm]. split_and!; try done.
  - apply (wf_sequence s hist); [done|set_solver| |done]. exists toks. split; [by left|done].
  - unfold tracked_hashes. cbn. by rewrite lookup_insert_eq.
Qed.

Lemma observe_spec s hist r toks hs s' :
  wf s hist → continues s r toks → observe r toks s = Ok (hs, s') →
  wf s' (toks :: hist) ∧ coordinator s' = coordinator s ∧
  (is_Some (sequences s !! r) → hash_tokens toks s = Ok hs ∧ tracked_hashes r s' = hs).
Proof.
  intros Hwf Hc. unfold observe. destruct (sequences s !! r) as [st|] eqn:E.
  - intros Hob. assert (track r toks s = Ok (hs, s')) as Ht by (unfold track; by rewrite E).
    apply (track_spec _ _ _ _ _ _ Hwf Hc) in Ht as (? & ? & ? & ?). done.
  - intros [= <- <-]. split_and!; [|done|by intros []].
    destruct Hwf as [H1 H2 H3 H4 H5 H6]. split; try done.
    + intros r' st' (ts & ? & ?)%H4. exists ts. split; [by right|done].
    + intros i h Hi. destruct (H5 i h Hi) as (ts & hs' & k & ? & ? & ?). exists ts, hs', k. split_and!; [by right|done|done].
Qed.

(** *** Operations of the coordinator *)

(** Block lists only grow. *)
Definition longer (c c' : Coord.KVCacheCoordinator) : Prop :=
  ∀ r k blocks', Coord.block_ids r c' !! k = Some blocks' →
    ∃ blocks, Coord.block_ids r c !! k = Some blocks ∧ length blocks ≤ length blocks'.

Lemma wf_set_coordinator s hist c' :
  wf s hist → Coord.wf c' → Coord.same_config (coordinator s) c' →
  longer (coordinator s) c' →
  (∀ i h, Pool.bhash (Coord.pool c') i = Some h →
    Pool.bhash (pool s) i = Some h ∨ chain_value s hist h) →
  wf (set_coordinator c' s) hist.
Proof.
  intros [H1 [H2 H2'] H3 H4 H5 H6] Hc (G1 & G2 & G3) Hl Hb. split; try done; cbn.
  - by rewrite G1, G2.
  - destruct G3 as (_ & _ & G3). unfold pool in *; cbn. by rewrite G3.
  - intros i h Hi. destruct (Hb i h Hi) as [Hi2|Hi2]; [exact (H5 i h Hi2)|exact Hi2].
  - intros r state [Hm1 Hm2]%H6. split; [done|]. cbn. intros k n blocks Hk Hbl.
    apply Hl in Hbl as (old & Hold & Hle). specialize (Hm2 k n old Hk Hold). lia.
Qed.

Lemma longer_refl c : longer c c.
Proof. intros r k blocks Hk. by exists blocks. Qed.

Lemma allocate_longer c r adopted n b c' :
  Coord.wf c → Coord.adoptable c r adopted → Coord.allocate r n adopted c = Ok (b, c') →
  longer c c'.
Proof.
  intros Hwf Had E.
  destruct (Coord.allocate_spec c r adopted n Hwf Had) as (b' & c2 & E' & Hwf' & Hcf & _ & Ho & Hb).
  assert (b' = b ∧ c2 = c') as [-> ->] by (split; congruence).
  intros r' k blocks' Hk. destruct (decide (r' = r)) as [->|Hn]; cycle 1.
  { exists blocks'. split; [|done]. unfold Coord.block_ids in *.
    rewrite <- (Ho r' Hn). by destruct Hcf as (<- & _). }
  destruct b; [|exists blocks'; by rewrite <- (Coord.refused_blocks _ _ _ Hb)].
  destruct Hb as (state & Hst & Hg). unfold Coord.block_ids in Hk. rewrite Hst in Hk.
  assert (is_Some (Coord.groups c !! k)) as [g Hgk].
  { apply lookup_lt_is_Some. apply lookup_lt_Some in Hk.
    destruct (Coord.wf_shape _ Hwf' r state Hst) as [Hl _]. destruct Hcf as (Hgs & _). congruence. }
  destruct (Hg k g Hgk) as (old & new & Hold & Hnew & _). rewrite Hnew in Hk. injection Hk as <-.
  unfold Coord.base_blocks in Hold. case_decide as Hd.
  - exists old. rewrite <- (Coord.tracked_block_ids c r Hwf). split; [done|].
    rewrite length_app. lia.
  - destruct Had as [?|(_ & Hempty & _)]; [done|]. exists [].
    rewrite (Coord.block_ids_empty c r Hwf Hempty), list_lookup_fmap, Hgk.
    split; [done|]. cbn. lia.
Qed.

Lemma allocate_wf s hist r n m b s' :
  wf s hist → Coord.adoptable (coordinator s) r (adopted_blocks m) →
  allocate r n m s = Ok (b, s') → wf s' hist.
Proof.
  intros Hwf Had. unfold allocate. intros ([ok c'] & E & [= <- <-])%bind_Ok.
  pose proof (wf_coord _ _ Hwf) as Hc.
  pose proof (allocate_longer _ _ _ _ _ _ Hc Had E) as Hl.
  destruct (Coord.allocate_spec _ r _ n Hc Had) as (b' & c2 & E' & Hwf' & Hcf & Hs & _).
  assert (c2 = c') as -> by congruence. apply wf_set_coordinator; try done.
  intros i h Hi. left. by apply Hs.
Qed.

Lemma lookup_inv s hashes n m s' :
  lookup hashes n s = Ok (m, s') →
  coordinator s' = coordinator s ∧ sequences s' = sequences s ∧ config s' = config s ∧
  block_size s' = block_size s ∧ hash_seed s' = hash_seed s ∧ enable_caching s' = enable_caching s ∧
  (num_tokens m = 0 ∧ blocks m = (λ _, []) <$> Spec.groups (config s) ∨
   1 ≤ n ∧ Coord.find_longest_cache_hit hashes (n - 1) (coordinator s) = Ok (blocks m, num_tokens m)).
Proof.
  unfold lookup. cbn [enable_caching set_stats]. case_decide as Hd.
  - intros [= <- <-]. cbn. split_and!; try done. by left.
  - intros ([bl hit] & E & [= <- <-])%bind_Ok. cbn. split_and!; try done. right.
    split; [lia|done].
Qed.

Lemma lookup_wf s hist hashes n m s' : wf s hist → lookup hashes n s = Ok (m, s') → wf s' hist.
Proof.
  unfold lookup. intros [H1 H2 H3 H4 H5 H6]. case_decide.
  - intros [= _ <-]. by split.
  - intros ([bl hit] & _ & [= _ <-])%bind_Ok. by split.
Qed.

Lemma lookup_adoptable s hist hashes n m s' r :
  wf s hist → lookup hashes n s = Ok (m, s') →
  Coord.holds_of (Coord.requests (coordinator s)) r = [] →
  Coord.adoptable (coordinator s') r (adopted_blocks (Some m)).
Proof.
  intros Hwf (-> & _ & _ & _ & _ & _ & Hm)%lookup_inv He. unfold adopted_blocks.
  case_decide as Hz; [by left|]. destruct Hm as [[? _]|[_ Hf]]; [done|].
  destruct (Coord.hit_valid _ _ _ _ _ (wf_coord _ _ Hwf) Hf) as [Hl Hv]. by right.
Qed.

Lemma own_hash_value s hist r state gs pg hbs n i h :
  wf s hist → sequences s !! r = Some state →
  Coord.own_hash gs pg hbs (block_hashes state) n i h → chain_value s hist h.
Proof.
  intros Hwf Hst (k & g & held & j & _ & _ & _ & _ & Hh).
  destruct (wf_chains _ _ Hwf r state Hst) as (ts & Hin & Hts). by eexists ts, _, _.
Qed.

Lemma commit_spec s hist r n :
  wf s hist →
  ∃ fresh s', commit r n s = Ok (fresh, s') ∧ wf s' hist ∧
    (∀ b h, (b, h) ∈ fresh → Coord.gains (pool s) (pool s') b) ∧
    (∀ r', block_ids r' s' = block_ids r' s) ∧
    num_committed_tokens r s ≤ num_committed_tokens r s'.
Proof.
  intros Hwf. unfold commit. destruct (sequences s !! r) as [state|] eqn:E; cycle 1.
  { exists [], s. split_and!; try done. by intros b h ?%not_elem_of_nil. }
  case_decide as Hn.
  { exists [], s. split_and!; try done. by intros b h ?%not_elem_of_nil. }
  destruct (Coord.cache_blocks_spec (coordinator s) r (block_hashes state) n (wf_coord _ _ Hwf))
    as (fresh & c' & Ec & Hc' & Hcf & Hg & Hids & _ & Hb & Hgain).
  rewrite Ec. cbn [mbind result_bind].
  set (st := MkSeq _ _ _). set (s1 := set_sequences _ (set_coordinator c' s)).
  assert (Hwf1 : wf s1 hist).
  { assert (Hwf0 : wf (set_coordinator c' s) hist).
    { apply wf_set_coordinator; try done.
      - intros r' k bl Hk. exists bl. by rewrite <- Hids.
      - intros i h [Hi|Hi]%Hb; [by left|right]. by eapply own_hash_value. }
    apply (wf_sequence (set_coordinator c' s) hist); [done|done| |].
    - destruct (wf_chains _ _ Hwf0 r state E) as (ts & ? & ?). by exists ts.
    - apply (wf_mapped _ _ Hwf0 r state E). }
  assert (Hcom : num_committed_tokens r s ≤ num_committed_tokens r s1).
  { unfold num_committed_tokens. cbn. rewrite lookup_insert_eq, E. cbn. lia. }
  assert (Hids1 : ∀ r', block_ids r' s1 = block_ids r' s) by (intros r'; apply Hids).
  destruct (offloadable_group s1) as [g|]; eexists _, s1; (split; [done|]); split_and!; try done.
  - intros b h Hin. apply list_elem_of_omap in Hin as ([[j b'] h'] & Hin & Hd).
    case_decide; [|done]. injection Hd as -> ->. by eapply Hgain.
  - by intros b h ?%not_elem_of_nil.
Qed.

Lemma commit_sequences s r n fresh s' r' state' :
  commit r n s = Ok (fresh, s') → sequences s' !! r' = Some state' →
  ∃ state, sequences s !! r' = Some state ∧ block_hashes state' = block_hashes state.
Proof.
  unfold commit. destruct (sequences s !! r) as [state|] eqn:E; [|intros [= _ <-]; by exists state'].
  case_decide; [intros [= _ <-]; by exists state'|].
  intros ([f c'] & _ & Hs)%bind_Ok.
  assert (s' = set_sequences (<[r := MkSeq (block_hashes state) n (num_mapped_blocks state)]>
    (sequences s)) (set_coordinator c' s)) as ->.
  { by destruct (offloadable_group _); injection Hs as _ <-. }
  cbn. destruct (decide (r' = r)) as [->|Hne].
  - rewrite lookup_insert_eq. intros [= <-]. by exists state.
  - rewrite lookup_insert_ne by done. by exists state'.
Qed.

Lemma free_wf s hist r s' : wf s hist → free r s = Ok s' → wf s' hist.
Proof.
  intros Hwf. unfold free. intros (c' & E & [= <-])%bind_Ok.
  destruct (Coord.free_spec (coordinator s) r (wf_coord _ _ Hwf)) as (c2 & E' & Hc' & Hcf & Hr & Hk & _).
  assert (c2 = c') as -> by congruence. destruct Hwf as [H1 [H2 H2'] H3 H4 H5 H6].
  destruct Hcf as (G1 & G2 & _ & _ & G3). split; cbn.
  - done.
  - by rewrite G1, G2.
  - unfold pool in *; cbn. by rewrite G3.
  - intros r' state. rewrite lookup_delete_Some. intros [_ ?]. by eapply H4.
  - intros i h Hi. unfold pool in Hi; cbn in Hi. rewrite (Pool.keeps_bhash _ _ Hk) in Hi.
    exact (H5 i h Hi).
  - intros r' state. rewrite lookup_delete_Some. intros [Hne [Hm1 Hm2]%H6]. split; [done|].
    intros k n bl Hn Hbl. apply (Hm2 k n bl Hn). revert Hbl.
    unfold block_ids, Coord.block_ids; cbn. by rewrite Hr, lookup_delete_ne, G1.
Qed.

Lemma reset_wf s hist b s' : wf s hist → reset s = (b, s') → wf s' hist.
Proof.
  intros Hwf. unfold reset. destruct (Pool.reset_prefix_cache (pool s)) as [ok p] eqn:E.
  pose proof (Coord.reset_step_wf _ _ _ (wf_coord _ _ Hwf) E) as Hc.
  pose proof (Pool.reset_spec (pool s) (Coord.wf_pool _ (wf_coord _ _ Hwf))) as Hs.
  rewrite E in Hs. destruct Hs as (_ & _ & Hs). destruct Hwf as [H1 H2 H3 H4 H5 H6].
  destruct ok; intros [= <- <-].
  - destruct Hs as ((_ & _ & Hg) & _ & Hh & _). split; cbn; try done.
    + unfold pool in *; cbn. by rewrite Hg.
    + intros i h. unfold pool; cbn. by rewrite Hh.
  - split; cbn; try done.
    + unfold pool in *; cbn. by rewrite Hs.
    + intros i h. unfold pool; cbn. rewrite Hs. apply H5.
Qed.

(** *** Block tables *)

(** The executor's side: a write points a group's table at blocks from a
    position on. *)
Definition apply_write (w : nat * nat * list nat) (t : nat → list nat) : nat → list nat :=
  λ g, if decide (g = w.1.1) then take w.1.2 (t g) ++ w.2 else t g.
Definition apply_writes (ws : list (nat * nat * list nat)) (t : nat → list nat) : nat → list nat :=
  foldl (λ t w, apply_write w t) t ws.

Definition group_ids (gs : list Spec.KVCacheGroup) : list nat := Spec.group_id <$> gs.

(** [t] holds, for each group, the blocks its cursor has passed. *)
Definition in_sync (gs : list Spec.KVCacheGroup) (held : list (list nat)) (mapped : list nat)
    (t : nat → list nat) : Prop :=
  ∀ k g bl n, gs !! k = Some g → held !! k = Some bl → mapped !! k = Some n →
    t (Spec.group_id g) = take n bl.

Lemma apply_writes_other ws t g :
  Forall (λ w, w.1.1 ≠ g) ws → apply_writes ws t g = t g.
Proof.
  intros Hf. revert t. induction Hf as [|w ws Hw _ IH]; intros t; [done|]. cbn.
  unfold apply_writes in IH. rewrite IH. unfold apply_write. by rewrite decide_False.
Qed.

Lemma table_writes_spec gs held mapped :
  NoDup (group_ids gs) → length held = length gs → length mapped = length gs →
  (∀ k n bl, mapped !! k = Some n → held !! k = Some bl → n ≤ length bl) →
  ∃ ws, table_writes gs held mapped = Ok (ws, length <$> held) ∧
    Forall (λ w, w.1.1 ∈ group_ids gs) ws ∧
    ∀ t, in_sync gs held mapped t → in_sync gs held (length <$> held) (apply_writes ws t).
Proof.
  revert held mapped. induction gs as [|g gs IH]; intros [|bl held] [|n mapped] Hnd Hl1 Hl2 Hle;
    try done; cbn [table_writes].
  { exists []. split_and!; [done|by constructor|done]. }
  apply NoDup_cons in Hnd as [Hg Hnd]. injection Hl1 as Hl1. injection Hl2 as Hl2.
  destruct (IH held mapped Hnd Hl1 Hl2) as (ws & -> & Hws & Hsync).
  { intros k. apply (Hle (S k)). }
  cbn [mbind result_bind fmap list_fmap].
  assert (Hn : n ≤ length bl) by (by apply (Hle 0)).
  assert (Hfresh : Forall (λ w, w.1.1 ≠ Spec.group_id g) ws).
  { apply (Forall_impl _ _ _ Hws). cbn. intros w Hw E. apply Hg. by rewrite <- E. }
  assert (Hws' : Forall (λ w, w.1.1 ∈ group_ids (g :: gs)) ws).
  { apply (Forall_impl _ _ _ Hws). cbn. intros w Hw. by right. }
  case_decide as Hlt.
  - eexists. split; [done|]. split; [constructor; [by left|done]|]. intros t Ht.
    intros [|k] g' bl' m; cbn.
    + intros [= <-] [= <-] [= <-]. change (foldl _ _ ws) with
        (apply_writes ws (apply_write (Spec.group_id g, n, drop n bl) t)).
      rewrite apply_writes_other by done. unfold apply_write; cbn. rewrite decide_True by done.
      rewrite (Ht 0 g bl n) by done. rewrite take_take, Nat.min_id, take_drop.
      by rewrite firstn_all.
    + apply (Hsync (apply_write (Spec.group_id g, n, drop n bl) t)).
      intros k' g'' bl'' m' H1 H2 H3. unfold apply_write; cbn. rewrite decide_False.
      * by apply (Ht (S k') g'' bl'' m').
      * intros E. apply Hg. rewrite <- E. apply list_elem_of_lookup. exists k'.
        change ((Spec.group_id <$> gs) !! k' = Some (Spec.group_id g'')).
        by rewrite list_lookup_fmap, H1.
  - assert (n = length bl) as -> by lia. exists ws. split_and!; [done..|]. intros t Ht.
    intros [|k] g' bl' m; cbn.
    + intros [= <-] [= <-] [= <-]. rewrite apply_writes_other by done. by apply (Ht 0).
    + apply (Hsync t). intros k' g'' bl'' m'. apply (Ht (S k')).
Qed.

Lemma table_writes_done gs held :
  length held = length gs → table_writes gs held (length <$> held) = Ok ([], length <$> held).
Proof.
  revert held. induction gs as [|g gs IH]; intros [|bl held] Hl; try done.
  injection Hl as Hl. cbn [table_writes fmap list_fmap]. change (list_fmap _ _ length held) with (length <$> held).
  rewrite IH by done. cbn. by rewrite decide_False by lia.
Qed.

Lemma cursors_lookup state gs k n :
  cursors state gs !! k = Some n → n = 0 ∨ num_mapped_blocks state !! k = Some n.
Proof.
  unfold cursors. case_decide; [|by right]. intros [-> _]%lookup_replicate. by left.
Qed.

Lemma block_ids_length s hist r :
  wf s hist → length (block_ids r s) = length (Spec.groups (config s)).
Proof.
  intros Hwf. destruct (wf_config _ _ Hwf) as [Hg _]. rewrite <- Hg.
  unfold block_ids, Coord.block_ids. destruct (Coord.requests _ !! r) as [state|] eqn:E.
  - apply (Coord.wf_shape _ (wf_coord _ _ Hwf) r state E).
  - by rewrite length_fmap.
Qed.

Lemma take_table_writes_spec s hist r :
  wf s hist → NoDup (group_ids (Spec.groups (config s))) →
  ∃ ws s', take_table_writes r s = Ok (ws, s') ∧ wf s' hist ∧ coordinator s' = coordinator s ∧
    config s' = config s ∧
    match sequences s !! r with
    | None => ws = [] ∧ s' = s
    | Some state =>
        (∃ state', sequences s' !! r = Some state' ∧
          num_mapped_blocks state' = length <$> block_ids r s) ∧
        ∀ t, in_sync (Spec.groups (config s)) (block_ids r s)
            (cursors state (Spec.groups (config s))) t →
          in_sync (Spec.groups (config s)) (block_ids r s) (length <$> block_ids r s)
            (apply_writes ws t)
    end.
Proof.
  intros Hwf Hnd. unfold take_table_writes.
  destruct (sequences s !! r) as [state|] eqn:E; [|by exists [], s].
  destruct (wf_mapped _ _ Hwf r state E) as [Hm1 Hm2].
  pose proof (block_ids_length s hist r Hwf) as Hlen.
  destruct (table_writes_spec (Spec.groups (config s)) (block_ids r s)
    (cursors state (Spec.groups (config s)))) as (ws & -> & _ & Hsync); try done.
  { unfold cursors. case_decide; [by rewrite length_replicate|naive_solver]. }
  { intros k n bl [->|Hk]%cursors_lookup Hbl; [lia|]. by eapply Hm2. }
  cbn [mbind result_bind]. eexists ws, _. split; [done|]. split_and!; try done.
  - apply (wf_sequence s hist); [done|done| |].
    + apply (wf_chains _ _ Hwf r state E).
    + split; cbn; [right; by rewrite length_fmap|]. intros k n bl.
      rewrite list_lookup_fmap. intros Hn Hbl. rewrite Hbl in Hn. injection Hn as <-. done.
  - eexists. cbn. by rewrite lookup_insert_eq.
Qed.

(** ** Reachable caches *)

(** One call on the cache, with the token lists it has been shown so far.  A
    live request is only ever shown continuations of its own tokens, and only a
    request that holds nothing adopts a match. *)
Inductive step : PrefixCache * list (list Z) → PrefixCache * list (list Z) → Prop :=
  | step_track s hist r toks hs s' :
      continues s r toks → track r toks s = Ok (hs, s') → step (s, hist) (s', toks :: hist)
  | step_observe s hist r toks hs s' :
      continues s r toks → observe r toks s = Ok (hs, s') → step (s, hist) (s', toks :: hist)
  | step_admit s hist r hashes n m s1 k b s' :
      lookup hashes n s = Ok (m, s1) →
      Coord.holds_of (Coord.requests (coordinator s)) r = [] →
      allocate r k (Some m) s1 = Ok (b, s') → step (s, hist) (s', hist)
  | step_extend s hist r k b s' : allocate r k None s = Ok (b, s') → step (s, hist) (s', hist)
  | step_commit s hist r n fresh s' : commit r n s = Ok (fresh, s') → step (s, hist) (s', hist)
  | step_free s hist r s' : free r s = Ok s' → step (s, hist) (s', hist)
  | step_reset s hist b s' : reset s = (b, s') → step (s, hist) (s', hist)
  | step_writes s hist r ws s' :
      NoDup (group_ids (Spec.groups (config s))) →
      take_table_writes r s = Ok (ws, s') → step (s, hist) (s', hist).

Definition same_keys (s s' : PrefixCache) : Prop :=
  block_size s' = block_size s ∧ hash_seed s' = hash_seed s ∧ config s' = config s.

Lemma cache_step_wf x y : step x y → wf x.1 x.2 → wf y.1 y.2.
Proof.
  destruct 1 as [s hist r toks hs s' Hc E|s hist r toks hs s' Hc E|s hist r hashes n m s1 k b s' El Eh Ea
    |s hist r k b s' E|s hist r n f s' E|s hist r s' E|s hist b s' E|s hist r ws s' Hnd E];
    cbn; intros Hwf.
  - by eapply track_spec.
  - by eapply observe_spec.
  - apply (allocate_wf s1 hist r k (Some m) b);
      [by eapply lookup_wf|by eapply lookup_adoptable|done].
  - apply (allocate_wf s hist r k None b); [done|by left|done].
  - destruct (commit_spec s hist r n Hwf) as (f' & s2 & E' & Hwf' & _). congruence.
  - by eapply free_wf.
  - by eapply reset_wf.
  - destruct (take_table_writes_spec s hist r Hwf Hnd) as (ws' & s2 & E' & Hwf' & _). congruence.
Qed.

Lemma step_keys x y : step x y → same_keys x.1 y.1.
Proof.
  destruct 1 as [s hist r toks hs s' Hc E|s hist r toks hs s' Hc E|s hist r hashes n m s1 k b s' El Eh Ea
    |s hist r k b s' E|s hist r n f s' E|s hist r s' E|s hist b s' E|s hist r ws s' Hnd E]; cbn; unfold same_keys.
  - unfold track in E. by apply bind_Ok in E as (? & _ & [= _ <-]).
  - unfold observe in E. destruct (sequences s !! r); [|by injection E as _ <-].
    by apply bind_Ok in E as (? & _ & [= _ <-]).
  - apply lookup_inv in El as (_ & _ & H1 & H2 & H3 & _). unfold allocate in Ea.
    by apply bind_Ok in Ea as ([? ?] & _ & [= _ <-]).
  - unfold allocate in E. by apply bind_Ok in E as ([? ?] & _ & [= _ <-]).
  - unfold commit in E. destruct (sequences s !! r); [|by injection E as _ <-].
    case_decide; [by injection E as _ <-|]. apply bind_Ok in E as ([? ?] & _ & E).
    destruct (offloadable_group _); by injection E as _ <-.
  - unfold free in E. by apply bind_Ok in E as (? & _ & [= <-]).
  - unfold reset in E. destruct (Pool.reset_prefix_cache _) as [[] ?]; by injection E as _ <-.
  - unfold take_table_writes in E. destruct (sequences s !! r); [|by injection E as _ <-].
    by apply bind_Ok in E as ([? ?] & _ & [= _ <-]).
Qed.

Lemma cache_reach_wf x y : rtc step x y → wf x.1 x.2 → wf y.1 y.2 ∧ same_keys x.1 y.1.
Proof.
  induction 1 as [x|x y z Hxy Hyz IH]; intros Hwf; [done|].
  destruct (IH (cache_step_wf _ _ Hxy Hwf)) as [Hz (A1 & A2 & A3)].
  destruct (step_keys _ _ Hxy) as (B1 & B2 & B3). split; [done|]. split_and!; congruence.
Qed.

(** The messages behind every chain of a history. *)
Definition all_hashed (s : PrefixCache) (hist : list (list Z)) : list (list Z) :=
  mjoin ((λ ts, Chain.hashed digest ts (block_size s) (hash_seed s)) <$> hist).

Lemma all_hashed_in s hist ts :
  ts ∈ hist → Chain.hashed digest ts (block_size s) (hash_seed s) ⊆ all_hashed s hist.
Proof.
  intros Hin m Hm. unfold all_hashed. apply list_elem_of_join.
  exists (Chain.hashed digest ts (block_size s) (hash_seed s)). split; [done|].
  apply list_elem_of_fmap. by exists ts.
Qed.

(** A served block was indexed for the same tokens. *)
Lemma served_same_prefix s hist prompt hs j b h :
  wf s hist → Chain.digest_ok digest →
  Chain.collision_free digest (all_hashed s (prompt :: hist)) →
  Chain.seed_free digest (all_hashed s (prompt :: hist)) (hash_seed s) →
  hash_tokens prompt s = Ok hs → hs !! j = Some h → Pool.bhash (pool s) b = Some h →
  ∃ ts, ts ∈ hist ∧
    take ((j + 1) * block_size s) ts = take ((j + 1) * block_size s) prompt.
Proof.
  intros Hwf Hd Hc Hs Hp Hj Hb.
  destruct (wf_indexed _ _ Hwf b h Hb) as (ts & hs' & k & Hin & Hts & Hk).
  exists ts. split; [done|].
  assert (Hsub : ∀ m, m ∈ Chain.hashed digest prompt (block_size s) (hash_seed s) ++
      Chain.hashed digest ts (block_size s) (hash_seed s) → m ∈ all_hashed s (prompt :: hist)).
  { intros m [Hm|Hm]%elem_of_app; revert m Hm; apply all_hashed_in; set_solver. }
  destruct (Chain.chain_entry_prefix digest prompt ts (block_size s) (hash_seed s) hs hs' j k h)
    as [_ E]; try done.
  - intros m1 m2 H1 H2. apply Hc; by apply Hsub.
  - intros m Hm. by apply Hs, Hsub.
Qed.
Lemma hit_bound s hashes max_length p hbs hit :
  1 ≤ Spec.block_size s → Spec.find_longest_cache_hit s hashes max_length p hbs = Ok hit →
  length hit * Spec.block_size s ≤ max_length.
Proof.
  intros Hbs Hf. destruct hit as [|b hit]; [cbn; lia|].
  destruct (lookup_lt_is_Some_2 (b :: hit) (length hit)) as [x Hx]; [cbn; lia|].
  destruct (Spec.find_hit_entries _ _ _ _ _ _ _ _ Hbs Hf Hx) as [Hle _]. cbn. lia.
Qed.

(** What a lookup returns on a well-formed cache. *)
Lemma lookup_spec s hist hashes n m s' :
  wf s hist → lookup hashes n s = Ok (m, s') →
  num_tokens m ≤ n - 1 ∧
  ∀ k g bl i b, Spec.groups (config s) !! k = Some g → blocks m !! k = Some bl → bl !! i = Some b →
    (i + 1) * Spec.block_size (Spec.spec g) ≤ n - 1 ∧
    (b = Pool.NULL_BLOCK_ID ∨ ∃ r h, 1 ≤ r ∧
      Spec.block_size (Spec.spec g) = r * Spec.hash_block_size (config s) ∧
      hashes !! (r - 1 + i * r) = Some h ∧ Pool.bhash (pool s) b = Some h).
Proof.
  intros Hwf (_ & _ & _ & _ & _ & _ & Hm)%lookup_inv.
  destruct Hm as [[Hz Hbl]|[Hn Hf]].
  { split; [lia|]. intros k g bl i b Hk. rewrite Hbl, list_lookup_fmap, Hk. by intros [= <-]. }
  destruct (wf_config _ _ Hwf) as [Hg Hh]. pose proof (wf_coord _ _ Hwf) as Hc.
  pose proof (proj2 (Coord.wf_groups _ Hc)) as Hok. rewrite Forall_forall in Hok.
  destruct (Coord.find_longest_cache_hit_inv _ _ _ _ _ (proj2 (Coord.wf_groups _ Hc)) Hf)
    as (Hlen & _ & Hk). split.
  - pose proof (proj1 (Coord.wf_groups _ Hc)) as Hne.
    destruct (Coord.groups (coordinator s)) as [|g gs] eqn:Eg; [done|].
    destruct (Hk 0 g eq_refl) as (own & Hown & Hle & _).
    assert (Hbs : Coord.group_ok g) by (apply Hok; left).
    pose proof (hit_bound _ _ _ _ _ _ Hbs Hown). lia.
  - intros k g bl i b Hgk Hblk Hi. rewrite <- Hg in Hgk.
    assert (Hbs : Coord.group_ok g) by (by eapply Hok, list_elem_of_lookup_2).
    destruct (Hk k g Hgk) as (own & Hown & _ & Hown').
    rewrite Hown' in Hblk. injection Hblk as <-. apply lookup_take_Some in Hi as [Hi _].
    destruct (Spec.find_hit_entries _ _ _ _ _ _ _ _ Hbs Hown Hi) as [Hfit Hb].
    split; [done|]. destruct Hb as [?|(r & h & Hr & Hrb & Hh' & Hcb)]; [by left|right].
    exists r, h. rewrite <- Hh. split_and!; try done.
    by apply Pool.get_cached_block_Some in Hcb as [? _]; [|apply Hc].
Qed.

End Hashing.

(** ** Properties *)

(** C16: prefix reuse is sound.  In every reachable cache whose configuration
    hashes at the cache's own granularity, whatever prompt is looked up, the hit
    leaves at least one token to compute, and each non-null block it hands out
    carries the hash of a sequence the cache was shown earlier that agrees with
    the prompt on every token up to the end of that block -- provided the digest
    is eight bytes and neither collides nor hits the seed on the messages hashed. *)
Theorem prefix_reuse_sound digest nb bs cfg seed ec s0 s hist prompt hs n m s'
    (Hcfg : ∀ c, cfg = Some c → config_ok c ∧ Spec.hash_block_size c = bs)
    (Hinit : init nb bs cfg seed ec = Ok s0)
    (Hrun : rtc (step digest) (s0, []) (s, hist))
    (Hdigest : Chain.digest_ok digest)
    (Hcoll : Chain.collision_free digest (all_hashed digest s (prompt :: hist)))
    (Hseed : Chain.seed_free digest (all_hashed digest s (prompt :: hist)) seed)
    (Hhs : hash_tokens digest prompt s = Ok hs) (Hn : 1 ≤ n)
    (Hlookup : lookup hs n s = Ok (m, s')) :
  num_tokens m < n ∧
  ∀ k g bl i b, Spec.groups (config s) !! k = Some g → blocks m !! k = Some bl →
    bl !! i = Some b → b ≠ Pool.NULL_BLOCK_ID →
    let covered := (i + 1) * Spec.block_size (Spec.spec g) in
    covered < n ∧ ∃ ts, ts ∈ hist ∧ take covered ts = take covered prompt.
Proof.
  assert (Hwf0 : wf digest s0 []) by (eapply cache_init_wf; [|exact Hinit]; intros c Hc; by apply (Hcfg c Hc)).
  destruct (cache_reach_wf digest _ _ Hrun Hwf0) as [Hwf (K1 & K2 & K3)]; cbn [fst snd] in *.
  destruct (init_keys _ _ _ _ _ _ Hinit) as (I1 & I2 & I3).
  destruct (lookup_spec digest s hist hs n m s' Hwf Hlookup) as [Hm Hb].
  split; [lia|]. intros k g bl i b Hg Hbl Hi Hnull. cbn zeta.
  destruct (Hb k g bl i b Hg Hbl Hi) as [Hfit [?|(r & h & Hr & Hrb & Hh & Hbh)]]; [done|].
  split; [lia|].
  assert (Hhbs : Spec.hash_block_size (config s) = block_size s).
  { rewrite K3, K1, I1. destruct cfg as [c|]; [by destruct I3, (Hcfg (config s0) eq_refl)|done]. }
  destruct (served_same_prefix digest s hist prompt hs (r - 1 + i * r) b h Hwf Hdigest Hcoll) as (ts & Hin & E);
    try done; [by rewrite K2, I2|].
  exists ts. split; [done|]. rewrite Hrb, Hhbs.
  by replace ((i + 1) * (r * block_size s)) with ((r - 1 + i * r + 1) * block_size s) by nia.
Qed.

(** After [take_table_writes] the executor's block tables hold exactly what
    the request holds, in every group, when they held the blocks emitted before;
    a second call with nothing allocated in between emits nothing. *)
Theorem table_writes_sync digest s hist r state t
    (Hwf : wf digest s hist) (Hids : NoDup (group_ids (Spec.groups (config s))))
    (Hst : sequences s !! r = Some state)
    (Ht : in_sync (Spec.groups (config s)) (block_ids r s)
      (cursors state (Spec.groups (config s))) t) :
  ∃ ws s', take_table_writes r s = Ok (ws, s') ∧ block_ids r s' = block_ids r s ∧
    (∀ k g bl, Spec.groups (config s) !! k = Some g → block_ids r s !! k = Some bl →
      apply_writes ws t (Spec.group_id g) = bl) ∧
    ∃ s'', take_table_writes r s' = Ok ([], s'').
Proof.
  destruct (take_table_writes_spec digest s hist r Hwf Hids) as (ws & s' & E & Hwf' & Hc & Hcf & Hs).
  rewrite Hst in Hs. destruct Hs as [(state' & Hst' & Hm) Hsync].
  assert (Hb : block_ids r s' = block_ids r s) by (unfold block_ids; by rewrite Hc).
  exists ws, s'. split_and!; [done|done| |].
  - intros k g bl Hg Hbl. rewrite (Hsync t Ht k g bl (length bl) Hg Hbl).
    + apply firstn_all.
    + by rewrite list_lookup_fmap, Hbl.
  - unfold take_table_writes. rewrite Hst'.
    assert (Hcur : cursors state' (Spec.groups (config s')) = length <$> block_ids r s').
    { unfold cursors. rewrite Hm, Hb. case_decide as Hd; [|done].
      apply fmap_nil_inv in Hd. pose proof (block_ids_length digest s hist r Hwf) as Hl.
      rewrite Hd in Hl |- *. by rewrite Hcf, <- Hl. }
    rewrite Hcur. pose proof (block_ids_length digest s' hist r Hwf') as Hl.
    rewrite table_writes_done by done. by eexists.
Qed.

(** [commit] never raises, never moves its cursor back or changes what a
    request holds, and every block it reports had no hash before and, when
    caching is on, has one afterwards: it cannot be reported again while its
    rows last.  A commit at a count already committed reports nothing. *)
Theorem commit_reports_fresh digest s hist r n (Hwf : wf digest s hist) :
  ∃ fresh s', commit r n s = Ok (fresh, s') ∧ wf digest s' hist ∧
    (∀ b h, (b, h) ∈ fresh → Pool.bhash (pool s) b = None ∧
      (enable_caching s = true → b ≠ Pool.NULL_BLOCK_ID → Pool.bhash (pool s') b ≠ None)) ∧
    (∀ r', block_ids r' s' = block_ids r' s) ∧
    num_committed_tokens r s ≤ num_committed_tokens r s' ∧
    (n ≤ num_committed_tokens r s → fresh = [] ∧ s' = s).
Proof.
  destruct (commit_spec digest s hist r n Hwf) as (fresh & s' & E & Hwf' & Hg & Hids & Hle).
  exists fresh, s'. split_and!; try done.
  - intros b h Hin. rewrite <- (wf_caching _ _ _ Hwf). by apply (Hg b h).
  - unfold commit, num_committed_tokens in *. destruct (sequences s !! r) as [state|].
    + intros Hn. rewrite decide_True in E by done. by injection E as <- <-.
    + by injection E as <- <-.
Qed.

(** ** Witnesses *)

(** One prompt tracked, allocated and committed. *)
Definition demo : result PrefixCache :=
  s ← init 6 2 None 1 true;
  '(_, s) ← track Chain.toy_digest "a" [5; 6; 7; 8]%Z s;
  '(_, s) ← allocate "a" 4 None s;
  '(_, s) ← commit "a" 4 s;
  Ok s.

Lemma demo_reach :
  ∃ s0 s, demo = Ok s ∧ init 6 2 None 1 true = Ok s0 ∧
    rtc (step Chain.toy_digest) (s0, []) (s, [[5; 6; 7; 8]%Z]).
Proof.
  destruct demo as [s|e] eqn:E; [|vm_compute in E; discriminate].
  unfold demo in E. apply bind_Ok in E as (s0 & E0 & E).
  apply bind_Ok in E as ([hs s1] & E1 & E). apply bind_Ok in E as ([b s2] & E2 & E).
  apply bind_Ok in E as ([f s3] & E3 & [= <-]). exists s0, s3. split_and!; [done|done|].
  eapply rtc_l; [eapply step_track; [|exact E1]|].
  { unfold init in E0. inv_ok. subst. by intros state. }
  eapply rtc_l; [eapply step_extend, E2|]. eapply rtc_l; [eapply step_commit, E3|]. apply rtc_refl.
Defined.

Lemma prefix_reuse_sound_witness :
  ∃ s m, demo = Ok s ∧ num_tokens m = 4 ∧ blocks m = [[1; 2]] ∧ num_tokens m < 5.
Proof.
  destruct demo_reach as (s0 & s & E & E0 & Hrun).
  assert (Hk : (s ← demo; Ok (block_size s, hash_seed s)) = Ok (2, 1%Z)) by (vm_compute; reflexivity).
  assert (Hl : (s ← demo; hs ← hash_tokens Chain.toy_digest [5; 6; 7; 8; 9]%Z s;
      '(m, s') ← lookup hs 5 s; Ok (num_tokens m, blocks m)) = Ok (4, [[1; 2]]))
    by (vm_compute; reflexivity).
  rewrite E in Hk, Hl. cbn in Hk. injection Hk as Hk1 Hk2.
  apply bind_Ok in Hl as (s1 & [= <-] & Hl). apply bind_Ok in Hl as (hs & Hhs & Hl).
  apply bind_Ok in Hl as ([m s'] & Hlk & [= Hm Hb]). exists s, m. split; [exact E|]. split; [exact Hm|]. split; [exact Hb|].
  eapply (prefix_reuse_sound Chain.toy_digest 6 2 None 1 true s0 s [[5; 6; 7; 8]%Z]
    [5; 6; 7; 8; 9]%Z hs 5 m s').
  - by intros c.
  - exact E0.
  - exact Hrun.
  - apply Chain.toy_digest_ok.
  - unfold all_hashed. rewrite Hk1, Hk2. apply Chain.collision_free_b_sound. vm_compute. reflexivity.
  - unfold all_hashed. rewrite Hk1, Hk2. apply Chain.seed_free_b_sound. vm_compute. reflexivity.
  - exact Hhs.
  - lia.
  - exact Hlk.
Defined.

Lemma cache_demo_wf : ∃ s, demo = Ok s ∧ wf Chain.toy_digest s [[5; 6; 7; 8]%Z].
Proof.
  destruct demo_reach as (s0 & s & E & E0 & Hrun). exists s. split; [done|].
  apply (cache_reach_wf _ _ _ Hrun). cbn. eapply cache_init_wf; [|done]. done.
Qed.

Lemma table_writes_sync_witness :
  ∃ s ws s', demo = Ok s ∧ take_table_writes "a" s = Ok (ws, s') ∧
    apply_writes ws (λ _, []) 0 = [1; 2].
Proof.
  destruct cache_demo_wf as (s & E & Hwf).
  assert (Hk : (s ← demo; Ok (group_ids (Spec.groups (config s)), block_ids "a" s,
      num_mapped_blocks <$> sequences s !! "a")) = Ok ([0], [[1; 2]], Some []))
    by (vm_compute; reflexivity).
  rewrite E in Hk. cbn in Hk. injection Hk as Hg Hb Hm.
  destruct (sequences s !! "a") as [state|] eqn:Hst; [|done]. injection Hm as Hm.
  destruct (Spec.groups (config s)) as [|g [|]] eqn:Eg; [discriminate Hg| |discriminate Hg]. injection Hg as Hg.
  destruct (table_writes_sync Chain.toy_digest s _ "a" state (λ _, []) Hwf)
    as (ws & s' & Hw & _ & Hs & _).
  - rewrite Eg. unfold group_ids; cbn. by apply NoDup_singleton.
  - done.
  - rewrite Eg, Hb. unfold cursors. rewrite decide_True by done.
    intros [|k] g' bl n; cbn; [by intros _ _ [= <-]|done].
  - exists s, ws, s'. split_and!; [done|done|]. specialize (Hs 0 g [1; 2]). rewrite Hg in Hs.
    apply Hs; [by rewrite Eg|by rewrite Hb].
Defined.

Lemma commit_reports_fresh_witness :
  ∃ s fresh s', demo = Ok s ∧ commit "a" 4 s = Ok (fresh, s') ∧ fresh = [].
Proof.
  destruct cache_demo_wf as (s & E & Hwf).
  assert (Hk : (s ← demo; Ok (num_committed_tokens "a" s)) = Ok 4) by (vm_compute; reflexivity).
  rewrite E in Hk. cbn [mbind result_bind] in Hk. injection Hk as Hk.
  destruct (commit_reports_fresh Chain.toy_digest s _ "a" 4 Hwf) as (fresh & s' & Ec & _ & _ & _ & _ & Hz).
  exists s, fresh, s'. split_and!; [done|done|]. apply Hz. by rewrite Hk.
Defined.

End Cache.
