(* ===== verification/CacheClient.v ===== *)
(** * The prefix cache as its client sees it

    What the batch planner relies on: with one full-attention group, no call
    raises as long as requests are shown continuations of their own tokens and
    only a request that holds nothing adopts a match; coverage only grows until
    a request is freed.  [toks] gives the tokens of the live requests and
    [holder] says who may hold blocks. *)

From S2P Require Export PrefixCache.

Module Client.

Definition PREFIX_CACHE_BLOCK_SIZE : nat := 16.

(** [KVCacheConfig.homogeneous(PREFIX_CACHE_BLOCK_SIZE)] *)
Definition one_group : Spec.KVCacheConfig :=
  Spec.Config [Spec.Group 0 (Spec.FullAttentionSpec PREFIX_CACHE_BLOCK_SIZE (0, 0)) [0]]
    PREFIX_CACHE_BLOCK_SIZE.

(** Rows of request [r] that have a block. *)
Definition rows (c : Cache.PrefixCache) (r : string) : nat :=
  PREFIX_CACHE_BLOCK_SIZE * length (concat (Cache.block_ids r c)).
Definition covers (c : Cache.PrefixCache) (r : string) (n : nat) : Prop := n ≤ rows c r.

Section Client.
Context (digest : list Z → list Z) (digest_ok : Chain.digest_ok digest).
Implicit Types (c : Cache.PrefixCache) (r : string) (toks : string → option (list Z))
  (holder : string → Prop).

Record cache_ok c toks holder : Prop := {
  ok_wf : ∃ hist, Cache.wf digest c hist;
  ok_config : Cache.config c = one_group ∧ Cache.block_size c = PREFIX_CACHE_BLOCK_SIZE;
  ok_seq : ∀ r state, Cache.sequences c !! r = Some state → ∃ tk ts, toks r = Some tk ∧
    Cache.hash_tokens digest ts c = Ok (Cache.block_hashes state) ∧ ts `prefix_of` tk;
  ok_hold : ∀ r, Coord.holds_of (Coord.requests (Cache.coordinator c)) r ≠ [] → holder r;
}.

(** Nobody loses rows. *)
Definition rows_grow c c' : Prop := ∀ r, rows c r ≤ rows c' r.

#[local] Instance rows_grow_preorder : PreOrder rows_grow.
Proof. split; [intros c r; done|]. intros c1 c2 c3 H1 H2 r. etrans; [apply H1|apply H2]. Qed.

Lemma cache_ok_weaken c toks toks' holder holder' :
  (∀ r tk, toks r = Some tk → ∃ tk', toks' r = Some tk' ∧ tk `prefix_of` tk') →
  (∀ r, holder r → holder' r) → cache_ok c toks holder → cache_ok c toks' holder'.
Proof.
  intros Ht Hh [H1 H2 H3 H4]. split; [done|done| |auto].
  intros r state (tk & ts & Htk & ? & ?)%H3. destruct (Ht r tk Htk) as (tk' & ? & ?).
  exists tk', ts. split_and!; [done|done|by etrans].
Qed.

Lemma hash_total c t :
  Cache.block_size c = PREFIX_CACHE_BLOCK_SIZE → Forall Chain.is_token t →
  ∃ hs, Cache.hash_tokens digest t c = Ok hs ∧ length hs = length t / PREFIX_CACHE_BLOCK_SIZE.
Proof.
  intros Hbs Ht. unfold Cache.hash_tokens.
  pose proof (Chain.iter_cases digest t (Cache.block_size c) (Cache.hash_seed c) digest_ok) as Hc.
  rewrite Hbs in *. specialize (Hc ltac:(done)).
  destruct (Chain.iter_block_hashes _ _ _ _) as [hs|e]; [by exists hs; destruct Hc as (_ & ? & _)|].
  destruct Hc as [_ Hn]. exfalso. by apply Hn, Forall_take.
Qed.

(** *** Hashing *)

Lemma set_sequence_ok c toks holder r state :
  cache_ok c toks holder → (∃ hist, Cache.wf digest
    (Cache.set_sequences (<[r := state]> (Cache.sequences c)) c) hist) →
  (∃ tk ts, toks r = Some tk ∧ Cache.hash_tokens digest ts c = Ok (Cache.block_hashes state) ∧
    ts `prefix_of` tk) →
  cache_ok (Cache.set_sequences (<[r := state]> (Cache.sequences c)) c) toks holder.
Proof.
  intros [H1 H2 H3 H4] Hwf Hst. split; [done|done| |done].
  intros r' state'. cbn. destruct (decide (r' = r)) as [->|Hn].
  - rewrite lookup_insert_eq. by intros [= <-].
  - rewrite lookup_insert_ne by done. apply H3.
Qed.

Lemma continues_of c toks holder r tk :
  cache_ok c toks holder → toks r = Some tk → Cache.continues digest c r tk.
Proof.
  intros Hok Htk state Hst. destruct (ok_seq _ _ _ Hok r state Hst) as (tk' & ts & ? & ? & ?).
  exists ts. split; [done|]. by simplify_eq.
Qed.

Lemma track_Ok c toks holder r tk :
  cache_ok c toks holder → toks r = Some tk → Forall Chain.is_token tk →
  ∃ hs c', Cache.track digest r tk c = Ok (hs, c') ∧ cache_ok c' toks holder ∧
    Cache.coordinator c' = Cache.coordinator c ∧ Cache.hash_tokens digest tk c' = Ok hs ∧
    length hs = length tk / PREFIX_CACHE_BLOCK_SIZE ∧
    is_Some (Cache.sequences c' !! r).
Proof.
  intros Hok Htk Ht. destruct (hash_total c tk (proj2 (ok_config _ _ _ Hok)) Ht) as (hs & Hhs & Hl).
  pose proof (continues_of _ _ _ _ _ Hok Htk) as Hc.
  destruct (ok_wf _ _ _ Hok) as [hist Hwf].
  assert (∃ state, (match Cache.sequences c !! r with
    | None => hashes ← Cache.hash_tokens digest tk c; Ok (Cache.MkSeq hashes 0 [])
    | Some state => Cache.grow digest state tk c end) = Ok state ∧ Cache.block_hashes state = hs)
    as (state & Est & Ehs).
  { destruct (Cache.sequences c !! r) as [st|] eqn:E.
    - destruct (Hc st E) as (ts & Hts & Hp). unfold Cache.grow.
      unfold Cache.hash_tokens in *. rewrite (Chain.extend_iter _ _ _ _ _ _ Hp Hts), Hhs. by eexists.
    - rewrite Hhs. by eexists. }
  set (c' := Cache.set_sequences (<[r := state]> (Cache.sequences c)) c).
  assert (Htr : Cache.track digest r tk c = Ok (hs, c')).
  { unfold Cache.track. rewrite Est. cbn. by rewrite Ehs. }
  destruct (Cache.track_spec _ _ _ _ _ _ _ Hwf Hc Htr) as (Hwf' & _).
  exists hs, c'. split_and!; try done.
  - apply set_sequence_ok; [done|by eexists|]. exists tk, tk. by rewrite Ehs.
  - exists state. cbn. by rewrite lookup_insert_eq.
Qed.

Lemma observe_Ok c toks holder r tk :
  cache_ok c toks holder → toks r = Some tk → Forall Chain.is_token tk →
  ∃ hs c', Cache.observe digest r tk c = Ok (hs, c') ∧ cache_ok c' toks holder ∧
    Cache.coordinator c' = Cache.coordinator c.
Proof.
  intros Hok Htk Ht. unfold Cache.observe. destruct (Cache.sequences c !! r) as [st|] eqn:E.
  - destruct (track_Ok c toks holder r tk Hok Htk Ht) as (hs & c' & Htr & ? & ? & _).
    exists hs, c'. unfold Cache.track in Htr. rewrite E in Htr. done.
  - by exists [], c.
Qed.

Lemma lookup_Ok c toks holder hs n :
  cache_ok c toks holder →
  ∃ m c', Cache.lookup hs n c = Ok (m, c') ∧ cache_ok c' toks holder ∧
    Cache.coordinator c' = Cache.coordinator c ∧ Cache.num_tokens m ≤ n - 1 ∧
    ∀ r, Coord.holds_of (Coord.requests (Cache.coordinator c)) r = [] →
      Coord.adoptable (Cache.coordinator c') r (Cache.adopted_blocks (Some m)).
Proof.
  intros Hok. destruct (ok_wf _ _ _ Hok) as [hist Hwf].
  assert (∃ m c', Cache.lookup hs n c = Ok (m, c')) as (m & c' & E).
  { unfold Cache.lookup. cbn [Cache.coordinator Cache.set_stats Cache.enable_caching].
    case_decide; [by do 2 eexists|].
    destruct (Coord.find_hit_total (Cache.coordinator c) hs (n - 1) (Cache.wf_coord _ _ _ Hwf))
      as (hits & k & ->). by do 2 eexists. }
  exists m, c'. pose proof (Cache.lookup_wf _ _ _ _ _ _ _ Hwf E) as Hwf'.
  pose proof (Cache.lookup_inv _ _ _ _ _ E) as (E1 & E2 & E3 & E4 & E5 & _).
  pose proof (Cache.lookup_spec _ _ _ _ _ _ _ Hwf E) as [Hm _].
  split_and!; try done.
  - destruct Hok as [H1 H2 H3 H4]. split; [by eexists|by rewrite E3, E4| |by rewrite E1].
    rewrite E2. unfold Cache.hash_tokens. rewrite E4, E5. apply H3.
  - intros r He. exact (Cache.lookup_adoptable digest c hist hs n m c' r Hwf E He).
Qed.

(** *** Allocation *)

Lemma one_list c toks holder r :
  cache_ok c toks holder → ∃ bl, Cache.block_ids r c = [bl] ∧ rows c r = PREFIX_CACHE_BLOCK_SIZE * length bl.
Proof.
  intros Hok. destruct (ok_wf _ _ _ Hok) as [hist Hwf].
  pose proof (Cache.block_ids_length digest c hist r Hwf) as Hl.
  rewrite (proj1 (ok_config _ _ _ Hok)) in Hl. unfold rows.
  destruct (Cache.block_ids r c) as [|bl [|]]; try done. exists bl.
  split; [done|]. cbn. by rewrite app_nil_r.
Qed.

Lemma rows_of_longer c c' toks toks' holder holder' :
  cache_ok c toks holder → cache_ok c' toks' holder' →
  Cache.longer (Cache.coordinator c) (Cache.coordinator c') → rows_grow c c'.
Proof.
  intros Hok Hok' Hl r. destruct (one_list _ _ _ r Hok) as (bl & E & ->).
  destruct (one_list _ _ _ r Hok') as (bl' & E' & ->).
  destruct (Hl r 0 bl') as (bl2 & E2 & Hle); [unfold Cache.block_ids in E'; by rewrite E'|].
  unfold Cache.block_ids in E. rewrite E in E2. injection E2 as <-. by apply Nat.mul_le_mono_l.
Qed.

Lemma group_zero c toks holder :
  cache_ok c toks holder → Coord.groups (Cache.coordinator c) =
    [Spec.Group 0 (Spec.FullAttentionSpec PREFIX_CACHE_BLOCK_SIZE (0, 0)) [0]].
Proof.
  intros Hok. destruct (ok_wf _ _ _ Hok) as [hist Hwf].
  rewrite (proj1 (Cache.wf_config _ _ _ Hwf)). by rewrite (proj1 (ok_config _ _ _ Hok)).
Qed.

(** A granted allocation covers what was asked for. *)
Lemma granted_covers c c' toks holder r adopted n :
  cache_ok c toks holder →
  Coord.granted (Cache.coordinator c) r adopted n (Cache.coordinator c') → covers c' r n.
Proof.
  intros Hok (state & Hst & Hg). pose proof (group_zero _ _ _ Hok) as Hgs.
  destruct (Hg 0 _ (f_equal (lookup 0) Hgs)) as (old & new & _ & Hnew & Hlen & _).
  unfold covers, rows, Cache.block_ids, Coord.block_ids. rewrite Hst.
  destruct (Coord.per_group state) as [|bl rest]; [done|]. injection Hnew as ->.
  cbn [concat]. rewrite !length_app, Hlen.
  set (sp := Spec.FullAttentionSpec PREFIX_CACHE_BLOCK_SIZE (0, 0)).
  pose proof (Spec.num_blocks_for_bounds sp n ltac:(cbn; unfold PREFIX_CACHE_BLOCK_SIZE; lia)) as Hb.
  change (Spec.block_size sp) with PREFIX_CACHE_BLOCK_SIZE in Hb.
  change (Spec.spec _) with sp. unfold PREFIX_CACHE_BLOCK_SIZE in *. lia.
Qed.

Lemma alloc_Ok c toks holder r n m :
  cache_ok c toks holder → Coord.adoptable (Cache.coordinator c) r (Cache.adopted_blocks m) →
  ∃ b c', Cache.allocate r n m c = Ok (b, c') ∧ rows_grow c c' ∧
    Cache.sequences c' = Cache.sequences c ∧
    if (b : bool)
    then covers c' r n ∧ cache_ok c' toks (λ r', holder r' ∨ r' = r)
    else cache_ok c' toks holder ∧
      Cache.block_ids r c' = Cache.block_ids r c.
Proof.
  intros Hok Had. pose proof Hok as [[hist Hwf] Hcf Hseq Hhold].
  pose proof (Cache.wf_coord _ _ _ Hwf) as Hcw.
  destruct (Coord.allocate_spec _ r _ n Hcw Had) as (b & cc & E & Hcw' & Hsame & Hsh & Hoth & Hb).
  set (c' := Cache.set_coordinator cc c).
  assert (Ea : Cache.allocate r n m c = Ok (b, c')) by (unfold Cache.allocate; by rewrite E).
  pose proof (Cache.allocate_wf _ _ _ _ _ _ _ _ Hwf Had Ea) as Hwf'.
  assert (Hok1 : cache_ok c' toks (λ r', holder r' ∨ r' = r)).
  { split; [by eexists|done|done|]. intros r' Hr'. destruct (decide (r' = r)) as [->|Hne]; [by right|].
    left. apply Hhold. revert Hr'. unfold Coord.holds_of. cbn. by rewrite Hoth. }
  exists b, c'. split_and!; [done| |done|].
  { eapply rows_of_longer; [done|done|]. by eapply Cache.allocate_longer. }
  destruct b; [split; [exact (granted_covers c c' toks holder r _ n Hok Hb)|done]|].
  pose proof (Coord.refused_blocks _ _ _ Hb) as Hids.
  split; [|exact Hids]. destruct Hok1 as [H1 H2 H3 H4]. split; try done.
  intros r' Hr'. destruct (H4 r' Hr') as [Hr| ->]; [done|]. apply Hhold.
  rewrite <- Coord.concat_block_ids in Hr' |- *. by rewrite <- Hids.
Qed.

(** *** Release, commit and table writes *)

Lemma free_Ok c toks holder r toks' holder' :
  cache_ok c toks holder →
  (∀ r', r' ≠ r → toks' r' = toks r') → (∀ r', r' ≠ r → holder r' → holder' r') →
  ∃ c', Cache.free r c = Ok c' ∧ cache_ok c' toks' holder' ∧ (∀ r', r' ≠ r → rows c' r' = rows c r') ∧
    Coord.same_config (Cache.coordinator c) (Cache.coordinator c') ∧
    Cache.sequences c' = delete r (Cache.sequences c).
Proof.
  intros Hok Ht Hh. pose proof Hok as [[hist Hwf] Hcf Hseq Hhold].
  destruct (Coord.free_spec _ r (Cache.wf_coord _ _ _ Hwf))
    as (cc & E & _ & Hsame & Hreq & _).
  set (c' := Cache.set_sequences (delete r (Cache.sequences c)) (Cache.set_coordinator cc c)).
  assert (Ef : Cache.free r c = Ok c') by (unfold Cache.free; by rewrite E).
  pose proof (Cache.free_wf _ _ _ _ _ Hwf Ef) as Hwf'. exists c'. split_and!; try done.
  - split; [by eexists|done| |].
    + cbn. intros r' state [Hne Hs]%lookup_delete_Some. destruct (Hseq r' state Hs) as (tk & ts & ? & ? & ?).
      exists tk, ts. by rewrite Ht.
    + cbn. rewrite Hreq. intros r'. destruct (decide (r' = r)) as [->|Hne].
      * by rewrite Coord.holds_of_delete.
      * rewrite Coord.holds_of_delete_ne by done. intros ?. by apply Hh, Hhold.
  - intros r' Hne. unfold rows, Cache.block_ids, Coord.block_ids. cbn.
    rewrite Hreq, lookup_delete_ne by done. by destruct Hsame as (-> & _).
Qed.

Lemma client_commit_Ok c toks holder r n :
  cache_ok c toks holder →
  ∃ fresh c', Cache.commit r n c = Ok (fresh, c') ∧ cache_ok c' toks holder ∧
    (∀ r', Cache.block_ids r' c' = Cache.block_ids r' c).
Proof.
  intros Hok. pose proof Hok as [[hist Hwf] Hcf Hseq Hhold].
  destruct (Cache.commit_spec digest c hist r n Hwf) as (fresh & c' & E & Hwf' & _ & Hids & _).
  exists fresh, c'. split_and!; [done| |done].
  assert (Hk : Cache.config c' = Cache.config c ∧ Cache.block_size c' = Cache.block_size c ∧
    Cache.hash_seed c' = Cache.hash_seed c ∧ ∀ r' st', Cache.sequences c' !! r' = Some st' →
    ∃ st, Cache.sequences c !! r' = Some st ∧ Cache.block_hashes st' = Cache.block_hashes st).
  { assert (Hs : Cache.step digest (c, hist) (c', hist)) by (by eapply Cache.step_commit).
    pose proof (Cache.step_keys _ _ _ Hs) as (K1 & K2 & K3). split_and!; try done.
    intros r' st' Hst'. by eapply Cache.commit_sequences. }
  destruct Hk as (K1 & K2 & K3 & K4). split; [by eexists|by rewrite K1, K2| |].
  - intros r' st' (st & Hst & ->)%K4. unfold Cache.hash_tokens. rewrite K2, K3. by apply Hseq.
  - intros r' Hr'. apply Hhold. rewrite <- Coord.concat_block_ids in Hr' |- *.
    unfold Cache.block_ids in Hids. by rewrite <- Hids.
Qed.

Lemma writes_Ok c toks holder r :
  cache_ok c toks holder →
  ∃ ws c', Cache.take_table_writes r c = Ok (ws, c') ∧ cache_ok c' toks holder ∧
    Cache.coordinator c' = Cache.coordinator c.
Proof.
  intros Hok. pose proof Hok as [[hist Hwf] Hcf Hseq Hhold].
  destruct (Cache.take_table_writes_spec digest c hist r Hwf) as (ws & c' & E & Hwf' & Hco & _).
  { rewrite (proj1 Hcf). by apply NoDup_singleton. }
  exists ws, c'. split_and!; [done| |done].
  unfold Cache.take_table_writes in E. destruct (Cache.sequences c !! r) as [st|] eqn:Est;
    [|by injection E as <- <-].
  apply bind_Ok in E as ([ws' mapped] & _ & [= <- <-]). apply set_sequence_ok; [done|by eexists|].
  by apply (Hseq r st).
Qed.

(** ** Construction *)

Lemma cache_init_ok nb ec c toks holder :
  Cache.init nb PREFIX_CACHE_BLOCK_SIZE None 0 ec = Ok c →
  cache_ok c toks holder ∧
    (∀ rid, Coord.holds_of (Coord.requests (Cache.coordinator c)) rid = []).
Proof.
  intros E. assert (Hwf : Cache.wf digest c []).
  { eapply Cache.cache_init_wf; [|exact E]. intros cfg. discriminate. }
  unfold Cache.init in E. apply bind_Ok in E as (u & _ & E). apply bind_Ok in E as (cfg & Hcfg & E).
  apply bind_Ok in E as (pl & _ & [= <-]).
  assert (cfg = one_group) as -> by (vm_compute in Hcfg; injection Hcfg as <-; reflexivity).
  assert (Hh : ∀ rid, Coord.holds_of ∅ rid = []).
  { intros rid. unfold Coord.holds_of. by rewrite lookup_empty. }
  split; [|done]. split; [by eexists|done| |].
  - cbn. intros rid st. by rewrite lookup_empty.
  - intros rid Hn. exfalso. by apply Hn.
Qed.
End Client.
End Client.
