(* ===== verification/Offload.v ===== *)
(** * The offloading protocol (kv_offload/base.py)

    The vocabulary a tier and the scheduler share, and the
    [OffloadingManager] interface the batch planner is written against. *)

From S2P Require Export BlockPool.

Module Offload.

Inductive LookupResult := MISS | HIT | HIT_PENDING | RETRY.

#[global] Instance LookupResult_eq_dec : EqDecision LookupResult.
Proof. solve_decision. Defined.

Record CopyRun := Run {
  gpu_block : nat;
  cpu_block : nat;
}.

Record LoadSpec := MkLoad {
  load_cpu_blocks : list nat;
  load_gpu_blocks : list nat;
  load_keys : list Z;
}.

(** [LoadSpec.moves]; [zip(..., strict=True)]. *)
Definition load_moves (s : LoadSpec) : result (list CopyRun) :=
  _ ← rguard (bool_decide (length (load_gpu_blocks s) = length (load_cpu_blocks s))) ValueError;
  Ok (zip_with Run (load_gpu_blocks s) (load_cpu_blocks s)).

Record StoreSpec := MkStore {
  store_moves : list CopyRun;
  store_keys : list Z;
  evicted : gset Z;
}.

Inductive kind := store | load.

#[global] Instance kind_eq_dec : EqDecision kind.
Proof. solve_decision. Defined.

Record OffloadEvent := MkEvent {
  event_kind : kind;
  event_keys : list Z;
  event_cpu_blocks : list nat;
  event_gpu_blocks : list nat;
}.

#[global] Instance OffloadEvent_eq_dec : EqDecision OffloadEvent.
Proof. solve_decision. Defined.

Record OffloadingStats := MkStats {
  lookups : nat;
  hits : nat;
  stores : nat;
  loads : nat;
  store_bytes : nat;
  load_bytes : nat;
  evictions : Z;
}.

Definition misses (s : OffloadingStats) : Z := (Z.of_nat (lookups s) - Z.of_nat (hits s))%Z.

(** The abstract methods of [OffloadingManager]; [T] is the manager's state. *)
Class OffloadingManager (T : Type) := {
  lookup : Z → T → LookupResult * T;
  touch : list Z → T → result T;
  prepare_load : list Z → list nat → T → result (option LoadSpec * T);
  complete_load : list Z → T → result T;
  prepare_store : list (nat * Z) → T → result (StoreSpec * T);
  complete_store : list Z → T → result T;
  take_events : T → result (list OffloadEvent * T);
  has_pending_work : T → bool;
  reset_cache : T → result (bool * T);
  get_stats : T → OffloadingStats;
}.

End Offload.
