(* ===== verification/CpuTier.v ===== *)
(** * The CPU tier (kv_offload/cpu.py) and the facade over it (tiering.py)

    A second block pool in host memory mirrors blocks of the GPU pool under
    their content keys.  The data path is the copier, a parameter: [submit]
    answers an event or nothing, [query] whether an event has fired. *)

From S2P Require Export Offload.

Module Cpu.
Import Offload.

(** [BlockCopier]; [C] is the state of the copy streams, [E] their events. *)
Class BlockCopier (C E : Type) := {
  submit : list CopyRun → bool → C → option E * C;
  query : E → C → bool;
}.

Section Tier.
Context {C E : Type} `{!BlockCopier C E}.

(** [_Transfer] *)
Record Transfer := MkTransfer {
  t_kind : kind;
  t_keys : list Z;
  t_cpu_blocks : list nat;
  t_gpu_blocks : list nat;
  t_event : option E;
  t_moves : list CopyRun;
}.

Record Tier := MkTier {
  pool : Pool.BlockPool;
  block_size : nat;
  bytes_per_block : nat;
  copier : C;
  pending : list Transfer;
  inflight_stores : gmap Z Transfer;
  pinned_cached : Z;
  stats : OffloadingStats;
}.

Definition set_pool (x : Pool.BlockPool) (t : Tier) : Tier :=
  MkTier x (block_size t) (bytes_per_block t) (copier t) (pending t) (inflight_stores t)
    (pinned_cached t) (stats t).
Definition set_copier (x : C) (t : Tier) : Tier :=
  MkTier (pool t) (block_size t) (bytes_per_block t) x (pending t) (inflight_stores t)
    (pinned_cached t) (stats t).
Definition set_pending (x : list Transfer) (t : Tier) : Tier :=
  MkTier (pool t) (block_size t) (bytes_per_block t) (copier t) x (inflight_stores t)
    (pinned_cached t) (stats t).
Definition set_inflight (x : gmap Z Transfer) (t : Tier) : Tier :=
  MkTier (pool t) (block_size t) (bytes_per_block t) (copier t) (pending t) x
    (pinned_cached t) (stats t).
Definition set_pinned (x : Z) (t : Tier) : Tier :=
  MkTier (pool t) (block_size t) (bytes_per_block t) (copier t) (pending t) (inflight_stores t)
    x (stats t).
Definition set_tier_stats (x : OffloadingStats) (t : Tier) : Tier :=
  MkTier (pool t) (block_size t) (bytes_per_block t) (copier t) (pending t) (inflight_stores t)
    (pinned_cached t) x.

Definition init (num_blocks block_size : nat) (copier : C) (bytes_per_block : nat) : result Tier :=
  _ ← rguard (bool_decide (2 ≤ num_blocks)) ValueError;
  pool ← Pool.init num_blocks block_size true;
  Ok (MkTier pool block_size bytes_per_block copier [] ∅ 0 (MkStats 0 0 0 0 0 0 0)).

(** ** Query *)

Definition lookup (key : Z) (t : Tier) : LookupResult * Tier :=
  let s := stats t in
  let looked h := MkStats (S (lookups s)) (h + hits s) (stores s) (loads s) (store_bytes s)
    (load_bytes s) (evictions s) in
  match Pool.get_cached_block key (pool t) with
  | Some _ => (HIT, set_tier_stats (looked 1) t)
  | None => (MISS, set_tier_stats (looked 0) t)
  end.

Definition touch_key (key : Z) (t : Tier) : result Tier :=
  match Pool.get_cached_block key (pool t) with
  | None => Ok t
  | Some i =>
      b ← Pool.get_block (pool t) i;
      if (0 <? Pool.ref_cnt b)%Z then Ok t
      else
        q ← FreeBlockQueue.remove i (Pool.free_block_queue (pool t));
        q ← FreeBlockQueue.append i q;
        Ok (set_pool (Pool.set_queue q (pool t)) t)
  end.

Definition touch (keys : list Z) (t : Tier) : result Tier := rfold touch_key keys t.

(** ** Completion *)

Definition is_done (tr : Transfer) (t : Tier) : bool :=
  match t_event tr with None => true | Some e => query e (copier t) end.

(** [_pop_pending]: the first pending transfer of that kind and those keys. *)
Fixpoint pop_first (k : kind) (keys : list Z) (l : list Transfer) :
    option (Transfer * list Transfer) :=
  match l with
  | [] => None
  | tr :: l =>
      if decide (t_kind tr = k ∧ t_keys tr = keys) then Some (tr, l)
      else match pop_first k keys l with
           | None => None
           | Some (tr', l) => Some (tr', tr :: l)
           end
  end.

Definition complete_load (keys : list Z) (t : Tier) : result Tier :=
  match pop_first load keys (pending t) with
  | None => Ok t
  | Some (tr, rest) =>
      pool ← Pool.free_blocks (t_cpu_blocks tr) (pool t);
      let s := stats t in
      let n := length (t_keys tr) in
      Ok (set_tier_stats
            (MkStats (lookups s) (hits s) (stores s) (loads s + n) (store_bytes s)
              (load_bytes s + n * bytes_per_block t) (evictions s))
            (set_pinned (pinned_cached t - Z.of_nat (length (t_cpu_blocks tr)))
              (set_pool pool (set_pending rest t))))
  end.

Definition complete_one (kc : Z * nat) (t : Tier) : result Tier :=
  let '(key, cpu_block) := kc in
  let t := set_inflight (delete key (inflight_stores t)) t in
  b ← Pool.get_block (pool t) cpu_block;
  pool ← Pool.cache_full_blocks [cpu_block] [key] (pool t);
  pool ← Pool.free_blocks [cpu_block] pool;
  Ok (set_pool pool t).

Definition complete_store (keys : list Z) (t : Tier) : result Tier :=
  match pop_first store keys (pending t) with
  | None => Ok t
  | Some (tr, rest) =>
      _ ← rguard (bool_decide (length (t_keys tr) = length (t_cpu_blocks tr))) ValueError;
      t ← rfold complete_one (zip (t_keys tr) (t_cpu_blocks tr)) (set_pending rest t);
      let s := stats t in
      let n := length (t_keys tr) in
      Ok (set_tier_stats
            (MkStats (lookups s) (hits s) (stores s + n) (loads s)
              (store_bytes s + n * bytes_per_block t) (load_bytes s) (evictions s)) t)
  end.

(** ** Load *)

(** The blocks of the keys, or nothing when one is gone. *)
Fixpoint resident (keys : list Z) (p : Pool.BlockPool) : option (list nat) :=
  match keys with
  | [] => Some []
  | key :: keys =>
      match Pool.get_cached_block key p with
      | None => None
      | Some i => match resident keys p with None => None | Some l => Some (i :: l) end
      end
  end.

Definition prepare_load (keys : list Z) (gpu_blocks : list nat) (t : Tier) :
    result (option LoadSpec * Tier) :=
  _ ← rguard (bool_decide (length keys = length gpu_blocks)) ValueError;
  match resident keys (pool t) with
  | None => Ok (None, t)
  | Some blocks =>
      pool ← Pool.touch blocks (pool t);
      let t := set_pinned (pinned_cached t + Z.of_nat (length blocks)) (set_pool pool t) in
      let moves := zip_with Run gpu_blocks blocks in
      let '(event, c) := submit moves false (copier t) in
      let cpu_blocks := cpu_block <$> moves in
      let tr := MkTransfer load keys cpu_blocks gpu_blocks event moves in
      Ok (Some (MkLoad cpu_blocks gpu_blocks keys),
          set_pending (pending t ++ [tr]) (set_copier c t))
  end.

(** ** Store *)

Definition fresh_entry (t : Tier) (e : nat * Z) : bool :=
  negb (bool_decide (is_Some (inflight_stores t !! e.2)) ||
        bool_decide (is_Some (Pool.get_cached_block e.2 (pool t)))).

Definition index_keys (p : Pool.BlockPool) : gset Z := dom (Pool.cached_block_hash_to_block p).

Definition prepare_store (entries : list (nat * Z)) (t : Tier) : result (StoreSpec * Tier) :=
  let fresh := filter (λ e, fresh_entry t e) entries in
  if decide (fresh = []) then Ok (MkStore [] [] ∅, t)
  else
    let cached_free := (Z.of_nat (Pool.num_cached_blocks (pool t)) - pinned_cached t)%Z in
    let hash_less_free := (Pool.num_free_blocks (pool t) - cached_free)%Z in
    let n := Z.of_nat (length fresh) in
    let snapshot := if (hash_less_free <? n)%Z then Some (index_keys (pool t)) else None in
    '(blocks, pool) ← Pool.get_new_blocks n (pool t);
    match blocks with
    | None => Ok (MkStore [] [] ∅, set_pool pool t)
    | Some blocks =>
        let evicted := match snapshot with None => ∅ | Some s => s ∖ index_keys pool end in
        let moves := zip_with Run fresh.*1 blocks in
        let '(event, c) := submit moves true (copier t) in
        let keys := fresh.*2 in
        let tr := MkTransfer store keys (cpu_block <$> moves) fresh.*1 event moves in
        let t := set_copier c (set_pool pool t) in
        let t := set_pending (pending t ++ [tr]) t in
        let t := set_inflight (foldl (λ m key, <[key := tr]> m) (inflight_stores t) keys) t in
        Ok (MkStore moves keys evicted, t)
    end.

(** ** Events *)

Definition event_of (tr : Transfer) : OffloadEvent :=
  MkEvent (t_kind tr) (t_keys tr) (t_cpu_blocks tr) (t_gpu_blocks tr).

(** One turn of the drain: what is kept, what is reported. *)
Definition drain_one (tr : Transfer) (s : list Transfer * list OffloadEvent * Tier) :
    result (list Transfer * list OffloadEvent * Tier) :=
  let '(kept, events, t) := s in
  if negb (is_done tr t) then Ok (kept ++ [tr], events, t)
  else
    t ← (match t_kind tr with
         | store => complete_store (t_keys tr) t
         | load => complete_load (t_keys tr) t
         end);
    Ok (kept, events ++ [event_of tr], t).

Definition take_events (t : Tier) : result (list OffloadEvent * Tier) :=
  '(kept, events, t) ← rfold drain_one (pending t) ([], [], t);
  Ok (events, set_pending kept t).

(** [pending_store_events] *)
Definition pending_store_events (t : Tier) : list E :=
  omap (λ tr, match t_kind tr with store => t_event tr | load => None end) (pending t).

Definition has_pending_work (t : Tier) : bool := bool_decide (length (pending t) ≠ 0).

(** ** Lifecycle *)

Definition reset_cache (t : Tier) : result (bool * Tier) :=
  '(_, t) ← take_events t;
  if decide (length (pending t) ≠ 0) then Ok (false, t)
  else let '(b, pool) := Pool.reset_prefix_cache (pool t) in Ok (b, set_pool pool t).

Definition get_stats (t : Tier) : OffloadingStats :=
  let s := stats t in
  MkStats (lookups s) (hits s) (stores s) (loads s) (store_bytes s) (load_bytes s)
    (Pool.evictions (pool t)).

#[global] Instance cpu_tier_manager : OffloadingManager Tier := {
  Offload.lookup := lookup;
  Offload.touch := touch;
  Offload.prepare_load := prepare_load;
  Offload.complete_load := complete_load;
  Offload.prepare_store := prepare_store;
  Offload.complete_store := complete_store;
  Offload.take_events := take_events;
  Offload.has_pending_work := has_pending_work;
  Offload.reset_cache := reset_cache;
  Offload.get_stats := get_stats;
}.

End Tier.
Arguments Transfer : clear implicits.
Arguments Tier : clear implicits.

End Cpu.

(** ** The facade *)

Module Tiering.

Record TieringOffloadingManager (T : Type) := MkTiering { primary : T }.
Arguments MkTiering {T}.
Arguments primary {T}.

Section Facade.
Context {T S : Type} `{!Offload.OffloadingManager T}.

(** Secondary tiers are refused; [S] is their type. *)
Definition init (primary : T) (secondaries : list S) : result (TieringOffloadingManager T) :=
  _ ← rguard (bool_decide (length secondaries = 0)) NotImplementedError;
  Ok (MkTiering primary).

Definition via {A} (x : result (A * T)) : result (A * TieringOffloadingManager T) :=
  '(a, t) ← x; Ok (a, MkTiering t).
Definition via_unit (x : result T) : result (TieringOffloadingManager T) :=
  t ← x; Ok (MkTiering t).

#[global] Instance tiering_manager : Offload.OffloadingManager (TieringOffloadingManager T) := {
  Offload.lookup := λ key t, let '(r, p) := Offload.lookup key (primary t) in (r, MkTiering p);
  Offload.touch := λ keys t, via_unit (Offload.touch keys (primary t));
  Offload.prepare_load := λ keys gpu t, via (Offload.prepare_load keys gpu (primary t));
  Offload.complete_load := λ keys t, via_unit (Offload.complete_load keys (primary t));
  Offload.prepare_store := λ es t, via (Offload.prepare_store es (primary t));
  Offload.complete_store := λ keys t, via_unit (Offload.complete_store keys (primary t));
  Offload.take_events := λ t, via (Offload.take_events (primary t));
  Offload.has_pending_work := λ t, Offload.has_pending_work (primary t);
  Offload.reset_cache := λ t, via (Offload.reset_cache (primary t));
  Offload.get_stats := λ t, Offload.get_stats (primary t);
}.
End Facade.
End Tiering.
