(* ===== verification/CpuTierInv.v ===== *)
(** * The CPU tier's invariant

    The tier's pool, its pending transfers and its counters keep one ledger: a
    block is referenced once per transfer that moves it, a store's blocks are
    private and hash-less until it lands, and a block indexed under a key was
    last written by a store of that key. *)

From S2P Require Export CpuTier.

Module CpuInv.
Import Offload Cpu.

Section Inv.
Context {C E : Type} `{!BlockCopier C E}.
Implicit Types (t : Tier C E) (tr : Transfer E) (p : Pool.BlockPool).

(** ** The ledger *)

(** What the ledger reads of a transfer. *)
Definition entry : Type := kind * list Z * list nat.
Definition entry_of tr : entry := (t_kind tr, t_keys tr, t_cpu_blocks tr).

(** The blocks of all entries, the keys being stored, the blocks being loaded. *)
Definition held (l : list entry) : list nat := concat (snd <$> l).
Definition store_keys (l : list entry) : list Z :=
  concat ((λ e : entry, e.1.2) <$> filter (λ e : entry, e.1.1 = store) l).
Definition loading (l : list entry) : list nat := held (filter (λ e : entry, e.1.1 = load) l).

Record book p (l : list entry) (inflight : gmap Z (Transfer E)) (pinned : Z)
    (written : nat → option Z) : Prop := {
  b_pool : Pool.wf p ∧ Pool.hashless_first p ∧ Pool.enable_caching p = true;
  b_shape : ∀ e, e ∈ l → length e.1.2 = length e.2 ∧
    Forall (λ i, i ≠ Pool.NULL_BLOCK_ID ∧ i < Pool.num_blocks p) e.2;
  (** one reference per move in flight *)
  b_refs : ∀ i, i ≠ Pool.NULL_BLOCK_ID → Pool.refc p i = Pool.uses i (held l);
  (** a load's blocks stay indexed under its keys *)
  b_loads : ∀ e n k i, e ∈ l → e.1.1 = load → e.1.2 !! n = Some k → e.2 !! n = Some i →
    Pool.bhash p i = Some k;
  (** a store's blocks are private, hash-less and written with its keys *)
  b_stores : ∀ e n k i, e ∈ l → e.1.1 = store → e.1.2 !! n = Some k → e.2 !! n = Some i →
    Pool.bhash p i = None ∧ Pool.refc p i = 1%Z ∧ written i = Some k;
  b_keys : NoDup (store_keys l);
  b_inflight : ∀ k, is_Some (inflight !! k) ↔ k ∈ store_keys l;
  b_fresh : ∀ k i, k ∈ store_keys l → Pool.bhash p i ≠ Some k;
  b_uniq : ∀ k i j, Pool.bhash p i = Some k → Pool.bhash p j = Some k → i = j;
  b_pinned : pinned = Z.of_nat (length (loading l));
  b_content : ∀ i k, Pool.bhash p i = Some k → written i = Some k;
}.

Record tier_wf t (written : nat → option Z) : Prop := {
  tw_book : book (pool t) (entry_of <$> pending t) (inflight_stores t) (pinned_cached t) written;
  tw_stores : Forall (λ tr, t_kind tr = store → t_keys tr ≠ []) (pending t);
}.

Lemma concat_perm {A} (l1 l2 : list (list A)) : l1 ≡ₚ l2 → concat l1 ≡ₚ concat l2.
Proof.
  induction 1 as [|x l1 l2 _ IH|x y l|l1 l2 l3 _ IH1 _ IH2]; cbn; [done|by rewrite IH| |by etrans].
  rewrite !app_assoc. by rewrite (Permutation_app_comm y x).
Qed.

Lemma held_perm l1 l2 : l1 ≡ₚ l2 → held l1 ≡ₚ held l2.
Proof. intros Hl. unfold held. by apply concat_perm, fmap_Permutation. Qed.
Lemma store_keys_perm l1 l2 : l1 ≡ₚ l2 → store_keys l1 ≡ₚ store_keys l2.
Proof. intros Hl. unfold store_keys. apply concat_perm, fmap_Permutation. by rewrite Hl. Qed.
Lemma loading_perm l1 l2 : l1 ≡ₚ l2 → loading l1 ≡ₚ loading l2.
Proof. intros Hl. apply held_perm. by rewrite Hl. Qed.

(** The order of the pending list does not matter to the ledger. *)
Lemma book_perm p l1 l2 m n w : l1 ≡ₚ l2 → book p l1 m n w → book p l2 m n w.
Proof.
  intros Hl [B1 B2 B3 B4 B5 B6 B7 B8 B9 B10 B11]. split; try done.
  - intros e He. apply B2. by rewrite Hl.
  - intros i Hi. rewrite B3 by done. by apply Pool.uses_perm, held_perm.
  - intros e k x i He. apply (B4 e). by rewrite Hl.
  - intros e k x i He. apply (B5 e). by rewrite Hl.
  - by rewrite <- (store_keys_perm _ _ Hl).
  - intros k. by rewrite <- (store_keys_perm _ _ Hl).
  - intros k i Hk. apply B8. by rewrite (store_keys_perm _ _ Hl).
  - rewrite B10. by rewrite (loading_perm _ _ Hl).
Qed.

Lemma held_cons e l : held (e :: l) = e.2 ++ held l.
Proof. done. Qed.
Lemma store_keys_store ks bs l : store_keys ((store, ks, bs) :: l) = ks ++ store_keys l.
Proof. unfold store_keys. by rewrite filter_cons, decide_True. Qed.
Lemma store_keys_load ks bs l : store_keys ((load, ks, bs) :: l) = store_keys l.
Proof. unfold store_keys. by rewrite filter_cons, decide_False. Qed.
Lemma loading_store ks bs l : loading ((store, ks, bs) :: l) = loading l.
Proof. unfold loading. by rewrite filter_cons, decide_False. Qed.
Lemma loading_load ks bs l : loading ((load, ks, bs) :: l) = bs ++ loading l.
Proof. unfold loading. by rewrite filter_cons, decide_True. Qed.

(** ** Loads *)

Lemma uses_held_le e l i : e ∈ l → (Pool.uses i e.2 ≤ Pool.uses i (held l))%Z.
Proof.
  intros He. induction He as [e l|e x l _ IH]; rewrite held_cons, Pool.uses_app.
  - pose proof (Pool.uses_nonneg i (held l)). lia.
  - pose proof (Pool.uses_nonneg i x.2). lia.
Qed.

Lemma load_hashed p l m n w ks bs i :
  book p l m n w → (load, ks, bs) ∈ l → i ∈ bs → ∃ k, Pool.bhash p i = Some k.
Proof.
  intros Hb He [x Hx]%list_elem_of_lookup. destruct (b_shape _ _ _ _ _ Hb _ He) as [Hl _]. cbn in Hl.
  destruct (lookup_lt_is_Some_2 ks x) as [k Hk]; [rewrite Hl; by eapply lookup_lt_Some|].
  exists k. by apply (b_loads _ _ _ _ _ Hb _ x k i He).
Qed.

(** A landed load gives its references back. *)
Lemma book_load_done p l m n w ks bs :
  book p ((load, ks, bs) :: l) m n w →
  ∃ p', Pool.free_blocks bs p = Ok p' ∧ book p' l m (n - Z.of_nat (length bs)) w ∧ Pool.keeps p p'.
Proof.
  intros Hb. pose proof Hb as [(Hwf & Ho & Hc) B2 B3 B4 B5 B6 B7 B8 B9 B10 B11].
  assert (Hin : (load, ks, bs) ∈ (load, ks, bs) :: l) by left.
  destruct (B2 _ Hin) as [_ His]. cbn in His.
  destruct (Pool.free_blocks_spec bs p Hwf) as (p' & E' & Hwf' & Hk & Hr & Hf).
  { eapply Forall_impl; [exact His|]. by intros i []. }
  { intros i. destruct (decide (i = Pool.NULL_BLOCK_ID)) as [->|Hi].
    - rewrite Pool.uses_null. destruct (Pool.wf_null _ Hwf). lia.
    - rewrite B3 by done. by apply (uses_held_le (load, ks, bs)). }
  exists p'. split_and!; [done| |done]. pose proof (Pool.keeps_bhash _ _ Hk) as Hbh. split.
  - split_and!; [done|by eapply Pool.hashless_first_freed|].
    destruct (Pool.keeps_geometry _ _ Hk) as (_ & _ & ->). done.
  - intros e He. rewrite (Pool.keeps_num _ _ Hk). apply B2. by right.
  - intros i Hi. rewrite Hr, B3, held_cons, Pool.uses_app by done. cbn. lia.
  - intros e x k i He. rewrite Hbh. apply (B4 e x). by right.
  - intros e x k i He Hs Hx Hi. rewrite Hbh.
    destruct (B5 e x k i ltac:(by right) Hs Hx Hi) as (H1 & H2 & H3). split_and!; [done| |done].
    rewrite Hr, Pool.uses_notin; [lia|]. intros Hin'.
    destruct (load_hashed _ _ _ _ _ _ _ i Hb Hin Hin') as [k' Hk']. congruence.
  - by rewrite store_keys_load in B6.
  - intros k. by rewrite B7, store_keys_load.
  - intros k i Hk'. rewrite Hbh. apply B8. by rewrite store_keys_load.
  - intros k i j. rewrite !Hbh. apply B9.
  - rewrite B10, loading_load, length_app. lia.
  - intros i k. rewrite Hbh. apply B11.
Qed.

(** Pinning resident blocks. *)
Lemma book_load_start p l m n w ks bs :
  book p l m n w → length ks = length bs →
  (∀ x k i, ks !! x = Some k → bs !! x = Some i → Pool.bhash p i = Some k) →
  ∃ p', Pool.touch bs p = Ok p' ∧ book p' ((load, ks, bs) :: l) m (n + Z.of_nat (length bs)) w ∧
    Pool.keeps p p'.
Proof.
  intros Hb Hl Hres. pose proof Hb as [(Hwf & Ho & Hc) B2 B3 B4 B5 B6 B7 B8 B9 B10 B11].
  assert (Hkey : ∀ i, i ∈ bs → ∃ k, Pool.bhash p i = Some k).
  { intros i [x Hx]%list_elem_of_lookup.
    destruct (lookup_lt_is_Some_2 ks x) as [k Hk]; [rewrite Hl; by eapply lookup_lt_Some|].
    exists k. by apply (Hres x). }
  assert (His : Forall (λ i, i ≠ Pool.NULL_BLOCK_ID ∧ i < Pool.num_blocks p) bs).
  { apply Forall_forall. intros i [k Hk]%Hkey. split; [|by eapply Pool.bhash_valid].
    intros ->. destruct (Pool.wf_null _ Hwf). congruence. }
  destruct (Pool.touch_spec bs p Hwf) as (p' & E' & Hwf' & Hk & Hr & Hf).
  { eapply Forall_impl; [exact His|]. by intros i []. }
  exists p'. split_and!; [done| |done]. pose proof (Pool.keeps_bhash _ _ Hk) as Hbh. split.
  - split_and!; [done|by eapply Pool.hashless_first_filter|].
    destruct (Pool.keeps_geometry _ _ Hk) as (_ & _ & ->). done.
  - intros e. rewrite (Pool.keeps_num _ _ Hk). intros [->|He]%elem_of_cons; [done|by apply B2].
  - intros i Hi. rewrite Hr, B3, held_cons, Pool.uses_app by done. cbn. lia.
  - intros e x k i [->|He]%elem_of_cons; rewrite Hbh; [intros _; apply Hres|by apply (B4 e x)].
  - intros e x k i [->|He]%elem_of_cons Hs Hx Hi; [done|]. rewrite Hbh.
    destruct (B5 e x k i He Hs Hx Hi) as (H1 & H2 & H3). split_and!; [done| |done].
    rewrite Hr, Pool.uses_notin; [lia|]. intros [k' Hk']%Hkey. congruence.
  - by rewrite store_keys_load.
  - intros k. by rewrite store_keys_load.
  - intros k i. rewrite store_keys_load, Hbh. apply B8.
  - intros k i j. rewrite !Hbh. apply B9.
  - rewrite B10, loading_load, length_app. lia.
  - intros i k. rewrite Hbh. apply B11.
Qed.

(** ** Stores *)

(** Indexing one hash-less referenced block and dropping that reference. *)
Lemma index_release i k p :
  Pool.wf p → Pool.hashless_first p → Pool.enable_caching p = true → i < Pool.num_blocks p →
  i ≠ Pool.NULL_BLOCK_ID → Pool.bhash p i = None → Pool.refc p i = 1%Z →
  ∃ p1 p2, Pool.cache_full_blocks [i] [k] p = Ok p1 ∧ Pool.free_blocks [i] p1 = Ok p2 ∧
    Pool.wf p2 ∧ Pool.hashless_first p2 ∧ Pool.same_geometry p p2 ∧
    (∀ j, Pool.bhash p2 j = if decide (j = i) then Some k else Pool.bhash p j) ∧
    (∀ j, Pool.refc p2 j = if decide (j = i) then 0%Z else Pool.refc p j).
Proof.
  intros Hwf Ho Hc Hi Hn Hh Hr.
  destruct (Pool.cache_full_blocks_spec [i] [k] p Hwf) as (p1 & E1 & Hwf1 & Hx & Hnz);
    [by repeat constructor|done|].
  destruct (Pool.free_blocks_spec [i] p1 Hwf1) as (p2 & E2 & Hwf2 & Hk & Hr2 & Hf).
  { constructor; [|done]. by rewrite (proj1 (Pool.indexes_geometry _ _ _ _ Hx)). }
  { intros j. rewrite (Pool.indexes_ref _ _ _ _ Hx). pose proof (Pool.wf_ref _ Hwf j). cbn.
    destruct (decide (i = j ∧ i ≠ Pool.NULL_BLOCK_ID)) as [[<- _]|_]; lia. }
  exists p1, p2. split_and!; [done..| | | |].
  - eapply Pool.hashless_first_freed; [done| |done].
    eapply Pool.hashless_first_indexes; [exact Hwf|exact Hx| |done].
    constructor; [|done]. intros _. lia.
  - etrans; [apply (Pool.indexes_geometry _ _ _ _ Hx)|apply (Pool.keeps_geometry _ _ Hk)].
  - intros j. rewrite (Pool.keeps_bhash _ _ Hk). specialize (Hnz Hc).
    assert (Hor : ∀ h, Pool.bhash p1 j = Some h → Pool.bhash p j = Some h ∨ (j = i ∧ h = k)).
    { intros h [?|([|] & [= ->] & [= ->] & _)]%(Pool.indexes_origin _ _ _ _ Hx); [by left|by right]. }
    case_decide as Hj.
    + subst j. destruct (Pool.bhash p1 i) as [h|] eqn:Eh.
      * destruct (Hor h eq_refl) as [|[_ ->]]; [congruence|done].
      * exfalso. by apply (Hnz i); [left| |].
    + destruct (Pool.bhash p j) as [h|] eqn:Eh; [by apply (Pool.indexes_mono _ _ _ _ Hx)|].
      destruct (Pool.bhash p1 j) as [h|]; [|done]. by destruct (Hor h eq_refl) as [|[? _]].
  - intros j. rewrite Hr2, (Pool.indexes_ref _ _ _ _ Hx). cbn.
    destruct (decide (j = i)) as [->|]; [rewrite decide_True by done; lia|].
    rewrite decide_False by naive_solver. lia.
Qed.

(** One key of a landed store becomes loadable. *)
Lemma book_store_one p l m n w k ks i bs :
  book p ((store, k :: ks, i :: bs) :: l) m n w →
  ∃ p1 p2, Pool.cache_full_blocks [i] [k] p = Ok p1 ∧ Pool.free_blocks [i] p1 = Ok p2 ∧
    book p2 ((store, ks, bs) :: l) (delete k m) n w ∧ is_Some (Pool.blocks p !! i) ∧
    (∀ j, Pool.bhash p2 j = if decide (j = i) then Some k else Pool.bhash p j).
Proof.
  intros Hb. pose proof Hb as [(Hwf & Ho & Hc) B2 B3 B4 B5 B6 B7 B8 B9 B10 B11].
  set (e0 := (store, k :: ks, i :: bs)) in *.
  assert (Hin : e0 ∈ e0 :: l) by left.
  destruct (B2 _ Hin) as [Hlen His]. cbn in Hlen, His. injection Hlen as Hlen.
  apply Forall_cons in His as [[Hn Hi] His].
  destruct (B5 e0 0 k i Hin eq_refl eq_refl eq_refl) as (Hh & Hr & Hw).
  destruct (index_release i k p Hwf Ho Hc Hi Hn Hh Hr) as (p1 & p2 & E1 & E2 & Hwf2 & Ho2 & Hg & Hb2 & Hr2).
  assert (Hkeys : store_keys (e0 :: l) = k :: ks ++ store_keys l) by apply store_keys_store.
  rewrite Hkeys in B6. apply NoDup_cons in B6 as [Hk B6].
  assert (Huse : Pool.uses i (bs ++ held l) = 0%Z).
  { specialize (B3 i Hn). rewrite Hr, held_cons in B3. cbn in B3.
    rewrite decide_True in B3 by done. lia. }
  assert (Hno : ∀ e x, e ∈ (store, ks, bs) :: l → e.2 !! x ≠ Some i).
  { intros e x He Hx%list_elem_of_lookup_2.
    assert (0 < Pool.uses i (held ((store, ks, bs) :: l)))%Z.
    { eapply Z.lt_le_trans; [by apply Pool.uses_pos|by apply uses_held_le]. }
    unfold held in *; cbn in *. lia. }
  assert (Hold : ∀ e x k' j, e ∈ (store, ks, bs) :: l → e.1.2 !! x = Some k' → e.2 !! x = Some j →
    ∃ e' x', e' ∈ e0 :: l ∧ e'.1.1 = e.1.1 ∧ e'.1.2 !! x' = Some k' ∧ e'.2 !! x' = Some j).
  { intros e x k' j [->|He]%elem_of_cons H1 H2; [by exists e0, (S x)|].
    exists e, x. split_and!; [by right|done..]. }
  exists p1, p2. split_and!; [done..| | |done].
  2: { apply lookup_lt_is_Some_2. by rewrite (Pool.wf_len _ Hwf). }
  split.
  - split_and!; [done|done|]. destruct Hg as (_ & _ & ->). done.
  - intros e. rewrite (proj1 Hg). intros [->|He]%elem_of_cons; [done|]. apply B2. by right.
  - intros j Hj. rewrite Hr2. case_decide as Hji; [subst; rewrite held_cons; symmetry; exact Huse|].
    rewrite B3, !held_cons by done. cbn. rewrite decide_False by naive_solver. lia.
  - intros e x k' j He Hs H1 H2. rewrite Hb2, decide_False by (intros ->; by eapply Hno).
    destruct (Hold e x k' j He H1 H2) as (e' & x' & ? & ? & ? & ?). apply (B4 e' x'); (done || congruence).
  - intros e x k' j He Hs H1 H2.
    rewrite Hb2, Hr2, !decide_False by (intros ->; by eapply Hno).
    destruct (Hold e x k' j He H1 H2) as (e' & x' & ? & ? & ? & ?). apply (B5 e' x'); (done || congruence).
  - by rewrite store_keys_store.
  - intros k'. rewrite store_keys_store, lookup_delete_is_Some, B7, Hkeys, elem_of_cons.
    split; [naive_solver|]. intros Hk'. split; [by intros ->|by right].
  - intros k' j. rewrite store_keys_store, Hb2. intros Hk'. case_decide; [naive_solver|].
    apply B8. rewrite Hkeys. by right.
  - intros k' j1 j2. rewrite !Hb2. assert (∀ j, Pool.bhash p j ≠ Some k).
    { intros j. apply B8. rewrite Hkeys. left. }
    repeat case_decide; subst; naive_solver.
  - by rewrite B10, !loading_store.
  - intros j k'. rewrite Hb2. case_decide; [|apply B11]. by intros [= <-]; subst.
Qed.

Lemma book_store_nil p l m n w : book p ((store, [], []) :: l) m n w → book p l m n w.
Proof.
  intros [B1 B2 B3 B4 B5 B6 B7 B8 B9 B10 B11]. rewrite store_keys_store in *. split; try done.
  - intros e He. apply B2. by right.
  - intros e x k i He. apply (B4 e x). by right.
  - intros e x k i He. apply (B5 e x). by right.
Qed.

(** ** Completing a transfer *)

(** What completing a transfer leaves alone. *)
Definition same_data t t' : Prop :=
  copier t' = copier t ∧ block_size t' = block_size t ∧ bytes_per_block t' = bytes_per_block t.

#[global] Instance same_data_preorder : PreOrder same_data.
Proof. unfold same_data. split; [done|]. intros t1 t2 t3. intuition congruence. Qed.

(** The tier's ledger against entries other than its own pending list. *)
Definition booked t l w : Prop := book (pool t) l (inflight_stores t) (pinned_cached t) w.

Lemma complete_one_Ok t l w k ks i bs :
  booked t ((store, k :: ks, i :: bs) :: l) w →
  ∃ t', complete_one (k, i) t = Ok t' ∧ booked t' ((store, ks, bs) :: l) w ∧
    same_data t t' ∧ pending t' = pending t ∧ stats t' = stats t ∧
    (∀ j, Pool.bhash (pool t') j = if decide (j = i) then Some k else Pool.bhash (pool t) j).
Proof.
  intros Hb. destruct (book_store_one _ _ _ _ _ _ _ _ _ Hb) as (p1 & p2 & E1 & E2 & Hb2 & [b Hi] & Hh).
  eexists. unfold complete_one, Pool.get_block. cbn [pool set_inflight]. rewrite Hi.
  cbn [mbind result_bind]. rewrite E1. cbn [mbind result_bind]. rewrite E2. by split_and!.
Qed.

Lemma complete_keys_Ok ks bs t l w :
  booked t ((store, ks, bs) :: l) w → length ks = length bs →
  ∃ t', rfold complete_one (zip ks bs) t = Ok t' ∧ booked t' l w ∧
    same_data t t' ∧ pending t' = pending t ∧ stats t' = stats t ∧
    (∀ j k, Pool.bhash (pool t) j = Some k → Pool.bhash (pool t') j = Some k) ∧
    (∀ x k i, ks !! x = Some k → bs !! x = Some i → Pool.bhash (pool t') i = Some k).
Proof.
  revert bs t. induction ks as [|k ks IH]; intros [|i bs] t Hb Hl; try done.
  { exists t. split_and!; try done. by eapply book_store_nil. }
  injection Hl as Hl. assert (Hi : Pool.bhash (pool t) i = None).
  { by destruct (b_stores _ _ _ _ _ Hb (store, k :: ks, i :: bs) 0 k i ltac:(left)) as (? & _). }
  destruct (complete_one_Ok _ _ _ _ _ _ _ Hb) as (t1 & E1 & Hb1 & Hd1 & Hp1 & Hs1 & Hh1).
  destruct (IH bs t1 Hb1 Hl) as (t2 & E2 & Hb2 & Hd2 & Hp2 & Hs2 & Hm2 & Hx2).
  exists t2. change (zip (k :: ks) (i :: bs)) with ((k, i) :: zip ks bs). cbn [rfold].
  rewrite E1. cbn [mbind result_bind]. rewrite E2.
  split_and!; [done|done|by etrans|congruence|congruence| |].
  - intros j h Hj. apply Hm2. rewrite Hh1, decide_False; [done|]. intros ->. congruence.
  - intros [|x] k' i'; [|apply Hx2]. intros [= <-] [= <-]. apply Hm2. by rewrite Hh1, decide_True.
Qed.

(** The pending list's transfer of a kind and keys is the ledger's. *)
Lemma pop_first_Some k ks l tr rest :
  pop_first k ks l = Some (tr, rest) → t_kind tr = k ∧ t_keys tr = ks ∧ l ≡ₚ tr :: rest.
Proof.
  revert rest. induction l as [|x l IH]; intros rest; [done|]. cbn. case_decide as Hx.
  { intros [= <- <-]. by destruct Hx. }
  destruct (pop_first k ks l) as [[tr' l']|]; [|done]. intros [= <- <-].
  destruct (IH l' eq_refl) as (? & ? & Hp). split_and!; [done..|]. rewrite Hp. apply perm_swap.
Qed.
Lemma pop_first_None k ks l tr :
  pop_first k ks l = None → tr ∈ l → ¬ (t_kind tr = k ∧ t_keys tr = ks).
Proof.
  induction l as [|x l IH]; [by intros _ ?%elem_of_nil|]. cbn. case_decide as Hx; [done|].
  destruct (pop_first k ks l) as [[tr' l']|]; [done|]. intros _ [->|Hin]%elem_of_cons; [done|].
  by apply IH.
Qed.

(** Two entries of one kind and nonempty keys are the same move. *)
Lemma entry_same p l m n w k ks bs bs' :
  book p l m n w → (k, ks, bs) ∈ l → (k, ks, bs') ∈ l → (k = store → ks ≠ []) → bs = bs'.
Proof.
  intros Hb H1 H2 Hne. destruct (b_shape _ _ _ _ _ Hb _ H1) as [L1 _], (b_shape _ _ _ _ _ Hb _ H2) as [L2 _].
  cbn in L1, L2. destruct k.
  - destruct (decide (bs = bs')) as [|Hd]; [done|exfalso].
    apply elem_of_Permutation in H1 as [l' Hl]. rewrite Hl in H2.
    apply elem_of_cons in H2 as [[= Hbs]|[l2 Hl2]%elem_of_Permutation]; [by apply Hd|].
    pose proof (b_keys _ _ _ _ _ Hb) as Hnd.
    assert (Hp : l ≡ₚ (store, ks, bs) :: (store, ks, bs') :: l2) by (by rewrite Hl, Hl2).
    rewrite (store_keys_perm _ _ Hp), !store_keys_store in Hnd.
    destruct ks as [|h ks]; [by apply Hne|]. apply NoDup_app in Hnd as (_ & Hdis & _).
    apply (Hdis h); [left|]. apply elem_of_app. left. left.
  - apply list_eq_same_length with (n := length ks); [done..|]. intros x i j Hx Hi Hj.
    destruct (lookup_lt_is_Some_2 ks x) as [h Hh]; [done|].
    apply (b_uniq _ _ _ _ _ Hb h).
    + exact (b_loads _ _ _ _ _ Hb _ x h i H1 eq_refl Hh Hi).
    + exact (b_loads _ _ _ _ _ Hb _ x h j H2 eq_refl Hh Hj).
Qed.

(** What a landed transfer adds to the counters. *)
Definition counted (bytes : nat) (s : OffloadingStats) tr : OffloadingStats :=
  let n := length (t_keys tr) in
  match t_kind tr with
  | store => MkStats (lookups s) (hits s) (stores s + n) (loads s)
      (store_bytes s + n * bytes) (load_bytes s) (evictions s)
  | load => MkStats (lookups s) (hits s) (stores s) (loads s + n) (store_bytes s)
      (load_bytes s + n * bytes) (evictions s)
  end.

Definition complete tr t : result (Tier C E) :=
  match t_kind tr with
  | store => complete_store (t_keys tr) t
  | load => complete_load (t_keys tr) t
  end.

(** Completing a pending transfer takes its entry off the ledger, whichever
    transfer of the same kind and keys the scan finds first. *)
Lemma complete_Ok tr t l w :
  booked t (entry_of tr :: l) w → entry_of <$> pending t ≡ₚ entry_of tr :: l →
  (t_kind tr = store → t_keys tr ≠ []) →
  ∃ t', complete tr t = Ok t' ∧ booked t' l w ∧ entry_of <$> pending t' ≡ₚ l ∧
    same_data t t' ∧ stats t' = counted (bytes_per_block t) (stats t) tr ∧
    (∀ j k, Pool.bhash (pool t) j = Some k → Pool.bhash (pool t') j = Some k) ∧
    (∀ k, k ∈ t_keys tr → ∃ i, Pool.bhash (pool t') i = Some k).
Proof.
  intros Hb Hp Hne. unfold complete.
  assert (Hin : entry_of tr ∈ entry_of <$> pending t) by (rewrite Hp; left).
  destruct (pop_first (t_kind tr) (t_keys tr) (pending t)) as [[tr0 rest]|] eqn:Epop.
  2: { apply list_elem_of_fmap in Hin as (tr1 & Hent & Hin).
       exfalso. eapply pop_first_None; [done..|]. by injection Hent. }
  apply pop_first_Some in Epop as Hpop. destruct Hpop as (Hk0 & Hks0 & Hperm).
  assert (Hent : t_cpu_blocks tr0 = t_cpu_blocks tr).
  { apply (entry_same _ _ _ _ _ (t_kind tr) (t_keys tr) _ _ Hb); [|left|done].
    rewrite <- Hp, Hperm. rewrite <- Hk0, <- Hks0. left. }
  assert (Hrest : entry_of <$> rest ≡ₚ l).
  { apply (Permutation_cons_inv (a := entry_of tr)). rewrite <- Hp, Hperm. cbn.
    unfold entry_of at 3. by rewrite Hk0, Hks0, Hent. }
  destruct (b_shape _ _ _ _ _ Hb (entry_of tr)) as [Hlen _]; [left|]. cbn in Hlen.
  unfold entry_of in Hb. destruct (t_kind tr) eqn:Ek; cbn in Hb.
  - unfold complete_store. rewrite Epop. unfold rguard. rewrite Hks0, Hent, bool_decide_true by done.
    cbn [mbind result_bind].
    destruct (complete_keys_Ok (t_keys tr) (t_cpu_blocks tr) (set_pending rest t) l w Hb Hlen)
      as (t1 & E1 & Hb1 & Hd1 & Hp1 & Hs1 & Hm1 & Hx1).
    rewrite E1. cbn [mbind result_bind]. eexists. split_and!; [done|done| |done| |done|].
    + cbn. by rewrite Hp1.
    + cbn. unfold counted. rewrite Ek. cbn. destruct Hd1 as (_ & _ & ->). by rewrite Hs1.
    + intros k [x Hk]%list_elem_of_lookup. destruct (lookup_lt_is_Some_2 (t_cpu_blocks tr) x) as [i Hi].
      { rewrite <- Hlen. by eapply lookup_lt_Some. }
      exists i. by apply (Hx1 x).
  - unfold complete_load. rewrite Epop, Hks0, Hent.
    destruct (book_load_done _ _ _ _ _ _ _ Hb) as (p1 & E1 & Hb1 & Hk1). rewrite E1.
    cbn [mbind result_bind]. eexists. pose proof (Pool.keeps_bhash _ _ Hk1) as Hh.
    split_and!; [done|done|done|done| | |].
    + unfold counted. by rewrite Ek.
    + intros j k. cbn. by rewrite Hh.
    + intros k [x Hk]%list_elem_of_lookup. destruct (lookup_lt_is_Some_2 (t_cpu_blocks tr) x) as [i Hi].
      { rewrite <- Hlen. by eapply lookup_lt_Some. }
      exists i. cbn. rewrite Hh. by apply (b_loads _ _ _ _ _ Hb (load, t_keys tr, t_cpu_blocks tr) x k i ltac:(left)).
Qed.

(** ** The drain *)

Definition landed (c : C) tr : bool :=
  match t_event tr with None => true | Some e => query e c end.
Definition is_resident p (k : Z) : Prop := ∃ i, Pool.bhash p i = Some k.

Lemma booked_perm t l1 l2 w : l1 ≡ₚ l2 → booked t l1 w → booked t l2 w.
Proof. apply book_perm. Qed.

Lemma drain_one_eq tr kept events t c :
  copier t = c →
  drain_one tr (kept, events, t) =
    if landed c tr then t' ← complete tr t; Ok (kept, events ++ [event_of tr], t')
    else Ok (kept ++ [tr], events, t).
Proof. intros <-. unfold drain_one, is_done, landed. by destruct (t_event tr) as [e|]; [destruct (query e _)|]. Qed.

Lemma drain_Ok l kept events t w c :
  copier t = c → booked t (entry_of <$> kept ++ l) w →
  entry_of <$> pending t ≡ₚ entry_of <$> kept ++ l →
  Forall (λ tr, t_kind tr = store → t_keys tr ≠ []) l →
  ∃ t', rfold drain_one l (kept, events, t) =
      Ok (kept ++ filter (λ tr, landed c tr = false) l,
          events ++ (event_of <$> filter (λ tr, landed c tr = true) l), t') ∧
    booked t' (entry_of <$> kept ++ filter (λ tr, landed c tr = false) l) w ∧
    same_data t t' ∧
    stats t' = foldl (counted (bytes_per_block t)) (stats t) (filter (λ tr, landed c tr = true) l) ∧
    (∀ j k, Pool.bhash (pool t) j = Some k → Pool.bhash (pool t') j = Some k) ∧
    (∀ tr k, tr ∈ l → landed c tr = true → k ∈ t_keys tr → is_resident (pool t') k).
Proof.
  revert kept events t. induction l as [|tr l IH]; intros kept events t Hc Hb Hp Hne.
  { exists t. cbn. rewrite !app_nil_r in *. split_and!; try done.
    by intros tr k Htr%elem_of_nil. }
  apply Forall_cons in Hne as [Htr Hne]. rewrite !filter_cons. 
  change (rfold drain_one (tr :: l) ?s) with (drain_one tr s ≫= rfold drain_one l).
  rewrite (drain_one_eq tr kept events t c Hc). destruct (landed c tr) eqn:El.
  - assert (Hmid : entry_of <$> kept ++ tr :: l ≡ₚ entry_of tr :: (entry_of <$> kept ++ l)).
    { by rewrite <- Permutation_middle. }
    destruct (complete_Ok tr t (entry_of <$> kept ++ l) w) as (t1 & E1 & Hb1 & Hp1 & Hd1 & Hs1 & Hm1 & Hr1);
      [by eapply booked_perm|by etrans|done|].
    rewrite E1. cbn [mbind result_bind].
    destruct (IH kept (events ++ [event_of tr]) t1) as (t2 & E2 & Hb2 & Hd2 & Hs2 & Hm2 & Hr2);
      [by rewrite (proj1 Hd1)|done..|].
    exists t2. rewrite E2. rewrite (decide_True (P := true = true)), (decide_False (P := true = false)) by done.
    split_and!; [by rewrite <- app_assoc|done|by etrans| |by auto|].
    + rewrite Hs2, Hs1. destruct Hd1 as (_ & _ & ->). done.
    + intros tr' k [->|Hin]%elem_of_cons Hl Hk; [|by eapply Hr2].
      destruct (Hr1 k Hk) as [i Hi]. exists i. by apply Hm2.
  - cbn [mbind result_bind].
    destruct (IH (kept ++ [tr]) events t) as (t2 & E2 & Hb2 & Hd2 & Hs2 & Hm2 & Hr2);
      [done|by rewrite <- app_assoc|by rewrite <- app_assoc|done|].
    exists t2. rewrite E2. rewrite (decide_True (P := false = false)), (decide_False (P := false = true)) by done.
    rewrite <- app_assoc in Hb2 |- *. split_and!; try done.
    intros tr' k [->|Hin]%elem_of_cons Hl Hk; [congruence|by eapply Hr2].
Qed.

(** [take_events] completes exactly the transfers whose events fired. *)
Lemma take_events_Ok t w :
  tier_wf t w →
  ∃ t', take_events t =
      Ok (event_of <$> filter (λ tr, landed (copier t) tr = true) (pending t), t') ∧
    tier_wf t' w ∧ pending t' = filter (λ tr, landed (copier t) tr = false) (pending t) ∧
    same_data t t' ∧
    stats t' = foldl (counted (bytes_per_block t)) (stats t)
      (filter (λ tr, landed (copier t) tr = true) (pending t)) ∧
    (∀ j k, Pool.bhash (pool t) j = Some k → Pool.bhash (pool t') j = Some k) ∧
    (∀ tr k, tr ∈ pending t → landed (copier t) tr = true → k ∈ t_keys tr → is_resident (pool t') k).
Proof.
  intros [Hb Hs]. unfold take_events.
  destruct (drain_Ok (pending t) [] [] t w (copier t)) as (t1 & E1 & Hb1 & Hd1 & Hs1 & Hm1 & Hr1);
    [done..|].
  rewrite E1. cbn [mbind result_bind]. eexists. split_and!; [done| |done..].
  split; [exact Hb1|]. apply Forall_forall. intros tr [_ Htr]%list_elem_of_filter.
  by apply (Forall_forall (λ tr, t_kind tr = store → t_keys tr ≠ []) (pending t)).
Qed.

(** ** Starting a load *)

Lemma resident_Some keys p l :
  resident keys p = Some l ↔ Forall2 (λ k i, Pool.get_cached_block k p = Some i) keys l.
Proof.
  revert l. induction keys as [|k keys IH]; intros l; cbn.
  { split; [by intros [= <-]|]. by intros ->%Forall2_nil_inv_l. }
  split.
  - destruct (Pool.get_cached_block k p) as [i|] eqn:Ei; [|done].
    destruct (resident keys p) as [l'|]; [|done]. intros [= <-]. constructor; [done|].
    by apply (IH l').
  - intros (i & l' & Hi & Hl & ->)%Forall2_cons_inv_l. rewrite Hi.
    by rewrite (proj2 (IH l') Hl).
Qed.
Lemma resident_None keys p :
  resident keys p = None ↔ ∃ k, k ∈ keys ∧ Pool.get_cached_block k p = None.
Proof.
  induction keys as [|k keys IH]; cbn; [split; [done|by intros (k & Hk%elem_of_nil & _)]|].
  destruct (Pool.get_cached_block k p) as [i|] eqn:Ei.
  - destruct (resident keys p) as [l|]; split; try done.
    + intros (k' & [->|Hk]%elem_of_cons & Hno); [congruence|].
      enough (Some l = None) by done. apply IH. by exists k'.
    + intros _. destruct (proj1 IH eq_refl) as (k' & Hk & Hno). exists k'. by split; [right|].
  - split; [|done]. intros _. exists k. by split; [left|].
Qed.

(** The transfer a load submits. *)
Definition load_transfer keys (gpu blocks : list nat) t : Transfer E :=
  let moves := zip_with Run gpu blocks in
  MkTransfer load keys blocks gpu (submit moves false (copier t)).1 moves.

Lemma runs_cpu gpu blocks : length gpu = length blocks → cpu_block <$> zip_with Run gpu blocks = blocks.
Proof.
  revert blocks. induction gpu as [|g gpu IH]; intros [|b blocks]; try done.
  intros [= Hl]. cbn. by rewrite IH.
Qed.

Lemma prepare_load_Ok keys gpu t w :
  tier_wf t w → length keys = length gpu →
  match resident keys (pool t) with
  | None => prepare_load keys gpu t = Ok (None, t)
  | Some blocks => ∃ t',
      prepare_load keys gpu t = Ok (Some (MkLoad blocks gpu keys), t') ∧ tier_wf t' w ∧
      pending t' = pending t ++ [load_transfer keys gpu blocks t] ∧
      copier t' = (submit (zip_with Run gpu blocks) false (copier t)).2 ∧
      stats t' = stats t ∧ inflight_stores t' = inflight_stores t ∧ Pool.keeps (pool t) (pool t')
  end.
Proof.
  intros [Hb Hs] Hl. unfold prepare_load, rguard. rewrite bool_decide_true by done.
  cbn [mbind result_bind]. destruct (resident keys (pool t)) as [blocks|] eqn:Er; [|done].
  apply resident_Some in Er. pose proof (Forall2_length _ _ _ Er) as Hlen.
  destruct (b_pool _ _ _ _ _ Hb) as (Hwf & _).
  destruct (book_load_start _ _ _ _ _ keys blocks Hb Hlen) as (p' & E1 & Hb1 & Hk1).
  { intros x k i Hk Hi. by destruct (Pool.get_cached_block_Some k (pool t) i Hwf
      (Forall2_lookup_lr _ _ _ _ _ _ Er Hk Hi)). }
  rewrite E1. cbn [mbind result_bind]. unfold load_transfer. rewrite runs_cpu by congruence.
  cbn [copier set_pinned set_pool].
  destruct (submit (zip_with Run gpu blocks) false (copier t)) as [ev c] eqn:Esub.
  eexists. split; [done|]. cbn. split_and!; [|done..]. split.
  - cbn. rewrite fmap_app. cbn. eapply book_perm; [|exact Hb1]. by rewrite <- Permutation_cons_append.
  - cbn. apply Forall_app. by split; [|repeat constructor].
Qed.

(** ** Starting a store *)

(** Who last wrote each block: the copies of a batch write its keys. *)
Definition wrote (blocks : list nat) (keys : list Z) (w : nat → option Z) : nat → option Z :=
  λ i, match list_find (λ b, b = i) blocks with
       | Some (x, _) => keys !! x
       | None => w i
       end.

Lemma wrote_out blocks keys w i : i ∉ blocks → wrote blocks keys w i = w i.
Proof.
  intros Hi. unfold wrote. rewrite (proj2 (list_find_None _ _)); [done|].
  apply Forall_forall. by intros j Hj ->.
Qed.
Lemma wrote_in blocks keys w x i k :
  NoDup blocks → blocks !! x = Some i → keys !! x = Some k → wrote blocks keys w i = Some k.
Proof.
  intros Hnd Hi Hk. unfold wrote.
  rewrite (proj2 (list_find_Some (λ b, b = i) blocks x i)); [done|]. split_and!; [done|done|].
  intros y j Hj Hlt Hji. subst j. pose proof (NoDup_lookup _ _ _ _ Hnd Hi Hj). lia.
Qed.

Lemma book_store_start p p' l m m' n w keys blocks :
  book p l m n w → Pool.allocates blocks p p' → length keys = length blocks →
  NoDup keys → (∀ k, k ∈ keys → m !! k = None ∧ Pool.get_cached_block k p = None) →
  (∀ k, is_Some (m' !! k) ↔ k ∈ keys ∨ is_Some (m !! k)) →
  book p' ((store, keys, blocks) :: l) m' n (wrote blocks keys w).
Proof.
  intros [(Hwf & Ho & Hc) B2 B3 B4 B5 B6 B7 B8 B9 B10 B11] Ha Hl Hnd Hnew Hm'.
  pose proof Ha as [Hwf' (Hn & _ & Hc') Hfl Hr Hh _ _ _].
  pose proof (Pool.free_list_nodup _ Hwf) as Hndf. rewrite Hfl in Hndf.
  apply NoDup_app in Hndf as (Hndb & _ & _).
  assert (Hfree : ∀ i, i ∈ blocks → i ≠ Pool.NULL_BLOCK_ID ∧ i < Pool.num_blocks p ∧ Pool.refc p i = 0%Z).
  { intros i Hi. assert (Hif : i ∈ Pool.free_list p) by (rewrite Hfl; apply elem_of_app; by left).
    pose proof Hif as [? ?]%(Pool.wf_free _ Hwf). split_and!; [|done..].
    intros ->. by apply (Pool.null_not_free p Hwf). }
  assert (Hheld : ∀ e x i, e ∈ l → e.2 !! x = Some i → i ∉ blocks).
  { intros e x i He Hx%list_elem_of_lookup_2 (Hi & _ & Hri)%Hfree.
    assert (0 < Pool.uses i e.2)%Z by (by apply Pool.uses_pos).
    pose proof (uses_held_le e l i He). rewrite B3 in Hri by done. lia. }
  assert (Hfresh : ∀ k i, k ∈ keys → Pool.bhash p i ≠ Some k).
  { intros k i [_ Hk]%Hnew. by apply (Pool.get_cached_block_None k p Hwf). }
  split.
  - split_and!; [done|exact (Pool.hashless_first_alloc blocks p p' Hwf Ha Ho)|congruence].
  - intros e. rewrite Hn. intros [->|He]%elem_of_cons; [|by apply B2]. cbn. split; [done|].
    apply Forall_forall. by intros i (? & ? & _)%Hfree.
  - intros i Hi. rewrite Hr, B3, held_cons, Pool.uses_app by done. cbn. lia.
  - intros e x k i [->|He]%elem_of_cons; [done|]. intros Hk Hx Hi.
    rewrite Hh, decide_False by (by eapply Hheld). by apply (B4 e x).
  - intros e x k i [->|He]%elem_of_cons; cbn; intros Hk Hx Hi.
    + apply list_elem_of_lookup_2 in Hi as Hib. rewrite Hh, decide_True by done.
      split_and!; [done| |by eapply wrote_in]. destruct (Hfree i Hib) as (? & _ & ?).
      rewrite Hr, Pool.uses_nodup by done. lia.
    + pose proof (Hheld e x i He Hi) as Hib. rewrite Hh, decide_False, Hr, Pool.uses_notin, wrote_out by done.
      destruct (B5 e x k i He Hk Hx Hi) as (? & ? & ?). split_and!; [done|lia|done].
  - rewrite store_keys_store. apply NoDup_app. split_and!; [done| |done].
    intros k [Hk _]%Hnew Hs%B7. rewrite Hk in Hs. by destruct Hs.
  - intros k. by rewrite store_keys_store, Hm', B7, elem_of_app.
  - intros k i. rewrite store_keys_store, Hh. case_decide; [done|].
    intros [Hk|Hk]%elem_of_app; [by apply Hfresh|by apply B8].
  - intros k i j. rewrite !Hh. repeat case_decide; try done. apply B9.
  - by rewrite B10, loading_store.
  - intros i k. rewrite Hh. case_decide; [done|]. rewrite wrote_out by done. apply B11.
Qed.

(** The in-flight map after a batch. *)
Lemma inflight_batch (tr : Transfer E) keys (m : gmap Z (Transfer E)) k :
  is_Some (foldl (λ m key, <[key := tr]> m) m keys !! k) ↔ k ∈ keys ∨ is_Some (m !! k).
Proof.
  revert m. induction keys as [|k' keys IH]; intros m; cbn; [set_solver|].
  rewrite IH, lookup_insert_is_Some, elem_of_cons. destruct (decide (k' = k)); naive_solver.
Qed.

(** ** The eviction prediction *)

(** The blocks the index names. *)
Definition cached_ids p : list nat := concat (map_to_list (Pool.cached_block_hash_to_block p)).*2.

Lemma num_cached_ids p : Pool.num_cached_blocks p = length (cached_ids p).
Proof.
  unfold Pool.num_cached_blocks, cached_ids.
  induction (map_to_list _) as [|[h l] pr IH]; [done|]. cbn in *. by rewrite length_app, IH.
Qed.
Lemma elem_cached_ids p i : Pool.wf p → i ∈ cached_ids p ↔ Pool.bhash p i ≠ None.
Proof.
  intros Hwf. unfold cached_ids. split.
  - intros (l & Hi & Hl)%elem_of_concat. apply list_elem_of_fmap in Hl as ([h l'] & -> & Hp).
    apply elem_of_map_to_list in Hp. cbn in Hi.
    assert (i ∈ Pool.index p h) as ->%(Pool.wf_index _ Hwf); [|done]. unfold Pool.index. by rewrite Hp.
  - destruct (Pool.bhash p i) as [h|] eqn:Eh; [intros _|done].
    apply (Pool.wf_index _ Hwf) in Eh. unfold Pool.index in Eh.
    destruct (Pool.cached_block_hash_to_block p !! h) as [l|] eqn:El; [|by apply elem_of_nil in Eh].
    apply elem_of_concat. exists l. split; [done|]. apply list_elem_of_fmap.
    exists (h, l). split; [done|]. by apply elem_of_map_to_list.
Qed.
Lemma NoDup_cached_ids p : Pool.wf p → NoDup (cached_ids p).
Proof.
  intros Hwf. unfold cached_ids.
  assert (Hall : ∀ h l, (h, l) ∈ map_to_list (Pool.cached_block_hash_to_block p) →
    NoDup l ∧ ∀ i, i ∈ l → Pool.bhash p i = Some h).
  { intros h l Hl%elem_of_map_to_list.
    assert (Hx : Pool.index p h = l) by (unfold Pool.index; by rewrite Hl). rewrite <- Hx.
    split; [apply (Pool.wf_index_nodup _ Hwf)|]. intros i. apply (Pool.wf_index _ Hwf). }
  pose proof (NoDup_fst_map_to_list (Pool.cached_block_hash_to_block p)) as Hnd.
  induction (map_to_list _) as [|[h l] pr IH]; [by apply NoDup_nil|]. cbn in *.
  apply NoDup_cons in Hnd as [Hh Hnd]. destruct (Hall h l ltac:(left)) as [Hl Hlh].
  apply NoDup_app. split_and!; [done| |apply IH; [|done]].
  - intros i Hi%Hlh (l' & Hi' & Hl')%elem_of_concat.
    apply list_elem_of_fmap in Hl' as ([h' l2] & -> & Hp). cbn in Hi'.
    destruct (Hall h' l2 ltac:(by right)) as [_ Hl2]. apply Hh.
    assert (h = h') as -> by (apply Hl2 in Hi'; congruence).
    apply list_elem_of_fmap. by exists (h', l2).
  - intros h' l' Hp. apply Hall. by right.
Qed.

(** With no block pinned twice the tier counts its evictable blocks exactly. *)
Lemma cached_free_exact p l m n w :
  book p l m n w → NoDup (loading l) →
  (Z.of_nat (Pool.num_cached_blocks p) - n)%Z =
    Z.of_nat (length (filter (λ i, Pool.bhash p i ≠ None) (Pool.free_list p))).
Proof.
  intros Hb Hnd. pose proof Hb as [(Hwf & _) B2 B3 B4 B5 _ _ _ _ B10 _].
  rewrite B10, num_cached_ids.
  rewrite (Permutation_length (l' := filter (λ i, Pool.bhash p i ≠ None) (Pool.free_list p) ++ loading l)).
  { rewrite length_app. lia. }
  assert (Hload : ∀ i, i ∈ loading l → Pool.bhash p i ≠ None ∧ i ∉ Pool.free_list p).
  { intros i (bs & Hi & Hbs)%elem_of_concat. apply list_elem_of_fmap in Hbs as ([[k ks] bs'] & -> & He).
    apply list_elem_of_filter in He as [Hk He]. cbn in Hk, Hi. subst k.
    destruct (load_hashed _ _ _ _ _ _ _ _ Hb He Hi) as [h Hh]. split; [congruence|].
    intros [_ Hr]%(Pool.wf_free _ Hwf). destruct (B2 _ He) as [_ Hf]. rewrite Forall_forall in Hf.
    destruct (Hf i Hi) as [Hn _]. rewrite B3 in Hr by done.
    pose proof (uses_held_le _ _ i He). pose proof (Pool.uses_pos i bs' Hi Hn). cbn in *. lia. }
  apply NoDup_Permutation; [by apply NoDup_cached_ids| |].
  { apply NoDup_app. split_and!; [by apply NoDup_filter, Pool.free_list_nodup| |done].
    intros i [_ Hi]%list_elem_of_filter [_ Hf]%Hload. done. }
  intros i. rewrite elem_cached_ids, elem_of_app, list_elem_of_filter by done.
  split; [|intros [[? _]|[? _]%Hload]; done]. intros Hi.
  destruct (decide (i ∈ Pool.free_list p)) as [|Hf]; [by left|right].
  assert (Hlt : i < Pool.num_blocks p).
  { destruct (Pool.bhash p i) as [h|] eqn:Eh; [by eapply Pool.bhash_valid|done]. }
  assert (Hn : i ≠ Pool.NULL_BLOCK_ID) by (intros ->; by destruct (Pool.wf_null _ Hwf)).
  assert (Hr : Pool.refc p i ≠ 0%Z) by (intros Hr; apply Hf, (Pool.wf_free _ Hwf); done).
  rewrite B3 in Hr by done. destruct (decide (i ∈ held l)) as [Hh|]; [|by rewrite Pool.uses_notin in Hr].
  apply elem_of_concat in Hh as (bs & Hib & Hbs).
  apply list_elem_of_fmap in Hbs as ([[k ks] bs'] & -> & He). cbn in Hib. destruct k.
  - apply list_elem_of_lookup in Hib as [x Hx]. destruct (B2 _ He) as [Hlen _]. cbn in Hlen.
    destruct (lookup_lt_is_Some_2 ks x) as [h Hh]; [rewrite Hlen; by eapply lookup_lt_Some|].
    destruct (B5 _ x h i He eq_refl Hh Hx) as (? & _). done.
  - apply elem_of_concat. exists bs'. split; [done|]. apply list_elem_of_fmap.
    exists (load, ks, bs'). split; [done|]. by apply list_elem_of_filter.
Qed.

(** Handing out no more blocks than are hash-less forgets no key. *)
Lemma alloc_hashless p p' (n : nat) :
  Pool.wf p → Pool.hashless_first p →
  Pool.allocates (take n (Pool.free_list p)) p p' →
  n + length (filter (λ i, Pool.bhash p i ≠ None) (Pool.free_list p)) ≤ length (Pool.free_list p) →
  ∀ i, Pool.bhash p' i = Pool.bhash p i.
Proof.
  intros Hwf (l1 & l2 & Hf & H1 & H2) Ha Hn i. rewrite (Pool.alloc_hash _ _ _ Ha).
  case_decide as Hi; [|done]. symmetry. apply (Forall_forall (λ i, Pool.bhash p i = None) l1); [done|].
  assert (Hle : n ≤ length l1).
  { rewrite Hf, filter_app, !length_app, (filter_all _ l2) in Hn; [lia|].
    by apply Forall_forall. }
  rewrite Hf, take_app_le in Hi by done. by eapply elem_take.
Qed.

Lemma index_keys_iff p k : Pool.wf p → k ∈ index_keys p ↔ is_resident p k.
Proof.
  intros Hwf. unfold index_keys, is_resident. rewrite elem_of_dom. split.
  - intros [l Hl]. destruct l as [|i l]; [by destruct (Pool.wf_index_ne _ Hwf k)|].
    exists i. apply (Pool.wf_index _ Hwf). unfold Pool.index. rewrite Hl. left.
  - intros [i Hi%(Pool.wf_index _ Hwf)]. unfold Pool.index in Hi.
    by destruct (Pool.cached_block_hash_to_block p !! k); [|apply elem_of_nil in Hi].
Qed.

(** [evicted] is empty when the tier predicts it need not look. *)
Lemma prediction_sound p p' l m n w (fresh : nat) :
  book p l m n w → NoDup (loading l) →
  Pool.allocates (take fresh (Pool.free_list p)) p p' →
  (Z.of_nat fresh ≤ Pool.num_free_blocks p - (Z.of_nat (Pool.num_cached_blocks p) - n))%Z →
  index_keys p ∖ index_keys p' = ∅.
Proof.
  intros Hb Hnd Ha Hle. destruct (b_pool _ _ _ _ _ Hb) as (Hwf & Ho & _).
  rewrite (cached_free_exact _ _ _ _ _ Hb Hnd), (Pool.num_free_length p Hwf) in Hle.
  assert (Hsame : ∀ i, Pool.bhash p' i = Pool.bhash p i) by (eapply alloc_hashless; [done..|lia]).
  apply leibniz_equiv. intros k. rewrite elem_of_difference, !index_keys_iff, elem_of_empty; [|apply Ha|done].
  unfold is_resident. setoid_rewrite Hsame. naive_solver.
Qed.

(** ** Storing *)

(** The transfer a store submits. *)
Definition store_transfer (fresh : list (nat * Z)) (blocks : list nat) t : Transfer E :=
  let moves := zip_with Run fresh.*1 blocks in
  MkTransfer store fresh.*2 blocks fresh.*1 (submit moves true (copier t)).1 moves.

(** A store that goes ahead. *)
Record stored t t' (fresh : list (nat * Z)) (blocks : list nat) : Prop := {
  st_blocks : blocks = take (length fresh) (Pool.free_list (pool t));
  st_length : length blocks = length fresh;
  st_alloc : Pool.allocates blocks (pool t) (pool t');
  st_pending : pending t' = pending t ++ [store_transfer fresh blocks t];
  st_copier : copier t' = (submit (zip_with Run fresh.*1 blocks) true (copier t)).2;
  st_pinned : pinned_cached t' = pinned_cached t;
  st_stats : stats t' = stats t;
}.

Lemma fresh_entry_spec t e :
  fresh_entry t e = true ↔
  inflight_stores t !! e.2 = None ∧ Pool.get_cached_block e.2 (pool t) = None.
Proof.
  unfold fresh_entry. rewrite negb_true_iff, orb_false_iff, !bool_decide_eq_false.
  by rewrite <- !eq_None_not_Some.
Qed.

Lemma prepare_store_Ok entries t w :
  tier_wf t w → NoDup entries.*2 →
  let fresh := filter (λ e, fresh_entry t e) entries in
  (prepare_store entries t = Ok (MkStore [] [] ∅, t) ∧
     (fresh = [] ∨ length (Pool.free_list (pool t)) < length fresh)) ∨
  ∃ ev t' blocks, prepare_store entries t = Ok (MkStore (zip_with Run fresh.*1 blocks) fresh.*2 ev, t') ∧
    fresh ≠ [] ∧ stored t t' fresh blocks ∧ tier_wf t' (wrote blocks fresh.*2 w) ∧
    ev = (if decide (Pool.num_free_blocks (pool t) -
              (Z.of_nat (Pool.num_cached_blocks (pool t)) - pinned_cached t) <
              Z.of_nat (length fresh))%Z
          then index_keys (pool t) ∖ index_keys (pool t') else ∅).
Proof.
  intros [Hb Hs] Hnd fresh. unfold prepare_store. fold fresh.
  destruct (decide (fresh = [])) as [|Hne]; [by left; split; [|left]|].
  destruct (b_pool _ _ _ _ _ Hb) as (Hwf & _).
  pose proof (Pool.get_new_blocks_spec (length fresh) (pool t) Hwf) as Hg.
  destruct (decide (length (Pool.free_list (pool t)) < length fresh)) as [Hlt|Hge].
  { left. rewrite Hg. cbn [mbind result_bind]. split; [by destruct t|by right]. }
  destruct Hg as (p' & Eg & Ha). right. rewrite Eg. cbn [mbind result_bind].
  set (blocks := take (length fresh) (Pool.free_list (pool t))) in *.
  assert (Hlen : length blocks = length fresh) by (unfold blocks; rewrite length_take; lia).
  destruct (submit (zip_with Run fresh.*1 blocks) true (copier t)) as [e c] eqn:Esub.
  eexists _, _, blocks. split; [done|]. split; [done|]. split; [|split].
  - split; try done; cbn; [|by rewrite Esub]. unfold store_transfer.
    rewrite Esub, runs_cpu by (by rewrite length_fmap). done.
  - split.
    + cbn. rewrite fmap_app, runs_cpu by (by rewrite length_fmap). cbn.
      eapply book_perm; [apply Permutation_cons_append|].
      eapply book_store_start; [exact Hb|done|by rewrite length_fmap| | |apply inflight_batch].
      * eapply sublist_NoDup; [exact Hnd|]. apply fmap_sublist, sublist_filter.
      * intros k ([g k'] & -> & [Hk _]%list_elem_of_filter)%list_elem_of_fmap. cbn.
        apply (fresh_entry_spec t (g, k')). by destruct (fresh_entry t (g, k')).
    + cbn. apply Forall_app. split; [done|]. constructor; [|done]. cbn. intros _.
      by destruct fresh.
  - cbn. destruct (Z.ltb_spec (Pool.num_free_blocks (pool t) -
      (Z.of_nat (Pool.num_cached_blocks (pool t)) - pinned_cached t)) (Z.of_nat (length fresh)));
      [by rewrite decide_True|rewrite decide_False; [done|lia]].
Qed.

(** ** Recency and reset *)

Lemma book_keeps p p' l m n w :
  book p l m n w → Pool.wf p' → Pool.hashless_first p' → Pool.keeps p p' →
  (∀ i, Pool.refc p' i = Pool.refc p i) → book p' l m n w.
Proof.
  intros [(Hwf & Ho & Hc) B2 B3 B4 B5 B6 B7 B8 B9 B10 B11] Hwf' Ho' Hk Hr.
  pose proof (Pool.keeps_bhash _ _ Hk) as Hh. split; try done.
  - split_and!; [done|done|]. destruct (Pool.keeps_geometry _ _ Hk) as (_ & _ & ->). done.
  - intros e. rewrite (Pool.keeps_num _ _ Hk). apply B2.
  - intros i. rewrite Hr. apply B3.
  - intros e x k i. rewrite Hh. apply B4.
  - intros e x k i. rewrite Hh, Hr. apply B5.
  - intros k i. rewrite Hh. apply B8.
  - intros k i j. rewrite !Hh. apply B9.
  - intros i k. rewrite Hh. apply B11.
Qed.

(** The queue after one key is touched: its block moves to the back. *)
Definition bump p (l : list nat) (key : Z) : list nat :=
  match Pool.get_cached_block key p with
  | Some i => if decide (i ∈ l) then filter (λ j, j ≠ i) l ++ [i] else l
  | None => l
  end.

(** Moving a cached block to the back of the queue. *)
Lemma requeue_Ok p i h :
  Pool.wf p → Pool.hashless_first p → Pool.bhash p i = Some h → i ∈ Pool.free_list p →
  ∃ q1 q2, FreeBlockQueue.remove i (Pool.free_block_queue p) = Ok q1 ∧
    FreeBlockQueue.append i q1 = Ok q2 ∧
    let p' := Pool.set_queue q2 p in
    Pool.wf p' ∧ Pool.hashless_first p' ∧
    Pool.free_list p' = filter (λ j, j ≠ i) (Pool.free_list p) ++ [i].
Proof.
  intros Hwf (l1 & l2 & Hf & H1 & H2) Hh Hi.
  destruct (FreeBlockQueue.remove_repr _ _ i (Pool.wf_repr _ Hwf) Hi) as (q1 & E1 & Hq1).
  set (l0 := filter (λ j, j ≠ i) (Pool.free_list p)) in *.
  destruct (FreeBlockQueue.append_repr q1 l0 i Hq1) as (q2 & E2 & Hq2).
  { unfold l0. intros Hi'%list_elem_of_filter. naive_solver. }
  assert (Hfl : Pool.free_list (Pool.set_queue q2 p) = l0 ++ [i]).
  { by apply FreeBlockQueue.iter_repr. }
  exists q1, q2. cbv zeta. split_and!; [done|done| | |done].
  - apply (Pool.wf_refs p _ (l0 ++ [i])); try done; try apply Hwf.
    intros j. rewrite elem_of_app, list_elem_of_singleton. unfold l0.
    rewrite list_elem_of_filter, <- (Pool.wf_free _ Hwf).
    destruct (decide (j = i)) as [->|]; naive_solver.
  - exists (filter (λ j, j ≠ i) l1), (filter (λ j, j ≠ i) l2 ++ [i]).
    rewrite Hfl. unfold l0. rewrite Hf, filter_app, app_assoc. split_and!; [done| |].
    + apply Forall_forall. intros j [_ Hj]%list_elem_of_filter.
      exact (proj1 (Forall_forall (λ i, Pool.bhash p i = None) l1) H1 j Hj).
    + apply Forall_app. split; [|constructor; [|done]].
      * apply Forall_forall. intros j [_ Hj]%list_elem_of_filter.
        exact (proj1 (Forall_forall (λ i, Pool.bhash p i ≠ None) l2) H2 j Hj).
      * change (Pool.bhash p i ≠ None). congruence.
Qed.

(** What a touch leaves alone. *)
Definition same_pool t t' : Prop :=
  Pool.keeps (pool t) (pool t') ∧ (∀ i, Pool.refc (pool t') i = Pool.refc (pool t) i) ∧
  same_data t t' ∧ pending t' = pending t ∧ stats t' = stats t.

Lemma touch_key_Ok key t w :
  tier_wf t w →
  ∃ t', touch_key key t = Ok t' ∧ tier_wf t' w ∧ same_pool t t' ∧
    Pool.free_list (pool t') = bump (pool t) (Pool.free_list (pool t)) key.
Proof.
  intros Hw. pose proof Hw as [Hb Hs]. destruct (b_pool _ _ _ _ _ Hb) as (Hwf & Ho & _).
  unfold touch_key, bump. destruct (Pool.get_cached_block key (pool t)) as [i|] eqn:Ei; [|by exists t].
  destruct (Pool.get_cached_block_Some _ _ _ Hwf Ei) as (Hh & Hlt & Hn).
  destruct (Pool.valid_block _ _ Hwf Hlt) as (b & Eb & Hr & _). rewrite Eb. cbn [mbind result_bind].
  pose proof (Pool.wf_free _ Hwf i) as Hfree.
  destruct (Z.ltb_spec 0 (Pool.ref_cnt b)) as [Hpos|Hpos].
  { rewrite decide_False by (intros [_ ?]%Hfree; lia). by exists t. }
  pose proof (Pool.wf_ref _ Hwf i) as Hge.
  assert (Hif : i ∈ Pool.free_list (pool t)) by (apply Hfree; split; [done|lia]).
  rewrite decide_True by done.
  destruct (requeue_Ok _ _ _ Hwf Ho Hh Hif) as (q1 & q2 & -> & E2 & Hwf' & Ho' & Hfl).
  cbn [mbind result_bind]. rewrite E2. cbn [mbind result_bind]. eexists. split; [done|].
  split; [|by split]. split; [|done]. eapply book_keeps; [exact Hb|done|done|by split|done].
Qed.

Lemma touch_Ok keys t w :
  tier_wf t w →
  ∃ t', touch keys t = Ok t' ∧ tier_wf t' w ∧ same_pool t t' ∧
    Pool.free_list (pool t') = foldl (bump (pool t)) (Pool.free_list (pool t)) keys.
Proof.
  revert t. induction keys as [|key keys IH]; intros t Hw; [by exists t|].
  destruct (touch_key_Ok key t w Hw) as (t1 & E1 & Hw1 & (Hk1 & Hr1 & Hd1 & Hp1 & Hs1) & Hf1).
  destruct (IH t1 Hw1) as (t2 & E2 & Hw2 & (Hk2 & Hr2 & Hd2 & Hp2 & Hs2) & Hf2).
  exists t2. unfold touch in *. cbn [rfold]. rewrite E1. cbn [mbind result_bind].
  split_and!; [done|done| |].
  - split_and!; [by etrans| |by etrans|congruence|congruence]. intros i. by rewrite Hr2.
  - rewrite Hf2, Hf1. cbn. generalize (bump (pool t) (Pool.free_list (pool t)) key).
    clear -Hk1. induction keys as [|k keys IH]; intros l; [done|]. cbn. rewrite <- IH. f_equal.
    unfold bump, Pool.get_cached_block. by rewrite (Pool.keeps_index _ _ Hk1).
Qed.

(** A tier with nothing in flight and nothing cached. *)
Lemma book_empty p m w :
  Pool.wf p → Pool.enable_caching p = true →
  (∀ i, i ≠ Pool.NULL_BLOCK_ID → Pool.refc p i = 0%Z) → (∀ i, Pool.bhash p i = None) →
  (∀ k, m !! k = None) → book p [] m 0 w.
Proof.
  intros Hwf Hc Hr Hh Hm. split; try done.
  - split_and!; [done| |done]. exists (Pool.free_list p), []. rewrite app_nil_r.
    split_and!; [done| |done]. apply Forall_forall. intros i _. apply Hh.
  - intros e He. by apply elem_of_nil in He.
  - intros e x k i He. by apply elem_of_nil in He.
  - intros e x k i He. by apply elem_of_nil in He.
  - by apply NoDup_nil.
  - intros k. rewrite Hm. split; [by intros [? ?]|by intros ?%elem_of_nil].
  - intros k i. rewrite Hh. done.
  - intros k i j. by rewrite Hh.
  - intros i k. by rewrite Hh.
Qed.

(** [reset_cache] drains, then refuses while a transfer is in flight. *)
Lemma reset_cache_Ok t w :
  tier_wf t w →
  ∃ b t', reset_cache t = Ok (b, t') ∧ tier_wf t' w ∧ copier t' = copier t ∧
    pending t' = filter (λ tr, landed (copier t) tr = false) (pending t) ∧
    (b = true ↔ pending t' = []) ∧ (b = true → ∀ k, ¬ is_resident (pool t') k).
Proof.
  intros Hw. destruct (take_events_Ok t w Hw) as (t1 & E1 & Hw1 & Hp1 & Hd1 & _).
  unfold reset_cache. rewrite E1. cbn [mbind result_bind].
  destruct (decide (length (pending t1) ≠ 0)) as [Hne|He].
  { exists false, t1. split_and!; [done|done|apply Hd1|done| |done].
    split; [done|]. intros Hn. by rewrite Hn in Hne. }
  assert (Hnil : pending t1 = []) by (apply nil_length_inv; lia).
  destruct Hw1 as [Hb1 Hs1]. destruct (b_pool _ _ _ _ _ Hb1) as (Hwf & Ho & Hc).
  rewrite Hnil in Hb1. pose proof Hb1 as [_ _ B3 _ _ _ B7 _ _ B10 _].
  pose proof (Pool.reset_spec _ Hwf) as Hr.
  destruct (Pool.reset_prefix_cache (pool t1)) as [b p'] eqn:Er. destruct Hr as (Hwf' & Hiff & Hb').
  assert (b = true) as ->.
  { apply Hiff. intros i Hi. rewrite B3; [done|]. unfold Pool.NULL_BLOCK_ID. lia. }
  destruct Hb' as (Hg & Hrc & Hh & _ & Hfl & _).
  eexists true, _. split; [done|]. cbn. split_and!; [|apply Hd1|done|done|].
  - split; [|done]. cbn. rewrite Hnil, B10. apply book_empty; try done.
    + by destruct Hg as (_ & _ & ->).
    + intros i Hi. rewrite Hrc. by apply B3.
    + intros k. apply eq_None_not_Some. intros Hk%B7. by apply elem_of_nil in Hk.
  - intros _ k [i Hi]. by rewrite Hh in Hi.
Qed.

End Inv.
End CpuInv.
