(* ===== verification/CpuTierSpec.v ===== *)
(** * What the CPU tier promises

    The tier as a state machine: every manager operation and every advance of
    the copy streams is a step, and [written] is a ghost map from a CPU block
    to the key whose rows were last copied into it. *)

From S2P Require Export CpuTierInv.

Module CpuSpec.
Import Offload Cpu CpuInv.

Section Spec.
Context {C E : Type} `{!BlockCopier C E}.
Implicit Types (t : Tier C E) (w : nat → option Z).

(** One operation; the copy streams move on their own. *)
Inductive step : Tier C E * (nat → option Z) → Tier C E * (nat → option Z) → Prop :=
  | step_lookup key r t t' w : lookup key t = (r, t') → step (t, w) (t', w)
  | step_touch keys t t' w : touch keys t = Ok t' → step (t, w) (t', w)
  | step_load keys gpu spec t t' w :
      prepare_load keys gpu t = Ok (spec, t') → step (t, w) (t', w)
  | step_store entries spec t t' w :
      NoDup entries.*2 → prepare_store entries t = Ok (spec, t') →
      step (t, w) (t', wrote (cpu_block <$> store_moves spec) (Offload.store_keys spec) w)
  | step_events events t t' w : take_events t = Ok (events, t') → step (t, w) (t', w)
  | step_reset b t t' w : reset_cache t = Ok (b, t') → step (t, w) (t', w)
  | step_stream c t w : step (t, w) (set_copier c t, w).

(** A tier the constructor made, then driven by steps. *)
Inductive reachable : Tier C E → (nat → option Z) → Prop :=
  | reach_init n bs c bytes t w : init n bs c bytes = Ok t → reachable t w
  | reach_step t w t' w' : reachable t w → step (t, w) (t', w') → reachable t' w'.

Lemma tier_init_wf n bs c bytes t w : init n bs c bytes = Ok t → tier_wf t w.
Proof.
  unfold init. intros Hi. apply bind_Ok in Hi as ([] & Hg & Hi). apply bind_Ok in Hi as (p & Hp & Hi).
  injection Hi as <-. destruct (Pool.init_Ok _ _ _ _ Hp) as (Hwf & _ & _ & _ & _ & Hr & Hc & Hh).
  split; [|done]. cbn. apply book_empty; try done.
Qed.

Lemma lookup_pool key r t t' :
  lookup key t = (r, t') →
  pool t' = pool t ∧ pending t' = pending t ∧ inflight_stores t' = inflight_stores t ∧
  pinned_cached t' = pinned_cached t ∧ copier t' = copier t ∧
  r = (match Pool.get_cached_block key (pool t) with Some _ => HIT | None => MISS end).
Proof. unfold lookup. by destruct (Pool.get_cached_block key (pool t)); intros [= <- <-]. Qed.

Lemma tier_wf_view t t' w :
  tier_wf t w → pool t' = pool t → pending t' = pending t → inflight_stores t' = inflight_stores t →
  pinned_cached t' = pinned_cached t → tier_wf t' w.
Proof. intros [Hb Hs] H1 H2 H3 H4. split; by rewrite ?H1, ?H2, ?H3, ?H4. Qed.

Lemma prepare_load_mismatch keys gpu t :
  length keys ≠ length gpu → prepare_load keys gpu t = Err ValueError.
Proof. intros Hl. unfold prepare_load, rguard. by rewrite bool_decide_false. Qed.

Lemma tier_step_wf t w t' w' : step (t, w) (t', w') → tier_wf t w → tier_wf t' w'.
Proof.
  intros Hst Hw. inversion Hst as [key r ??? Hs|keys ??? Hs|keys gpu spec ??? Hs|entries spec ??? Hnd Hs|
    ev ??? Hs|b ??? Hs|c ??]; subst.
  - destruct (lookup_pool _ _ _ _ Hs) as (? & ? & ? & ? & _). by eapply tier_wf_view.
  - destruct (touch_Ok keys t w' Hw) as (t1 & E1 & Hw1 & _). congruence.
  - destruct (decide (length keys = length gpu)) as [Hl|Hl];
      [|by rewrite prepare_load_mismatch in Hs].
    pose proof (prepare_load_Ok keys gpu t w' Hw Hl) as Hp. rewrite Hs in Hp.
    destruct (resident keys (pool t)) as [blocks|]; [|congruence].
    destruct Hp as (t1 & E1 & Hw1 & _). congruence.
  - destruct (prepare_store_Ok entries t w Hw Hnd) as [[E1 _]|(ev & t1 & blocks & E1 & _ & Hst1 & Hw1 & _)].
    + rewrite E1 in Hs. injection Hs as <- <-. exact Hw.
    + rewrite E1 in Hs. injection Hs as <- <-. cbn.
      rewrite runs_cpu; [exact Hw1|]. rewrite length_fmap. symmetry. apply (st_length _ _ _ _ Hst1).
  - destruct (take_events_Ok t w' Hw) as (t1 & E1 & Hw1 & _). rewrite E1 in Hs. congruence.
  - destruct (reset_cache_Ok t w' Hw) as (b1 & t1 & E1 & Hw1 & _). rewrite E1 in Hs. congruence.
  - by eapply tier_wf_view.
Qed.

Lemma tier_reach_wf t w : reachable t w → tier_wf t w.
Proof.
  induction 1 as [n bs c bytes t w Hi|t w t' w' _ IH Hs]; [by eapply tier_init_wf|].
  by eapply tier_step_wf.
Qed.

(** ** The promises *)

(** C25: In any reachable state of the CPU tier, a key the tier answers HIT for
    names a block whose last copy was made under that key, and a copy still in
    flight writes no such block; every block a pending load reads still holds
    the key it was asked for and cannot be handed out, and the blocks a
    pending store writes belong to it alone and answer no lookup. *)
Theorem tier_reads_what_was_stored t w (Hr : reachable t w) :
  (∀ key t', lookup key t = (HIT, t') →
    ∃ i, Pool.get_cached_block key (pool t) = Some i ∧ w i = Some key ∧
      ∀ tr, tr ∈ pending t → t_kind tr = store → i ∉ t_cpu_blocks tr) ∧
  (∀ tr x key i, tr ∈ pending t → t_keys tr !! x = Some key → t_cpu_blocks tr !! x = Some i →
    w i = Some key ∧ i ∉ Pool.free_list (pool t)) ∧
  (∀ tr i, tr ∈ pending t → t_kind tr = store → i ∈ t_cpu_blocks tr →
    Pool.refc (pool t) i = 1%Z ∧ ∀ key, Pool.get_cached_block key (pool t) ≠ Some i).
Proof.
  destruct (tier_reach_wf t w Hr) as [Hb _]. pose proof Hb as [(Hwf & _) B2 B3 B4 B5 _ _ _ _ _ B11].
  assert (Hent : ∀ tr, tr ∈ pending t → entry_of tr ∈ entry_of <$> pending t).
  { intros tr. apply list_elem_of_fmap_2. }
  assert (Hstore : ∀ tr i, tr ∈ pending t → t_kind tr = store → i ∈ t_cpu_blocks tr →
    Pool.bhash (pool t) i = None ∧ Pool.refc (pool t) i = 1%Z).
  { intros tr i Htr Hk [x Hx]%list_elem_of_lookup. destruct (B2 _ (Hent _ Htr)) as [Hl _]. cbn in Hl.
    destruct (lookup_lt_is_Some_2 (t_keys tr) x) as [k Hkx]; [rewrite Hl; by eapply lookup_lt_Some|].
    by destruct (B5 _ x k i (Hent _ Htr) Hk Hkx Hx) as (? & ? & _). }
  split_and!.
  - intros key t' (_ & _ & _ & _ & _ & Hh)%lookup_pool.
    destruct (Pool.get_cached_block key (pool t)) as [i|] eqn:Ei; [|done]. exists i.
    destruct (Pool.get_cached_block_Some _ _ _ Hwf Ei) as (Hi & _). split_and!; [done|by apply B11|].
    intros tr Htr Hk Hin. destruct (Hstore tr i Htr Hk Hin) as [? _]. congruence.
  - intros tr x key i Htr Hk Hi. split.
    + destruct (t_kind tr) eqn:Ek; [by destruct (B5 _ x key i (Hent _ Htr) Ek Hk Hi) as (_ & _ & ?)|].
      apply B11. by apply (B4 _ x key i (Hent _ Htr) Ek).
    + intros [_ H0]%(Pool.wf_free _ Hwf). apply list_elem_of_lookup_2 in Hi.
      destruct (B2 _ (Hent _ Htr)) as [_ Hf]. rewrite Forall_forall in Hf. destruct (Hf i Hi) as [Hn _].
      rewrite B3 in H0 by done. pose proof (uses_held_le _ _ i (Hent _ Htr)) as Hle.
      pose proof (Pool.uses_pos i (entry_of tr).2 Hi Hn). lia.
  - intros tr i Htr Hk Hi. destruct (Hstore tr i Htr Hk Hi) as [Hn ?]. split; [done|].
    intros key Hg. destruct (Pool.get_cached_block_Some _ _ _ Hwf Hg) as (? & _). congruence.
Qed.

(** [take_events] on a reachable tier never raises.  It reports, in
    submission order, exactly the transfers whose events have fired, keeps
    exactly the others pending, counts each landed transfer once, forgets no
    key, and makes every key of a landed transfer answer HIT. *)
Theorem take_events_exact t w (Hr : reachable t w) :
  ∃ t', take_events t =
      Ok (event_of <$> filter (λ tr, landed (copier t) tr = true) (pending t), t') ∧
    pending t' = filter (λ tr, landed (copier t) tr = false) (pending t) ∧
    stats t' = foldl (counted (bytes_per_block t)) (stats t)
      (filter (λ tr, landed (copier t) tr = true) (pending t)) ∧
    (∀ k, is_resident (pool t) k → is_resident (pool t') k) ∧
    (∀ tr k, tr ∈ pending t → landed (copier t) tr = true → k ∈ t_keys tr → (lookup k t').1 = HIT).
Proof.
  destruct (take_events_Ok t w (tier_reach_wf t w Hr)) as (t' & E1 & Hw' & Hp & Hd & Hs & Hm & Hx).
  exists t'. split_and!; [done|done|done| |].
  - intros k [i Hi]. exists i. by apply Hm.
  - intros tr k Htr Hl Hk. destruct (Hx tr k Htr Hl Hk) as [i Hi].
    destruct (b_pool _ _ _ _ _ (tw_book _ _ Hw')) as (Hwf & _).
    unfold lookup. destruct (Pool.get_cached_block k (pool t')) as [j|] eqn:Ej; [done|exfalso].
    by apply (proj1 (Pool.get_cached_block_None k (pool t') Hwf) Ej i).
Qed.

(** [prepare_load] on a reachable tier is all or nothing: keys and GPU
    blocks of different lengths raise; when some key is no longer resident it
    answers nothing and changes nothing; otherwise it pins exactly one
    reference per key, moves the key's own block into the GPU block at the
    same position, and registers one pending transfer. *)
Theorem prepare_load_all_or_nothing t w keys gpu (Hr : reachable t w) :
  (length keys ≠ length gpu → prepare_load keys gpu t = Err ValueError) ∧
  (length keys = length gpu → (∃ k, k ∈ keys ∧ Pool.get_cached_block k (pool t) = None) →
    prepare_load keys gpu t = Ok (None, t)) ∧
  (length keys = length gpu → (∀ k, k ∈ keys → Pool.get_cached_block k (pool t) ≠ None) →
    ∃ blocks t', prepare_load keys gpu t = Ok (Some (MkLoad blocks gpu keys), t') ∧
      Forall2 (λ k i, Pool.get_cached_block k (pool t) = Some i) keys blocks ∧
      (∀ i, i ≠ Pool.NULL_BLOCK_ID →
        Pool.refc (pool t') i = (Pool.refc (pool t) i + Pool.uses i blocks)%Z) ∧
      pending t' = pending t ++ [load_transfer keys gpu blocks t] ∧
      load_moves (MkLoad blocks gpu keys) = Ok (t_moves (load_transfer keys gpu blocks t)) ∧
      (∀ k, Pool.get_cached_block k (pool t') = Pool.get_cached_block k (pool t))).
Proof.
  pose proof (tier_reach_wf t w Hr) as Hw.
  split; [apply prepare_load_mismatch|]. split; intros Hl Hk;
    pose proof (prepare_load_Ok keys gpu t w Hw Hl) as Hp.
  { apply resident_None in Hk. by rewrite Hk in Hp. }
  destruct (resident keys (pool t)) as [blocks|] eqn:Er.
  2: { apply resident_None in Er as (k & Hin & Hno). by destruct (Hk k Hin). }
  destruct Hp as (t' & E1 & Hw' & Hp & Hc & Hs & _ & Hkeep). exists blocks, t'.
  apply resident_Some in Er. split_and!; [done|done| |done| |].
  - intros i Hi. rewrite (b_refs _ _ _ _ _ (tw_book _ _ Hw') i Hi), (b_refs _ _ _ _ _ (tw_book _ _ Hw) i Hi).
    rewrite Hp, fmap_app. cbn. unfold held. rewrite fmap_app, concat_app, Pool.uses_app. cbn.
    by rewrite app_nil_r.
  - unfold load_moves, rguard. cbn. rewrite bool_decide_true; [done|].
    rewrite <- Hl. by eapply Forall2_length.
  - intros k. unfold Pool.get_cached_block. by rewrite (Pool.keeps_index _ _ Hkeep).
Qed.

(** [prepare_store] on a reachable tier, with no key twice in one batch:
    the keys already resident or in flight are skipped; when nothing is left,
    or fewer blocks are free than it needs, nothing changes; otherwise the
    fresh keys go to the least recently used blocks, and, as long as no block
    is pinned by two loads, [evicted] is exactly the set of keys the tier
    forgot, also when the tier predicted that it need not look. *)
Theorem prepare_store_exact t w entries
    (Hr : reachable t w) (Hnd : NoDup entries.*2)
    (Hpins : NoDup (loading (entry_of <$> pending t))) :
  let fresh := filter (λ e, fresh_entry t e) entries in
  (∀ e, e ∈ fresh ↔ e ∈ entries ∧ inflight_stores t !! e.2 = None ∧
    Pool.get_cached_block e.2 (pool t) = None) ∧
  (fresh = [] ∨ length (Pool.free_list (pool t)) < length fresh →
    prepare_store entries t = Ok (MkStore [] [] ∅, t)) ∧
  (fresh ≠ [] → length fresh ≤ length (Pool.free_list (pool t)) →
    ∃ spec t' blocks, prepare_store entries t = Ok (spec, t') ∧
      blocks = take (length fresh) (Pool.free_list (pool t)) ∧
      store_moves spec = zip_with Run fresh.*1 blocks ∧ Offload.store_keys spec = fresh.*2 ∧
      pending t' = pending t ++ [store_transfer fresh blocks t] ∧
      ∀ k, k ∈ evicted spec ↔ is_resident (pool t) k ∧ ¬ is_resident (pool t') k).
Proof.
  cbv zeta. pose proof (tier_reach_wf t w Hr) as Hw.
  destruct (b_pool _ _ _ _ _ (tw_book _ _ Hw)) as (Hwf & _). split; [|split].
  - intros e. rewrite list_elem_of_filter, <- fresh_entry_spec.
    destruct (fresh_entry t e); naive_solver.
  - intros Hno. destruct (prepare_store_Ok entries t w Hw Hnd) as [[E1 _]|(ev & t1 & bl & E1 & Hne & Hst & _)];
      [done|exfalso]. destruct Hno as [|Hlt]; [done|].
    pose proof (st_length _ _ _ _ Hst) as Hl. rewrite (st_blocks _ _ _ _ Hst), length_take in Hl. lia.
  - intros Hne Hge. destruct (prepare_store_Ok entries t w Hw Hnd) as [[_ Hno]|(ev & t1 & bl & E1 & _ & Hst & Hw1 & Hev)].
    { destruct Hno; [done|lia]. }
    eexists _, t1, bl. split_and!; [exact E1|apply Hst|done|done|apply Hst|].
    intros k. cbn. pose proof (st_alloc _ _ _ _ Hst) as Ha. rewrite (st_blocks _ _ _ _ Hst) in Ha.
    assert (ev = index_keys (pool t) ∖ index_keys (pool t1)) as ->.
    { rewrite Hev. case_decide as Hd; [done|]. symmetry.
      eapply prediction_sound; [apply (tw_book _ _ Hw)|done|exact Ha|lia]. }
    rewrite elem_of_difference, !index_keys_iff; [done|apply Ha|done].
Qed.

(** [touch] on a reachable tier never raises and changes nothing but the
    eviction order: each resident, unpinned key's block moves to the back of
    the free queue, in the order of the keys. *)
Theorem touch_moves_to_back t w keys (Hr : reachable t w) :
  ∃ t', touch keys t = Ok t' ∧
    Pool.free_list (pool t') = foldl (bump (pool t)) (Pool.free_list (pool t)) keys ∧
    (∀ k, Pool.get_cached_block k (pool t') = Pool.get_cached_block k (pool t)) ∧
    (∀ i, Pool.refc (pool t') i = Pool.refc (pool t) i) ∧ pending t' = pending t.
Proof.
  destruct (touch_Ok keys t w (tier_reach_wf t w Hr)) as (t' & E1 & _ & (Hk & Href & _ & Hp & _) & Hf).
  exists t'. split_and!; [done|done| |done|done].
  intros k. unfold Pool.get_cached_block. by rewrite (Pool.keeps_index _ _ Hk).
Qed.

End Spec.

(** ** A concrete tier *)

(** Copies are numbered as they are submitted; those below the mark have landed. *)
#[global] Instance counting_copier : BlockCopier (nat * nat) nat := {
  submit := λ _ _ c, (Some c.1, (S c.1, c.2));
  query := λ e c, e <? c.2;
}.

Definition no_write : nat → option Z := λ _, None.
Definition demo_init : result (Tier (nat * nat) nat) := init 4 16 (0, 0) 10.

(** A run: the operations, and the ghost map they leave. *)
Inductive op :=
  | Store (entries : list (nat * Z))
  | Load (keys : list Z) (gpu : list nat)
  | Land (n : nat)
  | Drain.

Definition run_op (o : op) (s : Tier (nat * nat) nat * (nat → option Z)) :
    result (Tier (nat * nat) nat * (nat → option Z)) :=
  let '(t, w) := s in
  match o with
  | Store entries =>
      '(spec, t') ← prepare_store entries t;
      Ok (t', wrote (cpu_block <$> store_moves spec) (Offload.store_keys spec) w)
  | Load keys gpu => '(_, t') ← prepare_load keys gpu t; Ok (t', w)
  | Land n => Ok (set_copier ((copier t).1, n) t, w)
  | Drain => '(_, t') ← take_events t; Ok (t', w)
  end.

Definition op_ok (o : op) : Prop :=
  match o with Store entries => NoDup entries.*2 | _ => True end.

Lemma run_op_step o s s' : op_ok o → run_op o s = Ok s' → step s s'.
Proof.
  destruct s as [t w], o as [entries|keys gpu|n|]; cbn; intros Hok Hrun.
  - apply bind_Ok in Hrun as ([spec t'] & E1 & [= <-]). by eapply step_store.
  - apply bind_Ok in Hrun as ([spec t'] & E1 & [= <-]). by eapply step_load.
  - injection Hrun as <-. apply step_stream.
  - apply bind_Ok in Hrun as ([ev t'] & E1 & [= <-]). by eapply step_events.
Qed.

Lemma run_reachable ops t w t' w' :
  Forall op_ok ops → reachable t w → rfold run_op ops (t, w) = Ok (t', w') → reachable t' w'.
Proof.
  revert t w. induction ops as [|o ops IH]; intros t w Hok Hr Hrun.
  { cbn in Hrun. by injection Hrun as <- <-. }
  apply Forall_cons in Hok as [Ho Hok]. cbn [rfold] in Hrun.
  apply bind_Ok in Hrun as ([t1 w1] & E1 & Hrun). apply (IH t1 w1); [done| |done].
  eapply reach_step; [exact Hr|by eapply run_op_step].
Qed.

(** Two keys stored and landed, one of them being loaded, a third store in flight. *)
Definition demo_ops : list op := [Store [(5, 50%Z); (6, 60%Z)]; Land 1; Drain; Load [50%Z] [7]; Store [(8, 80%Z)]].
Definition demo : result (Tier (nat * nat) nat * (nat → option Z)) :=
  t ← demo_init; rfold run_op demo_ops (t, no_write).

Lemma demo_ops_ok : Forall op_ok demo_ops.
Proof. repeat constructor; cbn; try set_solver. Qed.

Lemma demo_reachable t w : demo = Ok (t, w) → reachable t w.
Proof.
  unfold demo. intros Hd. apply bind_Ok in Hd as (t0 & E0 & Hd).
  eapply run_reachable; [apply demo_ops_ok|by eapply reach_init|exact Hd].
Qed.

(** The demonstration state, by evaluation. *)
Lemma demo_holds (P : Tier (nat * nat) nat → Prop) `{!∀ t, Decision (P t)} :
  (match demo with Ok (t, _) => bool_decide (P t) | Err _ => false end) = true →
  ∃ t w, demo = Ok (t, w) ∧ P t.
Proof.
  destruct demo as [[t w]|e]; [|done]. intros HP%bool_decide_eq_true. by exists t, w.
Qed.

Lemma tier_reads_what_was_stored_witness :
  ∃ t w, demo = Ok (t, w) ∧ (lookup 60 t).1 = HIT ∧ length (pending t) = 2 ∧
    ∃ i, Pool.get_cached_block 60 (pool t) = Some i ∧ w i = Some 60%Z ∧
      ∀ tr, tr ∈ pending t → t_kind tr = store → i ∉ t_cpu_blocks tr.
Proof.
  destruct (demo_holds (λ t, (lookup 60 t).1 = HIT ∧ length (pending t) = 2)) as (t & w & Hd & Hh & Hl);
    [vm_compute; reflexivity|].
  exists t, w. split_and!; [exact Hd|exact Hh|exact Hl|].
  destruct (tier_reads_what_was_stored t w (demo_reachable t w Hd)) as (Hhit & _).
  apply (Hhit 60%Z (lookup 60 t).2). by rewrite <- Hh, <- surjective_pairing.
Defined.

Lemma take_events_exact_witness :
  ∃ t w t', demo = Ok (t, w) ∧ take_events (set_copier (3, 2) t) = Ok ([MkEvent load [50%Z] [1] [7]], t') ∧
    length (pending t') = 1.
Proof.
  destruct (demo_holds (λ t, (event_of <$> filter (λ tr, landed (C := nat * nat) (3, 2) tr = true) (pending t)) =
      [MkEvent load [50%Z] [1] [7]] ∧
      length (filter (λ tr, landed (C := nat * nat) (3, 2) tr = false) (pending t)) = 1))
    as (t & w & Hd & Hev & Hl); [vm_compute; reflexivity|].
  destruct (take_events_exact (set_copier (3, 2) t) w) as (t' & E1 & Hp & _).
  { eapply reach_step; [exact (demo_reachable t w Hd)|apply step_stream]. }
  exists t, w, t'. split_and!; [exact Hd|rewrite <- Hev; exact E1|by rewrite Hp].
Defined.

Lemma prepare_load_all_or_nothing_witness :
  ∃ t w, demo = Ok (t, w) ∧ prepare_load [60; 70]%Z [1; 2] t = Ok (None, t).
Proof.
  destruct (demo_holds (λ t, Pool.get_cached_block 70 (pool t) = None)) as (t & w & Hd & Hno);
    [vm_compute; reflexivity|].
  exists t, w. split; [exact Hd|].
  apply (prepare_load_all_or_nothing t w [60; 70]%Z [1; 2] (demo_reachable t w Hd)); [reflexivity|].
  exists 70%Z. split; [right; left|exact Hno].
Defined.

Lemma demo_batch : NoDup [(9, 60%Z); (10, 90%Z)].*2.
Proof. by apply (bool_decide_unpack _). Qed.

Lemma prepare_store_exact_witness :
  ∃ t w spec t', demo = Ok (t, w) ∧ prepare_store [(9, 60%Z); (10, 90%Z)] t = Ok (spec, t') ∧
    Offload.store_keys spec = [90%Z].
Proof.
  destruct (demo_holds (λ t, filter (λ e, fresh_entry t e) [(9, 60%Z); (10, 90%Z)] = [(10, 90%Z)] ∧
    length (Pool.free_list (pool t)) = 1 ∧ loading (entry_of <$> pending t) = [1]))
    as (t & w & Hd & Hf & Hlen & Hpin); [vm_compute; reflexivity|].
  destruct (prepare_store_exact t w [(9, 60%Z); (10, 90%Z)] (demo_reachable t w Hd)) as (_ & _ & Hgo);
    [exact demo_batch|rewrite Hpin; apply NoDup_singleton|].
  rewrite Hf in Hgo. destruct Hgo as (spec & t' & bl & E1 & _ & _ & Hk & _); [discriminate|rewrite Hlen; constructor|].
  exists t, w, spec, t'. split_and!; [exact Hd|exact E1|exact Hk].
Defined.

Lemma touch_moves_to_back_witness :
  ∃ t w t', demo = Ok (t, w) ∧ touch [60%Z] t = Ok t' ∧ Pool.free_list (pool t') = [2].
Proof.
  destruct (demo_holds (λ t, foldl (bump (pool t)) (Pool.free_list (pool t)) [60%Z] = [2]))
    as (t & w & Hd & Hf); [vm_compute; reflexivity|].
  destruct (touch_moves_to_back t w [60%Z] (demo_reachable t w Hd)) as (t' & E1 & Hfl & _).
  exists t, w, t'. split_and!; [exact Hd|exact E1|by rewrite Hfl].
Defined.

(** Two loads may pin one block; the count then runs ahead of the pinned
    blocks, and a store may evict a key without reporting it. *)
Definition double_pin_ops : list op :=
  [Store [(5, 50%Z); (6, 60%Z); (7, 70%Z)]; Land 1; Drain; Load [50%Z] [7]; Load [50%Z] [8]].

Lemma double_pin_unreported :
  match (t ← demo_init; rfold run_op double_pin_ops (t, no_write)) with
  | Ok (t, _) =>
      match prepare_store [(9, 90%Z)] t with
      | Ok (spec, t') => evicted spec = ∅ ∧ (lookup 70 t).1 = HIT ∧ (lookup 60 t).1 = HIT ∧
          ((lookup 60 t').1 = MISS ∨ (lookup 70 t').1 = MISS)
      | Err _ => False
      end
  | Err _ => False
  end.
Proof. vm_compute. split_and!; try reflexivity. by (left + right). Qed.
End CpuSpec.
