(* ===== verification/BatchPlanner.v ===== *)
(** * The batch planner ([BatchPlanner] of batch_planner.py)

    FCFS admission with chunked prefill, paged KV allocation, preemption by
    recompute and promotion of offloaded prefixes.  Requests are mutable objects
    the queues alias, so they live in a heap and the queues hold object ids. *)

From S2P Require Export PrefixCache Offload.

(** ** Requests *)

Module Req.

Inductive RequestStatus := WAITING | RUNNING | FINISHED.

#[global] Instance RequestStatus_eq_dec : EqDecision RequestStatus.
Proof. solve_decision. Defined.

(** [Request]; the clocks, the text and the log-probability records, which no
    branch of the planner reads, are left out. *)
Record Request := MkRequest {
  request_id : string;
  max_gen_len : option nat;
  prompt_token_ids : list Z;
  max_new_tokens : Z;
  num_computed_tokens : nat;
  status : RequestStatus;
  slot : option nat;
  output_token_ids : list Z;
  finish_reason : option string;
  num_cached_tokens : nat;
  block_plan : list (nat * nat * list nat);
  pending_tokens : Z;
}.

Definition set_prompt_token_ids (x : list Z) (r : Request) : Request :=
  MkRequest (request_id r) (max_gen_len r) x (max_new_tokens r) (num_computed_tokens r)
    (status r) (slot r) (output_token_ids r) (finish_reason r) (num_cached_tokens r)
    (block_plan r) (pending_tokens r).
Definition set_max_new_tokens (x : Z) (r : Request) : Request :=
  MkRequest (request_id r) (max_gen_len r) (prompt_token_ids r) x (num_computed_tokens r)
    (status r) (slot r) (output_token_ids r) (finish_reason r) (num_cached_tokens r)
    (block_plan r) (pending_tokens r).
Definition set_num_computed_tokens (x : nat) (r : Request) : Request :=
  MkRequest (request_id r) (max_gen_len r) (prompt_token_ids r) (max_new_tokens r) x (status r)
    (slot r) (output_token_ids r) (finish_reason r) (num_cached_tokens r) (block_plan r)
    (pending_tokens r).
Definition set_status (x : RequestStatus) (r : Request) : Request :=
  MkRequest (request_id r) (max_gen_len r) (prompt_token_ids r) (max_new_tokens r)
    (num_computed_tokens r) x (slot r) (output_token_ids r) (finish_reason r)
    (num_cached_tokens r) (block_plan r) (pending_tokens r).
Definition set_slot (x : option nat) (r : Request) : Request :=
  MkRequest (request_id r) (max_gen_len r) (prompt_token_ids r) (max_new_tokens r)
    (num_computed_tokens r) (status r) x (output_token_ids r) (finish_reason r)
    (num_cached_tokens r) (block_plan r) (pending_tokens r).
Definition set_output_token_ids (x : list Z) (r : Request) : Request :=
  MkRequest (request_id r) (max_gen_len r) (prompt_token_ids r) (max_new_tokens r)
    (num_computed_tokens r) (status r) (slot r) x (finish_reason r) (num_cached_tokens r)
    (block_plan r) (pending_tokens r).
Definition set_finish_reason (x : option string) (r : Request) : Request :=
  MkRequest (request_id r) (max_gen_len r) (prompt_token_ids r) (max_new_tokens r)
    (num_computed_tokens r) (status r) (slot r) (output_token_ids r) x (num_cached_tokens r)
    (block_plan r) (pending_tokens r).
Definition set_num_cached_tokens (x : nat) (r : Request) : Request :=
  MkRequest (request_id r) (max_gen_len r) (prompt_token_ids r) (max_new_tokens r)
    (num_computed_tokens r) (status r) (slot r) (output_token_ids r) (finish_reason r) x
    (block_plan r) (pending_tokens r).
Definition set_block_plan (x : list (nat * nat * list nat)) (r : Request) : Request :=
  MkRequest (request_id r) (max_gen_len r) (prompt_token_ids r) (max_new_tokens r)
    (num_computed_tokens r) (status r) (slot r) (output_token_ids r) (finish_reason r)
    (num_cached_tokens r) x (pending_tokens r).
Definition set_pending_tokens (x : Z) (r : Request) : Request :=
  MkRequest (request_id r) (max_gen_len r) (prompt_token_ids r) (max_new_tokens r)
    (num_computed_tokens r) (status r) (slot r) (output_token_ids r) (finish_reason r)
    (num_cached_tokens r) (block_plan r) x.

(** [Request(request_id, prompt, prompt_token_ids, params)] *)
Definition fresh (request_id : string) (prompt_token_ids : list Z) (max_gen_len : option nat) :
    Request :=
  MkRequest request_id max_gen_len prompt_token_ids 0 0 WAITING None [] None 0 [] 0%Z.

Definition prompt_len (r : Request) : nat := length (prompt_token_ids r).
Definition seq_len (r : Request) : nat :=
  length (prompt_token_ids r) + length (output_token_ids r).
Definition is_finished (r : Request) : bool := bool_decide (status r = FINISHED).
Definition has_room (r : Request) : bool :=
  bool_decide (Z.of_nat (length (output_token_ids r)) < max_new_tokens r)%Z.
Definition prefill_done (r : Request) : bool := bool_decide (prompt_len r ≤ num_computed_tokens r).

End Req.

(** ** The planner *)

Module Planner.

Definition PREFIX_CACHE_BLOCK_SIZE : nat := 16.

Record SchedulerConfig := MkConfig {
  max_seq_len : nat;
  cfg_max_num_seqs : nat;
  max_num_batched_tokens : nat;
  enable_chunked_prefill : bool;
  max_chunk_size : nat;
  enable_prefix_cache : bool;
  prefix_cache_blocks : option nat;
  enable_preemption : bool;
  decode_window_steps : nat;
}.

(** [SchedulerConfig(...)] with its [__post_init__]; the checks that an integer
    is not negative are the type. *)
Definition make_config (c : SchedulerConfig) : result SchedulerConfig :=
  _ ← rguard (bool_decide (2 ≤ max_seq_len c)) ValueError;
  _ ← rguard (bool_decide (1 ≤ cfg_max_num_seqs c)) ValueError;
  _ ← rguard (bool_decide (1 ≤ max_num_batched_tokens c)) ValueError;
  let chunked := if decide (max_chunk_size c = 0) then false else enable_chunked_prefill c in
  let c := MkConfig (max_seq_len c) (cfg_max_num_seqs c) (max_num_batched_tokens c) chunked
    (max_chunk_size c) (enable_prefix_cache c) (prefix_cache_blocks c) (enable_preemption c)
    (decode_window_steps c) in
  _ ← rguard (enable_chunked_prefill c || bool_decide (max_seq_len c ≤ max_num_batched_tokens c))
    ValueError;
  _ ← rguard (match prefix_cache_blocks c with Some n => bool_decide (2 ≤ n) | None => true end)
    ValueError;
  Ok c.

(** [StepPlan] *)
Record StepPlan := MkPlan {
  prefill : list nat;
  decode : list nat;
  prefill_chunk_lens : list nat;
  preempted : list nat;
}.

Definition is_empty (p : StepPlan) : bool := bool_decide (prefill p = [] ∧ decode p = []).

(** [_Promotion] *)
Record Promotion := MkPromotion {
  promo_request : nat;
  promo_gpu_blocks : list nat;
  promo_num_tokens : nat;
}.

Section BatchPlanner.
Context {T : Type}.

(** [free_slots] is the Python list used as a stack, top first. *)
Record BatchPlanner := MkPlanner {
  config : SchedulerConfig;
  num_slots : nat;
  max_num_seqs : nat;
  heap : gmap nat Req.Request;
  waiting : list (string * nat);
  running : list nat;
  requests : gmap string nat;
  free_slots : list nat;
  prefix_cache : Cache.PrefixCache;
  pending_blocks : list (nat * nat);
  num_preemptions : nat;
  deferred_steps : nat;
  offloading : option T;
  pending_promotes : gmap string Promotion;
  ready_promotes : list nat;
  dying_promotes : gmap string Promotion;
  promotion_by_blocks : gmap (list nat) string;
}.

Definition set_heap (x : gmap nat Req.Request) (p : BatchPlanner) : BatchPlanner :=
  MkPlanner (config p) (num_slots p) (max_num_seqs p) x (waiting p) (running p) (requests p)
    (free_slots p) (prefix_cache p) (pending_blocks p) (num_preemptions p) (deferred_steps p)
    (offloading p) (pending_promotes p) (ready_promotes p) (dying_promotes p)
    (promotion_by_blocks p).
Definition set_waiting (x : list (string * nat)) (p : BatchPlanner) : BatchPlanner :=
  MkPlanner (config p) (num_slots p) (max_num_seqs p) (heap p) x (running p) (requests p)
    (free_slots p) (prefix_cache p) (pending_blocks p) (num_preemptions p) (deferred_steps p)
    (offloading p) (pending_promotes p) (ready_promotes p) (dying_promotes p)
    (promotion_by_blocks p).
Definition set_running (x : list nat) (p : BatchPlanner) : BatchPlanner :=
  MkPlanner (config p) (num_slots p) (max_num_seqs p) (heap p) (waiting p) x (requests p)
    (free_slots p) (prefix_cache p) (pending_blocks p) (num_preemptions p) (deferred_steps p)
    (offloading p) (pending_promotes p) (ready_promotes p) (dying_promotes p)
    (promotion_by_blocks p).
Definition set_requests (x : gmap string nat) (p : BatchPlanner) : BatchPlanner :=
  MkPlanner (config p) (num_slots p) (max_num_seqs p) (heap p) (waiting p) (running p) x
    (free_slots p) (prefix_cache p) (pending_blocks p) (num_preemptions p) (deferred_steps p)
    (offloading p) (pending_promotes p) (ready_promotes p) (dying_promotes p)
    (promotion_by_blocks p).
Definition set_free_slots (x : list nat) (p : BatchPlanner) : BatchPlanner :=
  MkPlanner (config p) (num_slots p) (max_num_seqs p) (heap p) (waiting p) (running p)
    (requests p) x (prefix_cache p) (pending_blocks p) (num_preemptions p) (deferred_steps p)
    (offloading p) (pending_promotes p) (ready_promotes p) (dying_promotes p)
    (promotion_by_blocks p).
Definition set_prefix_cache (x : Cache.PrefixCache) (p : BatchPlanner) : BatchPlanner :=
  MkPlanner (config p) (num_slots p) (max_num_seqs p) (heap p) (waiting p) (running p)
    (requests p) (free_slots p) x (pending_blocks p) (num_preemptions p) (deferred_steps p)
    (offloading p) (pending_promotes p) (ready_promotes p) (dying_promotes p)
    (promotion_by_blocks p).
Definition set_pending_blocks (x : list (nat * nat)) (p : BatchPlanner) : BatchPlanner :=
  MkPlanner (config p) (num_slots p) (max_num_seqs p) (heap p) (waiting p) (running p)
    (requests p) (free_slots p) (prefix_cache p) x (num_preemptions p) (deferred_steps p)
    (offloading p) (pending_promotes p) (ready_promotes p) (dying_promotes p)
    (promotion_by_blocks p).
Definition set_num_preemptions (x : nat) (p : BatchPlanner) : BatchPlanner :=
  MkPlanner (config p) (num_slots p) (max_num_seqs p) (heap p) (waiting p) (running p)
    (requests p) (free_slots p) (prefix_cache p) (pending_blocks p) x (deferred_steps p)
    (offloading p) (pending_promotes p) (ready_promotes p) (dying_promotes p)
    (promotion_by_blocks p).
Definition set_deferred_steps (x : nat) (p : BatchPlanner) : BatchPlanner :=
  MkPlanner (config p) (num_slots p) (max_num_seqs p) (heap p) (waiting p) (running p)
    (requests p) (free_slots p) (prefix_cache p) (pending_blocks p) (num_preemptions p) x
    (offloading p) (pending_promotes p) (ready_promotes p) (dying_promotes p)
    (promotion_by_blocks p).
Definition set_offloading (x : option T) (p : BatchPlanner) : BatchPlanner :=
  MkPlanner (config p) (num_slots p) (max_num_seqs p) (heap p) (waiting p) (running p)
    (requests p) (free_slots p) (prefix_cache p) (pending_blocks p) (num_preemptions p)
    (deferred_steps p) x (pending_promotes p) (ready_promotes p) (dying_promotes p)
    (promotion_by_blocks p).
Definition set_pending_promotes (x : gmap string Promotion) (p : BatchPlanner) : BatchPlanner :=
  MkPlanner (config p) (num_slots p) (max_num_seqs p) (heap p) (waiting p) (running p)
    (requests p) (free_slots p) (prefix_cache p) (pending_blocks p) (num_preemptions p)
    (deferred_steps p) (offloading p) x (ready_promotes p) (dying_promotes p)
    (promotion_by_blocks p).
Definition set_ready_promotes (x : list nat) (p : BatchPlanner) : BatchPlanner :=
  MkPlanner (config p) (num_slots p) (max_num_seqs p) (heap p) (waiting p) (running p)
    (requests p) (free_slots p) (prefix_cache p) (pending_blocks p) (num_preemptions p)
    (deferred_steps p) (offloading p) (pending_promotes p) x (dying_promotes p)
    (promotion_by_blocks p).
Definition set_dying_promotes (x : gmap string Promotion) (p : BatchPlanner) : BatchPlanner :=
  MkPlanner (config p) (num_slots p) (max_num_seqs p) (heap p) (waiting p) (running p)
    (requests p) (free_slots p) (prefix_cache p) (pending_blocks p) (num_preemptions p)
    (deferred_steps p) (offloading p) (pending_promotes p) (ready_promotes p) x
    (promotion_by_blocks p).
Definition set_promotion_by_blocks (x : gmap (list nat) string) (p : BatchPlanner) : BatchPlanner :=
  MkPlanner (config p) (num_slots p) (max_num_seqs p) (heap p) (waiting p) (running p)
    (requests p) (free_slots p) (prefix_cache p) (pending_blocks p) (num_preemptions p)
    (deferred_steps p) (offloading p) (pending_promotes p) (ready_promotes p) (dying_promotes p)
    x.

(** *** Objects and ordered dicts *)

Definition get (oid : nat) (p : BatchPlanner) : result Req.Request :=
  match heap p !! oid with Some r => Ok r | None => Err KeyError end.
Definition update (oid : nat) (f : Req.Request → Req.Request) (p : BatchPlanner) : BatchPlanner :=
  set_heap (alter f oid (heap p)) p.

(** [d[k] = v], [d.pop(k, None)] and [d.move_to_end(k, last=False)]. *)
Definition od_set (k : string) (v : nat) (d : list (string * nat)) : list (string * nat) :=
  if decide (k ∈ d.*1) then (λ kv, if decide (kv.1 = k) then (k, v) else kv) <$> d
  else d ++ [(k, v)].
Definition od_pop (k : string) (d : list (string * nat)) : list (string * nat) :=
  filter (λ kv, kv.1 ≠ k) d.
Definition od_to_front (k : string) (d : list (string * nat)) : list (string * nat) :=
  filter (λ kv, kv.1 = k) d ++ filter (λ kv, kv.1 ≠ k) d.

(** [_discard_running]: the first entry that is the object. *)
Fixpoint discard (oid : nat) (l : list nat) : list nat :=
  match l with
  | [] => []
  | o :: l => if decide (o = oid) then l else o :: discard oid l
  end.

(** *** Construction *)

Definition default_num_blocks (config : SchedulerConfig) (num_slots : nat) : nat :=
  Nat.max 2 (num_slots * max_seq_len config / PREFIX_CACHE_BLOCK_SIZE + 1).

Definition init (config : SchedulerConfig) (num_slots : nat) (num_blocks : option nat)
    (offloading : option T) : result BatchPlanner :=
  _ ← rguard (bool_decide (1 ≤ num_slots)) ValueError;
  let max_num_seqs :=
    if enable_preemption config then cfg_max_num_seqs config
    else Nat.min (cfg_max_num_seqs config) num_slots in
  let blocks :=
    match prefix_cache_blocks config, num_blocks with
    | Some (S n), _ => S n
    | _, Some (S n) => S n
    | _, _ => default_num_blocks config num_slots
    end in
  cache ← Cache.init blocks PREFIX_CACHE_BLOCK_SIZE None 0 (enable_prefix_cache config);
  _ ← (match offloading with
       | None => Ok tt
       | Some _ =>
           _ ← rguard (bool_decide (Cache.offloadable_group cache ≠ None)) ValueError;
           rguard (enable_prefix_cache config) ValueError
       end);
  Ok (MkPlanner config num_slots max_num_seqs ∅ [] [] ∅ (seq 0 num_slots) cache [] 0 0
    offloading ∅ [] ∅ ∅).

(** *** The queue *)

(** The caller's request object, before it is submitted. *)
Definition new_object (oid : nat) (r : Req.Request) (p : BatchPlanner) : BatchPlanner :=
  set_heap (<[oid := r]> (heap p)) p.

Definition has_request_id (request_id : string) (p : BatchPlanner) : bool :=
  bool_decide (is_Some (requests p !! request_id)).

Definition add_request (oid : nat) (p : BatchPlanner) : result BatchPlanner :=
  r ← get oid p;
  let rid := Req.request_id r in
  _ ← rguard (negb (has_request_id rid p)) ValueError;
  _ ← rguard (bool_decide (Req.status r = Req.WAITING ∧ Req.slot r = None)) ValueError;
  let limit := max_seq_len (config p) in
  _ ← rguard (bool_decide (Req.prompt_len r ≠ 0)) ValueError;
  _ ← rguard (bool_decide (Req.prompt_len r < limit)) ValueError;
  let room := limit - Req.prompt_len r in
  let cap :=
    match Req.max_gen_len r with
    | Some (S n) => Nat.min (S n) room
    | _ => room
    end in
  let p := update oid (Req.set_max_new_tokens (Z.of_nat cap)) p in
  Ok (set_waiting (od_set rid oid (waiting p)) (set_requests (<[rid := oid]> (requests p)) p)).

(** *** Blocks *)

Definition alloc (request_id : string) (num_tokens : nat) (m : option Cache.PrefixMatch)
    (p : BatchPlanner) : result (bool * BatchPlanner) :=
  '(ok, c) ← Cache.allocate request_id num_tokens m (prefix_cache p);
  Ok (ok, set_prefix_cache c p).

Definition free_blocks (request_id : string) (p : BatchPlanner) : result BatchPlanner :=
  c ← Cache.free request_id (prefix_cache p);
  Ok (set_prefix_cache c p).

Definition map_blocks (oid : nat) (p : BatchPlanner) : result BatchPlanner :=
  r ← get oid p;
  '(writes, c) ← Cache.take_table_writes (Req.request_id r) (prefix_cache p);
  Ok (update oid (Req.set_block_plan writes) (set_prefix_cache c p)).

Definition track_pending (oid upto : nat) (p : BatchPlanner) : BatchPlanner :=
  set_pending_blocks (pending_blocks p ++ [(oid, upto)]) p.

Definition drop_pending_blocks (oid : nat) (p : BatchPlanner) : BatchPlanner :=
  set_pending_blocks (filter (λ e, e.1 ≠ oid) (pending_blocks p)) p.

(** *** Preemption *)

Definition preempt (oid : nat) (p : BatchPlanner) : result BatchPlanner :=
  r ← get oid p;
  let rid := Req.request_id r in
  let p :=
    match Req.slot r with
    | Some s => update oid (Req.set_slot None) (set_free_slots (s :: free_slots p) p)
    | None => p
    end in
  let p := update oid (λ r,
    Req.set_pending_tokens 0%Z (Req.set_block_plan [] (Req.set_num_cached_tokens 0
      (Req.set_num_computed_tokens 0 (Req.set_status Req.WAITING r))))) p in
  let p := drop_pending_blocks oid p in
  p ← free_blocks rid p;
  let p := update oid (λ r,
    Req.set_max_new_tokens (Req.max_new_tokens r - Z.of_nat (length (Req.output_token_ids r)))
      (Req.set_output_token_ids []
        (Req.set_prompt_token_ids (Req.prompt_token_ids r ++ Req.output_token_ids r) r))) p in
  let p := set_running (discard oid (running p)) p in
  let p := set_waiting (od_to_front rid (od_set rid oid (waiting p))) p in
  Ok (set_num_preemptions (S (num_preemptions p)) p).

(** The youngest eligible of [l], youngest first. *)
Fixpoint find_victim (protect l : list nat) (p : BatchPlanner) : result (option nat) :=
  match l with
  | [] => Ok None
  | oid :: l =>
      r ← get oid p;
      if decide (Req.prefill_done r = false ∨ oid ∈ protect) then find_victim protect l p
      else if decide (Req.output_token_ids r ≠ []) then Ok (Some oid)
      else find_victim protect l p
  end.

Definition preempt_victim (protect : list nat) (p : BatchPlanner) :
    result (option nat * BatchPlanner) :=
  victim ← find_victim protect (reverse (running p)) p;
  match victim with
  | None => Ok (None, p)
  | Some oid => p ← preempt oid p; Ok (Some oid, p)
  end.

Definition maybe_preempt (prefill : list nat) (p : BatchPlanner) :
    result (option nat * BatchPlanner) :=
  if enable_preemption (config p) then preempt_victim prefill p else Ok (None, p).

(** The eviction loop of [_reserve]; every turn takes a request off [running]. *)
Fixpoint reserve_loop (fuel : nat) (rid : string) (num_tokens : nat) (protected victims : list nat)
    (p : BatchPlanner) : result (bool * list nat * BatchPlanner) :=
  match fuel with
  | 0 => Err OutOfFuel
  | S fuel =>
      '(victim, p) ← preempt_victim protected p;
      match victim with
      | None => Ok (false, victims, p)
      | Some v =>
          let victims := victims ++ [v] in
          '(ok, p) ← alloc rid num_tokens None p;
          if (ok : bool) then Ok (true, victims, p)
          else reserve_loop fuel rid num_tokens protected victims p
      end
  end.

Definition reserve (oid num_tokens : nat) (protect victims : list nat) (p : BatchPlanner) :
    result (bool * list nat * BatchPlanner) :=
  r ← get oid p;
  '(ok, p) ← alloc (Req.request_id r) num_tokens None p;
  if (ok : bool) then Ok (true, victims, p)
  else reserve_loop (S (length (running p))) (Req.request_id r) num_tokens (oid :: protect)
    victims p.

(** *** Chunks *)

Definition chunk_of (r : Req.Request) (computed : option nat) (c : SchedulerConfig) : nat :=
  let progress := default (Req.num_computed_tokens r) computed in
  let remaining := Req.prompt_len r - progress in
  if enable_chunked_prefill c
  then Nat.min (Nat.min remaining (max_chunk_size c)) (max_num_batched_tokens c)
  else remaining.

End BatchPlanner.
Arguments BatchPlanner : clear implicits.

Section Scheduling.
Context {T : Type} `{!Offload.OffloadingManager T} (digest : list Z → list Z).
Implicit Types (p : BatchPlanner T).

(** *** Committing executed blocks *)

(** Hash, index and mirror down whatever full blocks are now computed. *)
Definition commit (oid upto : nat) (p : BatchPlanner T) : result (BatchPlanner T) :=
  r ← get oid p;
  let rid := Req.request_id r in
  c ←
    (if decide (length (Cache.tracked_hashes rid (prefix_cache p)) < upto / PREFIX_CACHE_BLOCK_SIZE)
     then
       '(_, c) ← Cache.observe digest rid (Req.prompt_token_ids r ++ Req.output_token_ids r)
         (prefix_cache p);
       Ok c
     else Ok (prefix_cache p));
  '(fresh, c) ← Cache.commit rid upto c;
  let p := set_prefix_cache c p in
  match offloading p with
  | Some t =>
      if decide (fresh = []) then Ok p
      else '(_, t) ← Offload.prepare_store fresh t; Ok (set_offloading (Some t) p)
  | None => Ok p
  end.

Definition commit_pending_one (e : nat * nat) (p : BatchPlanner T) : result (BatchPlanner T) :=
  r ← get e.1 p;
  if decide (Req.status r = Req.RUNNING) then commit e.1 e.2 p else Ok p.

Definition commit_pending_blocks (p : BatchPlanner T) : result (BatchPlanner T) :=
  p ← rfold commit_pending_one (pending_blocks p) p;
  Ok (set_pending_blocks [] p).

(** Cash in the registrations of a retiring request. *)
Definition settle_pending_blocks (oid : nat) (p : BatchPlanner T) : result (BatchPlanner T) :=
  let kept := filter (λ e, e.1 ≠ oid) (pending_blocks p) in
  p ← rfold (λ e p, if decide (e.1 = oid) then commit oid e.2 p else Ok p) (pending_blocks p) p;
  Ok (set_pending_blocks kept p).

(** *** Promotions *)

Definition retire_promotion (oid : nat) (p : BatchPlanner T) : result (bool * BatchPlanner T) :=
  r ← get oid p;
  let rid := Req.request_id r in
  match pending_promotes p !! rid with
  | Some promotion =>
      let p := set_pending_promotes (delete rid (pending_promotes p)) p in
      let p := set_dying_promotes (<[rid := promotion]> (dying_promotes p)) p in
      Ok (true, set_promotion_by_blocks
        (<[promo_gpu_blocks promotion := rid]> (promotion_by_blocks p)) p)
  | None =>
      Ok (false, set_ready_promotes (filter (λ o, o ≠ oid) (ready_promotes p)) p)
  end.

Definition take_promotion (gpu_blocks : list nat) (p : BatchPlanner T) :
    option Promotion * BatchPlanner T :=
  if decide (gpu_blocks = []) then (None, p)
  else
    match promotion_by_blocks p !! gpu_blocks with
    | None => (None, p)
    | Some rid =>
        let p := set_promotion_by_blocks (delete gpu_blocks (promotion_by_blocks p)) p in
        match pending_promotes p !! rid with
        | Some promotion =>
            (Some promotion, set_pending_promotes (delete rid (pending_promotes p)) p)
        | None =>
            (dying_promotes p !! rid, set_dying_promotes (delete rid (dying_promotes p)) p)
        end
    end.

(** One event of [_drain_offload_events]. *)
Definition drain_event (e : Offload.OffloadEvent) (p : BatchPlanner T) : result (BatchPlanner T) :=
  if decide (Offload.event_kind e ≠ Offload.load) then Ok p
  else
    let '(promotion, p) := take_promotion (Offload.event_gpu_blocks e) p in
    match promotion with
    | None => Ok p
    | Some promotion =>
        let oid := promo_request promotion in
        r ← get oid p;
        if decide (Req.status r = Req.FINISHED) then free_blocks (Req.request_id r) p
        else
          '(_, c) ← Cache.commit (Req.request_id r) (promo_num_tokens promotion) (prefix_cache p);
          let p := update oid (λ r,
            Req.set_num_cached_tokens (promo_num_tokens promotion)
              (Req.set_num_computed_tokens (promo_num_tokens promotion) r))
            (set_prefix_cache c p) in
          Ok (set_ready_promotes (ready_promotes p ++ [oid]) p)
    end.

Definition drain_offload_events (p : BatchPlanner T) : result (BatchPlanner T) :=
  match offloading p with
  | None => Ok p
  | Some t =>
      '(events, t) ← Offload.take_events t;
      rfold drain_event events (set_offloading (Some t) p)
  end.

(** Seat a request: the top free slot, [RUNNING], last in the running list. *)
Definition seat (oid : nat) (p : BatchPlanner T) : result (BatchPlanner T) :=
  match free_slots p with
  | [] => Err IndexError
  | s :: slots =>
      let p := update oid (λ r, Req.set_status Req.RUNNING (Req.set_slot (Some s) r))
        (set_free_slots slots p) in
      Ok (set_running (running p ++ [oid]) p)
  end.

Fixpoint promote_ready_loop (fuel : nat) (p : BatchPlanner T) : result (BatchPlanner T) :=
  match ready_promotes p, free_slots p with
  | oid :: ready, _ :: _ =>
      if decide (max_num_seqs p ≤ length (running p)) then Ok p
      else
        match fuel with
        | 0 => Err OutOfFuel
        | S fuel => p ← seat oid (set_ready_promotes ready p); promote_ready_loop fuel p
        end
  | _, _ => Ok p
  end.
Definition promote_ready (p : BatchPlanner T) : result (BatchPlanner T) :=
  promote_ready_loop (length (ready_promotes p)) p.

(** The probe loop: the keys from block [index] on the tier holds, in a row. *)
Fixpoint probe (n index : nat) (hashes : list Z) (t : T) : result (list Z * T) :=
  match n with
  | 0 => Ok ([], t)
  | S n =>
      match hashes !! index with
      | None => Err IndexError
      | Some key =>
          let '(answer, t) := Offload.lookup key t in
          if decide (answer ≠ Offload.HIT) then Ok ([], t)
          else '(keys, t) ← probe n (S index) hashes t; Ok (key :: keys, t)
      end
  end.

Definition try_start_promotion (oid : nat) (hashes : list Z) (m : Cache.PrefixMatch)
    (p : BatchPlanner T) : result (bool * BatchPlanner T) :=
  match offloading p with
  | None => Ok (false, p)
  | Some t =>
      r ← get oid p;
      let rid := Req.request_id r in
      let start := Cache.num_tokens m / PREFIX_CACHE_BLOCK_SIZE in
      let limit := (Req.prompt_len r - 1) / PREFIX_CACHE_BLOCK_SIZE in
      '(keys, t) ← probe (limit - start) start hashes t;
      let p := set_offloading (Some t) p in
      if decide (keys = []) then Ok (false, p)
      else
        let num_tokens := (start + length keys) * PREFIX_CACHE_BLOCK_SIZE in
        '(ok, p) ← alloc rid num_tokens (Some m) p;
        if negb ok then Ok (false, p)
        else
          match Cache.block_ids rid (prefix_cache p) with
          | [] => Err IndexError
          | resident :: _ =>
              let gpu_blocks := take (length keys) (drop start resident) in
              '(spec, t) ← Offload.prepare_load keys gpu_blocks t;
              let p := set_offloading (Some t) p in
              match spec with
              | None =>
                  p ← free_blocks rid p;
                  '(_, c) ← Cache.track digest rid (Req.prompt_token_ids r) (prefix_cache p);
                  Ok (false, set_prefix_cache c p)
              | Some _ =>
                  let promotion := MkPromotion oid gpu_blocks num_tokens in
                  let p := set_pending_promotes (<[rid := promotion]> (pending_promotes p)) p in
                  Ok (true, set_promotion_by_blocks (<[gpu_blocks := rid]> (promotion_by_blocks p)) p)
              end
          end
  end.

(** *** Retirement *)

Definition finish (oid : nat) (reason : string) (p : BatchPlanner T) : result (BatchPlanner T) :=
  r ← get oid p;
  if decide (Req.status r = Req.FINISHED) then Ok p
  else
    let rid := Req.request_id r in
    let was_running := bool_decide (Req.status r = Req.RUNNING) in
    let p := update oid (λ r,
      Req.set_finish_reason (Some reason) (Req.set_status Req.FINISHED r)) p in
    let p :=
      match Req.slot r with
      | Some s => update oid (Req.set_slot None) (set_free_slots (s :: free_slots p) p)
      | None => p
      end in
    p ←
      (if was_running
       then settle_pending_blocks oid (set_running (discard oid (running p)) p)
       else Ok (set_waiting (od_pop rid (waiting p)) p));
    '(deferred, p) ← retire_promotion oid p;
    p ← (if (deferred : bool) then Ok p else free_blocks rid p);
    Ok (if decide (requests p !! rid = Some oid)
        then set_requests (delete rid (requests p)) p else p).

Definition abort (request_id : string) (p : BatchPlanner T) :
    result (option nat * BatchPlanner T) :=
  match requests p !! request_id with
  | None => Ok (None, p)
  | Some oid =>
      r ← get oid p;
      if decide (Req.status r = Req.WAITING) then
        let p := set_waiting (od_pop request_id (waiting p)) p in
        let p := update oid (λ r,
          Req.set_finish_reason (Some "abort") (Req.set_status Req.FINISHED r)) p in
        '(deferred, p) ← retire_promotion oid p;
        p ← (if (deferred : bool) then Ok p else free_blocks request_id p);
        Ok (Some oid, set_requests (delete request_id (requests p)) p)
      else p ← finish oid "abort" p; Ok (Some oid, p)
  end.

(** *** Stage 1: resume the prefills in flight *)

(** What the stages accumulate: the prefill batch, its chunks, the victims. *)
Record Work := MkWork {
  w_prefill : list nat;
  w_chunks : list nat;
  w_preempted : list nat;
}.

(** One turn of the Stage 1 loop. *)
Definition resume_one (oid : nat) (w : Work) (p : BatchPlanner T) :
    result (Work * BatchPlanner T) :=
  r ← get oid p;
  if Req.prefill_done r then Ok (w, p)
  else
    let p := update oid (Req.set_block_plan []) p in
    let chunk := chunk_of r None (config p) in
    let reach := Req.num_computed_tokens r + chunk in
    '(ok, victims, p) ← reserve oid reach (w_prefill w) (w_preempted w) p;
    if negb ok then Ok (MkWork (w_prefill w) (w_chunks w) victims, p)
    else
      let w := MkWork (w_prefill w ++ [oid]) (w_chunks w ++ [chunk]) victims in
      let p := update oid (Req.set_num_computed_tokens reach) p in
      p ← map_blocks oid p;
      Ok (w, track_pending oid reach p).

(** The [for] loop over the live list: the iterator is an index, so an entry
    that moves below it is not visited. *)
Fixpoint resume (fuel index : nat) (w : Work) (p : BatchPlanner T) :
    result (Work * BatchPlanner T) :=
  match running p !! index with
  | None => Ok (w, p)
  | Some oid =>
      match fuel with
      | 0 => Err OutOfFuel
      | S fuel => '(w, p) ← resume_one oid w p; resume fuel (S index) w p
      end
  end.

(** *** Stage 2: admission of queued requests *)

Definition defer_admission (resume_prefill : list nat) (p : BatchPlanner T) : result bool :=
  let window := decode_window_steps (config p) in
  if decide (window = 0 ∨ waiting p = [] ∨ resume_prefill ≠ []) then Ok false
  else if decide (window ≤ deferred_steps p) then Ok false
  else rfold (λ oid found, r ← get oid p; Ok (found || Req.prefill_done r)) (running p) false.

(** A free slot, taken from a victim if need be; [true] when there is none. *)
Definition make_room (w : Work) (p : BatchPlanner T) : result (bool * Work * BatchPlanner T) :=
  if decide (free_slots p ≠ []) then Ok (false, w, p)
  else
    '(victim, p) ← maybe_preempt (w_prefill w) p;
    match victim with
    | None => Ok (true, w, p)
    | Some v => Ok (false, MkWork (w_prefill w) (w_chunks w) (w_preempted w ++ [v]), p)
    end.

(** The last part of a turn: take the seat, commit the chunk. *)
Definition admit_candidate (oid chunk : nat) (m : Cache.PrefixMatch) (w : Work)
    (p : BatchPlanner T) : result (Work * BatchPlanner T) :=
  r ← get oid p;
  let p := set_waiting (od_pop (Req.request_id r) (waiting p)) p in
  p ← seat oid p;
  let upto := Cache.num_tokens m + chunk in
  let p := update oid (λ r,
    Req.set_num_computed_tokens upto (Req.set_num_cached_tokens (Cache.num_tokens m) r)) p in
  p ← map_blocks oid p;
  Ok (MkWork (w_prefill w ++ [oid]) (w_chunks w ++ [chunk]) (w_preempted w),
      track_pending oid upto p).

(** One turn of the admission loop; [true] when the loop goes on. *)
Definition admit_one (rid : string) (oid longest : nat) (w : Work) (p : BatchPlanner T) :
    result (bool * nat * Work * BatchPlanner T) :=
  r ← get oid p;
  '(hashes, c) ← Cache.track digest rid (Req.prompt_token_ids r) (prefix_cache p);
  '(m, c) ← Cache.lookup hashes (Req.prompt_len r) c;
  let p := set_prefix_cache c p in
  p ←
    match offloading p with
    | Some t =>
        if decide (Cache.num_tokens m = 0) then Ok p
        else
          t ← Offload.touch (take (Cache.num_tokens m / PREFIX_CACHE_BLOCK_SIZE) hashes) t;
          Ok (set_offloading (Some t) p)
    | None => Ok p
    end;
  '(started, p) ← try_start_promotion oid hashes m p;
  if (started : bool) then
    let p := set_waiting (od_pop rid (waiting p)) p in
    Ok (bool_decide (w_preempted w = []), longest, w, p)
  else if decide (max_num_seqs p ≤ length (running p)) then Ok (false, longest, w, p)
  else
    let chunk := chunk_of r (Some 0) (config p) in
    let padded := Nat.max longest chunk * (length (w_prefill w) + 1) in
    if decide (w_prefill w ≠ [] ∧ max_num_batched_tokens (config p) < padded)
    then Ok (false, longest, w, p)
    else
      '(stuck, w, p) ← make_room w p;
      if (stuck : bool) then Ok (false, longest, w, p)
      else
        let chunk := chunk_of r (Some (Cache.num_tokens m)) (config p) in
        '(ok, p) ← alloc rid (Cache.num_tokens m + chunk) (Some m) p;
        if negb ok then
          p ← free_blocks rid p;
          '(victim, p) ← maybe_preempt (w_prefill w) p;
          Ok (false, longest,
              MkWork (w_prefill w) (w_chunks w) (w_preempted w ++ option_list victim), p)
        else
          '(w, p) ← admit_candidate oid chunk m w p;
          Ok (bool_decide (w_preempted w = []), Nat.max longest chunk, w, p).

(** Every turn that goes on takes a request off [waiting]. *)
Fixpoint admit_loop (fuel longest : nat) (w : Work) (p : BatchPlanner T) :
    result (Work * BatchPlanner T) :=
  match waiting p with
  | [] => Ok (w, p)
  | (rid, oid) :: _ =>
      match fuel with
      | 0 => Err OutOfFuel
      | S fuel =>
          '(go, longest, w, p) ← admit_one rid oid longest w p;
          if (go : bool) then admit_loop fuel longest w p else Ok (w, p)
      end
  end.

Definition _admit (w : Work) (p : BatchPlanner T) : result (Work * BatchPlanner T) :=
  deferred ← defer_admission (w_prefill w) p;
  if (deferred : bool) then Ok (w, set_deferred_steps (S (deferred_steps p)) p)
  else
    admit_loop (length (waiting p)) (foldr Nat.max 0 (w_chunks w)) w (set_deferred_steps 0 p).

(** *** Stage 3: grow the decode batch *)

Definition grow_one (oid : nat) (s : list nat * list nat * BatchPlanner T) :
    result (list nat * list nat * BatchPlanner T) :=
  let '(granted, victims, p) := s in
  r ← get oid p;
  if decide (Req.status r ≠ Req.RUNNING) then Ok (granted, victims, p)
  else
    let limit := max_seq_len (config p) in
    let p := update oid (Req.set_block_plan []) p in
    let reach := Nat.min (Z.to_nat (Z.of_nat (Req.seq_len r) + Req.pending_tokens r + 1)) limit in
    '(ok, victims, p) ← reserve oid reach granted victims p;
    if (ok : bool) then
      p ← map_blocks oid p;
      Ok (granted ++ [oid], victims, track_pending oid (Nat.min (Req.seq_len r) limit) p)
    else p ← preempt oid p; Ok (granted, victims ++ [oid], p).

(** The requests of [l] whose attribute test holds. *)
Fixpoint select (P : Req.Request → bool) (l : list nat) (p : BatchPlanner T) : result (list nat) :=
  match l with
  | [] => Ok []
  | oid :: l =>
      r ← get oid p;
      rest ← select P l p;
      Ok (if P r then oid :: rest else rest)
  end.

Definition grow_decode (decode : list nat) (w : Work) (p : BatchPlanner T) :
    result (list nat * list nat * BatchPlanner T) :=
  '(_, victims, p) ← rfold grow_one decode (w_prefill w, w_preempted w, p);
  decode ←
    (if decide (victims = []) then Ok decode
     else select (λ r, bool_decide (Req.status r = Req.RUNNING)) decode p);
  Ok (decode, victims, p).

Definition plan (p : BatchPlanner T) : result (StepPlan * BatchPlanner T) :=
  p ← drain_offload_events p;
  p ← promote_ready p;
  p ← commit_pending_blocks p;
  '(w, p) ← resume (length (running p)) 0 (MkWork [] [] []) p;
  '(w, p) ← _admit w p;
  just_prefilled ← select Req.prefill_done (w_prefill w) p;
  prefilled ← select Req.prefill_done (running p) p;
  let decode := filter (λ oid, oid ∉ just_prefilled) prefilled in
  '(decode, victims, p) ← grow_decode decode w p;
  Ok (MkPlan (w_prefill w) decode (w_chunks w) victims, p).

(** *** Speculative growth *)

Fixpoint speculate (fit : nat) (oid : nat) (r : Req.Request) (p : BatchPlanner T) :
    result (nat * BatchPlanner T) :=
  match fit with
  | 0 => Ok (0, p)
  | S fit' =>
      '(ok, p) ← alloc (Req.request_id r) (Req.seq_len r + fit) None p;
      if (ok : bool) then
        '(writes, c) ← Cache.take_table_writes (Req.request_id r) (prefix_cache p);
        Ok (fit, update oid (λ r, Req.set_block_plan (Req.block_plan r ++ writes) r)
                   (set_prefix_cache c p))
      else speculate fit' oid r p
  end.

Definition reserve_speculative (oid draft_rows : nat) (p : BatchPlanner T) :
    result (nat * BatchPlanner T) :=
  r ← get oid p;
  speculate (Nat.min draft_rows (max_seq_len (config p) - Req.seq_len r)) oid r p.

(** *** Views *)

Definition num_waiting (p : BatchPlanner T) : nat := length (waiting p).
Definition num_running (p : BatchPlanner T) : nat := length (running p).
Definition num_free_slots (p : BatchPlanner T) : nat := length (free_slots p).
Definition num_promoting (p : BatchPlanner T) : nat :=
  size (pending_promotes p) + length (ready_promotes p).
Definition has_unfinished_requests (p : BatchPlanner T) : bool :=
  bool_decide (waiting p ≠ [] ∨ running p ≠ [] ∨ pending_promotes p ≠ ∅ ∨
    ready_promotes p ≠ [] ∨ dying_promotes p ≠ ∅).

End Scheduling.

End Planner.
