(* ===== verification/PlannerInv.v ===== *)
(** * The batch planner's invariant

    The queues, the slots and the block ledger agree, without an offloading
    tier.  Every operation of the planner keeps the invariant and none raises. *)

From S2P Require Export BatchPlanner CacheClient.

Module Inv.
Import Planner.

Section Invariant.
Context {T : Type} `{!Offload.OffloadingManager T}
  (digest : list Z → list Z) (digest_ok : Chain.digest_ok digest).
Implicit Types (p : BatchPlanner T) (r : Req.Request).

Definition live p : list nat := (waiting p).*2 ++ running p.
Definition slot_of p (oid : nat) : option nat := heap p !! oid ≫= Req.slot.

(** The tokens of the live requests, and who may hold blocks. *)
Definition roster p (rid : string) : option (list Z) :=
  requests p !! rid ≫= λ oid, heap p !! oid ≫= λ r,
    Some (Req.prompt_token_ids r ++ Req.output_token_ids r).
Definition runner p (rid : string) : Prop :=
  ∃ oid r, oid ∈ running p ∧ heap p !! oid = Some r ∧ Req.request_id r = rid.

Definition config_ok (c : SchedulerConfig) : Prop :=
  1 ≤ max_num_batched_tokens c ∧ (enable_chunked_prefill c = true → 1 ≤ max_chunk_size c).

Record queues p : Prop := {
  q_plain : offloading p = None ∧ pending_promotes p = ∅ ∧ ready_promotes p = [] ∧
    dying_promotes p = ∅;
  q_config : config_ok (config p);
  (** every slot is free or held by exactly one running request *)
  q_slots : free_slots p ++ omap (slot_of p) (running p) ≡ₚ seq 0 (num_slots p);
  q_running : ∀ oid, oid ∈ running p → ∃ r, heap p !! oid = Some r ∧
    Req.status r = Req.RUNNING ∧ is_Some (Req.slot r);
  q_waiting : ∀ rid oid, (rid, oid) ∈ waiting p → ∃ r, heap p !! oid = Some r ∧
    Req.request_id r = rid ∧ Req.status r = Req.WAITING ∧ Req.slot r = None ∧
    Req.output_token_ids r = [] ∧ Req.num_computed_tokens r = 0;
  (** every live object is in one queue, under its own id *)
  q_live : NoDup (live p);
  q_requests : ∀ rid oid, requests p !! rid = Some oid ↔
    oid ∈ live p ∧ ∃ r, heap p !! oid = Some r ∧ Req.request_id r = rid;
  q_max : length (running p) ≤ max_num_seqs p;
  q_tokens : ∀ oid r, oid ∈ live p → heap p !! oid = Some r →
    Forall Chain.is_token (Req.prompt_token_ids r ++ Req.output_token_ids r) ∧
    1 ≤ Req.prompt_len r ∧ Req.num_computed_tokens r ≤ Req.prompt_len r;
  q_pending : ∀ e, e ∈ pending_blocks p → e.1 ∈ running p;
}.

Record wf p : Prop := {
  wf_queues : queues p;
  wf_cache : Client.cache_ok digest (prefix_cache p) (roster p) (runner p);
}.

(** ** Steps that leave the queues alone *)

(** What the queues depend on of a request. *)
Definition core r : string * list Z * list Z * Req.RequestStatus * option nat * nat * Z * Z :=
  (Req.request_id r, Req.prompt_token_ids r, Req.output_token_ids r, Req.status r, Req.slot r,
   Req.num_computed_tokens r, Req.pending_tokens r, Req.max_new_tokens r).

(** What not even a preemption changes: the id, the token sequence and the
    length at which the generation ends. *)
Definition stamp r : string * list Z * Z :=
  (Req.request_id r, Req.prompt_token_ids r ++ Req.output_token_ids r,
   (Z.of_nat (Req.prompt_len r) + Req.max_new_tokens r)%Z).

Lemma core_stamp r r' : core r' = core r → stamp r' = stamp r.
Proof.
  unfold core, stamp, Req.prompt_len. intros E. injection E as E1 E2 E3 _ _ _ _ E8.
  by rewrite E1, E2, E3, E8.
Qed.

Record frame p p' : Prop := {
  f_config : config p' = config p ∧ num_slots p' = num_slots p ∧ max_num_seqs p' = max_num_seqs p;
  f_waiting : waiting p' = waiting p;
  f_running : running p' = running p;
  f_requests : requests p' = requests p;
  f_slots : free_slots p' = free_slots p;
  f_plain : offloading p' = offloading p ∧ pending_promotes p' = pending_promotes p ∧
    ready_promotes p' = ready_promotes p ∧ dying_promotes p' = dying_promotes p;
  f_heap : ∀ oid, core <$> heap p' !! oid = core <$> heap p !! oid;
  f_pending : ∀ e, e ∈ pending_blocks p' → e ∈ pending_blocks p ∨ e.1 ∈ running p;
}.

#[global] Instance frame_preorder : PreOrder frame.
Proof.
  split.
  - split; try done. by left.
  - intros p1 p2 p3 [A1 A2 A3 A4 A5 A6 A7 A8] [B1 B2 B3 B4 B5 B6 B7 B8].
    split; [intuition congruence|congruence|congruence|congruence|congruence|intuition congruence| |].
    + intros oid. by rewrite B7.
    + intros e He. destruct (B8 e He) as [He'|He']; [by apply A8|right; by rewrite <- A3].
Qed.

Lemma frame_lookup p p' oid r :
  frame p p' → heap p !! oid = Some r → ∃ r', heap p' !! oid = Some r' ∧ core r' = core r.
Proof.
  intros Hf Hr. pose proof (f_heap _ _ Hf oid) as He0. rewrite Hr in He0.
  destruct (heap p' !! oid) as [r'|]; [|done]. exists r'. split; [done|by apply (inj Some)].
Qed.
Lemma frame_lookup_inv p p' oid r' :
  frame p p' → heap p' !! oid = Some r' → ∃ r, heap p !! oid = Some r ∧ core r' = core r.
Proof.
  intros Hf Hr. pose proof (f_heap _ _ Hf oid) as He0. rewrite Hr in He0.
  destruct (heap p !! oid) as [r|]; [|done]. exists r. split; [done|by apply (inj Some)].
Qed.

Lemma frame_live p p' : frame p p' → live p' = live p.
Proof. intros Hf. unfold live. by rewrite (f_waiting _ _ Hf), (f_running _ _ Hf). Qed.

Lemma frame_stamp p p' oid : frame p p' → stamp <$> heap p' !! oid = stamp <$> heap p !! oid.
Proof.
  intros Hf. pose proof (f_heap _ _ Hf oid) as He0.
  destruct (heap p' !! oid), (heap p !! oid); try done.
  apply (inj Some) in He0. cbn. f_equal. by apply core_stamp.
Qed.

Lemma frame_slot_of p p' oid : frame p p' → slot_of p' oid = slot_of p oid.
Proof.
  intros Hf. unfold slot_of. pose proof (f_heap _ _ Hf oid) as He0.
  destruct (heap p' !! oid), (heap p !! oid); try done.
  apply (inj Some) in He0. cbn. unfold core in He0. congruence.
Qed.

Lemma frame_roster p p' rid : frame p p' → roster p' rid = roster p rid.
Proof.
  intros Hf. unfold roster. rewrite (f_requests _ _ Hf).
  destruct (requests p !! rid) as [oid|]; [|done]. cbn. pose proof (f_heap _ _ Hf oid) as He0.
  destruct (heap p' !! oid), (heap p !! oid); try done.
  apply (inj Some) in He0. cbn. unfold core in He0. congruence.
Qed.

Lemma frame_runner p p' rid : frame p p' → runner p rid → runner p' rid.
Proof.
  intros Hf (oid & r & Hin & Hr & Hid).
  destruct (frame_lookup _ _ _ _ Hf Hr) as (r' & Hr' & Hc).
  exists oid, r'. rewrite (f_running _ _ Hf). split_and!; [done|done|].
  unfold core in Hc. congruence.
Qed.

Lemma frame_queues p p' : frame p p' → queues p → queues p'.
Proof.
  intros Hf [Q1 Qc Q2 Q3 Q4 Q5 Q6 Q7 Q8 Q9].
  pose proof Hf as [(F1 & F1' & F1'') F2 F3 F4 F5 F6 F7 F8]. split.
  - intuition congruence.
  - by rewrite F1.
  - rewrite F5, F3, F1'. erewrite list_omap_ext; [exact Q2|].
    apply Forall2_same_length_lookup_2; [done|]. intros k x y Hx Hy. simplify_eq.
    by apply frame_slot_of.
  - intros oid. rewrite F3. intros (r & Hr & Hs & Hsl)%Q3.
    destruct (frame_lookup _ _ _ _ Hf Hr) as (r' & Hr' & Hc). exists r'. unfold core in Hc.
    split_and!; [done|congruence|]. by replace (Req.slot r') with (Req.slot r) by congruence.
  - intros rid oid. rewrite F2. intros (r & Hr & ? & ? & ? & ? & ?)%Q4.
    destruct (frame_lookup _ _ _ _ Hf Hr) as (r' & Hr' & Hc). exists r'. unfold core in Hc.
    split_and!; congruence.
  - by rewrite (frame_live _ _ Hf).
  - intros rid oid. rewrite F4, (frame_live _ _ Hf), Q6. split; intros [? (r & Hr & Hid)];
      (split; [done|]).
    + destruct (frame_lookup _ _ _ _ Hf Hr) as (r' & Hr' & Hc). exists r'. unfold core in Hc.
      split; congruence.
    + destruct (frame_lookup_inv _ _ _ _ Hf Hr) as (r' & Hr' & Hc). exists r'. unfold core in Hc.
      split; congruence.
  - by rewrite F3, F1''.
  - intros oid r'. rewrite (frame_live _ _ Hf). intros Hl Hr'.
    destruct (frame_lookup_inv _ _ _ _ Hf Hr') as (r & Hr & Hc).
    unfold core in Hc. specialize (Q8 oid r Hl Hr). unfold Req.prompt_len in *.
    by replace (Req.prompt_token_ids r') with (Req.prompt_token_ids r) by congruence;
    replace (Req.output_token_ids r') with (Req.output_token_ids r) by congruence;
    replace (Req.num_computed_tokens r') with (Req.num_computed_tokens r) by congruence.
  - intros e [He|He]%F8; rewrite F3; [by apply Q9|done].
Qed.

(** A step that leaves the queues alone and the cache well. *)
Lemma frame_wf p p' :
  frame p p' → wf p → Client.cache_ok digest (prefix_cache p') (roster p) (runner p) → wf p'.
Proof.
  intros Hf [Hq _] Hc. split; [by eapply frame_queues|].
  eapply Client.cache_ok_weaken; [| |exact Hc].
  - intros rid tk Htk. exists tk. by rewrite (frame_roster _ _ rid Hf).
  - intros rid. by apply frame_runner.
Qed.

Lemma update_frame oid f p : (∀ r, core (f r) = core r) → frame p (update oid f p).
Proof.
  intros Hcf. split; try done; [|by left]. intros o. unfold update; cbn.
  destruct (decide (o = oid)) as [->|Hn].
  - rewrite lookup_alter_eq. destruct (heap p !! oid); cbn; [by rewrite Hcf|done].
  - by rewrite lookup_alter_ne.
Qed.

Lemma cache_frame c p : frame p (set_prefix_cache c p).
Proof. split; try done. by left. Qed.

Lemma track_pending_frame oid upto p :
  oid ∈ running p → frame p (track_pending oid upto p).
Proof.
  intros Hin. split; try done. cbn. intros e [He|He]%elem_of_app; [by left|right].
  apply list_elem_of_singleton in He as ->. done.
Qed.

(** ** Block operations *)

(** Queues alone, rows only gained. *)
Definition grows p p' : Prop :=
  frame p p' ∧ Client.rows_grow (prefix_cache p) (prefix_cache p').

#[global] Instance grows_preorder : PreOrder grows.
Proof.
  split; [intros p; split; [done|by intros r]|].
  intros p1 p2 p3 [F1 R1] [F2 R2]. split; [by etrans|]. intros r. etrans; [apply R1|apply R2].
Qed.

Lemma get_Ok oid p r : heap p !! oid = Some r → get oid p = Ok r.
Proof. intros Hr. unfold get. by rewrite Hr. Qed.

Lemma live_request p oid r :
  queues p → oid ∈ live p → heap p !! oid = Some r →
  requests p !! Req.request_id r = Some oid ∧
  roster p (Req.request_id r) = Some (Req.prompt_token_ids r ++ Req.output_token_ids r).
Proof.
  intros Hq Hl Hr. assert (requests p !! Req.request_id r = Some oid) as Hreq.
  { apply (q_requests _ Hq). split; [done|by eexists]. }
  split; [done|]. unfold roster. rewrite Hreq. cbn. by rewrite Hr.
Qed.

Lemma running_live p oid : oid ∈ running p → oid ∈ live p.
Proof. intros. unfold live. apply elem_of_app. by right. Qed.

Lemma coordinator_rows c c' : Cache.coordinator c' = Cache.coordinator c → Client.rows_grow c c'.
Proof. intros E rid. unfold Client.rows, Cache.block_ids. by rewrite E. Qed.

Lemma block_ids_rows c c' :
  (∀ rid, Cache.block_ids rid c' = Cache.block_ids rid c) → Client.rows_grow c c'.
Proof. intros E rid. unfold Client.rows. by rewrite E. Qed.

Lemma alloc_running p oid r n :
  wf p → oid ∈ running p → heap p !! oid = Some r →
  ∃ b c, alloc (Req.request_id r) n None p = Ok (b, set_prefix_cache c p) ∧
    wf (set_prefix_cache c p) ∧ grows p (set_prefix_cache c p) ∧
    (b = true → Client.covers c (Req.request_id r) n).
Proof.
  intros Hwf Hin Hr.
  destruct (Client.alloc_Ok digest _ _ _ (Req.request_id r) n None (wf_cache _ Hwf))
    as (b & c & E & Hg & _ & Hb); [by left|].
  exists b, c. unfold alloc. rewrite E. split_and!; [done| | |].
  - apply (frame_wf p); [apply cache_frame|done|]. destruct b; [destruct Hb as [_ Hb]|by destruct Hb].
    eapply Client.cache_ok_weaken; [| |exact Hb].
    + intros rid tk Htk. by exists tk.
    + intros rid [Hrid| ->]; [done|]. by exists oid, r.
  - split; [apply cache_frame|done].
  - intros ->. by destruct Hb.
Qed.

Lemma map_blocks_Ok p oid r :
  wf p → heap p !! oid = Some r →
  ∃ ws c, map_blocks oid p = Ok (update oid (Req.set_block_plan ws) (set_prefix_cache c p)) ∧
    wf (update oid (Req.set_block_plan ws) (set_prefix_cache c p)) ∧
    grows p (update oid (Req.set_block_plan ws) (set_prefix_cache c p)) ∧
    Cache.coordinator c = Cache.coordinator (prefix_cache p).
Proof.
  intros Hwf Hr.
  destruct (Client.writes_Ok digest _ _ _ (Req.request_id r) (wf_cache _ Hwf)) as (ws & c & E & Hc & Hco).
  exists ws, c. unfold map_blocks. rewrite (get_Ok _ _ _ Hr). cbn. rewrite E. cbn.
  assert (Hf : frame p (update oid (Req.set_block_plan ws) (set_prefix_cache c p))).
  { etrans; [apply cache_frame|]. by apply update_frame. }
  split_and!; [done|by apply (frame_wf p)| |done].
  split; [done|]. by apply coordinator_rows.
Qed.

Lemma commit_Ok p oid r upto toks holder :
  offloading p = None → Client.cache_ok digest (prefix_cache p) toks holder →
  heap p !! oid = Some r →
  toks (Req.request_id r) = Some (Req.prompt_token_ids r ++ Req.output_token_ids r) →
  Forall Chain.is_token (Req.prompt_token_ids r ++ Req.output_token_ids r) →
  ∃ c, commit digest oid upto p = Ok (set_prefix_cache c p) ∧ Client.cache_ok digest c toks holder ∧
    ∀ rid, Cache.block_ids rid c = Cache.block_ids rid (prefix_cache p).
Proof.
  intros Hoff Hc Hr Htk Ht. unfold commit. rewrite (get_Ok _ _ _ Hr). cbn [mbind result_bind]. cbv zeta.
  assert (∃ c1, (if decide (length (Cache.tracked_hashes (Req.request_id r) (prefix_cache p)) <
        upto / PREFIX_CACHE_BLOCK_SIZE)
      then '(_, c) ← Cache.observe digest (Req.request_id r)
             (Req.prompt_token_ids r ++ Req.output_token_ids r) (prefix_cache p); Ok c
      else Ok (prefix_cache p)) = Ok c1 ∧ Client.cache_ok digest c1 toks holder ∧
      Cache.coordinator c1 = Cache.coordinator (prefix_cache p)) as (c1 & -> & Hc1 & Hco).
  { case_decide; [|by exists (prefix_cache p)].
    destruct (Client.observe_Ok digest digest_ok _ _ _ _ _ Hc Htk Ht) as (hs & c1 & -> & ? & ?).
    by exists c1. }
  cbn [mbind result_bind].
  destruct (Client.client_commit_Ok digest c1 toks holder (Req.request_id r) upto Hc1)
    as (fresh & c2 & -> & Hc2 & Hids). cbn. rewrite Hoff. exists c2. split_and!; [done|done|].
  intros rid. rewrite Hids. unfold Cache.block_ids. by rewrite Hco.
Qed.

Lemma commit_running p oid r upto :
  wf p → oid ∈ running p → heap p !! oid = Some r →
  ∃ c, commit digest oid upto p = Ok (set_prefix_cache c p) ∧ wf (set_prefix_cache c p) ∧
    grows p (set_prefix_cache c p).
Proof.
  intros Hwf Hin Hr. pose proof (wf_queues _ Hwf) as Hq.
  pose proof (running_live _ _ Hin) as Hl.
  destruct (live_request _ _ _ Hq Hl Hr) as [_ Htk].
  destruct (q_tokens _ Hq _ _ Hl Hr) as (Ht & _ & _).
  destruct (commit_Ok p oid r upto _ _ (proj1 (q_plain _ Hq)) (wf_cache _ Hwf) Hr Htk Ht)
    as (c & E & Hc & Hids).
  exists c. split_and!; [done| |].
  - apply (frame_wf p); [apply cache_frame|done|done].
  - split; [apply cache_frame|by apply block_ids_rows].
Qed.

(** A fold of steps each of which only grows. *)
Lemma rfold_grows {A} (f : A → BatchPlanner T → result (BatchPlanner T)) (P : A → BatchPlanner T → Prop) l p :
  (∀ a p1, wf p1 → P a p1 → ∃ p2, f a p1 = Ok p2 ∧ wf p2 ∧ grows p1 p2) →
  (∀ a p1 p2, grows p1 p2 → P a p1 → P a p2) →
  wf p → Forall (λ a, P a p) l → ∃ p', rfold f l p = Ok p' ∧ wf p' ∧ grows p p'.
Proof.
  intros Hf Hmono. revert p. induction l as [|a l IH]; intros p Hwf Hl; [by exists p|].
  apply Forall_cons in Hl as [Ha Hl]. destruct (Hf a p Hwf Ha) as (p1 & E1 & Hwf1 & G1).
  destruct (IH p1 Hwf1) as (p2 & E2 & Hwf2 & G2).
  { eapply Forall_impl; [exact Hl|]. intros b. by apply Hmono. }
  exists p2. cbn. rewrite E1. cbn. split_and!; [done|done|by etrans].
Qed.

Lemma pending_cleared p l : (∀ e, e ∈ l → e ∈ pending_blocks p) → frame p (set_pending_blocks l p).
Proof. intros Hl. split; try done. cbn. intros e He. left. by apply Hl. Qed.

Lemma commit_pending_blocks_Ok p :
  wf p → ∃ p', commit_pending_blocks digest p = Ok p' ∧ wf p' ∧ grows p p' ∧ pending_blocks p' = [].
Proof.
  intros Hwf. unfold commit_pending_blocks.
  destruct (rfold_grows (commit_pending_one digest) (λ e p1, e.1 ∈ running p1) (pending_blocks p) p)
    as (p1 & E & Hwf1 & G1); [| |done| |].
  - intros [oid upto] p1 Hwf1 Hin. cbn in Hin.
    destruct (q_running _ (wf_queues _ Hwf1) oid Hin) as (r & Hr & Hs & _).
    unfold commit_pending_one. cbn [fst snd]. rewrite (get_Ok _ _ _ Hr). cbn [mbind result_bind].
    rewrite decide_True by done.
    destruct (commit_running p1 oid r upto Hwf1 Hin Hr) as (c & ? & ? & ?). by eexists.
  - intros e p1 p2 [Hf _]. by rewrite (f_running _ _ Hf).
  - apply Forall_forall. apply (q_pending _ (wf_queues _ Hwf)).
  - rewrite E. cbn. eexists. split; [done|].
    assert (Hf : frame p1 (set_pending_blocks [] p1)).
    { apply pending_cleared. by intros e ?%not_elem_of_nil. }
    split_and!; [|etrans; [exact G1|]|done].
    + apply (frame_wf p1); [done|done|]. apply (wf_cache _ Hwf1).
    + split; [done|by intros r].
Qed.

(** ** Lists *)

Lemma discard_filter oid l : NoDup l → discard oid l = filter (λ o, o ≠ oid) l.
Proof.
  induction 1 as [|o l Hn _ IH]; [done|]. cbn [discard]. rewrite filter_cons.
  destruct (decide (o = oid)) as [->|Hne].
  - rewrite decide_False by naive_solver. symmetry. apply filter_all. intros x Hx ->. done.
  - rewrite decide_True by done. by rewrite IH.
Qed.

Lemma filter_ne_perm (oid : nat) l :
  NoDup l → oid ∈ l → oid :: filter (λ o, o ≠ oid) l ≡ₚ l.
Proof.
  intros Hnd Hin. apply NoDup_Permutation.
  - apply NoDup_cons. split; [|by apply NoDup_filter]. by intros [? _]%list_elem_of_filter.
  - done.
  - intros x. rewrite elem_of_cons, list_elem_of_filter. destruct (decide (x = oid)); naive_solver.
Qed.

Lemma keys_filter_id (rid : string) (d : list (string * nat)) :
  rid ∉ d.*1 → filter (λ kv, kv.1 ≠ rid) d = d ∧ filter (λ kv, kv.1 = rid) d = [].
Proof.
  induction d as [|[k v] d IH]; [done|]. rewrite fmap_cons, not_elem_of_cons. cbn [fst].
  intros [Hk Hd]. destruct (IH Hd) as [E1 E2].
  rewrite !filter_cons, E1, E2, decide_True, decide_False; [done| |]; cbn; congruence.
Qed.

Lemma od_front_fresh rid oid d :
  rid ∉ d.*1 → od_to_front rid (od_set rid oid d) = (rid, oid) :: d.
Proof.
  intros Hn. unfold od_set. rewrite decide_False by done. unfold od_to_front.
  rewrite !filter_app. destruct (keys_filter_id rid d Hn) as [-> ->].
  rewrite !filter_cons, decide_True, decide_False by (cbn; naive_solver).
  cbn. by rewrite app_nil_r.
Qed.

Lemma od_pop_head rid oid d : rid ∉ d.*1 → od_pop rid ((rid, oid) :: d) = d.
Proof.
  intros Hn. unfold od_pop. rewrite filter_cons, decide_False by naive_solver.
  by destruct (keys_filter_id rid d Hn) as [-> _].
Qed.

(** ** The queues *)

Lemma waiting_live p rid oid : (rid, oid) ∈ waiting p → oid ∈ live p.
Proof.
  intros Hin. unfold live. apply elem_of_app. left. apply list_elem_of_fmap. by exists (rid, oid).
Qed.

Lemma waiting_key p rid oid : queues p → (rid, oid) ∈ waiting p → requests p !! rid = Some oid.
Proof.
  intros Hq Hin. apply (q_requests _ Hq). split; [by eapply waiting_live|].
  destruct (q_waiting _ Hq rid oid Hin) as (r & ? & ? & _). by exists r.
Qed.

Lemma live_disjoint p oid : queues p → oid ∈ (waiting p).*2 → oid ∈ running p → False.
Proof. intros Hq H1 H2. pose proof (q_live _ Hq) as Hn. apply NoDup_app in Hn as (_ & Hd & _). by apply (Hd oid). Qed.

Lemma running_nodup p : queues p → NoDup (running p).
Proof. intros Hq. pose proof (q_live _ Hq) as Hn. by apply NoDup_app in Hn as (_ & _ & ?). Qed.

Lemma running_key_fresh p oid r :
  queues p → oid ∈ running p → heap p !! oid = Some r → Req.request_id r ∉ (waiting p).*1.
Proof.
  intros Hq Hin Hr ([rid o] & E & Ho)%list_elem_of_fmap. cbn in E. subst rid.
  pose proof (waiting_key _ _ _ Hq Ho) as H1.
  destruct (live_request _ _ _ Hq (running_live _ _ Hin) Hr) as [H2 _].
  assert (o = oid) as -> by congruence. apply (live_disjoint p oid Hq); [|done].
  apply list_elem_of_fmap. by exists (Req.request_id r, oid).
Qed.

Lemma waiting_keys_nodup p : queues p → NoDup (waiting p).*1.
Proof.
  intros Hq. pose proof (q_live _ Hq) as Hn. apply NoDup_app in Hn as (Hn & _ & _).
  assert (Hk : ∀ rid oid, (rid, oid) ∈ waiting p → requests p !! rid = Some oid)
    by (intros; by apply waiting_key).
  revert Hn Hk. generalize (waiting p) as d. induction d as [|[k v] d IH]; intros Hn Hk; [constructor|].
  apply NoDup_cons in Hn as [Hv Hn]. apply NoDup_cons. split; [|apply IH; [done|]].
  - intros ([k' v'] & E & Hin)%list_elem_of_fmap. cbn in E. subst k'. apply Hv.
    assert (v' = v) as -> by (pose proof (Hk k v ltac:(left)); pose proof (Hk k v' ltac:(by right)); congruence).
    apply list_elem_of_fmap. by exists (k, v).
  - intros. apply Hk. by right.
Qed.

Lemma update_insert oid f p r :
  heap p !! oid = Some r → update oid f p = set_heap (<[oid := f r]> (heap p)) p.
Proof.
  intros Hr. unfold update. f_equal. apply map_eq. intros o.
  destruct (decide (o = oid)) as [->|Hn].
  - by rewrite lookup_alter_eq, Hr, lookup_insert_eq.
  - by rewrite lookup_alter_ne, lookup_insert_ne.
Qed.

(** A request as preemption leaves it. *)
Definition requeued r : Req.Request :=
  Req.MkRequest (Req.request_id r) (Req.max_gen_len r)
    (Req.prompt_token_ids r ++ Req.output_token_ids r)
    (Req.max_new_tokens r - Z.of_nat (length (Req.output_token_ids r))) 0 Req.WAITING None []
    (Req.finish_reason r) 0 [] 0%Z.

(** The state [preempt] leaves, given the cache it leaves. *)
Definition preempted_state p oid r (s : nat) (c : Cache.PrefixCache) : BatchPlanner T :=
  MkPlanner (config p) (num_slots p) (max_num_seqs p) (<[oid := requeued r]> (heap p))
    ((Req.request_id r, oid) :: waiting p) (filter (λ o, o ≠ oid) (running p)) (requests p)
    (s :: free_slots p) c (filter (λ e, e.1 ≠ oid) (pending_blocks p)) (S (num_preemptions p))
    (deferred_steps p) (offloading p) (pending_promotes p) (ready_promotes p) (dying_promotes p)
    (promotion_by_blocks p).

Lemma omap_slots_ext (P : nat → Prop) `{!∀ x, Decision (P x)} h1 h2 (l : list nat) :
  (∀ o, o ∈ l → P o → h1 o = h2 o) → omap h1 (filter P l) = omap (B := nat) h2 (filter P l).
Proof.
  induction l as [|o l IH]; intros Hh; [done|]. rewrite filter_cons. case_decide as Hp.
  - cbn. rewrite Hh by (by left || done). rewrite IH; [done|]. intros. apply Hh; [by right|done].
  - apply IH. intros. apply Hh; [by right|done].
Qed.

Lemma preempted_live p oid r s c :
  queues p → oid ∈ running p → live (preempted_state p oid r s c) ≡ₚ live p.
Proof.
  intros Hq Hin. unfold live. cbn. rewrite <- (filter_ne_perm oid (running p)) at 2;
    [|by apply running_nodup|done]. by rewrite Permutation_middle.
Qed.

Lemma preempted_queues p oid r s c :
  queues p → oid ∈ running p → heap p !! oid = Some r → Req.slot r = Some s →
  queues (preempted_state p oid r s c).
Proof.
  intros Hq Hin Hr Hs. pose proof (preempted_live p oid r s c Hq Hin) as Hlive.
  pose proof (running_nodup _ Hq) as Hnd.
  assert (Hheap : ∀ o, o ≠ oid → heap (preempted_state p oid r s c) !! o = heap p !! o).
  { intros o Hne. cbn. by rewrite lookup_insert_ne. }
  assert (Hself : heap (preempted_state p oid r s c) !! oid = Some (requeued r)).
  { cbn. by rewrite lookup_insert_eq. }
  split.
  - apply (q_plain _ Hq).
  - apply (q_config _ Hq).
  - cbn [preempted_state free_slots running num_slots]. rewrite <- (q_slots _ Hq).
    rewrite <- (filter_ne_perm oid (running p)) at 2 by done. cbn [omap list_omap].
    unfold slot_of at 2. rewrite Hr. cbn [mbind option_bind]. rewrite Hs.
    rewrite <- Permutation_middle. cbn. constructor. apply Permutation_app; [done|].
    rewrite (omap_slots_ext _ (slot_of (preempted_state p oid r s c)) (slot_of p)); [done|].
    intros o _ Hne. unfold slot_of. by rewrite Hheap.
  - intros o [Hne Ho]%list_elem_of_filter. rewrite Hheap by done. by apply (q_running _ Hq).
  - intros rid o [[= -> ->]|Ho]%elem_of_cons; [by exists (requeued r)|].
    rewrite Hheap; [by apply (q_waiting _ Hq)|]. intros ->. apply (live_disjoint p oid Hq); [|done].
    apply list_elem_of_fmap. by exists (rid, oid).
  - rewrite Hlive. apply (q_live _ Hq).
  - intros rid o. rewrite Hlive. change (requests (preempted_state p oid r s c)) with (requests p).
    rewrite (q_requests _ Hq). destruct (decide (o = oid)) as [->|Hne]; [|by rewrite Hheap].
    rewrite Hself, Hr. split; intros [? (r' & [= <-] & ?)]; (split; [done|]); by eexists.
  - cbn [preempted_state running max_num_seqs]. pose proof (q_max _ Hq) as Hmax.
    rewrite <- (filter_ne_perm oid (running p) Hnd Hin) in Hmax. cbn in Hmax. lia.
  - intros o r' Ho Hr'. rewrite Hlive in Ho. destruct (decide (o = oid)) as [->|Hne].
    + rewrite Hself in Hr'. injection Hr' as <-. cbn.
      destruct (q_tokens _ Hq oid r Ho Hr) as (? & ? & _). rewrite app_nil_r. split_and!; [done| |lia].
      unfold Req.prompt_len in *. cbn. rewrite length_app. lia.
    + rewrite Hheap in Hr' by done. by apply (q_tokens _ Hq o).
  - cbn. intros e [Hne He]%list_elem_of_filter. apply list_elem_of_filter.
    split; [done|by apply (q_pending _ Hq)].
Qed.

(** ** Preemption *)

Lemma planner_ext p p' :
  config p = config p' → num_slots p = num_slots p' → max_num_seqs p = max_num_seqs p' →
  heap p = heap p' → waiting p = waiting p' → running p = running p' → requests p = requests p' →
  free_slots p = free_slots p' → prefix_cache p = prefix_cache p' →
  pending_blocks p = pending_blocks p' → num_preemptions p = num_preemptions p' →
  deferred_steps p = deferred_steps p' → offloading p = offloading p' →
  pending_promotes p = pending_promotes p' → ready_promotes p = ready_promotes p' →
  dying_promotes p = dying_promotes p' → promotion_by_blocks p = promotion_by_blocks p' → p = p'.
Proof. destruct p, p'; cbn. intros. by subst. Qed.

(** The requests other than [oid] keep their entry in the roster. *)
Lemma roster_other p p' oid r rid :
  queues p → oid ∈ live p → heap p !! oid = Some r → requests p' = requests p →
  (∀ o, o ≠ oid → heap p' !! o = heap p !! o) → rid ≠ Req.request_id r →
  roster p' rid = roster p rid.
Proof.
  intros Hq Hl Hr Hreq Hh Hne. unfold roster. rewrite Hreq.
  destruct (requests p !! rid) as [o|] eqn:Eo; [|done]. cbn. rewrite Hh; [done|].
  intros ->. apply (q_requests _ Hq) in Eo as (_ & r' & Hr' & <-). congruence.
Qed.

Lemma preempt_Ok p oid r :
  wf p → oid ∈ running p → heap p !! oid = Some r →
  ∃ s c, Req.slot r = Some s ∧ preempt oid p = Ok (preempted_state p oid r s c) ∧
    wf (preempted_state p oid r s c) ∧
    Coord.same_config (Cache.coordinator (prefix_cache p)) (Cache.coordinator c) ∧
    ∀ rid, rid ≠ Req.request_id r → Client.rows c rid = Client.rows (prefix_cache p) rid.
Proof.
  intros Hwf Hin Hr. pose proof (wf_queues _ Hwf) as Hq.
  destruct (q_running _ Hq oid Hin) as (r0 & Hr0 & Hst & (s & Hs)).
  assert (r0 = r) as -> by congruence. pose proof (running_live _ _ Hin) as Hl.
  destruct (live_request _ _ _ Hq Hl Hr) as [Hreq _].
  destruct (Client.free_Ok digest (prefix_cache p) (roster p) (runner p) (Req.request_id r)
    (roster (preempted_state p oid r s (prefix_cache p)))
    (runner (preempted_state p oid r s (prefix_cache p))) (wf_cache _ Hwf))
    as (c & E & Hc & Hrows & Hsame & _).
  { intros rid Hne. eapply roster_other; [done|done|exact Hr|done| |done].
    intros o Ho. cbn. by rewrite lookup_insert_ne. }
  { intros rid Hne (o & r' & Ho & Hr' & Hid). exists o, r'. cbn.
    assert (o ≠ oid) by (intros ->; congruence).
    rewrite lookup_insert_ne by done. split_and!; [|done|done]. by apply list_elem_of_filter. }
  exists s, c. split_and!; [done| | |done|done].
  - unfold preempt. rewrite (get_Ok _ _ _ Hr). cbn [mbind result_bind]. cbv zeta. rewrite Hs.
    unfold free_blocks. cbn [update set_heap set_free_slots drop_pending_blocks set_pending_blocks
      prefix_cache]. rewrite E. cbn [mbind result_bind]. apply f_equal.
    apply planner_ext; try reflexivity; cbn.
    + apply map_eq. intros o. destruct (decide (o = oid)) as [->|Hne].
      * by rewrite !lookup_alter_eq, Hr, lookup_insert_eq.
      * by rewrite !lookup_alter_ne, lookup_insert_ne.
    + apply od_front_fresh. by eapply running_key_fresh.
    + apply discard_filter. by apply running_nodup.
  - split; [by apply preempted_queues|exact Hc].
Qed.

(** What a series of preemptions and block operations does: the victims leave
    [running] for [waiting], the others keep their state and their rows. *)
Record evicts (vs : list nat) p p' : Prop := {
  e_config : config p' = config p ∧ num_slots p' = num_slots p ∧ max_num_seqs p' = max_num_seqs p;
  e_requests : requests p' = requests p;
  e_running : running p' = filter (λ o, o ∉ vs) (running p);
  e_waiting : Forall (λ v, v ∈ (waiting p').*2) vs;
  e_more : ∃ front, waiting p' = front ++ waiting p ∧ length front = length vs;
  e_heap : ∀ o, o ∉ vs → core <$> heap p' !! o = core <$> heap p !! o;
  e_stamp : ∀ o, stamp <$> heap p' !! o = stamp <$> heap p !! o;
  e_live : ∀ o, o ∈ live p' ↔ o ∈ live p;
  e_from : ∀ v, v ∈ vs → v ∈ running p;
  e_rows : ∀ o r, o ∈ running p' → heap p !! o = Some r →
    Client.rows (prefix_cache p) (Req.request_id r) ≤ Client.rows (prefix_cache p') (Req.request_id r);
}.

Lemma evicts_refl p p' : grows p p' → evicts [] p p'.
Proof.
  intros [Hf Hg]. split.
  - apply Hf.
  - apply Hf.
  - rewrite (f_running _ _ Hf). symmetry. apply filter_all. intros o _. apply not_elem_of_nil.
  - constructor.
  - exists []. by rewrite (f_waiting _ _ Hf).
  - intros o _. apply (f_heap _ _ Hf).
  - intros o. by apply frame_stamp.
  - intros o. by rewrite (frame_live _ _ Hf).
  - by intros v ?%not_elem_of_nil.
  - intros. apply Hg.
Qed.

Lemma evicts_trans vs1 vs2 p1 p2 p3 :
  evicts vs1 p1 p2 → evicts vs2 p2 p3 → evicts (vs1 ++ vs2) p1 p3.
Proof.
  intros E1 E2. split.
  - destruct (e_config _ _ _ E1) as (? & ? & ?), (e_config _ _ _ E2) as (? & ? & ?).
    split_and!; congruence.
  - by rewrite (e_requests _ _ _ E2), (e_requests _ _ _ E1).
  - rewrite (e_running _ _ _ E2), (e_running _ _ _ E1), list_filter_filter.
    apply list_filter_iff. intros o. rewrite elem_of_app. tauto.
  - apply Forall_app. split; [|apply E2]. destruct (e_more _ _ _ E2) as (front & -> & _).
    eapply Forall_impl; [apply (e_waiting _ _ _ E1)|]. intros v Hv. rewrite fmap_app.
    apply elem_of_app. by right.
  - destruct (e_more _ _ _ E1) as (f1 & W1 & L1), (e_more _ _ _ E2) as (f2 & W2 & L2).
    exists (f2 ++ f1). rewrite W2, W1, app_assoc, !length_app. split; [done|lia].
  - intros o [H1 H2]%not_elem_of_app. by rewrite (e_heap _ _ _ E2), (e_heap _ _ _ E1).
  - intros o. by rewrite (e_stamp _ _ _ E2), (e_stamp _ _ _ E1).
  - intros o. by rewrite (e_live _ _ _ E2), (e_live _ _ _ E1).
  - intros v [Hv|Hv]%elem_of_app; [by apply (e_from _ _ _ E1)|].
    apply (e_from _ _ _ E2) in Hv. rewrite (e_running _ _ _ E1) in Hv.
    by apply list_elem_of_filter in Hv as [_ ?].
  - intros o r Ho Hr. pose proof Ho as Ho2. rewrite (e_running _ _ _ E2) in Ho2.
    apply list_elem_of_filter in Ho2 as [_ Ho2].
    assert (o ∉ vs1) as Hn.
    { rewrite (e_running _ _ _ E1) in Ho2. by apply list_elem_of_filter in Ho2 as [? _]. }
    pose proof (e_heap _ _ _ E1 o Hn) as Hc. rewrite Hr in Hc.
    destruct (heap p2 !! o) as [r2|] eqn:Hr2; [|done]. apply (inj Some) in Hc.
    assert (Req.request_id r2 = Req.request_id r) as Hid by (unfold core in Hc; congruence).
    etrans; [by apply (e_rows _ _ _ E1 o r)|]. rewrite <- Hid. by apply (e_rows _ _ _ E2 o r2).
Qed.

Lemma request_id_inj p o1 o2 r1 r2 :
  queues p → o1 ∈ live p → o2 ∈ live p → heap p !! o1 = Some r1 → heap p !! o2 = Some r2 →
  Req.request_id r1 = Req.request_id r2 → o1 = o2.
Proof.
  intros Hq L1 L2 R1 R2 E. destruct (live_request _ _ _ Hq L1 R1) as [E1 _].
  destruct (live_request _ _ _ Hq L2 R2) as [E2 _]. rewrite E in E1. congruence.
Qed.

Lemma preempted_evicts p oid r s c :
  queues p → oid ∈ running p → heap p !! oid = Some r →
  (∀ rid, rid ≠ Req.request_id r → Client.rows c rid = Client.rows (prefix_cache p) rid) →
  evicts [oid] p (preempted_state p oid r s c).
Proof.
  intros Hq Hin Hr Hrows. split; try done.
  - cbn. apply list_filter_iff. intros o. rewrite list_elem_of_singleton. done.
  - cbn. constructor; [by left|constructor].
  - by exists [(Req.request_id r, oid)].
  - intros o Ho. rewrite list_elem_of_singleton in Ho. cbn. by rewrite lookup_insert_ne.
  - intros o. cbn. destruct (decide (o = oid)) as [->|Hne]; [|by rewrite lookup_insert_ne].
    rewrite lookup_insert_eq, Hr. cbn. f_equal. unfold stamp, requeued, Req.prompt_len. cbn.
    rewrite app_nil_r, length_app. f_equal. lia.
  - intros o. by rewrite (preempted_live p oid r s c Hq Hin).
  - by intros v ->%list_elem_of_singleton.
  - intros o r' [Hne Ho]%list_elem_of_filter Hr'. change (prefix_cache (preempted_state p oid r s c)) with c.
    rewrite Hrows; [done|]. intros E.
    apply Hne. eapply (request_id_inj p o oid r' r); [done|by apply running_live..|done|done|done].
Qed.

Lemma find_victim_Ok protect l p :
  queues p → (∀ o, o ∈ l → o ∈ running p) →
  ∃ v, find_victim protect l p = Ok v ∧
    ∀ o, v = Some o → o ∈ l ∧ o ∉ protect ∧
      ∃ r, heap p !! o = Some r ∧ Req.prefill_done r = true ∧ Req.output_token_ids r ≠ [].
Proof.
  intros Hq. induction l as [|o l IH]; intros Hl; [by exists None|]. cbn [find_victim].
  destruct IH as (v & E & Hv); [intros; apply Hl; by right|].
  assert (Hv' : ∀ o', v = Some o' → o' ∈ o :: l ∧ o' ∉ protect ∧
    ∃ r, heap p !! o' = Some r ∧ Req.prefill_done r = true ∧ Req.output_token_ids r ≠ []).
  { intros o' (? & ? & ?)%Hv. split_and!; [by right|done|done]. }
  destruct (q_running _ Hq o) as (r & Hr & _); [apply Hl; left|].
  rewrite (get_Ok _ _ _ Hr). cbn [mbind result_bind]. case_decide as Hd; [by exists v|].
  case_decide as Ho; [|by exists v]. exists (Some o). split; [done|]. intros o' [= <-].
  split_and!; [left|tauto|]. exists r. split_and!; [done| |done].
  by destruct (Req.prefill_done r); tauto.
Qed.

Lemma preempt_victim_Ok protect p :
  wf p → ∃ v p', preempt_victim protect p = Ok (v, p') ∧ wf p' ∧
    Coord.same_config (Cache.coordinator (prefix_cache p)) (Cache.coordinator (prefix_cache p')) ∧
    match v with
    | None => p' = p
    | Some o => o ∉ protect ∧ o ∈ running p ∧ evicts [o] p p'
    end.
Proof.
  intros Hwf. unfold preempt_victim.
  destruct (find_victim_Ok protect (reverse (running p)) p (wf_queues _ Hwf)) as (v & -> & Hv).
  { intros o. by rewrite elem_of_reverse. }
  cbn [mbind result_bind]. destruct v as [o|]; [|by exists None, p].
  destruct (Hv o eq_refl) as (Ho & Hp & r & Hr & _). rewrite elem_of_reverse in Ho.
  destruct (preempt_Ok p o r Hwf Ho Hr) as (s & c & _ & E & Hwf' & Hsame & Hrows).
  rewrite E. cbn. exists (Some o), (preempted_state p o r s c). split_and!; try done.
  apply preempted_evicts; try done. apply Hwf.
Qed.

Lemma maybe_preempt_Ok protect p :
  wf p → ∃ v p', maybe_preempt protect p = Ok (v, p') ∧ wf p' ∧
    Coord.same_config (Cache.coordinator (prefix_cache p)) (Cache.coordinator (prefix_cache p')) ∧
    evicts (option_list v) p p' ∧ (∀ o, v = Some o → o ∉ protect ∧ o ∈ running p).
Proof.
  intros Hwf. unfold maybe_preempt. destruct (enable_preemption (config p)).
  - destruct (preempt_victim_Ok protect p Hwf) as (v & p' & E & Hwf' & Hsame & Hv).
    exists v, p'. split_and!; try done; destruct v as [o|]; cbn; try done.
    + apply Hv.
    + subst p'. by apply evicts_refl.
    + intros o' [= <-]. by destruct Hv as (? & ? & _).
  - exists None, p. split_and!; try done. by apply evicts_refl.
Qed.

Lemma evicts_request vs p p' oid r :
  evicts vs p p' → oid ∉ vs → heap p !! oid = Some r →
  ∃ r', heap p' !! oid = Some r' ∧ core r' = core r.
Proof.
  intros He Hn Hr. pose proof (e_heap _ _ _ He oid Hn) as Hc. rewrite Hr in Hc.
  destruct (heap p' !! oid) as [r'|]; [|done]. exists r'. split; [done|by apply (inj Some)].
Qed.

Lemma evicts_running vs p p' oid : evicts vs p p' → oid ∉ vs → oid ∈ running p → oid ∈ running p'.
Proof. intros He Hn Hin. rewrite (e_running _ _ _ He). by apply list_elem_of_filter. Qed.

Lemma evicts_grows vs p1 p2 p3 : evicts vs p1 p2 → grows p2 p3 → evicts vs p1 p3.
Proof.
  intros E G%evicts_refl. rewrite <- (app_nil_r vs). by eapply evicts_trans.
Qed.

Lemma reserve_loop_Ok fuel : ∀ oid r n protected victims p,
  wf p → oid ∈ running p → heap p !! oid = Some r → oid ∈ protected → length (running p) < fuel →
  ∃ ok vs p', reserve_loop fuel (Req.request_id r) n protected victims p = Ok (ok, victims ++ vs, p') ∧
    wf p' ∧ evicts vs p p' ∧ (∀ v, v ∈ vs → v ∉ protected) ∧
    (ok = true → Client.covers (prefix_cache p') (Req.request_id r) n).
Proof.
  induction fuel as [|fuel IH]; intros oid r n protected victims p Hwf Hin Hr Hprot Hfuel; [lia|].
  cbn [reserve_loop].
  destruct (preempt_victim_Ok protected p Hwf) as (v & p1 & -> & Hwf1 & _ & Hv).
  cbn [mbind result_bind]. destruct v as [v|]; cycle 1.
  { subst p1. exists false, [], p. rewrite app_nil_r. split_and!; [done|done|by apply evicts_refl| |done].
    by intros v ?%not_elem_of_nil. }
  destruct Hv as (Hvp & Hvr & He). assert (Hne : oid ∉ [v]).
  { intros ->%list_elem_of_singleton. done. }
  destruct (evicts_request _ _ _ _ _ He Hne Hr) as (r1 & Hr1 & Hc1).
  assert (Hid : Req.request_id r1 = Req.request_id r) by (unfold core in Hc1; congruence).
  pose proof (evicts_running _ _ _ _ He Hne Hin) as Hin1.
  destruct (alloc_running p1 oid r1 n Hwf1 Hin1 Hr1) as (ok & c & Ea & Hwf2 & Hg & Hcov).
  rewrite Hid in Ea, Hcov. rewrite Ea. cbn [mbind result_bind].
  pose proof (evicts_grows _ _ _ _ He Hg) as He2. destruct ok.
  { exists true, [v], (set_prefix_cache c p1). split_and!; [done|done|done| |done].
    by intros w ->%list_elem_of_singleton. }
  destruct (IH oid r1 n protected (victims ++ [v]) (set_prefix_cache c p1) Hwf2 Hin1 Hr1 Hprot)
    as (ok & vs & p3 & E3 & Hwf3 & He3 & Hd3 & Hc3).
  { cbn. rewrite (e_running _ _ _ He).
    pose proof (filter_length_lt (λ o, o ∉ [v]) (running p) v Hvr) as Hlt.
    enough (length (filter (λ o, o ∉ [v]) (running p)) < length (running p)) by lia.
    apply Hlt. intros Hn. apply Hn. by left. }
  rewrite Hid in E3, Hc3. exists ok, (v :: vs), p3. split_and!; [|done| | |done].
  - rewrite E3. by rewrite <- app_assoc.
  - by apply (evicts_trans [v] vs p (set_prefix_cache c p1)).
  - intros w [->|Hw]%elem_of_cons; [done|by apply Hd3].
Qed.

Lemma reserve_Ok oid r n protect victims p :
  wf p → oid ∈ running p → heap p !! oid = Some r →
  ∃ ok vs p', reserve oid n protect victims p = Ok (ok, victims ++ vs, p') ∧
    wf p' ∧ evicts vs p p' ∧ (∀ v, v ∈ vs → v ≠ oid ∧ v ∉ protect) ∧
    (ok = true → Client.covers (prefix_cache p') (Req.request_id r) n).
Proof.
  intros Hwf Hin Hr. unfold reserve. rewrite (get_Ok _ _ _ Hr). cbn [mbind result_bind].
  destruct (alloc_running p oid r n Hwf Hin Hr) as (ok & c & Ea & Hwf1 & Hg & Hcov).
  rewrite Ea. cbn [mbind result_bind]. destruct ok.
  { exists true, [], (set_prefix_cache c p). rewrite app_nil_r.
    split_and!; [done|done|by apply evicts_refl| |done]. by intros v ?%not_elem_of_nil. }
  destruct (reserve_loop_Ok (S (length (running p))) oid r n (oid :: protect) victims
    (set_prefix_cache c p) Hwf1 Hin Hr) as (ok & vs & p2 & E2 & Hwf2 & He2 & Hd2 & Hc2);
    [by left|cbn; lia|].
  exists ok, vs, p2. split_and!; [done|done| | |done].
  - apply (evicts_trans [] vs p (set_prefix_cache c p)); [by apply evicts_refl|done].
  - intros v Hv%Hd2. by apply not_elem_of_cons in Hv.
Qed.

(** ** Progress on a running request *)

(** A running request changes: same identity and slot, tokens only appended. *)
Lemma update_running_wf p oid r f :
  wf p → oid ∈ running p → heap p !! oid = Some r →
  Req.request_id (f r) = Req.request_id r → Req.status (f r) = Req.RUNNING →
  Req.slot (f r) = Req.slot r →
  (Req.prompt_token_ids r ++ Req.output_token_ids r) `prefix_of`
    (Req.prompt_token_ids (f r) ++ Req.output_token_ids (f r)) →
  Forall Chain.is_token (Req.prompt_token_ids (f r) ++ Req.output_token_ids (f r)) →
  1 ≤ Req.prompt_len (f r) → Req.num_computed_tokens (f r) ≤ Req.prompt_len (f r) →
  wf (update oid f p).
Proof.
  intros Hwf Hin Hr Hid Hst Hsl Hpre Htok Hlen Hcomp. rewrite (update_insert _ _ _ _ Hr).
  pose proof Hwf as [Hq Hc]. pose proof (running_live _ _ Hin) as Hl.
  set (p' := set_heap _ p).
  assert (Hself : heap p' !! oid = Some (f r)) by apply lookup_insert_eq.
  assert (Hheap : ∀ o, o ≠ oid → heap p' !! o = heap p !! o).
  { intros o Hne. cbn. by rewrite lookup_insert_ne. }
  assert (Hroster : ∀ rid tk, roster p rid = Some tk → ∃ tk', roster p' rid = Some tk' ∧ tk `prefix_of` tk').
  { intros rid tk. destruct (decide (rid = Req.request_id r)) as [->|Hne].
    - destruct (live_request _ _ _ Hq Hl Hr) as [Hreq ->]. intros [= <-].
      unfold roster. change (requests p') with (requests p). rewrite Hreq. cbn -[p'].
      rewrite Hself. by eexists.
    - intros Hk. exists tk. split; [|done].
      by rewrite (roster_other p p' oid r rid Hq Hl Hr eq_refl Hheap Hne). }
  split.
  - split; try apply Hq.
    + change (free_slots p') with (free_slots p). change (running p') with (running p).
      rewrite (list_omap_ext _ (slot_of p) _ (running p)); [apply (q_slots _ Hq)|].
      apply Forall2_same_length_lookup_2; [done|]. intros k x y Hx Hy.
      assert (x = y) as -> by congruence. unfold slot_of. destruct (decide (y = oid)) as [->|Hne]; [|by rewrite Hheap].
      rewrite Hself, Hr. done.
    + intros o Ho. destruct (decide (o = oid)) as [->|Hne].
      * exists (f r). split_and!; [done|done|]. rewrite Hsl.
        destruct (q_running _ Hq oid Ho) as (r0 & ? & _ & ?). by simplify_eq.
      * rewrite Hheap by done. by apply (q_running _ Hq).
    + intros rid o Ho. rewrite Hheap; [by apply (q_waiting _ Hq)|]. intros ->.
      apply (live_disjoint p oid Hq); [|done]. apply list_elem_of_fmap. by exists (rid, oid).
    + intros rid o. change (requests p') with (requests p). change (live p') with (live p).
      rewrite (q_requests _ Hq). destruct (decide (o = oid)) as [->|Hne]; [|by rewrite Hheap].
      rewrite Hself, Hr. split; intros [? (r' & [= <-] & ?)]; (split; [done|]); eexists;
        (split; [done|congruence]).
    + intros o r' Ho Hr'. destruct (decide (o = oid)) as [->|Hne].
      * rewrite Hself in Hr'. by injection Hr' as <-.
      * rewrite Hheap in Hr' by done. by apply (q_tokens _ Hq o).
  - eapply Client.cache_ok_weaken; [exact Hroster| |exact Hc].
    intros rid (o & r' & Ho & Hr' & Hid'). destruct (decide (o = oid)) as [->|Hne].
    + exists oid, (f r). split_and!; [done|done|congruence].
    + exists o, r'. by rewrite Hheap.
Qed.

(** The work planned so far, since [p0]: every prefill entry runs, once, has
    rows for everything it is assumed to compute, and takes its chunk of that;
    the others that are past prefill have been left alone, and but for the
    preempted so have the prompts. *)
Record planned p0 (w : Work) p : Prop := {
  pl_own : Forall2 (λ o c, ∃ r, heap p !! o = Some r ∧ c ≤ Req.num_computed_tokens r)
    (w_prefill w) (w_chunks w);
  pl_nodup : NoDup (w_prefill w);
  pl_covered : ∀ o, o ∈ w_prefill w → o ∈ running p ∧ ∃ r, heap p !! o = Some r ∧
    Client.covers (prefix_cache p) (Req.request_id r) (Req.num_computed_tokens r);
  pl_chunks : Forall (λ c, 1 ≤ c ∧ (enable_chunked_prefill (config p) = true →
    c ≤ max_chunk_size (config p) ∧ c ≤ max_num_batched_tokens (config p))) (w_chunks w);
  pl_requests : requests p = requests p0;
  pl_stamp : ∀ o, stamp <$> heap p !! o = stamp <$> heap p0 !! o;
  pl_live : ∀ o, o ∈ live p ↔ o ∈ live p0;
  pl_dead : ∀ o, o ∉ live p0 → core <$> heap p !! o = core <$> heap p0 !! o;
  pl_rest : ∀ o r, o ∈ running p → o ∉ w_prefill w → heap p !! o = Some r →
    Req.prefill_done r = true → o ∈ running p0 ∧ core <$> heap p0 !! o = Some (core r);
  pl_same : ∀ o, o ∉ w_preempted w →
    Req.prompt_token_ids <$> heap p !! o = Req.prompt_token_ids <$> heap p0 !! o;
}.

Lemma core_prefill_done r r' : core r' = core r → Req.prefill_done r' = Req.prefill_done r.
Proof.
  unfold core, Req.prefill_done, Req.prompt_len. intros E.
  injection E as _ E2 _ _ _ E6 _ _. by rewrite E2, E6.
Qed.

Lemma core_prompt (h h' : option Req.Request) :
  core <$> h' = core <$> h → Req.prompt_token_ids <$> h' = Req.prompt_token_ids <$> h.
Proof.
  destruct h as [r|], h' as [r'|]; try done. intros E%(inj Some). cbn. f_equal.
  unfold core in E. congruence.
Qed.

Lemma pl_len p0 w p : planned p0 w p → length (w_chunks w) = length (w_prefill w).
Proof. intros Hp. symmetry. eapply Forall2_length, Hp. Qed.

Lemma planned_evicts vs p0 w p p' :
  evicts vs p p' → (∀ v, v ∈ vs → v ∉ w_prefill w) → planned p0 w p →
  planned p0 (MkWork (w_prefill w) (w_chunks w) (w_preempted w ++ vs)) p'.
Proof.
  intros He Hd [H1 H2 H3 H4 H5 H6 H7 H8 H9 H10].
  assert (Hnv : ∀ o, o ∈ w_prefill w → o ∉ vs) by (intros o Ho ?; by apply (Hd o)).
  split; cbn [w_prefill w_chunks w_preempted].
  - apply Forall2_same_length_lookup_2; [by eapply Forall2_length|]. intros k o c Ho0 Hc0.
    pose proof (list_elem_of_lookup_2 _ _ _ Ho0) as Ho.
    destruct (Forall2_lookup_lr _ _ _ _ _ _ H1 Ho0 Hc0) as (r & Hr & Hc).
    destruct (evicts_request _ _ _ _ _ He (Hnv o Ho) Hr) as (r' & Hr' & Hcore).
    exists r'. split; [done|]. unfold core in Hcore.
    by replace (Req.num_computed_tokens r') with (Req.num_computed_tokens r) by congruence.
  - done.
  - intros o Ho. pose proof (Hnv o Ho) as Hn.
    destruct (H3 o Ho) as (Hin & r & Hr & Hc). pose proof (evicts_running _ _ _ _ He Hn Hin) as Hin'.
    split; [done|]. destruct (evicts_request _ _ _ _ _ He Hn Hr) as (r' & Hr' & Hcore).
    exists r'. split; [done|].
    assert (Req.request_id r' = Req.request_id r ∧
      Req.num_computed_tokens r' = Req.num_computed_tokens r) as [-> ->]
      by (unfold core in Hcore; split; congruence).
    unfold Client.covers in *. etrans; [exact Hc|]. by apply (e_rows _ _ _ He o r).
  - by rewrite (proj1 (e_config _ _ _ He)).
  - by rewrite (e_requests _ _ _ He).
  - intros o. by rewrite (e_stamp _ _ _ He).
  - intros o. by rewrite (e_live _ _ _ He).
  - intros o Ho. rewrite (e_heap _ _ _ He); [by apply H8|].
    intros Hv%(e_from _ _ _ He). by apply Ho, H7, running_live.
  - intros o r' Hrun Ho Hr' Hpd. rewrite (e_running _ _ _ He) in Hrun.
    apply list_elem_of_filter in Hrun as [Hn Hrun].
    pose proof (e_heap _ _ _ He o Hn) as Hc. rewrite Hr' in Hc.
    destruct (heap p !! o) as [r|] eqn:Hr; [|done]. apply (inj Some) in Hc. rewrite Hc.
    apply (H9 o r Hrun Ho Hr). by rewrite <- (core_prefill_done _ _ Hc).
  - intros o [Ho Hn]%not_elem_of_app. rewrite <- H10 by done. by apply core_prompt, (e_heap _ _ _ He).
Qed.

Lemma planned_grows p0 w p p' : grows p p' → planned p0 w p → planned p0 w p'.
Proof.
  intros Hg Hpl. pose proof (planned_evicts [] p0 w p p' (evicts_refl _ _ Hg)
    ltac:(by intros v ?%not_elem_of_nil) Hpl) as Hp.
  rewrite app_nil_r in Hp. by destruct w.
Qed.

Lemma chunk_bounds p r computed :
  config_ok (config p) → default (Req.num_computed_tokens r) computed < Req.prompt_len r →
  let chunk := chunk_of r computed (config p) in
  1 ≤ chunk ∧ chunk ≤ Req.prompt_len r - default (Req.num_computed_tokens r) computed ∧
  (enable_chunked_prefill (config p) = true →
    chunk ≤ max_chunk_size (config p) ∧ chunk ≤ max_num_batched_tokens (config p)).
Proof.
  intros [Hb Hs] Hlt. cbv zeta. unfold chunk_of.
  destruct (enable_chunked_prefill (config p)); [specialize (Hs eq_refl)|]; lia.
Qed.

Definition same_limits p p' : Prop :=
  config p' = config p ∧ num_slots p' = num_slots p ∧ max_num_seqs p' = max_num_seqs p.

#[global] Instance same_limits_preorder : PreOrder same_limits.
Proof.
  split; [done|]. intros p1 p2 p3 (? & ? & ?) (? & ? & ?). split_and!; congruence.
Qed.

(** Grant a chunk: the request's progress moves to [reach], its new blocks are
    mapped and their registration queued. *)
Lemma grant_Ok oid r reach f p :
  wf p → oid ∈ running p → heap p !! oid = Some r → reach ≤ Req.prompt_len r →
  core (f r) = core (Req.set_num_computed_tokens reach r) →
  Client.covers (prefix_cache p) (Req.request_id r) reach →
  let p1 := update oid f p in
  ∃ p2, map_blocks oid p1 = Ok p2 ∧ wf (track_pending oid reach p2) ∧
    grows p1 (track_pending oid reach p2) ∧
    ∃ r', heap (track_pending oid reach p2) !! oid = Some r' ∧
      Req.request_id r' = Req.request_id r ∧ Req.num_computed_tokens r' = reach.
Proof.
  intros Hwf Hin Hr Hle Hcore Hcov p1. unfold core in Hcore. cbn in Hcore.
  pose proof Hcore as Hcore'. injection Hcore as Ci Cp Co Cs Csl Cn _ _.
  destruct (q_tokens _ (wf_queues _ Hwf) oid r (running_live _ _ Hin) Hr) as (Ht & Hl & _).
  destruct (q_running _ (wf_queues _ Hwf) oid Hin) as (r0 & Hr0 & Hst & _). assert (r0 = r) as -> by congruence.
  assert (Hwf1 : wf p1).
  { apply (update_running_wf p oid r); unfold Req.prompt_len in *;
      try rewrite Cp; try rewrite Co; try done; congruence. }
  assert (Hr1 : heap p1 !! oid = Some (f r)).
  { unfold p1. rewrite (update_insert _ _ _ _ Hr). cbn. by rewrite lookup_insert_eq. }
  destruct (map_blocks_Ok p1 oid _ Hwf1 Hr1) as (ws & c & E & Hwf2 & Hg2 & _).
  set (p2 := update oid (Req.set_block_plan ws) _) in *. exists p2. split; [done|].
  assert (Hin2 : oid ∈ running p2) by exact Hin.
  pose proof (track_pending_frame oid reach p2 Hin2) as Hf3.
  split_and!.
  - apply (frame_wf p2); [done|done|apply (wf_cache _ Hwf2)].
  - etrans; [exact Hg2|]. split; [done|by intros rid].
  - exists (Req.set_block_plan ws (f r)). split_and!; try done.
    cbn [track_pending set_pending_blocks heap]. unfold p2.
    erewrite update_insert by exact Hr1. cbn. by rewrite lookup_insert_eq.
Qed.

(** A granted request joins the work. *)
Lemma planned_grant p0 oid r f reach chunk w p p3 :
  planned p0 w p → oid ∉ w_prefill w → oid ∈ running p → heap p !! oid = Some r →
  core (f r) = core (Req.set_num_computed_tokens reach r) → grows (update oid f p) p3 →
  Client.covers (prefix_cache p) (Req.request_id r) reach → 1 ≤ chunk ≤ reach →
  (enable_chunked_prefill (config p) = true →
    chunk ≤ max_chunk_size (config p) ∧ chunk ≤ max_num_batched_tokens (config p)) →
  planned p0 (MkWork (w_prefill w ++ [oid]) (w_chunks w ++ [chunk]) (w_preempted w)) p3.
Proof.
  intros [H1 H2 H3 H4 H5 H6 H7 H8 H9 H10] Hout Hin Hr Hcore Hg Hcov [Hc1 Hc2] Hlim.
  apply (planned_grows p0 _ _ _ Hg). clear Hg. rewrite (update_insert _ _ _ _ Hr).
  assert (Hl : oid ∈ live p0) by (by apply H7, running_live).
  assert (Hid : Req.request_id (f r) = Req.request_id r ∧ Req.num_computed_tokens (f r) = reach ∧
    Req.prompt_token_ids (f r) = Req.prompt_token_ids r).
  { unfold core in Hcore. cbn in Hcore. split_and!; congruence. }
  assert (Hst : stamp (f r) = stamp r) by exact (core_stamp _ _ Hcore).
  destruct Hid as (Hid & Hn & Hp).
  split; cbn [w_chunks w_prefill w_preempted set_heap heap running requests config prefix_cache].
  - apply Forall2_app; [|constructor; [|constructor]].
    + apply Forall2_same_length_lookup_2; [by eapply Forall2_length|]. intros k o c Ho0 Hc0.
      destruct (Forall2_lookup_lr _ _ _ _ _ _ H1 Ho0 Hc0) as (ro & Hro & Hc). exists ro.
      rewrite lookup_insert_ne; [done|]. intros <-. apply Hout. by eapply list_elem_of_lookup_2.
    + exists (f r). rewrite lookup_insert_eq, Hn. split; [done|lia].
  - apply NoDup_app. split_and!; [done| |by apply NoDup_singleton].
    intros x Hx ->%list_elem_of_singleton. done.
  - intros o [Ho| ->%list_elem_of_singleton]%elem_of_app.
    + destruct (H3 o Ho) as (Hor & ro & Hro & Hoc). split; [done|]. exists ro.
      rewrite lookup_insert_ne; [done|]. by intros <-.
    + split; [done|]. exists (f r). by rewrite lookup_insert_eq, Hn, Hid.
  - apply Forall_app. split; [done|]. constructor; [split; [done|exact Hlim]|constructor].
  - done.
  - intros o. rewrite <- H6. destruct (decide (o = oid)) as [->|Hne]; [|by rewrite lookup_insert_ne].
    rewrite lookup_insert_eq, Hr. cbn. by rewrite Hst.
  - exact H7.
  - intros o Ho. rewrite lookup_insert_ne; [by apply H8|]. by intros <-.
  - intros o r' Hrun Ho. apply not_elem_of_app in Ho as [Ho Hne%not_elem_of_cons].
    rewrite lookup_insert_ne by naive_solver. by apply H9.
  - intros o Ho. rewrite <- (H10 o Ho). destruct (decide (o = oid)) as [->|Hne]; [|by rewrite lookup_insert_ne].
    rewrite lookup_insert_eq, Hr. cbn. by rewrite Hp.
Qed.

Lemma take_filter {A} (P : A → Prop) `{!∀ x, Decision (P x)} k l (x : A) :
  x ∈ take k l → P x → x ∈ take k (filter P l).
Proof.
  intros Hx HP. rewrite <- (take_drop k l). rewrite filter_app.
  assert (Hf : x ∈ filter P (take k l)) by (by apply list_elem_of_filter).
  rewrite take_app_ge.
  - apply elem_of_app. by left.
  - etrans; [apply length_filter|]. rewrite length_take. lia.
Qed.

Lemma resume_one_Ok p0 i oid w p :
  wf p → planned p0 w p → w_prefill w ⊆ take i (running p) → running p !! i = Some oid →
  ∃ w' p', resume_one oid w p = Ok (w', p') ∧ wf p' ∧ planned p0 w' p' ∧ same_limits p p' ∧
    w_prefill w' ⊆ take (S i) (running p') ∧ length (running p') ≤ length (running p).
Proof.
  intros Hwf Hpl Hsub Hi. pose proof (list_elem_of_lookup_2 _ _ _ Hi) as Hin.
  pose proof (wf_queues _ Hwf) as Hq.
  destruct (q_running _ Hq oid Hin) as (r & Hr & Hst & _).
  destruct (q_tokens _ Hq oid r (running_live _ _ Hin) Hr) as (_ & _ & _).
  assert (Hup : ∀ x, x ∈ take i (running p) → x ∈ take (S i) (running p)).
  { intros x Hx. rewrite (take_S_r _ _ _ Hi). apply elem_of_app. by left. }
  assert (Hout : oid ∉ w_prefill w).
  { intros Hx%Hsub. pose proof (running_nodup _ Hq) as Hnd.
    rewrite <- (take_drop i (running p)) in Hnd. rewrite (drop_S _ _ _ Hi) in Hnd.
    apply NoDup_app in Hnd as (_ & Hd & _). apply (Hd oid Hx). by left. }
  unfold resume_one. rewrite (get_Ok _ _ _ Hr). cbn [mbind result_bind].
  destruct (Req.prefill_done r) eqn:Hdone.
  { exists w, p. split_and!; try done. intros x Hx. by apply Hup, Hsub. }
  cbv zeta. set (pb := update oid (Req.set_block_plan []) p).
  assert (Hf0 : frame p pb) by (by apply update_frame).
  assert (Hwf0 : wf pb) by (apply (frame_wf p); [done|done|apply (wf_cache _ Hwf)]).
  assert (Hlt : Req.num_computed_tokens r < Req.prompt_len r).
  { unfold Req.prefill_done in Hdone. apply bool_decide_eq_false in Hdone. lia. }
  destruct (chunk_bounds p r None (q_config _ Hq) Hlt) as (Hc1 & Hc2 & Hc3). cbn in Hc2.
  change (config pb) with (config p). set (chunk := chunk_of r None (config p)) in *.
  assert (Hr0 : heap pb !! oid = Some (Req.set_block_plan [] r)).
  { unfold pb. rewrite (update_insert _ _ _ _ Hr). cbn. by rewrite lookup_insert_eq. }
  assert (He0 : evicts [] p pb) by (apply evicts_refl; split; [done|by intros rid]).
  destruct (reserve_Ok oid _ (Req.num_computed_tokens r + chunk) (w_prefill w) (w_preempted w) pb
    Hwf0 Hin Hr0) as (ok & vs & p1 & E1 & Hwf1 & He1 & Hd1 & Hcov).
  rewrite E1. cbn [mbind result_bind]. pose proof (evicts_trans _ _ _ _ _ He0 He1) as He.
  change ([] ++ vs) with vs in He.
  pose proof (planned_evicts vs p0 w p p1 He ltac:(by intros v [_ ?]%Hd1) Hpl) as Hpl1.
  assert (Hlen : length (running p1) ≤ length (running p)).
  { rewrite (e_running _ _ _ He). apply length_filter. }
  assert (Hsub1 : w_prefill w ⊆ take (S i) (running p1)).
  { intros x Hx. rewrite (e_running _ _ _ He). apply take_filter; [by apply Hup, Hsub|].
    intros Hv. by apply Hd1 in Hv as [_ ?]. }
  destruct ok; cbn [negb].
  2: { exists (MkWork (w_prefill w) (w_chunks w) (w_preempted w ++ vs)), p1.
       split_and!; try done. apply He. }
  assert (Hnv : oid ∉ vs) by (intros Hv; by apply Hd1 in Hv as [? _]).
  destruct (evicts_request _ _ _ _ _ He Hnv Hr) as (r1 & Hr1 & Hcore).
  pose proof (evicts_running _ _ _ _ He Hnv Hin) as Hin1.
  assert (Req.request_id r1 = Req.request_id r ∧ Req.prompt_len r1 = Req.prompt_len r) as [Hid Hpr]
    by (unfold core, Req.prompt_len in *; split; congruence).
  destruct (grant_Ok oid r1 (Req.num_computed_tokens r + chunk)
    (Req.set_num_computed_tokens (Req.num_computed_tokens r + chunk)) p1 Hwf1 Hin1 Hr1)
    as (p2 & E2 & Hwf3 & Hg3 & r3 & Hr3 & Hid3 & Hn3); [lia|done|rewrite Hid; by apply Hcov|].
  rewrite E2. cbn [mbind result_bind]. eexists _, _. split; [reflexivity|].
  set (p3 := track_pending _ _ p2) in *. pose proof Hg3 as [Hf3 Hrows3].
  assert (Hrun3 : running p3 = running p1) by (by rewrite (f_running _ _ Hf3)).
  split_and!; [done| | | |by rewrite Hrun3].
  - apply (planned_grant p0 oid r1 (Req.set_num_computed_tokens (Req.num_computed_tokens r + chunk))
      (Req.num_computed_tokens r + chunk) chunk
      (MkWork (w_prefill w) (w_chunks w) (w_preempted w ++ vs)) p1 p3 Hpl1 Hout Hin1 Hr1); try done.
    + rewrite Hid. by apply Hcov.
    + lia.
    + by rewrite (proj1 (e_config _ _ _ He)).
  - etrans; [apply (e_config _ _ _ He)|]. apply (f_config _ _ Hf3).
  - rewrite Hrun3. intros x [Hx| ->%list_elem_of_singleton]%elem_of_app; [by apply Hsub1|].
    rewrite (e_running _ _ _ He). apply take_filter; [|done].
    rewrite (take_S_r _ _ _ Hi). apply elem_of_app. right. by left.
Qed.
End Invariant.
End Inv.
