(* ===== verification/PlannerStages.v ===== *)
(** * The stages of a planning step

    [BatchPlanner.plan] without an offloading tier: no stage raises, each keeps
    the planner's invariant, and what is planned has the blocks it needs. *)

From S2P Require Export PlannerInv.

Module Stages.
Import Planner Inv.

Section Stages.
Context {T : Type} `{!Offload.OffloadingManager T}
  (digest : list Z → list Z) (digest_ok : Chain.digest_ok digest).
Implicit Types (p : BatchPlanner T) (r : Req.Request) (w : Work).
Notation wf := (Inv.wf digest).

(** ** Stage 1 *)

Lemma resume_Ok p0 fuel : ∀ i w p,
  wf p → planned p0 w p → w_prefill w ⊆ take i (running p) → length (running p) ≤ fuel + i →
  ∃ w' p', resume fuel i w p = Ok (w', p') ∧ wf p' ∧ planned p0 w' p' ∧ same_limits p p'.
Proof.
  induction fuel as [|fuel IH]; intros i w p Hwf Hpl Hsub Hlen; cbn [resume].
  all: destruct (running p !! i) as [oid|] eqn:Hi; [|by exists w, p].
  { apply lookup_lt_Some in Hi. lia. }
  destruct (resume_one_Ok digest p0 i oid w p Hwf Hpl Hsub Hi)
    as (w1 & p1 & -> & Hwf1 & Hpl1 & Hlim & Hsub1 & Hlen1). cbn [mbind result_bind].
  destruct (IH (S i) w1 p1 Hwf1 Hpl1 Hsub1) as (w2 & p2 & -> & ? & ? & ?); [lia|].
  exists w2, p2. split_and!; [done|done|done|by etrans].
Qed.

(** ** Stage 2 *)

Lemma free_slots_length p :
  queues p → length (free_slots p) + length (running p) = num_slots p.
Proof.
  intros Hq. pose proof (Permutation_length (q_slots _ Hq)) as Hl.
  rewrite length_app, length_seq in Hl. rewrite <- Hl. f_equal.
  assert (Hall : ∀ o, o ∈ running p → is_Some (slot_of p o)).
  { intros o Ho. destruct (q_running _ Hq o Ho) as (r & Hr & _ & ?). unfold slot_of. by rewrite Hr. }
  revert Hall. generalize (running p) as l. induction l as [|o l IH]; intros Hall; [done|].
  destruct (Hall o) as [s Hs]; [left|]. cbn. rewrite Hs. cbn. f_equal.
  apply IH. intros. apply Hall. by right.
Qed.

Lemma waiting_holds_nothing p rid oid :
  wf p → (rid, oid) ∈ waiting p →
  Coord.holds_of (Coord.requests (Cache.coordinator (prefix_cache p))) rid = [].
Proof.
  intros Hwf Hin. pose proof (wf_queues _ _ Hwf) as Hq.
  destruct (Coord.holds_of _ rid) eqn:E; [done|]. exfalso.
  destruct (Client.ok_hold _ _ _ _ (wf_cache _ _ Hwf) rid) as (o & r & Ho & Hr & Hid); [by rewrite E|].
  apply (running_key_fresh p o r Hq Ho Hr). rewrite Hid. apply list_elem_of_fmap. by exists (rid, oid).
Qed.

(** The cache probe of an admission turn. *)
Lemma probe_Ok p rid oid r :
  wf p → (rid, oid) ∈ waiting p → heap p !! oid = Some r →
  ∃ hs m c1 c2, Cache.track digest rid (Req.prompt_token_ids r) (prefix_cache p) = Ok (hs, c1) ∧
    Cache.lookup hs (Req.prompt_len r) c1 = Ok (m, c2) ∧ wf (set_prefix_cache c2 p) ∧
    grows p (set_prefix_cache c2 p) ∧ Cache.num_tokens m < Req.prompt_len r ∧
    Coord.adoptable (Cache.coordinator c2) rid (Cache.adopted_blocks (Some m)).
Proof.
  intros Hwf Hin Hr. pose proof (wf_queues _ _ Hwf) as Hq.
  destruct (q_waiting _ Hq rid oid Hin) as (r0 & Hr0 & <- & _ & _ & Hout & _).
  assert (r0 = r) as -> by congruence. pose proof (waiting_live _ _ _ Hin) as Hl.
  destruct (live_request _ _ _ Hq Hl Hr) as [_ Htk].
  destruct (q_tokens _ Hq _ _ Hl Hr) as (Ht & H1 & _). rewrite Hout, app_nil_r in Htk, Ht.
  destruct (Client.track_Ok digest digest_ok _ _ _ _ _ (wf_cache _ _ Hwf) Htk Ht)
    as (hs & c1 & E1 & Hc1 & Hco1 & _).
  destruct (Client.lookup_Ok digest _ _ _ hs (Req.prompt_len r) Hc1)
    as (m & c2 & E2 & Hc2 & Hco2 & Hm & Had).
  exists hs, m, c1, c2. split_and!; [done|done| | |lia|].
  - by apply (frame_wf digest p); [apply cache_frame| |].
  - split; [apply cache_frame|]. apply coordinator_rows. cbn. congruence.
  - apply Had. rewrite Hco1. by apply (waiting_holds_nothing p _ oid).
Qed.

Lemma make_room_Ok w p :
  wf p →
  ∃ stuck vs p', make_room w p =
      Ok (stuck, MkWork (w_prefill w) (w_chunks w) (w_preempted w ++ vs), p') ∧
    wf p' ∧ evicts vs p p' ∧ (∀ v, v ∈ vs → v ∉ w_prefill w ∧ v ∈ running p) ∧
    Coord.same_config (Cache.coordinator (prefix_cache p)) (Cache.coordinator (prefix_cache p')) ∧
    (stuck = false → free_slots p' ≠ []).
Proof.
  intros Hwf. unfold make_room. case_decide as Hd.
  { exists false, [], p. rewrite app_nil_r. destruct w. split_and!; try done.
    - by apply evicts_refl.
    - by intros v ?%not_elem_of_nil. }
  destruct (maybe_preempt_Ok digest (w_prefill w) p Hwf) as (v & p' & -> & Hwf' & Hs & He & Hv).
  cbn [mbind result_bind]. destruct v as [v|].
  - exists false, [v], p'. split_and!; try done.
    + by intros v' ->%list_elem_of_singleton; apply Hv.
    + intros _ Hnil. destruct (Hv v eq_refl) as [_ Hin].
      pose proof (free_slots_length p (wf_queues _ _ Hwf)) as L1.
      pose proof (free_slots_length p' (wf_queues _ _ Hwf')) as L2.
      rewrite Hnil in L2. destruct (free_slots p); [|done].
      rewrite (e_running _ _ _ He) in L2. rewrite (proj1 (proj2 (e_config _ _ _ He))) in L2.
      assert (Hf : length (filter (λ o, o ∉ [v]) (running p)) < length (running p)).
      { apply (filter_length_lt _ _ v Hin). intros Hn. apply Hn. by left. }
      cbn in *. lia.
  - exists true, [], p'. rewrite app_nil_r. destruct w. split_and!; try done.
    by intros v ?%not_elem_of_nil.
Qed.

Lemma od_pop_middle rid oid l1 l2 :
  NoDup (l1 ++ (rid, oid) :: l2).*1 → od_pop rid (l1 ++ (rid, oid) :: l2) = l1 ++ l2.
Proof.
  rewrite fmap_app, fmap_cons. cbn [fst]. intros (_ & Hd & Hn)%NoDup_app.
  apply NoDup_cons in Hn as [H2 _]. unfold od_pop. rewrite filter_app, filter_cons, decide_False by (cbn; naive_solver).
  rewrite (proj1 (keys_filter_id rid l1 ltac:(intros Hin; apply (Hd rid Hin); left))).
  by rewrite (proj1 (keys_filter_id rid l2 H2)).
Qed.

(** The state once a waiting request has its seat, given the cache. *)
Definition seated_state p rid oid r (s : nat) (slots : list nat) (c : Cache.PrefixCache) :
    BatchPlanner T :=
  MkPlanner (config p) (num_slots p) (max_num_seqs p)
    (<[oid := Req.set_status Req.RUNNING (Req.set_slot (Some s) r)]> (heap p))
    (od_pop rid (waiting p)) (running p ++ [oid]) (requests p) slots c (pending_blocks p)
    (num_preemptions p) (deferred_steps p) (offloading p) (pending_promotes p) (ready_promotes p)
    (dying_promotes p) (promotion_by_blocks p).

Lemma seated_live p rid oid r s slots c :
  queues p → (rid, oid) ∈ waiting p → live (seated_state p rid oid r s slots c) ≡ₚ live p.
Proof.
  intros Hq Hin. pose proof (waiting_keys_nodup p Hq) as Hn. unfold live. cbn.
  apply list_elem_of_split in Hin as (l1 & l2 & E). rewrite E in Hn |- *.
  rewrite od_pop_middle by done. rewrite !fmap_app, fmap_cons. cbn [snd].
  solve_Permutation.
Qed.

Lemma seated_queues p rid oid r s slots c :
  queues p → (rid, oid) ∈ waiting p → heap p !! oid = Some r → free_slots p = s :: slots →
  length (running p) < max_num_seqs p → queues (seated_state p rid oid r s slots c).
Proof.
  intros Hq Hin Hr Hs Hroom. pose proof (seated_live p rid oid r s slots c Hq Hin) as Hlive.
  set (p' := seated_state p rid oid r s slots c) in *.
  set (r' := Req.set_status Req.RUNNING (Req.set_slot (Some s) r)).
  assert (Hself : heap p' !! oid = Some r') by apply lookup_insert_eq.
  assert (Hheap : ∀ o, o ≠ oid → heap p' !! o = heap p !! o).
  { intros o Hne. cbn. by rewrite lookup_insert_ne. }
  assert (Hnrun : ∀ o, o ∈ running p → o ≠ oid).
  { intros o Ho ->. apply (live_disjoint p oid Hq); [|done].
    apply list_elem_of_fmap. by exists (rid, oid). }
  split; try apply Hq.
  - cbn [p' seated_state free_slots running num_slots]. rewrite <- (q_slots _ Hq), Hs.
    assert (E : omap (slot_of p') (running p ++ [oid]) = omap (slot_of p) (running p) ++ [s]).
    { rewrite omap_app. f_equal.
      - apply list_omap_ext, Forall2_same_length_lookup_2; [done|]. intros k x y Hx Hy.
        assert (x = y) as -> by congruence. unfold slot_of.
        rewrite Hheap; [done|]. apply Hnrun. by eapply list_elem_of_lookup_2.
      - cbn. unfold slot_of. by rewrite Hself. }
    rewrite E, app_assoc, <- Permutation_cons_append. done.
  - intros o [Ho| ->%list_elem_of_singleton]%elem_of_app.
    + rewrite Hheap by (by apply Hnrun). by apply (q_running _ Hq).
    + exists r'. split_and!; [done|done|by eexists].
  - intros k o [Hne Ho]%list_elem_of_filter. rewrite Hheap; [by apply (q_waiting _ Hq)|].
    intros ->. cbn in Hne. apply Hne. destruct (q_waiting _ Hq _ _ Ho) as (r1 & H1 & <- & _).
    destruct (q_waiting _ Hq _ _ Hin) as (r2 & H2 & <- & _). congruence.
  - rewrite Hlive. apply (q_live _ Hq).
  - intros k o. rewrite Hlive. change (requests p') with (requests p). rewrite (q_requests _ Hq).
    destruct (decide (o = oid)) as [->|Hne]; [|by rewrite Hheap].
    rewrite Hself, Hr. split; intros [? (r0 & [= <-] & ?)]; (split; [done|]); by eexists.
  - cbn. rewrite length_app. cbn. lia.
  - intros o r0 Ho Hr0. rewrite Hlive in Ho. destruct (decide (o = oid)) as [->|Hne].
    + rewrite Hself in Hr0. injection Hr0 as <-. by apply (q_tokens _ Hq oid r).
    + rewrite Hheap in Hr0 by done. by apply (q_tokens _ Hq o).
  - intros e He. cbn. apply elem_of_app. left. by apply (q_pending _ Hq).
Qed.

Lemma seated_wf p rid oid r s slots c :
  queues p → (rid, oid) ∈ waiting p → heap p !! oid = Some r → free_slots p = s :: slots →
  length (running p) < max_num_seqs p →
  Client.cache_ok digest c (roster p) (λ k, runner p k ∨ k = rid) →
  wf (seated_state p rid oid r s slots c).
Proof.
  intros Hq Hin Hr Hs Hroom Hc. split; [by apply seated_queues|].
  destruct (q_waiting _ Hq rid oid Hin) as (r0 & Hr0 & Hid & _).
  assert (r0 = r) as -> by congruence.
  eapply Client.cache_ok_weaken; [| |exact Hc].
  - intros k tk Hk. exists tk. split; [|done]. rewrite <- Hk. unfold roster. cbn.
    destruct (requests p !! k) as [o|]; [|done]. cbn. destruct (decide (o = oid)) as [->|Hne].
    + by rewrite lookup_insert_eq, Hr.
    + by rewrite lookup_insert_ne.
  - intros k [(o & r1 & Ho & Hr1 & Hk)| ->].
    + exists o, r1. cbn. split_and!; [apply elem_of_app; by left| |done].
      rewrite lookup_insert_ne; [done|]. intros ->. apply (live_disjoint p o Hq); [|done].
      apply list_elem_of_fmap. by exists (rid, o).
    + exists oid. eexists. cbn. rewrite lookup_insert_eq. split_and!; [|done|done].
      apply elem_of_app. right. by left.
Qed.

Lemma planned_seat p0 w p rid oid r s slots c :
  queues p → (rid, oid) ∈ waiting p → heap p !! oid = Some r →
  Client.rows_grow (prefix_cache p) c →
  planned p0 w p → planned p0 w (seated_state p rid oid r s slots c).
Proof.
  intros Hq Hin Hr Hg [H1 H2 H3 H4 H5 H6 H7 H8 H9 H10].
  assert (Hne : ∀ o, o ∈ running p → oid ≠ o).
  { intros o Ho <-. apply (live_disjoint p oid Hq); [|done]. apply list_elem_of_fmap. by exists (rid, oid). }
  pose proof (waiting_live _ _ _ Hin) as Hl.
  split; cbn [seated_state heap running requests config prefix_cache]; try done.
  - apply Forall2_same_length_lookup_2; [by eapply Forall2_length|]. intros k o ch Ho Hc0.
    destruct (Forall2_lookup_lr _ _ _ _ _ _ H1 Ho Hc0) as (ro & Hro & Hc). exists ro.
    rewrite lookup_insert_ne; [done|]. apply Hne, H3. by eapply list_elem_of_lookup_2.
  - intros o Ho. destruct (H3 o Ho) as (Hrun & ro & Hro & Hc). split; [apply elem_of_app; by left|].
    exists ro. rewrite lookup_insert_ne by (by apply Hne). split; [done|].
    unfold Client.covers in *. etrans; [exact Hc|apply Hg].
  - intros o. rewrite <- H6. destruct (decide (o = oid)) as [->|Hn]; [|by rewrite lookup_insert_ne].
    by rewrite lookup_insert_eq, Hr.
  - intros o. rewrite <- H7. by rewrite (seated_live p rid oid r s slots c Hq Hin).
  - intros o Ho. rewrite lookup_insert_ne; [by apply H8|]. intros <-. by apply Ho, H7.
  - intros o r' Hrun Ho Hr' Hpd. destruct (decide (o = oid)) as [->|Hn].
    + exfalso. rewrite lookup_insert_eq in Hr'. injection Hr' as <-.
      destruct (q_waiting _ Hq _ _ Hin) as (r0 & Hr0 & _ & _ & _ & _ & Hn).
      destruct (q_tokens _ Hq oid r Hl Hr) as (_ & H11 & _).
      unfold Req.prefill_done in Hpd. apply bool_decide_eq_true in Hpd.
      change (Req.prompt_len r ≤ Req.num_computed_tokens r) in Hpd.
      assert (r0 = r) as -> by congruence. lia.
    + rewrite lookup_insert_ne in Hr' by done. apply elem_of_app in Hrun as [Hrun|Hrun].
      * by apply (H9 o r').
      * by apply list_elem_of_singleton in Hrun.
  - intros o Ho. rewrite <- (H10 o Ho). destruct (decide (o = oid)) as [->|Hn]; [|by rewrite lookup_insert_ne].
    by rewrite lookup_insert_eq, Hr.
Qed.

Lemma seat_state p rid oid r s slots c :
  heap p !! oid = Some r → free_slots p = s :: slots →
  seat oid (set_waiting (od_pop rid (waiting p)) (set_prefix_cache c p)) =
    Ok (seated_state p rid oid r s slots c).
Proof.
  intros Hr Hs. unfold seat. cbn [free_slots set_waiting set_prefix_cache]. rewrite Hs. cbv zeta.
  apply f_equal. apply planner_ext; try reflexivity. cbn. apply map_eq. intros o.
  destruct (decide (o = oid)) as [->|Hne].
  - by rewrite lookup_alter_eq, Hr, lookup_insert_eq.
  - by rewrite lookup_alter_ne, lookup_insert_ne.
Qed.

(** The candidate is granted its blocks: it takes a seat and its first chunk. *)
Lemma admit_candidate_Ok p0 w p rid oid r c m chunk :
  wf p → planned p0 w p → (rid, oid) ∈ waiting p → heap p !! oid = Some r → free_slots p ≠ [] →
  length (running p) < max_num_seqs p → Cache.num_tokens m < Req.prompt_len r →
  chunk = chunk_of r (Some (Cache.num_tokens m)) (config p) →
  Client.cache_ok digest c (roster p) (λ k, runner p k ∨ k = rid) →
  Client.rows_grow (prefix_cache p) c → Client.covers c rid (Cache.num_tokens m + chunk) →
  ∃ p', admit_candidate oid chunk m w (set_prefix_cache c p) =
      Ok (MkWork (w_prefill w ++ [oid]) (w_chunks w ++ [chunk]) (w_preempted w), p') ∧
    wf p' ∧ planned p0 (MkWork (w_prefill w ++ [oid]) (w_chunks w ++ [chunk]) (w_preempted w)) p' ∧
    same_limits p p' ∧ waiting p' = od_pop rid (waiting p).
Proof.
  intros Hwf Hpl Hin Hr Hs Hroom Hm -> Hc Hg Hcov.
  pose proof (wf_queues _ _ Hwf) as Hq.
  destruct (free_slots p) as [|s slots] eqn:Es; [done|].
  pose proof (seated_wf p rid oid r s slots c Hq Hin Hr Es Hroom Hc) as Hwf1.
  pose proof (planned_seat p0 w p rid oid r s slots c Hq Hin Hr Hg Hpl) as Hpl1.
  set (p1 := seated_state p rid oid r s slots c) in *.
  assert (Hout : oid ∉ w_prefill w).
  { intros Ho. destruct (pl_covered _ _ _ Hpl oid Ho) as [Ho' _].
    apply (live_disjoint p oid Hq); [|done]. apply list_elem_of_fmap. by exists (rid, oid). }
  destruct (q_waiting _ Hq rid oid Hin) as (r0 & Hr0 & Hid & _).
  assert (r0 = r) as -> by congruence.
  destruct (chunk_bounds p r (Some (Cache.num_tokens m)) (q_config _ Hq) Hm) as (Hc1 & Hc2 & Hc3).
  cbn [default] in Hc2. unfold id in Hc2. set (chunk := chunk_of _ _ _) in *.
  set (r1 := Req.set_status Req.RUNNING (Req.set_slot (Some s) r)).
  assert (Hr1 : heap p1 !! oid = Some r1) by apply lookup_insert_eq.
  assert (Hin1 : oid ∈ running p1) by (apply elem_of_app; right; by left).
  set (f := λ r, Req.set_num_computed_tokens (Cache.num_tokens m + chunk)
    (Req.set_num_cached_tokens (Cache.num_tokens m) r)).
  destruct (grant_Ok digest oid r1 (Cache.num_tokens m + chunk) f p1 Hwf1 Hin1 Hr1)
    as (p2 & E2 & Hwf3 & Hg3 & r3 & Hr3 & Hid3 & Hn3);
    [change (Req.prompt_len r1) with (Req.prompt_len r); lia|done|cbn; by rewrite Hid|].
  exists (track_pending oid (Cache.num_tokens m + chunk) p2). split_and!; [|done| | |].
  - unfold admit_candidate. rewrite (get_Ok _ _ r) by done. cbn [mbind result_bind].
    change (waiting (set_prefix_cache c p)) with (waiting p). rewrite Hid.
    rewrite (seat_state p rid oid r s slots c Hr Es). cbn [mbind result_bind]. cbv zeta.
    fold f p1. by rewrite E2.
  - apply (planned_grant p0 oid r1 f (Cache.num_tokens m + chunk) chunk w p1 _ Hpl1 Hout Hin1 Hr1);
      [done|done| |lia|done]. cbn. by rewrite Hid.
  - apply (f_config _ _ (proj1 Hg3)).
  - by rewrite (f_waiting _ _ (proj1 Hg3)).
Qed.

(** The width of the padded prefill batch. *)
Definition longest_of w : nat := foldr Nat.max 0 (w_chunks w).
Definition padded w : nat := longest_of w * length (w_prefill w).

Lemma foldr_max_snoc l n : foldr Nat.max 0 (l ++ [n]) = Nat.max (foldr Nat.max 0 l) n.
Proof. induction l as [|x l IH]; cbn; [lia|rewrite IH; lia]. Qed.

(** What admission turns make of the work and the state: [new] was admitted,
    within the token budget. *)
Record admitted p0 (new : list nat) w p w' p' : Prop := {
  a_wf : wf p';
  a_planned : planned p0 w' p';
  a_limits : same_limits p p';
  a_prefill : w_prefill w' = w_prefill w ++ new;
  a_budget : enable_chunked_prefill (config p) = true →
    padded w' ≤ Nat.max (max_num_batched_tokens (config p)) (padded w);
}.

Lemma admitted_nothing p0 w p w' p' :
  wf p' → planned p0 w' p' → same_limits p p' → w_prefill w' = w_prefill w → w_chunks w' = w_chunks w →
  admitted p0 [] w p w' p'.
Proof.
  intros Hwf Hpl Hl E1 E2. split; try done.
  - by rewrite app_nil_r.
  - intros _. unfold padded, longest_of. rewrite E1, E2. lia.
Qed.

Lemma chunk_of_ext r r' n (c : SchedulerConfig) :
  Req.prompt_len r' = Req.prompt_len r → chunk_of r' (Some n) c = chunk_of r (Some n) c.
Proof. intros E. unfold chunk_of. by rewrite E. Qed.

Lemma budget_grant w r m (c : SchedulerConfig) :
  length (w_chunks w) = length (w_prefill w) → enable_chunked_prefill c = true →
  let chunk := chunk_of r (Some m) c in
  ¬ (w_prefill w ≠ [] ∧ max_num_batched_tokens c <
     Nat.max (longest_of w) (chunk_of r (Some 0) c) * (length (w_prefill w) + 1)) →
  Nat.max (longest_of w) chunk * S (length (w_prefill w)) ≤ max_num_batched_tokens c.
Proof.
  intros Hlen He. cbv zeta. unfold chunk_of. rewrite He. cbn [default]. unfold id.
  intros Hb. destruct (w_prefill w) as [|o l] eqn:E.
  - unfold longest_of. destruct (w_chunks w); [|done]. cbn. lia.
  - assert (¬ max_num_batched_tokens c < Nat.max (longest_of w)
      (Nat.min (Nat.min (Req.prompt_len r - 0) (max_chunk_size c)) (max_num_batched_tokens c)) *
      (length (o :: l) + 1)) as Hn by naive_solver.
    etrans; [|apply Nat.nlt_ge, Hn]. rewrite Nat.add_1_r. apply Nat.mul_le_mono_r. lia.
Qed.

(** The refused branch of a turn. *)
Lemma admit_refused p0 w p rid oid r c (longest : nat) :
  wf p → planned p0 w p → (rid, oid) ∈ waiting p → heap p !! oid = Some r →
  Client.cache_ok digest c (roster p) (runner p) → Client.rows_grow (prefix_cache p) c →
  ∃ vs p',
    (p ← free_blocks rid (set_prefix_cache c p);
     '(victim, p) ← maybe_preempt (w_prefill w) p;
     Ok (false, longest,
         MkWork (w_prefill w) (w_chunks w) (w_preempted w ++ option_list victim), p)) =
      Ok (false, longest, MkWork (w_prefill w) (w_chunks w) (w_preempted w ++ vs), p') ∧
    wf p' ∧ planned p0 (MkWork (w_prefill w) (w_chunks w) (w_preempted w ++ vs)) p' ∧ same_limits p p'.
Proof.
  intros Hwf Hpl Hin Hr Hc Hg. pose proof (wf_queues _ _ Hwf) as Hq.
  assert (Hnr : ¬ runner p rid).
  { intros (o & r' & Ho & Hr' & Hid). apply (running_key_fresh p o r' Hq Ho Hr').
    rewrite Hid. apply list_elem_of_fmap. by exists (rid, oid). }
  destruct (Client.free_Ok digest c _ _ rid (roster p) (runner p) Hc)
    as (c' & E & Hc' & Hrows & _); [done|done|].
  unfold free_blocks. cbn [prefix_cache set_prefix_cache]. rewrite E. cbn [mbind result_bind].
  set (p1 := set_prefix_cache c' (set_prefix_cache c p)).
  assert (Hf1 : frame p p1) by (etrans; apply cache_frame).
  assert (Hwf1 : wf p1) by (by apply (frame_wf digest p)).
  assert (He1 : evicts [] p p1).
  { assert (He0 : evicts [] p (set_prefix_cache c p)) by (apply evicts_refl; split; [apply cache_frame|done]).
    destruct He0. split; try done. intros o ro Ho Hro. change (prefix_cache p1) with c'. rewrite Hrows; [apply Hg|].
    intros Hid. apply Hnr. by exists o, ro. }
  destruct (maybe_preempt_Ok digest (w_prefill w) p1 Hwf1) as (v & p2 & -> & Hwf2 & _ & He & Hv).
  cbn [mbind result_bind]. exists (option_list v), p2. split_and!; [done|done| |].
  - apply (planned_evicts ([] ++ option_list v) p0 w p); [by eapply evicts_trans| |done].
    destruct v as [v|]; [|by intros o ?%not_elem_of_nil].
    intros o ->%list_elem_of_singleton. by apply Hv.
  - etrans; [apply (e_config _ _ _ He1)|apply (e_config _ _ _ He)].
Qed.

(** The allocation of a turn, on a state that has room. *)
Lemma admit_grant p0 w p rid oid r m before :
  before = longest_of w →
  wf p → planned p0 w p → (rid, oid) ∈ waiting p → heap p !! oid = Some r → free_slots p ≠ [] →
  length (running p) < max_num_seqs p → Cache.num_tokens m < Req.prompt_len r →
  Coord.adoptable (Cache.coordinator (prefix_cache p)) rid (Cache.adopted_blocks (Some m)) →
  (enable_chunked_prefill (config p) = true →
    Nat.max (longest_of w) (chunk_of r (Some (Cache.num_tokens m)) (config p)) *
      S (length (w_prefill w)) ≤ max_num_batched_tokens (config p)) →
  let chunk := chunk_of r (Some (Cache.num_tokens m)) (config p) in
  ∃ go longest new w' p',
    ('(ok, p) ← alloc rid (Cache.num_tokens m + chunk) (Some m) p;
     if negb ok then
       p ← free_blocks rid p;
       '(victim, p) ← maybe_preempt (w_prefill w) p;
       Ok (false, before,
           MkWork (w_prefill w) (w_chunks w) (w_preempted w ++ option_list victim), p)
     else
       '(w, p) ← admit_candidate oid chunk m w p;
       Ok (bool_decide (w_preempted w = []), Nat.max before chunk, w, p)) =
      Ok (go, longest, w', p') ∧
    admitted p0 new w p w' p' ∧ (new = [] ∨ new = [oid]) ∧
    (go = true → new = [oid] ∧ longest = longest_of w' ∧ w_preempted w = [] ∧
      waiting p' = od_pop rid (waiting p)).
Proof.
  intros -> Hwf Hpl Hin Hr Hs Hroom Hm Had Hbud. cbv zeta. set (chunk := chunk_of _ _ _) in *.
  destruct (Client.alloc_Ok digest _ _ _ rid (Cache.num_tokens m + chunk) (Some m)
    (wf_cache _ _ Hwf) Had) as (b & c & E & Hg & _ & Hb).
  unfold alloc. rewrite E. cbn [mbind result_bind]. destruct b; cbn [negb].
  - destruct Hb as [Hcov Hc].
    destruct (admit_candidate_Ok p0 w p rid oid r c m chunk Hwf Hpl Hin Hr Hs Hroom Hm eq_refl Hc Hg Hcov)
      as (p' & E' & Hwf' & Hpl' & Hl' & Hw').
    rewrite E'. cbn [mbind result_bind]. eexists _, _, [oid], _, _. split; [reflexivity|].
    split_and!; [|by right|].
    + split; try done. intros He. unfold padded, longest_of. cbn [w_chunks w_prefill].
      rewrite foldr_max_snoc, length_app. cbn [length]. rewrite Nat.add_1_r.
      specialize (Hbud He). unfold longest_of in Hbud. lia.
    + intros Hgo. cbn in Hgo. apply bool_decide_eq_true in Hgo. split_and!; [done| |done|done].
      unfold longest_of. cbn [w_chunks]. by rewrite foldr_max_snoc.
  - destruct Hb as [Hc _].
    destruct (admit_refused p0 w p rid oid r c (longest_of w) Hwf Hpl Hin Hr Hc Hg)
      as (vs & p' & E' & ? & ? & ?).
    rewrite E'. eexists _, _, [], _, _. split; [reflexivity|]. split_and!; [|by left|done].
    by apply admitted_nothing.
Qed.

Lemma admit_one_Ok p0 w p rid oid rest :
  wf p → planned p0 w p → waiting p = (rid, oid) :: rest →
  ∃ go longest new w' p',
    admit_one digest rid oid (longest_of w) w p = Ok (go, longest, w', p') ∧
    admitted p0 new w p w' p' ∧ (new = [] ∨ new = [oid]) ∧
    (go = true → new = [oid] ∧ longest = longest_of w' ∧ waiting p' = rest).
Proof.
  intros Hwf Hpl Hw. assert (Hin : (rid, oid) ∈ waiting p) by (rewrite Hw; left).
  destruct (q_waiting _ (wf_queues _ _ Hwf) rid oid Hin) as (r & Hr & Hid & _).
  destruct (probe_Ok p rid oid r Hwf Hin Hr) as (hs & m & c1 & c2 & E1 & E2 & Hwf1 & Hg1 & Hm & Had).
  set (p1 := set_prefix_cache c2 p) in *.
  pose proof (planned_grows p0 w p p1 Hg1 Hpl) as Hpl1.
  assert (Hstop : ∃ go longest new w' p', Ok (false, longest_of w, w, p1) = Ok (go, longest, w', p') ∧
    admitted p0 new w p w' p' ∧ (new = [] ∨ new = [oid]) ∧
    (go = true → new = [oid] ∧ longest = longest_of w' ∧ waiting p' = rest)).
  { eexists _, _, [], _, _. split; [reflexivity|]. split_and!; [|by left|done].
    by apply admitted_nothing. }
  unfold admit_one. rewrite (get_Ok _ _ _ Hr). cbn [mbind result_bind].
  rewrite E1. cbn [mbind result_bind]. rewrite E2. cbn [mbind result_bind]. cbv zeta. fold p1.
  change (offloading p1) with (offloading p).
  rewrite (proj1 (q_plain _ (wf_queues _ _ Hwf))). cbn [mbind result_bind].
  unfold try_start_promotion. change (offloading p1) with (offloading p).
  rewrite (proj1 (q_plain _ (wf_queues _ _ Hwf))). cbn [mbind result_bind].
  case_decide as Hfull; [exact Hstop|]. apply Nat.nle_gt in Hfull.
  case_decide as Hprice; [exact Hstop|].
  destruct (make_room_Ok w p1 Hwf1) as (stuck & vs & p2 & E3 & Hwf2 & He & Hd & Hsame & Hroom).
  rewrite E3. cbn [mbind result_bind].
  pose proof (planned_evicts vs p0 w p1 p2 He (λ v Hv, proj1 (Hd v Hv)) Hpl1) as Hpl2.
  assert (Hlim : same_limits p p2) by exact (e_config _ _ _ He).
  destruct stuck.
  { eexists _, _, [], _, _. split; [reflexivity|]. split_and!; [|by left|done].
    by apply admitted_nothing. }
  set (w2 := MkWork _ _ _) in *.
  destruct (e_more _ _ _ He) as (front & Hfront & Hlf).
  assert (Hin2 : (rid, oid) ∈ waiting p2) by (rewrite Hfront; apply elem_of_app; by right).
  assert (Hnv : oid ∉ vs).
  { intros Hv. destruct (Hd oid Hv) as [_ Hrun].
    apply (live_disjoint p oid (wf_queues _ _ Hwf)); [|done].
    apply list_elem_of_fmap. by exists (rid, oid). }
  destruct (evicts_request _ p1 p2 oid r He Hnv Hr) as (r2 & Hr2 & Hcore).
  assert (Hlen : Req.prompt_len r2 = Req.prompt_len r)
    by (unfold core, Req.prompt_len in *; congruence).
  assert (Hrun2 : length (running p2) < max_num_seqs p2).
  { destruct Hlim as (_ & _ & ->). rewrite (e_running _ _ _ He).
    eapply Nat.le_lt_trans; [apply length_filter|exact Hfull]. }
  pose proof (Coord.adoptable_config _ _ rid _ Hsame (waiting_holds_nothing p2 rid oid Hwf2 Hin2) Had)
    as Had2.
  rewrite (proj1 Hlim), <- (chunk_of_ext r r2 (Cache.num_tokens m)) by done.
  destruct (admit_grant p0 w2 p2 rid oid r2 m (longest_of w) eq_refl Hwf2 Hpl2 Hin2 Hr2 (Hroom eq_refl) Hrun2)
    as (go & longest & new & w' & p' & E & [A1 A2 A3 A4 A5] & Hnew & Hgo); [lia|done| |].
  { rewrite (proj1 Hlim), (chunk_of_ext r r2) by done. intros Hch.
    apply (budget_grant w r (Cache.num_tokens m) (config p)); [|done|done]. apply (pl_len _ _ _ Hpl). }
  rewrite (proj1 Hlim) in E, A5. exists go, longest, new, w', p'. split_and!; [exact E| |done|].
  - split; try done. by etrans.
  - intros Hg. destruct (Hgo Hg) as (? & ? & Hv & Hw'). split_and!; [done|done|].
    rewrite Hw', Hfront. cbn in Hv. apply app_eq_nil in Hv as [_ ->].
    destruct front; [|done]. change (waiting p1) with (waiting p). rewrite Hw. cbn [app].
    apply od_pop_head. pose proof (waiting_keys_nodup p (wf_queues _ _ Hwf)) as Hn.
    rewrite Hw, fmap_cons in Hn. by apply NoDup_cons in Hn as [? _].
Qed.

Lemma admitted_trans p0 new1 new2 w1 p1 w2 p2 w3 p3 :
  admitted p0 new1 w1 p1 w2 p2 → admitted p0 new2 w2 p2 w3 p3 →
  admitted p0 (new1 ++ new2) w1 p1 w3 p3.
Proof.
  intros [A1 A2 A3 A4 A5] [B1 B2 B3 B4 B5]. split; [done|done|by etrans| |].
  - by rewrite B4, A4, app_assoc.
  - intros He. rewrite (proj1 A3) in B5. specialize (A5 He). specialize (B5 He). lia.
Qed.

Lemma admit_loop_Ok p0 fuel : ∀ w p,
  wf p → planned p0 w p → length (waiting p) ≤ fuel →
  ∃ k w' p', admit_loop digest fuel (longest_of w) w p = Ok (w', p') ∧
    admitted p0 (take k (waiting p).*2) w p w' p'.
Proof.
  induction fuel as [|fuel IH]; intros w p Hwf Hpl Hlen; cbn [admit_loop].
  all: destruct (waiting p) as [|[rid oid] rest] eqn:Hw;
    [exists 0, w, p; split; [done|by apply admitted_nothing]|].
  { cbn in Hlen. lia. }
  destruct (admit_one_Ok p0 w p rid oid rest Hwf Hpl Hw) as (go & longest & new & w1 & p1 & -> & Had & Hnew & Hgo).
  cbn [mbind result_bind]. destruct go.
  - destruct (Hgo eq_refl) as (-> & -> & Hw1). pose proof Had as [Hwf1 Hpl1 _ _ _].
    destruct (IH w1 p1 Hwf1 Hpl1) as (k & w2 & p2 & -> & Had2); [rewrite Hw1; cbn in Hlen; lia|].
    exists (S k), w2, p2. split; [done|]. rewrite fmap_cons. cbn [take snd].
    rewrite Hw1 in Had2. by apply (admitted_trans p0 [oid] _ w p w1 p1).
  - exists (length new), w1, p1. split; [done|].
    destruct Hnew as [-> | ->]; exact Had.
Qed.

Lemma select_Ok P l p :
  (∀ o, o ∈ l → is_Some (heap p !! o)) →
  select P l p = Ok (filter (λ o, from_option P false (heap p !! o) = true) l).
Proof.
  induction l as [|o l IH]; intros Hl; [done|]. cbn [select].
  destruct (Hl o) as [r Hr]; [left|]. rewrite (get_Ok _ _ _ Hr). cbn [mbind result_bind].
  rewrite IH by (intros; apply Hl; by right). cbn [mbind result_bind].
  rewrite filter_cons, Hr. cbn [from_option]. by destruct (P r).
Qed.

Lemma running_heap p o : queues p → o ∈ running p → is_Some (heap p !! o).
Proof. intros Hq Ho. destruct (q_running _ Hq o Ho) as (r & ? & _). by exists r. Qed.

Lemma defer_admission_Ok l p : queues p → ∃ b, defer_admission l p = Ok b.
Proof.
  intros Hq. unfold defer_admission. cbv zeta. case_decide; [by eexists|].
  case_decide; [by eexists|]. generalize false.
  pose proof (λ o, running_heap p o Hq) as Hl. revert Hl. generalize (running p) as ls.
  induction ls as [|o ls IH]; intros Hl b; [by eexists|]. cbn.
  destruct (Hl o) as [r Hr]; [left|]. rewrite (get_Ok _ _ _ Hr). cbn.
  apply IH. intros. apply Hl. by right.
Qed.

Lemma deferred_frame n p : frame p (set_deferred_steps n p).
Proof. split; try done. by left. Qed.

Lemma admit_Ok p0 w p :
  wf p → planned p0 w p →
  ∃ k w' p', _admit digest w p = Ok (w', p') ∧ admitted p0 (take k (waiting p).*2) w p w' p'.
Proof.
  intros Hwf Hpl. unfold _admit.
  destruct (defer_admission_Ok (w_prefill w) p (wf_queues _ _ Hwf)) as [b ->].
  cbn [mbind result_bind].
  assert (Hstep : ∀ n, wf (set_deferred_steps n p) ∧ planned p0 w (set_deferred_steps n p)).
  { intros n. split; [apply (frame_wf digest p); [apply deferred_frame|done|apply Hwf]|].
    apply (planned_grows p0 w p); [split; [apply deferred_frame|by intros k]|done]. }
  destruct b.
  - exists 0, w. eexists. split; [done|]. destruct (Hstep (S (deferred_steps p))).
    by apply admitted_nothing.
  - destruct (Hstep 0) as [Hwf1 Hpl1].
    destruct (admit_loop_Ok p0 (length (waiting p)) w _ Hwf1 Hpl1) as (k & w' & p' & E & Had); [done|].
    exists k, w', p'. split; [exact E|]. destruct Had. by split.
Qed.

(** ** Stage 3 *)

(** The row a decode step writes, counted from the front. *)
Definition reach_of (limit : nat) r : nat :=
  Nat.min (Z.to_nat (Z.of_nat (Req.seq_len r) + Req.pending_tokens r + 1)) limit.

(** The loop over the decode batch has handled [pre] and evicted [vs]. *)
Record growth w p0 (pre vs : list nat) (s : list nat * list nat * BatchPlanner T) : Prop := {
  g_granted : s.1.1 = w_prefill w ++ filter (λ o, o ∉ vs) pre;
  g_victims : s.1.2 = w_preempted w ++ vs;
  g_wf : wf s.2;
  g_evicts : evicts vs p0 s.2;
  g_out : ∀ v, v ∈ vs → v ∉ w_prefill w;
  g_cover : ∀ o r, o ∈ pre → o ∉ vs → heap p0 !! o = Some r →
    Client.covers (prefix_cache s.2) (Req.request_id r) (reach_of (max_seq_len (config p0)) r);
}.

Lemma evicted_waits vs p0 p o r :
  queues p → evicts vs p0 p → o ∈ vs → heap p !! o = Some r → Req.status r = Req.WAITING.
Proof.
  intros Hq He Ho Hr. pose proof (proj1 (Forall_forall _ _) (e_waiting _ _ _ He) o Ho) as Hw.
  apply list_elem_of_fmap in Hw as ([k v] & -> & Hw).
  destruct (q_waiting _ Hq _ _ Hw) as (r' & Hr' & _ & ? & _). cbn in Hr. congruence.
Qed.

Lemma filter_app_notin (vs vs' l : list nat) :
  (∀ v, v ∈ vs' → v ∉ filter (λ o, o ∉ vs) l) →
  filter (λ o, o ∉ vs ++ vs') l = filter (λ o, o ∉ vs) l.
Proof.
  intros Hd. induction l as [|x l IH]; [done|]. rewrite !filter_cons in *.
  destruct (decide (x ∉ vs)) as [Hx|Hx].
  - rewrite decide_True, IH; [done| |].
    + intros v Hv Hf. apply (Hd v Hv). by right.
    + apply not_elem_of_app. split; [done|]. intros Hv. apply (Hd x Hv). left.
  - rewrite decide_False; [by apply IH|]. intros [? _]%not_elem_of_app. done.
Qed.

(** Coverage survives evictions of others. *)
Lemma covers_evicts vs p p' o r n :
  evicts vs p p' → o ∈ running p' → heap p !! o = Some r →
  Client.covers (prefix_cache p) (Req.request_id r) n →
  Client.covers (prefix_cache p') (Req.request_id r) n.
Proof. unfold Client.covers. intros He Ho Hr Hc. etrans; [exact Hc|]. by apply (e_rows _ _ _ He o). Qed.

Lemma growth_step w p0 pre vs vs' s s' :
  (∀ o, o ∈ pre → o ∈ running p0) → growth w p0 pre vs s → wf s'.2 → evicts vs' s.2 s'.2 →
  s'.1.1 = s.1.1 → s'.1.2 = s.1.2 ++ vs' → (∀ v, v ∈ vs' → v ∉ s.1.1) →
  growth w p0 pre (vs ++ vs') s'.
Proof.
  intros Hpre [G1 G2 G3 G4 G5 G6] Hwf He E1 E2 Hd. pose proof (evicts_trans _ _ _ _ _ G4 He) as He'.
  rewrite G1 in Hd. split.
  - rewrite E1, G1. f_equal. symmetry. apply filter_app_notin. intros v Hv Hf.
    apply (Hd v Hv), elem_of_app. by right.
  - by rewrite E2, G2, app_assoc.
  - done.
  - done.
  - intros v [Hv|Hv]%elem_of_app; [by apply G5|]. intros Hf. apply (Hd v Hv), elem_of_app. by left.
  - intros o r Ho Hn Hr. pose proof (evicts_running _ _ _ _ He' Hn (Hpre o Ho)) as Hrun.
    apply not_elem_of_app in Hn as [Hn _].
    destruct (evicts_request _ _ _ _ _ G4 Hn Hr) as (r1 & Hr1 & Hc).
    assert (Hid : Req.request_id r1 = Req.request_id r) by (unfold core in Hc; congruence).
    rewrite <- Hid. apply (covers_evicts vs' s.2 s'.2 o r1 _ He Hrun Hr1). rewrite Hid.
    by apply (G6 o r).
Qed.

Lemma block_plan_wf p oid ws :
  wf p → wf (update oid (Req.set_block_plan ws) p) ∧ grows p (update oid (Req.set_block_plan ws) p).
Proof.
  intros Hwf. assert (Hf : frame p (update oid (Req.set_block_plan ws) p)) by (by apply update_frame).
  split; [apply (frame_wf digest p); [done|done|apply Hwf]|]. split; [done|by intros rid].
Qed.

(** The request the loop is at joins the handled ones. *)
Lemma growth_snoc w p0 pre vs granted victims p o :
  growth w p0 pre vs (granted, victims, p) →
  (o ∉ vs → ∀ r, heap p0 !! o = Some r →
    Client.covers (prefix_cache p) (Req.request_id r) (reach_of (max_seq_len (config p0)) r)) →
  growth w p0 (pre ++ [o]) vs ((if decide (o ∈ vs) then granted else granted ++ [o]), victims, p).
Proof.
  intros [G1 G2 G3 G4 G5 G6] Hc. cbn [fst snd] in *. split; cbn [fst snd]; try done.
  - rewrite filter_app, filter_cons, filter_nil. destruct (decide (o ∈ vs)) as [Hv|Hv].
    + rewrite decide_False by naive_solver. by rewrite app_nil_r.
    + rewrite decide_True by done. by rewrite G1, app_assoc.
  - intros x r [Hx| ->%list_elem_of_singleton]%elem_of_app Hn Hr; [by apply (G6 x r)|by apply Hc].
Qed.

Lemma track_pending_grows oid upto p : oid ∈ running p → grows p (track_pending oid upto p).
Proof. intros Ho. split; [by apply track_pending_frame|by intros rid]. Qed.

Lemma grow_one_Ok w p0 pre vs s o :
  growth w p0 pre vs s → (∀ x, x ∈ pre → x ∈ running p0) → o ∈ running p0 → o ∉ pre →
  o ∉ w_prefill w → ∃ vs' s', grow_one o s = Ok s' ∧ growth w p0 (pre ++ [o]) (vs ++ vs') s'.
Proof.
  intros Hg Hpre Ho Hnp Hnw. pose proof Hg as [G1 _ G3 G4 _ _].
  destruct s as [[granted victims] p]. cbn [fst snd] in *.
  unfold grow_one. destruct (decide (o ∈ vs)) as [Hv|Hv].
  { pose proof (proj1 (Forall_forall _ _) (e_waiting _ _ _ G4) o Hv) as Hw.
    apply list_elem_of_fmap in Hw as ([rid o'] & E & Hw). cbn in E. subst o'.
    destruct (q_waiting _ (wf_queues _ _ G3) _ _ Hw) as (r & Hr & _ & Hst & _).
    rewrite (get_Ok _ _ _ Hr). cbn [mbind result_bind]. rewrite decide_True by (rewrite Hst; done).
    exists []. rewrite app_nil_r. eexists. split; [done|].
    pose proof (growth_snoc w p0 pre vs granted victims p o Hg) as Hg'.
    rewrite decide_True in Hg' by done. by apply Hg'. }
  pose proof (evicts_running _ _ _ _ G4 Hv Ho) as Hin.
  destruct (q_running _ (wf_queues _ _ G3) o Hin) as (r & Hr & Hst & _).
  rewrite (get_Ok _ _ _ Hr). cbn [mbind result_bind]. rewrite decide_False by (rewrite Hst; tauto).
  cbv zeta. set (reach := Nat.min (Z.to_nat _) _).
  destruct (block_plan_wf p o [] G3) as [Hwf1 Hg1]. set (p1 := update o _ p) in *.
  assert (Hr1 : heap p1 !! o = Some (Req.set_block_plan [] r)).
  { unfold p1. rewrite (update_insert _ _ _ _ Hr). cbn. by rewrite lookup_insert_eq. }
  destruct (reserve_Ok digest o _ reach granted victims p1 Hwf1 Hin Hr1)
    as (ok & vs1 & p2 & E & Hwf2 & He2 & Hd2 & Hcov).
  rewrite E. cbn [mbind result_bind]. clear E.
  assert (He02 : evicts vs1 p p2) by (apply (evicts_trans [] vs1 p p1); [by apply evicts_refl|done]).
  assert (Hnv1 : o ∉ vs1) by (intros Hv1; by destruct (Hd2 o Hv1)).
  destruct (evicts_request _ _ _ _ _ He02 Hnv1 Hr) as (r2 & Hr2 & Hc2).
  pose proof (evicts_running _ _ _ _ He02 Hnv1 Hin) as Hin2. destruct ok.
  - destruct (map_blocks_Ok digest p2 o r2 Hwf2 Hr2) as (ws & c & -> & Hwf3 & Hg3 & _).
    cbn [mbind result_bind]. set (p3 := update o (Req.set_block_plan ws) (set_prefix_cache c p2)) in *.
    set (p4 := track_pending o (Nat.min (Req.seq_len r) (max_seq_len (config p))) p3).
    assert (Hf4 : frame p3 p4) by (by apply track_pending_frame).
    assert (Hg4 : grows p2 p4) by (etrans; [exact Hg3|]; by apply track_pending_grows).
    exists vs1. eexists. split; [reflexivity|].
    assert (Hgr : growth w p0 pre (vs ++ vs1) (granted, victims ++ vs1, p4)).
    { apply (growth_step w p0 pre vs vs1 (granted, victims, p)); try done; cbn [snd].
      - apply (frame_wf digest p3); [done|done|apply (wf_cache _ _ Hwf3)].
      - by apply (evicts_grows _ _ p2).
      - intros v Hv1. by apply Hd2. }
    apply growth_snoc with (o := o) in Hgr.
    + rewrite decide_False in Hgr; [done|]. rewrite elem_of_app. tauto.
    + intros _ r0 Hr0. destruct (evicts_request _ _ _ _ _ G4 Hv Hr0) as (r' & Hr' & Hc').
      assert (r' = r) as -> by congruence.
      assert (reach_of (max_seq_len (config p0)) r0 = reach ∧ Req.request_id r = Req.request_id r0) as [-> <-].
      { unfold reach, reach_of, Req.seq_len. unfold core in Hc'.
        rewrite (proj1 (e_config _ _ _ G4)). split; [f_equal|]; congruence. }
      specialize (Hcov eq_refl). unfold Client.covers in *. etrans; [exact Hcov|]. apply Hg4.
  - destruct (preempt_Ok digest p2 o r2 Hwf2 Hin2 Hr2) as (s & c & _ & -> & Hwf3 & _ & Hrows).
    cbn [mbind result_bind]. pose proof (preempted_evicts p2 o r2 s c (wf_queues _ _ Hwf2) Hin2 Hr2 Hrows) as He3.
    exists (vs1 ++ [o]). eexists. split; [reflexivity|].
    assert (Hgr : growth w p0 pre (vs ++ vs1 ++ [o]) (granted, victims ++ vs1 ++ [o], preempted_state p2 o r2 s c)).
    { apply (growth_step w p0 pre vs (vs1 ++ [o]) (granted, victims, p)); try done; cbn [fst snd].
      - by apply (evicts_trans vs1 [o] p p2).
      - intros v [Hv1| ->%list_elem_of_singleton]%elem_of_app; [by apply Hd2|].
        rewrite G1. intros [?|Hf]%elem_of_app; [done|]. apply list_elem_of_filter in Hf as [_ ?]. done. }
    apply growth_snoc with (o := o) in Hgr.
    + rewrite decide_True in Hgr; [by rewrite <- app_assoc|]. rewrite !elem_of_app. right. right. by left.
    + intros Hn. exfalso. apply Hn. rewrite !elem_of_app. right. right. by left.
Qed.

Lemma growth_loop w p0 D :
  NoDup D → (∀ x, x ∈ D → x ∈ running p0 ∧ x ∉ w_prefill w) → wf p0 →
  ∃ vs s, rfold grow_one D (w_prefill w, w_preempted w, p0) = Ok s ∧ growth w p0 D vs s.
Proof.
  intros Hnd HD Hwf.
  destruct (rfold_total (λ pre s, ∃ vs, growth w p0 pre vs s) grow_one D
    (w_prefill w, w_preempted w, p0)) as (s & E & vs & Hs).
  - intros pre o post s1 E [vs Hg]. rewrite E in Hnd, HD.
    apply NoDup_app in Hnd as (_ & Hd & _).
    destruct (grow_one_Ok w p0 pre vs s1 o Hg) as (vs' & s' & E' & Hg').
    + intros x Hx. apply HD, elem_of_app. by left.
    + apply HD, elem_of_app. right. left.
    + intros Ho. apply (Hd o Ho). left.
    + apply HD, elem_of_app. right. left.
    + exists s'. split; [done|by eexists].
  - exists []. split; cbn; rewrite ?app_nil_r; try done.
    + by apply evicts_refl.
    + intros v Hv. by apply not_elem_of_nil in Hv.
  - by exists vs, s.
Qed.

Lemma grow_decode_Ok w p0 D :
  NoDup D → (∀ x, x ∈ D → x ∈ running p0 ∧ x ∉ w_prefill w) → wf p0 →
  ∃ vs p', grow_decode D w p0 = Ok (filter (λ o, o ∉ vs) D, w_preempted w ++ vs, p') ∧
    wf p' ∧ evicts vs p0 p' ∧ (∀ v, v ∈ vs → v ∉ w_prefill w) ∧
    ∀ o r, o ∈ D → o ∉ vs → heap p0 !! o = Some r →
      Client.covers (prefix_cache p') (Req.request_id r) (reach_of (max_seq_len (config p0)) r).
Proof.
  intros Hnd HD Hwf. unfold grow_decode.
  destruct (growth_loop w p0 D Hnd HD Hwf) as (vs & [[g v] p'] & -> & Hg).
  destruct Hg as [G1 G2 G3 G4 G5 G6]. cbn [fst snd] in *. cbn [mbind result_bind]. subst v.
  exists vs, p'. split_and!; try done. case_decide as Hnil.
  - apply app_eq_nil in Hnil as [-> ->]. cbn [mbind result_bind].
    rewrite filter_all; [done|]. intros o _. apply not_elem_of_nil.
  - assert (Hk : ∀ o, o ∈ D → ∃ r, heap p' !! o = Some r ∧ (Req.status r = Req.RUNNING ↔ o ∉ vs)).
    { intros o Ho. destruct (decide (o ∈ vs)) as [Hv|Hv].
      - pose proof (proj1 (Forall_forall _ _) (e_waiting _ _ _ G4) o Hv) as Hw.
        apply list_elem_of_fmap in Hw as ([rid o'] & E & Hw). cbn in E. subst o'.
        destruct (q_waiting _ (wf_queues _ _ G3) _ _ Hw) as (r & Hr & _ & Hst & _).
        exists r. split; [done|]. rewrite Hst. naive_solver.
      - destruct (q_running _ (wf_queues _ _ G3) o) as (r & Hr & Hst & _);
          [by eapply evicts_running, HD|]. by exists r. }
    rewrite select_Ok.
    + cbn [mbind result_bind]. do 3 f_equal. apply filter_ext_in. intros o Ho.
      destruct (Hk o Ho) as (r & Hr & Hiff). rewrite Hr. cbn [from_option].
      by rewrite bool_decide_eq_true.
    + intros o Ho. destruct (Hk o Ho) as (r & Hr & _). by exists r.
Qed.

(** ** The whole step *)

(** What the executor may rely on: the two batches are disjoint, everything in
    them runs, and has the blocks for the rows the step writes. *)
Record plan_sound (out : StepPlan) p : Prop := {
  s_nodup : NoDup (prefill out ++ decode out);
  s_running : ∀ o, o ∈ prefill out ++ decode out → o ∈ running p;
  s_len : length (prefill_chunk_lens out) = length (prefill out);
  s_chunks : Forall (λ c, 1 ≤ c ∧ (enable_chunked_prefill (config p) = true →
    c ≤ max_chunk_size (config p) ∧ c ≤ max_num_batched_tokens (config p)))
    (prefill_chunk_lens out);
  s_prefill : ∀ o, o ∈ prefill out → ∃ r, heap p !! o = Some r ∧
    Client.covers (prefix_cache p) (Req.request_id r) (Req.num_computed_tokens r);
  s_decode : ∀ o, o ∈ decode out → ∃ r, heap p !! o = Some r ∧ Req.prefill_done r = true ∧
    Client.covers (prefix_cache p) (Req.request_id r) (reach_of (max_seq_len (config p)) r);
}.

Lemma core_reach limit r r' : core r' = core r → reach_of limit r' = reach_of limit r.
Proof.
  unfold core, reach_of, Req.seq_len. intros E.
  injection E as _ E2 E3 _ _ _ E7 _. by rewrite E2, E3, E7.
Qed.

(** The requests Stage 3 decodes, as the code selects them. *)
Lemma decode_batch p0 w p :
  queues p → planned p0 w p →
  ∃ D, (just_prefilled ← select Req.prefill_done (w_prefill w) p;
        prefilled ← select Req.prefill_done (running p) p;
        Ok (filter (λ oid, oid ∉ just_prefilled) prefilled)) = Ok D ∧
    NoDup D ∧ ∀ o, o ∈ D → o ∈ running p ∧ o ∉ w_prefill w ∧
      ∃ r, heap p !! o = Some r ∧ Req.prefill_done r = true.
Proof.
  intros Hq Hpl. rewrite !select_Ok; cbn [mbind result_bind].
  - eexists. split; [done|]. split; [by apply NoDup_filter, NoDup_filter, running_nodup|].
    intros o [Hn [Hd Ho]%list_elem_of_filter]%list_elem_of_filter.
    destruct (running_heap p o Hq Ho) as [r Hr]. rewrite Hr in Hd. cbn in Hd.
    split_and!; [done| |by exists r]. intros Hw. apply Hn. apply list_elem_of_filter.
    by rewrite Hr.
  - intros o Ho. by destruct (pl_covered _ _ _ Hpl o Ho) as (_ & r & Hr & _); exists r.
  - intros o. by apply running_heap.
Qed.

Lemma decode_stage p0 w p :
  wf p → planned p0 w p →
  ∃ out p', (just_prefilled ← select Req.prefill_done (w_prefill w) p;
     prefilled ← select Req.prefill_done (running p) p;
     let decode := filter (λ oid, oid ∉ just_prefilled) prefilled in
     '(decode, victims, p) ← grow_decode decode w p;
     Ok (MkPlan (w_prefill w) decode (w_chunks w) victims, p)) = Ok (out, p') ∧
    wf p' ∧ plan_sound out p' ∧ same_limits p p' ∧
    planned p0 (MkWork (prefill out) (prefill_chunk_lens out) (preempted out)) p'.
Proof.
  intros Hwf Hpl. destruct (decode_batch p0 w p (wf_queues _ _ Hwf) Hpl) as (D & ED & Hnd & HD).
  destruct (select _ (w_prefill w) p) as [jp|]; [|done]. cbn [mbind result_bind] in ED |- *.
  destruct (select _ (running p) p) as [pf|]; [|done]. cbn [mbind result_bind] in ED |- *.
  injection ED as ED. cbv zeta. rewrite ED.
  destruct (grow_decode_Ok w p D Hnd) as (vs & p' & E & Hwf' & He & Hd & Hc);
    [intros x Hx; by destruct (HD x Hx) as (? & ? & _)|done|].
  rewrite E. cbn [mbind result_bind]. eexists _, p'. split; [reflexivity|].
  pose proof (planned_evicts vs p0 w p p' He Hd Hpl) as Hpl'.
  split_and!; [done| |apply (e_config _ _ _ He)|exact Hpl'].
  assert (Hdec : ∀ o, o ∈ filter (λ o, o ∉ vs) D → o ∈ D ∧ o ∉ vs ∧ o ∈ running p').
  { intros o [Hv Ho]%list_elem_of_filter. split_and!; [done|done|].
    apply (evicts_running _ _ _ _ He Hv). by apply HD. }
  split; cbn [prefill decode prefill_chunk_lens].
  - apply NoDup_app. split_and!; [apply Hpl'| |by apply NoDup_filter].
    intros o Ho (HoD & _)%Hdec. by destruct (HD o HoD) as (_ & ? & _).
  - intros o [Ho|Ho]%elem_of_app; [by apply (pl_covered _ _ _ Hpl')|by apply Hdec].
  - apply (pl_len _ _ _ Hpl').
  - apply Hpl'.
  - intros o Ho. apply (pl_covered _ _ _ Hpl' o Ho).
  - intros o (HoD & Hv & _)%Hdec. destruct (HD o HoD) as (_ & _ & r & Hr & Hdone).
    destruct (evicts_request _ _ _ _ _ He Hv Hr) as (r' & Hr' & Hcore). exists r'.
    split_and!; [done|by rewrite (core_prefill_done _ _ Hcore)|].
    rewrite (core_reach _ _ _ Hcore), (proj1 (e_config _ _ _ He)).
    assert (Req.request_id r' = Req.request_id r) as -> by (unfold core in Hcore; congruence).
    by apply (Hc o r).
Qed.

Lemma planned_nothing p : planned p (MkWork [] [] []) p.
Proof.
  assert (Hn : ∀ (P : Prop) (o : nat), o ∈ [] → P) by (by intros P o ?%not_elem_of_nil).
  split; cbn; try done; [apply NoDup_nil_2|intros o; apply Hn|].
  intros o r Hin _ Hr _. by rewrite Hr.
Qed.

Lemma plan_Ok p :
  wf p → ∃ out p', plan digest p = Ok (out, p') ∧ wf p' ∧ plan_sound out p' ∧ same_limits p p' ∧
    planned p (MkWork (prefill out) (prefill_chunk_lens out) (preempted out)) p'.
Proof.
  intros Hwf. unfold plan, drain_offload_events. destruct (q_plain _ (wf_queues _ _ Hwf)) as (-> & _ & Hrdy & _).
  cbn [mbind result_bind]. unfold promote_ready. rewrite Hrdy. cbn [length promote_ready_loop].
  rewrite Hrdy. cbn [mbind result_bind].
  destruct (commit_pending_blocks_Ok digest digest_ok p Hwf) as (p1 & -> & Hwf1 & Hg1 & _).
  cbn [mbind result_bind].
  pose proof (planned_grows p _ p p1 Hg1 (planned_nothing p)) as Hpl1.
  destruct (resume_Ok p (length (running p1)) 0 (MkWork [] [] []) p1 Hwf1 Hpl1)
    as (w2 & p2 & -> & Hwf2 & Hpl2 & Hl2); [by intros o Ho%not_elem_of_nil|lia|].
  cbn [mbind result_bind].
  destruct (admit_Ok p w2 p2 Hwf2 Hpl2) as (k & w3 & p3 & -> & [Hwf3 Hpl3 Hl3 _ _]).
  cbn [mbind result_bind].
  destruct (decode_stage p w3 p3 Hwf3 Hpl3) as (out & p4 & E & ? & ? & Hl4 & ?).
  exists out, p4. split_and!; [exact E|done|done| |done].
  etrans; [apply (f_config _ _ (proj1 Hg1))|]. by do 2 (etrans; [eassumption|]).
Qed.
End Stages.
End Stages.
