(* ===== verification/PlannerSteps.v ===== *)
(** * The planner as a state machine

    The operations the engine drives the planner with, between two of its steps:
    submission, planning, emission of a token, speculative growth, retirement.
    Reachable planners are well formed, hence the theorems of this file. *)

From S2P Require Export PlannerStages.

Module Steps.
Import Planner Inv Stages.

Section Steps.
Context {T : Type} `{!Offload.OffloadingManager T}
  (digest : list Z → list Z) (digest_ok : Chain.digest_ok digest).
Implicit Types (p : BatchPlanner T) (r : Req.Request).
Notation wf := (Inv.wf digest).

(** ** Retirement *)

Definition retired (reason : string) r : Req.Request :=
  Req.set_slot None (Req.set_finish_reason (Some reason) (Req.set_status Req.FINISHED r)).

Definition retired_state p oid r (reason : string) (c : Cache.PrefixCache) : BatchPlanner T :=
  MkPlanner (config p) (num_slots p) (max_num_seqs p) (<[oid := retired reason r]> (heap p))
    (od_pop (Req.request_id r) (waiting p)) (filter (λ o, o ≠ oid) (running p))
    (delete (Req.request_id r) (requests p))
    (option_list (Req.slot r) ++ free_slots p) c
    (filter (λ e, e.1 ≠ oid) (pending_blocks p)) (num_preemptions p) (deferred_steps p)
    (offloading p) (pending_promotes p) (ready_promotes p) (dying_promotes p)
    (promotion_by_blocks p).

(** A live request is queued or running, not both. *)
Lemma live_cases p oid r :
  queues p → oid ∈ live p → heap p !! oid = Some r →
  (oid ∈ running p ∧ Req.request_id r ∉ (waiting p).*1 ∧ Req.status r = Req.RUNNING ∧
    is_Some (Req.slot r)) ∨
  (oid ∉ running p ∧ (Req.request_id r, oid) ∈ waiting p ∧ Req.status r = Req.WAITING ∧
    Req.slot r = None).
Proof.
  intros Hq Hl Hr. unfold live in Hl. apply elem_of_app in Hl as [Hw|Hw].
  - right. split; [intros Hrun; by apply (live_disjoint p oid Hq)|].
    apply list_elem_of_fmap in Hw as ([k o] & E & Hw). cbn in E. subst o.
    destruct (q_waiting _ Hq _ _ Hw) as (r' & Hr' & Hid & ? & ? & _).
    assert (r' = r) as -> by congruence. by subst k.
  - left. destruct (q_running _ Hq oid Hw) as (r' & Hr' & ? & ?).
    assert (r' = r) as -> by congruence. split_and!; [done| |done|done].
    by apply (running_key_fresh p oid r Hq).
Qed.

Lemma retired_live p oid r reason c :
  queues p → oid ∈ live p → heap p !! oid = Some r →
  oid :: live (retired_state p oid r reason c) ≡ₚ live p.
Proof.
  intros Hq Hl Hr. unfold live at 1. cbn [waiting running retired_state].
  destruct (live_cases p oid r Hq Hl Hr) as [(Hrun & Hk & _)|(Hrun & Hw & _)].
  - assert (od_pop (Req.request_id r) (waiting p) = waiting p) as ->
      by (by destruct (keys_filter_id _ _ Hk)).
    unfold live. rewrite <- (filter_ne_perm oid (running p)) at 2; [|by apply running_nodup|done].
    solve_Permutation.
  - rewrite (filter_all (λ o, o ≠ oid) (running p)) by (intros o Ho ->; done).
    pose proof (waiting_keys_nodup p Hq) as Hn. unfold live.
    apply list_elem_of_split in Hw as (l1 & l2 & E). rewrite E in Hn |- *.
    rewrite od_pop_middle by done. rewrite !fmap_app, fmap_cons. cbn [snd]. solve_Permutation.
Qed.

Lemma retired_queues p oid r reason c :
  queues p → oid ∈ live p → heap p !! oid = Some r → queues (retired_state p oid r reason c).
Proof.
  intros Hq Hl Hr. pose proof (retired_live p oid r reason c Hq Hl Hr) as Hlive.
  set (p' := retired_state p oid r reason c) in *.
  assert (Hnd : oid ∉ live p' ∧ NoDup (live p')).
  { pose proof (q_live _ Hq) as Hn. rewrite <- Hlive in Hn. by apply NoDup_cons in Hn. }
  assert (Hsub : ∀ o, o ∈ live p' → o ∈ live p ∧ o ≠ oid).
  { intros o Ho. rewrite <- Hlive. split; [by right|]. intros ->. by apply (proj1 Hnd). }
  assert (Hheap : ∀ o, o ≠ oid → heap p' !! o = heap p !! o).
  { intros o Hne. cbn. by rewrite lookup_insert_ne. }
  assert (Hrl : ∀ o, o ∈ running p' → o ∈ running p ∧ o ≠ oid).
  { intros o [? ?]%list_elem_of_filter. done. }
  split; try apply Hq.
  - cbn [p' retired_state free_slots running num_slots]. rewrite <- (q_slots _ Hq).
    rewrite (omap_slots_ext _ (slot_of p') (slot_of p)); [|intros o _ Hne; unfold slot_of; by rewrite Hheap].
    destruct (live_cases p oid r Hq Hl Hr) as [(Hrun & _ & _ & (s & Hs))|(Hrun & _ & _ & ->)].
    + rewrite <- (filter_ne_perm oid (running p)) at 2; [|by apply running_nodup|done].
      cbn [omap list_omap]. unfold slot_of at 2. rewrite Hr. cbn [mbind option_bind]. rewrite Hs.
      cbn. by rewrite <- Permutation_middle.
    + rewrite (filter_all (λ o, o ≠ oid) (running p)) by (intros o Ho ->; done). done.
  - intros o [Ho Hne]%Hrl. rewrite Hheap by done. by apply (q_running _ Hq).
  - intros k o Ho. pose proof (waiting_live p' k o Ho) as [_ Hne]%Hsub.
    apply list_elem_of_filter in Ho as [_ Ho]. rewrite Hheap by done. by apply (q_waiting _ Hq).
  - apply Hnd.
  - intros k o. cbn [p' retired_state requests]. rewrite lookup_delete_Some, (q_requests _ Hq). split.
    + intros (Hk & Ho & ro & Hro & Hid). assert (o ≠ oid) as Hne by (intros ->; congruence).
      split; [|exists ro; by rewrite Hheap].
      rewrite <- Hlive in Ho. by apply elem_of_cons in Ho as [?|?].
    + intros [Ho (ro & Hro & Hid)]. destruct (Hsub o Ho) as [Ho' Hne]. rewrite Hheap in Hro by done.
      split_and!; [|done|by exists ro]. intros <-. apply Hne. symmetry in Hid.
      by apply (request_id_inj p o oid ro r Hq).
  - etrans; [apply length_filter|apply (q_max _ Hq)].
  - intros o ro Ho. destruct (Hsub o Ho) as [Ho' Hne]. rewrite Hheap by done. by apply (q_tokens _ Hq).
  - intros e [Hne He]%list_elem_of_filter. apply list_elem_of_filter.
    split; [done|by apply (q_pending _ Hq)].
Qed.

(** Releasing the blocks of a retiring request. *)
Lemma retired_wf p oid r reason c0 :
  queues p → oid ∈ live p → heap p !! oid = Some r → Client.cache_ok digest c0 (roster p) (runner p) →
  ∃ c, Cache.free (Req.request_id r) c0 = Ok c ∧ wf (retired_state p oid r reason c).
Proof.
  intros Hq Hl Hr Hc0. set (p' := retired_state p oid r reason c0).
  assert (Hne : ∀ rid o ro, rid ≠ Req.request_id r → heap p !! o = Some ro →
    Req.request_id ro = rid → o ≠ oid) by (intros; intros ->; congruence).
  destruct (Client.free_Ok digest c0 (roster p) (runner p) (Req.request_id r) (roster p') (runner p') Hc0)
    as (c & E & Hc & _).
  - intros rid Hrid. unfold roster. cbn. rewrite lookup_delete_ne by done.
    destruct (requests p !! rid) as [o|] eqn:Eo; [|done]. cbn.
    apply (q_requests _ Hq) in Eo as (_ & ro & Hro & Hid). rewrite lookup_insert_ne; [done|].
    intros ->. congruence.
  - intros rid Hrid (o & ro & Ho & Hro & Hid). assert (o ≠ oid) as Hn by (intros ->; congruence).
    exists o, ro. cbn. rewrite lookup_insert_ne by done. split_and!; [|done|done].
    by apply list_elem_of_filter.
  - exists c. split; [done|]. split; [by apply retired_queues|exact Hc].
Qed.

Lemma settle_fold oid rf toks holder l : ∀ p,
  offloading p = None → Client.cache_ok digest (prefix_cache p) toks holder →
  heap p !! oid = Some rf →
  toks (Req.request_id rf) = Some (Req.prompt_token_ids rf ++ Req.output_token_ids rf) →
  Forall Chain.is_token (Req.prompt_token_ids rf ++ Req.output_token_ids rf) →
  ∃ c, rfold (λ e p, if decide (e.1 = oid) then commit digest oid e.2 p else Ok p) l p =
      Ok (set_prefix_cache c p) ∧ Client.cache_ok digest c toks holder.
Proof.
  induction l as [|e l IH]; intros p Hoff Hc Hr Htk Ht; cbn [rfold].
  { exists (prefix_cache p). split; [by destruct p|done]. }
  case_decide; [|by apply IH].
  destruct (commit_Ok digest digest_ok p oid rf e.2 toks holder Hoff Hc Hr Htk Ht) as (c1 & -> & Hc1 & _).
  cbn [mbind result_bind]. by destruct (IH (set_prefix_cache c1 p)) as (c & ? & ?); [..|exists c].
Qed.

Lemma map_insert_twice (m : gmap nat Req.Request) oid r f g :
  m !! oid = Some r → alter g oid (alter f oid m) = <[oid := g (f r)]> m.
Proof.
  intros Hr. apply map_eq. intros o. destruct (decide (o = oid)) as [->|Hne].
  - by rewrite !lookup_alter_eq, Hr, lookup_insert_eq.
  - by rewrite !lookup_alter_ne, lookup_insert_ne.
Qed.

Lemma alter_insert_once (m : gmap nat Req.Request) oid r f :
  m !! oid = Some r → alter f oid m = <[oid := f r]> m.
Proof.
  intros Hr. apply map_eq. intros o. destruct (decide (o = oid)) as [->|Hne].
  - by rewrite lookup_alter_eq, Hr, lookup_insert_eq.
  - by rewrite lookup_alter_ne, lookup_insert_ne.
Qed.

(** The tail of a retirement: no promotion to detach, and the blocks go. *)
Lemma retire_tail p p1 oid r r1 reason :
  queues p → oid ∈ live p → heap p !! oid = Some r →
  Client.cache_ok digest (prefix_cache p1) (roster p) (runner p) →
  heap p1 !! oid = Some r1 → Req.request_id r1 = Req.request_id r →
  pending_promotes p1 = ∅ → ready_promotes p1 = [] →
  retire_promotion oid p1 = Ok (false, p1) ∧
  ∃ c, free_blocks (Req.request_id r) p1 = Ok (set_prefix_cache c p1) ∧
    wf (retired_state p oid r reason c).
Proof.
  intros Hq Hl Hr Hc Hr1 Hid Hpp Hrp. split.
  - unfold retire_promotion. rewrite (get_Ok _ _ _ Hr1). cbn [mbind result_bind]. cbv zeta.
    rewrite Hpp, lookup_empty. apply f_equal, f_equal. apply planner_ext; try reflexivity.
    cbn. by rewrite Hrp.
  - destruct (retired_wf p oid r reason (prefix_cache p1) Hq Hl Hr Hc) as (c & E & Hwf').
    exists c. split; [|done]. unfold free_blocks. by rewrite E.
Qed.

Lemma waiting_retired_ext p oid r reason c :
  queues p → heap p !! oid = Some r → oid ∉ running p → Req.slot r = None →
  set_requests (delete (Req.request_id r) (requests p)) (set_prefix_cache c
    (set_waiting (od_pop (Req.request_id r) (waiting p))
      (update oid (λ r, Req.set_finish_reason (Some reason) (Req.set_status Req.FINISHED r)) p))) =
  retired_state p oid r reason c.
Proof.
  intros Hq Hr Hrun Hs. apply planner_ext; try reflexivity; cbn.
  - rewrite (alter_insert_once _ oid r) by done. f_equal. unfold retired.
    by destruct r; cbn in *; subst.
  - symmetry. apply filter_all. by intros o Ho ->.
  - by rewrite Hs.
  - symmetry. apply filter_all. intros e He E. apply Hrun. rewrite <- E. by apply (q_pending _ Hq).
Qed.

Lemma finish_Ok p oid r reason :
  wf p → oid ∈ live p → heap p !! oid = Some r →
  ∃ c, finish digest oid reason p = Ok (retired_state p oid r reason c) ∧
    wf (retired_state p oid r reason c).
Proof.
  intros Hwf Hl Hr. pose proof (wf_queues _ _ Hwf) as Hq.
  destruct (live_request _ _ _ Hq Hl Hr) as [Hreq Htk].
  destruct (q_tokens _ Hq _ _ Hl Hr) as (Ht & _ & _).
  destruct (q_plain _ Hq) as (Hoff & Hpp & Hrp & Hdp).
  unfold finish. rewrite (get_Ok _ _ _ Hr). cbn [mbind result_bind]. cbv zeta.
  destruct (live_cases p oid r Hq Hl Hr) as [(Hrun & Hk & Hst & (s & Hs))|(Hrun & Hw & Hst & Hs)].
  - rewrite decide_False by (rewrite Hst; done). rewrite bool_decide_eq_true_2 by done. rewrite Hs.
    set (p1 := set_running _ _).
    assert (Hr1 : heap p1 !! oid = Some (retired reason r)).
    { cbn. rewrite (map_insert_twice _ oid r) by done. by rewrite lookup_insert_eq. }
    unfold settle_pending_blocks.
    destruct (settle_fold oid (retired reason r) (roster p) (runner p) (pending_blocks p1) p1)
      as (c1 & -> & Hc1); [done|apply Hwf|done|done|done|]. cbn [mbind result_bind].
    set (p2 := set_pending_blocks _ (set_prefix_cache c1 p1)).
    destruct (retire_tail p p2 oid r (retired reason r) reason Hq Hl Hr Hc1 Hr1 eq_refl Hpp Hrp)
      as (-> & c & E & Hwf').
    cbn [mbind result_bind]. rewrite E. cbn [mbind result_bind]. exists c. split; [|done].
    change (requests (set_prefix_cache c p2)) with (requests p). rewrite decide_True by done.
    apply f_equal. apply planner_ext; try reflexivity; cbn.
    + by rewrite (map_insert_twice _ oid r).
    + by destruct (keys_filter_id _ _ Hk).
    + by apply discard_filter, running_nodup.
    + by rewrite Hs.
  - rewrite decide_False by (rewrite Hst; done). rewrite bool_decide_eq_false_2 by (rewrite Hst; done).
    rewrite Hs. cbn [mbind result_bind]. set (p1 := set_waiting _ _).
    assert (Hr1 : heap p1 !! oid = Some (retired reason r)).
    { cbn. rewrite (alter_insert_once _ oid r) by done. rewrite lookup_insert_eq.
      unfold retired. by destruct r; cbn in *; subst. }
    destruct (retire_tail p p1 oid r (retired reason r) reason Hq Hl Hr (wf_cache _ _ Hwf) Hr1 eq_refl Hpp Hrp)
      as (-> & c & E & Hwf').
    cbn [mbind result_bind]. rewrite E. cbn [mbind result_bind]. exists c. split; [|done].
    change (requests (set_prefix_cache c p1)) with (requests p). rewrite decide_True by done.
    apply f_equal. exact (waiting_retired_ext p oid r reason c Hq Hr Hrun Hs).
Qed.

Lemma finish_finished p oid r reason :
  heap p !! oid = Some r → Req.status r = Req.FINISHED → finish digest oid reason p = Ok p.
Proof.
  intros Hr Hs. unfold finish. rewrite (get_Ok _ _ _ Hr). cbn [mbind result_bind].
  by rewrite decide_True.
Qed.

Lemma abort_Ok p rid :
  wf p →
  (requests p !! rid = None ∧ abort digest rid p = Ok (None, p)) ∨
  ∃ oid r c, requests p !! rid = Some oid ∧ heap p !! oid = Some r ∧ Req.request_id r = rid ∧
    oid ∈ live p ∧ abort digest rid p = Ok (Some oid, retired_state p oid r "abort" c) ∧
    wf (retired_state p oid r "abort" c).
Proof.
  intros Hwf. pose proof (wf_queues _ _ Hwf) as Hq. unfold abort.
  destruct (requests p !! rid) as [oid|] eqn:Hreq; [right|by left].
  pose proof Hreq as (Hl & r & Hr & Hid)%(q_requests _ Hq). subst rid.
  rewrite (get_Ok _ _ _ Hr). cbn [mbind result_bind]. cbv zeta. exists oid, r.
  destruct (live_cases p oid r Hq Hl Hr) as [(Hrun & Hk & Hst & _)|(Hrun & Hw & Hst & Hs)].
  - rewrite decide_False by (rewrite Hst; done).
    destruct (finish_Ok p oid r "abort" Hwf Hl Hr) as (c & -> & Hwf').
    exists c. by split_and!.
  - rewrite decide_True by done. set (p1 := update oid _ _).
    assert (Hr1 : heap p1 !! oid = Some (retired "abort" r)).
    { cbn. rewrite (alter_insert_once _ oid r) by done. rewrite lookup_insert_eq.
      unfold retired. by destruct r; cbn in *; subst. }
    destruct (q_plain _ Hq) as (Hoff & Hpp & Hrp & Hdp).
    destruct (retire_tail p p1 oid r (retired "abort" r) "abort" Hq Hl Hr (wf_cache _ _ Hwf) Hr1 eq_refl Hpp Hrp)
      as (-> & c & E & Hwf').
    cbn [mbind result_bind]. rewrite E. cbn [mbind result_bind]. exists c. split_and!; try done.
    apply f_equal, f_equal. exact (waiting_retired_ext p oid r "abort" c Hq Hr Hrun Hs).
Qed.

(** ** Submission *)

(** [new_max limit r], the generation cap [add_request] settles. *)
Definition new_max (limit : nat) r : nat :=
  let room := limit - Req.prompt_len r in
  match Req.max_gen_len r with Some (S n) => Nat.min (S n) room | _ => room end.

Definition queued_state p oid r : BatchPlanner T :=
  MkPlanner (config p) (num_slots p) (max_num_seqs p)
    (<[oid := Req.set_max_new_tokens (Z.of_nat (new_max (max_seq_len (config p)) r)) r]> (heap p))
    (waiting p ++ [(Req.request_id r, oid)]) (running p) (<[Req.request_id r := oid]> (requests p))
    (free_slots p) (prefix_cache p) (pending_blocks p) (num_preemptions p) (deferred_steps p)
    (offloading p) (pending_promotes p) (ready_promotes p) (dying_promotes p)
    (promotion_by_blocks p).

(** What the engine hands over: a request object of its own making. *)
Definition submittable r : Prop :=
  Req.status r = Req.WAITING ∧ Req.slot r = None ∧ Req.output_token_ids r = [] ∧
  Req.num_computed_tokens r = 0 ∧ Forall Chain.is_token (Req.prompt_token_ids r).

Lemma queued_queues p oid r :
  queues p → oid ∉ live p → requests p !! Req.request_id r = None → submittable r →
  1 ≤ Req.prompt_len r → queues (queued_state p oid r).
Proof.
  intros Hq Hl Hreq (Hst & Hs & Ho & Hn & Ht) Hlen. set (p' := queued_state p oid r).
  set (r' := Req.set_max_new_tokens (Z.of_nat (new_max (max_seq_len (config p)) r)) r).
  assert (Hlive : live p' ≡ₚ oid :: live p).
  { unfold live. cbn. rewrite fmap_app. cbn. solve_Permutation. }
  assert (Hself : heap p' !! oid = Some r') by apply lookup_insert_eq.
  assert (Hheap : ∀ o, o ≠ oid → heap p' !! o = heap p !! o).
  { intros o Hne. cbn. by rewrite lookup_insert_ne. }
  assert (Hold : ∀ o, o ∈ live p → o ≠ oid) by (by intros o Hin ->).
  split; try apply Hq.
  - change (free_slots p') with (free_slots p). change (running p') with (running p).
    rewrite (list_omap_ext _ (slot_of p) _ (running p)); [apply (q_slots _ Hq)|].
    apply Forall2_same_length_lookup_2; [done|]. intros k x y Hx Hy.
    assert (x = y) as -> by congruence. unfold slot_of. rewrite Hheap; [done|].
    apply Hold, running_live. by eapply list_elem_of_lookup_2.
  - intros o Hin. rewrite Hheap; [by apply (q_running _ Hq)|]. by apply Hold, running_live.
  - intros k o [Hin|[= -> ->]%list_elem_of_singleton]%elem_of_app.
    + rewrite Hheap; [by apply (q_waiting _ Hq)|]. by eapply Hold, waiting_live.
    + exists r'. by split_and!.
  - rewrite Hlive. apply NoDup_cons. split; [done|apply (q_live _ Hq)].
  - intros k o. rewrite Hlive. cbn [p' queued_state requests]. rewrite elem_of_cons.
    destruct (decide (k = Req.request_id r)) as [->|Hne].
    + rewrite lookup_insert_eq. split.
      * intros [= <-]. split; [by left|]. by exists r'.
      * intros [[->|Hin] (ro & Hro & Hid)]; [done|]. rewrite Hheap in Hro by (by apply Hold).
        destruct (live_request p o ro Hq Hin Hro) as [E _]. rewrite Hid in E. congruence.
    + rewrite lookup_insert_ne by done. rewrite (q_requests _ Hq). split.
      * intros [Hin ?]. split; [by right|]. rewrite Hheap by (by apply Hold). done.
      * intros [[->|Hin] (ro & Hro & Hid)].
        -- rewrite Hself in Hro. injection Hro as <-. done.
        -- rewrite Hheap in Hro by (by apply Hold). split; [done|by exists ro].
  - intros o ro Hin Hro. rewrite Hlive in Hin. apply elem_of_cons in Hin as [->|Hin].
    + rewrite Hself in Hro. injection Hro as <-. cbn. rewrite Ho, app_nil_r, Hn.
      split_and!; [done|done|lia].
    + rewrite Hheap in Hro by (by apply Hold). by apply (q_tokens _ Hq o).
Qed.

Lemma queued_wf p oid r :
  wf p → oid ∉ live p → requests p !! Req.request_id r = None → submittable r →
  1 ≤ Req.prompt_len r → wf (queued_state p oid r).
Proof.
  intros [Hq Hc] Hl Hreq Hsub Hlen. split; [by apply queued_queues|].
  eapply Client.cache_ok_weaken; [| |exact Hc].
  - intros k tk Hk. exists tk. split; [|done]. rewrite <- Hk. unfold roster in Hk |- *. cbn.
    destruct (requests p !! k) as [o|] eqn:Eo; [|done].
    assert (k ≠ Req.request_id r) by congruence. rewrite lookup_insert_ne, Eo by done. cbn.
    rewrite lookup_insert_ne; [done|]. intros <-. apply Hl. by apply (q_requests _ Hq) in Eo as [? _].
  - intros k (o & ro & Ho & Hro & Hid). exists o, ro. cbn. rewrite lookup_insert_ne; [done|].
    intros <-. by apply Hl, running_live.
Qed.

Lemma add_request_Ok p oid r :
  wf p → oid ∉ live p → heap p !! oid = Some r → submittable r →
  if decide (requests p !! Req.request_id r = None ∧ 1 ≤ Req.prompt_len r < max_seq_len (config p))
  then add_request oid p = Ok (queued_state p oid r) ∧ wf (queued_state p oid r)
  else add_request oid p = Err ValueError.
Proof.
  intros Hwf Hl Hr Hsub. pose proof Hsub as (Hst & Hs & _).
  unfold add_request, has_request_id, rguard. rewrite (get_Ok _ _ _ Hr). cbn [mbind result_bind]. cbv zeta.
  rewrite (bool_decide_eq_true_2 (Req.status r = Req.WAITING ∧ Req.slot r = None)) by done.
  case_decide as Hd.
  - destruct Hd as (Hreq & H1 & H2). rewrite Hreq.
    rewrite (bool_decide_eq_false_2 (is_Some None)) by (by intros [? ?]). cbn [negb].
    rewrite !bool_decide_eq_true_2 by (done || lia). cbn [mbind result_bind].
    split; [|by apply queued_wf]. apply f_equal. apply planner_ext; try reflexivity; cbn.
    + by rewrite (alter_insert_once _ oid r).
    + unfold od_set. rewrite decide_False; [done|]. intros ([k o] & E & Ho)%list_elem_of_fmap.
      cbn in E. subst k. pose proof (waiting_key p _ o (wf_queues _ _ Hwf) Ho). congruence.
  - destruct (bool_decide (is_Some _)) eqn:E1; [done|]. apply bool_decide_eq_false in E1.
    cbn [negb mbind result_bind]. destruct (bool_decide (Req.prompt_len r ≠ 0)) eqn:H1; [|done].
    apply bool_decide_eq_true in H1. cbn [mbind result_bind].
    case_bool_decide as H2; [|done]. exfalso. apply Hd. split; [|lia].
    by apply eq_None_not_Some.
Qed.

(** ** Speculative growth *)

Lemma writes_step p oid r f :
  wf p → heap p !! oid = Some r → (∀ ws r, core (f ws r) = core r) →
  ∃ ws c, Cache.take_table_writes (Req.request_id r) (prefix_cache p) = Ok (ws, c) ∧
    wf (update oid (f ws) (set_prefix_cache c p)) ∧
    grows p (update oid (f ws) (set_prefix_cache c p)).
Proof.
  intros Hwf Hr Hf.
  destruct (Client.writes_Ok digest _ _ _ (Req.request_id r) (wf_cache _ _ Hwf)) as (ws & c & E & Hc & Hco).
  exists ws, c. assert (Hfr : frame p (update oid (f ws) (set_prefix_cache c p))).
  { etrans; [apply cache_frame|]. by apply update_frame. }
  split_and!; [done|by apply (frame_wf digest p)|]. split; [done|by apply coordinator_rows].
Qed.

Lemma speculate_Ok fit : ∀ p oid r,
  wf p → oid ∈ running p → heap p !! oid = Some r →
  ∃ k p', speculate fit oid r p = Ok (k, p') ∧ wf p' ∧ grows p p' ∧ k ≤ fit ∧
    (0 < k → Client.covers (prefix_cache p') (Req.request_id r) (Req.seq_len r + k)).
Proof.
  induction fit as [|fit IH]; intros p oid r Hwf Hin Hr; cbn [speculate].
  { exists 0, p. split_and!; [done|done|done|done|lia]. }
  destruct (alloc_running digest p oid r (Req.seq_len r + S fit) Hwf Hin Hr)
    as (b & c & E & Hwf1 & Hg1 & Hcov).
  rewrite E. cbn [mbind result_bind]. destruct b.
  - destruct (writes_step (set_prefix_cache c p) oid r
      (λ ws r, Req.set_block_plan (Req.block_plan r ++ ws) r) Hwf1 Hr) as (ws & c2 & E2 & Hwf2 & Hg2);
      [done|]. rewrite E2. cbn [mbind result_bind].
    exists (S fit). eexists. split; [reflexivity|]. split_and!; [done|by etrans|done|].
    intros _. specialize (Hcov eq_refl). unfold Client.covers in *. etrans; [exact Hcov|apply Hg2].
  - destruct (IH (set_prefix_cache c p) oid r Hwf1 Hin Hr) as (k & p' & -> & ? & ? & ? & ?).
    exists k, p'. split_and!; [done|done|by etrans|lia|done].
Qed.

Lemma reserve_speculative_Ok p oid r n :
  wf p → oid ∈ running p → heap p !! oid = Some r →
  ∃ k p', reserve_speculative oid n p = Ok (k, p') ∧ wf p' ∧ grows p p' ∧
    k ≤ n ∧ (0 < k → Req.seq_len r + k ≤ max_seq_len (config p) ∧
      Client.covers (prefix_cache p') (Req.request_id r) (Req.seq_len r + k)).
Proof.
  intros Hwf Hin Hr. unfold reserve_speculative. rewrite (get_Ok _ _ _ Hr). cbn [mbind result_bind].
  destruct (speculate_Ok (Nat.min n (max_seq_len (config p) - Req.seq_len r)) p oid r Hwf Hin Hr)
    as (k & p' & E & ? & ? & ? & ?).
  exists k, p'. split_and!; [done|done|done|lia|]. intros Hk. split; [lia|auto].
Qed.

(** ** Between steps *)

(** [_harvest]: a token joins the output; [launch]: the pipeline's ledger. *)
Definition emit (oid : nat) (token : Z) p : BatchPlanner T :=
  update oid (λ r, Req.set_output_token_ids (Req.output_token_ids r ++ [token]) r) p.
Definition launch (oid : nat) (n : Z) p : BatchPlanner T := update oid (Req.set_pending_tokens n) p.

Lemma emit_wf p oid token :
  wf p → oid ∈ running p → Chain.is_token token → wf (emit oid token p).
Proof.
  intros Hwf Hin Ht. destruct (q_running _ (wf_queues _ _ Hwf) oid Hin) as (r & Hr & Hst & Hs).
  destruct (q_tokens _ (wf_queues _ _ Hwf) oid r (running_live _ _ Hin) Hr) as (Htk & H1 & H2).
  apply (update_running_wf digest p oid r); try done; cbn.
  - rewrite app_assoc. by apply prefix_app_r.
  - rewrite app_assoc. apply Forall_app. split; [done|by constructor].
Qed.

Lemma launch_wf p oid n : wf p → oid ∈ running p → wf (launch oid n p).
Proof.
  intros Hwf Hin. destruct (q_running _ (wf_queues _ _ Hwf) oid Hin) as (r & Hr & Hst & Hs).
  destruct (q_tokens _ (wf_queues _ _ Hwf) oid r (running_live _ _ Hin) Hr) as (Htk & H1 & H2).
  by apply (update_running_wf digest p oid r).
Qed.

(** ** Construction *)

Lemma planner_init_wf cfg n nb p :
  config_ok cfg → init cfg n nb None = Ok p → wf p ∧ config p = cfg ∧ num_slots p = n.
Proof.
  intros Hcfg E. unfold init in E. apply bind_Ok in E as (u & _ & E). cbv zeta in E.
  apply bind_Ok in E as (c & Hc & E). cbn [mbind result_bind] in E. injection E as <-.
  split_and!; [|done|done]. split; [|exact (proj1 (Client.cache_init_ok digest _ _ _ _ _ Hc))].
  split; cbn; try done.
  all: try (intros ? Ho; by apply not_elem_of_nil in Ho).
  all: try (intros ? ? Ho; by apply not_elem_of_nil in Ho).
  - by rewrite app_nil_r.
  - constructor.
  - intros k o. rewrite lookup_empty. split; [done|]. intros [Ho _]. by apply not_elem_of_nil in Ho.
  - lia.
Qed.

(** A planner operation of the engine between two states. *)
Inductive step : BatchPlanner T → BatchPlanner T → Prop :=
  | step_submit p oid r p' :
      oid ∉ live p → submittable r → add_request oid (new_object oid r p) = Ok p' → step p p'
  | step_plan p out p' : plan digest p = Ok (out, p') → step p p'
  | step_speculate p oid n k p' :
      oid ∈ running p → reserve_speculative oid n p = Ok (k, p') → step p p'
  | step_emit p oid token :
      oid ∈ running p → Chain.is_token token → step p (emit oid token p)
  | step_launch p oid n : oid ∈ running p → step p (launch oid n p)
  | step_finish p oid reason p' :
      oid ∈ live p → finish digest oid reason p = Ok p' → step p p'
  | step_abort p rid o p' : abort digest rid p = Ok (o, p') → step p p'.

Lemma new_object_wf p oid r : wf p → oid ∉ live p → wf (new_object oid r p).
Proof.
  intros [Hq Hc] Hl. set (p' := new_object oid r p).
  assert (Hheap : ∀ o, o ∈ live p → heap p' !! o = heap p !! o).
  { intros o Ho. cbn. rewrite lookup_insert_ne; [done|]. by intros ->. }
  split.
  - split; try apply Hq.
    + change (free_slots p') with (free_slots p). change (running p') with (running p).
      rewrite (list_omap_ext _ (slot_of p) _ (running p)); [apply (q_slots _ Hq)|].
      apply Forall2_same_length_lookup_2; [done|]. intros k x y Hx Hy.
      assert (x = y) as -> by congruence. unfold slot_of. rewrite Hheap; [done|].
      apply running_live. by eapply list_elem_of_lookup_2.
    + intros o Ho. rewrite Hheap by (by apply running_live). by apply (q_running _ Hq).
    + intros k o Ho. rewrite Hheap by (by eapply waiting_live). by apply (q_waiting _ Hq).
    + intros k o. change (live p') with (live p). change (requests p') with (requests p).
      rewrite (q_requests _ Hq). split; intros [Ho ?]; (split; [done|]); by rewrite Hheap in *.
    + intros o ro Ho. rewrite Hheap by done. by apply (q_tokens _ Hq).
  - eapply Client.cache_ok_weaken; [| |exact Hc].
    + intros k tk Hk. exists tk. split; [|done]. rewrite <- Hk. unfold roster.
      change (requests p') with (requests p).
      destruct (requests p !! k) as [o|] eqn:Eo; [|done]. cbn -[p'].
      rewrite Hheap; [done|]. by apply (q_requests _ Hq) in Eo as [? _].
    + intros k (o & ro & Ho & Hro & Hid). exists o, ro.
      rewrite Hheap by (by apply running_live). done.
Qed.

Lemma planner_step_wf p p' : wf p → step p p' → wf p' ∧ same_limits p p'.
Proof.
  intros Hwf Hs. destruct Hs as [p oid r p' Hl Hsub E|p out p' E|p oid n k p' Hin E|p oid t Hin Ht
    |p oid n Hin|p oid reason p' Hl E|p rid o p' E].
  - pose proof (new_object_wf p oid r Hwf Hl) as Hwf1.
    pose proof (add_request_Ok (new_object oid r p) oid r Hwf1 Hl (lookup_insert_eq _ _ _) Hsub) as Ha.
    case_decide; [|congruence]. destruct Ha as [E' Hwf']. rewrite E in E'. by injection E' as ->.
  - destruct (plan_Ok digest digest_ok p Hwf) as (out' & p1 & E' & Hwf' & _ & Hl & _).
    rewrite E in E'. by injection E' as _ ->.
  - destruct (q_running _ (wf_queues _ _ Hwf) oid Hin) as (r & Hr & _).
    destruct (reserve_speculative_Ok p oid r n Hwf Hin Hr) as (k' & p1 & E' & Hwf' & [Hf _] & _).
    rewrite E in E'. injection E' as _ ->. split; [done|apply (f_config _ _ Hf)].
  - split; [by apply emit_wf|done].
  - split; [by apply launch_wf|done].
  - assert (is_Some (heap p !! oid)) as [r Hr].
    { apply elem_of_app in Hl as [([k o] & -> & Hw)%list_elem_of_fmap|Hr].
      - destruct (q_waiting _ (wf_queues _ _ Hwf) _ _ Hw) as (r & ? & _). by exists r.
      - destruct (q_running _ (wf_queues _ _ Hwf) _ Hr) as (r & ? & _). by exists r. }
    destruct (finish_Ok p oid r reason Hwf Hl Hr) as (c & E' & Hwf'). rewrite E in E'.
    by injection E' as ->.
  - destruct (abort_Ok p rid Hwf) as [[_ E']|(oid & r & c & _ & _ & _ & _ & E' & Hwf')];
      rewrite E in E'; by injection E' as _ ->.
Qed.

Lemma planner_reach_wf p0 p : wf p0 → rtc step p0 p → wf p ∧ same_limits p0 p.
Proof.
  intros H0 Hrun. induction Hrun as [p|p1 p2 p3 Hs _ IH]; [done|].
  destruct (planner_step_wf p1 p2 H0 Hs) as [H1 Hl]. destruct (IH H1) as [H2 Hl2]. split; [done|by etrans].
Qed.
End Steps.
End Steps.
