(* ===== verification/PlannerSpec.v ===== *)
(** * What the batch planner guarantees

    The theorems about [BatchPlanner]: every reachable planner plans without
    raising and plans soundly, slots and blocks are never lost, and each
    operation does what its caller relies on. *)

From S2P Require Export PlannerSteps CpuTier.

Module PlannerSpec.
Import Planner Inv Stages Steps.

(** [held] over a ledger whose requests hold nothing. *)
Lemma held_nothing (m : gmap string Coord.RequestBlocks) i :
  (∀ r, Coord.holds_of m r = []) → Coord.held m i = 0%Z.
Proof.
  intros Hn. induction m as [|k st m Hk IH] using map_ind; [apply map_sum_empty|].
  rewrite Coord.held_insert, IH.
  - pose proof (Hn k) as Hst. rewrite Coord.holds_of_insert in Hst. rewrite Hst.
    unfold Coord.holds_of. rewrite Hk. cbn. lia.
  - intros r. destruct (decide (k = r)) as [->|Hne].
    + unfold Coord.holds_of. by rewrite Hk.
    + specialize (Hn r). by rewrite Coord.holds_of_insert_ne in Hn.
Qed.

Lemma nothing_held_all_free c :
  Coord.wf c → (∀ r, Coord.holds_of (Coord.requests c) r = []) →
  Pool.num_free_blocks (Coord.pool c) = (Z.of_nat (Pool.num_blocks (Coord.pool c)) - 1)%Z.
Proof.
  intros Hwf Hn.
  assert (Hun : Pool.num_used_blocks (Coord.pool c) = 1%Z); [|unfold Pool.num_used_blocks in Hun; lia].
  apply Pool.unused_iff; [apply Hwf|]. intros i Hi. rewrite (Coord.wf_ledger _ Hwf).
  - by apply held_nothing.
  - unfold Pool.NULL_BLOCK_ID. lia.
Qed.

Lemma make_config_ok raw cfg : make_config raw = Ok cfg → config_ok cfg.
Proof.
  unfold make_config. intros E. apply bind_Ok in E as (u1 & _ & E). apply bind_Ok in E as (u2 & _ & E).
  apply bind_Ok in E as (u3 & H3 & E). cbv zeta in E. apply bind_Ok in E as (u4 & _ & E).
  apply bind_Ok in E as (u5 & _ & [= <-]). unfold rguard in H3. case_bool_decide; [|done].
  split; cbn; [done|]. case_decide; [done|]. lia.
Qed.

Section Spec.
Context {T : Type} `{!Offload.OffloadingManager T}
  (digest : list Z → list Z) (digest_ok : Chain.digest_ok digest).
Implicit Types (p : BatchPlanner T) (r : Req.Request).

(** A planner the engine can be holding: built on a valid configuration,
    without an offloading tier, and driven by [Steps.step]. *)
Definition reachable (num_slots : nat) p : Prop :=
  ∃ raw cfg nb p0, make_config raw = Ok cfg ∧ init cfg num_slots nb None = Ok p0 ∧
    rtc (step digest) p0 p.

Lemma reachable_wf n p : reachable n p → Inv.wf digest p ∧ num_slots p = n.
Proof.
  intros (raw & cfg & nb & p0 & Hc & Hi & Hrun).
  destruct (planner_init_wf digest cfg n nb p0 (make_config_ok _ _ Hc) Hi) as (H0 & _ & Hn).
  destruct (planner_reach_wf digest digest_ok p0 p H0 Hrun) as [Hwf (_ & Hl & _)]. split; [done|congruence].
Qed.

(** C3: the planner never raises and plans soundly.  On every reachable planner
    [plan] returns; the prefill and the decode batch have no request in common
    and none twice, everything in them holds a slot, each prefill chunk is
    positive and within the chunk and token caps, and every planned request
    holds blocks for all the rows the step will write: up to
    [num_computed_tokens] for a prefill, up to the row of the next token (the
    context limit at most) for a decode.  A chunk is part of what its request
    is assumed to have computed; no request, planned, evicted or neither,
    changes its id, its token sequence or the length at which it ends. *)
Theorem plan_total_and_sound n p :
  reachable n p →
  ∃ out p', plan digest p = Ok (out, p') ∧ plan_sound out p' ∧ reachable n p' ∧
    Forall2 (λ o c, ∃ r, heap p' !! o = Some r ∧ c ≤ Req.num_computed_tokens r)
      (prefill out) (prefill_chunk_lens out) ∧
    ∀ o, stamp <$> heap p' !! o = stamp <$> heap p !! o.
Proof.
  intros Hr. destruct (reachable_wf n p Hr) as [Hwf _].
  destruct (plan_Ok digest digest_ok p Hwf) as (out & p' & E & _ & Hs & _ & Hpl).
  exists out, p'. split_and!; [done|done| |apply Hpl|apply Hpl]. destruct Hr as (raw & cfg & nb & p0 & ? & ? & Hrun).
  exists raw, cfg, nb, p0. split_and!; [done|done|]. eapply rtc_r; [done|by eapply step_plan].
Qed.

(** C4: slots and queues stay consistent.  On every reachable planner the free
    slots and the slots of the running requests are together exactly the slots
    [0 .. num_slots-1], each once; no request is queued and running or in a
    queue twice; at most [max_num_seqs] run; and the id index names exactly the
    live requests. *)
Theorem slots_and_queues_consistent n p :
  reachable n p →
  free_slots p ++ omap (slot_of p) (running p) ≡ₚ seq 0 n ∧
  NoDup ((waiting p).*2 ++ running p) ∧
  length (running p) ≤ max_num_seqs p ∧
  (∀ oid, oid ∈ running p → is_Some (slot_of p oid)) ∧
  (∀ rid oid, requests p !! rid = Some oid ↔
    oid ∈ live p ∧ ∃ r, heap p !! oid = Some r ∧ Req.request_id r = rid).
Proof.
  intros Hr. destruct (reachable_wf n p Hr) as [[Hq _] <-].
  split_and!; [apply Hq|apply (q_live _ Hq)|apply Hq| |apply Hq].
  intros oid (r & Hr' & _ & Hs)%(q_running _ Hq). unfold slot_of. by rewrite Hr'.
Qed.

(** C5: no block leaks.  Only running requests hold blocks; so whenever nothing
    runs (everything finished, aborted, preempted or still queued) every block
    of the pool but the null block is free. *)
Theorem idle_planner_holds_no_block n p :
  reachable n p →
  (∀ rid, Cache.block_ids rid (prefix_cache p) ≠ [[]] → runner p rid) ∧
  (running p = [] → Pool.num_free_blocks (Cache.pool (prefix_cache p)) =
    (Z.of_nat (Pool.num_blocks (Cache.pool (prefix_cache p))) - 1)%Z).
Proof.
  intros Hr. destruct (reachable_wf n p Hr) as [[Hq Hc] _].
  destruct (Client.ok_wf _ _ _ _ Hc) as [hist Hcw]. split.
  - intros rid Hb. apply (Client.ok_hold _ _ _ _ Hc). intros He. apply Hb.
    destruct (Client.one_list digest _ _ _ rid Hc) as (bl & E & _).
    rewrite E. f_equal. rewrite <- Coord.concat_block_ids in He. unfold Cache.block_ids in E.
    rewrite E in He. cbn in He. by rewrite app_nil_r in He.
  - intros Hrun. apply nothing_held_all_free; [apply Hcw|]. intros rid.
    destruct (Coord.holds_of _ rid) eqn:E; [done|].
    destruct (Client.ok_hold _ _ _ _ Hc rid) as (o & r & Ho & _); [by rewrite E|].
    rewrite Hrun in Ho. by apply not_elem_of_nil in Ho.
Qed.

(** ** Admission *)

(** Admission is first come first served and stays within the token budget.
    Stage 2 never raises; what it admits is a prefix of the queue, in queue
    order; and with chunked prefill the padded width of the prefill batch
    (longest chunk times batch size) does not pass [max_num_batched_tokens],
    unless Stage 1 alone already passed it. *)
Theorem admission_fcfs_within_budget p0 w p :
  Inv.wf digest p → planned p0 w p →
  ∃ k w' p', _admit digest w p = Ok (w', p') ∧ Inv.wf digest p' ∧ planned p0 w' p' ∧
    w_prefill w' = w_prefill w ++ take k (waiting p).*2 ∧
    (enable_chunked_prefill (config p) = true →
      longest_of w' * length (w_prefill w') ≤
      Nat.max (max_num_batched_tokens (config p)) (longest_of w * length (w_prefill w))).
Proof.
  intros Hwf Hpl. destruct (admit_Ok digest digest_ok p0 w p Hwf Hpl) as (k & w' & p' & E & []).
  exists k, w', p'. by split_and!.
Qed.

(** ** Submission *)

(** [add_request] accepts exactly the requests whose id is not active and
    whose prompt is neither empty nor as long as the context; an accepted
    request goes last in the queue, is indexed under its id, and its generation
    cap is positive and leaves prompt and answer within the context; a refusal
    is a [ValueError]. *)
Theorem add_request_exact p oid r :
  Inv.wf digest p → oid ∉ live p → heap p !! oid = Some r → submittable r →
  if decide (has_request_id (Req.request_id r) p = false ∧
             1 ≤ Req.prompt_len r < max_seq_len (config p))
  then ∃ p' r', add_request oid p = Ok p' ∧ Inv.wf digest p' ∧
    waiting p' = waiting p ++ [(Req.request_id r, oid)] ∧ running p' = running p ∧
    requests p' = <[Req.request_id r := oid]> (requests p) ∧ heap p' !! oid = Some r' ∧
    (0 < Req.max_new_tokens r' ∧
     Z.of_nat (Req.prompt_len r') + Req.max_new_tokens r' ≤ Z.of_nat (max_seq_len (config p)))%Z
  else add_request oid p = Err ValueError.
Proof.
  intros Hwf Hl Hr Hsub. pose proof (add_request_Ok digest p oid r Hwf Hl Hr Hsub) as Ha.
  assert (Hiff : has_request_id (Req.request_id r) p = false ↔ requests p !! Req.request_id r = None).
  { unfold has_request_id. rewrite bool_decide_eq_false. by rewrite eq_None_not_Some. }
  case_decide as Hd; case_decide as Hd'; [|tauto..|done].
  destruct Ha as [E Hwf'].
  assert (Hmax : 1 ≤ new_max (max_seq_len (config p)) r ≤ max_seq_len (config p) - Req.prompt_len r).
  { unfold new_max. destruct (Req.max_gen_len r) as [[|n]|]; lia. }
  exists (queued_state p oid r). eexists.
  split_and!; [done|done|done|done|done|apply lookup_insert_eq| |].
  - cbn. lia.
  - unfold Req.prompt_len in *.
    cbn [Req.prompt_token_ids Req.max_new_tokens Req.set_max_new_tokens]. lia.
Qed.

(** ** Retirement *)

(** Retiring a request releases everything it holds and nothing else.
    [finish] returns on every live request: the request is [FINISHED] with the
    reason, in no queue, its id is free again, its slot is on top of the free
    slots, it holds no block and no queued registration names it; the other
    requests keep their state.  Finishing it once more does nothing. *)
Theorem finish_releases p oid r reason :
  Inv.wf digest p → oid ∈ live p → heap p !! oid = Some r →
  ∃ p' r', finish digest oid reason p = Ok p' ∧ Inv.wf digest p' ∧
    heap p' !! oid = Some r' ∧ Req.status r' = Req.FINISHED ∧
    Req.finish_reason r' = Some reason ∧ Req.slot r' = None ∧
    Req.output_token_ids r' = Req.output_token_ids r ∧
    live p ≡ₚ oid :: live p' ∧ requests p' = delete (Req.request_id r) (requests p) ∧
    free_slots p' = option_list (Req.slot r) ++ free_slots p ∧
    Cache.block_ids (Req.request_id r) (prefix_cache p') = [[]] ∧
    (∀ e, e ∈ pending_blocks p' → e.1 ≠ oid) ∧
    (∀ o, o ≠ oid → heap p' !! o = heap p !! o) ∧
    ∀ reason', finish digest oid reason' p' = Ok p'.
Proof.
  intros Hwf Hl Hr. pose proof (wf_queues _ _ Hwf) as Hq.
  destruct (finish_Ok digest digest_ok p oid r reason Hwf Hl Hr) as (c & E & Hwf').
  pose proof (retired_live p oid r reason c Hq Hl Hr) as Hlive.
  set (p' := retired_state p oid r reason c) in *.
  assert (Hr' : heap p' !! oid = Some (retired reason r)) by apply lookup_insert_eq.
  exists p', (retired reason r). split_and!; try done.
  - destruct (Client.one_list digest _ _ _ (Req.request_id r) (wf_cache _ _ Hwf')) as (bl & Eb & _).
    rewrite Eb. destruct bl as [|b bl]; [done|]. exfalso.
    destruct (Client.ok_hold _ _ _ _ (wf_cache _ _ Hwf') (Req.request_id r)) as (o & ro & Ho & Hro & Hid).
    { rewrite <- Coord.concat_block_ids. unfold Cache.block_ids in Eb. by rewrite Eb. }
    destruct (live_request p' o ro (wf_queues _ _ Hwf') (running_live _ _ Ho) Hro) as [Hreq _].
    rewrite Hid in Hreq. cbn in Hreq. by rewrite lookup_delete_eq in Hreq.
  - by intros e [? _]%list_elem_of_filter.
  - intros o Hne. cbn. by rewrite lookup_insert_ne.
  - intros reason'. by apply (finish_finished digest p' oid (retired reason r)).
Qed.

(** ** Preemption *)

(** Preemption loses no token.  A preempted request goes first in the queue
    with its generated tokens moved to its prompt: its token sequence, and the
    position its generation cap ends at, are what they were; it computed
    nothing, holds neither slot nor block nor queued registration, and nobody
    else's blocks change. *)
Theorem preempt_keeps_tokens p oid r :
  Inv.wf digest p → oid ∈ running p → heap p !! oid = Some r →
  ∃ p' r', preempt oid p = Ok p' ∧ Inv.wf digest p' ∧ heap p' !! oid = Some r' ∧
    Req.prompt_token_ids r' = Req.prompt_token_ids r ++ Req.output_token_ids r ∧
    Req.output_token_ids r' = [] ∧ Req.seq_len r' = Req.seq_len r ∧
    (Z.of_nat (Req.prompt_len r') + Req.max_new_tokens r' =
      Z.of_nat (Req.prompt_len r) + Req.max_new_tokens r)%Z ∧
    Req.num_computed_tokens r' = 0 ∧ Req.slot r' = None ∧
    waiting p' = (Req.request_id r, oid) :: waiting p ∧
    running p' = filter (λ o, o ≠ oid) (running p) ∧
    free_slots p' = option_list (Req.slot r) ++ free_slots p ∧
    (∀ e, e ∈ pending_blocks p' → e.1 ≠ oid) ∧
    Cache.block_ids (Req.request_id r) (prefix_cache p') = [[]] ∧
    ∀ rid, rid ≠ Req.request_id r →
      Client.rows (prefix_cache p') rid = Client.rows (prefix_cache p) rid.
Proof.
  intros Hwf Hin Hr. destruct (preempt_Ok digest p oid r Hwf Hin Hr) as (s & c & Hs & E & Hwf' & _ & Hrows).
  set (p' := preempted_state p oid r s c) in *.
  exists p', (requeued r). split_and!; try done.
  - apply lookup_insert_eq.
  - unfold Req.seq_len. cbn. rewrite length_app. lia.
  - unfold Req.prompt_len. cbn. rewrite length_app. lia.
  - by rewrite Hs.
  - by intros e [? _]%list_elem_of_filter.
  - destruct (Client.one_list digest _ _ _ (Req.request_id r) (wf_cache _ _ Hwf')) as (bl & Eb & _).
    rewrite Eb. destruct bl as [|b bl]; [done|]. exfalso.
    pose proof (waiting_holds_nothing digest p' (Req.request_id r) oid Hwf' ltac:(left)) as Hn.
    rewrite <- Coord.concat_block_ids in Hn. unfold Cache.block_ids in Eb. by rewrite Eb in Hn.
Qed.

(** Who may be evicted: past prefill, not protected, past its first token. *)
Definition eligible (protect : list nat) p (oid : nat) : Prop :=
  oid ∉ protect ∧ ∃ r, heap p !! oid = Some r ∧ Req.prefill_done r = true ∧
    Req.output_token_ids r ≠ [].

Lemma find_victim_first protect p l v :
  find_victim protect l p = Ok v →
  match v with
  | Some o => ∃ l1 l2, l = l1 ++ o :: l2 ∧ eligible protect p o ∧
      Forall (λ x, ¬ eligible protect p x) l1
  | None => Forall (λ x, ¬ eligible protect p x) l
  end.
Proof.
  revert v. induction l as [|o l IH]; intros v; cbn [find_victim]; [by intros [= <-]|].
  intros (r & Hr & Hv)%bind_Ok. unfold get in Hr. destruct (heap p !! o) as [r'|] eqn:Eh; [|done].
  injection Hr as ->.
  assert (Hskip : (Req.prefill_done r = false ∨ o ∈ protect) ∨ Req.output_token_ids r = [] →
    ¬ eligible protect p o).
  { intros Hs (Hp & r' & Hr' & Hd & Ho). assert (r' = r) as -> by congruence.
    destruct Hs as [[?|?]|?]; [congruence|done|done]. }
  assert (Hnext : ¬ eligible protect p o → find_victim protect l p = Ok v →
    match v with
    | Some x => ∃ l1 l2, o :: l = l1 ++ x :: l2 ∧ eligible protect p x ∧
        Forall (λ x, ¬ eligible protect p x) l1
    | None => Forall (λ x, ¬ eligible protect p x) (o :: l)
    end).
  { intros Hne Hf. specialize (IH v Hf). destruct v as [x|]; [|by constructor].
    destruct IH as (l1 & l2 & -> & ? & ?). exists (o :: l1), l2. split_and!; [done|done|by constructor]. }
  case_decide as H1; [apply Hnext; tauto|]. case_decide as H2; [|apply Hnext; tauto].
  injection Hv as <-. exists [], l. split_and!; [done| |done].
  split; [tauto|]. exists r. split_and!; [done| |done]. destruct (Req.prefill_done r); tauto.
Qed.

(** The victim is the youngest eligible request.  [preempt_victim] returns:
    either nobody that runs is eligible and nothing changes, or it evicts the
    last eligible request of the running list: past its prefill, not protected,
    with at least one generated token since it was last admitted. *)
Theorem victim_is_youngest_eligible protect p :
  Inv.wf digest p →
  ∃ v p', preempt_victim protect p = Ok (v, p') ∧
    match v with
    | None => p' = p ∧ Forall (λ o, ¬ eligible protect p o) (running p)
    | Some o => preempt o p = Ok p' ∧ ∃ l1 l2, running p = l1 ++ o :: l2 ∧
        eligible protect p o ∧ Forall (λ x, ¬ eligible protect p x) l2
    end.
Proof.
  intros Hwf. destruct (preempt_victim_Ok digest protect p Hwf) as (v & p' & E & _ & _ & Hv).
  exists v, p'. split; [done|]. unfold preempt_victim in E.
  apply bind_Ok in E as (v' & Hf & E). apply find_victim_first in Hf. destruct v' as [o|].
  - apply bind_Ok in E as (p1 & Hp & [= <- <-]). split; [done|].
    destruct Hf as (l1 & l2 & Hrun & He & Hl).
    exists (reverse l2), (reverse l1). split_and!; [|done|by apply Forall_reverse].
    rewrite <- (reverse_involutive (running p)), Hrun, reverse_app, reverse_cons.
    by rewrite <- app_assoc.
  - injection E as <- <-. split; [done|]. rewrite <- (reverse_involutive (running p)).
    by apply Forall_reverse.
Qed.

(** ** Reservation *)

Lemma reserve_loop_false fuel rid n protected victims p vs p' :
  reserve_loop fuel rid n protected victims p = Ok (false, vs, p') →
  Forall (λ o, ¬ eligible protected p' o) (running p').
Proof.
  revert victims p. induction fuel as [|fuel IH]; intros victims p; [done|]. cbn [reserve_loop].
  intros ([v p1] & Hv & E)%bind_Ok. destruct v as [v|].
  - apply bind_Ok in E as ([ok p2] & _ & E). destruct ok; [done|]. by eapply IH.
  - injection E as _ <-. unfold preempt_victim in Hv. apply bind_Ok in Hv as (v' & Hf & Hv).
    destruct v' as [o|]; [by apply bind_Ok in Hv as (? & _ & ?)|]. injection Hv as <-.
    apply find_victim_first in Hf. rewrite <- (reverse_involutive (running p)). by apply Forall_reverse.
Qed.

(** A reservation succeeds or exhausts its victims.  [_reserve] returns for
    every running request; on success the request's blocks cover the tokens
    asked for; on failure nobody that still runs may be evicted.  Either way it
    evicts neither the request itself nor a protected one, every victim is back
    in the queue, and nobody else stops running or loses blocks. *)
Theorem reserve_or_exhaust p oid r n protect victims :
  Inv.wf digest p → oid ∈ running p → heap p !! oid = Some r →
  ∃ ok vs p', reserve oid n protect victims p = Ok (ok, victims ++ vs, p') ∧ Inv.wf digest p' ∧
    (ok = true → Client.covers (prefix_cache p') (Req.request_id r) n) ∧
    (ok = false → Forall (λ o, ¬ eligible (oid :: protect) p' o) (running p')) ∧
    (∀ v, v ∈ vs → v ≠ oid ∧ v ∉ protect ∧ v ∈ (waiting p').*2) ∧
    running p' = filter (λ o, o ∉ vs) (running p) ∧
    ∀ o ro, o ∈ running p' → heap p !! o = Some ro →
      Client.rows (prefix_cache p) (Req.request_id ro) ≤
      Client.rows (prefix_cache p') (Req.request_id ro).
Proof.
  intros Hwf Hin Hr.
  destruct (reserve_Ok digest oid r n protect victims p Hwf Hin Hr)
    as (ok & vs & p' & E & Hwf' & He & Hd & Hc).
  exists ok, vs, p'. split_and!; [done|done|done| | |apply He|apply He].
  - intros ->. unfold reserve in E. rewrite (get_Ok _ _ _ Hr) in E. cbn [mbind result_bind] in E.
    apply bind_Ok in E as ([b p1] & _ & E). destruct b; [done|]. by eapply reserve_loop_false.
  - intros v Hv. destruct (Hd v Hv). split_and!; [done|done|].
    by apply (proj1 (Forall_forall _ _) (e_waiting _ _ _ He)).
Qed.

(** Speculative growth truncates, it never evicts.  [reserve_speculative]
    returns for every running request a count that is at most the draft's
    length and keeps the sequence within the context; if it is positive the
    request holds blocks for that many rows past its tokens.  The queues, the
    slots and everybody's blocks are left alone. *)
Theorem reserve_speculative_fits p oid r n :
  Inv.wf digest p → oid ∈ running p → heap p !! oid = Some r →
  ∃ k p', reserve_speculative oid n p = Ok (k, p') ∧ Inv.wf digest p' ∧ k ≤ n ∧
    (0 < k → Req.seq_len r + k ≤ max_seq_len (config p) ∧
      Client.covers (prefix_cache p') (Req.request_id r) (Req.seq_len r + k)) ∧
    waiting p' = waiting p ∧ running p' = running p ∧ free_slots p' = free_slots p ∧
    ∀ rid, Client.rows (prefix_cache p) rid ≤ Client.rows (prefix_cache p') rid.
Proof.
  intros Hwf Hin Hr.
  destruct (reserve_speculative_Ok digest p oid r n Hwf Hin Hr) as (k & p' & E & ? & [Hf Hg] & ? & ?).
  exists k, p'. split_and!; [done|done|done|done|apply Hf|apply Hf|apply Hf|apply Hg].
Qed.
End Spec.

(** ** The default pool *)

(** The default pool holds a full context for every slot exactly when the
    context is a whole number of blocks (or there is one slot and the context
    fits in one block).  Otherwise it is short by at least one block. *)
Theorem default_pool_holds_full_contexts c n (Hn : 1 ≤ n) (Hm : 2 ≤ max_seq_len c) :
  n * ((max_seq_len c + (PREFIX_CACHE_BLOCK_SIZE - 1)) / PREFIX_CACHE_BLOCK_SIZE) ≤
    default_num_blocks c n - 1 ↔
  max_seq_len c mod PREFIX_CACHE_BLOCK_SIZE = 0 ∨ (n = 1 ∧ max_seq_len c < PREFIX_CACHE_BLOCK_SIZE).
Proof.
  unfold default_num_blocks, PREFIX_CACHE_BLOCK_SIZE. set (m := max_seq_len c) in *. cbn [Nat.sub].
  pose proof (Nat.div_mod m 16 ltac:(lia)) as Hdm. pose proof (Nat.mod_upper_bound m 16 ltac:(lia)) as Hr.
  set (q := m / 16) in *. set (r := m mod 16) in *.
  assert (Hfloor : n * m / 16 = n * q + n * r / 16).
  { rewrite Hdm, Nat.mul_add_distr_l, Nat.add_comm. replace (n * (16 * q)) with (n * q * 16) by lia.
    rewrite Nat.div_add by lia. lia. }
  pose proof (Nat.div_mod (n * r) 16 ltac:(lia)) as Hdn.
  pose proof (Nat.mod_upper_bound (n * r) 16 ltac:(lia)) as Hrn.
  set (f := n * r / 16) in *. rewrite Hfloor.
  assert (Hceil : (m + 15) / 16 = q + (r + 15) / 16).
  { rewrite Hdm. replace (16 * q + r + 15) with (r + 15 + q * 16) by lia. rewrite Nat.div_add by lia. lia. }
  rewrite Hceil. destruct (decide (r = 0)) as [->|Hr0].
  - change ((0 + 15) / 16) with 0. split; [by left|intros _].
    assert (f = 0) by (rewrite Nat.mul_0_r in *; lia). lia.
  - assert ((r + 15) / 16 = 1) as ->.
    { symmetry. apply (Nat.div_unique _ _ _ (r - 1)); lia. }
    assert (f < n) by nia. split.
    + intros Hle. right. destruct (decide (q = 0)); [split; nia|nia].
    + intros [?|[-> ?]]; [lia|]. assert (q = 0) by lia. lia.
Qed.

(** ** Witnesses *)

(** A fact about the value of a computation, checked by evaluating it. *)
Definition holds_after {A} (x : result A) (P : A → bool) : bool :=
  match x with Ok a => P a | Err _ => false end.

Lemma holds_after_Ok {A} (x : result A) (P : A → bool) a :
  x = Ok a → holds_after x P = true → P a = true.
Proof. by intros ->. Qed.

(** [establish E (λ a, b)]: from [E : x = Ok a], the evaluated fact [b]. *)
Ltac establish E P :=
  match type of E with
  | ?x = _ =>
      let H := fresh "Hfact" in
      assert (holds_after x P = true) as H by (vm_compute; reflexivity);
      apply (holds_after_Ok x P _ E) in H; cbv beta in H
  end.

(** A copier whose moves are done when submitted. *)
#[global] Instance inline_copier : Cpu.BlockCopier unit unit :=
  { submit := λ _ _ c, (None, c); query := λ _ _, true }.
Definition demo_tier : Type := Cpu.Tier unit unit.

(** Context 64, two slots, chunks of 16 tokens, a pool of [blocks] blocks. *)
Definition demo_config (blocks : nat) : SchedulerConfig :=
  MkConfig 64 2 64 true 16 true (Some blocks) true 0.

Definition demo_request (rid : string) (tokens : list Z) : Req.Request := Req.fresh rid tokens None.

(** Requests "a" and "b" are queued. *)
Definition demo_start (blocks : nat) (a b : list Z) : result (BatchPlanner demo_tier) :=
  cfg ← make_config (demo_config blocks);
  p ← init cfg 2 None None;
  p ← add_request 0 (new_object 0 (demo_request "a" a) p);
  add_request 1 (new_object 1 (demo_request "b" b) p).

Lemma demo_start_reachable blocks a b p :
  Forall Chain.is_token a → Forall Chain.is_token b →
  demo_start blocks a b = Ok p → reachable Chain.toy_digest 2 p.
Proof.
  intros Ha Hb (cfg & Hc & (p0 & Hi & (p1 & E1 & E2)%bind_Ok)%bind_Ok)%bind_Ok.
  pose proof (planner_init_wf Chain.toy_digest cfg 2 None p0 (make_config_ok _ _ Hc) Hi) as (H0 & _).
  assert (Hlive0 : live p0 = []).
  { unfold init in Hi. cbv zeta in Hi. apply bind_Ok in Hi as (? & _ & Hi).
    apply bind_Ok in Hi as (? & _ & Hi). cbn [mbind result_bind] in Hi. by injection Hi as <-. }
  assert (Hsub : ∀ rid toks, Forall Chain.is_token toks → submittable (demo_request rid toks)).
  { intros rid toks Ht. by split_and!. }
  assert (S1 : step Chain.toy_digest p0 p1).
  { apply (step_submit _ p0 0 (demo_request "a" a)); [|by apply Hsub|done].
    rewrite Hlive0. apply not_elem_of_nil. }
  destruct (planner_step_wf Chain.toy_digest Chain.toy_digest_ok p0 p1 H0 S1) as [H1 _].
  assert (Hl1 : 1 ∉ live p1).
  { pose proof (add_request_Ok Chain.toy_digest (new_object 0 (demo_request "a" a) p0) 0
      (demo_request "a" a) (new_object_wf Chain.toy_digest p0 0 _ H0 ltac:(rewrite Hlive0; apply not_elem_of_nil))
      ltac:(unfold live; cbn; fold (live p0); rewrite Hlive0; apply not_elem_of_nil)
      (lookup_insert_eq _ _ _) (Hsub _ _ Ha)) as Hadd.
    case_decide; [|congruence]. destruct Hadd as [Hadd _]. rewrite E1 in Hadd. injection Hadd as ->.
    unfold live in Hlive0 |- *. cbn. apply app_eq_nil in Hlive0 as [Hw0 Hr0].
    rewrite fmap_app, Hw0, Hr0. cbn. set_solver. }
  exists (demo_config blocks), cfg, None, p0. split_and!; [done|done|].
  eapply rtc_l; [exact S1|]. apply rtc_once.
  by apply (step_submit _ p1 1 (demo_request "b" b)); [|apply Hsub|].
Qed.

Definition prompt_a : list Z := [5; 6; 7]%Z.
Definition prompt_b : list Z := [8; 9]%Z.

Lemma prompts_tokens : Forall Chain.is_token prompt_a ∧ Forall Chain.is_token prompt_b.
Proof. split; repeat constructor; done. Qed.

(** One step later both prompts are prefilled and each has its first token. *)
Definition demo_running : result (BatchPlanner demo_tier) :=
  p ← demo_start 8 prompt_a prompt_b;
  '(_, p) ← plan Chain.toy_digest p;
  Ok (emit 1 30%Z (emit 0 20%Z p)).

Lemma demo_running_wf p : demo_running = Ok p → Inv.wf Chain.toy_digest p.
Proof.
  intros (p0 & E0 & ([out p1] & E1 & [= <-])%bind_Ok)%bind_Ok.
  pose proof (demo_start_reachable _ _ _ _ (proj1 prompts_tokens) (proj2 prompts_tokens) E0) as Hr.
  destruct (reachable_wf _ Chain.toy_digest_ok 2 p0 Hr) as [H0 _].
  destruct (planner_step_wf _ Chain.toy_digest_ok p0 p1 H0 (step_plan _ _ _ _ E1)) as [H1 _].
  establish E0 (λ p : BatchPlanner demo_tier, holds_after (plan Chain.toy_digest p) (λ x, bool_decide (running x.2 = [0; 1]))).
  pose proof (holds_after_Ok _ _ _ E1 Hfact) as Hrun%bool_decide_eq_true. cbn in Hrun.
  apply emit_wf; [apply emit_wf| |]; try done; cbn; rewrite Hrun; set_solver.
Qed.

Lemma two_fresh : 2 ∉ [0; 1].
Proof. set_solver. Qed.

Lemma plan_total_and_sound_witness :
  ∃ p out p', demo_start 8 prompt_a prompt_b = Ok p ∧
    plan Chain.toy_digest p = Ok (out, p') ∧ prefill out = [0; 1] ∧ plan_sound out p'.
Proof.
  destruct (demo_start 8 prompt_a prompt_b) as [p|] eqn:E0; [|vm_compute in E0; discriminate].
  destruct (plan_total_and_sound Chain.toy_digest Chain.toy_digest_ok 2 p) as (out & p' & E & Hs & _).
  { exact (demo_start_reachable _ _ _ _ (proj1 prompts_tokens) (proj2 prompts_tokens) E0). }
  establish E0 (λ p : BatchPlanner demo_tier, holds_after (plan Chain.toy_digest p) (λ x, bool_decide (prefill x.1 = [0; 1]))).
  pose proof (holds_after_Ok _ _ _ E Hfact) as Hp%bool_decide_eq_true.
  exists p, out, p'. split_and!; [reflexivity|exact E|exact Hp|exact Hs].
Defined.

Lemma slots_and_queues_consistent_witness :
  ∃ p, demo_start 8 prompt_a prompt_b = Ok p ∧
    free_slots p ++ omap (slot_of p) (running p) ≡ₚ [0; 1] ∧ length (waiting p) = 2.
Proof.
  destruct (demo_start 8 prompt_a prompt_b) as [p|] eqn:E0; [|vm_compute in E0; discriminate].
  destruct (slots_and_queues_consistent Chain.toy_digest Chain.toy_digest_ok 2 p) as (Hs & _).
  { exact (demo_start_reachable _ _ _ _ (proj1 prompts_tokens) (proj2 prompts_tokens) E0). }
  establish E0 (λ p : BatchPlanner demo_tier, bool_decide (length (waiting p) = 2)).
  exists p. split_and!; [reflexivity|exact Hs|by apply bool_decide_eq_true in Hfact].
Defined.

Lemma idle_planner_holds_no_block_witness :
  ∃ p, demo_start 8 prompt_a prompt_b = Ok p ∧ running p = [] ∧
    Pool.num_free_blocks (Cache.pool (prefix_cache p)) = 7%Z.
Proof.
  destruct (demo_start 8 prompt_a prompt_b) as [p|] eqn:E0; [|vm_compute in E0; discriminate].
  destruct (idle_planner_holds_no_block Chain.toy_digest Chain.toy_digest_ok 2 p) as (_ & Hf).
  { exact (demo_start_reachable _ _ _ _ (proj1 prompts_tokens) (proj2 prompts_tokens) E0). }
  establish E0 (λ p : BatchPlanner demo_tier, bool_decide (running p = [] ∧ Pool.num_blocks (Cache.pool (prefix_cache p)) = 8)).
  apply bool_decide_eq_true in Hfact as [Hr Hn].
  exists p. split_and!; [reflexivity|exact Hr|]. rewrite Hf, Hn by done. reflexivity.
Defined.

Lemma admission_fcfs_within_budget_witness :
  ∃ p k w p', demo_start 8 prompt_a prompt_b = Ok p ∧
    _admit Chain.toy_digest (MkWork [] [] []) p = Ok (w, p') ∧ w_prefill w = take k [0; 1] ∧
    length (w_prefill w) = 2.
Proof.
  destruct (demo_start 8 prompt_a prompt_b) as [p|] eqn:E0; [|vm_compute in E0; discriminate].
  pose proof (demo_start_reachable _ _ _ _ (proj1 prompts_tokens) (proj2 prompts_tokens) E0) as Hr.
  destruct (reachable_wf _ Chain.toy_digest_ok 2 p Hr) as [Hwf _].
  destruct (admission_fcfs_within_budget _ Chain.toy_digest_ok p (MkWork [] [] []) p Hwf (planned_nothing p))
    as (k & w & p' & E & _ & _ & Hk & _).
  establish E0 (λ p : BatchPlanner demo_tier, holds_after (_admit Chain.toy_digest (MkWork [] [] []) p)
    (λ x, bool_decide (length (w_prefill x.1) = 2))).
  pose proof (holds_after_Ok _ _ _ E Hfact) as Hl%bool_decide_eq_true.
  clear Hfact. establish E0 (λ p : BatchPlanner demo_tier, bool_decide ((waiting p).*2 = [0; 1])).
  apply bool_decide_eq_true in Hfact as Hq. rewrite Hq in Hk.
  exists p, k, w, p'. split_and!; [reflexivity|exact E|exact Hk|exact Hl].
Defined.

Lemma add_request_exact_witness :
  ∃ p p', demo_start 8 prompt_a prompt_b = Ok p ∧
    add_request 2 (new_object 2 (demo_request "c" [1]%Z) p) = Ok p' ∧
    waiting p' = waiting p ++ [("c"%string, 2)].
Proof.
  destruct (demo_start 8 prompt_a prompt_b) as [p|] eqn:E0; [|vm_compute in E0; discriminate].
  pose proof (demo_start_reachable _ _ _ _ (proj1 prompts_tokens) (proj2 prompts_tokens) E0) as Hr.
  destruct (reachable_wf _ Chain.toy_digest_ok 2 p Hr) as [Hwf _].
  establish E0 (λ p : BatchPlanner demo_tier, bool_decide
    (live p = [0; 1] ∧ has_request_id "c" p = false ∧ max_seq_len (config p) = 64)).
  apply bool_decide_eq_true in Hfact as Hl. clear Hfact.
  assert (H2 : 2 ∉ live p) by (rewrite (proj1 Hl); exact two_fresh).
  pose proof (add_request_exact Chain.toy_digest (new_object 2 (demo_request "c" [1]%Z) p) 2
    (demo_request "c" [1]%Z) (new_object_wf _ p 2 _ Hwf H2) H2 (lookup_insert_eq _ _ _)
    ltac:(split_and!; repeat constructor; done)) as Ha.
  rewrite decide_True in Ha.
  - destruct Ha as (p' & r' & E & _ & Hw & _).
    exists p, p'. split_and!; [reflexivity|exact E|exact Hw].
  - cbn [config new_object set_heap]. rewrite (proj2 (proj2 Hl)).
    change (has_request_id _ _) with (has_request_id "c" p). split; [apply Hl|].
    unfold Req.prompt_len. cbn. lia.
Defined.

Lemma finish_releases_witness :
  ∃ p p', demo_running = Ok p ∧ finish Chain.toy_digest 0 "eos" p = Ok p' ∧
    live p ≡ₚ 0 :: live p' ∧ Cache.block_ids "a" (prefix_cache p') = [[]].
Proof.
  destruct demo_running as [p|] eqn:E0; [|vm_compute in E0; discriminate].
  pose proof (demo_running_wf p E0) as Hwf.
  establish E0 (λ p : BatchPlanner demo_tier, bool_decide (live p = [0; 1]) &&
    from_option (λ r, bool_decide (Req.request_id r = "a"%string)) false (heap p !! 0)).
  apply andb_prop in Hfact as [Hl%bool_decide_eq_true Hfact].
  destruct (heap p !! 0) as [r|] eqn:Hr; [|discriminate].
  apply bool_decide_eq_true in Hfact as Hid. clear Hfact.
  destruct (finish_releases _ Chain.toy_digest_ok p 0 r "eos" Hwf ltac:(rewrite Hl; left) Hr)
    as (p' & r' & E & _ & _ & _ & _ & _ & _ & Hlive & _ & _ & Hb & _).
  exists p, p'. rewrite Hid in Hb. split_and!; [reflexivity|exact E|exact Hlive|exact Hb].
Defined.

Lemma preempt_keeps_tokens_witness :
  ∃ p p' r', demo_running = Ok p ∧ preempt 0 p = Ok p' ∧ heap p' !! 0 = Some r' ∧
    Req.prompt_token_ids r' = [5; 6; 7; 20]%Z.
Proof.
  destruct demo_running as [p|] eqn:E0; [|vm_compute in E0; discriminate].
  pose proof (demo_running_wf p E0) as Hwf.
  establish E0 (λ p : BatchPlanner demo_tier, bool_decide (running p = [0; 1]) &&
    from_option (λ r, bool_decide (Req.prompt_token_ids r ++ Req.output_token_ids r = [5; 6; 7; 20]%Z)) false (heap p !! 0)).
  apply andb_prop in Hfact as [Hl%bool_decide_eq_true Hfact].
  destruct (heap p !! 0) as [r|] eqn:Hr; [|discriminate].
  apply bool_decide_eq_true in Hfact as Hid. clear Hfact.
  destruct (preempt_keeps_tokens Chain.toy_digest p 0 r Hwf ltac:(rewrite Hl; left) Hr)
    as (p' & r' & E & _ & Hr' & Hp & _).
  exists p, p', r'. rewrite Hid in Hp. split_and!; [reflexivity|exact E|exact Hr'|exact Hp].
Defined.

Lemma victim_is_youngest_eligible_witness :
  ∃ p p', demo_running = Ok p ∧ preempt_victim [] p = Ok (Some 1, p') ∧ preempt 1 p = Ok p'.
Proof.
  destruct demo_running as [p|] eqn:E0; [|vm_compute in E0; discriminate].
  pose proof (demo_running_wf p E0) as Hwf.
  destruct (victim_is_youngest_eligible Chain.toy_digest [] p Hwf) as (v & p' & E & Hv).
  establish E0 (λ p : BatchPlanner demo_tier, holds_after (preempt_victim [] p) (λ x, bool_decide (x.1 = Some 1))).
  pose proof (holds_after_Ok _ _ _ E Hfact) as Hv1%bool_decide_eq_true. cbn in Hv1. subst v.
  exists p, p'. split_and!; [reflexivity|exact E|apply Hv].
Defined.

Lemma reserve_or_exhaust_witness :
  ∃ p vs p', demo_running = Ok p ∧ reserve 0 60 [] [] p = Ok (true, vs, p') ∧
    Client.covers (prefix_cache p') "a" 60.
Proof.
  destruct demo_running as [p|] eqn:E0; [|vm_compute in E0; discriminate].
  pose proof (demo_running_wf p E0) as Hwf.
  establish E0 (λ p : BatchPlanner demo_tier, bool_decide (running p = [0; 1]) &&
    from_option (λ r, bool_decide (Req.request_id r = "a"%string)) false (heap p !! 0)).
  apply andb_prop in Hfact as [Hl%bool_decide_eq_true Hfact].
  destruct (heap p !! 0) as [r|] eqn:Hr; [|discriminate].
  apply bool_decide_eq_true in Hfact as Hid. clear Hfact.
  destruct (reserve_or_exhaust Chain.toy_digest p 0 r 60 [] [] Hwf ltac:(rewrite Hl; left) Hr)
    as (ok & vs & p' & E & _ & Hc & _).
  establish E0 (λ p : BatchPlanner demo_tier, holds_after (reserve 0 60 [] [] p) (λ x, x.1.1)).
  pose proof (holds_after_Ok _ _ _ E Hfact) as Hok. cbn in Hok. subst ok.
  exists p, vs, p'. rewrite Hid in Hc. split_and!; [reflexivity|exact E|exact (Hc eq_refl)].
Defined.

Lemma reserve_speculative_fits_witness :
  ∃ p k p', demo_running = Ok p ∧ reserve_speculative 0 20 p = Ok (k, p') ∧ k = 20 ∧
    Client.covers (prefix_cache p') "a" 24.
Proof.
  destruct demo_running as [p|] eqn:E0; [|vm_compute in E0; discriminate].
  pose proof (demo_running_wf p E0) as Hwf.
  establish E0 (λ p : BatchPlanner demo_tier, bool_decide (running p = [0; 1]) &&
    from_option (λ r, bool_decide (Req.request_id r = "a"%string ∧ Req.seq_len r = 4)) false (heap p !! 0)).
  apply andb_prop in Hfact as [Hl%bool_decide_eq_true Hfact].
  destruct (heap p !! 0) as [r|] eqn:Hr; [|discriminate].
  apply bool_decide_eq_true in Hfact as [Hid Hlen].
  destruct (reserve_speculative_fits Chain.toy_digest p 0 r 20 Hwf ltac:(rewrite Hl; left) Hr)
    as (k & p' & E & _ & _ & Hc & _).
  establish E0 (λ p : BatchPlanner demo_tier, holds_after (reserve_speculative 0 20 p) (λ x, bool_decide (x.1 = 20))).
  pose proof (holds_after_Ok _ _ _ E Hfact) as Hk%bool_decide_eq_true. cbn in Hk. subst k.
  rewrite Hid, Hlen in Hc. exists p, 20, p'. split_and!; [reflexivity|exact E|reflexivity|].
  apply Hc. lia.
Defined.

Lemma default_pool_holds_full_contexts_witness :
  ¬ 2 * ((20 + 15) / 16) ≤ default_num_blocks (MkConfig 20 2 20 true 16 true None false 0) 2 - 1.
Proof.
  intros Hle.
  apply (default_pool_holds_full_contexts (MkConfig 20 2 20 true 16 true None false 0) 2) in Hle;
    [|lia|cbn; lia].
  destruct Hle as [H|[H _]]; vm_compute in H; discriminate.
Defined.
(** ** Two prompts that stop each other *)

(** Two prompts of 40 tokens, and a pool that holds one whole context of 64:
    four usable blocks, of which each prompt needs three. *)
Definition long_a : list Z := replicate 40 1%Z.
Definition long_b : list Z := replicate 40 2%Z.

Lemma longs_tokens : Forall Chain.is_token long_a ∧ Forall Chain.is_token long_b.
Proof. split; apply Forall_replicate; done. Qed.

Definition after_plan (p : BatchPlanner demo_tier) : result (BatchPlanner demo_tier) :=
  '(_, p) ← plan Chain.toy_digest p; Ok p.

(** Three steps in, each prompt holds two blocks and asks for a third. *)
Definition stuck_start : result (BatchPlanner demo_tier) :=
  p ← demo_start 5 long_a long_b; p ← after_plan p; p ← after_plan p; after_plan p.

Lemma after_plan_reachable p p' :
  after_plan p = Ok p' → reachable Chain.toy_digest 2 p → reachable Chain.toy_digest 2 p'.
Proof.
  intros ([o p1] & E1 & [= <-])%bind_Ok (raw & cfg & nb & q & Hc & Hi & Hrun).
  exists raw, cfg, nb, q. split_and!; [exact Hc|exact Hi|].
  eapply rtc_r; [exact Hrun|exact (step_plan _ _ _ _ E1)].
Qed.

Lemma stuck_reachable p : stuck_start = Ok p → reachable Chain.toy_digest 2 p.
Proof.
  intros (p0 & E0 & (p1 & E1 & (p2 & E2 & E3)%bind_Ok)%bind_Ok)%bind_Ok.
  apply (after_plan_reachable p2 p E3), (after_plan_reachable p1 p2 E2), (after_plan_reachable p0 p1 E1).
  exact (demo_start_reachable _ _ _ _ (proj1 longs_tokens) (proj2 longs_tokens) E0).
Qed.

#[local] Instance SchedulerConfig_eq_dec : EqDecision SchedulerConfig.
Proof. solve_decision. Defined.

(** The plans of the next [n] steps, with nothing submitted or aborted. *)
Fixpoint next_plans (n : nat) (p : BatchPlanner demo_tier) : result (list StepPlan * BatchPlanner demo_tier) :=
  match n with
  | 0 => Ok ([], p)
  | S n => '(out, p) ← plan Chain.toy_digest p; '(more, p) ← next_plans n p; Ok (out :: more, p)
  end.

Lemma next_plans_fixed out p n : plan Chain.toy_digest p = Ok (out, p) → next_plans n p = Ok (replicate n out, p).
Proof.
  intros E. induction n as [|n IH]; [done|]. cbn [next_plans]. rewrite E. cbn [mbind result_bind]. by rewrite IH.
Qed.

(** A prompt under way: running, not past its prefill, and shorter than the
    context. *)
Definition prefilling (p : BatchPlanner demo_tier) (o : nat) : bool :=
  match heap p !! o with
  | Some r => bool_decide (Req.status r = Req.RUNNING ∧ Req.prefill_done r = false ∧
      Req.prompt_len r < max_seq_len (config p))
  | None => false
  end.

(** C35: Chunked prefill can stop for good.  A planner is reachable, on a
    configuration [make_config] accepts, whose pool has usable blocks for a whole
    context, so each of its two prompts would fit by itself; but the two, both
    running and both unfinished with their prefill, have each taken half of
    the blocks and refuse each other the next one.  No request is past prefill,
    so there is no victim to evict, and for ever after, as long as nothing is
    submitted or aborted, every plan is empty and the planner stays as it is. *)
Theorem prefill_livelock :
  ∃ raw p, make_config raw = Ok (config p) ∧ reachable Chain.toy_digest 2 p ∧
    max_seq_len (config p) ≤ 16 * (Pool.num_blocks (Cache.pool (prefix_cache p)) - 1) ∧
    Pool.num_free_blocks (Cache.pool (prefix_cache p)) = 0%Z ∧
    running p = [0; 1] ∧ waiting p = [] ∧ Forall (prefilling p) (running p) ∧
    ∀ n, next_plans n p = Ok (replicate n (MkPlan [] [] [] []), p).
Proof.
  destruct stuck_start as [p|e] eqn:E0; [|vm_compute in E0; discriminate].
  exists (demo_config 5), p. pose proof (stuck_reachable p E0) as Hr.
  establish E0 (λ p : BatchPlanner demo_tier,
    match make_config (demo_config 5) with Ok cfg => bool_decide (cfg = config p) | Err _ => false end &&
    bool_decide (max_seq_len (config p) ≤ 16 * (Pool.num_blocks (Cache.pool (prefix_cache p)) - 1) ∧
      Pool.num_free_blocks (Cache.pool (prefix_cache p)) = 0%Z ∧ running p = [0; 1] ∧ waiting p = []) &&
    forallb (prefilling p) (running p)).
  apply andb_true_iff in Hfact as [Hfact Hpre]. apply andb_true_iff in Hfact as [Hcfg Hfact].
  apply bool_decide_eq_true in Hfact as (H1 & H2 & H3 & H4).
  destruct (make_config (demo_config 5)) as [cfg|e] eqn:Ec; [|discriminate Hcfg]. apply bool_decide_eq_true in Hcfg as ->.
  split_and!; [done|done|done|done|done|done| |].
  - apply Forall_forall. intros o Ho%list_elem_of_In. rewrite forallb_forall in Hpre. by rewrite (Hpre o Ho).
  - intros n. apply next_plans_fixed. vm_compute in E0. injection E0 as <-. vm_compute. reflexivity.
Qed.

End PlannerSpec.
