(* ===== verification/PyText.v ===== *)
(** * Python strings as the stream parsers use them

    A string is a list of code points; [find], [startswith] and [endswith] are
    Python's, and slices with non-negative bounds are [take] and [drop]. *)

From S2P Require Export Prelude.
From Stdlib Require Import Ascii.

Module Text.

Definition text : Type := list Z.

(** A literal of the source. *)
Fixpoint lit (s : String.string) : text :=
  match s with
  | String.EmptyString => []
  | String.String c s => Z.of_nat (Ascii.nat_of_ascii c) :: lit s
  end.

Definition startswith (t tag : text) : bool := bool_decide (tag `prefix_of` t).
Definition endswith (t tag : text) : bool := bool_decide (tag `suffix_of` t).

(** [text.find(tag)]; [None] is Python's -1. *)
Fixpoint find (tag t : text) : option nat :=
  if startswith t tag then Some 0
  else match t with
       | [] => None
       | _ :: t' => S <$> find tag t'
       end.

(** [text[:len(text) - n]] and [text[-n:]] for [n <= len(text)], [n > 0]. *)
Definition cut (n : nat) (t : text) : text := take (length t - n) t.
Definition tail (n : nat) (t : text) : text := drop (length t - n) t.

Section Find.
Implicit Types (t b e x tag : text) (i j k : nat).

Lemma startswith_spec t tag : startswith t tag = true ↔ tag `prefix_of` t.
Proof. apply bool_decide_eq_true. Qed.
Lemma startswith_false t tag : startswith t tag = false ↔ ¬ tag `prefix_of` t.
Proof. apply bool_decide_eq_false. Qed.

Lemma prefix_split t1 t2 b : t1 `prefix_of` t2 ++ b → t1 `prefix_of` t2 ∨ ∃ b', t1 = t2 ++ b' ∧ b' `prefix_of` b.
Proof.
  intros [x Hx]. apply app_eq_inv in Hx as [(y & -> & ->)|(y & -> & ->)].
  - left. by eexists.
  - right. exists y. split; [done|by eexists].
Qed.

Lemma find_Some tag t i :
  find tag t = Some i →
  tag `prefix_of` drop i t ∧ i ≤ length t ∧ ∀ j, j < i → ¬ tag `prefix_of` drop j t.
Proof.
  revert i. induction t as [|c t IH]; intros i; cbn.
  - destruct (startswith [] tag) eqn:Es; [|done]. intros [= <-].
    split_and!; [by apply startswith_spec|done|lia].
  - destruct (startswith (c :: t) tag) eqn:Es.
    + intros [= <-]. split_and!; [by apply startswith_spec|lia|lia].
    + intros (i' & Hf & ->)%fmap_Some. destruct (IH i' Hf) as (H1 & H2 & H3).
      split_and!; [done|lia|]. intros [|j] Hj; [by apply startswith_false in Es|]. apply H3. lia.
Qed.
Lemma find_None tag t : find tag t = None → ∀ j, j ≤ length t → ¬ tag `prefix_of` drop j t.
Proof.
  induction t as [|c t IH]; cbn.
  - destruct (startswith [] tag) eqn:Es; [done|]. intros _ j Hj. rewrite drop_nil.
    by apply startswith_false.
  - destruct (startswith (c :: t) tag) eqn:Es; [done|]. intros Hf [|j] Hj; [by apply startswith_false|].
    apply IH; [by destruct (find tag t)|lia].
Qed.

(** Characters where no occurrence starts only shift the answer. *)
Lemma find_skip tag e x :
  (∀ j, j < length e → ¬ tag `prefix_of` drop j (e ++ x)) →
  find tag (e ++ x) = (λ i, length e + i) <$> find tag x.
Proof.
  induction e as [|c e IH]; intros Hno; [change ([] ++ x) with x; by destruct (find tag x)|].
  cbn [app find]. rewrite (proj2 (startswith_false (c :: e ++ x) tag)) by (apply (Hno 0); cbn; lia).
  rewrite IH by (intros j Hj; apply (Hno (S j)); cbn; lia). by destruct (find tag x).
Qed.

(** An occurrence stays where it is when text arrives. *)
Lemma find_app tag t b i : find tag t = Some i → find tag (t ++ b) = Some i.
Proof.
  revert i. induction t as [|c t IH]; intros i; cbn [app find].
  - destruct (startswith [] tag) eqn:Es; [|done]. intros [= <-].
    apply startswith_spec, prefix_nil_inv in Es as ->. by destruct b.
  - destruct (startswith (c :: t) tag) eqn:Es.
    + intros [= <-]. by rewrite (proj2 (startswith_spec (c :: t ++ b) tag))
        by (apply startswith_spec in Es; by apply (prefix_app_r _ (c :: t))).
    + intros (i' & Hf & ->)%fmap_Some. destruct (find_Some _ _ _ Hf) as (Hp & Hl & _).
      rewrite (IH i' Hf). cbn. apply startswith_false in Es.
      rewrite (proj2 (startswith_false (c :: t ++ b) tag)); [done|].
      intros Hpre. apply Es. change (c :: t ++ b) with ((c :: t) ++ b) in Hpre.
      apply prefix_split in Hpre as [|(b' & -> & _)]; [done|exfalso].
      apply prefix_length in Hp. rewrite length_drop, length_app in Hp. cbn in Hp. lia.
Qed.
Lemma find_bound tag t i : find tag t = Some i → i + length tag ≤ length t.
Proof.
  intros (Hp & Hl & _)%find_Some. apply prefix_length in Hp. rewrite length_drop in Hp. lia.
Qed.
End Find.
End Text.
