(* ===== verification/Reasoning.v ===== *)
(** * Think-block splitting (reasoning.py)

    The two-channel state machine over the think-block markup, and its
    contract: any split of the text into deltas gives, concatenated, what one
    call on the whole text gives. *)

From S2P Require Export PyText.

Module Reasoning.
Import Text.

Definition _tag (name : String.string) : text := lit "<" ++ lit name ++ lit ">".
Definition _OPEN : text := _tag "think".
Definition _CLOSE : text := _tag "/think".

(** The longest suffix of the text that is a proper prefix of the tag: the
    loop over lengths, downwards. *)
Fixpoint partial_len (t tag : text) (length : nat) : nat :=
  match length with
  | 0 => 0
  | S n => if endswith t (take length tag) then length else partial_len t tag n
  end.
Definition _partial_suffix (t tag : text) : text :=
  tail (partial_len t tag (Nat.min (length t) (length tag - 1))) t.

Inductive phase := OPENING | THINKING | CONTENT.

Record ReasoningSplitter := Splitter {
  _state : phase;
  _held : text;
}.

Definition init (starts_inside : bool) : ReasoningSplitter :=
  Splitter (if starts_inside then THINKING else OPENING) [].

(** [for_family] *)
Definition for_family (name : String.string) : result ReasoningSplitter :=
  if String.eqb name "deepseek_r1" then Ok (init true) else Err ValueError.

Definition _feed_thinking (t : text) : (text * text) * ReasoningSplitter :=
  match find _CLOSE t with
  | Some index => ((take index t, drop (index + length _CLOSE) t), Splitter CONTENT [])
  | None =>
      let held := _partial_suffix t _CLOSE in
      ((cut (length held) t, []), Splitter THINKING held)
  end.

Definition _feed_opening (t : text) : (text * text) * ReasoningSplitter :=
  if startswith t _OPEN then _feed_thinking (drop (length _OPEN) t)
  else if startswith _OPEN t then (([], []), Splitter OPENING t)
  else (([], t), Splitter CONTENT []).

Definition feed (delta : text) (s : ReasoningSplitter) : (text * text) * ReasoningSplitter :=
  match _state s with
  | CONTENT => (([], delta), s)
  | OPENING => _feed_opening (_held s ++ delta)
  | THINKING => _feed_thinking (_held s ++ delta)
  end.

Definition finish (s : ReasoningSplitter) : (text * text) * ReasoningSplitter :=
  let held := _held s in
  let s := Splitter (_state s) [] in
  match _state s with
  | OPENING => (([], held), s)
  | _ => ((held, []), s)
  end.

(** The two channels, concatenated. *)
Definition join (o1 o2 : text * text) : text * text := (o1.1 ++ o2.1, o1.2 ++ o2.2).

Definition parse (t : text) (starts_inside : bool) : text * text :=
  let '(o, s) := feed t (init starts_inside) in
  join o (finish s).1.

(** A client: deltas in order, then the end of the stream. *)
Fixpoint feed_all (deltas : list text) (s : ReasoningSplitter) : (text * text) * ReasoningSplitter :=
  match deltas with
  | [] => (([], []), s)
  | d :: deltas =>
      let '(o1, s) := feed d s in
      let '(o2, s) := feed_all deltas s in
      (join o1 o2, s)
  end.
Definition stream (deltas : list text) (starts_inside : bool) : text * text :=
  let '(o, s) := feed_all deltas (init starts_inside) in
  join o (finish s).1.

(** ** The held tail *)

Section Held.
Implicit Types (t b e h x tag : text) (i j k n : nat).

Lemma endswith_tail t tag k :
  k ≤ length t → k ≤ length tag → endswith t (take k tag) = true ↔ tail k t = take k tag.
Proof.
  intros Ht Htag. unfold endswith, tail. rewrite bool_decide_eq_true. split.
  - intros [x Hx]. assert (Hl : length x = length t - k).
    { rewrite Hx at 1. rewrite length_app, length_take. lia. }
    rewrite <- Hl. rewrite Hx at 1. by rewrite drop_app_length.
  - intros <-. apply suffix_drop.
Qed.

Lemma partial_len_spec t tag n :
  n ≤ length t → n ≤ length tag →
  partial_len t tag n ≤ n ∧ tail (partial_len t tag n) t = take (partial_len t tag n) tag ∧
  ∀ k, k ≤ n → tail k t = take k tag → k ≤ partial_len t tag n.
Proof.
  induction n as [|n IH]; intros Ht Htag; cbn [partial_len].
  - split_and!; [done|unfold tail; rewrite Nat.sub_0_r, drop_all; done|lia].
  - destruct (endswith t (take (S n) tag)) eqn:Ee.
    + split_and!; [done|by apply endswith_tail|lia].
    + destruct IH as (H1 & H2 & H3); [lia..|]. split_and!; [lia|done|]. intros k Hk Hkt.
      destruct (decide (k = S n)) as [->|]; [|apply H3; [lia|done]].
      apply (endswith_tail t tag) in Hkt; [congruence|lia..].
Qed.

Lemma length_tail k t : k ≤ length t → length (tail k t) = k.
Proof. intros Hk. unfold tail. rewrite length_drop. lia. Qed.
Lemma tail_app k t b : k ≤ length b → tail k (t ++ b) = tail k b.
Proof.
  intros Hk. unfold tail. rewrite length_app, drop_app_ge by lia. f_equal. lia.
Qed.
Lemma cut_app k e x : k ≤ length x → cut k (e ++ x) = e ++ cut k x.
Proof.
  intros Hk. unfold cut. rewrite length_app, take_app_ge by lia. f_equal. f_equal. lia.
Qed.
Lemma cut_tail k t : cut k t ++ tail k t = t.
Proof. apply take_drop. Qed.

(** What is held: a suffix, a proper prefix of the tag, and the longest such. *)
Lemma partial_suffix_spec t tag :
  tag ≠ [] →
  let h := _partial_suffix t tag in
  length h ≤ length t ∧ length h < length tag ∧ h = tail (length h) t ∧ h = take (length h) tag ∧
  ∀ k, k ≤ length t → k < length tag → tail k t = take k tag → k ≤ length h.
Proof.
  intros Htag h. assert (Hpos : 0 < length tag) by (destruct tag; [done|cbn; lia]).
  destruct (partial_len_spec t tag (Nat.min (length t) (length tag - 1))) as (H1 & H2 & H3); [lia..|].
  set (k0 := partial_len t tag (Nat.min (length t) (length tag - 1))) in *.
  assert (Hl : length h = k0) by (apply length_tail; lia).
  rewrite Hl. split_and!; [lia|lia|done|done|]. intros k Hk Hkt. apply H3. lia.
Qed.

(** Text already ruled out cannot take part in an occurrence. *)
Lemma find_held t b tag :
  tag ≠ [] → find tag t = None →
  let h := _partial_suffix t tag in
  find tag (t ++ b) = (λ i, length (cut (length h) t) + i) <$> find tag (h ++ b).
Proof.
  intros Htag Hf h. destruct (partial_suffix_spec t tag Htag) as (H1 & H2 & H3 & H4 & H5).
  fold h in H1, H2, H3, H4, H5. set (e := cut (length h) t).
  assert (Hle : length e = length t - length h) by (unfold e, cut; rewrite length_take; lia).
  assert (Ht : t = e ++ h) by (rewrite H3; symmetry; apply cut_tail).
  rewrite Ht at 1. rewrite <- app_assoc. apply find_skip. intros j Hj Hocc.
  rewrite app_assoc, <- Ht, drop_app_le in Hocc by lia.
  apply prefix_split in Hocc as [Hocc|(b' & Hocc & _)].
  - apply (find_None _ _ Hf j); [lia|done].
  - destruct b' as [|c b'].
    { rewrite app_nil_r in Hocc. apply (find_None _ _ Hf j); [lia|]. by rewrite Hocc. }
    assert (length t - j ≤ length h); [|lia].
    assert (Hlt : length tag = length t - j + S (length b')).
    { rewrite Hocc, length_app, length_drop. cbn. lia. }
    apply H5; [lia|lia|]. unfold tail. replace (length t - (length t - j)) with j by lia.
    rewrite Hocc, take_app_le, take_ge; rewrite ?length_drop; done || lia.
Qed.

Lemma partial_suffix_held t b tag :
  tag ≠ [] →
  let h := _partial_suffix t tag in
  _partial_suffix (t ++ b) tag = _partial_suffix (h ++ b) tag.
Proof.
  intros Htag h. destruct (partial_suffix_spec t tag Htag) as (H1 & H2 & H3 & H4 & H5).
  fold h in H1, H2, H3, H4, H5.
  assert (Ht : t = cut (length h) t ++ h) by (rewrite H3 at 2; symmetry; apply cut_tail).
  destruct (partial_suffix_spec (t ++ b) tag Htag) as (A1 & A2 & A3 & A4 & A5).
  destruct (partial_suffix_spec (h ++ b) tag Htag) as (B1 & B2 & B3 & B4 & B5).
  set (x := _partial_suffix (t ++ b) tag) in *. set (y := _partial_suffix (h ++ b) tag) in *.
  assert (Htail : ∀ k, k ≤ length (h ++ b) → tail k (t ++ b) = tail k (h ++ b)).
  { intros k Hk. rewrite Ht, <- app_assoc. by apply tail_app. }
  assert (Hx : length x ≤ length (h ++ b)).
  { destruct (decide (length x ≤ length (h ++ b))) as [|Hgt]; [done|exfalso].
    rewrite length_app in A1, Hgt. set (k := length x - length b).
    assert (k ≤ length h); [|lia]. apply H5; [lia|lia|].
    assert (A6 : tail (length x) (t ++ b) = take (length x) tag) by (by rewrite <- A3).
    unfold tail in A6. rewrite length_app, drop_app_le in A6 by lia.
    apply (f_equal (take k)) in A6. rewrite take_take, Nat.min_l in A6 by lia. rewrite <- A6.
    unfold tail. rewrite take_app_le by (rewrite length_drop; lia).
    rewrite take_ge by (rewrite length_drop; lia). f_equal. lia. }
  assert (length x = length y) as Hxy.
  { apply Nat.le_antisymm.
    - apply B5; [done|done|]. rewrite <- Htail by done. congruence.
    - apply A5; [rewrite length_app in *; lia|done|]. rewrite Htail by done. congruence. }
  rewrite A4, B4. by rewrite Hxy.
Qed.

Lemma cut_held t b tag :
  tag ≠ [] →
  let h := _partial_suffix t tag in
  let h' := _partial_suffix (h ++ b) tag in
  cut (length h') (t ++ b) = cut (length h) t ++ cut (length h') (h ++ b).
Proof.
  intros Htag h h'. destruct (partial_suffix_spec t tag Htag) as (H1 & _ & H3 & _ & _).
  fold h in H1, H3. destruct (partial_suffix_spec (h ++ b) tag Htag) as (B1 & _). fold h' in B1.
  assert (Ht : t = cut (length h) t ++ h) by (rewrite H3 at 2; symmetry; apply cut_tail).
  rewrite Ht at 1. rewrite <- app_assoc. by apply cut_app.
Qed.
End Held.

(** ** Chunking *)

Section Chunking.
Implicit Types (t a b : text) (s : ReasoningSplitter).

(** Two calls in a row. *)
Definition after (r : (text * text) * ReasoningSplitter) b : (text * text) * ReasoningSplitter :=
  let '(o2, s) := feed b r.2 in (join r.1 o2, s).

Lemma close_ne : _CLOSE ≠ [].
Proof. done. Qed.

Lemma feed_thinking_app t b : _feed_thinking (t ++ b) = after (_feed_thinking t) b.
Proof.
  unfold _feed_thinking at 2. destruct (find _CLOSE t) as [i|] eqn:Ef.
  - unfold _feed_thinking, after. rewrite (find_app _ _ b _ Ef). pose proof (find_bound _ _ _ Ef) as Hb.
    unfold feed, join; cbn [fst snd _state]. rewrite take_app_le, drop_app_le by lia.
    by rewrite app_nil_r.
  - pose proof (partial_suffix_spec t _CLOSE close_ne) as (H1 & _ & H3 & _).
    set (h := _partial_suffix t _CLOSE) in *. set (e := cut (length h) t).
    assert (Ht : t = e ++ h) by (unfold e; rewrite H3 at 2; symmetry; apply cut_tail).
    unfold after, feed. cbn [fst snd _state _held]. unfold _feed_thinking.
    rewrite (find_held t b _CLOSE close_ne Ef). fold h e.
    destruct (find _CLOSE (h ++ b)) as [i|]; cbn [fmap option_fmap option_map]; unfold join; cbn [fst snd].
    + rewrite Ht, <- app_assoc, take_app_add, <- Nat.add_assoc, drop_app_add. done.
    + rewrite (partial_suffix_held t b _CLOSE close_ne). fold h.
      pose proof (cut_held t b _CLOSE close_ne) as Hc. cbv zeta in Hc. fold h e in Hc. by rewrite Hc.
Qed.

Lemma feed_opening_app t b : _feed_opening (t ++ b) = after (_feed_opening t) b.
Proof.
  unfold _feed_opening at 2. destruct (startswith t _OPEN) eqn:E1.
  - apply startswith_spec in E1 as [x ->]. unfold _feed_opening.
    rewrite <- app_assoc, (proj2 (startswith_spec (_OPEN ++ x ++ b) _OPEN)) by (by eexists).
    rewrite !drop_app_length. apply feed_thinking_app.
  - destruct (startswith _OPEN t) eqn:E2.
    + unfold after, feed. cbn [fst snd _state _held]. by destruct (_feed_opening (t ++ b)) as [[o1 o2] s].
    + unfold after, feed, join, _feed_opening; cbn [fst snd _state].
      apply startswith_false in E1, E2.
      rewrite (proj2 (startswith_false (t ++ b) _OPEN)), (proj2 (startswith_false _OPEN (t ++ b))); [done| |].
      * intros Hp. apply E2. by eapply prefix_app_l.
      * intros Hp%prefix_split. destruct Hp as [|(b' & Hb & _)]; [done|]. apply E2. rewrite Hb. by eexists.
Qed.

Lemma feed_app a b s : feed (a ++ b) s = after (feed a s) b.
Proof.
  unfold feed at 1 2. destruct (_state s) eqn:Es.
  - by rewrite app_assoc, feed_opening_app.
  - by rewrite app_assoc, feed_thinking_app.
  - unfold after, feed, join. cbn [fst snd]. by rewrite Es.
Qed.

(** Feeding nothing to a fresh splitter. *)
Lemma feed_nil_init starts_inside : feed [] (init starts_inside) = (([], []), init starts_inside).
Proof. by destruct starts_inside. Qed.

Lemma feed_all_concat deltas d s :
  feed_all (d :: deltas) s = feed (d ++ concat deltas) s.
Proof.
  revert d s. induction deltas as [|d' deltas IH]; intros d s.
  - cbn. rewrite app_nil_r. destruct (feed d s) as [[o1 o2] s']. unfold join; cbn. by rewrite !app_nil_r.
  - change (feed_all (d :: d' :: deltas) s) with
      (let '(o1, s) := feed d s in let '(o2, s) := feed_all (d' :: deltas) s in (join o1 o2, s)).
    rewrite feed_app. unfold after. destruct (feed d s) as [o1 s1]. cbn [fst snd].
    by rewrite IH.
Qed.

(** The thinking section and what follows it, where there is one. *)
Definition body (t : text) (starts_inside : bool) : option text :=
  if starts_inside then Some t
  else if startswith t _OPEN then Some (drop (length _OPEN) t) else None.

(** C28: Splitting the text into deltas at any places gives, concatenated, the
    one-shot answer.  That answer passes text without an opening tag through
    as content, takes everything up to the first closing tag for reasoning
    and everything after it for content, and an unterminated section stays
    reasoning in full. *)
Theorem splitter_chunking deltas starts_inside :
  stream deltas starts_inside = parse (concat deltas) starts_inside ∧
  parse (concat deltas) starts_inside =
    match body (concat deltas) starts_inside with
    | None => ([], concat deltas)
    | Some t =>
        match find _CLOSE t with
        | Some i => (take i t, drop (i + length _CLOSE) t)
        | None => (t, [])
        end
    end.
Proof.
  split.
  { unfold stream, parse. destruct deltas as [|d deltas].
    - cbn [feed_all concat]. by rewrite feed_nil_init.
    - by rewrite feed_all_concat. }
  generalize (concat deltas) as t. intros t.
  assert (Hth : ∀ t, join (_feed_thinking t).1 (finish (_feed_thinking t).2).1 =
    match find _CLOSE t with Some i => (take i t, drop (i + length _CLOSE) t) | None => (t, []) end).
  { intros u. unfold _feed_thinking. destruct (find _CLOSE u); unfold join, finish; cbn.
    - by rewrite !app_nil_r.
    - destruct (partial_suffix_spec u _CLOSE close_ne) as (_ & _ & H3 & _). rewrite H3 at 2.
      by rewrite cut_tail. }
  unfold parse, body, feed, init. destruct starts_inside; cbn [_state _held app].
  - specialize (Hth t). by destruct (_feed_thinking t).
  - unfold _feed_opening. destruct (startswith t _OPEN).
    + specialize (Hth (drop (length _OPEN) t)). by destruct (_feed_thinking _).
    + destruct (startswith _OPEN t); unfold join, finish; cbn; by rewrite ?app_nil_r.
Qed.
End Chunking.

(** A closing tag cut across deltas. *)
Example split_tag :
  stream [lit "<th"; lit "ink>a</th"; lit "ink>b"] false = (lit "a", lit "b").
Proof. reflexivity. Qed.
End Reasoning.
