(* ===== verification/ToolParser.v ===== *)
(** * Tool-call extraction (tool_parser.py)

    The two incremental parsers over the content channel.  A step's additions
    to the output are returned, and the feeding loop appends them in order. *)

From S2P Require Export Reasoning.
From stdpp Require Import pretty.

Module Tools.
Import Text.

(** ** Wire types *)

Record ToolCallDelta := Delta {
  index : Z;
  arguments : text;
  id : option text;
  name : option text;
}.

Record ToolCall := Call {
  call_name : text;
  call_arguments : text;
  call_id : text;
}.

Record ToolStream := Stream {
  content : text;
  calls : list ToolCallDelta;
}.

#[global] Instance ToolCall_eq_dec : EqDecision ToolCall.
Proof. solve_decision. Defined.

Definition nothing : ToolStream := Stream [] [].
Definition out_app (o1 o2 : ToolStream) : ToolStream :=
  Stream (content o1 ++ content o2) (calls o1 ++ calls o2).

Definition _BAR : text := [65372%Z].
Definition _US : text := [9601%Z].
Definition _BT : text := [96; 96; 96]%Z.
Definition newline : text := [10%Z].
Definition _DS_CALLS_BEGIN : text :=
  lit "<" ++ _BAR ++ lit "tool" ++ _US ++ lit "calls" ++ _US ++ lit "begin" ++ _BAR ++ lit ">".
Definition _DS_CALL_BEGIN : text :=
  lit "<" ++ _BAR ++ lit "tool" ++ _US ++ lit "call" ++ _US ++ lit "begin" ++ _BAR ++ lit ">".
Definition _DS_SEP : text := lit "<" ++ _BAR ++ lit "tool" ++ _US ++ lit "sep" ++ _BAR ++ lit ">".
Definition _DS_CALL_END : text :=
  lit "<" ++ _BAR ++ lit "tool" ++ _US ++ lit "call" ++ _US ++ lit "end" ++ _BAR ++ lit ">".
Definition _DS_CALLS_END : text :=
  lit "<" ++ _BAR ++ lit "tool" ++ _US ++ lit "calls" ++ _US ++ lit "end" ++ _BAR ++ lit ">".
Definition _DS_HEADER : text := _DS_CALL_BEGIN ++ lit "function" ++ _DS_SEP.
Definition _DS_FENCE : text := _BT ++ lit "json" ++ newline.
Definition _DS_ARGS_END : text := newline ++ _BT ++ _DS_CALL_END.
Definition _QWEN_OPEN : text := lit "<tool_call>".
Definition _QWEN_CLOSE : text := lit "</tool_call>".

Definition _call_id (index : Z) : text := lit "call_" ++ lit (pretty index).

(** [ToolCallDelta(index=i, arguments=a)] and the delta that opens a call. *)
Definition args_delta (i : Z) (a : text) : ToolCallDelta := Delta i a None None.
Definition open_delta (i : Z) (n : text) : ToolCallDelta := Delta i [] (Some (_call_id i)) (Some n).

(** ** Merging deltas into calls *)

Definition merge_one (m : gmap Z ToolCall * list Z) (d : ToolCallDelta) : gmap Z ToolCall * list Z :=
  let '(calls, order) := m in
  match calls !! index d with
  | None =>
      (<[index d := Call (default [] (name d)) (arguments d) (default [] (id d))]> calls,
       order ++ [index d])
  | Some c =>
      (<[index d := Call (call_name c) (call_arguments c ++ arguments d) (call_id c)]> calls, order)
  end.

Definition _merge (deltas : list ToolCallDelta) : list ToolCall :=
  let '(calls, order) := foldl merge_one (∅, []) deltas in
  omap (λ i, calls !! i) order.

(** ** The contract *)

(** A parser: its fresh state and the two abstract methods. *)
Class ToolParser (S : Type) := {
  fresh : S;
  feed : text → S → result (ToolStream * S);
  finish : S → ToolStream * S;
}.

Definition parse (S : Type) `{ToolParser S} (t : text) : result (text * list ToolCall) :=
  '(o1, s) ← feed t (fresh (S := S));
  let o := out_app o1 (finish s).1 in
  Ok (content o, _merge (calls o)).

(** The [while text] loop of both parsers; [step] answers what is left, whether
    it must wait for more, and what it adds to the output. *)
Section Loop.
Context {S : Type} (step : text → S → result (text * bool * ToolStream * S)) (hold : text → S → S).

Fixpoint loop (fuel : nat) (t : text) (out : ToolStream) (s : S) : result (ToolStream * S) :=
  match t with
  | [] => Ok (out, s)
  | _ :: _ =>
      match fuel with
      | 0 => Err OutOfFuel
      | Datatypes.S fuel =>
          '(t, blocked, o, s) ← step t s;
          let out := out_app out o in
          if (blocked : bool) then Ok (out, hold t s) else loop fuel t out s
      end
  end.
End Loop.

(** A step takes text away, or moves on to the next phase with the same text. *)
Definition fuel_for (t : text) : nat := 2 * length t + 2.

(** ** DeepSeek-V3 *)

Module DeepSeek.

Inductive phase := outside | header | name | fence | args | trailer.

Record DeepSeekToolParser := Parser {
  _state : phase;
  _held : text;
  _index : Z;
}.

Definition init : DeepSeekToolParser := Parser outside [] 0.
Definition goto (p : phase) (s : DeepSeekToolParser) : DeepSeekToolParser :=
  Parser p (_held s) (_index s).
Definition hold (t : text) (s : DeepSeekToolParser) : DeepSeekToolParser :=
  Parser (_state s) t (_index s).

Definition _step_outside (t : text) (s : DeepSeekToolParser) :=
  match find _DS_CALLS_BEGIN t with
  | Some i => (drop (i + length _DS_CALLS_BEGIN) t, false, Stream (take i t) [], goto header s)
  | None =>
      let held := Reasoning._partial_suffix t _DS_CALLS_BEGIN in
      (held, bool_decide (held ≠ []), Stream (cut (length held) t) [], s)
  end.

Definition _step_header (t : text) (s : DeepSeekToolParser) :=
  if startswith t _DS_HEADER then (drop (length _DS_HEADER) t, false, nothing, goto name s)
  else if startswith _DS_HEADER t then (t, true, nothing, s)
  else ([], false, Stream t [], goto outside s).

Definition _step_name (t : text) (s : DeepSeekToolParser) :=
  match find newline t with
  | None => (t, true, nothing, s)
  | Some i =>
      (drop (i + 1) t, false, Stream [] [open_delta (_index s) (take i t)],
       Parser fence (_held s) (_index s + 1))
  end.

Definition _step_fence (t : text) (s : DeepSeekToolParser) :=
  if startswith t _DS_FENCE then (drop (length _DS_FENCE) t, false, nothing, goto args s)
  else if startswith _DS_FENCE t then (t, true, nothing, s)
  else ([], false, Stream t [], goto outside s).

Definition _step_args (t : text) (s : DeepSeekToolParser) :=
  match find _DS_ARGS_END t with
  | Some i =>
      (drop (i + length _DS_ARGS_END) t, false,
       Stream [] [args_delta (_index s - 1) (take i t)], goto trailer s)
  | None =>
      let held := Reasoning._partial_suffix t _DS_ARGS_END in
      (held, true, Stream [] [args_delta (_index s - 1) (cut (length held) t)], s)
  end.

Definition _step_trailer (t : text) (s : DeepSeekToolParser) :=
  if startswith t _DS_CALLS_END then (drop (length _DS_CALLS_END) t, false, nothing, goto outside s)
  else if startswith _DS_CALLS_END t then (t, true, nothing, s)
  else (t, false, nothing, goto header s).

(** [getattr(self, f"_step_{self._state}")] *)
Definition step (t : text) (s : DeepSeekToolParser) :
    result (text * bool * ToolStream * DeepSeekToolParser) :=
  Ok match _state s with
  | outside => _step_outside t s
  | header => _step_header t s
  | name => _step_name t s
  | fence => _step_fence t s
  | args => _step_args t s
  | trailer => _step_trailer t s
  end.

Definition feed (delta : text) (s : DeepSeekToolParser) : result (ToolStream * DeepSeekToolParser) :=
  let t := _held s ++ delta in
  loop step hold (fuel_for t) t nothing (hold [] s).

Definition finish (s : DeepSeekToolParser) : ToolStream * DeepSeekToolParser :=
  (match _state s with
   | args => Stream [] [args_delta (_index s - 1) (_held s)]
   | _ => Stream (_held s) []
   end, hold [] s).

#[global] Instance deepseek : ToolParser DeepSeekToolParser := {
  Tools.fresh := init; Tools.feed := feed; Tools.finish := finish }.

End DeepSeek.

(** ** Qwen *)

Module Scanner.

Inductive phase := KEY | COLON | NAME | OTHER | ARGS | DONE.

#[global] Instance phase_eq_dec : EqDecision phase.
Proof. solve_decision. Defined.

Record _JsonCallScanner := Scan {
  sc_name : option text;
  _state : phase;
  _in_key : bool;
  _key : text;
  _buf : text;
  _depth : Z;
  _args_depth : Z;
  _other_depth : Z;
  _in_string : bool;
  _escaped : bool;
}.

Definition init : _JsonCallScanner := Scan None KEY false [] [] 0 0 0 false false.

Definition goto (p : phase) (s : _JsonCallScanner) : _JsonCallScanner :=
  Scan (sc_name s) p (_in_key s) (_key s) (_buf s) (_depth s) (_args_depth s) (_other_depth s)
    (_in_string s) (_escaped s).
Definition set_buf (b : text) (s : _JsonCallScanner) : _JsonCallScanner :=
  Scan (sc_name s) (_state s) (_in_key s) (_key s) b (_depth s) (_args_depth s) (_other_depth s)
    (_in_string s) (_escaped s).
Definition set_key (inside : bool) (k : text) (s : _JsonCallScanner) : _JsonCallScanner :=
  Scan (sc_name s) (_state s) inside k (_buf s) (_depth s) (_args_depth s) (_other_depth s)
    (_in_string s) (_escaped s).
Definition set_depth (d a o : Z) (s : _JsonCallScanner) : _JsonCallScanner :=
  Scan (sc_name s) (_state s) (_in_key s) (_key s) (_buf s) d a o (_in_string s) (_escaped s).
Definition set_string (inside escaped : bool) (s : _JsonCallScanner) : _JsonCallScanner :=
  Scan (sc_name s) (_state s) (_in_key s) (_key s) (_buf s) (_depth s) (_args_depth s)
    (_other_depth s) inside escaped.
Definition set_name (n : option text) (s : _JsonCallScanner) : _JsonCallScanner :=
  Scan n (_state s) (_in_key s) (_key s) (_buf s) (_depth s) (_args_depth s) (_other_depth s)
    (_in_string s) (_escaped s).

Definition quote : Z := 34.
Definition backslash : Z := 92.
Definition is_open (c : Z) : bool := bool_decide (c = 123%Z ∨ c = 91%Z).
Definition is_close (c : Z) : bool := bool_decide (c = 125%Z ∨ c = 93%Z).
Definition is_space (c : Z) : bool := bool_decide (c = 32%Z ∨ c = 10%Z ∨ c = 13%Z ∨ c = 9%Z).

Definition _track_string (c : Z) (s : _JsonCallScanner) : _JsonCallScanner :=
  if _escaped s then set_string (_in_string s) false s
  else if decide (c = backslash) then set_string (_in_string s) true s
  else if decide (c = quote) then set_string false (_escaped s) s
  else s.

Definition _take_key (c : Z) (s : _JsonCallScanner) : text * _JsonCallScanner :=
  ([],
   if _in_key s then
     if decide (c = quote) then goto COLON (set_buf [] (set_key false (_buf s) s))
     else set_buf (_buf s ++ [c]) s
   else if decide (c = quote) then set_buf [] (set_key true (_key s) s)
   else if decide (c = 123%Z) then set_depth (_depth s + 1) (_args_depth s) (_other_depth s) s
   else if decide (c = 125%Z) then
     let s := set_depth (_depth s - 1) (_args_depth s) (_other_depth s) s in
     if decide (_depth s = 0%Z) then goto DONE s else s
   else s).

Definition _take_colon (c : Z) (s : _JsonCallScanner) : text * _JsonCallScanner :=
  ([],
   if decide (c = 58%Z) then
     let s :=
       if decide (_key s = lit "name") then set_string false false (goto NAME s)
       else if decide (_key s = lit "arguments") then
         set_depth (_depth s) 0 (_other_depth s) (goto ARGS s)
       else set_string false (_escaped s) (set_depth (_depth s) (_args_depth s) 0 (goto OTHER s)) in
     set_buf [] s
   else s).

Definition _take_name (c : Z) (s : _JsonCallScanner) : text * _JsonCallScanner :=
  ([],
   if negb (_in_string s) then
     if decide (c = quote) then set_string true (_escaped s) s else s
   else if _escaped s then set_string (_in_string s) false (set_buf (_buf s ++ [c]) s)
   else if decide (c = backslash) then set_string (_in_string s) true (set_buf (_buf s ++ [c]) s)
   else if decide (c = quote) then
     goto KEY (set_string false (_escaped s) (set_name (Some (_buf s)) s))
   else set_buf (_buf s ++ [c]) s).

Definition _take_other (c : Z) (s : _JsonCallScanner) : text * _JsonCallScanner :=
  ([],
   if _in_string s then _track_string c s
   else if decide (c = quote) then set_string true (_escaped s) s
   else if is_open c then set_depth (_depth s) (_args_depth s) (_other_depth s + 1) s
   else if is_close c then
     if (0 <? _other_depth s)%Z then set_depth (_depth s) (_args_depth s) (_other_depth s - 1) s
     else if decide (c = 125%Z) then
       let s := set_depth (_depth s - 1) (_args_depth s) (_other_depth s) s in
       goto (if decide (_depth s = 0%Z) then DONE else KEY) s
     else s
   else if decide (c = 44%Z ∧ _other_depth s = 0%Z) then goto KEY s
   else s).

Definition _take_args (c : Z) (s : _JsonCallScanner) : text * _JsonCallScanner :=
  if bool_decide (_args_depth s = 0%Z) && negb (_in_string s) && is_space c then ([], s)
  else
    ([c],
     if _in_string s then _track_string c s
     else if decide (c = quote) then set_string true (_escaped s) s
     else if is_open c then set_depth (_depth s) (_args_depth s + 1) (_other_depth s) s
     else if is_close c then
       let s := set_depth (_depth s) (_args_depth s - 1) (_other_depth s) s in
       if decide (_args_depth s = 0%Z) then goto KEY s else s
     else s).

Definition _take (c : Z) (s : _JsonCallScanner) : text * _JsonCallScanner :=
  match _state s with
  | ARGS => _take_args c s
  | NAME => _take_name c s
  | OTHER => _take_other c s
  | COLON => _take_colon c s
  | _ => _take_key c s
  end.

(** [feed]: the arguments text, how many characters were consumed, the new
    state; the completion flag is that state being [DONE]. *)
Fixpoint scan (t : text) (s : _JsonCallScanner) : text * nat * _JsonCallScanner :=
  match t with
  | [] => ([], 0, s)
  | c :: t =>
      if decide (_state s = DONE) then ([], 0, s)
      else
        let '(a, s) := _take c s in
        let '(args, consumed, s) := scan t s in
        (a ++ args, S consumed, s)
  end.
Definition complete (s : _JsonCallScanner) : bool := bool_decide (_state s = DONE).

End Scanner.

Module Qwen.

Inductive phase := outside | scanning | closing.

Record QwenToolParser := Parser {
  _state : phase;
  _held : text;
  _scanner : option Scanner._JsonCallScanner;
  _index : Z;
  _announced : bool;
  _pending_args : text;
}.

Definition init : QwenToolParser := Parser outside [] None 0 false [].
Definition goto (p : phase) (s : QwenToolParser) : QwenToolParser :=
  Parser p (_held s) (_scanner s) (_index s) (_announced s) (_pending_args s).
Definition hold (t : text) (s : QwenToolParser) : QwenToolParser :=
  Parser (_state s) t (_scanner s) (_index s) (_announced s) (_pending_args s).

Definition _outside (t : text) (s : QwenToolParser) :=
  match find _QWEN_OPEN t with
  | Some i =>
      (drop (i + length _QWEN_OPEN) t, false, Stream (take i t) [],
       Parser scanning (_held s) (Some Scanner.init) (_index s) false [])
  | None =>
      let held := Reasoning._partial_suffix t _QWEN_OPEN in
      (held, bool_decide (held ≠ []), Stream (cut (length held) t) [], s)
  end.

(** A run of argument text, if there is any. *)
Definition args_run (i : Z) (a : text) : list ToolCallDelta :=
  match a with [] => [] | _ :: _ => [args_delta i a] end.

(** What a scanned piece emits: the call's opening as soon as the name is
    known, then the arguments, kept back until then. *)
Definition emit (sc : Scanner._JsonCallScanner) (a : text) (s : QwenToolParser) :
    list ToolCallDelta * QwenToolParser :=
  let s := Parser (_state s) (_held s) (Some sc) (_index s) (_announced s) (_pending_args s) in
  let '(o, s) :=
    match Scanner.sc_name sc with
    | Some n =>
        if negb (_announced s) then
          (open_delta (_index s) n :: args_run (_index s) (_pending_args s),
           Parser (_state s) (_held s) (_scanner s) (_index s + 1) true [])
        else ([], s)
    | None => ([], s)
    end in
  if _announced s then (o ++ args_run (_index s - 1) a, s)
  else (o, Parser (_state s) (_held s) (_scanner s) (_index s) (_announced s) (_pending_args s ++ a)).

Definition _scanning (t : text) (s : QwenToolParser) :
    result (text * bool * ToolStream * QwenToolParser) :=
  match _scanner s with
  | None => Err AssertionError
  | Some sc =>
      let '(a, consumed, sc) := Scanner.scan t sc in
      let '(o, s) := emit sc a s in
      Ok (if Scanner.complete sc then (drop consumed t, false, Stream [] o, goto closing s)
          else ([], true, Stream [] o, s))
  end.

Definition _closing (t : text) (s : QwenToolParser) :=
  match find _QWEN_CLOSE t with
  | Some i => (drop (i + length _QWEN_CLOSE) t, false, nothing, goto outside s)
  | None =>
      let held := Reasoning._partial_suffix t _QWEN_CLOSE in
      (held, bool_decide (held ≠ []), Stream (cut (length held) t) [], s)
  end.

Definition step (t : text) (s : QwenToolParser) :
    result (text * bool * ToolStream * QwenToolParser) :=
  match _state s with
  | outside => Ok (_outside t s)
  | scanning => _scanning t s
  | closing => Ok (_closing t s)
  end.

Definition feed (delta : text) (s : QwenToolParser) : result (ToolStream * QwenToolParser) :=
  let t := _held s ++ delta in
  loop step hold (fuel_for t) t nothing (hold [] s).

Definition finish (s : QwenToolParser) : ToolStream * QwenToolParser :=
  (Stream (_held s) [], Parser (_state s) [] None (_index s) (_announced s) (_pending_args s)).

#[global] Instance qwen : ToolParser QwenToolParser := {
  Tools.fresh := init; Tools.feed := feed; Tools.finish := finish }.

End Qwen.

(** [ToolParser.for_model]: the registry. *)
Definition for_model (family : String.string) :
    result (DeepSeek.DeepSeekToolParser + Qwen.QwenToolParser) :=
  if String.eqb family "deepseek" then Ok (inl DeepSeek.init)
  else if String.eqb family "qwen" then Ok (inr Qwen.init)
  else Err ValueError.

End Tools.
