(* ===== verification/ToolChunking.v ===== *)
(** * The chunking axiom of the tool parsers

    What [_merge] can see of the deltas, the feeding loop as a big-step
    relation, and the argument, shared by both families, that a text cut in
    two gives the same output as the text in one piece. *)

From S2P Require Export ToolParser.

Module Chunking.
Import Text Tools.

(** ** Deltas up to merging *)

(** Two delta lists no merge can tell apart. *)
Definition deltas_eq (l1 l2 : list ToolCallDelta) : Prop :=
  ∀ m, foldl merge_one m l1 = foldl merge_one m l2.
Infix "≈" := deltas_eq (at level 70).

#[global] Instance deltas_eq_equivalence : Equivalence deltas_eq.
Proof.
  split; [by intros l m|by intros l1 l2 H m|]. intros l1 l2 l3 H1 H2 m. by rewrite H1, H2.
Qed.
#[global] Instance app_deltas_proper : Proper (deltas_eq ==> deltas_eq ==> deltas_eq) app.
Proof. intros l1 l2 H1 l3 l4 H2 m. by rewrite !foldl_app, H1, H2. Qed.

Lemma merge_deltas_eq l1 l2 : l1 ≈ l2 → _merge l1 = _merge l2.
Proof. intros Hl. unfold _merge. by rewrite Hl. Qed.

(** Adjacent argument fragments of one call fuse. *)
Lemma merge_args i a b : [args_delta i a; args_delta i b] ≈ [args_delta i (a ++ b)].
Proof.
  intros [calls order]. cbn. destruct (calls !! i) as [c|]; cbn;
    rewrite lookup_insert_eq; cbn; rewrite insert_insert_eq; cbn; [|done].
  by rewrite app_assoc.
Qed.
Lemma merge_args_run i a b : Qwen.args_run i a ++ Qwen.args_run i b ≈ Qwen.args_run i (a ++ b).
Proof.
  destruct a as [|x a]; [done|]. destruct b as [|y b]; [by rewrite !app_nil_r|].
  exact (merge_args i (x :: a) (y :: b)).
Qed.

(** ** Outputs *)

(** Equal content and deltas no merge can tell apart, or the deltas only. *)
Definition out_eq (both : bool) (o1 o2 : ToolStream) : Prop :=
  (both = true → content o1 = content o2) ∧ calls o1 ≈ calls o2.

#[global] Instance out_eq_equivalence both : Equivalence (out_eq both).
Proof.
  split; [by intros o|intros o1 o2 [H1 H2]|intros o1 o2 o3 [H1 H2] [H3 H4]]; split.
  - intros Hb. by rewrite H1.
  - done.
  - intros Hb. by rewrite H1, H3.
  - by etrans.
Qed.
#[global] Instance out_app_proper both :
  Proper (out_eq both ==> out_eq both ==> out_eq both) out_app.
Proof.
  intros o1 o2 [H1 H2] o3 o4 [H3 H4]. split; cbn; [intros Hb; by rewrite H1, H3|by rewrite H2, H4].
Qed.

Lemma out_app_assoc o1 o2 o3 : out_app o1 (out_app o2 o3) = out_app (out_app o1 o2) o3.
Proof. unfold out_app; cbn. by rewrite !app_assoc. Qed.
Lemma out_app_nil_l o : out_app nothing o = o.
Proof. by destruct o. Qed.
Lemma out_app_nil_r o : out_app o nothing = o.
Proof. destruct o. unfold out_app; cbn. by rewrite !app_nil_r. Qed.

(** ** The loop as a relation *)

Section Runs.
Context {S : Type} (step : text → S → result (text * bool * ToolStream * S)) (hold : text → S → S).
(** States the loop meets, and steps the axiom does not cover. *)
Context (good : S → Prop) (bad : text → S → Prop) (measure : text → S → nat).
Implicit Types (t b h : text) (s : S) (o e : ToolStream).

Inductive runs : text → S → ToolStream → S → Prop :=
  | runs_nil s : runs [] s nothing s
  | runs_block t s h e s' :
      t ≠ [] → ¬ bad t s → step t s = Ok (h, true, e, s') → runs t s e (hold h s')
  | runs_go t s t' e s' o s2 :
      t ≠ [] → ¬ bad t s → step t s = Ok (t', false, e, s') → runs t' s' o s2 →
      runs t s (out_app e o) s2.

(** A run is what the loop computes, given the fuel. *)
Lemma runs_loop t s o s2 fuel out :
  runs t s o s2 → (∀ t s t' e s', good s → step t s = Ok (t', false, e, s') → t ≠ [] →
    measure t' s' < measure t s ∧ good s') → good s → measure t s ≤ fuel →
  (∀ t s, t ≠ [] → 0 < measure t s) →
  loop step hold fuel t out s = Ok (out_app out o, s2).
Proof.
  intros Hr Hdec Hg Hf Hpos. revert fuel out Hg Hf.
  induction Hr as [s|t s h e s' Hne _ Hs|t s t' e s' o s2 Hne _ Hs _ IH]; intros fuel out Hg Hf.
  - rewrite out_app_nil_r. by destruct fuel.
  - specialize (Hpos t s Hne). destruct t as [|c t]; [done|]. destruct fuel as [|fuel]; [lia|].
    cbn [loop]. rewrite Hs. done.
  - destruct (Hdec _ _ _ _ _ Hg Hs Hne) as [Hlt Hg']. specialize (Hpos t s Hne).
    destruct t as [|c t]; [done|]. destruct fuel as [|fuel]; [lia|].
    cbn [loop]. rewrite Hs. cbn [mbind result_bind]. rewrite IH by (done || lia).
    by rewrite out_app_assoc.
Qed.

Lemma runs_fun t s o s2 o' s2' : runs t s o s2 → runs t s o' s2' → o = o' ∧ s2 = s2'.
Proof.
  intros Hr. revert o' s2'. induction Hr; intros o' s2' Hr'; inversion Hr'; subst; try done;
    match goal with H1 : step ?t ?s = Ok _, H2 : step ?t ?s = Ok _ |- _ =>
      rewrite H1 in H2; injection H2 as; subst end; try done.
  by match goal with IH : ∀ o' s2', runs ?t ?s o' s2' → _, H : runs ?t ?s _ _ |- _ =>
    destruct (IH _ _ H) as [-> ->] end.
Qed.

Lemma runs_go_inv t s o s2 t' e s' :
  runs t s o s2 → t ≠ [] → step t s = Ok (t', false, e, s') →
  ∃ o', o = out_app e o' ∧ runs t' s' o' s2.
Proof.
  intros Hr Hne Hs. inversion Hr as [|? ? ? ? ? ? ? H3|? ? ? ? ? o' ? ? ? H3 H4]; subst; [done| |];
    rewrite Hs in H3; [done|]. injection H3 as <- <- <-. by exists o'.
Qed.

Lemma runs_not_bad t s o s2 : runs t s o s2 → t ≠ [] → ¬ bad t s.
Proof. by intros Hr; inversion Hr. Qed.

(** Does the loop get through the text without a step [badb] names? *)
Fixpoint clean_loop (badb : text → S → bool) (fuel : nat) t s : bool :=
  match t with
  | [] => true
  | _ :: _ =>
      if badb t s then false
      else match fuel with
           | 0 => false
           | Datatypes.S fuel =>
               match step t s with
               | Ok (_, true, _, _) => true
               | Ok (t, false, _, s) => clean_loop badb fuel t s
               | Err _ => false
               end
           end
  end.

Lemma clean_runs badb fuel t s :
  (∀ t s, badb t s = false → ¬ bad t s) → clean_loop badb fuel t s = true →
  ∃ o s2, runs t s o s2.
Proof.
  intros Hb. revert t s. induction fuel as [|fuel IH]; intros t s; destruct t as [|c t]; cbn [clean_loop].
  1, 3: intros _; eexists _, _; constructor.
  all: destruct (badb (c :: t) s) eqn:Eb; [done|]. { done. }
  apply Hb in Eb.
  destruct (step (c :: t) s) as [[[[t' [|]] e] s']|] eqn:Es; [|intros Hc|done].
  - intros _. eexists _, _. by apply runs_block.
  - destruct (IH _ _ Hc) as (o & s2 & Hr). eexists _, _. by eapply runs_go.
Qed.

(** The loop always comes to an end. *)
Lemma runs_total t s :
  (∀ t s, good s → t ≠ [] → ¬ bad t s ∧ ∃ h (w : bool) e s', step t s = Ok (h, w, e, s') ∧ good s' ∧
    (w = false → measure h s' < measure t s)) →
  (∀ s, good s → hold [] s = s) →
  good s → ∃ o h s', runs t s o (hold h s') ∧ good s'.
Proof.
  intros Hok Hnil. remember (measure t s) as n eqn:Hn. revert t s Hn.
  induction (lt_wf n) as [n _ IH]. intros t s -> Hg.
  destruct (decide (t = [])) as [->|Hne].
  { exists nothing, [], s. rewrite Hnil by done. by split; [constructor|]. }
  destruct (Hok t s Hg Hne) as (Hb & h & w & e & s' & Es & Hg' & Hlt). destruct w.
  - exists e, h, s'. by split; [apply runs_block|].
  - destruct (IH _ (Hlt eq_refl) h s' eq_refl Hg') as (o & h' & s2 & Hr & Hg2).
    exists (out_app e o), h', s2. split; [by eapply runs_go|done].
Qed.

(** What one step on a text says about that step on a longer text. *)
Context (both : bool).
Definition forwards t s : Prop :=
  ∃ t' e s', step t s = Ok (t', false, e, s') ∧ good s' ∧ measure t' s' < measure t s ∧
    ¬ bad t s ∧ ∀ b, step (t ++ b) s = Ok (t' ++ b, false, e, s').
Definition waits t s : Prop :=
  ∃ h e s', runs t s e (hold h s') ∧ good s' ∧
    ∀ b o s2, runs (t ++ b) s o s2 → ∃ o2, runs (h ++ b) s' o2 s2 ∧ out_eq both o (out_app e o2).

Context (Hcases : ∀ t s, good s → t ≠ [] → forwards t s ∨ waits t s ∨ ∀ b, bad (t ++ b) s).

Context (held : S → text).
Context (Hhold : ∀ h s, good s → held (hold h s) = h ∧ hold [] (hold h s) = s).
Context (Hnil : ∀ s, good s → hold [] s = s).

(** A text in two pieces: the second is read after what the first held back. *)
Lemma runs_split t b s o s2 :
  good s → runs (t ++ b) s o s2 →
  ∃ o1 h s1 o2, runs t s o1 (hold h s1) ∧ good s1 ∧
    runs (h ++ b) s1 o2 s2 ∧ out_eq both o (out_app o1 o2).
Proof.
  remember (measure t s) as n eqn:Hn. revert t s Hn o.
  induction (lt_wf n) as [n _ IH]. intros t s -> o Hg Hr.
  destruct (decide (t = [])) as [->|Hne].
  { exists nothing, [], s, o. rewrite Hnil by done.
    split_and!; [constructor|done|done|by rewrite out_app_nil_l]. }
  destruct (Hcases t s Hg Hne) as [(t' & e & s' & Es & Hg' & Hlt & Hok & Hmono)|[(h & e & s' & Hrun & Hg' & Hw)|Hbad]].
  - assert (Htb : t ++ b ≠ []) by (by destruct t).
    destruct (runs_go_inv _ _ _ _ _ _ _ Hr Htb (Hmono b)) as (o0 & -> & H4).
    destruct (IH _ Hlt t' s' eq_refl o0 Hg' H4) as (o1 & h & s1 & o2 & Hr1 & Hg1 & Hr2 & Ho).
    exists (out_app e o1), h, s1, o2. split_and!; [by eapply runs_go|done|done|].
    by rewrite Ho, out_app_assoc.
  - destruct (Hw b o s2 Hr) as (o2 & Hr2 & Ho). by exists e, h, s', o2.
  - exfalso. specialize (Hbad b). inversion Hr; subst; [by destruct t|done|done].
Qed.

(** ** Feeding deltas *)

Context (feed : text → S → result (ToolStream * S)).
Context (Hfeed : ∀ d s, feed d s = loop step hold (fuel_for (held s ++ d)) (held s ++ d) nothing (hold [] s)).
Context (Hmeasure : ∀ t s, t ≠ [] → 0 < measure t s ≤ fuel_for t).
Context (Hdec : ∀ t s t' e s', good s → step t s = Ok (t', false, e, s') → t ≠ [] →
  measure t' s' < measure t s ∧ good s').

Lemma feed_runs d h s o s2 : good s → runs (h ++ d) s o s2 → feed d (hold h s) = Ok (o, s2).
Proof.
  intros Hg Hr. rewrite Hfeed. destruct (Hhold h s Hg) as [-> ->].
  rewrite <- (out_app_nil_l o). destruct (decide (h ++ d = [])) as [E|Hne].
  - rewrite E in *. inversion Hr; subst; done.
  - eapply runs_loop; [exact Hr|exact Hdec|done|by apply Hmeasure|]. intros t s' Ht. by apply Hmeasure.
Qed.

Fixpoint feed_all (deltas : list text) (s : S) : result (ToolStream * S) :=
  match deltas with
  | [] => Ok (nothing, s)
  | d :: deltas =>
      '(o1, s) ← feed d s;
      '(o2, s) ← feed_all deltas s;
      Ok (out_app o1 o2, s)
  end.

Lemma feed_all_runs d deltas h s o s2 :
  good s → runs (h ++ concat (d :: deltas)) s o s2 →
  ∃ o', feed_all (d :: deltas) (hold h s) = Ok (o', s2) ∧ out_eq both o o'.
Proof.
  revert d h s o. induction deltas as [|d' deltas IH]; intros d h s o Hg Hr.
  - cbn in Hr |- *. rewrite app_nil_r in Hr. rewrite (feed_runs _ _ _ _ _ Hg Hr). cbn.
    exists o. by rewrite out_app_nil_r.
  - change (concat (d :: d' :: deltas)) with (d ++ concat (d' :: deltas)) in Hr. rewrite app_assoc in Hr.
    destruct (runs_split _ _ _ _ _ Hg Hr) as (o1 & h1 & s1 & o2 & Hr1 & Hg1 & Hr2 & Ho).
    destruct (IH d' h1 s1 o2 Hg1 Hr2) as (o' & E' & Ho').
    change (feed_all (d :: d' :: deltas) (hold h s)) with
      ('(o1, s) ← feed d (hold h s); '(o2, s) ← feed_all (d' :: deltas) s; Ok (out_app o1 o2, s)).
    rewrite (feed_runs _ _ _ _ _ Hg Hr1). cbn [mbind result_bind]. rewrite E'. cbn [mbind result_bind].
    eexists. split; [done|]. by rewrite Ho, Ho'.
Qed.

Lemma feed_all_total deltas h s :
  (∀ t s, good s → t ≠ [] → ¬ bad t s ∧ ∃ h (w : bool) e s', step t s = Ok (h, w, e, s') ∧ good s' ∧
    (w = false → measure h s' < measure t s)) →
  good s → ∃ o h' s', feed_all deltas (hold h s) = Ok (o, hold h' s') ∧ good s'.
Proof.
  intros Hok. revert h s. induction deltas as [|d deltas IH]; intros h s Hg; [by exists nothing, h, s|].
  destruct (runs_total (h ++ d) s Hok Hnil Hg) as (o1 & h1 & s1 & Hr1 & Hg1).
  destruct (IH h1 s1 Hg1) as (o2 & h2 & s2 & E2 & Hg2). exists (out_app o1 o2), h2, s2. split; [|done].
  cbn [feed_all]. rewrite (feed_runs _ _ _ _ _ Hg Hr1). cbn [mbind result_bind]. by rewrite E2.
Qed.
End Runs.

(** The client of a parser: deltas in order, then the end of the stream. *)
Definition stream (S : Type) `{ToolParser S} (deltas : list text) : result (text * list ToolCall) :=
  '(o1, s) ← feed_all Tools.feed deltas (fresh (S := S));
  let o := out_app o1 (finish s).1 in
  Ok (content o, _merge (calls o)).

(** ** Scanning for a marker *)

(** What a phase that scans for a tag does with text that lacks it. *)
Lemma tag_scan_app tag t b :
  tag ≠ [] → find tag t = None →
  let h := Reasoning._partial_suffix t tag in
  let e := cut (length h) t in
  t = e ++ h ∧ find tag (t ++ b) = (λ i, length e + i) <$> find tag (h ++ b) ∧
  Reasoning._partial_suffix (t ++ b) tag = Reasoning._partial_suffix (h ++ b) tag ∧
  cut (length (Reasoning._partial_suffix (h ++ b) tag)) (t ++ b) =
    e ++ cut (length (Reasoning._partial_suffix (h ++ b) tag)) (h ++ b).
Proof.
  intros Htag Hf h e. split_and!.
  - destruct (Reasoning.partial_suffix_spec t tag Htag) as (_ & _ & H3 & _). unfold e, h.
    rewrite H3 at 2. by rewrite Reasoning.cut_tail.
  - by apply Reasoning.find_held.
  - by apply Reasoning.partial_suffix_held.
  - by apply Reasoning.cut_held.
Qed.

(** What a phase that expects a tag at once does. *)
Lemma gate_app tag t :
  (startswith t tag = true ∧ ∀ b, startswith (t ++ b) tag = true ∧
     drop (length tag) (t ++ b) = drop (length tag) t ++ b) ∨
  (startswith t tag = false ∧ startswith tag t = true) ∨
  (startswith t tag = false ∧ startswith tag t = false ∧
     ∀ b, startswith (t ++ b) tag = false ∧ startswith tag (t ++ b) = false).
Proof.
  destruct (startswith t tag) eqn:E1.
  - left. split; [done|]. intros b. apply startswith_spec in E1 as [x ->].
    rewrite <- app_assoc, !drop_app_length. split; [|done]. apply startswith_spec. by eexists.
  - right. destruct (startswith tag t) eqn:E2; [by left|right]. split_and!; [done|done|].
    intros b. apply startswith_false in E1, E2. split; apply startswith_false.
    + intros [|(b' & -> & _)]%prefix_split; [done|]. apply E2. by eexists.
    + intros Hp. apply E2. by eapply prefix_app_l.
Qed.

(** ** The three kinds of phase *)

Section Phases.
Context {S : Type} (step : text → S → result (text * bool * ToolStream * S)) (hold : text → S → S).
Context (good : S → Prop) (bad : text → S → Prop) (measure : text → S → nat) (both : bool).
Context (Hnil : ∀ s, good s → hold [] s = s).
Context (Hdec : ∀ t s t' e s', good s → step t s = Ok (t', false, e, s') → t ≠ [] →
  measure t' s' < measure t s ∧ good s').
Implicit Types (t b h u : text) (s : S) (o e : ToolStream).

(** Waiting with the whole text in hand. *)
Lemma waits_all t s :
  good s → t ≠ [] → ¬ bad t s → step t s = Ok (t, true, nothing, s) →
  waits step hold good bad both t s.
Proof.
  intros Hg Ht Hb Hs. exists t, nothing, s. split_and!; [by apply runs_block|done|].
  intros b o s2 Hr. exists o. by rewrite out_app_nil_l.
Qed.

(** A step that only looks at the front of the text. *)
Lemma forwards_front t s t' e s' :
  good s → t ≠ [] → ¬ bad t s → (∀ b, step (t ++ b) s = Ok (t' ++ b, false, e, s')) →
  forwards step good bad measure t s.
Proof.
  intros Hg Ht Hb Hs. pose proof (Hs []) as H0. rewrite !app_nil_r in H0.
  destruct (Hdec _ _ _ _ _ Hg H0 Ht). by exists t', e, s'.
Qed.

(** A phase that expects a tag at once. *)
Lemma gate_phase gate (next : S) (other : text → text * bool * ToolStream * S) t s :
  good s → t ≠ [] →
  (∀ u, bad u s → startswith u gate = false ∧ startswith gate u = false) →
  (∀ u, step u s = Ok (if startswith u gate then (drop (length gate) u, false, nothing, next)
                       else if startswith gate u then (u, true, nothing, s) else other u)) →
  forwards step good bad measure t s ∨ waits step hold good bad both t s ∨
  ∀ b, startswith (t ++ b) gate = false ∧ startswith gate (t ++ b) = false.
Proof.
  intros Hg Ht Hbad Hs. destruct (gate_app gate t) as [[E1 Hb]|[[E1 E2]|(E1 & E2 & Hb)]].
  - left. apply (forwards_front t s (drop (length gate) t) nothing next); [done|done| |].
    + intros [? _]%Hbad. congruence.
    + intros b. destruct (Hb b) as [E3 E4]. by rewrite Hs, E3, E4.
  - right; left. apply waits_all; [done|done| |by rewrite Hs, E1, E2].
    intros [_ ?]%Hbad. congruence.
  - by right; right.
Qed.

(** A phase that scans for [tag]: [found] and [passed] are what it emits for
    the text before an occurrence and for text ruled out. *)
Context (tag : text) (Htag : tag ≠ []).
Context (found passed : text → ToolStream) (next : S) (s : S) (wait : text → bool).
Context (Hwait : ∀ h, h ≠ [] → wait h = true).
Context (Hbad : ∀ t, ¬ bad t s) (Hg : good s).
Context (Hstep : ∀ t, step t s = Ok
  match find tag t with
  | Some i => (drop (i + length tag) t, false, found (take i t), next)
  | None => let h := Reasoning._partial_suffix t tag in
            (h, wait h, passed (cut (length h) t), s)
  end).
Context (Hfound : ∀ x y, out_eq both (found (x ++ y)) (out_app (passed x) (found y))).
Context (Hpassed : ∀ x y, out_eq both (passed (x ++ y)) (out_app (passed x) (passed y))).

Lemma scan_parks t :
  t ≠ [] → find tag t = None →
  runs step hold bad t s (passed (cut (length (Reasoning._partial_suffix t tag)) t))
    (hold (Reasoning._partial_suffix t tag) s).
Proof.
  intros Ht Hf. pose proof (Hstep t) as Hs. rewrite Hf in Hs. cbv zeta in Hs.
  set (h := Reasoning._partial_suffix t tag) in *. destruct (wait h) eqn:Hw.
  - by apply runs_block.
  - destruct (decide (h = [])) as [E|Hne]; [|by rewrite Hwait in Hw].
    rewrite E in Hs |- *. rewrite Hnil by done.
    rewrite <- (out_app_nil_r (passed _)). eapply runs_go; [done|done|exact Hs|constructor].
Qed.

Lemma scan_waits t : t ≠ [] → find tag t = None → waits step hold good bad both t s.
Proof.
  intros Ht Hf. set (h := Reasoning._partial_suffix t tag). set (e := cut (length h) t).
  exists h, (passed e), s. split_and!; [by apply scan_parks|done|]. intros b o s2 Hr.
  destruct (tag_scan_app tag t b Htag Hf) as (Et & Efind & Eps & Ecut). fold h e in Et, Efind, Eps, Ecut.
  assert (Htb : t ++ b ≠ []) by (by destruct t).
  pose proof (Hstep (t ++ b)) as Hs. rewrite Efind in Hs. pose proof (Hstep (h ++ b)) as Hs'.
  destruct (find tag (h ++ b)) as [i|] eqn:Ei; cbn in Hs.
  - assert (Hhb : h ++ b ≠ []).
    { intros E. apply find_bound in Ei. rewrite E in Ei. destruct tag; [done|]. cbn in Ei. lia. }
    assert (Ehb : t ++ b = e ++ h ++ b) by (by rewrite app_assoc, <- Et).
    rewrite Ehb, take_app_add, <- Nat.add_assoc, drop_app_add, <- Ehb in Hs.
    destruct (runs_go_inv _ _ _ _ _ _ _ _ _ _ Hr Htb Hs) as (o0 & -> & H4).
    exists (out_app (found (take i (h ++ b))) o0). split; [by eapply runs_go|].
    by rewrite Hfound, out_app_assoc.
  - assert (Hftb : find tag (t ++ b) = None) by (by rewrite Efind).
    destruct (runs_fun _ _ _ _ _ _ _ _ _ Hr (scan_parks (t ++ b) Htb Hftb)) as [-> ->].
    rewrite Eps, Ecut. destruct (decide (h ++ b = [])) as [E|Hhb].
    + exists nothing. rewrite E. split; [|by rewrite app_nil_r, out_app_nil_r].
      change (Reasoning._partial_suffix [] tag) with (@nil Z). rewrite Hnil by done. constructor.
    + eexists. split; [by apply scan_parks|apply Hpassed].
Qed.

Lemma scan_forwards t i :
  t ≠ [] → find tag t = Some i → forwards step good bad measure t s.
Proof.
  intros Ht Hf. eapply forwards_front; [done|done|done|]. intros b. rewrite Hstep.
  rewrite (find_app _ _ b _ Hf). pose proof (find_bound _ _ _ Hf).
  by rewrite drop_app_le, take_app_le by lia.
Qed.

Lemma scan_phase t :
  t ≠ [] → forwards step good bad measure t s ∨ waits step hold good bad both t s.
Proof.
  intros Ht. destruct (find tag t) as [i|] eqn:Ef; [left|right].
  - by eapply scan_forwards.
  - by apply scan_waits.
Qed.
End Phases.
End Chunking.
