(* ===== verification/ToolSpec.v ===== *)
(** * What chunking changes, and what it does not

    Both parsers promise that any split of the text gives what one piece
    gives.  Here is how far each keeps the promise, and where it breaks. *)

From S2P Require Export ToolChunking.

Module ToolSpec.
Import Text Tools Chunking.

(** ** DeepSeek-V3 *)

Module DeepSeekChunks.
Import DeepSeek.
Implicit Types (t b : text) (s : DeepSeekToolParser).

Definition good s : Prop := _held s = [].
(** A call header or a fence that is not the expected one. *)
Definition malformed t s : Prop :=
  match _state s with
  | header => startswith t _DS_HEADER = false ∧ startswith _DS_HEADER t = false
  | fence => startswith t _DS_FENCE = false ∧ startswith _DS_FENCE t = false
  | _ => False
  end.
Definition malformedb t s : bool :=
  match _state s with
  | header => negb (startswith t _DS_HEADER || startswith _DS_HEADER t)
  | fence => negb (startswith t _DS_FENCE || startswith _DS_FENCE t)
  | _ => false
  end.
(** The parser gets through the whole text without meeting either. *)
Definition well_marked t : bool := clean_loop step malformedb (fuel_for t) t init.
Definition measure t s : nat := 2 * length t + match _state s with trailer => 1 | _ => 0 end.

Lemma drop_lt {A} n (l : list A) : l ≠ [] → 0 < n → length (drop n l) < length l.
Proof. intros Hl Hn. rewrite length_drop. destruct l; [done|cbn; lia]. Qed.

Lemma ds_measure_bounds t s : t ≠ [] → 0 < measure t s ≤ fuel_for t.
Proof. unfold measure, fuel_for. destruct t; [done|]. cbn. destruct (_state s); lia. Qed.

Lemma ds_hold_nil s : good s → hold [] s = s.
Proof. destruct s. cbv. by intros ->. Qed.
Lemma ds_hold_held h s : good s → _held (hold h s) = h ∧ hold [] (hold h s) = s.
Proof. intros Hg. split; [done|exact (ds_hold_nil s Hg)]. Qed.

Lemma measure_lt t t' s s' : length t' < length t → measure t' s' < measure t s.
Proof. unfold measure. destruct (_state s), (_state s'); lia. Qed.
Lemma measure_drop n t s s' : t ≠ [] → 0 < n → measure (drop n t) s' < measure t s.
Proof. intros Ht Hn. by apply measure_lt, drop_lt. Qed.
Lemma measure_nil t s s' : t ≠ [] → measure [] s' < measure t s.
Proof. intros Ht. apply measure_lt. destruct t; [done|cbn; lia]. Qed.

Lemma ds_step_decreases t s t' e s' :
  good s → step t s = Ok (t', false, e, s') → t ≠ [] → measure t' s' < measure t s ∧ good s'.
Proof.
  intros Hg Hs Ht. unfold step in Hs. injection Hs as Hs. destruct (_state s) eqn:Ep;
    unfold _step_outside, _step_header, _step_name, _step_fence, _step_args, _step_trailer in Hs;
    repeat case_match; simplify_eq; (split; [|exact Hg]);
    try (apply measure_drop; [done|cbn; lia]); try by apply measure_nil.
  - match goal with H : bool_decide _ = false |- _ =>
      apply bool_decide_eq_false, dec_stable in H; rewrite H end. by apply measure_nil.
  - unfold measure. cbn. rewrite Ep. lia.
Qed.

(** Every phase either goes on, waits, or meets malformed markup. *)
Lemma ds_step_cases t s :
  good s → t ≠ [] →
  forwards step good malformed measure t s ∨ waits step hold good malformed true t s ∨
  ∀ b, malformed (t ++ b) s.
Proof.
  intros Hg Ht. destruct (_state s) eqn:Ep.
  - apply or_assoc. left.
    apply (scan_phase step hold good malformed measure true ds_hold_nil ds_step_decreases
      _DS_CALLS_BEGIN ltac:(done) (λ x, Stream x []) (λ x, Stream x []) (goto header s) s
      (λ h, bool_decide (h ≠ []))); try done.
    + intros h Hh. by apply bool_decide_eq_true.
    + intros u. unfold malformed. rewrite Ep. cbn. tauto.
    + intros u. unfold step. rewrite Ep. unfold _step_outside. by destruct (find _ u).
  - destruct (gate_phase step hold good malformed measure true ds_step_decreases
      _DS_HEADER (goto name s) (λ u, ([], false, Stream u [], goto outside s)) t s Hg Ht)
      as [|[|Hb]]; [..|by left|by right; left|].
    + intros u. unfold malformed. rewrite Ep. cbn. tauto.
    + intros u. unfold step. by rewrite Ep.
    + right; right. intros b. unfold malformed. rewrite Ep. apply Hb.
  - destruct (find newline t) as [i|] eqn:Ef.
    + left. eapply (forwards_front step good malformed measure ds_step_decreases); [done|done| |].
      { unfold malformed. rewrite Ep. cbn. tauto. }
      intros b. unfold step. rewrite Ep. unfold _step_name. rewrite (find_app _ _ b _ Ef).
      pose proof (find_bound _ _ _ Ef) as Hi. cbn in Hi. by rewrite drop_app_le, take_app_le by lia.
    + right; left. apply waits_all; [done|done| |].
      { unfold malformed. rewrite Ep. cbn. tauto. }
      unfold step. rewrite Ep. unfold _step_name. by rewrite Ef.
  - destruct (gate_phase step hold good malformed measure true ds_step_decreases
      _DS_FENCE (goto args s) (λ u, ([], false, Stream u [], goto outside s)) t s Hg Ht)
      as [|[|Hb]]; [..|by left|by right; left|].
    + intros u. unfold malformed. rewrite Ep. cbn. tauto.
    + intros u. unfold step. by rewrite Ep.
    + right; right. intros b. unfold malformed. rewrite Ep. apply Hb.
  - pose (f := λ x, Stream [] [args_delta (_index s - 1) x]).
    apply or_assoc. left.
    apply (scan_phase step hold good malformed measure true ds_hold_nil ds_step_decreases
      _DS_ARGS_END ltac:(done) f f (goto trailer s) s (λ _, true)); try done.
    + intros u. unfold malformed. rewrite Ep. cbn. tauto.
    + intros u. unfold step. rewrite Ep. unfold _step_args. by destruct (find _ u).
    + intros x y. split; [done|]. symmetry. apply merge_args.
    + intros x y. split; [done|]. symmetry. apply merge_args.
  - destruct (gate_app _DS_CALLS_END t) as [[E1 Hb]|[[E1 E2]|(E1 & E2 & Hb)]].
    all: assert (Hnb : ∀ u, ¬ malformed u s) by (intros u; unfold malformed; rewrite Ep; cbn; tauto).
    + left. apply (forwards_front step good malformed measure ds_step_decreases t s
        (drop (length _DS_CALLS_END) t) nothing (goto outside s)); [done|done|done|].
      intros b. destruct (Hb b) as [E3 E4]. unfold step. rewrite Ep. unfold _step_trailer. by rewrite E3, E4.
    + right; left. apply waits_all; [done|done|done|].
      unfold step. rewrite Ep. unfold _step_trailer. by rewrite E1, E2.
    + left. apply (forwards_front step good malformed measure ds_step_decreases t s
        t nothing (goto header s)); [done|done|done|].
      intros b. destruct (Hb b) as [E3 E4]. unfold step. rewrite Ep. unfold _step_trailer. by rewrite E3, E4.
Qed.

Lemma malformedb_spec t s : malformedb t s = false → ¬ malformed t s.
Proof.
  unfold malformedb, malformed. destruct (_state s); try tauto;
    rewrite negb_false_iff, orb_true_iff; naive_solver congruence.
Qed.

Lemma ds_feed_loop d s :
  feed d s = loop step hold (fuel_for (_held s ++ d)) (_held s ++ d) nothing (hold [] s).
Proof. done. Qed.

Lemma ds_step_total t s :
  good s → t ≠ [] → ¬ False ∧ ∃ h (w : bool) e s', step t s = Ok (h, w, e, s') ∧ good s' ∧
    (w = false → measure h s' < measure t s).
Proof.
  intros Hg Ht. split; [tauto|]. destruct (step t s) as [[[[h b] e] s']|] eqn:Es; [|done].
  exists h, b, e, s'. split; [done|]. destruct b.
  - split; [|done]. unfold step in Es. injection Es as Es.
    destruct (_state s);
      unfold _step_outside, _step_header, _step_name, _step_fence, _step_args, _step_trailer in Es;
      repeat case_match; by simplify_eq.
  - destruct (ds_step_decreases _ _ _ _ _ Hg Es Ht). by split.
Qed.

(** A parser that recognises a call only when the text comes in two pieces. *)
Definition stray_header : list text :=
  [_DS_CALLS_BEGIN ++ lit "x";
   _DS_CALLS_BEGIN ++ _DS_HEADER ++ lit "f" ++ newline ++ _DS_FENCE ++ lit "{}" ++ _DS_ARGS_END].

(** C26: The DeepSeek parser never raises and always comes to an end, whatever
    the deltas.  As long as every call header and every code fence it meets
    is the expected one, any split of the text gives exactly what one piece
    gives, content and merged calls alike.  After a malformed header it does
    not: the one-shot parse passes the rest of the text through as content,
    while the streamed one starts looking for calls again at the next delta. *)
Theorem deepseek_chunking :
  (∀ deltas, ∃ r, stream DeepSeekToolParser deltas = Ok r) ∧
  (∀ deltas, well_marked (concat deltas) = true →
    stream DeepSeekToolParser deltas = parse DeepSeekToolParser (concat deltas)) ∧
  stream DeepSeekToolParser stray_header ≠ parse DeepSeekToolParser (concat stray_header).
Proof.
  split_and!.
  - intros deltas. destruct (feed_all_total step hold good (λ _ _, False) measure _held ds_hold_held ds_hold_nil
      feed ds_feed_loop ds_measure_bounds ds_step_decreases deltas [] init ds_step_total eq_refl)
      as (o & h & s & E1 & _).
    change (hold [] init) with init in E1. unfold stream. cbn [Tools.feed Tools.fresh deepseek].
    rewrite E1. cbn [mbind result_bind]. by eexists.
  - intros deltas Hw. destruct (clean_runs step hold malformed _ _ _ _ malformedb_spec Hw) as (o & s & Hr).
    destruct deltas as [|d deltas]; [done|].
    destruct (feed_all_runs step hold good malformed measure true ds_step_cases _held ds_hold_held ds_hold_nil
      feed ds_feed_loop ds_measure_bounds ds_step_decreases d deltas [] init o s eq_refl Hr) as (o' & E1 & Ho).
    pose proof (feed_runs step hold good malformed measure _held ds_hold_held
      feed ds_feed_loop ds_measure_bounds ds_step_decreases _ [] init o s eq_refl Hr) as E2.
    change (hold [] init) with init in E1, E2. unfold stream, parse. cbn [Tools.feed Tools.fresh deepseek].
    rewrite E1, E2. cbn [mbind result_bind]. destruct Ho as [Hc Hd]. cbn. rewrite Hc by done.
    do 2 f_equal. apply merge_deltas_eq. by rewrite Hd.
  - by vm_compute.
Qed.
End DeepSeekChunks.

(** ** Qwen *)

Module QwenChunks.
Import Scanner.
Implicit Types (t b a : text) (sc : _JsonCallScanner).

Lemma scan_app t b sc :
  scan (t ++ b) sc =
    let '(a1, n1, sc1) := scan t sc in
    let '(a2, n2, sc2) := scan b sc1 in (a1 ++ a2, n1 + n2, sc2).
Proof.
  revert sc. induction t as [|c t IH]; intros sc; cbn [app scan].
  - by destruct (scan b sc) as [[a2 n2] sc2].
  - destruct (decide (_state sc = DONE)) as [Hd|Hd].
    + destruct b as [|c' b]; cbn [scan]; [done|]. by rewrite decide_True.
    + destruct (_take c sc) as [a sc0]. rewrite IH. destruct (scan t sc0) as [[a1 n1] sc1].
      destruct (scan b sc1) as [[a2 n2] sc2]. by rewrite app_assoc.
Qed.

(** An object that is not complete has eaten all of the text. *)
Lemma scan_consumed t sc :
  let '(_, n, sc') := scan t sc in
  n ≤ length t ∧ (complete sc' = false → n = length t) ∧
  (complete sc = false → t ≠ [] → 0 < n).
Proof.
  revert sc. induction t as [|c t IH]; intros sc; cbn [scan]; [done|].
  unfold complete at 2. destruct (decide (_state sc = DONE)) as [Hd|Hd].
  - rewrite bool_decide_true by done. unfold complete. rewrite bool_decide_true by done.
    split_and!; [lia|done|done].
  - destruct (_take c sc) as [a sc0]. specialize (IH sc0). destruct (scan t sc0) as [[a1 n1] sc1].
    destruct IH as (H1 & H2 & _). cbn. split_and!; [lia|intros Hc; by rewrite H2|lia].
Qed.
Lemma scan_done t sc : complete sc = true → scan t sc = ([], 0, sc).
Proof. intros Hd%bool_decide_eq_true. destruct t; cbn [scan]; [done|]. by rewrite decide_True. Qed.

(** A known name is overwritten. *)
Fixpoint renames t sc : bool :=
  match t with
  | [] => false
  | c :: t =>
      if decide (_state sc = DONE) then false
      else
        let sc' := (_take c sc).2 in
        bool_decide (sc_name sc ≠ None ∧ sc_name sc' ≠ sc_name sc) || renames t sc'
  end.

Lemma renames_app t b sc : renames (t ++ b) sc = renames t sc || renames b (scan t sc).2.
Proof.
  revert sc. induction t as [|c t IH]; intros sc; cbn [app renames scan]; [done|].
  destruct (decide (_state sc = DONE)) as [Hd|Hd].
  - destruct b as [|c' b]; cbn [renames]; [done|]. cbn. by rewrite decide_True.
  - destruct (_take c sc) as [a sc0]. cbn [snd]. rewrite IH. 
    destruct (scan t sc0) as [[a1 n1] sc1]. cbn [snd]. by rewrite orb_assoc.
Qed.
Lemma name_kept t sc n :
  renames t sc = false → sc_name sc = Some n → sc_name (scan t sc).2 = Some n.
Proof.
  revert sc. induction t as [|c t IH]; intros sc; cbn [renames scan]; [done|].
  destruct (decide (_state sc = DONE)) as [Hd|Hd]; [done|]. destruct (_take c sc) as [a sc0].
  cbn [snd]. intros [H1 H2]%orb_false_iff Hn. apply bool_decide_eq_false in H1.
  assert (Hn0 : sc_name sc0 = Some n) by (destruct (decide (sc_name sc0 = Some n)); naive_solver congruence).
  specialize (IH sc0 H2 Hn0). by destruct (scan t sc0) as [[a1 n1] sc1].
Qed.

Import Qwen.
Implicit Types (s : QwenToolParser).

(** Emitting in two pieces. *)
Lemma emit_app sc1 sc2 a1 a2 s :
  (∀ n, sc_name sc1 = Some n → sc_name sc2 = Some n) →
  let '(o1, s1) := emit sc1 a1 s in
  let '(o2, s2) := emit sc2 a2 s1 in
  let '(o, s2') := emit sc2 (a1 ++ a2) s in
  s2' = s2 ∧ deltas_eq o (o1 ++ o2).
Proof.
  intros Hn. destruct s as [st h sc i ann p]. unfold emit. cbn.
  destruct ann; cbn.
  - destruct (sc_name sc1), (sc_name sc2); cbn; (split; [done|]); symmetry; apply merge_args_run.
  - destruct (sc_name sc1) as [n|]; cbn.
    + rewrite (Hn n eq_refl). cbn. split; [done|]. rewrite <- !app_assoc.
      rewrite (Z.add_simpl_r i 1). change (?d :: ?l) with ([d] ++ l).
      by rewrite <- merge_args_run, !app_assoc.
    + destruct (sc_name sc2) as [n|]; cbn.
      * split; [done|]. rewrite (Z.add_simpl_r i 1).
        change (?d :: ?l) with ([d] ++ l). rewrite <- !merge_args_run. by rewrite !app_assoc.
      * split; [|done]. by rewrite app_assoc.
Qed.

(** ** The phases *)

Definition good s : Prop :=
  _held s = [] ∧ (_state s = scanning → ∃ sc, _scanner s = Some sc ∧ complete sc = false).
(** A scan that reads a second, different name. *)
Definition renaming t s : bool :=
  match _state s, _scanner s with
  | scanning, Some sc => renames t sc
  | _, _ => false
  end.
Definition bad t s : Prop := renaming t s = true.
Definition measure t s : nat := length t.
(** The parser gets through the whole text without such a scan. *)
Definition names_once t : bool := clean_loop step renaming (fuel_for t) t init.

Lemma qwen_hold_nil s : good s → hold [] s = s.
Proof. destruct s. intros [Hh _]. cbv in *. by rewrite Hh. Qed.
Lemma qwen_hold_held h s : good s → _held (hold h s) = h ∧ hold [] (hold h s) = s.
Proof. intros Hg. split; [done|exact (qwen_hold_nil s Hg)]. Qed.
Lemma qwen_measure_bounds t s : t ≠ [] → 0 < measure t s ≤ fuel_for t.
Proof. unfold measure, fuel_for. destruct t; [done|]. cbn. lia. Qed.

Lemma emit_view sc a s : let s' := (emit sc a s).2 in
  _state s' = _state s ∧ _held s' = _held s ∧ _scanner s' = Some sc.
Proof.
  unfold emit. destruct (sc_name sc); destruct (_announced s); cbn; try done;
    by destruct s as [? ? ? ? [] ?].
Qed.

Lemma qwen_step_total t s :
  good s → t ≠ [] → ∃ h (w : bool) e s', step t s = Ok (h, w, e, s') ∧ good s' ∧
    (w = false → measure h s' < measure t s).
Proof.
  intros [Hh Hs] Ht. assert (Hpos : 0 < length t) by (destruct t; [done|cbn; lia]).
  unfold step, measure. destruct (_state s) eqn:Ep.
  - unfold _outside. destruct (find _QWEN_OPEN t) as [i|].
    + eexists _, _, _, _. split; [done|]. split; [|intros _; rewrite length_drop; cbn; lia].
      split; [done|]. intros _. by eexists.
    + eexists _, _, _, _. split; [done|]. split; [split; [done|congruence]|].
      intros ->%bool_decide_eq_false%dec_stable. done.
  - destruct (Hs eq_refl) as (sc & Esc & Hc). unfold _scanning. rewrite Esc.
    pose proof (scan_consumed t sc) as Hn. destruct (scan t sc) as [[a n] sc'].
    destruct Hn as (Hn1 & Hn2 & Hn3). pose proof (emit_view sc' a s) as He.
    destruct (emit sc' a s) as [o s']. destruct He as (He1 & He2 & He3). cbn in He1, He2, He3.
    destruct (complete sc') eqn:Ec; eexists _, _, _, _; (split; [done|]); cbn.
    + split; [split; [by rewrite <- Hh|done]|]. intros _. rewrite length_drop.
      specialize (Hn3 Hc Ht). lia.
    + split; [|done]. split; [by rewrite He2|]. intros _. by exists sc'.
  - unfold _closing. destruct (find _QWEN_CLOSE t) as [i|].
    + eexists _, _, _, _. split; [done|]. split; [|intros _; rewrite length_drop; cbn; lia].
      split; [done|]. done.
    + eexists _, _, _, _. split; [done|]. split; [split; [done|congruence]|].
      intros ->%bool_decide_eq_false%dec_stable. done.
Qed.
Lemma qwen_step_decreases t s t' e s' :
  good s → step t s = Ok (t', false, e, s') → t ≠ [] → measure t' s' < measure t s ∧ good s'.
Proof.
  intros Hg Hs Ht. destruct (qwen_step_total t s Hg Ht) as (h & w & e1 & s1 & Es & Hg1 & Hlt).
  rewrite Hs in Es. injection Es as <- <- <- <-. by split; [apply Hlt|].
Qed.

(** A scan in two pieces, when the first leaves the object open. *)
Lemma scanning_waits t s sc :
  good s → t ≠ [] → _state s = scanning → _scanner s = Some sc → ¬ bad t s →
  complete (scan t sc).2 = false → waits step hold good bad false t s.
Proof.
  intros Hg Ht Ep Esc Hb Hc1. destruct (qwen_step_total t s Hg Ht) as (h & w & e & s1 & Es & Hg1 & _).
  assert (Hstep : ∀ u s0 sc0, _state s0 = scanning → _scanner s0 = Some sc0 →
    step u s0 = (let '(a, n, sc') := scan u sc0 in let '(o, s') := emit sc' a s0 in
      Ok (if complete sc' then (drop n u, false, Stream [] o, goto closing s')
          else ([], true, Stream [] o, s')))).
  { intros u s0 sc0 E1 E2. unfold step, _scanning. by rewrite E1, E2. }
  pose proof (Hstep t s sc Ep Esc) as Est. pose proof (scan_consumed t sc) as Hn.
  assert (Hren : renames t sc = false).
  { unfold bad, renaming in Hb. rewrite Ep, Esc in Hb. by destruct (renames t sc). }
  pose proof (λ n, name_kept t sc n Hren) as Hkept.
  destruct (scan t sc) as [[a1 n1] sc1] eqn:E1. cbn [snd] in *.
  pose proof (emit_view sc1 a1 s) as He. destruct (emit sc1 a1 s) as [o1 s1'] eqn:Em1.
  destruct He as (He1 & He2 & He3). cbn in He1, He2, He3. rewrite Hc1 in Est.
  destruct Hn as (_ & Hn1 & _). specialize (Hn1 Hc1). subst n1.
  rewrite Es in Est. injection Est as -> -> -> ->.
  exists [], (Stream [] o1), s1'. split_and!; [by apply runs_block|done|]. intros b o s2 Hr. cbn [app].
  destruct (decide (b = [])) as [->|Hbne].
  { rewrite app_nil_r in Hr. exists nothing.
    assert (Hrt : runs step hold bad t s (Stream [] o1) (hold [] s1')) by (by apply runs_block).
    destruct (runs_fun _ _ _ _ _ _ _ _ _ Hr Hrt) as [-> ->]. rewrite qwen_hold_nil by done.
    split; [constructor|by rewrite out_app_nil_r]. }
  assert (Htb : t ++ b ≠ []) by (by destruct t).
  pose proof (runs_not_bad _ _ _ _ _ _ _ Hr Htb) as Hbad.
  assert (Hren2 : renames b sc1 = false ∧ ¬ bad b s1').
  { unfold bad, renaming in *. rewrite He1, He3, Ep. rewrite Ep, Esc, renames_app, E1 in Hbad. cbn in Hbad.
    rewrite Hren in Hbad. cbn in Hbad. by destruct (renames b sc1). }
  destruct Hren2 as [Hren2 Hbad2].
  pose proof (Hstep (t ++ b) s sc Ep Esc) as Etb. rewrite scan_app, E1 in Etb.
  pose proof (Hstep b s1' sc1 ltac:(congruence) He3) as Eb.
  pose proof (name_kept b sc1) as Hk. destruct (scan b sc1) as [[a2 n2] sc2]. cbn in Hk, Etb.
  pose proof (emit_app sc1 sc2 a1 a2 s (λ n, Hk n Hren2)) as Hem. rewrite Em1 in Hem.
  destruct (emit sc2 a2 s1') as [o2 s2']. destruct (emit sc2 (a1 ++ a2) s) as [o12 s12].
  destruct Hem as [-> Ho]. rewrite drop_app_add in Etb.
  assert (Hout : ∀ x, out_eq false (out_app (Stream [] o12) x) (out_app (Stream [] o1) (out_app (Stream [] o2) x))).
  { intros x. split; [done|]. cbn. by rewrite Ho, app_assoc. }
  destruct (complete sc2).
  - destruct (runs_go_inv _ _ _ _ _ _ _ _ _ _ Hr Htb Etb) as (o0 & -> & Hr0).
    exists (out_app (Stream [] o2) o0). split; [by eapply runs_go|apply Hout].
  - assert (Hrt : runs step hold bad (t ++ b) s (Stream [] o12) (hold [] s2')) by (by apply runs_block).
    destruct (runs_fun _ _ _ _ _ _ _ _ _ Hr Hrt) as [-> ->].
    exists (Stream [] o2). split; [by apply runs_block|]. specialize (Hout nothing).
    by rewrite !out_app_nil_r in Hout.
Qed.

Lemma qwen_step_cases t s :
  good s → t ≠ [] →
  forwards step good bad measure t s ∨ waits step hold good bad false t s ∨ ∀ b, bad (t ++ b) s.
Proof.
  intros Hg Ht. destruct (_state s) eqn:Ep.
  - apply or_assoc. left.
    apply (scan_phase step hold good bad measure false qwen_hold_nil qwen_step_decreases
      _QWEN_OPEN ltac:(done) (λ x, Stream x []) (λ x, Stream x [])
      (Parser scanning (_held s) (Some Scanner.init) (_index s) false []) s
      (λ h, bool_decide (h ≠ []))); try done.
    + intros h Hh. by apply bool_decide_eq_true.
    + intros u. unfold bad, renaming. by rewrite Ep.
    + intros u. unfold step. rewrite Ep. unfold _outside. by destruct (find _ u).
  - destruct (proj2 Hg Ep) as (sc & Esc & Hc). destruct (renames t sc) eqn:Er.
    { right; right. intros b. unfold bad, renaming. by rewrite Ep, Esc, renames_app, Er. }
    assert (Hb : ¬ bad t s) by (unfold bad, renaming; by rewrite Ep, Esc, Er).
    destruct (complete (scan t sc).2) eqn:Ec; [left|right; left; by eapply scanning_waits].
    destruct (qwen_step_total t s Hg Ht) as (h & w & e & s1 & Es & Hg1 & Hlt).
    pose proof Es as Es'. unfold step, _scanning in Es'. rewrite Ep, Esc in Es'.
    pose proof (scan_consumed t sc) as Hn. destruct (scan t sc) as [[a1 n1] sc1] eqn:E1.
    cbn in Ec. destruct (emit sc1 a1 s) as [o1 s1'] eqn:Em. rewrite Ec in Es'. injection Es' as <- <- <- <-.
    exists (drop n1 t), (Stream [] o1), (goto closing s1'). split_and!; [done|done|by apply Hlt|done|].
    intros b. unfold step, _scanning. rewrite Ep, Esc, scan_app, E1, scan_done by done.
    rewrite app_nil_r, Nat.add_0_r, Em, Ec. by rewrite drop_app_le by apply Hn.
  - apply or_assoc. left.
    apply (scan_phase step hold good bad measure false qwen_hold_nil qwen_step_decreases
      _QWEN_CLOSE ltac:(done) (λ _, nothing) (λ x, Stream x []) (goto outside s) s
      (λ h, bool_decide (h ≠ []))); try done.
    + intros h Hh. by apply bool_decide_eq_true.
    + intros u. unfold bad, renaming. by rewrite Ep.
    + intros u. unfold step. rewrite Ep. unfold _closing. by destruct (find _ u).
Qed.

Lemma qwen_feed_loop d s :
  feed d s = loop step hold (fuel_for (_held s ++ d)) (_held s ++ d) nothing (hold [] s).
Proof. done. Qed.
Lemma init_good : good init.
Proof. done. Qed.

Definition json_call : text :=
  [123; 34]%Z ++ lit "name" ++ [34; 58; 34]%Z ++ lit "f" ++ [34; 44; 34]%Z ++ lit "arguments" ++
  [34; 58]%Z ++ lit "{}}".
(** A well-formed call, as the model writes it: the element's own line breaks. *)
Definition split_call : list text :=
  [_QWEN_OPEN ++ newline ++ json_call ++ newline; _QWEN_CLOSE].

(** C27: The Qwen parser never raises and always comes to an end, whatever the
    deltas, and as long as no object overwrites its name, any split of the
    text gives the same merged calls as one piece.  The content it does not
    keep: already for one well-formed call, the line break before the closing
    tag is dropped by the one-shot parse but streamed as content when the
    delta ends there. *)
Theorem qwen_chunking :
  (∀ deltas, ∃ r, stream QwenToolParser deltas = Ok r) ∧
  (∀ deltas, names_once (concat deltas) = true →
    ∃ c1 c2 calls, stream QwenToolParser deltas = Ok (c1, calls) ∧
      parse QwenToolParser (concat deltas) = Ok (c2, calls)) ∧
  stream QwenToolParser split_call =
    Ok (newline, [Call (lit "f") (lit "{}") (lit "call_0")]) ∧
  parse QwenToolParser (concat split_call) = Ok ([], [Call (lit "f") (lit "{}") (lit "call_0")]).
Proof.
  split_and!; [| |by vm_compute..].
  - intros deltas. destruct (feed_all_total step hold good (λ _ _, False) measure _held qwen_hold_held qwen_hold_nil
      feed qwen_feed_loop qwen_measure_bounds qwen_step_decreases deltas [] init) as (o & h & s & E1 & _); [|done|].
    { intros t s Hg Ht. split; [tauto|]. by apply qwen_step_total. }
    change (hold [] init) with init in E1. unfold stream. cbn [Tools.feed Tools.fresh qwen].
    rewrite E1. cbn [mbind result_bind]. by eexists.
  - intros deltas Hw. destruct (clean_runs step hold bad renaming (fuel_for (concat deltas))
      (concat deltas) init (λ t s, proj2 (not_true_iff_false _)) Hw) as (o & s & Hr).
    destruct deltas as [|d deltas]; [by eexists _, _, _|].
    destruct (feed_all_runs step hold good bad measure false qwen_step_cases _held qwen_hold_held qwen_hold_nil
      feed qwen_feed_loop qwen_measure_bounds qwen_step_decreases d deltas [] init o s init_good Hr) as (o' & E1 & Ho).
    pose proof (feed_runs step hold good bad measure _held qwen_hold_held
      feed qwen_feed_loop qwen_measure_bounds qwen_step_decreases _ [] init o s init_good Hr) as E2.
    change (hold [] init) with init in E1, E2. unfold stream, parse. cbn [Tools.feed Tools.fresh qwen].
    rewrite E1, E2. cbn [mbind result_bind]. eexists _, _, _. split; [done|]. cbn.
    do 2 f_equal. apply merge_deltas_eq. by rewrite (proj2 Ho).
Qed.
End QwenChunks.

(** ** Concrete streams *)

Import DeepSeekChunks QwenChunks.

Definition deepseek_text : text :=
  lit "ok" ++ _DS_CALLS_BEGIN ++ _DS_HEADER ++ lit "f" ++ newline ++ _DS_FENCE ++ lit "{}" ++
  _DS_ARGS_END ++ _DS_CALLS_END ++ lit "!".

(** One character at a time. *)
Definition letters (t : text) : list text := (λ c, [c]) <$> t.

Lemma deepseek_chunking_witness :
  well_marked (concat (letters deepseek_text)) = true ∧
  stream DeepSeek.DeepSeekToolParser (letters deepseek_text) =
    Ok (lit "ok!", [Call (lit "f") (lit "{}") (lit "call_0")]).
Proof.
  split; [vm_compute; reflexivity|].
  rewrite (proj1 (proj2 deepseek_chunking) (letters deepseek_text)); vm_compute; reflexivity.
Defined.

Lemma qwen_chunking_witness :
  names_once (concat (letters (concat split_call))) = true ∧
  ∃ c, stream Qwen.QwenToolParser (letters (concat split_call)) =
    Ok (c, [Call (lit "f") (lit "{}") (lit "call_0")]).
Proof.
  split; [vm_compute; reflexivity|].
  destruct (proj1 (proj2 qwen_chunking) (letters (concat split_call))) as (c1 & c2 & calls & E1 & E2);
    [vm_compute; reflexivity|].
  exists c1. rewrite E1. vm_compute in E2. injection E2 as _ <-. reflexivity.
Defined.
End ToolSpec.
