(* ===== verification/Detokenizer.v ===== *)
(** * Incremental detokenisation (detokenizer.py)

    Per-step token ids to per-step text deltas through a sliding window of
    tokens; the tokenizer's [decode] is a parameter. *)

From S2P Require Export PyText.

Module Detok.
Import Text.

Definition _REPLACEMENT_CHAR : text := [65533%Z].

Record _SequenceState := Seq {
  tokens : list Z;
  prefix_offset : nat;
  read_offset : nat;
  prefix_text : option text;
}.

Definition fresh_state : _SequenceState := Seq [] 0 0 None.

Section Detokenizer.
(** [tokenizer.decode(token_ids, skip_special_tokens=True)] *)
Context (decode : list Z → text).

(** [self._states] *)
Definition IncrementalDetokenizer : Type := list _SequenceState.
Definition init (batch_size : nat) : IncrementalDetokenizer := replicate batch_size fresh_state.

Definition get_state (index : nat) (d : IncrementalDetokenizer) : result _SequenceState :=
  match d !! index with Some s => Ok s | None => Err IndexError end.

Definition tokens_of (index : nat) (d : IncrementalDetokenizer) : result (list Z) :=
  s ← get_state index d; Ok (tokens s).

Definition _decode (token_ids : list Z) : text :=
  match token_ids with [] => [] | _ :: _ => decode token_ids end.

(** The window of a state, [tokens[prefix_offset:read_offset]]. *)
Definition window (s : _SequenceState) : list Z :=
  take (read_offset s - prefix_offset s) (drop (prefix_offset s) (tokens s)).

Definition append_state (token_id : Z) (s : _SequenceState) : text * _SequenceState :=
  let s := Seq (tokens s ++ [token_id]) (prefix_offset s) (read_offset s) (prefix_text s) in
  let prefix := match prefix_text s with Some p => p | None => _decode (window s) end in
  let full := _decode (drop (prefix_offset s) (tokens s)) in
  if (length full <=? length prefix) || endswith full _REPLACEMENT_CHAR
  then ([], Seq (tokens s) (prefix_offset s) (read_offset s) (Some prefix))
  else (drop (length prefix) full, Seq (tokens s) (read_offset s) (length (tokens s)) None).

Definition append (index : nat) (token_id : Z) (d : IncrementalDetokenizer) :
    result (text * IncrementalDetokenizer) :=
  s ← get_state index d;
  let '(delta, s) := append_state token_id s in
  Ok (delta, <[index := s]> d).

Definition text_of (index : nat) (d : IncrementalDetokenizer) : result text :=
  s ← get_state index d; Ok (_decode (tokens s)).

(** A client's stream: the deltas of the tokens in order, concatenated. *)
Fixpoint append_all (index : nat) (ids : list Z) (d : IncrementalDetokenizer) :
    result (text * IncrementalDetokenizer) :=
  match ids with
  | [] => Ok ([], d)
  | token_id :: ids =>
      '(d1, d) ← append index token_id d;
      '(d2, d) ← append_all index ids d;
      Ok (d1 ++ d2, d)
  end.

(** ** Streaming against the one-shot decode *)

(** The text ends in a complete character. *)
Definition complete (t : text) : Prop := endswith t _REPLACEMENT_CHAR = false.

Lemma endswith_snoc (l : text) c r : endswith (l ++ [c]) [r] = bool_decide (c = r).
Proof.
  unfold endswith. apply bool_decide_ext. split.
  - intros [k Hk]. by apply app_inj_tail in Hk as [_ ->].
  - intros ->. by exists l.
Qed.
Lemma endswith_app t1 t2 :
  t2 ≠ [] → endswith (t1 ++ t2) _REPLACEMENT_CHAR = endswith t2 _REPLACEMENT_CHAR.
Proof.
  destruct t2 as [|c l _] using rev_ind; [done|]. intros _. unfold _REPLACEMENT_CHAR.
  by rewrite app_assoc, !endswith_snoc.
Qed.

Lemma complete_app t1 t2 : t2 ≠ [] → complete (t1 ++ t2) ↔ complete t2.
Proof. intros Hne. unfold complete. by rewrite endswith_app. Qed.

(** What is relied on of the tokenizer: after tokens that have put complete text
    down, further tokens read as [cont] says, whatever came before; what they
    read as at the start of a text may be something else. *)
Class Reads (cont : list Z → text) : Prop := {
  reads_start a : a ≠ [] → decode a ≠ [] → complete (decode a) → cont a ≠ [] ∧ complete (cont a);
  reads_on a b : a ≠ [] → b ≠ [] → cont a ≠ [] → complete (cont a) → decode (a ++ b) = decode a ++ cont b;
}.

Context (cont : list Z → text) `{!Reads cont}.

Definition _cont (token_ids : list Z) : text :=
  match token_ids with [] => [] | _ :: _ => cont token_ids end.

Lemma cont_on a b : _cont a ≠ [] → complete (_cont a) → _decode (a ++ b) = _decode a ++ _cont b.
Proof.
  destruct a as [|x a]; [done|]. destruct b as [|y b]; [cbn; by rewrite !app_nil_r|]. by apply (reads_on (cont := cont)).
Qed.

Lemma cont_start a : _decode a ≠ [] → complete (_decode a) → _cont a ≠ [] ∧ complete (_cont a).
Proof. destruct a as [|x a]; [done|]. by apply (reads_start (cont := cont)). Qed.

(** What the tokens past [read_offset] add to the text emitted. *)
Definition unread (s : _SequenceState) : text :=
  if decide (read_offset s = 0) then _decode (tokens s) else _cont (drop (read_offset s) (tokens s)).

(** What one sequence's state remembers of its tokens: nothing is read yet, or
    the window continues a text. *)
Record seq_ok (s : _SequenceState) (emitted : text) : Prop := {
  so_order : prefix_offset s ≤ read_offset s ≤ length (tokens s);
  so_cache : ∀ p, prefix_text s = Some p → p = _decode (window s);
  so_emitted : emitted = _decode (take (read_offset s) (tokens s));
  so_start : read_offset s = 0 ∨
    (_cont (window s) ≠ [] ∧ complete (_cont (window s)) ∧ read_offset s ≠ 0 ∧ emitted ≠ [] ∧ complete emitted);
  so_tail : unread s = [] ∨ ¬ complete (unread s);
}.

Lemma fresh_ok : seq_ok fresh_state [].
Proof. split; try done; by left. Qed.

(** The text of the tokens is what was emitted, up to the unread tail. *)
Lemma seq_ok_text s emitted : seq_ok s emitted → _decode (tokens s) = emitted ++ unread s.
Proof.
  intros [_ _ He Hs _]. unfold unread. case_decide as Hr; [by rewrite He, Hr|].
  destruct Hs as [?|(_ & _ & _ & Hne & Hc)]; [done|].
  rewrite <- (take_drop (read_offset s) (tokens s)) at 1. subst emitted.
  destruct (cont_start _ Hne Hc) as [H1 H2]. by rewrite cont_on.
Qed.

Lemma tokens_split s : prefix_offset s ≤ read_offset s →
  take (read_offset s) (tokens s) = take (prefix_offset s) (tokens s) ++ window s ∧
  drop (prefix_offset s) (tokens s) = window s ++ drop (read_offset s) (tokens s).
Proof.
  intros Ho. unfold window. split.
  - rewrite <- take_add. f_equal. lia.
  - replace (read_offset s) with (prefix_offset s + (read_offset s - prefix_offset s)) at 2 by lia.
    by rewrite <- drop_drop, take_drop.
Qed.

(** A token arrives: the window and what was emitted stay. *)
Definition arrive (token_id : Z) (s : _SequenceState) : _SequenceState :=
  Seq (tokens s ++ [token_id]) (prefix_offset s) (read_offset s) (prefix_text s).

Lemma arrive_window token_id s emitted : seq_ok s emitted →
  window (arrive token_id s) = window s ∧
  take (read_offset s) (tokens s ++ [token_id]) = take (read_offset s) (tokens s) ∧
  drop (read_offset s) (tokens s ++ [token_id]) ≠ [].
Proof.
  intros [[Ho1 Ho2] _ _ _ _]. split_and!.
  - unfold window; cbn. rewrite drop_app_le, take_app_le; rewrite ?length_drop; done || lia.
  - by rewrite take_app_le by lia.
  - intros E%(f_equal length). rewrite length_drop, length_app in E. cbn in E. lia.
Qed.

(** What the state compares: the window's text, and that with the unread tail. *)
Lemma arrive_full token_id s emitted : seq_ok s emitted →
  (match prefix_text s with Some p => p | None => _decode (window (arrive token_id s)) end) = _decode (window s) ∧
  _decode (drop (prefix_offset s) (tokens s ++ [token_id])) = _decode (window s) ++ unread (arrive token_id s).
Proof.
  intros Hok. destruct (arrive_window token_id s emitted Hok) as (Hw & _ & _).
  pose proof Hok as [[Ho1 Ho2] Hc _ Hs _]. rewrite Hw. split.
  { destruct (prefix_text s) as [p|]; [by apply Hc|done]. }
  destruct (tokens_split (arrive token_id s)) as [_ Hd]; [done|]. cbn [tokens prefix_offset read_offset arrive] in Hd.
  rewrite Hd. change (Seq _ _ _ _) with (arrive token_id s) in Hd |- *. fold (arrive token_id s). rewrite Hw.
  unfold unread. cbn [tokens read_offset arrive]. case_decide as Hr.
  - assert (prefix_offset s = 0) as Hp by lia.
    assert (window s = []) as -> by (unfold window; by rewrite Hr, Hp). by rewrite Hr.
  - destruct Hs as [?|(H1 & H2 & _)]; [done|]. by apply cont_on.
Qed.

(** One token: what was emitted grows to the text of a longer prefix. *)
Lemma append_state_ok token_id s emitted :
  seq_ok s emitted →
  let '(delta, s') := append_state token_id s in
  seq_ok s' (emitted ++ delta) ∧ tokens s' = tokens s ++ [token_id].
Proof.
  intros Hok. destruct (arrive_window token_id s emitted Hok) as (Hw & Htk & Hrest).
  destruct (arrive_full token_id s emitted Hok) as [Hp Hf]. pose proof Hok as [[Ho1 Ho2] Hc He Hs Ht].
  unfold append_state. cbn zeta. fold (arrive token_id s). cbn [tokens prefix_offset read_offset prefix_text arrive].
  rewrite Hp, Hf, length_app. set (more := unread (arrive token_id s)) in *.
  destruct ((length (_decode (window s)) + length more <=? length (_decode (window s))) ||
    endswith (_decode (window s) ++ more) _REPLACEMENT_CHAR) eqn:Eh; (split; [|done]).
  - rewrite app_nil_r. split; cbn [tokens prefix_offset read_offset prefix_text].
    + rewrite length_app. lia.
    + intros p [= <-]. change (_decode (window s) = _decode (window (arrive token_id s))). by rewrite Hw.
    + by rewrite Htk.
    + destruct Hs as [Hs|Hs]; [by left|right]. by change (window (Seq _ _ _ _)) with (window (arrive token_id s)); rewrite Hw.
    + change (more = [] ∨ ¬ complete more).
      apply orb_true_iff in Eh as [Eh%Nat.leb_le|Eh]; [left; apply nil_length_inv; lia|].
      destruct (decide (more = [])) as [|Hne]; [by left|right].
      rewrite <- (complete_app (_decode (window s))) by done. unfold complete. congruence.
  - apply orb_false_iff in Eh as [Eh%Nat.leb_gt He'].
    assert (Hne : more ≠ []) by (intros E; rewrite E in Eh; cbn in Eh; lia).
    apply (complete_app _ _ Hne) in He'. rewrite drop_app_length.
    assert (Hall : window (Seq (tokens s ++ [token_id]) (read_offset s) (length (tokens s ++ [token_id])) None) =
      drop (read_offset s) (tokens s ++ [token_id])).
    { unfold window. cbn. apply take_ge. by rewrite length_drop. }
    assert (Hlen : length (tokens s ++ [token_id]) ≠ 0) by (rewrite length_app; cbn; lia).
    assert (Hem : emitted ++ more = _decode (tokens s ++ [token_id])).
    { symmetry. destruct (decide (read_offset s = 0)) as [Hr|Hr].
      - unfold more, unread. cbn [read_offset tokens arrive]. rewrite decide_True by done.
        by rewrite He, Hr.
      - destruct Hs as [?|(_ & _ & _ & Hs1 & Hs2)]; [done|].
        unfold more, unread. cbn [read_offset tokens arrive]. rewrite decide_False by done.
        rewrite <- (take_drop (read_offset s) (tokens s ++ [token_id])) at 1. rewrite Htk.
        subst emitted. destruct (cont_start _ Hs1 Hs2). by apply cont_on. }
    assert (Hcm : complete (emitted ++ more)) by by apply complete_app.
    assert (Hnm : emitted ++ more ≠ []) by by intros [_ ?]%app_nil.
    split; cbn [tokens prefix_offset read_offset prefix_text]; [|done| | |].
    + rewrite length_app. lia.
    + by rewrite take_ge.
    + right. rewrite Hall. split_and!; [| |done|done|done].
      all: destruct (decide (read_offset s = 0)) as [Hr|Hr].
      1, 3: rewrite Hr, drop_0; apply cont_start; by rewrite <- Hem.
      all: assert (_cont (drop (read_offset s) (tokens s ++ [token_id])) = more) as ->; [|done].
      all: unfold more, unread; cbn [read_offset tokens arrive]; by rewrite decide_False.
    + left. unfold unread. cbn [tokens read_offset]. rewrite decide_False by done. by rewrite drop_all.
Qed.

Lemma append_all_ok index ids d s emitted :
  d !! index = Some s → seq_ok s emitted →
  ∃ delta d' s', append_all index ids d = Ok (delta, d') ∧ d' !! index = Some s' ∧
    seq_ok s' (emitted ++ delta) ∧ tokens s' = tokens s ++ ids ∧
    ∀ j, j ≠ index → d' !! j = d !! j.
Proof.
  revert d s emitted. induction ids as [|id ids IH]; intros d s emitted Hs Hok.
  { exists [], d, s. by rewrite !app_nil_r. }
  cbn [append_all]. unfold append, get_state. rewrite Hs. cbn [mbind result_bind].
  pose proof (append_state_ok id s emitted Hok) as H1. destruct (append_state id s) as [d1 s1].
  destruct H1 as [Hok1 Ht1].
  assert (Hlt : index < length d) by (by eapply lookup_lt_Some).
  destruct (IH (<[index:=s1]> d) s1 (emitted ++ d1)) as (d2 & d' & s' & E2 & Hs' & Hok' & Ht' & Hj);
    [by apply list_lookup_insert_eq|done|].
  cbn [mbind result_bind]. rewrite E2. cbn [mbind result_bind]. exists (d1 ++ d2), d', s'. split_and!.
  - done.
  - done.
  - by rewrite app_assoc.
  - rewrite Ht', Ht1. by rewrite <- app_assoc.
  - intros j Hne. etrans; [by apply Hj|]. by apply list_lookup_insert_ne.
Qed.

(** C29: With a tokenizer whose tokens, once complete text is down, read the same
    whatever came before ([Reads]: byte-level tokenizers, and SentencePiece ones,
    which strip the space that starts a text and so do not decode token by
    token), streaming the tokens of one sequence never raises, leaves the other
    sequences alone, and the concatenated deltas are the one-shot decode up to a
    held tail; that tail is empty, or it ends in a replacement character.  In
    particular the deltas are exactly the one-shot decode whenever that ends in a
    complete character. *)
Theorem streaming_is_decoding batch_size index ids :
  index < batch_size →
  ∃ delta d' text, append_all index ids (init batch_size) = Ok (delta, d') ∧
    text_of index d' = Ok text ∧ text = _decode ids ∧
    (∃ held, text = delta ++ held ∧ (held = [] ∨ ¬ complete held)) ∧
    (complete text → delta = text) ∧
    ∀ j, j ≠ index → d' !! j = init batch_size !! j.
Proof.
  intros Hi. assert (Hs : init batch_size !! index = Some fresh_state) by (by apply lookup_replicate_2).
  destruct (append_all_ok index ids _ _ [] Hs fresh_ok) as (delta & d' & s' & E1 & Hs' & Hok & Ht & Hj).
  exists delta, d', (_decode ids). cbn in Hok, Ht. pose proof (seq_ok_text _ _ Hok) as Hsplit.
  pose proof (so_tail _ _ Hok) as Htail. rewrite Ht in Hsplit.
  split_and!; [done| |done|by exists (unread s')| |done].
  - unfold text_of, get_state. rewrite Hs'. cbn. by rewrite Ht.
  - rewrite Hsplit. intros Hc. destruct (decide (unread s' = [])) as [->|Hne]; [by rewrite app_nil_r|].
    destruct Htail as [|Hbad]; [done|]. destruct Hbad. by apply (complete_app delta).
Qed.
End Detokenizer.

(** A byte-level decoder reads on from a complete character as from the start. *)
Lemma byte_level_reads decode :
  (∀ a b, a ≠ [] → b ≠ [] → complete (decode a) → decode (a ++ b) = decode a ++ decode b) → Reads decode decode.
Proof. intros H. split; [done|]. intros a b Ha Hb _. by apply H. Qed.

(** ** Two tokenizers *)

(** Byte level: token 200 announces a two-token character; every other is a
    character. *)
Fixpoint pair_decode (l : list Z) : text :=
  match l with
  | [] => []
  | c :: l =>
      if decide (c = 200%Z) then
        match l with
        | [] => _REPLACEMENT_CHAR
        | d :: l => (1000 + d)%Z :: pair_decode l
        end
      else c :: pair_decode l
  end.

Lemma complete_cons c t : complete (c :: t) → complete t.
Proof. destruct (decide (t = [])) as [->|Ht]; [done|]. by apply (complete_app [c] t). Qed.

Lemma pair_decode_app a b :
  complete (pair_decode a) → pair_decode (a ++ b) = pair_decode a ++ pair_decode b.
Proof.
  remember (length a) as n eqn:Hn. revert a Hn. induction (lt_wf n) as [n _ IH].
  intros [|c a] -> Ha; [done|]. cbn [app pair_decode] in *. destruct (decide (c = 200%Z)).
  - destruct a as [|d a]; [done|]. cbn [app]. f_equal.
    apply (IH (length a)); [cbn; lia|done|by eapply complete_cons].
  - cbn. f_equal. apply (IH (length a)); [cbn; lia|done|by eapply complete_cons].
Qed.

#[global] Instance pair_reads : Reads pair_decode pair_decode.
Proof. apply byte_level_reads. intros a b _ _ Ha. by apply pair_decode_app. Qed.

(** SentencePiece with byte fallback: the same, less the space that starts the
    text; so a word in the middle of a text keeps its space, and the same word
    decoded alone has lost it. *)
Definition strip_space (t : text) : text :=
  match t with c :: t' => if decide (c = 32%Z) then t' else t | [] => [] end.
Definition piece_decode (l : list Z) : text := strip_space (pair_decode l).

Lemma strip_complete t : strip_space t ≠ [] → complete (strip_space t) → complete t.
Proof.
  destruct t as [|c t]; [done|]. cbn. case_decide; [|done]. intros Hne Hc. by apply (complete_app [c] t).
Qed.

#[global] Instance piece_reads : Reads piece_decode pair_decode.
Proof.
  split; unfold piece_decode.
  - intros a _ Hne Hc. split; [|by apply strip_complete]. by destruct (pair_decode a).
  - intros a b _ _ Hne Hc. rewrite pair_decode_app by done.
    destruct (pair_decode a) as [|c t]; [done|]. cbn. by case_decide.
Qed.

(** A word after the first keeps its space, and a character cut in two is held
    back, then streamed whole; token by token the decoder would give
    [65; 66; 65533; 5]. *)
Lemma streaming_is_decoding_witness :
  concat ((λ id, piece_decode [id]) <$> [32; 65; 32; 66; 200; 5]%Z) ≠ [65; 32; 66; 1005]%Z ∧
  ∃ delta d', append_all piece_decode 0 [32; 65; 32; 66; 200; 5]%Z (init 2) = Ok (delta, d') ∧
    delta = [65; 32; 66; 1005]%Z.
Proof.
  split; [done|].
  destruct (streaming_is_decoding piece_decode pair_decode 2 0 [32; 65; 32; 66; 200; 5]%Z
    ltac:(lia)) as (delta & d' & t & E1 & _ & Et & _ & Hc & _).
  exists delta, d'. split; [exact E1|]. rewrite Hc, Et; [reflexivity|rewrite Et; reflexivity].
Defined.

(** The end of the stream has no flush: a character cut short is never emitted. *)
Example no_flush :
  (λ r, match r with Ok (delta, d) => Some (delta, text_of pair_decode 0 d) | Err _ => None end)
    (append_all pair_decode 0 [65; 200]%Z (init 1)) = Some ([65%Z], Ok [65; 65533]%Z).
Proof. reflexivity. Qed.
End Detok.
