(* ===== verification/NgramProposer.v ===== *)
(** * Draft proposal by n-gram matching (ngram_proposer.py) *)

From S2P Require Export Prelude.

Module Ngram.

(** Python's [l[a:b]]: negative bounds count from the end, and both are
    clamped to the list. *)
Definition bound {A} (l : list A) (a : Z) : nat :=
  Z.to_nat (if (a <? 0)%Z then Z.max 0 (a + Z.of_nat (length l)) else Z.min a (Z.of_nat (length l))).
Definition slice {A} (l : list A) (a b : Z) : list A :=
  take (bound l b - bound l a) (drop (bound l a) l).

Record NgramProposer := Proposer {
  max_ngram_size : Z;
  max_draft : Z;
}.

(** The inner scan, [start = k - 1] down to 0. *)
Fixpoint find_match (token_ids pattern : list Z) (gram_size k : nat) : option nat :=
  match k with
  | 0 => None
  | S start =>
      if decide (slice token_ids (Z.of_nat start) (Z.of_nat (start + gram_size)) = pattern)
      then Some start
      else find_match token_ids pattern gram_size start
  end.

(** The outer scan over gram sizes, down to 2. *)
Fixpoint scan_grams (p : NgramProposer) (token_ids : list Z) (gram_size : nat) : list Z :=
  match gram_size with
  | 0 => []
  | S smaller =>
      if decide (gram_size ≤ 1) then []
      else
        let n := length token_ids in
        let pattern := slice token_ids (Z.of_nat (n - gram_size)) (Z.of_nat n) in
        match find_match token_ids pattern gram_size (n - gram_size) with
        | Some start =>
            let match_end := Z.of_nat (start + gram_size) in
            let remaining := slice token_ids match_end (match_end + max_draft p) in
            if decide (remaining ≠ []) then remaining else scan_grams p token_ids smaller
        | None => scan_grams p token_ids smaller
        end
  end.

Definition propose (p : NgramProposer) (token_ids : list Z) : list Z :=
  let n := length token_ids in
  if decide (n < 2) then []
  else scan_grams p token_ids (Z.to_nat (Z.min (max_ngram_size p) (Z.of_nat n - 1))).

(** ** What a draft is *)

(** The trailing [g] tokens occur at [start], strictly before the end. *)
Definition occurs (l : list Z) (g start : nat) : Prop :=
  start + g < length l ∧ take g (drop start l) = drop (length l - g) l.

Lemma slice_nat {A} (l : list A) a b : a ≤ b ≤ length l → slice l (Z.of_nat a) (Z.of_nat b) = take (b - a) (drop a l).
Proof.
  intros Hab. unfold slice, bound.
  rewrite (proj2 (Z.ltb_ge _ _)), (proj2 (Z.ltb_ge _ _)), !Z.min_l, !Nat2Z.id by lia. done.
Qed.

Lemma find_match_spec l g k :
  0 < g → k + g ≤ length l →
  let pattern := drop (length l - g) l in
  match find_match l pattern g k with
  | Some start => start < k ∧ take g (drop start l) = pattern ∧
      ∀ start', start < start' < k → take g (drop start' l) ≠ pattern
  | None => ∀ start', start' < k → take g (drop start' l) ≠ pattern
  end.
Proof.
  intros Hg. induction k as [|k IH]; intros Hk; cbn [find_match]; [lia|].
  rewrite slice_nat by lia. replace (k + g - k) with g by lia.
  destruct (decide (take g (drop k l) = drop (length l - g) l)) as [E|E].
  - split_and!; [lia|done|lia].
  - specialize (IH ltac:(lia)). cbv zeta in IH.
    destruct (find_match l (drop (length l - g) l) g k) as [start|].
    + destruct IH as (H1 & H2 & H3). split_and!; [lia|done|]. intros start' Hs.
      destruct (decide (start' = k)) as [->|]; [done|]. apply H3. lia.
    + intros start' Hs. destruct (decide (start' = k)) as [->|]; [done|]. apply IH. lia.
Qed.

Lemma draft_slice (p : NgramProposer) (l : list Z) a :
  (0 < max_draft p)%Z → a ≤ length l →
  slice l (Z.of_nat a) (Z.of_nat a + max_draft p) = take (Z.to_nat (max_draft p)) (drop a l).
Proof.
  intros Hd Ha. unfold slice, bound. rewrite !(proj2 (Z.ltb_ge _ _)) by lia.
  rewrite (Z.min_l (Z.of_nat a)), Nat2Z.id by lia.
  destruct (Z.le_ge_cases (Z.of_nat a + max_draft p) (Z.of_nat (length l))) as [Hle|Hge].
  - rewrite Z.min_l by lia. f_equal. lia.
  - rewrite Z.min_r, Nat2Z.id by lia. rewrite !take_ge; rewrite ?length_drop; done || lia.
Qed.

Lemma scan_grams_spec (p : NgramProposer) l g :
  (0 < max_draft p)%Z → g < length l →
  let r := scan_grams p l g in
  (r = [] ∧ ∀ g' start, 2 ≤ g' ≤ g → ¬ occurs l g' start) ∨
  ∃ g0 start, 2 ≤ g0 ≤ g ∧ occurs l g0 start ∧
    (∀ start', start < start' → ¬ occurs l g0 start') ∧
    (∀ g' start', g0 < g' ≤ g → ¬ occurs l g' start') ∧
    r = take (Z.to_nat (max_draft p)) (drop (start + g0) l) ∧ r ≠ [].
Proof.
  intros Hd. induction g as [|g IH]; intros Hg; [left; split; [done|lia]|].
  cbn [scan_grams]. cbv zeta. destruct (decide (S g ≤ 1)) as [H1|H1]; [left; split; [done|lia]|].
  rewrite slice_nat, take_ge by (rewrite ?length_drop; lia).
  pose proof (find_match_spec l (S g) (length l - S g) ltac:(lia) ltac:(lia)) as Hm. cbv zeta in Hm.
  specialize (IH ltac:(lia)). cbv zeta in IH.
  destruct (find_match l (drop (length l - S g) l) (S g) (length l - S g)) as [start|].
  - destruct Hm as (Hs & Heq & Hlast). rewrite draft_slice by (done || lia).
    assert (Hne : take (Z.to_nat (max_draft p)) (drop (start + S g) l) ≠ []).
    { intros E%(f_equal length). rewrite length_take, length_drop in E. cbn in E. lia. }
    rewrite decide_True by done. right. exists (S g), start. split_and!; try done; try lia.
    + split; [lia|done].
    + intros start' Hlt [Ho1 Ho2]. apply (Hlast start'); [lia|done].
  - assert (Hno : ∀ start, ¬ occurs l (S g) start) by (intros start [Ho1 Ho2]; apply (Hm start); [lia|done]).
    destruct IH as [[Er IH]|(g0 & start & Hg0 & Ho & Hl & Hlong & Er & Hne)].
    + left. split; [done|]. intros g' start Hg'. destruct (decide (g' = S g)) as [->|]; [apply Hno|apply IH; lia].
    + right. exists g0, start. split_and!; try done; [lia..|]. intros g' start' Hg'.
      destruct (decide (g' = S g)) as [->|]; [apply Hno|apply Hlong; lia].
Qed.

(** With a positive draft length, [propose] always comes to an end; it
    answers nothing exactly when no trailing n-gram of an allowed size occurs
    earlier, and otherwise the tokens that follow the most recent earlier
    occurrence of the longest such n-gram, between one and [max_draft] of them. *)
Theorem propose_longest_latest p l (Hd : (0 < max_draft p)%Z) :
  let r := propose p l in
  let allowed g := 2 ≤ g ∧ (Z.of_nat g ≤ max_ngram_size p)%Z in
  (r = [] ↔ ∀ g start, allowed g → ¬ occurs l g start) ∧
  (r ≠ [] → ∃ g start, allowed g ∧ occurs l g start ∧
    (∀ start', start < start' → ¬ occurs l g start') ∧
    (∀ g' start', allowed g' → g < g' → ¬ occurs l g' start') ∧
    r = take (Z.to_nat (max_draft p)) (drop (start + g) l)) ∧
  (Z.of_nat (length r) ≤ max_draft p)%Z.
Proof.
  cbv zeta beta.
  assert (Hlen : ∀ g start, occurs l g start → g < length l) by (intros g start [? _]; lia).
  unfold propose. destruct (decide (length l < 2)) as [Hl|Hl].
  { split_and!; [|done|cbn; lia]. split; [|done]. intros _ g start [? _] Ho%Hlen. lia. }
  set (gm := Z.to_nat (Z.min (max_ngram_size p) (Z.of_nat (length l) - 1))).
  assert (Hgm : ∀ g, 2 ≤ g ≤ gm ↔ 2 ≤ g < length l ∧ (Z.of_nat g ≤ max_ngram_size p)%Z)
    by (intros g; unfold gm; lia).
  destruct (scan_grams_spec p l gm Hd ltac:(unfold gm; lia)) as [[-> Hno]|(g0 & start & Hg0 & Ho & Hlast & Hlong & Er & Hne)].
  - split_and!; [|done|cbn; lia]. split; [|done]. intros _ g start [Hg1 Hg2] Ho.
    apply (Hno g start); [|done]. apply Hlen in Ho. apply Hgm. lia.
  - apply Hgm in Hg0 as Hg0'. split_and!.
    + split; [done|]. intros Hno. exfalso. apply (Hno g0 start); [lia|done].
    + intros _. exists g0, start. split_and!; try done; [lia|lia|]. intros g' start' [Ha1 Ha2] Hgt Ho'.
      apply (Hlong g' start'); [|done]. apply Hlen in Ho'.
      destruct (proj2 (Hgm g')); lia.
    + rewrite Er, length_take. lia.
Qed.

Lemma propose_longest_latest_witness :
  (0 < 3)%Z ∧ propose (Proposer 5 3) [1; 2; 3; 9; 8; 1; 2; 3]%Z = [9; 8; 1]%Z ∧
  (Z.of_nat (length (propose (Proposer 5 3) [1; 2; 3; 9; 8; 1; 2; 3]%Z)) ≤ 3)%Z.
Proof.
  split_and!; [lia|vm_compute; reflexivity|].
  apply (propose_longest_latest (Proposer 5 3) [1; 2; 3; 9; 8; 1; 2; 3]%Z). reflexivity.
Defined.

End Ngram.
