(* ===== verification/SlotBatch.v ===== *)
(** * The slot view of the KV cache ([SlotBatch] of slot_batch.py)

    Block tables per slot, the host and device layout of a pass, and the
    attention metadata each phase installs; with the block arithmetic of decode
    context parallelism (dcp.py) and the cache rows the kernels read and write
    (backend/cpu.py). *)

From S2P Require Export Prelude.

Module Slots.

Definition PREFIX_CACHE_BLOCK_SIZE : nat := 16.

(** ** Decode context parallelism *)

Definition dcp_rows_per_block (block_size dcp_size : nat) : result nat :=
  _ ← rguard (bool_decide (dcp_size ≠ 0)) ZeroDivisionError;
  _ ← rguard (bool_decide (block_size mod dcp_size = 0)) ValueError;
  Ok (block_size / dcp_size).

Definition dcp_block_rows (block_id block_size dcp_rank dcp_size : nat) : result (list nat) :=
  per_rank ← dcp_rows_per_block block_size dcp_size;
  let base := block_id * per_rank in
  Ok ((λ offset, if decide (offset mod dcp_size = dcp_rank) then base + offset / dcp_size else 0)
        <$> seq 0 block_size).

Definition dcp_local_seq_len (seq_len dcp_rank dcp_size : nat) : Z :=
  let local := ((Z.of_nat seq_len - Z.of_nat dcp_rank + Z.of_nat dcp_size - 1) / Z.of_nat dcp_size)%Z in
  Z.max local 0.

(** ** The layout of an extend pass *)

(** One row per token, on the host.  Chunk lengths are natural numbers. *)
Definition flatten_extend_rows (slots starts chunk_lens : list nat) :
    result (list nat * list nat) :=
  _ ← rguard (bool_decide (length slots = length starts ∧ length starts = length chunk_lens))
    ValueError;
  Ok (concat (zip_with (λ slot n, replicate n slot) slots chunk_lens),
      concat (zip_with (λ start n, seq (start + 1) n) starts chunk_lens)).

(** [torch.repeat_interleave] and [torch.cumsum] *)
Definition repeat_interleave (l lens : list nat) : list nat :=
  concat (zip_with (λ x n, replicate n x) l lens).
Fixpoint cumsum (acc : nat) (l : list nat) : list nat :=
  match l with
  | [] => []
  | n :: l => acc + n :: cumsum (acc + n) l
  end.

(** [_flatten_rows]: the same rows, by gathers. *)
Definition flatten_rows (slots starts chunk_lens : list nat) : result (list nat * list nat) :=
  let total := sum_list chunk_lens in
  let row_req := repeat_interleave (seq 0 (length slots)) chunk_lens in
  let stretch_starts := zip_with Nat.sub (cumsum 0 chunk_lens) chunk_lens in
  begins ← rmap (item stretch_starts) row_req;
  let within := zip_with Nat.sub (seq 0 total) begins in
  firsts ← rmap (item starts) row_req;
  row_slots ← rmap (item slots) row_req;
  Ok (row_slots, zip_with (λ a b, a + b + 1) firsts within).

(** ** State *)

(** [AttentionMetadata], without the tensors of the model. *)
Record AttentionMetadata := MkAtten {
  cur_select_index : list nat;
  b_start_loc : option (list nat);
  b_req_idx : list nat;
  b_seq_len : list nat;
  max_actual_seq_len : nat;
  is_prefill : bool;
  b_prefix_len : option (list nat);
  b_kv_base : option (list nat);
  max_chunk_len : nat;
  b_seq_len_cpu : option (list nat);
}.

(** [table] has one row per slot, [row_len] entries each. *)
Record SlotBatch := MkBatch {
  max_seq_len : nat;
  dcp_size : nat;
  dcp_rank : nat;
  rows_per_block : nat;
  table : list (list nat);
  row_len : nat;
  filler_slot : option nat;
  num_slots : nat;
  atten : AttentionMetadata;
  sb_req_idx : option (list nat);
  sb_seq_len : option (list nat);
  host_slots : list nat;
  host_lens : list nat;
}.

Definition set_table (t : list (list nat)) (s : SlotBatch) : SlotBatch :=
  MkBatch (max_seq_len s) (dcp_size s) (dcp_rank s) (rows_per_block s) t (row_len s)
    (filler_slot s) (num_slots s) (atten s) (sb_req_idx s) (sb_seq_len s) (host_slots s)
    (host_lens s).
Definition set_atten (a : AttentionMetadata) (s : SlotBatch) : SlotBatch :=
  MkBatch (max_seq_len s) (dcp_size s) (dcp_rank s) (rows_per_block s) (table s) (row_len s)
    (filler_slot s) (num_slots s) a (sb_req_idx s) (sb_seq_len s) (host_slots s) (host_lens s).
Definition set_rows (idx lens : option (list nat)) (s : SlotBatch) : SlotBatch :=
  MkBatch (max_seq_len s) (dcp_size s) (dcp_rank s) (rows_per_block s) (table s) (row_len s)
    (filler_slot s) (num_slots s) (atten s) idx lens (host_slots s) (host_lens s).
Definition set_host (slots lens : list nat) (s : SlotBatch) : SlotBatch :=
  MkBatch (max_seq_len s) (dcp_size s) (dcp_rank s) (rows_per_block s) (table s) (row_len s)
    (filler_slot s) (num_slots s) (atten s) (sb_req_idx s) (sb_seq_len s) slots lens.

(** The row within a block of each offset; [None] where another rank owns it. *)
Definition block_offsets (dcp_rank dcp_size : nat) : list (option nat) :=
  (λ offset, if decide (offset mod dcp_size = dcp_rank) then Some (offset / dcp_size) else None)
    <$> seq 0 PREFIX_CACHE_BLOCK_SIZE.

(** [SlotBatch(runner)] over a runner whose table is [total_slots x row_len]. *)
Definition init (total_slots row_len max_seq_len dcp_size dcp_rank : nat)
    (a : AttentionMetadata) : result SlotBatch :=
  per_rank ← dcp_rows_per_block PREFIX_CACHE_BLOCK_SIZE dcp_size;
  let zero := replicate total_slots (replicate row_len 0) in
  t ←
    (if decide (1 < total_slots) then
       null_rows ← dcp_block_rows 0 PREFIX_CACHE_BLOCK_SIZE dcp_rank dcp_size;
       let tiles := (row_len + PREFIX_CACHE_BLOCK_SIZE - 1) / PREFIX_CACHE_BLOCK_SIZE in
       Ok (<[total_slots - 1 := take row_len (concat (replicate tiles null_rows))]> zero)
     else Ok zero);
  Ok (MkBatch max_seq_len dcp_size dcp_rank per_rank t row_len
    (if decide (1 < total_slots) then Some (total_slots - 1) else None)
    (if decide (1 < total_slots) then total_slots - 1 else 1) a None None [] []).

(** ** Block tables *)

(** The cache rows of the blocks [ids], in order. *)
Definition mapped_rows (s : SlotBatch) (ids : list nat) : list nat :=
  concat ((λ block_id, (λ offset,
    match offset with None => 0 | Some o => block_id * rows_per_block s + o end)
    <$> block_offsets (dcp_rank s) (dcp_size s)) <$> ids).

(** One grant, as (slot, position, row) entries. *)
Definition expand_write (s : SlotBatch) (w : nat * nat * nat * list nat) :
    result (list (nat * nat * nat)) :=
  let '(slot, group_id, start_block, block_ids) := w in
  _ ← rguard (bool_decide (group_id = 0)) NotImplementedError;
  let start := start_block * PREFIX_CACHE_BLOCK_SIZE in
  if decide (block_ids = [] ∨ row_len s ≤ start) then Ok []
  else
    let count := Nat.min (length block_ids * PREFIX_CACHE_BLOCK_SIZE) (row_len s - start) in
    Ok (zip_with (λ position row, (slot, position, row)) (seq start count)
          (take count (mapped_rows s block_ids))).

(** [table[slots, positions] = rows]; an index out of range raises. *)
Definition put_entry (e : nat * nat * nat) (t : list (list nat)) : result (list (list nat)) :=
  let '(slot, position, row) := e in
  entries ← item t slot;
  _ ← item entries position;
  Ok (<[slot := <[position := row]> entries]> t).

Definition write_block_tables (writes : list (nat * nat * nat * list nat)) (s : SlotBatch) :
    result SlotBatch :=
  entries ← rmap (expand_write s) writes;
  t ← rfold put_entry (concat entries) (table s);
  Ok (set_table t s).

(** ** Metadata *)

(** [table[slot, position]] *)
Definition entry (s : SlotBatch) (slot position : nat) : result nat :=
  entries ← item (table s) slot; item entries position.

(** [max] of a non-empty sequence. *)
Definition maximum (l : list nat) : result nat :=
  match l with [] => Err ValueError | _ => Ok (foldr Nat.max 0 l) end.

(** [end - start] over two sequences of one length. *)
Definition chunk_lens (starts ends : list nat) : result (list nat) :=
  _ ← rguard (bool_decide (length starts = length ends)) ValueError;
  Ok (zip_with (λ start end_, end_ - start) starts ends).

(** The pairs two index tensors select: torch broadcasts a side of one entry. *)
Definition broadcast (slots positions : list nat) : result (list (nat * nat)) :=
  if decide (length slots = length positions) then Ok (zip slots positions)
  else match slots, positions with
       | [slot], _ => Ok (pair slot <$> positions)
       | _, [position] => Ok ((λ slot, (slot, position)) <$> slots)
       | _, _ => Err IndexError
       end.

(** The grid's cache rows: row [i], column [j] is position [starts[i] + j]. *)
Definition grid_rows (s : SlotBatch) (slots starts : list nat) (width : nat) :
    result (list nat) :=
  pairs ← broadcast slots starts;
  rows ← rmap (λ '(slot, start), rmap (λ j, entry s slot (start + j)) (seq 0 width)) pairs;
  Ok (concat rows).

Definition begin_prefill (slots seq_starts seq_lens : list nat) (s : SlotBatch) :
    result SlotBatch :=
  chunks ← chunk_lens seq_starts seq_lens;
  max_prompt_len ← maximum chunks;
  _ ← rguard (bool_decide (max_prompt_len ≤ max_seq_len s)) ValueError;
  longest ← maximum seq_lens;
  cur ← grid_rows s slots seq_starts max_prompt_len;
  let start_loc := (λ i, i * max_prompt_len) <$> seq 0 (Nat.min (length slots) (length (table s))) in
  a ←
    (if decide (Exists (λ start, 0 < start) seq_starts) then
       _ ← rguard (bool_decide (dcp_size s ≤ 1)) ValueError;
       base ← rmap (λ slot, entry s slot 0) slots;
       Ok (MkAtten cur (Some start_loc) slots seq_lens longest true (Some seq_starts) (Some base)
             max_prompt_len (b_seq_len_cpu (atten s)))
     else Ok (MkAtten cur (Some start_loc) slots seq_lens longest true None None 0
                (b_seq_len_cpu (atten s))));
  Ok (set_host [] [] (set_atten a s)).

(** [graph_batch_size] of the runner, over the captured sizes when graphs are on. *)
Fixpoint pad_to (batch_sizes : list nat) (batch_size : nat) : option nat :=
  match batch_sizes with
  | [] => None
  | bs :: l => if decide (batch_size ≤ bs) then Some bs else pad_to l batch_size
  end.
Definition graph_batch_size (manager : option (list nat)) (batch_size : nat) : nat :=
  match manager with
  | None => batch_size
  | Some sizes =>
      match pad_to sizes batch_size with
      | Some (S n) => S n
      | _ => batch_size
      end
  end.

(** [table[rows_slot, rows_len - 1]]; index [-1] is the last entry. *)
Definition last_rows (s : SlotBatch) (slots lens : list nat) : result (list nat) :=
  pairs ← broadcast slots lens;
  rmap (λ '(slot, len), entry s slot (if decide (len = 0) then row_len s - 1 else len - 1)) pairs.

Section Padding.
Context (manager : option (list nat)).

(** Rows of the filler slot up to the captured size. *)
Definition pad_rows (s : SlotBatch) (longest : nat) (slots lens : list nat) :
    list nat * list nat :=
  match filler_slot s with
  | None => (slots, lens)
  | Some filler =>
      let pad := graph_batch_size manager (length slots) - length slots in
      (slots ++ replicate pad filler, lens ++ replicate pad (Nat.min longest (max_seq_len s)))
  end.

Definition plan_extend_rows (slots seq_starts seq_lens : list nat) (s : SlotBatch) :
    result (list nat * list nat) :=
  chunks ← chunk_lens seq_starts seq_lens;
  '(rows_slot, rows_len) ← flatten_extend_rows slots seq_starts chunks;
  match filler_slot s with
  | None => Ok (rows_slot, rows_len)
  | Some _ =>
      if decide (length rows_slot < graph_batch_size manager (length rows_slot)) then
        longest ← maximum seq_lens;
        Ok (pad_rows s longest rows_slot rows_len)
      else Ok (rows_slot, rows_len)
  end.

Definition begin_extend (slots seq_starts seq_lens : list nat) (s : SlotBatch) :
    result (nat * SlotBatch) :=
  chunks ← chunk_lens seq_starts seq_lens;
  longest ← maximum seq_lens;
  _ ← rguard (bool_decide (longest ≤ max_seq_len s)) ValueError;
  '(rows_slot, rows_len) ← flatten_rows slots seq_starts chunks;
  let '(rows_slot, rows_len) := pad_rows s longest rows_slot rows_len in
  '(_, host_rows) ← plan_extend_rows slots seq_starts seq_lens s;
  cur ← last_rows s rows_slot rows_len;
  let a := MkAtten cur None rows_slot rows_len longest false None None 0 (Some host_rows) in
  Ok (length rows_slot,
      set_host [] [] (set_rows (Some rows_slot) (Some rows_len) (set_atten a s))).

Definition pad_decode_rows (slots seq_lens : list nat) (s : SlotBatch) :
    result (list nat * list nat) :=
  match filler_slot s with
  | None => Ok (slots, seq_lens)
  | Some _ =>
      if decide (graph_batch_size manager (length slots) ≤ length slots) then Ok (slots, seq_lens)
      else longest ← maximum seq_lens; Ok (pad_rows s longest slots seq_lens)
  end.

(** The device rows: advanced in place when the batch is the last one, one
    token further, and rebuilt otherwise. *)
Definition begin_decode (slots seq_lens : list nat) (s : SlotBatch) :
    result (nat * SlotBatch) :=
  '(padded_slots, padded_lens) ← pad_decode_rows slots seq_lens s;
  '(req_idx, lens, cpu) ←
    (if decide (padded_slots = host_slots s ∧ padded_lens = (λ n, n + 1) <$> host_lens s) then
       match sb_req_idx s, sb_seq_len s with
       | Some req_idx, Some lens =>
           Ok (req_idx, (λ n, n + 1) <$> lens,
               match b_seq_len_cpu (atten s) with
               | Some cpu => (λ n, n + 1) <$> cpu
               | None => padded_lens
               end)
       | _, _ => Err TypeError
       end
     else Ok (padded_slots, padded_lens, padded_lens));
  longest ← maximum seq_lens;
  cur ← last_rows s req_idx lens;
  let a := MkAtten cur None req_idx lens longest false None None 0 (Some cpu) in
  Ok (length padded_slots,
      set_host padded_slots padded_lens (set_rows (Some req_idx) (Some lens) (set_atten a s))).

End Padding.

Definition reset (s : SlotBatch) : SlotBatch := set_host [] [] s.

Definition dummy_slot (s : SlotBatch) : nat := default 0 (filler_slot s).

Definition seq_lens (s : SlotBatch) : result (list nat) :=
  match sb_seq_len s with Some l => Ok l | None => Err RuntimeError end.

(** ** The rows the kernels touch *)

(** [update_kv_buffer]: one value per selected row. *)
Definition update_kv_buffer {V} (values : list V) (select_index : list nat) (kv : list V) :
    result (list V) :=
  _ ← rguard (bool_decide (length values = length select_index)) ValueError;
  rfold (λ '(row, v) kv, _ ← item kv row; Ok (<[row := v]> kv)) (zip select_index values) kv.

(** The rows [flash_decoding] reads for one query: [table[slot, :length]]. *)
Definition decode_reads (t : list (list nat)) (slot length : nat) : result (list nat) :=
  entries ← item t slot; Ok (take length entries).

(** The rows [flash_attention2_chunked] reads for one sequence: [base : base + length]
    of a cache of [total] rows. *)
Definition chunked_reads (total base length : nat) : list nat := take length (drop base (seq 0 total)).

End Slots.
