(* ===== verification/SlotSpec.v ===== *)
(** * What the slot view promises

    Block tables follow the prefix cache, the layouts computed twice agree, and
    which cache rows a pass writes and reads. *)

From S2P Require Export SlotBatch CacheClient.

Module SlotSpec.
Import Slots.

Notation bs := PREFIX_CACHE_BLOCK_SIZE.

(** ** Lists *)

Lemma concat_fixed_lookup {A} n (ls : list (list A)) p :
  0 < n → Forall (λ l, length l = n) ls → concat ls !! p = ls !! (p / n) ≫= (.!! p mod n).
Proof.
  intros Hn. revert p. induction ls as [|l ls IH]; intros p Hls; cbn.
  { by rewrite !lookup_nil. }
  apply Forall_cons in Hls as [Hl Hls]. destruct (decide (p < n)) as [Hp|Hp].
  - rewrite lookup_app_l by lia. by rewrite Nat.div_small, Nat.mod_small by done.
  - rewrite lookup_app_r, Hl by lia. rewrite IH by done.
    replace p with ((p - n) + 1 * n) at 3 4 by lia.
    rewrite Nat.div_add, Nat.Div0.mod_add by lia. by rewrite Nat.add_1_r.
Qed.

Lemma concat_fixed_length {A} n (ls : list (list A)) :
  Forall (λ l, length l = n) ls → length (concat ls) = length ls * n.
Proof. induction 1 as [|l ls Hl _ IH]; [done|]. cbn. rewrite length_app. lia. Qed.

(** ** Well-formed batches *)

Record batch_ok (s : SlotBatch) : Prop := {
  b_shape : Forall (λ entries, length entries = row_len s) (table s);
  b_dcp : 0 < dcp_size s ∧ bs mod dcp_size s = 0 ∧ rows_per_block s = bs / dcp_size s;
  b_host : host_slots s ≠ [] → sb_req_idx s = Some (host_slots s) ∧
    sb_seq_len s = Some (host_lens s) ∧ b_seq_len_cpu (atten s) = Some (host_lens s);
}.

(** The row of a block's offset on this rank; row 0 is the discard row. *)
Definition row_of (s : SlotBatch) (b o : nat) : nat :=
  if decide (o mod dcp_size s = dcp_rank s) then b * rows_per_block s + o / dcp_size s else 0.

(** The slot's table names the rows of the blocks [ids], as far as it reaches. *)
Definition maps (s : SlotBatch) (slot : nat) (ids : list nat) : Prop :=
  ∀ p b, ids !! (p / bs) = Some b → p < row_len s → entry s slot p = Ok (row_of s b (p mod bs)).

Lemma entry_shape s slot p :
  batch_ok s → slot < length (table s) → p < row_len s → ∃ r, entry s slot p = Ok r.
Proof.
  intros Hok Hs Hp. destruct (lookup_lt_is_Some_2 _ _ Hs) as [row Hrow].
  pose proof (proj1 (Forall_lookup _ _) (b_shape _ Hok) _ _ Hrow) as Hl. cbn in Hl.
  destruct (lookup_lt_is_Some_2 row p) as [r Hr]; [lia|].
  exists r. unfold entry. rewrite (item_Ok _ _ _ Hrow). by apply item_Ok.
Qed.

Lemma put_run t slot row start rows :
  t !! slot = Some row → start + length rows ≤ length row →
  rfold put_entry (zip_with (λ p r, (slot, p, r)) (seq start (length rows)) rows) t =
    Ok (<[slot := list_inserts start rows row]> t).
Proof.
  revert t row start. induction rows as [|r rows IH]; intros t row start Ht Hl; cbn.
  { by rewrite list_insert_id. }
  cbn in Hl. destruct (lookup_lt_is_Some_2 row start) as [x Hx]; [lia|].
  rewrite (item_Ok _ _ _ Ht). cbn [mbind result_bind].
  rewrite (item_Ok _ _ _ Hx). cbn [mbind result_bind].
  pose proof (lookup_lt_Some _ _ _ Ht).
  rewrite (IH _ (<[start := r]> row)).
  - rewrite list_insert_insert_eq. f_equal. f_equal.
    symmetry. apply list_insert_inserts_lt. lia.
  - by apply list_lookup_insert_eq.
  - rewrite length_insert. lia.
Qed.

Lemma block_offsets_length r d : length (block_offsets r d) = bs.
Proof. unfold block_offsets. by rewrite length_fmap, length_seq. Qed.

Lemma mapped_rows_fixed s ids :
  Forall (λ l, length l = bs) ((λ block_id, (λ offset,
    match offset with None => 0 | Some o => block_id * rows_per_block s + o end)
    <$> block_offsets (dcp_rank s) (dcp_size s)) <$> ids).
Proof.
  apply Forall_forall. intros l (b & -> & _)%list_elem_of_fmap.
  by rewrite length_fmap, block_offsets_length.
Qed.

Lemma mapped_rows_length s ids : length (mapped_rows s ids) = length ids * bs.
Proof.
  unfold mapped_rows. rewrite (concat_fixed_length bs) by apply mapped_rows_fixed.
  by rewrite length_fmap.
Qed.

Lemma mapped_rows_lookup s ids p :
  mapped_rows s ids !! p = (λ b, row_of s b (p mod bs)) <$> ids !! (p / bs).
Proof.
  unfold mapped_rows. rewrite (concat_fixed_lookup bs); [|unfold bs; lia|apply mapped_rows_fixed].
  rewrite list_lookup_fmap. destruct (ids !! (p / bs)) as [b|]; [|done]. cbn [fmap option_fmap option_map mbind option_bind].
  rewrite list_lookup_fmap. unfold block_offsets. rewrite list_lookup_fmap.
  rewrite lookup_seq_lt by (apply Nat.mod_upper_bound; unfold bs; lia). cbn [fmap option_fmap option_map].
  unfold row_of. rewrite Nat.add_0_l. by case_decide.
Qed.

(** One grant: exactly the entries of its blocks change. *)
Lemma write_one s slot start ids :
  batch_ok s → slot < length (table s) →
  ∃ s', write_block_tables [(slot, 0, start, ids)] s = Ok s' ∧ batch_ok s' ∧
    s' = set_table (table s') s ∧ length (table s') = length (table s) ∧
    (∀ slot' p, p < row_len s → entry s' slot' p =
      if decide (slot' = slot ∧ start * bs ≤ p) then
        match ids !! (p / bs - start) with
        | Some b => Ok (row_of s b (p mod bs))
        | None => entry s slot' p
        end
      else entry s slot' p).
Proof.
  intros Hok Hs. destruct (lookup_lt_is_Some_2 _ _ Hs) as [row Hrow].
  pose proof (proj1 (Forall_lookup _ _) (b_shape _ Hok) _ _ Hrow) as Hl. cbn in Hl.
  unfold write_block_tables. cbn [rmap]. unfold expand_write.
  rewrite bool_decide_eq_true_2 by done. cbn [rguard mbind result_bind].
  assert (Hdiv : ∀ p, start * bs ≤ p → (p - start * bs) / bs = p / bs - start ∧
    (p - start * bs) mod bs = p mod bs).
  { intros p Hp. replace p with ((p - start * bs) + start * bs) at 2 4 by lia.
    rewrite Nat.div_add, Nat.Div0.mod_add by (unfold bs; lia). split; lia. }
  case_decide as Hd; cbn [mbind result_bind rfold concat app].
  { exists s. split; [by destruct s|]. split_and!; [done|by destruct s|done|].
    intros slot' p Hp. case_decide as Hc; [|done]. destruct Hc as [-> Hc].
    destruct Hd as [->|Hd]; [by rewrite lookup_nil|]. lia. }
  rewrite app_nil_r. set (count := Nat.min _ _). set (rows := take count _).
  assert (Hlr : length rows = count).
  { unfold rows. rewrite length_take, mapped_rows_length. lia. }
  rewrite <- Hlr. rewrite (put_run _ _ row) by (done || lia). cbn [mbind result_bind].
  set (t' := <[slot := _]> _). exists (set_table t' s).
  assert (Hlt : length t' = length (table s)) by (unfold t'; by rewrite length_insert).
  split; [done|]. split_and!; [|done|done|].
  - split; cbn; [|apply Hok|apply Hok]. unfold t'. apply Forall_insert; [apply Hok|].
    rewrite length_inserts. done.
  - intros slot' p Hp. unfold entry. cbn [table set_table].
    destruct (decide (slot' = slot)) as [->|Hne].
    2: { rewrite decide_False by tauto. unfold item, t'. by rewrite list_lookup_insert_ne. }
    unfold item, t'. rewrite list_lookup_insert_eq, Hrow by done. cbn [mbind result_bind].
    destruct (decide (start * bs ≤ p < start * bs + count)) as [Hin|Hout].
    + rewrite decide_True by (split; [done|lia]).
      rewrite list_lookup_inserts by lia.
      unfold rows. rewrite lookup_take_lt by lia. rewrite mapped_rows_lookup.
      destruct (Hdiv p) as [-> ->]; [lia|].
      destruct (ids !! (p / bs - start)) as [b|] eqn:Eb; [done|]. exfalso.
      apply lookup_ge_None in Eb. destruct (Hdiv p) as [<- _] in Eb; [lia|].
      assert ((p - start * bs) / bs < length ids); [|lia].
      apply Nat.Div0.div_lt_upper_bound. lia.
    + assert (list_inserts (start * bs) rows row !! p = row !! p) as ->.
      { destruct (decide (p < start * bs)); [by apply list_lookup_inserts_lt|].
        apply list_lookup_inserts_ge. lia. }
      case_decide as Hc; [|done]. destruct (ids !! (p / bs - start)) as [b|] eqn:Eb; [|done].
      exfalso. apply lookup_lt_Some in Eb. destruct (Hdiv p) as [<- _] in Eb; [lia|].
      assert (count = row_len s - start * bs ∨ count = length ids * bs) as [Hc2|Hc2] by lia; [lia|].
      pose proof (Nat.div_mod_eq (p - start * bs) bs). pose proof (Nat.mod_upper_bound (p - start * bs) bs ltac:(unfold bs; lia)).
      nia.
Qed.

Lemma maps_write s s' slot start old ids :
  maps s slot old → start ≤ length old →
  (∀ slot' p, p < row_len s → entry s' slot' p =
      if decide (slot' = slot ∧ start * bs ≤ p) then
        match ids !! (p / bs - start) with
        | Some b => Ok (row_of s b (p mod bs))
        | None => entry s slot' p
        end
      else entry s slot' p) →
  s' = set_table (table s') s → maps s' slot (take start old ++ ids).
Proof.
  intros Hm Hle He Hs' p b Hb Hp. rewrite Hs' in Hp. cbn in Hp. rewrite He by done.
  assert (row_of s' b (p mod bs) = row_of s b (p mod bs)) as -> by (by rewrite Hs').
  pose proof (Nat.div_mod_eq p bs). pose proof (Nat.mod_upper_bound p bs ltac:(unfold bs; lia)).
  destruct (decide (p / bs < start)) as [Hlt|Hge].
  - rewrite lookup_app_l in Hb by (rewrite length_take; lia). rewrite lookup_take_lt in Hb by done.
    rewrite decide_False; [by apply Hm|]. intros [_ ?]. nia.
  - rewrite lookup_app_r in Hb by (rewrite length_take; lia).
    rewrite length_take, Nat.min_l in Hb by done.
    rewrite decide_True by (split; [done|nia]). by rewrite Hb.
Qed.

(** ** Following the prefix cache *)

(** What request [r] holds in a cache of one group, and how much of it has been
    written to a table. *)
Definition held (r : string) (c : Cache.PrefixCache) : list nat := concat (Cache.block_ids r c).
Definition mapped_count (r : string) (c : Cache.PrefixCache) : nat :=
  match Cache.sequences c !! r with
  | Some state => default 0 (head (Cache.num_mapped_blocks state))
  | None => 0
  end.

(** The grants of the cache, addressed to a slot. *)
Definition addressed (slot : nat) (ws : list (nat * nat * list nat)) :
    list (nat * nat * nat * list nat) :=
  (λ '(group_id, start_block, block_ids), (slot, group_id, start_block, block_ids)) <$> ws.

Lemma one_group_writes digest c toks holder r state :
  Client.cache_ok digest c toks holder → Cache.sequences c !! r = Some state →
  mapped_count r c ≤ length (held r c) ∧
  ∃ c', Cache.take_table_writes r c =
      Ok (if decide (mapped_count r c < length (held r c))
          then [(0, mapped_count r c, drop (mapped_count r c) (held r c))] else [], c') ∧
    held r c' = held r c ∧ mapped_count r c' = length (held r c).
Proof.
  intros [[hist Hwf] [Hcf _] _ _] Hst. pose proof (Cache.block_ids_length digest c hist r Hwf) as Hl.
  rewrite Hcf in Hl. cbn in Hl.
  destruct (Cache.block_ids r c) as [|bl [|]] eqn:Hbl; [done| |done].
  assert (Hh : held r c = bl) by (unfold held; rewrite Hbl; cbn; by rewrite app_nil_r).
  destruct (Cache.wf_mapped _ _ _ Hwf r state Hst) as [Hshape Hle]. rewrite Hcf in Hshape. cbn in Hshape.
  assert (Cache.cursors state (Spec.groups (Cache.config c)) = [mapped_count r c] ∧
    mapped_count r c ≤ length bl) as [Hcur Hm].
  { unfold mapped_count, Cache.cursors. rewrite Hst, Hcf. cbn.
    destruct (Cache.num_mapped_blocks state) as [|n [|]] eqn:En;
      [cbn; split; [done|lia]| |by destruct Hshape].
    split; [done|]. apply (Hle 0 n bl); [done|by rewrite Hbl]. }
  rewrite Hh. split; [done|]. unfold Cache.take_table_writes. rewrite Hst, Hcur, Hbl, Hcf.
  cbn [Spec.groups Client.one_group Cache.table_writes mbind result_bind].
  set (n := mapped_count r c) in *.
  case_decide; eexists; (split; [reflexivity|]); unfold held, mapped_count; cbn [Cache.sequences Cache.set_sequences];
    rewrite lookup_insert_eq; cbn; (split; [exact Hh|lia]).
Qed.

(** C36: when a slot's table names the blocks of a request that were granted so
    far, installing what the cache hands out next makes it name, position by
    position, the rows of every block the request holds; no other slot's entry
    changes, and a grant past the context is dropped without an error. *)
Theorem device_table_in_step digest c toks holder r state slot s
    (Hc : Client.cache_ok digest c toks holder) (Hst : Cache.sequences c !! r = Some state)
    (Hok : batch_ok s) (Hslot : slot < length (table s))
    (Hm : maps s slot (take (mapped_count r c) (held r c))) :
  ∃ ws c' s', Cache.take_table_writes r c = Ok (ws, c') ∧
    write_block_tables (addressed slot ws) s = Ok s' ∧ batch_ok s' ∧
    held r c' = held r c ∧ maps s' slot (take (mapped_count r c') (held r c')) ∧
    maps s' slot (held r c) ∧
    ∀ slot' p, slot' ≠ slot → p < row_len s → entry s' slot' p = entry s slot' p.
Proof.
  destruct (one_group_writes digest c toks holder r state Hc Hst) as (Hle & c' & E & Hh & Hn).
  set (n := mapped_count r c) in *. revert E. case_decide as Hd; intros E; eexists _, c'.
  - destruct (write_one s slot n (drop n (held r c)) Hok Hslot) as (s' & E' & Hok' & Hs' & _ & He).
    assert (Hfull : maps s' slot (held r c)).
    { rewrite <- (take_drop n (held r c)).
      replace (take n (held r c)) with (take n (take n (held r c))) by (rewrite take_take; f_equal; lia).
      apply (maps_write s); try done. rewrite length_take. lia. }
    exists s'. rewrite Hh, Hn, firstn_all. split_and!; try done. intros slot' p Hne Hp.
    rewrite He by done. apply decide_False. tauto.
  - exists s. rewrite firstn_all2 in Hm by lia. rewrite Hh, Hn, firstn_all.
    split_and!; try done. by destruct s.
Qed.

(** ** The two layouts of an extend pass *)

Lemma rmap_app {A B} (f : A → result B) l1 l2 :
  rmap f (l1 ++ l2) = (bs1 ← rmap f l1; bs2 ← rmap f l2; Ok (bs1 ++ bs2)).
Proof.
  induction l1 as [|a l1 IH]; cbn; [by destruct (rmap f l2)|].
  destruct (f a) as [b|]; [|done]. cbn [mbind result_bind]. rewrite IH.
  by destruct (rmap f l1), (rmap f l2).
Qed.

Lemma rmap_replicate {A B} (f : A → result B) n a b : f a = Ok b → rmap f (replicate n a) = Ok (replicate n b).
Proof. intros Hf. induction n as [|n IH]; [done|]. cbn. rewrite Hf. cbn [mbind result_bind]. by rewrite IH. Qed.

(** Gathering per-request values for every row repeats them. *)
Lemma gather_repeat (pre l lens : list nat) :
  length l = length lens →
  rmap (item (pre ++ l)) (repeat_interleave (seq (length pre) (length l)) lens) =
    Ok (repeat_interleave l lens).
Proof.
  revert pre lens. induction l as [|x l IH]; intros pre [|n lens] Hl; try done.
  unfold repeat_interleave in *. cbn. rewrite rmap_app.
  rewrite (rmap_replicate _ n (length pre) x) by (apply item_Ok, list_lookup_middle; done).
  cbn [mbind result_bind]. specialize (IH (pre ++ [x]) lens). rewrite length_app in IH. cbn in IH.
  rewrite Nat.add_1_r, <- app_assoc in IH. cbn in IH. by rewrite IH by (cbn in Hl; lia).
Qed.

Fixpoint offsets (acc : nat) (lens : list nat) : list nat :=
  match lens with [] => [] | n :: lens => acc :: offsets (acc + n) lens end.

Lemma stretch_offsets acc lens : zip_with Nat.sub (cumsum acc lens) lens = offsets acc lens.
Proof. revert acc. induction lens as [|n lens IH]; intros acc; cbn; [done|]. rewrite IH. f_equal. lia. Qed.

Lemma offsets_length acc lens : length (offsets acc lens) = length lens.
Proof. revert acc. induction lens as [|n lens IH]; intros acc; cbn; [done|]. by rewrite IH. Qed.

Lemma within_rows acc lens :
  zip_with Nat.sub (seq acc (sum_list lens)) (repeat_interleave (offsets acc lens) lens) =
    concat (seq 0 <$> lens).
Proof.
  unfold repeat_interleave. revert acc. induction lens as [|n lens IH]; intros acc; cbn; [done|].
  rewrite seq_app, zip_with_app by (by rewrite length_seq, length_replicate). f_equal; [|apply IH].
  rewrite zip_with_replicate_r by (by rewrite length_seq).
  apply list_eq. intros i. rewrite list_lookup_fmap. destruct (decide (i < n)) as [Hi|Hi].
  - rewrite !lookup_seq_lt by done. cbn. f_equal. lia.
  - by rewrite !lookup_seq_ge by lia.
Qed.

Lemma spans_rows starts lens :
  length starts = length lens →
  zip_with (λ a b, a + b + 1) (repeat_interleave starts lens) (concat (seq 0 <$> lens)) =
    concat (zip_with (λ start n, seq (start + 1) n) starts lens).
Proof.
  unfold repeat_interleave. revert lens. induction starts as [|a starts IH]; intros [|n lens] Hl; try done.
  cbn. rewrite zip_with_app by (by rewrite length_seq, length_replicate).
  f_equal; [|apply IH; by injection Hl].
  rewrite zip_with_replicate_l by (by rewrite length_seq).
  apply list_eq. intros i. rewrite list_lookup_fmap. destruct (decide (i < n)) as [Hi|Hi].
  - rewrite !lookup_seq_lt by done. cbn. f_equal. lia.
  - by rewrite !lookup_seq_ge by lia.
Qed.

Lemma flatten_twin slots starts lens :
  length slots = length starts → length starts = length lens →
  flatten_rows slots starts lens = flatten_extend_rows slots starts lens.
Proof.
  intros H1 H2. unfold flatten_rows, flatten_extend_rows.
  rewrite bool_decide_eq_true_2 by done. cbn [rguard mbind result_bind].
  rewrite stretch_offsets.
  assert (Hg : ∀ l, length l = length slots →
    rmap (item l) (repeat_interleave (seq 0 (length slots)) lens) = Ok (repeat_interleave l lens)).
  { intros l Hl. rewrite <- Hl. apply (gather_repeat []). lia. }
  rewrite !Hg by (rewrite ?offsets_length; lia). cbn [mbind result_bind].
  by rewrite within_rows, spans_rows.
Qed.

Lemma chunk_lens_Ok starts ends chunks :
  chunk_lens starts ends = Ok chunks →
  length starts = length ends ∧ chunks = zip_with (λ start end_, end_ - start) starts ends.
Proof.
  unfold chunk_lens, rguard. case_bool_decide; [|done]. cbn. by intros [= <-].
Qed.

Lemma plan_pads manager s longest slots lens :
  (filler_slot s ≠ None → ¬ length slots < graph_batch_size manager (length slots)) →
  pad_rows manager s longest slots lens = (slots, lens).
Proof.
  intros Hn. unfold pad_rows. destruct (filler_slot s); [|done].
  replace (_ - _) with 0 by (specialize (Hn ltac:(done)); lia). by rewrite !app_nil_r.
Qed.

(** An extend pass is laid out twice, on the host by list expansion and on
    the device by gathers; both give the same rows, and what [begin_extend]
    installs is what [plan_extend_rows] promised the upload, padding included. *)
Theorem extend_layout_twin manager slots starts ends s chunks
    (Hc : chunk_lens starts ends = Ok chunks) (Hl : length slots = length starts) :
  flatten_rows slots starts chunks = flatten_extend_rows slots starts chunks ∧
  ∀ n s', begin_extend manager slots starts ends s = Ok (n, s') →
    plan_extend_rows manager slots starts ends s = Ok (b_req_idx (atten s'), b_seq_len (atten s')) ∧
    n = length (b_req_idx (atten s')) ∧ b_seq_len_cpu (atten s') = Some (b_seq_len (atten s')).
Proof.
  destruct (chunk_lens_Ok _ _ _ Hc) as [Hle ->].
  assert (Htw : ∀ lens, length starts = length lens →
    flatten_rows slots starts lens = flatten_extend_rows slots starts lens)
    by (intros; by apply flatten_twin).
  split; [apply Htw; rewrite length_zip_with; lia|]. intros n s'. unfold begin_extend.
  rewrite Hc. cbn [mbind result_bind]. destruct (maximum ends) as [longest|] eqn:Em; [|done].
  cbn [mbind result_bind]. unfold rguard at 1. case_bool_decide; [|done]. cbn [mbind result_bind].
  rewrite Htw by (rewrite length_zip_with; lia).
  destruct (flatten_extend_rows _ _ _) as [[rs rl]|] eqn:Ef; [|done]. cbn [mbind result_bind].
  assert (Hp : plan_extend_rows manager slots starts ends s = Ok (pad_rows manager s longest rs rl)).
  { unfold plan_extend_rows. rewrite Hc. cbn [mbind result_bind]. rewrite Ef. cbn [mbind result_bind].
    destruct (filler_slot s) as [f|] eqn:Efl; [|by rewrite plan_pads by congruence].
    case_decide as Hd; [by rewrite Em|]. by rewrite plan_pads by done. }
  rewrite Hp. destruct (pad_rows manager s longest rs rl) as [ps pl]. cbn [mbind result_bind].
  destruct (last_rows s ps pl); [|done]. cbn [mbind result_bind]. by intros [= <- <-].
Qed.

(** ** The steady decode step *)

(** The operations of a pass on the batch; the captured graph sizes may change
    between passes, and grants are for the slots handed out. *)
Inductive pass : SlotBatch → SlotBatch → Prop :=
  | pass_write ws s s' :
      Forall (λ w, w.1.1.1 < num_slots s) ws → write_block_tables ws s = Ok s' → pass s s'
  | pass_prefill slots starts lens s s' : begin_prefill slots starts lens s = Ok s' → pass s s'
  | pass_extend manager slots starts lens s n s' :
      begin_extend manager slots starts lens s = Ok (n, s') → pass s s'
  | pass_decode manager slots lens s n s' :
      begin_decode manager slots lens s = Ok (n, s') → pass s s'
  | pass_reset s : pass s (reset s).

Lemma dcp_block_rows_inv b n r d rows :
  dcp_block_rows b n r d = Ok rows → length rows = n ∧
    ∀ o, o < n → rows !! o = Some (if decide (o mod d = r) then b * (n / d) + o / d else 0).
Proof.
  unfold dcp_block_rows, dcp_rows_per_block. intros E. inv_ok. subst.
  split; [by rewrite length_fmap, length_seq|]. intros o Ho.
  by rewrite list_lookup_fmap, lookup_seq_lt.
Qed.

Lemma init_ok total width m d r a s : init total width m d r a = Ok s → batch_ok s.
Proof.
  unfold init. cbv zeta. remember ((width + bs - 1) / bs) as tiles eqn:Htiles. intros (per & Hper & (t & Ht & [= <-])%bind_Ok)%bind_Ok.
  unfold dcp_rows_per_block in Hper. inv_ok.
  repeat match goal with H : bool_decide _ = true |- _ => apply bool_decide_eq_true in H end.
  split; cbn -[Nat.div]; [|split_and!; [lia|done|done]|done]. case_decide as Htot; inv_ok; subst t.
  2: apply Forall_replicate; by rewrite length_replicate.
  apply Forall_insert; [apply Forall_replicate; by rewrite length_replicate|].
  destruct (dcp_block_rows_inv _ _ _ _ _ ltac:(eassumption)) as (Hlen & _).
  rewrite length_take, (concat_fixed_length bs).
  - rewrite length_replicate. pose proof (Nat.div_mod_eq (width + bs - 1) bs).
    pose proof (Nat.mod_upper_bound (width + bs - 1) bs ltac:(unfold bs; lia)).
    unfold bs in *. lia.
  - by apply Forall_replicate.
Qed.

Lemma put_shape n es : ∀ t t', rfold put_entry es t = Ok t' →
  Forall (λ l : list nat, length l = n) t → Forall (λ l : list nat, length l = n) t'.
Proof.
  induction es as [|[[slot p] r] es IH]; cbn [rfold]; intros t t' E Ht; [by injection E as <-|].
  apply bind_Ok in E as (t1 & E1 & E). apply (IH _ _ E). unfold put_entry, item in E1.
  destruct (t !! slot) as [row|] eqn:Er; [|discriminate E1]. cbn [mbind result_bind] in E1.
  destruct (row !! p); [|discriminate E1]. injection E1 as <-.
  apply Forall_insert; [done|]. rewrite length_insert. exact (proj1 (Forall_lookup _ _) Ht slot row Er).
Qed.

Lemma pass_ok s s' : batch_ok s → pass s s' → batch_ok s'.
Proof.
  intros [H1 H2 H3] Hp. destruct Hp as [ws s s' Hws E|slots starts lens s s' E|m slots starts lens s n s' E
    |m slots lens s n s' E|s].
  - unfold write_block_tables in E. inv_ok. subst. split; cbn; [|done|done]. by eapply put_shape.
  - unfold begin_prefill in E. inv_ok. subst. by split.
  - unfold begin_extend in E. inv_ok. subst. by split.
  - unfold begin_decode in E. inv_ok. subst. split; cbn; [done|done|]. intros Hne.
    destruct (decide _) as [[-> ->]|] in *; [|inv_ok; by subst].
    destruct (H3 Hne) as (E1 & E2 & E3). rewrite E1, E2, E3 in *. inv_ok. by subst.
  - by split.
Qed.

Lemma decode_reset manager slots lens s :
  batch_ok s → slots ≠ [] →
  begin_decode manager slots lens s = begin_decode manager slots lens (reset s).
Proof.
  intros Hok Hne. unfold begin_decode. change (pad_decode_rows manager slots lens (reset s)) with
    (pad_decode_rows manager slots lens s).
  destruct (pad_decode_rows manager slots lens s) as [[ps pl]|] eqn:Ep; [|done]. cbn [mbind result_bind].
  assert (Hps : ps ≠ []).
  { intros ->. unfold pad_decode_rows, pad_rows in Ep. destruct (filler_slot s); [|congruence].
    case_decide; inv_ok; [congruence|]. by destruct slots. }
  rewrite (decide_False (P := ps = host_slots (reset s) ∧ _)) by (by intros [-> _]).
  case_decide as Hd; [|done]. destruct Hd as [-> ->].
  destruct (b_host _ Hok Hps) as (-> & -> & ->). done.
Qed.

(** C37: on every batch the passes can produce, a steady decode step that
    advances the device lengths in place leaves the same metadata, rows and
    mirrors as one that rebuilds them from the host. *)
Theorem decode_metadata_incremental total width m d r a s0 s manager slots lens
    (Hinit : init total width m d r a = Ok s0) (Hrun : rtc pass s0 s) (Hne : slots ≠ []) :
  begin_decode manager slots lens s = begin_decode manager slots lens (reset s).
Proof.
  apply decode_reset; [|done]. apply init_ok in Hinit.
  induction Hrun as [|x y z Hp _ IH]; [done|]. by eapply IH, pass_ok.
Qed.

(** ** The rows a pass writes *)

(** The cache rows of positions [start .. start + n) of a sequence in [ids]. *)
Definition span_rows (s : SlotBatch) (ids : list nat) (start n : nat) : list nat :=
  (λ p, row_of s (ids !!! (p / bs)) (p mod bs)) <$> seq start n.

(** One sequence of a pass: its slot, its blocks, and the span it feeds. *)
Record chunk := Chunk { c_slot : nat; c_ids : list nat; c_start : nat; c_end : nat }.

Definition placed (s : SlotBatch) (c : chunk) : Prop :=
  c_slot c < length (table s) ∧ maps s (c_slot c) (c_ids c) ∧ c_start c ≤ c_end c ∧
  c_end c ≤ row_len s ∧ c_end c ≤ bs * length (c_ids c).

Definition own_rows (s : SlotBatch) (c : chunk) : list nat :=
  span_rows s (c_ids c) (c_start c) (c_end c - c_start c).

Lemma entry_mapped s slot ids p :
  maps s slot ids → p < row_len s → p < bs * length ids →
  entry s slot p = Ok (row_of s (ids !!! (p / bs)) (p mod bs)).
Proof.
  intros Hm Hp Hl. destruct (lookup_lt_is_Some_2 ids (p / bs)) as [b Hb].
  { apply Nat.Div0.div_lt_upper_bound. lia. }
  by rewrite (list_lookup_total_correct _ _ _ Hb), (Hm p b).
Qed.

Lemma rmap_fmap {A B C} (f : B → result C) (g : A → B) l : rmap f (g <$> l) = rmap (λ a, f (g a)) l.
Proof. induction l as [|a l IH]; [done|]. cbn. by rewrite IH. Qed.

Lemma zip_replicate {A} (x : A) (l : list nat) : zip (replicate (length l) x) l = (x,.) <$> l.
Proof. induction l as [|y l IH]; [done|]. cbn. by rewrite IH. Qed.

Lemma broadcast_zip slots positions :
  length slots = length positions → broadcast slots positions = Ok (zip slots positions).
Proof. apply decide_True. Qed.

Lemma last_rows_span s c :
  placed s c →
  last_rows s (replicate (c_end c - c_start c) (c_slot c)) (seq (c_start c + 1) (c_end c - c_start c)) =
    Ok (own_rows s c).
Proof.
  intros (_ & Hm & Hle & Hw & Hl). unfold last_rows. set (n := c_end c - c_start c).
  rewrite broadcast_zip by (by rewrite length_replicate, length_seq). cbn [mbind result_bind].
  rewrite <- (length_seq n (c_start c + 1)) at 1. rewrite zip_replicate, rmap_fmap.
  rewrite (rmap_Ok _ (λ len, row_of s (c_ids c !!! ((len - 1) / bs)) ((len - 1) mod bs))).
  - f_equal. unfold own_rows, span_rows. rewrite Nat.add_1_r, <- fmap_S_seq, <- list_fmap_compose.
    apply list_fmap_ext. intros i p _. cbn. by rewrite Nat.sub_0_r.
  - intros len Hlen%elem_of_seq. rewrite decide_False by lia. apply entry_mapped; [done|lia|lia].
Qed.

Lemma last_rows_app s slots1 lens1 slots2 lens2 r1 :
  length slots1 = length lens1 → length slots2 = length lens2 →
  last_rows s slots1 lens1 = Ok r1 →
  last_rows s (slots1 ++ slots2) (lens1 ++ lens2) = (r2 ← last_rows s slots2 lens2; Ok (r1 ++ r2)).
Proof.
  intros H1 H2. unfold last_rows. rewrite !broadcast_zip by (rewrite ?length_app; lia). cbn [mbind result_bind]. intros E.
  rewrite zip_with_app by done. rewrite rmap_app, E. done.
Qed.

Lemma last_rows_spans s cs slots lens :
  Forall (placed s) cs → length slots = length lens →
  last_rows s (concat (zip_with (λ slot n, replicate n slot) (c_slot <$> cs)
      ((λ c, c_end c - c_start c) <$> cs)) ++ slots)
    (concat (zip_with (λ start n, seq (start + 1) n) (c_start <$> cs)
      ((λ c, c_end c - c_start c) <$> cs)) ++ lens) =
  (r ← last_rows s slots lens; Ok (concat (own_rows s <$> cs) ++ r)).
Proof.
  intros Hcs Hl. induction Hcs as [|c cs Hc _ IH]; cbn; [by destruct (last_rows s slots lens)|].
  rewrite <- !app_assoc. rewrite (last_rows_app _ _ _ _ _ _) with (3 := last_rows_span s c Hc).
  2: by rewrite length_replicate, length_seq.
  2: { rewrite !length_app, Hl. f_equal. clear. induction cs as [|c l IH]; cbn; [done|].
       by rewrite !length_app, IH, length_replicate, length_seq. }
  rewrite IH.
  destruct (last_rows s slots lens); [|done]. cbn. by rewrite app_assoc.
Qed.

Lemma last_rows_filler s f n longest :
  batch_ok s → f < length (table s) → n = 0 ∨ 1 ≤ longest ≤ row_len s →
  ∃ r, last_rows s (replicate n f) (replicate n longest) = Ok (replicate n r) ∧
    (n ≠ 0 → entry s f (longest - 1) = Ok r).
Proof.
  intros Hok Hf Hn. destruct (decide (n = 0)) as [->|Hne]; [by exists 0|].
  destruct (entry_shape s f (longest - 1) Hok Hf) as [r Hr]; [lia|]. exists r. split; [|done].
  unfold last_rows. rewrite broadcast_zip by (by rewrite !length_replicate).
  cbn [mbind result_bind]. rewrite zip_with_replicate.
  by rewrite (rmap_replicate _ n _ r) by (rewrite decide_False by lia; done).
Qed.

Lemma maximum_Ok l : l ≠ [] → maximum l = Ok (foldr Nat.max 0 l).
Proof. by destruct l. Qed.

Lemma foldr_max_le l n : Forall (λ x, x ≤ n) l → foldr Nat.max 0 l ≤ n.
Proof. induction 1; cbn; lia. Qed.
Lemma foldr_max_ge l x : x ∈ l → x ≤ foldr Nat.max 0 l.
Proof. induction 1; cbn; lia. Qed.

(** Rows of the filler slot close a padded pass; they lie in the null block. *)
Definition filler_ok (s : SlotBatch) : Prop :=
  ∀ f, filler_slot s = Some f → f < length (table s) ∧
    ∀ p r, p < row_len s → entry s f p = Ok r → r < rows_per_block s.

Lemma dcp_share d : 0 < d → bs mod d = 0 → 0 < bs / d ∧ ∀ o, o < bs → o / d < bs / d.
Proof.
  intros Hd Hm. pose proof (Nat.div_mod_eq bs d) as E. rewrite Hm, Nat.add_0_r in E.
  assert (0 < bs / d) by (destruct (bs / d); [unfold bs in *; lia|lia]). split; [done|].
  intros o Ho. apply Nat.Div0.div_lt_upper_bound. lia.
Qed.

Lemma init_filler total width m d r a s : init total width m d r a = Ok s → filler_ok s.
Proof.
  intros E f Hfs. pose proof (init_ok _ _ _ _ _ _ _ E) as Hok. destruct (b_dcp _ Hok) as (Hd & Hm & Hr).
  destruct (dcp_share _ Hd Hm) as [Hpos Hsh]. rewrite <- Hr in *.
  unfold init in E. revert E. cbv zeta. intros (per & _ & (t & Ht & [= <-])%bind_Ok)%bind_Ok.
  cbn [filler_slot table row_len rows_per_block dcp_size] in *.
  case_decide as Htot; [|done]. injection Hfs as <-. inv_ok. subst t.
  split; [rewrite length_insert, length_replicate; lia|]. intros p row _.
  unfold entry, item. cbn [table]. rewrite list_lookup_insert_eq by (rewrite length_replicate; lia).
  cbn [mbind result_bind]. destruct (take _ _ !! p) as [x'|] eqn:Ex; [|done]. intros [= <-].
  apply list_elem_of_lookup_2, elem_take, elem_of_concat in Ex as (l & Hx & [-> _]%elem_of_replicate).
  destruct (dcp_block_rows_inv _ _ _ _ _ ltac:(eassumption)) as (Hlen & Hrow).
  apply list_elem_of_lookup in Hx as [o Ho]. pose proof (lookup_lt_Some _ _ _ Ho) as Hlt.
  rewrite Hlen in Hlt. rewrite Hrow in Ho by done. injection Ho as <-.
  case_decide; [|done]. cbn. by apply Hsh.
Qed.

Lemma put_other f es : ∀ t t', rfold put_entry es t = Ok t' →
  Forall (λ e : nat * nat * nat, e.1.1 ≠ f) es → t' !! f = t !! f ∧ length t' = length t.
Proof.
  induction es as [|[[slot p] r] es IH]; cbn [rfold]; intros t t' E He; [by injection E as <-|].
  apply Forall_cons in He as [He1 He]. apply bind_Ok in E as (t1 & E1 & E).
  destruct (IH _ _ E He) as [-> ->]. unfold put_entry, item in E1.
  destruct (t !! slot) as [row|]; [|discriminate E1]. cbn [mbind result_bind] in E1.
  destruct (row !! p); [|discriminate E1]. injection E1 as <-.
  rewrite length_insert. split; [|done]. by apply list_lookup_insert_ne.
Qed.

Lemma expand_slot s w es : expand_write s w = Ok es → Forall (λ e, e.1.1 = w.1.1.1) es.
Proof.
  destruct w as [[[slot g] start] ids]. unfold expand_write. intros E. inv_ok.
  case_decide; inv_ok; subst; [constructor|]. apply Forall_forall.
  intros [[a b] c] Hin. apply elem_of_lookup_zip_with in Hin as (i & x & y & E & _). by injection E as ->.
Qed.

Lemma pass_filler s s' :
  (filler_slot s = None ∨ filler_slot s = Some (num_slots s)) → filler_ok s → pass s s' →
  filler_ok s' ∧ filler_slot s' = filler_slot s ∧ num_slots s' = num_slots s.
Proof.
  intros Hn Hf Hp. destruct Hp as [ws s s' Hws E|? ? ? s s' E|? ? ? ? s n s' E|? ? ? s n s' E|s]; [| | | |done].
  - unfold write_block_tables in E. apply bind_Ok in E as (ess & Ees & E).
    apply bind_Ok in E as (t & Et & [= <-]). split; [|done]. intros f Hfs. cbn in Hfs.
    destruct Hn as [Hn|Hn]; [congruence|]. assert (f = num_slots s) as -> by congruence.
    destruct (Hf _ Hn) as [Hl Hnull]. destruct (put_other (num_slots s) _ _ _ Et) as [Hrow Hlen].
    { apply Forall_forall. intros e (es & He & Hes)%elem_of_concat.
      apply rmap_inv in Ees. apply list_elem_of_lookup in Hes as [i Hi].
      destruct (Forall2_lookup_r _ _ _ _ _ Ees Hi) as (w & Hw & Ew).
      pose proof (proj1 (Forall_lookup _ _) Hws _ _ Hw) as Hlt. cbn in Hlt.
      pose proof (proj1 (Forall_forall _ _) (expand_slot _ _ _ Ew) _ He) as Heq. cbn in Heq. lia. }
    cbn [table set_table row_len rows_per_block]. split; [lia|]. intros p r Hp.
    unfold entry, item. cbn [table set_table]. rewrite Hrow. by apply Hnull.
  - unfold begin_prefill in E. by inv_ok; subst.
  - unfold begin_extend in E. by inv_ok; subst.
  - unfold begin_decode in E. by inv_ok; subst.
Qed.

Lemma reach_filler total width m d r a s0 s :
  init total width m d r a = Ok s0 → rtc pass s0 s → filler_ok s.
Proof.
  intros Hi Hrun. pose proof (init_filler _ _ _ _ _ _ _ Hi) as Hf.
  assert (Hn : filler_slot s0 = None ∨ filler_slot s0 = Some (num_slots s0)).
  { unfold init in Hi. inv_ok. subst. cbn. case_decide; auto. }
  clear Hi. induction Hrun as [|x y z Hp _ IH]; [done|].
  destruct (pass_filler _ _ Hn Hf Hp) as (? & E1 & E2). apply IH; [done|]. by rewrite E1, E2.
Qed.

Lemma pad_rows_app manager s longest slots lens :
  ∃ n f, pad_rows manager s longest slots lens =
      (slots ++ replicate n f, lens ++ replicate n (Nat.min longest (max_seq_len s))) ∧
    (n = 0 ∨ filler_slot s = Some f).
Proof.
  unfold pad_rows. destruct (filler_slot s) as [f|]; [eexists _, f; by eauto|].
  exists 0, 0. cbn. rewrite !app_nil_r. auto.
Qed.

(** What an extend or a decode pass over [cs] writes, and nothing else. *)
Definition writes_exactly (s : SlotBatch) (cs : list chunk) (r : result (nat * SlotBatch)) : Prop :=
  ∃ n s' pad, r = Ok (n, s') ∧ cur_select_index (atten s') = concat (own_rows s <$> cs) ++ pad ∧
    n = length (cur_select_index (atten s')) ∧ Forall (λ row, row < rows_per_block s) pad.

Section Passes.
Context (manager : option (list nat)) (s : SlotBatch) (cs : list chunk).
Context (Hok : batch_ok s) (Hf : filler_ok s) (Hmax : max_seq_len s = row_len s).
Context (Hcs : Forall (placed s) cs) (Hne : cs ≠ []) (Hpos : Forall (λ c, c_start c < c_end c) cs).

Lemma longest_bounds :
  maximum (c_end <$> cs) = Ok (foldr Nat.max 0 (c_end <$> cs)) ∧
  1 ≤ foldr Nat.max 0 (c_end <$> cs) ≤ row_len s.
Proof.
  rewrite maximum_Ok by (by destruct cs). split; [done|]. split.
  - destruct cs as [|c l]; [done|]. apply Forall_cons in Hpos as [Hp _]. cbn. lia.
  - apply foldr_max_le, Forall_fmap. apply (Forall_impl _ _ _ Hcs). intros c (_ & _ & _ & ? & _). done.
Qed.

(** The rows of a padded batch whose real rows spell out the chunks. *)
Lemma padded_rows longest slots lens ps pl :
  1 ≤ longest ≤ row_len s →
  slots = concat (zip_with (λ slot n, replicate n slot) (c_slot <$> cs)
    ((λ c, c_end c - c_start c) <$> cs)) →
  lens = concat (zip_with (λ start n, seq (start + 1) n) (c_start <$> cs)
    ((λ c, c_end c - c_start c) <$> cs)) →
  length slots = length lens →
  pad_rows manager s longest slots lens = (ps, pl) →
  ∃ pad, last_rows s ps pl = Ok (concat (own_rows s <$> cs) ++ pad) ∧ length ps = length pl ∧
    length (concat (own_rows s <$> cs) ++ pad) = length ps ∧ Forall (λ row, row < rows_per_block s) pad.
Proof.
  intros Hlong Es El Hlen Ep. destruct (pad_rows_app manager s longest slots lens) as (n & f & E & Hn).
  rewrite E in Ep. injection Ep as <- <-. rewrite Hmax in *.
  assert (∃ pad, last_rows s (replicate n f) (replicate n (Nat.min longest (row_len s))) = Ok pad ∧
    length pad = n ∧ Forall (λ row, row < rows_per_block s) pad) as (pad & Epad & Hlp & Hpad).
  { destruct Hn as [->|Hfs]; [by exists []|]. destruct (Hf f Hfs) as [Hft Hnull].
    destruct (last_rows_filler s f n (Nat.min longest (row_len s)) Hok Hft) as (r & Er & Hr); [lia|].
    exists (replicate n r). split_and!; [done|by rewrite length_replicate|].
    destruct (decide (n = 0)) as [->|Hn0]; [constructor|]. apply Forall_replicate.
    apply (Hnull (Nat.min longest (row_len s) - 1)); [lia|by apply Hr]. }
  exists pad. rewrite Es, El. rewrite (last_rows_spans s cs _ _ Hcs), Epad by by rewrite !length_replicate. cbn [mbind result_bind].
  rewrite Es, El in Hlen. split_and!; [done| | |done].
  - rewrite !length_app, !length_replicate. lia.
  - rewrite !length_app, length_replicate, Hlp. f_equal. rewrite Hlen. clear.
    induction cs as [|c l IH]; cbn; [done|].
    rewrite !length_app, IH. unfold own_rows, span_rows. by rewrite length_fmap, !length_seq.
Qed.

Lemma extend_writes :
  writes_exactly s cs (begin_extend manager (c_slot <$> cs) (c_start <$> cs) (c_end <$> cs) s).
Proof.
  destruct longest_bounds as [Em Hlong]. set (longest := foldr _ _ _) in *.
  set (lens := (λ c, c_end c - c_start c) <$> cs).
  set (rs := concat (zip_with (λ slot n, replicate n slot) (c_slot <$> cs) lens)).
  set (rl := concat (zip_with (λ start n, seq (start + 1) n) (c_start <$> cs) lens)).
  assert (Hch : chunk_lens (c_start <$> cs) (c_end <$> cs) = Ok lens).
  { unfold chunk_lens. rewrite bool_decide_eq_true_2 by (by rewrite !length_fmap). cbn.
    f_equal. unfold lens. clear. induction cs as [|c l IH]; cbn; [done|]. by rewrite IH. }
  assert (Hfl : flatten_rows (c_slot <$> cs) (c_start <$> cs) lens = Ok (rs, rl)).
  { rewrite flatten_twin by (unfold lens; by rewrite !length_fmap). unfold flatten_extend_rows.
    rewrite bool_decide_eq_true_2 by (unfold lens; by rewrite !length_fmap). done. }
  destruct (extend_layout_twin manager (c_slot <$> cs) (c_start <$> cs) (c_end <$> cs) s lens Hch)
    as [Htw _]; [by rewrite !length_fmap|]. rewrite Hfl in Htw.
  unfold begin_extend, plan_extend_rows. rewrite Hch. cbn [mbind result_bind]. rewrite Em.
  cbn [mbind result_bind]. rewrite bool_decide_eq_true_2 by lia. cbn [rguard mbind result_bind].
  rewrite Hfl, <- Htw. cbn [mbind result_bind].
  destruct (pad_rows manager s longest _ _) as [ps pl] eqn:Ep.
  assert (Hrl : length rs = length rl).
  { unfold rs, rl, lens. clear. induction cs as [|c l IH]; cbn; [done|].
    rewrite !length_app, IH, length_replicate, length_seq. done. }
  destruct (padded_rows longest rs rl ps pl Hlong eq_refl eq_refl Hrl Ep) as (pad & El & _ & Hlp & Hpad).
  assert (Hplan : match filler_slot s with
    | Some _ => if decide (length rs < graph_batch_size manager (length rs))
                then Ok (ps, pl) else Ok (rs, rl)
    | None => Ok (rs, rl) end = Ok (ps, pl)).
  { destruct (filler_slot s) eqn:Efs.
    - case_decide as Hd; [done|]. rewrite <- Ep. by rewrite plan_pads.
    - rewrite <- Ep. by rewrite plan_pads by congruence. }
  rewrite Hplan. cbn [mbind result_bind]. rewrite El. cbn [mbind result_bind].
  eexists _, _, pad. split_and!; [reflexivity|done|by rewrite <- Hlp|done].
Qed.

Lemma decode_writes :
  Forall (λ c, c_end c = c_start c + 1) cs →
  writes_exactly s cs (begin_decode manager (c_slot <$> cs) (c_end <$> cs) s).
Proof.
  intros Hone. destruct longest_bounds as [Em Hlong].
  rewrite decode_reset by (done || by destruct cs). unfold begin_decode.
  change (pad_decode_rows manager _ _ (reset s)) with (pad_decode_rows manager (c_slot <$> cs) (c_end <$> cs) s).
  set (longest := foldr _ _ _) in *.
  assert (Hpd : pad_decode_rows manager (c_slot <$> cs) (c_end <$> cs) s =
    Ok (pad_rows manager s longest (c_slot <$> cs) (c_end <$> cs))).
  { unfold pad_decode_rows. destruct (filler_slot s) eqn:Efs; [|by rewrite plan_pads by congruence].
    case_decide as Hd; [by rewrite plan_pads by lia|]. by rewrite Em. }
  rewrite Hpd. destruct (pad_rows manager s longest _ _) as [ps pl] eqn:Ep. cbn [mbind result_bind].
  assert (c_slot <$> cs = concat (zip_with (λ slot n, replicate n slot) (c_slot <$> cs)
      ((λ c, c_end c - c_start c) <$> cs)) ∧
    c_end <$> cs = concat (zip_with (λ start n, seq (start + 1) n) (c_start <$> cs)
      ((λ c, c_end c - c_start c) <$> cs))) as [Hs Hl].
  { clear -Hone. induction Hone as [|c l Hc _ [IH1 IH2]]; cbn; [done|].
    rewrite Hc. replace (c_start c + 1 - c_start c) with 1 by lia. cbn. rewrite <- IH1, <- IH2. done. }
  destruct (padded_rows longest _ _ ps pl Hlong Hs Hl) as (pad & El & Hlen & Hlp & Hpad);
    [by rewrite !length_fmap|done|].
  rewrite (decide_False (P := ps = host_slots (reset s) ∧ _)).
  2: { intros [-> _]. cbn in Hlp. apply length_zero_iff_nil in Hlp. destruct cs as [|c l]; [done|].
       apply Forall_cons in Hone as [Hc _]. cbn in Hlp. unfold own_rows, span_rows in Hlp.
       rewrite Hc in Hlp. replace (c_start c + 1 - c_start c) with 1 in Hlp by lia. done. }
  cbn [mbind result_bind]. rewrite Em. cbn [mbind result_bind].
  change (last_rows (reset s) ps pl) with (last_rows s ps pl). rewrite El. cbn [mbind result_bind].
  eexists _, _, pad. split_and!; [reflexivity|done|by rewrite <- Hlp|done].
Qed.
End Passes.

(** *** Isolation *)

Lemma row_of_div s b o : batch_ok s → o < bs →
  row_of s b o / rows_per_block s = b ∨ row_of s b o / rows_per_block s = 0.
Proof.
  intros Hok Ho. destruct (b_dcp _ Hok) as (Hd & Hm & Hr). destruct (dcp_share _ Hd Hm) as [Hpos Hsh].
  unfold row_of. rewrite Hr. case_decide as Hmine; [left|right; by apply Nat.div_small].
  rewrite Nat.add_comm, Nat.div_add by lia. by rewrite Nat.div_small by (by apply Hsh).
Qed.

Lemma own_rows_blocks s c row :
  batch_ok s → row ∈ own_rows s c → row / rows_per_block s ≠ 0 →
  ∃ p, c_start c ≤ p < c_end c ∧ row / rows_per_block s = c_ids c !!! (p / bs).
Proof.
  intros Hok (p & -> & Hp%elem_of_seq)%list_elem_of_fmap Hne. exists p. split; [lia|].
  destruct (row_of_div s (c_ids c !!! (p / bs)) (p mod bs) Hok) as [E|E]; [|done|done].
  apply Nat.mod_upper_bound. unfold bs. lia.
Qed.

(** What no pass changes: the shape of the batch and its place in the group. *)
Lemma reach_shape total width m d r a s0 s :
  init total width m d r a = Ok s0 → rtc pass s0 s →
  batch_ok s ∧ max_seq_len s = m ∧ row_len s = width ∧ dcp_size s = d ∧ dcp_rank s = r.
Proof.
  intros Hinit Hrun.
  assert (H0 : batch_ok s0 ∧ max_seq_len s0 = m ∧ row_len s0 = width ∧ dcp_size s0 = d ∧ dcp_rank s0 = r).
  { split; [by eapply init_ok|]. unfold init in Hinit. by inv_ok; subst. }
  clear Hinit. induction Hrun as [|x y z Hp _ IH]; [done|]. apply IH.
  destruct H0 as (H1 & H2). split; [by eapply pass_ok|]. clear -Hp H2.
  destruct Hp as [ws s s' _ E|? ? ? s s' E|? ? ? ? s n s' E|? ? ? s n s' E|s]; [..|done].
  - unfold write_block_tables in E. by inv_ok; subst.
  - unfold begin_prefill in E. by inv_ok; subst.
  - unfold begin_extend in E. by inv_ok; subst.
  - unfold begin_decode in E. by inv_ok; subst.
Qed.

(** C38: on every rank of a context-parallel group of any size, an extend or a
    decode pass returns, writes the rows of the positions it feeds in the blocks
    of their own sequences (this rank's share of them, the discard row for the
    rest) plus rows of the null block, and so touches no row that this rank
    keeps of a block outside the spans it feeds. *)
Theorem passes_stay_in_their_blocks total width d r a s0 s manager cs b o
    (Hinit : init total width width d r a = Ok s0) (Hrun : rtc pass s0 s)
    (Hcs : Forall (placed s) cs) (Hne : cs ≠ []) (Hpos : Forall (λ c, c_start c < c_end c) cs)
    (Hb : b ≠ 0) (Ho : o < rows_per_block s)
    (Hout : ∀ c p, c ∈ cs → c_start c ≤ p < c_end c → c_ids c !!! (p / bs) ≠ b) :
  dcp_size s = d ∧ dcp_rank s = r ∧ rows_per_block s = bs / d ∧
  (∃ n s', begin_extend manager (c_slot <$> cs) (c_start <$> cs) (c_end <$> cs) s = Ok (n, s') ∧
    b * rows_per_block s + o ∉ cur_select_index (atten s')) ∧
  (Forall (λ c, c_end c = c_start c + 1) cs →
   ∃ n s', begin_decode manager (c_slot <$> cs) (c_end <$> cs) s = Ok (n, s') ∧
    b * rows_per_block s + o ∉ cur_select_index (atten s')).
Proof.
  pose proof (reach_filler _ _ _ _ _ _ _ _ Hinit Hrun) as Hf.
  destruct (reach_shape _ _ _ _ _ _ _ _ Hinit Hrun) as (Hok & Hm & Hw & Hd & Hr).
  assert (Hmax : max_seq_len s = row_len s) by congruence.
  destruct (b_dcp _ Hok) as (_ & _ & Hrpb).
  assert (Hblock : (b * rows_per_block s + o) / rows_per_block s = b).
  { rewrite Nat.add_comm, Nat.div_add by lia. by rewrite Nat.div_small. }
  assert (Hiso : ∀ res, writes_exactly s cs res →
    ∃ n s', res = Ok (n, s') ∧ b * rows_per_block s + o ∉ cur_select_index (atten s')).
  { intros res (n & s' & pad & -> & Ecur & _ & Hpad). exists n, s'. split; [done|].
    rewrite Ecur. intros [Hin|Hin]%elem_of_app.
    - apply elem_of_concat in Hin as (rows & Hin & (c & -> & Hc)%list_elem_of_fmap).
      destruct (own_rows_blocks s c _ Hok Hin) as (p & Hp & E); [by rewrite Hblock|].
      apply (Hout c p Hc Hp). by rewrite <- E, Hblock.
    - rewrite Forall_forall in Hpad. specialize (Hpad _ Hin).
      destruct b; [done|]. lia. }
  split_and!; [done|done|by rewrite Hrpb, Hd| |].
  - by apply Hiso, extend_writes.
  - intros Hone. by apply Hiso, decode_writes.
Qed.

(** ** The padded grid of a prefill pass *)

(** Whatever the slot's table still names past the end of a chunk. *)
Definition leftover (s : SlotBatch) (slot from n : nat) : list nat :=
  (λ p, match entry s slot p with Ok row => row | Err _ => 0 end) <$> seq from n.

Definition grid_row (s : SlotBatch) (width : nat) (c : chunk) : list nat :=
  own_rows s c ++ leftover s (c_slot c) (c_end c) (width - (c_end c - c_start c)).

Lemma grid_row_Ok s width c :
  batch_ok s → placed s c → c_end c - c_start c ≤ width → c_start c + width ≤ row_len s →
  rmap (λ j, entry s (c_slot c) (c_start c + j)) (seq 0 width) = Ok (grid_row s width c).
Proof.
  intros Hok (Hs & Hm & Hle & Hw & Hl) Hwd Hfit.
  rewrite (rmap_Ok _ (λ j, match entry s (c_slot c) (c_start c + j) with Ok row => row | Err _ => 0 end)).
  2: { intros j Hj%elem_of_seq. destruct (entry_shape s (c_slot c) (c_start c + j) Hok Hs) as [row ->]; [lia|done]. }
  f_equal. set (n := c_end c - c_start c) in *.
  replace width with (n + (width - n)) at 1 by lia. rewrite seq_app, fmap_app. unfold grid_row. f_equal.
  - unfold own_rows, span_rows. fold n. apply list_eq. intros i. rewrite !list_lookup_fmap.
    destruct (decide (i < n)) as [Hi|Hi]; [|by rewrite !lookup_seq_ge by lia].
    rewrite !lookup_seq_lt by done. cbn [fmap option_fmap option_map]. rewrite Nat.add_0_l.
    by rewrite (entry_mapped s (c_slot c) (c_ids c)) by (done || lia).
  - unfold leftover. fold n. apply list_eq. intros i. rewrite !list_lookup_fmap.
    destruct (decide (i < width - n)) as [Hi|Hi]; [|by rewrite !lookup_seq_ge by lia].
    rewrite !lookup_seq_lt by done. cbn [fmap option_fmap option_map].
    by replace (c_start c + (0 + n + i)) with (c_end c + i) by lia.
Qed.

Lemma grid_row_Err s width c :
  batch_ok s → c_slot c < length (table s) → c_start c ≤ row_len s → row_len s < c_start c + width →
  rmap (λ j, entry s (c_slot c) (c_start c + j)) (seq 0 width) = Err IndexError.
Proof.
  intros Hok Hs Hst Hw. assert (Hgen : ∀ n k, c_start c + k ≤ row_len s → row_len s < c_start c + (k + n) →
    rmap (λ j, entry s (c_slot c) (c_start c + j)) (seq k n) = Err IndexError).
  { induction n as [|n IH]; intros k Hk Hkn; [exfalso; lia|]. cbn.
    destruct (decide (c_start c + k < row_len s)) as [Hlt|Hge].
    - destruct (entry_shape s (c_slot c) (c_start c + k) Hok Hs Hlt) as [row ->]. cbn [mbind result_bind].
      by rewrite IH by lia.
    - destruct (lookup_lt_is_Some_2 _ _ Hs) as [row Hrow].
      pose proof (proj1 (Forall_lookup _ _) (b_shape _ Hok) _ _ Hrow) as Hl. cbn in Hl.
      unfold entry. rewrite (item_Ok _ _ _ Hrow). cbn [mbind result_bind]. unfold item.
      by rewrite lookup_ge_None_2 by lia. }
  apply Hgen; lia.
Qed.

Lemma grid_rows_Ok s width cs :
  batch_ok s → Forall (placed s) cs → Forall (λ c, c_end c - c_start c ≤ width) cs →
  (Forall (λ c, c_start c + width ≤ row_len s) cs →
    grid_rows s (c_slot <$> cs) (c_start <$> cs) width = Ok (concat (grid_row s width <$> cs))) ∧
  (Exists (λ c, row_len s < c_start c + width) cs →
    grid_rows s (c_slot <$> cs) (c_start <$> cs) width = Err IndexError).
Proof.
  intros Hok Hcs Hwd. unfold grid_rows. rewrite broadcast_zip by by rewrite !length_fmap. cbn [mbind result_bind]. induction Hcs as [|c cs Hc _ IH].
  { split; [done|]. by intros ?%Exists_nil. }
  apply Forall_cons in Hwd as [Hw Hwd]. destruct (IH Hwd) as [IH1 IH2]. cbn. split.
  - intros [Hf Hfs]%Forall_cons. rewrite (grid_row_Ok s width c) by done. cbn [mbind result_bind].
    specialize (IH1 Hfs). apply bind_Ok in IH1 as (rows & -> & [= E]). cbn. by rewrite E.
  - intros He. destruct (decide (row_len s < c_start c + width)) as [Hlt|Hge].
    + destruct Hc as (? & _ & ? & ? & _). rewrite (grid_row_Err s width c) by (done || lia). done.
    + rewrite (grid_row_Ok s width c) by (done || lia). cbn [mbind result_bind].
      apply Exists_cons in He as [?|He]; [lia|]. specialize (IH2 He).
      destruct (rmap _ (zip _ _)); [done|]. exact IH2.
Qed.

(** A prefill pass lays every chunk out as wide as the widest one.  It
    raises exactly when a chunk padded to that width leaves the table, however
    short the chunk itself; otherwise it writes each chunk's own rows and, for
    the padding, whatever rows the slot's table still names past the chunk. *)
Theorem prefill_grid_rows s cs width (Hok : batch_ok s) (Hmax : max_seq_len s = row_len s)
    (Hd : dcp_size s = 1) (Hcs : Forall (placed s) cs) (Hne : cs ≠ [])
    (Hw : width = foldr Nat.max 0 ((λ c, c_end c - c_start c) <$> cs)) :
  if decide (Forall (λ c, c_start c + width ≤ row_len s) cs)
  then ∃ s', begin_prefill (c_slot <$> cs) (c_start <$> cs) (c_end <$> cs) s = Ok s' ∧
    cur_select_index (atten s') = concat (grid_row s width <$> cs)
  else begin_prefill (c_slot <$> cs) (c_start <$> cs) (c_end <$> cs) s = Err IndexError.
Proof.
  assert (Hch : chunk_lens (c_start <$> cs) (c_end <$> cs) = Ok ((λ c, c_end c - c_start c) <$> cs)).
  { unfold chunk_lens. rewrite bool_decide_eq_true_2 by (by rewrite !length_fmap). cbn.
    f_equal. clear. induction cs as [|c l IH]; cbn; [done|]. by rewrite IH. }
  assert (Hwd : Forall (λ c, c_end c - c_start c ≤ width) cs).
  { apply Forall_forall. intros c Hc. rewrite Hw. apply foldr_max_ge, list_elem_of_fmap. by exists c. }
  destruct (grid_rows_Ok s width cs Hok Hcs Hwd) as [H1 H2].
  unfold begin_prefill. rewrite Hch. cbn [mbind result_bind].
  rewrite !maximum_Ok by (by destruct cs). rewrite <- Hw. cbn [mbind result_bind].
  rewrite (bool_decide_eq_true_2 (width ≤ max_seq_len s)).
  2: { rewrite Hw, Hmax. apply foldr_max_le, Forall_fmap, (Forall_impl _ _ _ Hcs).
       intros c (_ & _ & _ & ? & _). cbn. lia. }
  cbn [rguard mbind result_bind].
  case_decide as Hfit.
  - rewrite H1 by done. cbn [mbind result_bind]. case_decide as Hs; cbn [mbind result_bind].
    + rewrite bool_decide_eq_true_2 by lia. cbn [rguard mbind result_bind].
      rewrite rmap_fmap. rewrite (rmap_Ok _ (λ c, match entry s (c_slot c) 0 with Ok row => row | Err _ => 0 end)).
      * eexists. by split.
      * intros c Hc. rewrite Forall_forall in Hcs. destruct (Hcs c Hc) as (Hsl & _ & Hle & Hr & _).
        destruct (decide (row_len s = 0)) as [Hz|Hz].
        -- exfalso. apply Exists_exists in Hs as (x & (c' & -> & Hc')%list_elem_of_fmap & Hx).
           destruct (Hcs c' Hc') as (_ & _ & ? & ? & _). lia.
        -- destruct (entry_shape s (c_slot c) 0 Hok Hsl) as [row ->]; [lia|done].
    + eexists. by split.
  - rewrite H2; [done|]. apply not_Forall_Exists in Hfit; [|apply _].
    apply (Exists_impl _ _ _ Hfit). intros c ?. cbn in *. lia.
Qed.

(** ** The rows a resumed chunk reads *)

Lemma seq_take_drop n base total : base + n ≤ total → take n (drop base (seq 0 total)) = seq base n.
Proof.
  intros Hn. replace total with (base + (n + (total - base - n))) by lia.
  rewrite seq_app, drop_app_length' by (by rewrite length_seq). rewrite seq_app.
  by rewrite take_app_length' by (by rewrite length_seq).
Qed.

(** The chunked prefill kernel reads a sequence's history as one run of
    rows from its first; those are the rows the sequence's table names exactly
    when the blocks it holds are consecutive, which paging does not provide. *)
Theorem chunked_reads_need_consecutive_blocks s slot ids len total base
    (Hok : batch_ok s) (Hd : dcp_size s = 1) (Hr : dcp_rank s = 0) (Hs : slot < length (table s))
    (Hm : maps s slot ids) (H1 : 1 ≤ len) (Hw : len ≤ row_len s) (Hl : len ≤ bs * length ids)
    (Hb : entry s slot 0 = Ok base) (Ht : base + len ≤ total) :
  decode_reads (table s) slot len = Ok (chunked_reads total base len) ↔
  ∀ k, k * bs < len → ids !!! k = ids !!! 0 + k.
Proof.
  assert (Hrow : ∀ b o, o < bs → row_of s b o = b * bs + o).
  { intros b o Ho. unfold row_of. destruct (b_dcp _ Hok) as (_ & _ & ->).
    rewrite Hd, Hr, Nat.mod_1_r, decide_True by done. by rewrite !Nat.div_1_r. }
  assert (Hbs : 0 < bs) by (unfold bs; lia).
  assert (Hent : ∀ p, p < len → entry s slot p = Ok ((ids !!! (p / bs)) * bs + p mod bs)).
  { intros p Hp. rewrite (entry_mapped s slot ids) by (done || lia). f_equal.
    apply Hrow, Nat.mod_upper_bound. lia. }
  assert (Hbase : base = (ids !!! 0) * bs).
  { rewrite Hent in Hb by lia. rewrite Nat.div_0_l, Nat.mod_0_l in Hb by lia. injection Hb as <-. lia. }
  unfold chunked_reads. rewrite seq_take_drop by done.
  destruct (lookup_lt_is_Some_2 _ _ Hs) as [row Hrw].
  pose proof (proj1 (Forall_lookup _ _) (b_shape _ Hok) _ _ Hrw) as Hlr. cbn in Hlr.
  unfold decode_reads. rewrite (item_Ok _ _ _ Hrw). cbn [mbind result_bind].
  assert (Hlk : ∀ p, p < len → row !! p = Some ((ids !!! (p / bs)) * bs + p mod bs)).
  { intros p Hp. specialize (Hent p Hp). unfold entry in Hent. rewrite (item_Ok _ _ _ Hrw) in Hent.
    cbn in Hent. unfold item in Hent. destruct (row !! p); [|done]. by injection Hent as ->. }
  split.
  - intros [= E] k Hk. pose proof (f_equal (.!! k * bs) E) as Ek.
    rewrite lookup_take_lt, Hlk, lookup_seq_lt in Ek by done. apply (inj Some) in Ek.
    rewrite Nat.div_mul, Nat.Div0.mod_mul in Ek by lia. subst base. nia.
  - intros Hk. f_equal. apply list_eq. intros p. destruct (decide (p < len)) as [Hp|Hp].
    + rewrite lookup_take_lt, Hlk, lookup_seq_lt by done. f_equal. rewrite Hk.
      * pose proof (Nat.div_mod_eq p bs). subst base. nia.
      * pose proof (Nat.Div0.mul_div_le p bs). lia.
    + rewrite lookup_take_ge by lia. by rewrite lookup_seq_ge by lia.
Qed.

(** ** Decode context parallelism *)

Lemma owned_positions size rank k :
  rank < size →
  filter (λ p, p mod size = rank) (seq 0 (k * size)) = (λ i, i * size + rank) <$> seq 0 k.
Proof.
  intros Hr. induction k as [|k IH]; [done|].
  rewrite Nat.mul_succ_l, seq_app, filter_app, IH, seq_S, fmap_app. f_equal.
  cbn [fmap list_fmap]. rewrite !Nat.add_0_l.
  assert (Hs : ∀ n o, o + n = size → o ≤ rank → filter (λ p, p mod size = rank) (seq (k * size + o) n) =
    [k * size + rank]).
  { induction n as [|n IHn]; intros o Ho Hor; [lia|]. cbn [seq]. rewrite filter_cons.
    rewrite Nat.add_comm, Nat.Div0.mod_add, Nat.mod_small by lia. rewrite Nat.add_comm.
    case_decide as Hd.
    - subst o. f_equal.
      assert (Hno : ∀ l, (∀ x, x ∈ l → k * size + rank < x < k * size + size) → filter (λ p, p mod size = rank) l = []).
      { intros l Hl. induction l as [|x l IHl]; [done|]. rewrite filter_cons, decide_False.
        - apply IHl. intros y Hy. apply Hl. by right.
        - destruct (Hl x) as [Hx1 Hx2]; [left|]. replace x with ((x - k * size) + k * size) by lia.
          rewrite Nat.Div0.mod_add, Nat.mod_small by lia. lia. }
      apply Hno. intros x Hx%elem_of_seq. lia.
    - rewrite <- Nat.add_succ_r. apply IHn; lia. }
  rewrite <- (Nat.add_0_r (k * size)) at 1. apply Hs; lia.
Qed.

Lemma owned_count size rank n :
  0 < size → rank < size →
  length (filter (λ p, p mod size = rank) (seq 0 n)) = (n + size - 1 - rank) / size.
Proof.
  intros Hs Hr. induction n as [|n IH].
  { cbn. rewrite Nat.div_small; lia. }
  rewrite seq_S, filter_app, length_app, IH, Nat.add_0_l.
  pose proof (Nat.div_mod_eq n size) as En. pose proof (Nat.mod_upper_bound n size ltac:(lia)) as Hm.
  set (q := n / size) in *. set (m := n mod size) in *.
  assert (Hdiv : ∀ x, q * size ≤ x < (q + 1) * size → x / size = q).
  { intros x Hx. replace x with ((x - q * size) + q * size) by lia.
    rewrite Nat.div_add by lia. rewrite Nat.div_small by lia. done. }
  assert (Hdiv' : ∀ x, (q + 1) * size ≤ x < (q + 2) * size → x / size = q + 1).
  { intros x Hx. replace x with ((x - (q + 1) * size) + (q + 1) * size) by lia.
    rewrite Nat.div_add by lia. rewrite Nat.div_small by lia. done. }
  rewrite filter_cons, filter_nil. fold m. case_decide as Hd; cbn [length].
  - rewrite (Hdiv (n + size - 1 - rank)) by nia. rewrite (Hdiv' (S n + size - 1 - rank)) by nia. done.
  - destruct (decide (m < rank)) as [Hlt|Hge].
    + rewrite (Hdiv (n + size - 1 - rank)) by nia. rewrite (Hdiv (S n + size - 1 - rank)) by nia. lia.
    + rewrite (Hdiv' (n + size - 1 - rank)) by nia. rewrite (Hdiv' (S n + size - 1 - rank)) by nia. lia.
Qed.

(** When the world size divides the block, each rank stores exactly the
    positions congruent to it, packed without gaps into the block's own rows,
    sends every other position to the discard row, and counts the positions of
    a sequence that are its own. *)
Theorem dcp_partitions_rows block size rank b
    (Hs : 0 < size) (Hd : block mod size = 0) (Hr : rank < size) :
  ∃ rows, dcp_block_rows b block rank size = Ok rows ∧ length rows = block ∧
    (λ o, rows !!! o) <$> filter (λ o, o mod size = rank) (seq 0 block) =
      seq (b * (block / size)) (block / size) ∧
    (∀ o, o < block → o mod size ≠ rank → rows !! o = Some 0) ∧
    ∀ n, dcp_local_seq_len n rank size =
      Z.of_nat (length (filter (λ p, p mod size = rank) (seq 0 n))).
Proof.
  assert (∃ rows, dcp_block_rows b block rank size = Ok rows) as [rows E].
  { unfold dcp_block_rows, dcp_rows_per_block. rewrite (bool_decide_eq_true_2 (size ≠ 0)) by lia.
    rewrite (bool_decide_eq_true_2 (block mod size = 0)) by done. by eexists. }
  destruct (dcp_block_rows_inv _ _ _ _ _ E) as [Hlen Hrow]. exists rows. split_and!; [done|done| | |].
  - pose proof (Nat.div_mod_eq block size) as Eb. rewrite Hd, Nat.add_0_r, Nat.mul_comm in Eb.
    set (k := block / size) in *. rewrite Eb at 1. rewrite owned_positions by done.
    rewrite <- list_fmap_compose. apply list_eq. intros i. rewrite list_lookup_fmap.
    destruct (decide (i < k)) as [Hi|Hi]; [|by rewrite !lookup_seq_ge by lia].
    rewrite !lookup_seq_lt by done. cbn [fmap option_fmap option_map]. f_equal. unfold compose.
    apply list_lookup_total_correct. rewrite Hrow by nia.
    rewrite Nat.add_0_l, (Nat.add_comm (i * size)), Nat.Div0.mod_add, Nat.mod_small, decide_True by done.
    rewrite Nat.div_add, Nat.div_small by lia. f_equal.
  - intros o Ho Hn. rewrite Hrow by done. by rewrite decide_False.
  - intros n. rewrite owned_count by done. unfold dcp_local_seq_len.
    replace (Z.of_nat n - Z.of_nat rank + Z.of_nat size - 1)%Z with (Z.of_nat (n + size - 1 - rank)) by lia.
    rewrite <- Nat2Z.inj_div. lia.
Qed.

(** ** Instances *)

Definition blank : AttentionMetadata := MkAtten [] None [] [] 0 true None None 0 None.

(** Four table rows of 64 positions, the last for filler. *)
Definition demo : result SlotBatch := init 4 64 64 1 0 blank.

(** Slot 0 has the blocks 1, 2 and slot 1 the blocks 5, 3. *)
Definition demo_mapped : result SlotBatch :=
  s ← demo; write_block_tables [(0, 0, 0, [1; 2]); (1, 0, 0, [5; 3])] s.

Definition demo_chunks : list chunk := [Chunk 0 [1; 2] 16 20; Chunk 1 [5; 3] 3 6].

Lemma demo_mapped_reachable s0 s : demo = Ok s0 → demo_mapped = Ok s → rtc pass s0 s.
Proof.
  intros E0 E. unfold demo_mapped in E. rewrite E0 in E. cbn [mbind result_bind] in E.
  apply rtc_once. eapply pass_write; [|exact E]. unfold demo in E0. vm_compute in E0.
  injection E0 as <-. repeat constructor.
Qed.

(** [maps] for a concrete slot, decided. *)
Definition maps_b (s : SlotBatch) (slot : nat) (ids : list nat) : bool :=
  forallb (λ p, match ids !! (p / bs) with
    | Some b => bool_decide (entry s slot p = Ok (row_of s b (p mod bs)))
    | None => true end) (seq 0 (row_len s)).

Lemma maps_b_sound s slot ids : maps_b s slot ids = true → maps s slot ids.
Proof.
  unfold maps_b. rewrite forallb_forall. intros H p b Hb Hp.
  specialize (H p). rewrite Hb in H. apply bool_decide_eq_true in H; [done|].
  apply list_elem_of_In, elem_of_seq. lia.
Qed.

(** A three-token prompt in slot 0 grows to the width of its neighbour: the
    padding falls on what the slot's last occupant left behind. *)
Definition demo_grid : list chunk := [Chunk 0 [1; 2] 0 3; Chunk 1 [5; 3] 0 20].

Lemma demo_facts s : demo_mapped = Ok s →
  batch_ok s ∧ Forall (placed s) demo_chunks ∧ Forall (placed s) demo_grid ∧ row_len s = 64 ∧
  max_seq_len s = 64 ∧ dcp_size s = 1 ∧ dcp_rank s = 0 ∧ entry s 1 0 = Ok 80.
Proof.
  intros E. assert (Hm : maps_b s 0 [1; 2] = true ∧ maps_b s 1 [5; 3] = true ∧ length (table s) = 4 ∧
    row_len s = 64 ∧ max_seq_len s = 64 ∧ dcp_size s = 1 ∧ dcp_rank s = 0 ∧ entry s 1 0 = Ok 80)
    by (vm_compute in E; injection E as <-; vm_compute; done).
  destruct Hm as (H0 & H1 & Ht & Hw & Hf). apply maps_b_sound in H0, H1.
  split.
  { destruct (init 4 64 64 1 0 blank) as [s0|] eqn:E0; [|vm_compute in E0; discriminate E0].
    pose proof (demo_mapped_reachable s0 s E0 E) as Hrun. apply init_ok in E0.
    clear -E0 Hrun. induction Hrun as [|x y z Hp _ IH]; [done|]. by eapply IH, pass_ok. }
  clear E. unfold demo_chunks, demo_grid. rewrite !Forall_cons. unfold placed.
  cbn [c_slot c_ids c_start c_end length]. unfold bs.
  split_and!; try apply Forall_nil_2; try exact H0; try exact H1; try apply Hf; lia.
Qed.

Lemma extend_layout_twin_witness :
  ∃ s, demo_mapped = Ok s ∧ flatten_rows [0; 1] [16; 3] [4; 3] = flatten_extend_rows [0; 1] [16; 3] [4; 3].
Proof.
  destruct demo_mapped as [s|] eqn:E; [|vm_compute in E; discriminate E]. exists s. split; [done|].
  apply (extend_layout_twin None [0; 1] [16; 3] [20; 6] s [4; 3]); reflexivity.
Defined.

Lemma decode_metadata_incremental_witness :
  ∃ s0 n s, demo = Ok s0 ∧ begin_decode None [0; 2] [5; 9] s0 = Ok (n, s) ∧ host_slots s = [0; 2] ∧
    begin_decode None [0; 2] [6; 10] s = begin_decode None [0; 2] [6; 10] (reset s).
Proof.
  destruct demo as [s0|] eqn:E0; [|vm_compute in E0; discriminate E0]. exists s0.
  destruct (begin_decode None [0; 2] [5; 9] s0) as [[n s]|] eqn:E.
  2: { vm_compute in E0. injection E0 as <-. vm_compute in E. discriminate E. }
  exists n, s. split_and!; [done|done| |].
  - vm_compute in E0. injection E0 as <-. vm_compute in E. by injection E as _ <-.
  - apply (decode_metadata_incremental 4 64 64 1 0 blank s0); [exact E0| |done].
    apply rtc_once. by apply (pass_decode None [0; 2] [5; 9] s0 n s).
Defined.

(** The same tables on rank 1 of a context-parallel pair, eight rows a block. *)
Definition shard : result SlotBatch := init 4 64 64 2 1 blank.
Definition shard_mapped : result SlotBatch :=
  s ← shard; write_block_tables [(0, 0, 0, [1; 2]); (1, 0, 0, [5; 3])] s.

Lemma shard_facts s0 s : shard = Ok s0 → shard_mapped = Ok s →
  rtc pass s0 s ∧ Forall (placed s) demo_chunks ∧ rows_per_block s = 8.
Proof.
  intros E0 E. split.
  { unfold shard_mapped in E. rewrite E0 in E. cbn [mbind result_bind] in E.
    apply rtc_once. eapply pass_write; [|exact E]. unfold shard in E0. vm_compute in E0.
    injection E0 as <-. repeat constructor. }
  assert (Hm : maps_b s 0 [1; 2] = true ∧ maps_b s 1 [5; 3] = true ∧ length (table s) = 4 ∧
    row_len s = 64 ∧ rows_per_block s = 8) by (vm_compute in E; injection E as <-; vm_compute; done).
  destruct Hm as (H0 & H1 & Ht & Hw & Hr). apply maps_b_sound in H0, H1. split; [|done].
  clear E E0. unfold demo_chunks. rewrite !Forall_cons. unfold placed.
  cbn [c_slot c_ids c_start c_end length]. unfold bs.
  split_and!; try apply Forall_nil_2; try exact H0; try exact H1; lia.
Qed.

(** Seven rows and one of filler: nothing of block 1 is written, though its
    sequence is fed in block 2. *)
Lemma passes_stay_in_their_blocks_witness :
  ∃ s n s', shard_mapped = Ok s ∧
    begin_extend (Some [8]) [0; 1] [16; 3] [20; 6] s = Ok (n, s') ∧
    1 * rows_per_block s + 3 ∉ cur_select_index (atten s').
Proof.
  destruct shard as [s0|] eqn:E0; [|vm_compute in E0; discriminate E0].
  destruct shard_mapped as [s|] eqn:E; [|vm_compute in E; discriminate E]. exists s.
  destruct (shard_facts s0 s E0 E) as (Hrun & Hcs & Hr).
  destruct (passes_stay_in_their_blocks 4 64 2 1 blank s0 s (Some [8]) demo_chunks 1 3)
    as (_ & _ & _ & (n & s' & H1 & H2) & _).
  - exact E0.
  - exact Hrun.
  - exact Hcs.
  - done.
  - repeat constructor.
  - done.
  - rewrite Hr. lia.
  - intros c p Hc Hp. unfold demo_chunks in Hc.
    apply elem_of_cons in Hc as [->|Hc]; [|apply list_elem_of_singleton in Hc as ->];
      cbn [c_ids c_start c_end] in Hp |- *.
    + replace (p / bs) with 1; [done|]. apply (Nat.div_unique p bs 1 (p - 16)); unfold bs; lia.
    + replace (p / bs) with 0; [done|]. apply (Nat.div_unique p bs 0 p); unfold bs; lia.
  - exists n, s'. split; [reflexivity|exact (conj H1 H2)].
Defined.

Lemma prefill_grid_rows_witness :
  ∃ s s', demo_mapped = Ok s ∧ begin_prefill [0; 1] [0; 0] [3; 20] s = Ok s' ∧
    cur_select_index (atten s') = concat (grid_row s 20 <$> demo_grid).
Proof.
  destruct demo_mapped as [s|] eqn:E; [|vm_compute in E; discriminate E].
  destruct (demo_facts s E) as (Hok & _ & Hs & Hrow & Hmax & Hd & _). clear E.
  pose proof (prefill_grid_rows s demo_grid 20 Hok ltac:(congruence) Hd Hs ltac:(done) eq_refl) as H.
  rewrite decide_True in H.
  - destruct H as (s' & H1 & H2). exists s, s'. split; [reflexivity|exact (conj H1 H2)].
  - unfold demo_grid. rewrite Hrow, !Forall_cons. cbn. split_and!; [lia|lia|done].
Defined.

Lemma chunked_reads_need_consecutive_blocks_witness :
  ∃ s, demo_mapped = Ok s ∧ decode_reads (table s) 1 20 ≠ Ok (chunked_reads 200 80 20).
Proof.
  destruct demo_mapped as [s|] eqn:E; [|vm_compute in E; discriminate E]. exists s. split; [reflexivity|].
  destruct (demo_facts s E) as (Hok & Hp & _ & Hrow & Hmax & Hd & Hr & Hb). clear E.
  unfold demo_chunks in Hp. rewrite !Forall_cons in Hp.
  destruct Hp as (_ & (B1 & B2 & _) & _). cbn [c_slot c_ids] in B1, B2. intros Heq.
  apply (chunked_reads_need_consecutive_blocks s 1 [5; 3] 20 200 80 Hok Hd Hr B1 B2) with (k := 1) in Heq;
    [done|lia|lia|cbn; unfold bs; lia|done|lia|unfold bs; lia].
Defined.

Lemma dcp_partitions_rows_witness : dcp_local_seq_len 37 1 4 = 9%Z.
Proof.
  destruct (dcp_partitions_rows 16 4 1 0) as (rows & _ & _ & _ & _ & H); [lia|done|lia|].
  rewrite H. reflexivity.
Defined.

(** A request that holds 20 rows in two blocks. *)
Definition demo_cache : result Cache.PrefixCache :=
  c ← Cache.init 8 Client.PREFIX_CACHE_BLOCK_SIZE None 0 true;
  '(_, c) ← Cache.track Chain.toy_digest "r" (replicate 20 7%Z) c;
  '(_, c) ← Cache.allocate "r" 20 None c;
  Ok c.

Lemma demo_cache_ok c : demo_cache = Ok c →
  ∃ toks holder, Client.cache_ok Chain.toy_digest c toks holder.
Proof.
  intros E. set (toks := λ r : string, Some (replicate 20 7%Z)).
  unfold demo_cache in E. apply bind_Ok in E as (c0 & E0 & E).
  destruct (Client.cache_init_ok Chain.toy_digest _ _ _ toks (λ _, False) E0) as [H0 Hh].
  destruct (Client.track_Ok Chain.toy_digest Chain.toy_digest_ok c0 toks (λ _, False) "r" _ H0 eq_refl)
    as (hs & c1 & E1 & H1 & Hco & _).
  { apply Forall_replicate. vm_compute. done. }
  rewrite E1 in E. cbn [mbind result_bind] in E.
  destruct (Client.alloc_Ok Chain.toy_digest c1 toks (λ _, False) "r" 20 None H1)
    as (b & c2 & E2 & _ & _ & Hb).
  { by left. }
  rewrite E2 in E. cbn in E. injection E as <-. exists toks. destruct b.
  - exists (λ r', False ∨ r' = "r"). apply Hb.
  - exists (λ _, False). apply Hb.
Qed.

Lemma device_table_in_step_witness :
  ∃ c s ws c' s', demo_cache = Ok c ∧ demo = Ok s ∧
    Cache.take_table_writes "r" c = Ok (ws, c') ∧
    write_block_tables (addressed 2 ws) s = Ok s' ∧ maps s' 2 (held "r" c).
Proof.
  destruct demo_cache as [c|] eqn:Ec; [|vm_compute in Ec; discriminate Ec].
  destruct (init 4 64 64 1 0 blank) as [s|] eqn:Es; [|vm_compute in Es; discriminate Es].
  destruct (demo_cache_ok c Ec) as (toks & holder & Hc).
  assert (Hst : ∃ state, Cache.sequences c !! "r" = Some state ∧ mapped_count "r" c = 0)
    by (vm_compute in Ec; injection Ec as <-; eexists; split; vm_compute; reflexivity).
  destruct Hst as (state & Hst & Hm).
  assert (Hl : 2 < length (table s)) by (vm_compute in Es; injection Es as <-; vm_compute; lia).
  destruct (device_table_in_step Chain.toy_digest c toks holder "r" state 2 s Hc Hst (init_ok _ _ _ _ _ _ _ Es) Hl)
    as (ws & c' & s' & H1 & H2 & _ & _ & _ & H3 & _).
  { rewrite Hm. intros p b Hb. cbn in Hb. done. }
  exists c, s, ws, c', s'. split_and!; [reflexivity|exact Es|exact H1|exact H2|exact H3].
Defined.
End SlotSpec.
