(* ===== verification/StopCriteria.v ===== *)
(** * Stop conditions (stop_criteria.py)

    The loop breaker on generated text, and the per-sequence stop flags.  The
    digits of [\d] are a parameter: the Unicode decimal digits of Python's
    [re]. *)

From S2P Require Export PyText.

Module Stop.
Import Text.

Definition POLL_INTERVAL : nat := 8.

Section Repetition.
Context (is_digit : Z → bool).

(** [_DIGIT_RE.sub("<n>", text)]: every maximal run of digits becomes one
    placeholder; [run] tells whether the last character was in one. *)
Fixpoint sub_digits (run : bool) (t : text) : text :=
  match t with
  | [] => []
  | c :: t =>
      if is_digit c
      then (if run then sub_digits true t else lit "<n>" ++ sub_digits true t)
      else c :: sub_digits false t
  end.

(** [t.count(tag)]: occurrences from the left that do not overlap; one more
    than the length for the empty string. *)
Fixpoint count_from (fuel : nat) (tag t : text) : nat :=
  match fuel with
  | 0 => 0
  | S fuel =>
      match find tag t with
      | Some i => S (count_from fuel tag (drop (i + length tag) t))
      | None => 0
      end
  end.
Definition count (tag t : text) : nat :=
  if decide (tag = []) then S (length t) else count_from (length t) tag t.

(** [window > 0] *)
Definition detect_repetition (t : text) (window min_reps : nat) : bool :=
  if decide (length t < window * (min_reps + 1)) then false
  else
    let norm := sub_digits false t in
    let recent := tail window norm in
    bool_decide (min_reps ≤ count recent (cut window norm)).

End Repetition.

(** ** The flags of a batch *)

Inductive reason := LENGTH | EOS | REPEAT.

#[global] Instance reason_eq_dec : EqDecision reason.
Proof. solve_decision. Defined.

Record StopCriteria := MkStop {
  finished : list bool;
  reason_codes : list reason;
  is_stop : list bool;
}.

(** [StopCriteria(batch_size, stop_token_ids, vocab_size)]; an id out of the
    vocabulary raises. *)
Definition init (batch_size : nat) (stop_token_ids : list nat) (vocab_size : nat) :
    result StopCriteria :=
  lookup_table ← rfold (λ i t, _ ← item t i; Ok (<[i := true]> t)) stop_token_ids
    (replicate vocab_size false);
  Ok (MkStop (replicate batch_size false) (replicate batch_size LENGTH) lookup_table).

(** One sequence of [update]. *)
Definition hit_of (table : list bool) (token : nat) (writable fin : bool) : result bool :=
  stop ← item table token;
  Ok (writable && stop && negb fin).

Definition update (next_token : list nat) (writable : list bool) (s : StopCriteria) :
    result StopCriteria :=
  _ ← rguard (bool_decide (length next_token = length (finished s) ∧
    length writable = length (finished s))) RuntimeError;
  hits ← rmap (λ '(token, w, f), hit_of (is_stop s) token w f)
    (zip (zip next_token writable) (finished s));
  Ok (MkStop (zip_with orb (finished s) hits)
        (zip_with (λ h c, if (h : bool) then EOS else c) hits (reason_codes s)) (is_stop s)).

Definition mark_repeat (index : nat) (s : StopCriteria) : result StopCriteria :=
  _ ← item (finished s) index;
  Ok (MkStop (<[index := true]> (finished s)) (<[index := REPEAT]> (reason_codes s)) (is_stop s)).

Definition all_finished (s : StopCriteria) : bool := forallb id (finished s).
Definition reasons (s : StopCriteria) : list reason := reason_codes s.

End Stop.
