(* ===== verification/Scheduler.v ===== *)
(** * The engine loop ([Scheduler] of scheduler.py)

    Each step asks the planner for a plan, turns it into passes, runs them and
    harvests the sampled tokens; with the launch/harvest pipeline, speculative
    verification and the command loop of a scheduler process.  Where passes run
    is an interface, [Executor]; clocks, metrics and tracing are left out, and
    there is one data-parallel replica. *)

From S2P Require Export BatchPlanner Detokenizer NgramProposer StopCriteria.
From stdpp Require Export pretty.
From Stdlib Require Import QArith.

#[local] Close Scope Q_scope.

Module Sched.
Import Planner.

(** ** Sampling parameters ([SamplingParams] of sampler.py) *)

Record SamplingParams := MkParams {
  temperature : Q;
  top_p : Q;
  max_gen_len : option nat;
  repetition_penalty : Q;
  stop_on_repeat : bool;
  logprobs : option Z;
  prompt_logprobs : option Z;
}.

(** [SamplingParams()] *)
Definition default_params : SamplingParams :=
  MkParams (6 # 10)%Q (9 # 10)%Q None (11 # 10)%Q true None None.

(** [__post_init__] *)
Definition make_params (p : SamplingParams) : result SamplingParams :=
  _ ← rguard (Qle_bool 0%Q (temperature p)) ValueError;
  _ ← rguard (negb (Qle_bool (top_p p) 0%Q) && Qle_bool (top_p p) 1%Q) ValueError;
  _ ← rguard (match max_gen_len p with Some n => bool_decide (1 ≤ n) | None => true end) ValueError;
  _ ← rguard (negb (Qle_bool (repetition_penalty p) 0%Q)) ValueError;
  _ ← rguard (match logprobs p with Some k => bool_decide (0 ≤ k)%Z | None => true end) ValueError;
  _ ← rguard (match prompt_logprobs p with Some k => bool_decide (0 ≤ k)%Z | None => true end)
    ValueError;
  Ok p.

Definition is_greedy (p : SamplingParams) : bool := Qeq_bool (temperature p) 0%Q.

(** ** Passes ([PassKind] and [ModelInput] of worker.py) *)

Inductive PassKind := PREFILL | EXTEND | DECODE.

#[global] Instance PassKind_eq_dec : EqDecision PassKind.
Proof. solve_decision. Defined.

Record ModelInput := MkInput {
  kind : PassKind;
  slots : list (option nat);
  seq_starts : list Z;
  seq_lens : list Z;
  tokens : list Z;
  sampling : list SamplingParams;
  sampled : list nat;
  gen_counts : list Z;
  block_writes : list (option nat * nat * nat * list nat);
  in_prompt_logprobs : list (option Z);
  prompt_targets : list Z;
  return_logits : bool;
}.

Definition chunk_lens (x : ModelInput) : list Z :=
  zip_with (λ start end_, end_ - start)%Z (seq_starts x) (seq_lens x).

Definition total (l : list Z) : Z := foldr Z.add 0%Z l.

Definition wants (l : list (option Z)) : bool := existsb (λ k, bool_decide (is_Some k)) l.

(** [ModelInput(...)] with its [__post_init__] *)
Definition make_input (x : ModelInput) : result ModelInput :=
  _ ← rguard (bool_decide (slots x ≠ [])) ValueError;
  _ ← rguard (bool_decide (length (slots x) = length (seq_starts x) ∧
    length (seq_starts x) = length (seq_lens x))) ValueError;
  _ ← rguard (bool_decide (Z.of_nat (length (tokens x)) = total (chunk_lens x))) ValueError;
  _ ← rguard (bool_decide (length (sampled x) = length (sampling x) ∧
    length (sampling x) = length (gen_counts x))) ValueError;
  _ ← rguard (bool_decide (in_prompt_logprobs x = [] ∨
    length (in_prompt_logprobs x) = length (slots x))) ValueError;
  _ ← rguard (bool_decide (prompt_targets x = [] ∨
    length (prompt_targets x) = length (tokens x))) ValueError;
  _ ← rguard (negb (wants (in_prompt_logprobs x) && bool_decide (prompt_targets x = []))) ValueError;
  Ok x.

(** [PassLogprobs], over the records of one position. *)
Record PassLogprobs {LP : Type} := MkLogprobs {
  lp_sampled : list (option LP);
  lp_prompt : list (option (list LP));
}.
Arguments PassLogprobs : clear implicits.
Arguments MkLogprobs {LP} _ _.

(** ** Where passes run ([Executor] of executor.py)

    [execute] gives one token per sampled row; [execute_verify] the logits of
    every row, when the executor can.  [Row] is one row of logits. *)
Class Executor (X LP Row : Type) := {
  execute : ModelInput → X → result (list Z * option (PassLogprobs LP) * X);
  execute_verify : ModelInput → X → result (option (list Row) * X);
  argmax : Row → Z;
}.

(** ** Requests *)

(** The fields of [Request] the planner never reads. *)
Record Front {LP : Type} := MkFront {
  prompt : Text.text;
  params : SamplingParams;
  text : Text.text;
  delta : Text.text;
  fr_prompt_logprobs : option (list (option LP));
  output_logprobs : option (list LP);
  delta_logprobs : option LP;
  error : option exn;
}.
Arguments Front : clear implicits.
Arguments MkFront {LP} _ _ _ _ _ _ _ _.

Section Fronts.
Context {LP : Type}.
Implicit Types (f : Front LP).
Definition set_text (t d : Text.text) f : Front LP :=
  MkFront (prompt f) (params f) t d (fr_prompt_logprobs f) (output_logprobs f) (delta_logprobs f)
    (error f).
Definition set_output_logprobs (o : option (list LP)) (d : option LP) f : Front LP :=
  MkFront (prompt f) (params f) (text f) (delta f) (fr_prompt_logprobs f) o d (error f).
Definition set_prompt_logprobs (x : option (list (option LP))) f : Front LP :=
  MkFront (prompt f) (params f) (text f) (delta f) x (output_logprobs f) (delta_logprobs f)
    (error f).
Definition set_error (x : option exn) f : Front LP :=
  MkFront (prompt f) (params f) (text f) (delta f) (fr_prompt_logprobs f) (output_logprobs f)
    (delta_logprobs f) x.
(** What [_preempt] clears on the object beside the planner's fields. *)
Definition preempted_front f : Front LP :=
  set_output_logprobs None None (set_prompt_logprobs None f).
Definition fresh_front (prompt : Text.text) (p : SamplingParams) : Front LP :=
  MkFront prompt p [] [] None None None None.
End Fronts.

(** [_Work]: a pass with the requests it samples for and those it chunks. *)
Record Work := MkWork {
  work_plan : ModelInput;
  work_requests : list nat;
  work_chunks : list nat;
}.

(** [_TokenizeJob]; [outcome] is [None] until the encode lands. *)
Record TokenizeJob := MkJob {
  job_request : nat;
  outcome : option (result (list Z));
  has_on_error : bool;
}.

Section Scheduler.
Context {T X LP Row : Type} `{!Offload.OffloadingManager T} `{!Executor X LP Row}
  (digest : list Z → list Z) (decode_ids : list Z → Text.text)
  (encode : Text.text → result (list Z)) (is_digit : Z → bool).

Notation Front := (Front LP).
Notation PassLogprobs := (PassLogprobs LP).
Notation Launched := (Work * list Z * option PassLogprobs)%type.

(** What the constructor settles. *)
Record Settings := MkSettings {
  stop_token_ids : list Z;
  pipeline : bool;
  pipeline_depth : nat;
  chunked_min_rows : option nat;
  proposer : option Ngram.NgramProposer;
  async_tokenize : bool;
}.

(** [tokenizing] is a dict in insertion order; [on_errors] logs the callbacks
    fired. *)
Record Scheduler := MkSched {
  settings : Settings;
  planner : BatchPlanner T;
  fronts : gmap nat Front;
  detokenizers : gmap string Detok.IncrementalDetokenizer;
  next_object : nat;
  request_ids : nat;
  step_count : nat;
  tokenizing : list (string * TokenizeJob);
  inflight : list (list Launched);
  executor : X;
  on_errors : list (nat * exn);
}.

Definition set_planner (p : BatchPlanner T) (s : Scheduler) : Scheduler :=
  MkSched (settings s) p (fronts s) (detokenizers s) (next_object s) (request_ids s)
    (step_count s) (tokenizing s) (inflight s) (executor s) (on_errors s).
Definition set_fronts (x : gmap nat Front) (s : Scheduler) : Scheduler :=
  MkSched (settings s) (planner s) x (detokenizers s) (next_object s) (request_ids s)
    (step_count s) (tokenizing s) (inflight s) (executor s) (on_errors s).
Definition set_detokenizers (x : gmap string Detok.IncrementalDetokenizer) (s : Scheduler) :
    Scheduler :=
  MkSched (settings s) (planner s) (fronts s) x (next_object s) (request_ids s) (step_count s)
    (tokenizing s) (inflight s) (executor s) (on_errors s).
Definition set_counters (objects ids steps : nat) (s : Scheduler) : Scheduler :=
  MkSched (settings s) (planner s) (fronts s) (detokenizers s) objects ids steps (tokenizing s)
    (inflight s) (executor s) (on_errors s).
Definition set_tokenizing (x : list (string * TokenizeJob)) (s : Scheduler) : Scheduler :=
  MkSched (settings s) (planner s) (fronts s) (detokenizers s) (next_object s) (request_ids s)
    (step_count s) x (inflight s) (executor s) (on_errors s).
Definition set_inflight (x : list (list Launched)) (s : Scheduler) : Scheduler :=
  MkSched (settings s) (planner s) (fronts s) (detokenizers s) (next_object s) (request_ids s)
    (step_count s) (tokenizing s) x (executor s) (on_errors s).
Definition set_executor (x : X) (s : Scheduler) : Scheduler :=
  MkSched (settings s) (planner s) (fronts s) (detokenizers s) (next_object s) (request_ids s)
    (step_count s) (tokenizing s) (inflight s) x (on_errors s).
Definition set_on_errors (x : list (nat * exn)) (s : Scheduler) : Scheduler :=
  MkSched (settings s) (planner s) (fronts s) (detokenizers s) (next_object s) (request_ids s)
    (step_count s) (tokenizing s) (inflight s) (executor s) x.

Definition request (oid : nat) (s : Scheduler) : result Req.Request := get oid (planner s).
Definition front (oid : nat) (s : Scheduler) : result Front :=
  match fronts s !! oid with Some f => Ok f | None => Err KeyError end.
Definition update_request (oid : nat) (f : Req.Request → Req.Request) (s : Scheduler) : Scheduler :=
  set_planner (update oid f (planner s)) s.
Definition update_front (oid : nat) (f : Front → Front) (s : Scheduler) : Scheduler :=
  set_fronts (alter f oid (fronts s)) s.

(** [SchedulerConfig(max_seq_len=engine.max_seq_len)] *)
Definition default_config (max_seq_len : nat) : SchedulerConfig :=
  MkConfig max_seq_len 32 8192 true 512 false None false 0.

(** What the constructor reads of the engine, the executor and the
    environment: the graph cap is that of the captured batch sizes. *)
Record Deployment := MkDeployment {
  is_multimodal : bool;
  engine_max_seq_len : nat;
  engine_stop_token_ids : list Z;
  executor_num_slots : nat;
  executor_num_kv_blocks : nat;
  decode_context_parallel : bool;
  fused_chunk : bool;
  graph_cap : nat;
  speculate_enabled : bool;
  dp_attention : bool;
}.

(** [__init__], with the executor already built. *)
Definition init (d : Deployment) (cfg : option SchedulerConfig) (x : X) (pipelined : bool)
    (depth : nat) (async : bool) (offload : option T) : result Scheduler :=
  _ ← rguard (negb (is_multimodal d)) NotImplementedError;
  cfg ← (match cfg with Some cfg => Ok cfg | None => make_config (default_config (engine_max_seq_len d)) end);
  _ ← rguard (bool_decide (max_seq_len cfg ≤ engine_max_seq_len d)) ValueError;
  _ ← rguard (negb (pipelined && enable_preemption cfg)) ValueError;
  _ ← rguard (negb (decode_context_parallel d && bool_decide (is_Some offload))) ValueError;
  p ← Planner.init cfg (executor_num_slots d)
        (if decide (executor_num_kv_blocks d = 0) then None else Some (executor_num_kv_blocks d)) offload;
  _ ← rguard (negb (speculate_enabled d && dp_attention d)) ValueError;
  Ok (MkSched
    (MkSettings (engine_stop_token_ids d) pipelined (if pipelined then Nat.max 1 depth else 1)
      (if fused_chunk d && negb (decode_context_parallel d) then Some (graph_cap d + 1) else None)
      (if speculate_enabled d then Some (Ngram.Proposer 5 6) else None) async)
    p ∅ ∅ 0 0 0 [] [] x []).

(** *** Building the passes *)

(** One chunk of a pass: the object, its two halves, and the chunk. *)
Definition row : Type := nat * Req.Request * Front * Z.
Definition row_end (x : row) : Z := let '(_, r, _, _) := x in Z.of_nat (Req.num_computed_tokens r).
Definition row_start (x : row) : Z := let '(_, _, _, chunk) := x in (row_end x - chunk)%Z.
Definition row_tokens (x : row) : list Z :=
  let '(_, r, _, _) := x in Ngram.slice (Req.prompt_token_ids r) (row_start x) (row_end x).
Definition row_targets (x : row) : list Z :=
  let '(_, r, _, chunk) := x in
  let targets := Ngram.slice (Req.prompt_token_ids r) (row_start x + 1) (row_end x + 1) in
  targets ++ replicate (Z.to_nat (chunk - Z.of_nat (length targets))) 0%Z.
Definition row_final (x : row) : bool :=
  let '(_, r, _, _) := x in bool_decide (Req.num_computed_tokens r = Req.prompt_len r).
Definition row_oid (x : row) : nat := let '(oid, _, _, _) := x in oid.
Definition row_request (x : row) : Req.Request := let '(_, r, _, _) := x in r.
Definition row_params (x : row) : SamplingParams := let '(_, _, f, _) := x in params f.
Definition writes_of (r : Req.Request) : list (option nat * nat * nat * list nat) :=
  (λ '(group_id, start_block, block_ids), (Req.slot r, group_id, start_block, block_ids))
    <$> Req.block_plan r.

Definition load_row (s : Scheduler) (c : nat * nat) : result row :=
  r ← request c.1 s; f ← front c.1 s; Ok (c.1, r, f, Z.of_nat c.2).

(** [_chunk_work]: what its loop accumulates, list by list. *)
Definition chunk_work (kind : PassKind) (chunks : list (nat * nat)) (s : Scheduler) : result Work :=
  rows ← rmap (load_row s) chunks;
  let finals := filter (λ e, row_final e.2 = true) (zip (seq 0 (length rows)) rows) in
  let asked := (λ x, prompt_logprobs (row_params x)) <$> rows in
  plan ← make_input (MkInput kind
    (Req.slot ∘ row_request <$> rows) (row_start <$> rows) (row_end <$> rows)
    (concat (row_tokens <$> rows))
    (row_params ∘ snd <$> finals) finals.*1 (replicate (length finals) 0%Z)
    (concat (writes_of ∘ row_request <$> rows))
    (if wants asked then asked else [])
    (if wants asked then concat (row_targets <$> rows) else [])
    false);
  Ok (MkWork plan (row_oid ∘ snd <$> finals) chunks.*1).

(** [_prefill_work]; [None] is [math.inf]. *)
Definition prefill_work (group chunk_lens : list nat) (chunked_min_rows : option nat)
    (s : Scheduler) : result (list Work) :=
  _ ← rguard (bool_decide (length group = length chunk_lens)) ValueError;
  pairs ← rmap (λ c, r ← request c.1 s; Ok (c, Req.num_computed_tokens r)) (zip group chunk_lens);
  let fresh := (filter (λ e, e.2 = e.1.2) pairs).*1 in
  let resumed := (filter (λ e, e.1.2 < e.2) pairs).*1 in
  first ← (if decide (fresh = []) then Ok [] else w ← chunk_work PREFILL fresh s; Ok [w]);
  later ←
    (if decide (resumed = []) then Ok []
     else
       let rows := sum_list resumed.*2 in
       let kind :=
         match chunked_min_rows with
         | Some n => if decide (n ≤ rows) then PREFILL else EXTEND
         | None => EXTEND
         end in
       w ← chunk_work kind resumed s; Ok [w]);
  Ok (first ++ later).

(** [l[-1]] *)
Definition last_item {A} (l : list A) : result A :=
  match last l with Some a => Ok a | None => Err IndexError end.

(** [_decode_work] *)
Definition decode_work (running : list nat) (from_device : bool) (s : Scheduler) : result Work :=
  rows ← rmap (λ oid, r ← request oid s; f ← front oid s; Ok (r, f)) running;
  let ahead r := if from_device then Req.pending_tokens r else 0%Z in
  let seq_lens := (λ '(r, _), Z.of_nat (Req.seq_len r) + ahead r)%Z <$> rows in
  tokens ←
    (if from_device then Ok (replicate (length rows) (-1)%Z)
     else rmap (λ '(r, _), last_item (Req.output_token_ids r)) rows);
  plan ← make_input (MkInput DECODE
    ((λ '(r, _), Req.slot r) <$> rows) ((λ n, n - 1)%Z <$> seq_lens) seq_lens tokens
    ((λ '(_, f), params f) <$> rows) (seq 0 (length rows))
    ((λ '(r, _), Z.of_nat (length (Req.output_token_ids r)) + ahead r)%Z <$> rows)
    (concat ((λ '(r, _), writes_of r) <$> rows)) [] [] false);
  Ok (MkWork plan running []).

(** *** Harvesting *)

(** [_retire] and [_finish] *)
Definition retire (request_id : string) (s : Scheduler) : Scheduler :=
  set_detokenizers (delete request_id (detokenizers s)) s.

Definition finish (oid : nat) (reason : string) (s : Scheduler) : result Scheduler :=
  p ← Planner.finish digest oid reason (planner s);
  r ← get oid p;
  Ok (retire (Req.request_id r) (set_planner p s)).

(** [advanced] in order, and the ids whose delta was reset this step. *)
Definition harvest_one (check_repeat : bool) (e : nat * Z * option LP)
    (st : list nat * list string * Scheduler) : result (list nat * list string * Scheduler) :=
  let '(oid, token_id, record) := e in
  let '(advanced, opened, s) := st in
  r ← request oid s;
  if Req.is_finished r then Ok (advanced, opened, s)
  else
    let rid := Req.request_id r in
    f ← front oid s;
    let s :=
      if decide (rid ∈ opened) then s
      else update_front oid (λ f,
        set_output_logprobs (output_logprobs f) None (set_text (text f) [] f)) s in
    let opened := if decide (rid ∈ opened) then opened else rid :: opened in
    if decide (token_id ∈ stop_token_ids (settings s)) then
      s ← finish oid "eos" s; Ok (advanced ++ [oid], opened, s)
    else
      let s := update_request oid (λ r,
        Req.set_output_token_ids (Req.output_token_ids r ++ [token_id]) r) s in
      let s :=
        match record with
        | Some record => update_front oid (λ f,
            set_output_logprobs (Some (default [] (output_logprobs f) ++ [record])) (Some record) f) s
        | None => s
        end in
      d ← (match detokenizers s !! rid with Some d => Ok d | None => Err KeyError end);
      '(piece, d) ← Detok.append decode_ids 0 token_id d;
      let s := set_detokenizers (<[rid := d]> (detokenizers s)) s in
      let s := update_front oid (λ f, set_text (text f ++ piece) (delta f ++ piece) f) s in
      let advanced := advanced ++ [oid] in
      r ← request oid s;
      f ← front oid s;
      if negb (Req.has_room r) || bool_decide (max_seq_len (config (planner s)) ≤ Req.seq_len r) then
        s ← finish oid "length" s; Ok (advanced, opened, s)
      else if check_repeat && stop_on_repeat (params f) && Stop.detect_repetition is_digit (text f) 128 3
      then s ← finish oid "repeat" s; Ok (advanced, opened, s)
      else Ok (advanced, opened, s).

Definition harvest (emitted : list (nat * Z * option LP)) (s : Scheduler) :
    result (list nat * Scheduler) :=
  let check_repeat := bool_decide (step_count s mod Stop.POLL_INTERVAL = 0) in
  '(advanced, _, s) ← rfold (harvest_one check_repeat) emitted ([], [], s);
  Ok (advanced, s).

(** [_attribute_prompt_logprobs] *)
Definition put_record (at_ : nat) (record : LP) (l : list (option LP)) : result (list (option LP)) :=
  _ ← item l at_; Ok (<[at_ := Some record]> l).

Definition attribute_one (e : nat * Z * option (list LP)) (s : Scheduler) : result Scheduler :=
  let '(oid, start, records) := e in
  match records with
  | None => Ok s
  | Some records =>
      r ← request oid s;
      f ← front oid s;
      let placed := default (replicate (Req.prompt_len r) None) (fr_prompt_logprobs f) in
      placed ← rfold (λ '(j, record) l, put_record (Z.to_nat start + j + 1) record l)
        (zip (seq 0 (length records)) records) placed;
      Ok (update_front oid (set_prompt_logprobs (Some placed)) s)
  end.

Definition attribute_prompt_logprobs (w : Work) (prompt : list (option (list LP)))
    (s : Scheduler) : result Scheduler :=
  _ ← rguard (bool_decide (length (work_chunks w) = length (seq_starts (work_plan w)) ∧
    length (seq_starts (work_plan w)) = length prompt)) ValueError;
  rfold attribute_one (zip (zip (work_chunks w) (seq_starts (work_plan w))) prompt) s.

(** Python's [any] over per-sequence records. *)
Definition any_records (prompt : list (option (list LP))) : bool :=
  existsb (λ x, match x with Some (_ :: _) => true | _ => false end) prompt.

(** The records of a pass, and its tokens with their requests. *)
Definition attribute_pass (w : Work) (lps : option PassLogprobs) (s : Scheduler) : result Scheduler :=
  match lps with
  | Some lps => if any_records (lp_prompt lps)
                then attribute_prompt_logprobs w (lp_prompt lps) s else Ok s
  | None => Ok s
  end.

Definition pass_records (w : Work) (lps : option PassLogprobs) : list (option LP) :=
  match lps with
  | Some lps => if decide (length (lp_sampled lps) = 0)
                then replicate (length (work_requests w)) None else lp_sampled lps
  | None => replicate (length (work_requests w)) None
  end.

Definition pass_tokens (w : Work) (tokens : list Z) (lps : option PassLogprobs) :
    result (list (nat * Z * option LP)) :=
  let records := pass_records w lps in
  _ ← rguard (bool_decide (length (work_requests w) = length tokens ∧
    length tokens = length records)) ValueError;
  Ok (zip (zip (work_requests w) tokens) records).

(** [_execute_lockstep] with one replica *)
Definition execute_one (w : Work) (st : list Launched * Scheduler) :
    result (list Launched * Scheduler) :=
  let '(done, s) := st in
  '(tokens, lps, x) ← execute (work_plan w) (executor s);
  Ok (done ++ [(w, tokens, lps)], set_executor x s).
Definition execute_lockstep (work : list Work) (s : Scheduler) : result (list Launched * Scheduler) :=
  rfold execute_one work ([], s).

(** *** Speculative verification *)

Definition draft_one (p : Ngram.NgramProposer) (oid : nat)
    (st : list (nat * list Z) * list nat * Scheduler) :
    result (list (nat * list Z) * list nat * Scheduler) :=
  let '(drafts, remaining, s) := st in
  r ← request oid s;
  f ← front oid s;
  if decide (logprobs (params f) ≠ None) then Ok (drafts, remaining ++ [oid], s)
  else
    let proposed := Ngram.propose p (Req.prompt_token_ids r ++ Req.output_token_ids r) in
    '(fit, s) ←
      (if decide (proposed = []) then Ok (0, s)
       else '(fit, pl) ← reserve_speculative oid (length proposed) (planner s);
            Ok (fit, set_planner pl s));
    if decide (fit = 0) then Ok (drafts, remaining ++ [oid], s)
    else Ok (drafts ++ [(oid, take fit proposed)], remaining, s).

(** The stretch of one draft: its anchor, then the draft tokens. *)
Definition verify_input (drafts : list (nat * list Z)) (s : Scheduler) : result ModelInput :=
  rows ← rmap (λ '(oid, ids), r ← request oid s; anchor ← last_item (Req.output_token_ids r);
                 Ok (r, anchor, ids)) drafts;
  make_input (MkInput EXTEND
    ((λ '(r, _, _), Req.slot r) <$> rows)
    ((λ '(r, _, _), Z.of_nat (Req.seq_len r) - 1)%Z <$> rows)
    ((λ '(r, _, ids), Z.of_nat (Req.seq_len r + length (ids : list Z))) <$> rows)
    (concat ((λ '(_, anchor, ids), anchor :: ids) <$> rows))
    [] [] [] (concat ((λ '(r, _, _), writes_of r) <$> rows)) [] [] true).

Notation pick := (argmax (X := X) (LP := LP)).

(** Drafts the model agrees with, up to the first it does not. *)
Fixpoint accepted (rows : list Row) (drafts : list Z) : result nat :=
  match drafts with
  | [] => Ok 0
  | d :: drafts =>
      match rows with
      | [] => Err IndexError
      | row :: rows => if decide (pick row ≠ d) then Ok 0 else n ← accepted rows drafts; Ok (S n)
      end
  end.

(** The tokens of one stretch: the accepted drafts and the bonus. *)
Definition stretch (rows : list Row) (drafts : list Z) : result (list Z) :=
  n ← accepted rows drafts;
  row ← item rows n;
  Ok (take n drafts ++ [pick row]).

Fixpoint stretches (offset : nat) (logits : list Row) (drafts : list (nat * list Z)) :
    result (list (nat * Z * option LP)) :=
  match drafts with
  | [] => Ok []
  | (oid, ids) :: drafts =>
      let n := length ids in
      chain ← stretch (take (n + 1) (drop offset logits)) ids;
      rest ← stretches (offset + (n + 1)) logits drafts;
      Ok (((λ token, (oid, token, None)) <$> chain) ++ rest)
  end.

(** First occurrences, in order. *)
Fixpoint dedup (seen l : list nat) : list nat :=
  match l with
  | [] => []
  | o :: l => if decide (o ∈ seen) then dedup seen l else o :: dedup (o :: seen) l
  end.

Definition speculate_verify (p : Ngram.NgramProposer) (decode_requests : list nat) (s : Scheduler) :
    result (list nat * list nat * Scheduler) :=
  '(drafts, remaining, s) ← rfold (draft_one p) decode_requests ([], [], s);
  if decide (drafts = []) then Ok ([], remaining, s)
  else
    plan ← verify_input drafts s;
    '(logits, x) ← execute_verify plan (executor s);
    let s := set_executor x s in
    match logits with
    | None => Ok ([], decode_requests, s)
    | Some logits =>
        emitted ← stretches 0 logits drafts;
        '(advanced, s) ← harvest emitted s;
        Ok (dedup [] advanced, remaining, s)
    end.

(** *** The two loops *)

(** [plan], with what preemption clears on the victims. *)
Definition schedule (s : Scheduler) : result (StepPlan * Scheduler) :=
  '(scheduled, p) ← plan digest (planner s);
  Ok (scheduled, foldr (λ oid, update_front oid preempted_front) (set_planner p s) (preempted scheduled)).

Definition count_step (s : Scheduler) : Scheduler :=
  set_counters (next_object s) (request_ids s) (S (step_count s)) s.

Definition collect_one (e : Launched) (st : list (nat * Z * option LP) * Scheduler) :
    result (list (nat * Z * option LP) * Scheduler) :=
  let '(w, tokens, lps) := e in
  let '(emitted, s) := st in
  s ← attribute_pass w lps s;
  more ← pass_tokens w tokens lps;
  Ok (emitted ++ more, s).

Definition step_synchronous (s : Scheduler) : result (list nat * Scheduler) :=
  '(scheduled, s) ← schedule s;
  if is_empty scheduled then Ok ([], s)
  else
    let s := count_step s in
    first ←
      (if decide (prefill scheduled = []) then Ok []
       else prefill_work (prefill scheduled) (prefill_chunk_lens scheduled)
              (chunked_min_rows (settings s)) s);
    '(spec_advanced, remaining, s) ←
      (match proposer (settings s) with
       | Some p => if decide (decode scheduled = []) then Ok ([], decode scheduled, s)
                   else speculate_verify p (decode scheduled) s
       | None => Ok ([], decode scheduled, s)
       end);
    later ←
      (if decide (remaining = []) then Ok []
       else w ← decode_work remaining false s; Ok [w]);
    '(pending, s) ← execute_lockstep (first ++ later) s;
    '(emitted, s) ← rfold collect_one pending ([], s);
    '(advanced, s) ← harvest emitted s;
    Ok (advanced ++ spec_advanced, s).

(** One token of the harvested pass: the ledger closes, a finished request's
    token is dropped. *)
Definition settle_one (e : nat * Z * option LP) (st : list (nat * Z * option LP) * Scheduler) :
    result (list (nat * Z * option LP) * Scheduler) :=
  let '(emitted, s) := st in
  let s := update_request e.1.1 (λ r, Req.set_pending_tokens (Req.pending_tokens r - 1) r) s in
  r ← request e.1.1 s;
  Ok (if Req.is_finished r then emitted else emitted ++ [e], s).

Definition harvest_pass (e : Launched) (st : list nat * Scheduler) : result (list nat * Scheduler) :=
  let '(w, tokens, lps) := e in
  let '(advanced, s) := st in
  s ← attribute_pass w lps s;
  all_ ← pass_tokens w tokens lps;
  '(emitted, s) ← rfold settle_one all_ ([], s);
  '(more, s) ← harvest emitted s;
  Ok (advanced ++ more, s).

Definition step_pipelined (s : Scheduler) : result (list nat * Scheduler) :=
  '(scheduled, s) ← schedule s;
  if is_empty scheduled && bool_decide (inflight s = []) then Ok ([], s)
  else
    let s := count_step s in
    first ←
      (if decide (prefill scheduled = []) then Ok []
       else prefill_work (prefill scheduled) (prefill_chunk_lens scheduled) None s);
    later ←
      (if decide (decode scheduled = []) then Ok []
       else w ← decode_work (decode scheduled) true s; Ok [w]);
    let can_pop := bool_decide (pipeline_depth (settings s) ≤ length (inflight s)) || is_empty scheduled in
    '(previous, s) ←
      (if can_pop then
         match inflight s with
         | [] => Err IndexError
         | l :: rest => Ok (l, set_inflight rest s)
         end
       else Ok ([], s));
    '(staged, s) ← execute_lockstep (first ++ later) s;
    '(advanced, s) ← rfold harvest_pass previous ([], s);
    Ok (advanced,
      if decide (staged = []) then s
      else
        let s := foldl (λ s oid, update_request oid (λ r,
          Req.set_pending_tokens (Req.pending_tokens r + 1) r) s) s
          (concat ((λ l : Launched, work_requests l.1.1) <$> staged)) in
        set_inflight (inflight s ++ [staged]) s).

(** *** Submission *)

Definition _request_id_in_use (request_id : string) (s : Scheduler) : bool :=
  bool_decide (request_id ∈ (tokenizing s).*1) ||
  bool_decide (is_Some (detokenizers s !! request_id)) ||
  has_request_id request_id (planner s).

(** The ids "req-0", "req-1", ... from the counter on, up to one not in use. *)
Definition generated_id (n : nat) : string := "req-" +:+ pretty n.
Fixpoint fresh_id (fuel n : nat) (s : Scheduler) : result (string * nat) :=
  match fuel with
  | 0 => Err OutOfFuel
  | S fuel =>
      if _request_id_in_use (generated_id n) s then fresh_id fuel (S n) s
      else Ok (generated_id n, S n)
  end.

(** More ids than can be in use. *)
Definition id_fuel (s : Scheduler) : nat :=
  S (length (tokenizing s) + size (detokenizers s) + size (requests (planner s))).

Definition register_request (oid : nat) (s : Scheduler) : result Scheduler :=
  p ← Planner.add_request oid (planner s);
  r ← get oid p;
  Ok (set_detokenizers (<[Req.request_id r := Detok.init 1]> (detokenizers s)) (set_planner p s)).

(** The [Request(...)] of a submission, a new object. *)
Definition new_request (request_id : string) (prompt : Text.text) (ids : list Z)
    (p : SamplingParams) (s : Scheduler) : nat * Scheduler :=
  let oid := next_object s in
  let s := set_planner (new_object oid (Req.fresh request_id ids (max_gen_len p)) (planner s)) s in
  let s := set_fronts (<[oid := fresh_front prompt p]> (fronts s)) s in
  (oid, set_counters (S oid) (request_ids s) (step_count s) s).

Definition add_request (prompt : Text.text) (sampling_params : option SamplingParams)
    (request_id : option string) (prompt_token_ids : option (list Z)) (on_error : bool)
    (s : Scheduler) : result (nat * Scheduler) :=
  '(rid, s) ←
    (match request_id with
     | None =>
         '(rid, n) ← fresh_id (id_fuel s) (request_ids s) s;
         Ok (rid, set_counters (next_object s) n (step_count s) s)
     | Some rid =>
         _ ← rguard (negb (_request_id_in_use rid s)) ValueError;
         Ok (rid, s)
     end);
  let p := default default_params sampling_params in
  match prompt_token_ids, async_tokenize (settings s) with
  | None, true =>
      let '(oid, s) := new_request rid prompt [] p s in
      Ok (oid, set_tokenizing (tokenizing s ++ [(rid, MkJob oid None on_error)]) s)
  | _, _ =>
      ids ← (match prompt_token_ids with Some ids => Ok ids | None => encode prompt end);
      let '(oid, s) := new_request rid prompt ids p s in
      s ← register_request oid s;
      Ok (oid, s)
  end.

(** One finished job of [_collect_tokenized]; the [except] clause catches what
    the encode or the registration raised. *)
Definition collect_job (request_id : string) (job : TokenizeJob) (s : Scheduler) : Scheduler :=
  match outcome job with
  | None => s
  | Some answer =>
      let s := set_tokenizing (filter (λ e, e.1 ≠ request_id) (tokenizing s)) s in
      let oid := job_request job in
      let attempt :=
        ids ← answer;
        let s := update_request oid (Req.set_prompt_token_ids ids) s in
        register_request oid s in
      match attempt with
      | Ok s => s
      | Err exc =>
          let s := match answer with
                   | Ok ids => update_request oid (Req.set_prompt_token_ids ids) s
                   | Err _ => s
                   end in
          let s := update_front oid (set_error (Some exc)) s in
          let s := update_request oid (λ r,
            Req.set_finish_reason (Some "invalid") (Req.set_status Req.FINISHED r)) s in
          if has_on_error job then set_on_errors (on_errors s ++ [(oid, exc)]) s else s
      end
  end.

Definition collect_tokenized (s : Scheduler) : Scheduler :=
  foldl (λ s e, collect_job e.1 e.2 s) s (tokenizing s).

(** The environment: the encode of [request_id] lands. *)
Definition encode_lands (request_id : string) (answer : result (list Z)) (s : Scheduler) : Scheduler :=
  set_tokenizing ((λ e, if decide (e.1 = request_id)
    then (e.1, MkJob (job_request e.2) (Some answer) (has_on_error e.2)) else e) <$> tokenizing s) s.

Definition abort (request_id : string) (s : Scheduler) : result (option nat * Scheduler) :=
  match list_find (λ e, e.1 = request_id) (tokenizing s) with
  | Some (_, (_, job)) =>
      let s := set_tokenizing (filter (λ e, e.1 ≠ request_id) (tokenizing s)) s in
      Ok (Some (job_request job), update_request (job_request job) (λ r,
        Req.set_finish_reason (Some "abort") (Req.set_status Req.FINISHED r)) s)
  | None =>
      '(oid, p) ← Planner.abort digest request_id (planner s);
      let s := set_planner p s in
      match oid with
      | None => Ok (None, s)
      | Some oid => r ← get oid p; Ok (Some oid, retire (Req.request_id r) s)
      end
  end.

Definition has_unfinished_requests (s : Scheduler) : bool :=
  Planner.has_unfinished_requests (planner s) || bool_decide (inflight s ≠ []) ||
  bool_decide (tokenizing s ≠ []).

Definition step (s : Scheduler) : result (list nat * Scheduler) :=
  let s := collect_tokenized s in
  if pipeline (settings s) then step_pipelined s else step_synchronous s.

(** The loop of [generate]; it may not end, so it has fuel. *)
Fixpoint drive (fuel : nat) (s : Scheduler) : result Scheduler :=
  if has_unfinished_requests s then
    match fuel with
    | 0 => Err OutOfFuel
    | S fuel => '(_, s) ← step s; drive fuel s
    end
  else Ok s.
End Scheduler.
End Sched.
