(* ===== verification/SchedulerInv.v ===== *)
(** * The invariant of the engine loop

    What a scheduler keeps between steps, what it relies on of the executor,
    and the harvest of sampled tokens: it never raises, and each request gains
    its own tokens up to the first stop. *)

From S2P Require Export Scheduler PlannerSteps.

Module SchedInv.
Import Planner Inv Steps Sched.

(** ** What a pass promises the executor, and what it may answer *)

(** [resumes]: grids may start on cached rows.  Without it a grid pass only has
    chunks that start their prompt, which is all a grid padded to its widest
    chunk is sure to have room for. *)
Record fits (seats context : nat) (resumes : bool) (i : ModelInput) : Prop := {
  fit_input : make_input i = Ok i;
  fit_slots : ∃ l, slots i = Some <$> l ∧ NoDup l ∧ Forall (λ s, s < seats) l;
  fit_spans : Forall2 (λ a b, 0 ≤ a < b ∧ b ≤ Z.of_nat context)%Z (seq_starts i) (seq_lens i);
  fit_tokens : Forall Chain.is_token (tokens i);
  fit_grid : kind i = PREFILL → resumes = false → Forall (λ a, a = 0%Z) (seq_starts i);
  fit_counts : Forall (λ n, 0 ≤ n < Z.of_nat context)%Z (gen_counts i);
  fit_sampled : Forall (λ j, j < length (slots i)) (sampled i);
  fit_verify : return_logits i = true → kind i = EXTEND ∧ sampled i = [];
}.

Lemma fits_resumes seats context resumes i : fits seats context resumes i → fits seats context true i.
Proof. by intros []. Qed.

(** One token per sampled row; one entry of prompt records per sequence, whether
    or not anybody asked; records only where asked for, at most one per row the
    pass fed, the sampled row excluded. *)
Record answers {LP} (i : ModelInput) (toks : list Z) (lps : option (PassLogprobs LP)) : Prop := {
  ans_length : length toks = length (sampled i);
  ans_tokens : Forall Chain.is_token toks;
  ans_sampled : ∀ l, lps = Some l → lp_sampled l = [] ∨ length (lp_sampled l) = length toks;
  ans_prompt : ∀ l, lps = Some l → lp_prompt l = [] ∨ length (lp_prompt l) = length (slots i);
  ans_asked : ∀ l j records, lps = Some l → lp_prompt l !! j = Some (Some records) →
    ∃ top, in_prompt_logprobs i !! j = Some (Some top);
  ans_records : ∀ l k records n, lps = Some l → lp_prompt l !! k = Some (Some records) →
    chunk_lens i !! k = Some n →
    (Z.of_nat (length records) ≤ if decide (k ∈ sampled i) then n - 1 else n)%Z;
}.

(** The executor's side of the interface: a fitting pass runs. *)
Class ExecutorLaws (X LP Row : Type) `{!Executor X LP Row} (seats context : nat) (resumes : bool) : Prop := {
  execute_ok : ∀ i x, fits seats context resumes i →
    ∃ toks lps x', execute i x = Ok (toks, lps, x') ∧ answers i toks lps;
  verify_ok : ∀ i x, fits seats context resumes i → return_logits i = true →
    ∃ logits x', execute_verify i x = Ok (logits, x') ∧
      ∀ rows, logits = Some rows → length rows = length (tokens i);
  argmax_token : ∀ row : Row, Chain.is_token (argmax (X := X) (LP := LP) row);
}.

(** ** The invariant *)

(** The length at which the generation ends. *)
Definition end_of (r : Req.Request) : Z := (Z.of_nat (Req.prompt_len r) + Req.max_new_tokens r)%Z.

Lemma has_room_end r : Req.has_room r = bool_decide (Z.of_nat (Req.seq_len r) < end_of r)%Z.
Proof.
  unfold Req.has_room, end_of, Req.seq_len, Req.prompt_len. apply bool_decide_ext. lia.
Qed.

Lemma stamp_end r r' : stamp r' = stamp r → Req.seq_len r' = Req.seq_len r ∧ end_of r' = end_of r ∧
  Req.request_id r' = Req.request_id r.
Proof.
  unfold stamp, end_of, Req.seq_len. intros E. injection E as E1 E2 E3. split_and!; [|done|done].
  by rewrite <- !length_app, E2.
Qed.

Section Invariant.
Context {T X LP Row : Type} `{!Offload.OffloadingManager T} `{!Executor X LP Row}
  (digest : list Z → list Z) (digest_ok : Chain.digest_ok digest)
  (decode_ids : list Z → Text.text) (encode : Text.text → result (list Z)) (is_digit : Z → bool).

Notation Scheduler := (@Scheduler T X LP).
Implicit Types (s : Scheduler) (r : Req.Request) (owed full : nat → Prop).
Notation wf := (Inv.wf digest).

(** A job's request has been made, is in no queue and has no records. *)
Definition job_ok s (e : string * TokenizeJob) : Prop :=
  requests (planner s) !! e.1 = None ∧ job_request e.2 ∉ live (planner s) ∧
  (∃ r, heap (planner s) !! job_request e.2 = Some r ∧ Req.request_id r = e.1 ∧ submittable r) ∧
  (∀ f, fronts s !! job_request e.2 = Some f → fr_prompt_logprobs f = None) ∧
  ∀ ids, outcome e.2 = Some (Ok ids) → Forall Chain.is_token ids.

(** [owed]: just prefilled, with a token under way; [full]: at the end of its
    generation, about to be retired.  Neither holds of anything between steps. *)
Record good owed full s : Prop := {
  g_wf : wf (planner s);
  g_new : ∀ o, is_Some (heap (planner s) !! o) → o < next_object s;
  g_front : ∀ o, is_Some (heap (planner s) !! o) → is_Some (fronts s !! o);
  g_detok : ∀ rid, is_Some (detokenizers s !! rid) ↔ is_Some (requests (planner s) !! rid);
  g_one : ∀ rid d, detokenizers s !! rid = Some d → length d = 1;
  g_room : ∀ o r, o ∈ live (planner s) → heap (planner s) !! o = Some r →
    (end_of r ≤ Z.of_nat (max_seq_len (config (planner s))))%Z ∧
    (¬ full o → (Z.of_nat (Req.seq_len r) < end_of r)%Z);
  g_ready : ∀ o r, o ∈ running (planner s) → heap (planner s) !! o = Some r → ¬ owed o →
    Req.prefill_done r = true → Req.output_token_ids r ≠ [];
  g_records : ∀ o r f l, o ∈ live (planner s) → heap (planner s) !! o = Some r →
    fronts s !! o = Some f → fr_prompt_logprobs f = Some l → length l = Req.prompt_len r;
  g_keys : NoDup (tokenizing s).*1;
  g_jobs : ∀ e, e ∈ tokenizing s → job_ok s e;
}.

Definition nobody (o : nat) : Prop := False.

Lemma good_weaken owed owed' full full' s :
  (∀ o, owed o → owed' o) → (∀ o, full o → full' o) → good owed full s → good owed' full' s.
Proof.
  intros H1 H2 []. split; try done.
  - intros o r Ho Hr. destruct (g_room0 o r Ho Hr) as [? Hs]. split; [done|]. intros Hn.
    apply Hs. intros Hf. by apply Hn, H2.
  - intros o r Ho Hr Hn. apply (g_ready0 o r Ho Hr). intros Hw. by apply Hn, H1.
Qed.

(** A live request: its object, its front and its detokenizer. *)
Lemma live_parts owed full s o :
  good owed full s → o ∈ live (planner s) →
  ∃ r f d, heap (planner s) !! o = Some r ∧ fronts s !! o = Some f ∧
    requests (planner s) !! Req.request_id r = Some o ∧
    detokenizers s !! Req.request_id r = Some d ∧ length d = 1.
Proof.
  intros Hg Hl. pose proof (wf_queues _ _ (g_wf _ _ _ Hg)) as Hq.
  assert (∃ r, heap (planner s) !! o = Some r) as [r Hr].
  { apply elem_of_app in Hl as [([k o'] & -> & Hw)%list_elem_of_fmap|Hr].
    - destruct (q_waiting _ Hq _ _ Hw) as (r & ? & _). by exists r.
    - destruct (q_running _ Hq _ Hr) as (r & ? & _). by exists r. }
  destruct (live_request _ _ _ Hq Hl Hr) as [Hreq _].
  destruct (g_front _ _ _ Hg o) as [f Hf]; [by exists r|].
  destruct (proj2 (g_detok _ _ _ Hg (Req.request_id r))) as [d Hd]; [by exists o|].
  exists r, f, d. split_and!; try done. by apply (g_one _ _ _ Hg _ _ Hd).
Qed.

Lemma request_Ok s o r : heap (planner s) !! o = Some r → request o s = Ok r.
Proof. apply get_Ok. Qed.
Lemma front_Ok s o f : fronts s !! o = Some f → front o s = Ok f.
Proof. unfold front. by intros ->. Qed.

(** ** Changing a front *)

Lemma update_front_good owed full s oid g :
  oid ∈ live (planner s) →
  (∀ f r l, fronts s !! oid = Some f → heap (planner s) !! oid = Some r → oid ∈ live (planner s) →
    fr_prompt_logprobs (g f) = Some l → length l = Req.prompt_len r) →
  good owed full s → good owed full (update_front oid g s).
Proof.
  intros Hlive Hk []. split; try done.
  - intros o Ho. cbn. destruct (decide (o = oid)) as [->|Hne].
    + rewrite lookup_alter_eq. destruct (g_front0 oid Ho) as [f ->]. by eexists.
    + rewrite lookup_alter_ne by done. by apply g_front0.
  - intros o r f l Ho Hr. cbn. destruct (decide (o = oid)) as [->|Hne].
    + rewrite lookup_alter_eq. intros (f0 & Hf0 & ->)%fmap_Some. by eapply Hk.
    + rewrite lookup_alter_ne by done. by apply g_records0.
  - intros e He. destruct (g_jobs0 e He) as (J1 & J2 & J3 & J4 & J5). split_and!; try done.
    intros f. cbn. rewrite lookup_alter_ne; [apply J4|]. intros E. by rewrite <- E in J2.
Qed.

(** Text and records of output tokens are free to change. *)
Lemma front_good owed full s oid g :
  oid ∈ live (planner s) →
  (∀ f, fr_prompt_logprobs (g f) = fr_prompt_logprobs f) →
  good owed full s → good owed full (update_front oid g s).
Proof.
  intros Hin Hk Hg. apply update_front_good; [done| |done]. intros f r l Hf Hr Hl. rewrite Hk. intros E.
  by eapply (g_records _ _ _ Hg).
Qed.

Lemma detok_good owed full s rid d :
  is_Some (requests (planner s) !! rid) → length d = 1 → good owed full s →
  good owed full (set_detokenizers (<[rid := d]> (detokenizers s)) s).
Proof.
  intros Hr Hd []. split; try done.
  - intros k. cbn. destruct (decide (k = rid)) as [->|Hne].
    + rewrite lookup_insert_eq. split; [done|by eexists].
    + rewrite lookup_insert_ne by done. apply g_detok0.
  - intros k d'. cbn. destruct (decide (k = rid)) as [->|Hne].
    + rewrite lookup_insert_eq. by intros [= <-].
    + rewrite lookup_insert_ne by done. apply g_one0.
Qed.

(** ** Retirement *)

Definition but (P : nat → Prop) (oid o : nat) : Prop := P o ∧ o ≠ oid.

Lemma retired_good owed full s oid r reason c :
  good owed full s → oid ∈ live (planner s) → heap (planner s) !! oid = Some r →
  wf (retired_state (planner s) oid r reason c) →
  good (but owed oid) (but full oid)
    (retire (Req.request_id r) (set_planner (retired_state (planner s) oid r reason c) s)).
Proof.
  intros Hg Hl Hr Hwf'. pose proof Hg as []. pose proof (wf_queues _ _ g_wf0) as Hq.
  pose proof (retired_live (planner s) oid r reason c Hq Hl Hr) as Hlive.
  set (p' := retired_state (planner s) oid r reason c) in *.
  assert (Hnd : oid ∉ live p').
  { pose proof (q_live _ Hq) as Hn. rewrite <- Hlive in Hn. by apply NoDup_cons in Hn as [? _]. }
  assert (Hsub : ∀ o, o ∈ live p' → o ∈ live (planner s) ∧ o ≠ oid).
  { intros o Ho. rewrite <- Hlive. split; [by right|]. by intros ->. }
  assert (Hheap : ∀ o, o ≠ oid → heap p' !! o = heap (planner s) !! o).
  { intros o Hne. cbn. by rewrite lookup_insert_ne. }
  assert (Hsome : ∀ o, is_Some (heap p' !! o) → is_Some (heap (planner s) !! o)).
  { intros o. destruct (decide (o = oid)) as [->|Hne]; [by rewrite Hr|by rewrite Hheap]. }
  split; try done.
  - intros o Ho. by apply g_new0, Hsome.
  - intros o Ho. by apply g_front0, Hsome.
  - intros k. cbn. destruct (decide (k = Req.request_id r)) as [->|Hne].
    + rewrite !lookup_delete_eq. split; by intros [? ?].
    + rewrite !lookup_delete_ne by done. apply g_detok0.
  - intros k d. cbn. rewrite lookup_delete_Some. intros [_ Hd]. by apply (g_one0 k d).
  - intros o ro Ho Hro. cbn [planner set_planner] in Ho, Hro |- *. destruct (Hsub o Ho) as [Ho' Hne].
    rewrite Hheap in Hro by done. destruct (g_room0 o ro Ho' Hro) as [? Hs]. split; [done|].
    intros Hn. apply Hs. intros Hf. by apply Hn.
  - intros o ro Ho Hro Hn. change (o ∈ running p') in Ho. change (heap p' !! o = Some ro) in Hro.
    apply list_elem_of_filter in Ho as [Hne Ho]. rewrite Hheap in Hro by done.
    apply (g_ready0 o ro Ho Hro). intros Hw. by apply Hn.
  - intros o ro f l Ho Hro. change (o ∈ live p') in Ho. change (heap p' !! o = Some ro) in Hro.
    destruct (Hsub o Ho) as [Ho' Hne]. rewrite Hheap in Hro by done. by apply g_records0.
  - intros e He. destruct (g_jobs0 e He) as (J1 & J2 & J3 & J4). split_and!; [| | |exact (proj1 J4)|exact (proj2 J4)].
    + cbn. rewrite lookup_delete_None. by right.
    + intros Ho%Hsub. by destruct Ho.
    + destruct J3 as (rj & Hrj & ?). exists rj. split; [|done].
      change (heap p' !! job_request e.2 = Some rj). rewrite Hheap; [done|]. by intros E; rewrite E in J2.
Qed.

Lemma finish_good owed full s oid r reason :
  good owed full s → oid ∈ live (planner s) → heap (planner s) !! oid = Some r →
  ∃ c, finish digest oid reason s =
      Ok (retire (Req.request_id r) (set_planner (retired_state (planner s) oid r reason c) s)) ∧
    good (but owed oid) (but full oid)
      (retire (Req.request_id r) (set_planner (retired_state (planner s) oid r reason c) s)).
Proof.
  intros Hg Hl Hr.
  destruct (finish_Ok digest digest_ok (planner s) oid r reason (g_wf _ _ _ Hg) Hl Hr) as (c & E & Hwf').
  exists c. split; [|by apply retired_good]. unfold finish. rewrite E. cbn [mbind result_bind].
  rewrite (get_Ok _ _ (retired reason r)) by (cbn; by rewrite lookup_insert_eq). done.
Qed.

(** ** Emission *)

Lemma emit_good owed full s oid token :
  good owed full s → oid ∈ running (planner s) → ¬ full oid → Chain.is_token token →
  good (but owed oid) (λ o, full o ∨ o = oid) (set_planner (emit oid token (planner s)) s).
Proof.
  intros Hg Hin Hfull Ht. pose proof Hg as []. pose proof (wf_queues _ _ g_wf0) as Hq.
  destruct (q_running _ Hq oid Hin) as (r & Hr & _).
  pose proof (emit_wf digest (planner s) oid token g_wf0 Hin Ht) as Hwf'. revert Hwf'.
  unfold emit. rewrite (update_insert _ _ _ _ Hr). intros Hwf'. set (p' := set_heap _ (planner s)) in *.
  assert (Hself : heap p' !! oid = Some (Req.set_output_token_ids (Req.output_token_ids r ++ [token]) r))
    by apply lookup_insert_eq.
  assert (Hheap : ∀ o, o ≠ oid → heap p' !! o = heap (planner s) !! o).
  { intros o Hne. cbn. by rewrite lookup_insert_ne. }
  assert (Hsome : ∀ o, is_Some (heap p' !! o) → is_Some (heap (planner s) !! o)).
  { intros o. destruct (decide (o = oid)) as [->|Hne]; [by rewrite Hr|by rewrite Hheap]. }
  split; try done.
  - intros o Ho. by apply g_new0, Hsome.
  - intros o Ho. by apply g_front0, Hsome.
  - intros o ro Ho Hro. change (heap p' !! o = Some ro) in Hro.
    change (o ∈ live (planner s)) in Ho. change (config (planner (set_planner p' s))) with (config (planner s)).
    destruct (decide (o = oid)) as [->|Hne].
    + rewrite Hself in Hro. injection Hro as <-. destruct (g_room0 oid r Ho Hr) as [? _].
      split; [done|]. intros Hn. exfalso. apply Hn. by right.
    + rewrite Hheap in Hro by done. destruct (g_room0 o ro Ho Hro) as [? Hs]. split; [done|].
      intros Hn. apply Hs. intros Hf. apply Hn. by left.
  - intros o ro Ho Hro Hn. change (heap p' !! o = Some ro) in Hro. destruct (decide (o = oid)) as [->|Hne].
    + rewrite Hself in Hro. injection Hro as <-. intros _. cbn. by intros [_ ?]%app_eq_nil.
    + rewrite Hheap in Hro by done. apply (g_ready0 o ro Ho Hro). intros Hw. by apply Hn.
  - intros o ro f l Ho Hro. change (heap p' !! o = Some ro) in Hro.
    change (o ∈ live (planner s)) in Ho. destruct (decide (o = oid)) as [->|Hne].
    + rewrite Hself in Hro. injection Hro as <-. by apply (g_records0 oid r).
    + rewrite Hheap in Hro by done. by apply g_records0.
  - intros e He. destruct (g_jobs0 e He) as (J1 & J2 & J3 & J4). split_and!; [done|done| |exact (proj1 J4)|exact (proj2 J4)].
    destruct J3 as (rj & Hrj & ?). exists rj. split; [|done].
    change (heap p' !! job_request e.2 = Some rj). rewrite Hheap; [done|]. intros E.
    apply J2. rewrite E. by apply running_live.
Qed.
End Invariant.
End SchedInv.
