(* ===== verification/Harvest.v ===== *)
(** * The harvest of sampled tokens

    [_harvest] takes the tokens of a step in any interleaving.  Per request it
    is a fold over that request's own tokens, stated here without queues,
    blocks or dictionaries; the loop of the code implements it. *)

From S2P Require Export SchedulerInv.

Module Harvest.
Import Planner Inv Steps Sched SchedInv.

Section Harvest.
Context {T X LP Row : Type} `{!Offload.OffloadingManager T}
  (digest : list Z → list Z) (digest_ok : Chain.digest_ok digest)
  (decode_ids : list Z → Text.text) (is_digit : Z → bool).

Notation Scheduler := (@Scheduler T X LP).
Implicit Types (s : Scheduler) (r : Req.Request) (owed full : nat → Prop).

(** ** One request *)

(** What the harvest sees of a request. *)
Definition lane : Type := Req.Request * Front LP * Detok.IncrementalDetokenizer.

Definition clear_delta (f : Front LP) : Front LP :=
  set_output_logprobs (output_logprobs f) None (set_text (text f) [] f).

(** The record and the text of one kept token. *)
Definition note (record : option LP) (piece : Text.text) (f : Front LP) : Front LP :=
  let f := match record with
           | Some record =>
               set_output_logprobs (Some (default [] (output_logprobs f) ++ [record])) (Some record) f
           | None => f
           end in
  set_text (text f ++ piece) (delta f ++ piece) f.

Definition push (token : Z) r : Req.Request :=
  Req.set_output_token_ids (Req.output_token_ids r ++ [token]) r.

Section Lane.
Context (stops : list Z) (limit : nat) (check_repeat : bool).

(** Why a request that has just kept a token ends here, if it does. *)
Definition verdict r (f : Front LP) : option string :=
  if negb (Req.has_room r) || bool_decide (limit ≤ Req.seq_len r) then Some "length"
  else if check_repeat && stop_on_repeat (params f) &&
          Stop.detect_repetition is_digit (text f) 128 3 then Some "repeat"
  else None.

Definition close (why : option string) r : Req.Request :=
  match why with Some reason => retired reason r | None => r end.

(** A token for a request that has not finished. *)
Definition absorb (x : lane) (e : Z * option LP) : lane :=
  let '(r, f, d) := x in
  let '(token, record) := e in
  if Req.is_finished r then x
  else if decide (token ∈ stops) then (retired "eos" r, f, d)
  else
    match Detok.append decode_ids 0 token d with
    | Ok (piece, d) =>
        let f := note record piece f in
        (close (verdict (push token r) f) (push token r), f, d)
    | Err _ => x
    end.

Definition absorb_all (x : lane) (es : list (Z * option LP)) : lane :=
  match es with
  | [] => x
  | _ => let '(r, f, d) := x in foldl absorb (r, clear_delta f, d) es
  end.
End Lane.

(** The tokens emitted for one request, in order. *)
Definition tokens_for (o : nat) (emitted : list (nat * Z * option LP)) : list (Z * option LP) :=
  (λ e, (e.1.2, e.2)) <$> filter (λ e, e.1.1 = o) emitted.

(** ** One turn of the loop *)

(** The state after a turn, given what became of the request. *)
Record turned (o : nat) (rid : string) (x : lane) s s' : Prop := {
  t_heap : heap (planner s') = <[o := x.1.1]> (heap (planner s));
  t_fronts : fronts s' = <[o := x.1.2]> (fronts s);
  t_running : running (planner s') =
    if Req.is_finished x.1.1 then filter (λ o', o' ≠ o) (running (planner s)) else running (planner s);
  t_detok : detokenizers s' =
    if Req.is_finished x.1.1 then delete rid (detokenizers s) else <[rid := x.2]> (detokenizers s);
  t_requests : requests (planner s') =
    if Req.is_finished x.1.1 then delete rid (requests (planner s)) else requests (planner s);
  t_waiting : waiting (planner s') = waiting (planner s);
  t_limits : same_limits (planner s) (planner s');
  t_fixed : settings s' = settings s ∧ executor s' = executor s ∧ tokenizing s' = tokenizing s ∧
    inflight s' = inflight s ∧ next_object s' = next_object s ∧ step_count s' = step_count s;
}.

Lemma running_open s owed full o r :
  good digest owed full s → o ∈ running (planner s) → heap (planner s) !! o = Some r →
  Req.is_finished r = false.
Proof.
  intros Hg Hin Hr. destruct (q_running _ (wf_queues _ _ (g_wf _ _ _ _ Hg)) o Hin) as (r0 & Hr0 & Hs & _).
  assert (r0 = r) as -> by congruence. unfold Req.is_finished. by rewrite Hs.
Qed.

Lemma append_one token (d : Detok.IncrementalDetokenizer) :
  length d = 1 → ∃ piece d', Detok.append decode_ids 0 token d = Ok (piece, d') ∧ length d' = 1.
Proof.
  intros Hd. destruct d as [|st [|]]; try done. unfold Detok.append. cbn.
  destruct (Detok.append_state decode_ids token st) as [piece st']. by exists piece, [st'].
Qed.

(** Retiring the request a turn is at. *)
Lemma finish_turned owed full s s0 o r f d reason :
  good digest owed full s → o ∈ running (planner s) → heap (planner s) !! o = Some r →
  fronts s !! o = Some f →
  running (planner s) = running (planner s0) → waiting (planner s) = waiting (planner s0) →
  requests (planner s) = requests (planner s0) → same_limits (planner s0) (planner s) →
  delete (Req.request_id r) (detokenizers s) = delete (Req.request_id r) (detokenizers s0) →
  delete o (heap (planner s)) = delete o (heap (planner s0)) →
  delete o (fronts s) = delete o (fronts s0) →
  settings s = settings s0 ∧ executor s = executor s0 ∧ tokenizing s = tokenizing s0 ∧
    inflight s = inflight s0 ∧ next_object s = next_object s0 ∧ step_count s = step_count s0 →
  ∃ s', finish digest o reason s = Ok s' ∧ good digest (but owed o) (but full o) s' ∧
    turned o (Req.request_id r) (retired reason r, f, d) s0 s'.
Proof.
  intros Hg Hin Hr Hf E1 E2 E3 E4 E5 E6 E7 E8.
  destruct (finish_good digest digest_ok owed full s o r reason Hg (running_live _ _ Hin) Hr)
    as (c & E & Hg'). eexists. split; [exact E|]. split; [exact Hg'|].
  assert (Hpop : od_pop (Req.request_id r) (waiting (planner s)) = waiting (planner s)).
  { pose proof (running_key_fresh _ o r (wf_queues _ _ (g_wf _ _ _ _ Hg)) Hin Hr) as Hk.
    by destruct (keys_filter_id _ _ Hk). }
  split; cbn [fst snd]; try exact E8; try exact E4; cbn.
  - by rewrite <- insert_delete_eq, E6, insert_delete_eq.
  - rewrite <- (insert_id (fronts s) o f Hf) at 1. by rewrite <- insert_delete_eq, E7, insert_delete_eq.
  - by rewrite E1.
  - exact E5.
  - by rewrite E3.
  - by rewrite Hpop.
Qed.

(** A request below its end is not full. *)
Lemma good_room owed full s o r :
  good digest owed full s → heap (planner s) !! o = Some r → Req.has_room r = true →
  good digest owed (but full o) s.
Proof.
  intros [? ? ? ? ? Groom ? ? ? ?] Hr Hroom. split; try done. intros o' r' Ho' Hr'.
  destruct (Groom o' r' Ho' Hr') as [? Hs]. split; [done|]. intros Hn.
  destruct (decide (o' = o)) as [->|Hne].
  - assert (r' = r) as -> by congruence. rewrite has_room_end in Hroom. by apply bool_decide_eq_true in Hroom.
  - apply Hs. intros Hf. by apply Hn.
Qed.

(** The state once the token is kept, before the length and loop checks. *)
Definition kept_state (o : nat) (rid : string) (token : Z) (f : Front LP)
    (d : Detok.IncrementalDetokenizer) s : Scheduler :=
  set_fronts (<[o := f]> (fronts s)) (set_detokenizers (<[rid := d]> (detokenizers s))
    (set_planner (emit o token (planner s)) s)).

Lemma insert_front_good owed full s o f f0 :
  o ∈ live (planner s) →
  fronts s !! o = Some f0 → fr_prompt_logprobs f = fr_prompt_logprobs f0 →
  good digest owed full s → good digest owed full (set_fronts (<[o := f]> (fronts s)) s).
Proof.
  intros Hin H0 E Hg. replace (set_fronts _ s) with (update_front o (λ _, f) s).
  - apply update_front_good; [done| |done]. intros f1 r l Hf1 Hr Hl. rewrite E.
    by apply (g_records _ _ _ _ Hg o r).
  - unfold update_front. f_equal. apply map_eq. intros k. destruct (decide (k = o)) as [->|Hne].
    + by rewrite lookup_alter_eq, H0, lookup_insert_eq.
    + by rewrite lookup_alter_ne, lookup_insert_ne.
Qed.

Lemma kept_good owed s o r f0 f token d :
  good digest owed nobody s → o ∈ running (planner s) → heap (planner s) !! o = Some r →
  fronts s !! o = Some f0 → fr_prompt_logprobs f = fr_prompt_logprobs f0 →
  length d = 1 → Chain.is_token token →
  good digest (but owed o) (λ o', nobody o' ∨ o' = o) (kept_state o (Req.request_id r) token f d s).
Proof.
  intros Hg Hin Hr Hf0 Ef Hd Ht. unfold kept_state.
  pose proof (emit_good digest owed nobody s o token Hg Hin (λ x, x) Ht) as H1.
  assert (Hreq : is_Some (requests (planner s) !! Req.request_id r)).
  { exists o. by apply (live_request _ _ _ (wf_queues _ _ (g_wf _ _ _ _ Hg)) (running_live _ _ Hin) Hr). }
  pose proof (detok_good digest _ _ (set_planner (emit o token (planner s)) s) (Req.request_id r) d
    Hreq Hd H1) as H2.
  refine (insert_front_good _ _ _ o f f0 _ _ Ef H2); [|exact Hf0]. by apply running_live.
Qed.

Lemma note_records record piece (f : Front LP) :
  fr_prompt_logprobs (note record piece f) = fr_prompt_logprobs f.
Proof. by destruct record. Qed.

Lemma kept_turned owed s o r f d token why :
  good digest (but owed o) (λ o', nobody o' ∨ o' = o) (kept_state o (Req.request_id r) token f d s) →
  o ∈ running (planner s) → heap (planner s) !! o = Some r →
  (why = None → Req.has_room (push token r) = true) → Req.is_finished r = false →
  returns (match why with
           | Some reason => finish digest o reason (kept_state o (Req.request_id r) token f d s)
           | None => Ok (kept_state o (Req.request_id r) token f d s)
           end)
    (λ s', good digest (but owed o) nobody s' ∧
       turned o (Req.request_id r) (close why (push token r), f, d) s s').
Proof.
  intros Hg Hin Hr Hwhy Hopen. set (s1 := kept_state _ _ _ _ _ s) in *.
  assert (Hheap : heap (planner s1) = <[o := push token r]> (heap (planner s))).
  { change (heap (planner s1)) with (heap (emit o token (planner s))). unfold emit.
    by rewrite (update_insert _ _ _ _ Hr). }
  assert (Hr1 : heap (planner s1) !! o = Some (push token r)) by (by rewrite Hheap, lookup_insert_eq).
  destruct why as [reason|].
  - destruct (finish_turned _ _ s1 s o (push token r) f d reason Hg Hin Hr1) as (s' & E & Hg' & Ht);
      try done; cbn [s1 kept_state fronts set_fronts set_detokenizers detokenizers].
    + by rewrite lookup_insert_eq.
    + by rewrite delete_insert_eq.
    + change (delete o (heap (planner s1)) = delete o (heap (planner s))). by rewrite Hheap, delete_insert_eq.
    + by rewrite delete_insert_eq.
    + exists s'. split; [done|]. split; [|done].
      eapply good_weaken; [| |exact Hg']; [by intros o' []|]. intros o' [[[]| ->] ?]. done.
  - apply returns_ret. split.
    + eapply good_weaken; [| |exact (good_room _ _ s1 o _ Hg Hr1 (Hwhy eq_refl))]; [done|].
      intros o' [[[]| ->] ?]. done.
    + assert (Ho : Req.is_finished (push token r) = false) by exact Hopen.
      split; cbn [fst snd close]; rewrite ?Ho; try done.
Qed.

Lemma alter_insert {V} (m : gmap nat V) o v f : m !! o = Some v → alter f o m = <[o := f v]> m.
Proof.
  intros Hv. apply map_eq. intros k. destruct (decide (k = o)) as [->|Hne].
  - by rewrite lookup_alter_eq, Hv, lookup_insert_eq.
  - by rewrite lookup_alter_ne, lookup_insert_ne.
Qed.

Lemma alter_twice {V} (m : gmap nat V) o v f g :
  m !! o = Some v → alter g o (alter f o m) = <[o := g (f v)]> m.
Proof.
  intros Hv. apply map_eq. intros k. destruct (decide (k = o)) as [->|Hne].
  - by rewrite !lookup_alter_eq, Hv, lookup_insert_eq.
  - by rewrite !lookup_alter_ne, lookup_insert_ne.
Qed.

(** The whole turn, on a request that has not finished. *)
Lemma harvest_turn check owed s o r f (d : Detok.IncrementalDetokenizer) token record advanced opened :
  let rid := Req.request_id r in
  let f0 := if decide (rid ∈ opened) then f else clear_delta f in
  good digest owed nobody s → o ∈ running (planner s) → heap (planner s) !! o = Some r →
  fronts s !! o = Some f → detokenizers s !! rid = Some d → length d = 1 →
  Chain.is_token token →
  returns (harvest_one digest decode_ids is_digit check (o, token, record) (advanced, opened, s))
    (λ '(advanced', opened', s'), advanced' = advanced ++ [o] ∧
       opened' = (if decide (rid ∈ opened) then opened else rid :: opened) ∧
       good digest (but owed o) nobody s' ∧
       turned o rid (absorb (stop_token_ids (settings s)) (max_seq_len (config (planner s))) check
         (r, f0, d) (token, record)) s s').
Proof.
  intros rid f0 Hg Hin Hr Hf Hd Hd1 Ht. pose proof (running_open s owed nobody o r Hg Hin Hr) as Hopen.
  unfold harvest_one. rewrite (request_Ok s o r Hr). cbn [mbind result_bind]. rewrite Hopen.
  rewrite (front_Ok s o f Hf). cbn [mbind result_bind]. cbv zeta. fold rid.
  set (s1 := if decide (rid ∈ opened) then s else _).
  assert (Hs1 : good digest owed nobody s1 ∧ planner s1 = planner s ∧ settings s1 = settings s ∧
    detokenizers s1 = detokenizers s ∧ fronts s1 !! o = Some f0 ∧
    (∀ g, <[o := g]> (fronts s1) = <[o := g]> (fronts s)) ∧ delete o (fronts s1) = delete o (fronts s) ∧
    (executor s1 = executor s ∧ tokenizing s1 = tokenizing s ∧ inflight s1 = inflight s ∧
     next_object s1 = next_object s ∧ step_count s1 = step_count s)).
  { unfold s1, f0. case_decide; [by split_and!|]. cbn. split_and!; try done.
    - apply front_good; [by apply running_live|done|done].
    - by rewrite lookup_alter_eq, Hf.
    - intros g. rewrite (alter_insert _ _ f) by done. by rewrite insert_insert_eq.
    - rewrite (alter_insert _ _ f) by done. by rewrite delete_insert_eq. }
  clearbody s1. destruct Hs1 as (Hg1 & Hp & Hset & Hdet & Hf1 & Hins & Hdel & Hfix).
  unfold absorb. rewrite Hopen. rewrite Hset.
  destruct (decide (token ∈ stop_token_ids (settings s))) as [Hstop|Hstop].
  - destruct (finish_turned owed nobody s1 s o r f0 d "eos" Hg1) as (s' & -> & Hg' & Htn);
      rewrite ?Hp, ?Hdet; try done.
    cbn [mbind result_bind]. apply returns_ret. split_and!; try done.
    eapply good_weaken; [| |exact Hg']; [done|by intros o' [[] ?]].
  - cbn [detokenizers]. set (s2 := update_request o _ s1). set (s3 := match record with Some _ => _ | None => s2 end).
    assert (H3 : detokenizers s3 = detokenizers s) by (unfold s3; by destruct record).
    rewrite H3, Hd. cbn [mbind result_bind].
    destruct (append_one token d Hd1) as (piece & d' & Ha & Hd1'). rewrite Ha. cbn [mbind result_bind].
    cbv zeta. set (s5 := update_front o _ _).
    assert (E5 : s5 = kept_state o rid token (note record piece f0) d' s1).
    { assert (E : fronts s5 = <[o := note record piece f0]> (fronts s1)).
      { unfold s5, s3, s2. destruct record as [rec|]; cbn.
        - by rewrite (alter_twice _ _ f0).
        - by rewrite (alter_insert _ _ f0). }
      unfold kept_state. rewrite <- E, Hdet. unfold s5, s3, s2. by destruct record. }
    clearbody s5. subst s5. set (s5 := kept_state _ _ _ _ _ _) in *.
    assert (Hr1 : heap (planner s1) !! o = Some r) by (by rewrite Hp).
    assert (Hin1 : o ∈ running (planner s1)) by (by rewrite Hp).
    assert (Hg5 : good digest (but owed o) (λ o', nobody o' ∨ o' = o) s5).
    { unfold s5, rid. apply (kept_good owed s1 o r f0); try done. apply note_records. }
    assert (Hr5 : heap (planner s5) !! o = Some (push token r)).
    { change (heap (planner s5)) with (heap (emit o token (planner s1))). unfold emit.
      rewrite (update_insert _ _ _ _ Hr1). apply lookup_insert_eq. }
    assert (Hf5 : fronts s5 !! o = Some (note record piece f0)) by apply lookup_insert_eq.
    rewrite (request_Ok _ _ _ Hr5). cbn [mbind result_bind]. rewrite (front_Ok _ _ _ Hf5).
    cbn [mbind result_bind]. change (config (planner s5)) with (config (planner s1)). rewrite Hp.
    set (why := verdict (max_seq_len (config (planner s))) check (push token r) (note record piece f0)).
    assert (Hroom : why = None → Req.has_room (push token r) = true).
    { unfold why, verdict. by destruct (Req.has_room (push token r)). }
    pose proof (kept_turned owed s1 o r (note record piece f0) d' token why Hg5 Hin1 Hr1 Hroom Hopen) as Hk.
    assert (Hfin : returns (match why with
        | Some reason => s ← finish digest o reason s5; Ok (advanced ++ [o],
            if decide (rid ∈ opened) then opened else rid :: opened, s)
        | None => Ok (advanced ++ [o], if decide (rid ∈ opened) then opened else rid :: opened, s5)
        end) (λ '(advanced', opened', s'), advanced' = advanced ++ [o] ∧
       opened' = (if decide (rid ∈ opened) then opened else rid :: opened) ∧
       good digest (but owed o) nobody s' ∧
       turned o rid (close why (push token r), note record piece f0, d') s s')).
    { assert (Hmono : ∀ s', turned o rid (close why (push token r), note record piece f0, d') s1 s' →
        turned o rid (close why (push token r), note record piece f0, d') s s').
      { intros s' [T1 T2 T3 T4 T5 T6 T7 T8]. rewrite Hp in *. rewrite Hdet in T4. rewrite Hins in T2.
        split; try done. destruct Hfix as (F1 & F2 & F3 & F4 & F5).
        rewrite <- Hset, <- F1, <- F2, <- F3, <- F4, <- F5. done. }
      destruct why as [reason|].
      - apply returns_bind. eapply returns_mono; [exact Hk|]. intros s' [Hg' Htn].
        apply returns_ret. split_and!; auto.
      - destruct Hk as (s' & [= <-] & Hg' & Htn). apply returns_ret. split_and!; auto. }
    revert Hfin. unfold why, verdict. destruct (negb _ || _); [done|].
    by destruct (check && _ && _).
Qed.
(** ** The whole harvest *)

(** What a state says of one request. *)
Definition lane_at s (o : nat) (x : lane) : Prop :=
  heap (planner s) !! o = Some x.1.1 ∧ fronts s !! o = Some x.1.2 ∧
  (Req.is_finished x.1.1 = false → detokenizers s !! Req.request_id x.1.1 = Some x.2).

Definition unfinished s (o : nat) : bool :=
  match heap (planner s) !! o with Some r => negb (Req.is_finished r) | None => false end.

(** [s'] is [s] with the tokens [emitted] absorbed. *)
Record harvested (check : bool) owed s (emitted : list (nat * Z * option LP)) (advanced : list nat)
    s' : Prop := {
  h_good : good digest (λ o, owed o ∧ o ∉ emitted.*1.*1) nobody s';
  h_lane : ∀ o x, o ∈ running (planner s) → lane_at s o x →
    lane_at s' o (absorb_all (stop_token_ids (settings s)) (max_seq_len (config (planner s))) check x
      (tokens_for o emitted));
  h_running : running (planner s') = filter (λ o, unfinished s' o = true) (running (planner s));
  h_rest : ∀ o, o ∉ running (planner s) →
    heap (planner s') !! o = heap (planner s) !! o ∧ fronts s' !! o = fronts s !! o;
  h_waiting : waiting (planner s') = waiting (planner s);
  h_limits : same_limits (planner s) (planner s');
  h_fixed : settings s' = settings s ∧ executor s' = executor s ∧ tokenizing s' = tokenizing s ∧
    inflight s' = inflight s ∧ next_object s' = next_object s ∧ step_count s' = step_count s;
  h_advanced : ∀ o, o ∈ advanced ↔ o ∈ emitted.*1.*1;
}.

Lemma tokens_for_snoc o emitted e :
  tokens_for o (emitted ++ [e]) =
  tokens_for o emitted ++ (if decide (e.1.1 = o) then [(e.1.2, e.2)] else []).
Proof.
  unfold tokens_for. rewrite filter_app, fmap_app. f_equal. rewrite filter_cons, filter_nil.
  by case_decide.
Qed.

Lemma tokens_for_nil o emitted : tokens_for o emitted = [] ↔ o ∉ emitted.*1.*1.
Proof.
  induction emitted as [|e l IH] using rev_ind; [split; [by intros _ ?%elem_of_nil|done]|].
  rewrite tokens_for_snoc, !fmap_app, not_elem_of_app, <- IH. cbn. rewrite list_elem_of_singleton.
  case_decide as Ho.
  - split; [by intros [_ [=]]%app_eq_nil|]. by intros [_ []].
  - rewrite app_nil_r. naive_solver.
Qed.

Section Lanes.
Context (stops : list Z) (limit : nat) (check : bool).
Notation absorb := (absorb stops limit check).
Notation absorb_all := (absorb_all stops limit check).

Lemma absorb_all_snoc x es e :
  absorb_all x (es ++ [e]) =
  absorb (if decide (es = []) then (x.1.1, clear_delta x.1.2, x.2) else absorb_all x es) e.
Proof.
  destruct x as [[r f] d]. destruct es as [|e0 es]; [done|]. cbn [app Harvest.absorb_all].
  by rewrite app_comm_cons, foldl_app.
Qed.

Lemma absorb_id x e : Req.request_id (absorb x e).1.1 = Req.request_id x.1.1.
Proof.
  destruct x as [[r f] d], e as [token record]. unfold Harvest.absorb. cbn [fst].
  destruct (Req.is_finished r); [done|]. case_decide; [done|].
  destruct (Detok.append _ _ _ _) as [[piece d']|]; [|done]. cbn. by destruct (verdict _ _ _ _).
Qed.

Lemma absorb_finished x e : Req.is_finished x.1.1 = true → absorb x e = x.
Proof. destruct x as [[r f] d], e as [token record]. cbn. by intros ->. Qed.

Lemma absorb_all_id x es : Req.request_id (absorb_all x es).1.1 = Req.request_id x.1.1.
Proof.
  induction es as [|e es IH] using rev_ind; [by destruct x as [[]]|].
  rewrite absorb_all_snoc, absorb_id. by case_decide.
Qed.
End Lanes.

Lemma harvested_start check owed s : good digest owed nobody s → harvested check owed s [] [] s.
Proof.
  intros Hg. split; try done.
  - eapply good_weaken; [| |exact Hg]; [|done]. intros o Ho. split; [done|]. apply not_elem_of_nil.
  - symmetry. apply filter_all. intros o Ho. unfold unfinished.
    destruct (live_parts digest _ _ s o Hg (running_live _ _ Ho)) as (r & f & d & Hr & _).
    by rewrite Hr, (running_open s _ _ o r Hg Ho Hr).
Qed.

Lemma lane_running check owed s emitted advanced s' o x :
  harvested check owed s emitted advanced s' → o ∈ running (planner s) → lane_at s o x →
  Req.is_finished (absorb_all (stop_token_ids (settings s)) (max_seq_len (config (planner s))) check x
      (tokens_for o emitted)).1.1 = false → o ∈ running (planner s').
Proof.
  intros Hh Hin Hx Hopen. rewrite (h_running _ _ _ _ _ _ Hh). apply list_elem_of_filter. split; [|done].
  unfold unfinished. destruct (h_lane _ _ _ _ _ _ Hh o x Hin Hx) as (-> & _). by rewrite Hopen.
Qed.
(** A state has at most one lane for a running request. *)
Lemma lane_eq owed s o x y :
  good digest owed nobody s → o ∈ running (planner s) → lane_at s o x → lane_at s o y → y = x.
Proof.
  intros Hg Hin Hx Hy. destruct x as [[r f] d], y as [[r' f'] d'], Hx as (E1 & E2 & E3), Hy as (E1' & E2' & E3').
  cbn in *. rewrite E1 in E1'. injection E1' as <-. rewrite E2 in E2'. injection E2' as <-.
  pose proof (running_open s _ _ o r Hg Hin E1) as Hop.
  specialize (E3 Hop). specialize (E3' Hop). rewrite E3 in E3'. by injection E3' as <-.
Qed.

(** Running requests have distinct ids. *)
Lemma lane_rid owed s o o' x y :
  good digest owed nobody s → o ∈ running (planner s) → o' ∈ running (planner s) →
  lane_at s o x → lane_at s o' y → Req.request_id y.1.1 = Req.request_id x.1.1 → o' = o.
Proof.
  intros Hg Hin Hin' [Hx _] [Hy _] E. pose proof (wf_queues _ _ (g_wf _ _ _ _ Hg)) as Hq.
  destruct (live_request _ _ _ Hq (running_live _ _ Hin) Hx) as [K1 _].
  destruct (live_request _ _ _ Hq (running_live _ _ Hin') Hy) as [K2 _]. congruence.
Qed.

(** A token of a request that has finished changes nothing. *)
Lemma harvested_skip check owed s emitted advanced s' e x :
  harvested check owed s emitted advanced s' → e.1.1 ∈ running (planner s) → lane_at s e.1.1 x →
  Req.is_finished (absorb_all (stop_token_ids (settings s)) (max_seq_len (config (planner s))) check x
      (tokens_for e.1.1 emitted)).1.1 = true → good digest owed nobody s →
  harvested check owed s (emitted ++ [e]) advanced s'.
Proof.
  intros Hh Hin Hx Hfin Hg. pose proof Hh as [].
  assert (Hes : tokens_for e.1.1 emitted ≠ []).
  { intros E. rewrite E in Hfin. destruct x as [[r f] d]. cbn in Hfin.
    rewrite (running_open s _ _ e.1.1 r Hg Hin) in Hfin; [done|]. by destruct Hx. }
  assert (Hold : e.1.1 ∈ emitted.*1.*1).
  { destruct (decide (e.1.1 ∈ emitted.*1.*1)); [done|]. by apply tokens_for_nil in n. }
  assert (Hids : ∀ o, o ∈ (emitted ++ [e]).*1.*1 ↔ o ∈ emitted.*1.*1).
  { intros o. rewrite !fmap_app, elem_of_app. cbn. rewrite list_elem_of_singleton. naive_solver. }
  split; try done.
  - eapply good_weaken; [| |exact h_good0]; [|done]. intros o. cbn. by rewrite Hids.
  - intros o y Ho Hy. rewrite tokens_for_snoc. case_decide as E; [|rewrite app_nil_r; by apply h_lane0].
    subst o. assert (y = x) as -> by (by eapply (lane_eq owed s)).
    rewrite absorb_all_snoc, decide_False, absorb_finished by done. by apply h_lane0.
  - intros o. by rewrite Hids.
Qed.
(** A token of a request that has not. *)
Lemma harvested_turned check owed s emitted advanced s1 e x s2 :
  good digest owed nobody s → harvested check owed s emitted advanced s1 →
  e.1.1 ∈ running (planner s) → lane_at s e.1.1 x → e.1.1 ∈ running (planner s1) →
  good digest (but (λ o, owed o ∧ o ∉ emitted.*1.*1) e.1.1) nobody s2 →
  turned e.1.1 (Req.request_id x.1.1) (absorb_all (stop_token_ids (settings s))
    (max_seq_len (config (planner s))) check x (tokens_for e.1.1 (emitted ++ [e]))) s1 s2 →
  harvested check owed s (emitted ++ [e]) (advanced ++ [e.1.1]) s2.
Proof.
  intros Hg Hh Hin Hx Hin1 Hg2 []. pose proof Hh as []. set (y := absorb_all _ _ _ _ _) in *.
  assert (Hids : ∀ o, o ∈ (emitted ++ [e]).*1.*1 ↔ o ∈ emitted.*1.*1 ∨ o = e.1.1).
  { intros o. rewrite !fmap_app, elem_of_app. cbn. by rewrite list_elem_of_singleton. }
  assert (Hother : ∀ o, o ≠ e.1.1 → unfinished s2 o = unfinished s1 o).
  { intros o Hne. unfold unfinished. by rewrite t_heap0, lookup_insert_ne by done. }
  assert (Hself : unfinished s2 e.1.1 = negb (Req.is_finished y.1.1)).
  { unfold unfinished. by rewrite t_heap0, lookup_insert_eq. }
  assert (Hone : unfinished s1 e.1.1 = true).
  { rewrite h_running0 in Hin1. by apply list_elem_of_filter in Hin1 as [? _]. }
  split.
  - eapply good_weaken; [| |exact Hg2]; [|done]. intros o [[? ?] ?]. split; [done|].
    rewrite Hids. by intros [|].
  - intros o z Ho Hz. rewrite tokens_for_snoc. case_decide as E.
    + subst o. assert (z = x) as -> by (by eapply (lane_eq owed s e.1.1)).
      assert (Hy : y = absorb_all (stop_token_ids (settings s)) (max_seq_len (config (planner s))) check
        x (tokens_for e.1.1 emitted ++ [(e.1.2, e.2)])).
      { unfold y. rewrite tokens_for_snoc. by rewrite decide_True. }
      rewrite <- Hy. split_and!.
      * by rewrite t_heap0, lookup_insert_eq.
      * by rewrite t_fronts0, lookup_insert_eq.
      * intros Hopen. rewrite t_detok0, Hopen. unfold y. by rewrite absorb_all_id, lookup_insert_eq.
    + rewrite app_nil_r. destruct (h_lane0 o z Ho Hz) as (L1 & L2 & L3). set (w := absorb_all _ _ _ z _) in *.
      split_and!; [by rewrite t_heap0, lookup_insert_ne|by rewrite t_fronts0, lookup_insert_ne|].
      intros Hopen. assert (Hne : Req.request_id w.1.1 ≠ Req.request_id x.1.1).
      { unfold w. rewrite absorb_all_id. intros Er. by apply E, eq_sym, (lane_rid owed s _ _ x z). }
      rewrite t_detok0. destruct (Req.is_finished y.1.1).
      * rewrite lookup_delete_ne by done. by apply L3.
      * rewrite lookup_insert_ne by done. by apply L3.
  - rewrite t_running0. destruct (Req.is_finished y.1.1) eqn:Efin.
    + rewrite h_running0, list_filter_filter. apply filter_ext_in. intros o Ho.
      destruct (decide (o = e.1.1)) as [->|Hne]; [rewrite Hself; naive_solver|].
      rewrite Hother by done. naive_solver.
    + rewrite h_running0. apply filter_ext_in. intros o Ho.
      destruct (decide (o = e.1.1)) as [->|Hne]; [by rewrite Hself, Hone|]. by rewrite Hother.
  - intros o Ho. assert (o ≠ e.1.1) by (by intros ->). rewrite t_heap0, t_fronts0.
    rewrite !lookup_insert_ne by done. by apply h_rest0.
  - congruence.
  - by etransitivity.
  - destruct t_fixed0 as (F1 & F2 & F3 & F4 & F5 & F6), h_fixed0 as (G1 & G2 & G3 & G4 & G5 & G6).
    split_and!; congruence.
  - intros o. rewrite Hids, elem_of_app, list_elem_of_singleton, h_advanced0. done.
Qed.
Lemma running_lane owed s o :
  good digest owed nobody s → o ∈ running (planner s) →
  ∃ x, lane_at s o x ∧ length x.2 = 1 ∧ detokenizers s !! Req.request_id x.1.1 = Some x.2.
Proof.
  intros Hg Hin.
  destruct (live_parts digest _ _ s o Hg (running_live _ _ Hin)) as (r & f & d & Hr & Hf & _ & Hd & H1).
  by exists (r, f, d).
Qed.

(** The loop of [_harvest] returns, and each running request has absorbed its
    own tokens, whatever the interleaving. *)
Lemma harvest_Ok owed s emitted :
  good digest owed nobody s →
  Forall (λ e, e.1.1 ∈ running (planner s) ∧ Chain.is_token e.1.2) emitted →
  returns (harvest digest decode_ids is_digit emitted s) (λ '(advanced, s'),
    harvested (bool_decide (step_count s mod Stop.POLL_INTERVAL = 0)) owed s emitted advanced s').
Proof.
  intros Hg Hem. unfold harvest. set (check := bool_decide _). apply returns_bind.
  eapply returns_mono.
  - apply (returns_rfold (λ pre '(advanced, opened, s1), harvested check owed s pre advanced s1 ∧
      ∀ o x, o ∈ running (planner s) → lane_at s o x →
        Req.request_id x.1.1 ∈ opened ↔ o ∈ pre.*1.*1)).
    + split; [by apply harvested_start|]. intros o x _ _. by rewrite !elem_of_nil.
    + intros pre e post [[advanced opened] s1] Hl [Hh Hop].
      rewrite Forall_forall in Hem. destruct (Hem e) as [Hin Ht]; [rewrite Hl; set_solver|].
      destruct (running_lane owed s e.1.1 Hg Hin) as (x & Hx & _ & _).
      pose proof (h_lane _ _ _ _ _ _ Hh _ x Hin Hx) as Hy.
      remember (absorb_all _ _ _ x _) as y eqn:Ey in Hy. destruct (Req.is_finished y.1.1) eqn:Efin.
      * destruct e as [[o token] record]. cbn [fst snd] in *. unfold harvest_one.
        destruct Hy as (Hr & _). rewrite (request_Ok _ _ _ Hr). cbn [mbind result_bind]. rewrite Efin.
        apply returns_ret. split.
        { apply (harvested_skip check owed s pre advanced s1 (o, token, record) x); try done.
          cbn [fst snd]. by rewrite <- Ey. }
        intros o' z Ho' Hz. rewrite (Hop o' z Ho' Hz), !fmap_app, elem_of_app. cbn.
        rewrite list_elem_of_singleton. split; [by left|]. intros [|Eo]; [done|]. subst o'.
        destruct (decide (o ∈ pre.*1.*1)) as [|Hn]; [done|]. apply tokens_for_nil in Hn.
        rewrite Ey, Hn in Efin. destruct x as [[r f] d]. cbn in Efin.
        rewrite (running_open s _ _ o r Hg Hin) in Efin; [done|]. by destruct Hx.
      * assert (Hin1 : e.1.1 ∈ running (planner s1)).
        { apply (lane_running check owed s pre advanced s1 e.1.1 x Hh Hin Hx). by rewrite <- Ey. }
        destruct (running_lane _ s1 e.1.1 (h_good _ _ _ _ _ _ Hh) Hin1) as (y' & Hy' & Hd1 & Hd).
        assert (y' = y) as -> by exact (lane_eq _ s1 _ y y' (h_good _ _ _ _ _ _ Hh) Hin1 Hy Hy').
        destruct e as [[o token] record]. cbn [fst snd] in *. destruct Hy as (Hr & Hf & _).
        destruct y as [[r1 f1] d1]. cbn [fst snd] in *.
        eapply returns_mono; [by apply (harvest_turn check _ s1 o r1 f1 d1 token record advanced opened
          (h_good _ _ _ _ _ _ Hh) Hin1 Hr Hf Hd Hd1 Ht)|].
        intros [[advanced' opened'] s2] (-> & -> & Hg2 & Htn).
        assert (Erid : Req.request_id r1 = Req.request_id x.1.1).
        { change r1 with (r1, f1, d1).1.1. by rewrite Ey, absorb_all_id. }
        assert (Hopen : Req.request_id r1 ∈ opened ↔ o ∈ pre.*1.*1) by (rewrite Erid; by apply Hop).
        split.
        -- apply (harvested_turned check owed s pre advanced s1 (o, token, record) x); try done.
           cbn [fst snd]. rewrite <- Erid. destruct (h_fixed _ _ _ _ _ _ Hh) as (F1 & _).
           destruct (h_limits _ _ _ _ _ _ Hh) as (F2 & _).
           rewrite F1, F2 in Htn. rewrite tokens_for_snoc, decide_True, absorb_all_snoc by done.
           rewrite <- Ey. cbn [fst snd]. destruct (decide (tokens_for o pre = [])) as [E0|E0].
           ++ rewrite decide_False in Htn by (rewrite Hopen; by apply tokens_for_nil).
              rewrite E0 in Ey. destruct x as [[r f] d]. cbn in Ey. injection Ey as <- <- <-. done.
           ++ rewrite decide_True in Htn; [done|]. rewrite Hopen.
              destruct (decide (o ∈ pre.*1.*1)) as [|Hn]; [done|]. by apply tokens_for_nil in Hn.
        -- intros o' z Ho' Hz. rewrite !fmap_app, elem_of_app, <- (Hop o' z Ho' Hz). cbn.
           rewrite list_elem_of_singleton. rewrite Erid in Hopen |- *.
           assert (Heq : Req.request_id z.1.1 = Req.request_id x.1.1 → o' = o).
           { apply (lane_rid owed s); done. }
           assert (Heq' : o' = o → z = x) by (intros ->; by apply (lane_eq owed s o)).
           clear -Heq Heq'. destruct (decide (Req.request_id x.1.1 ∈ opened)); [|rewrite elem_of_cons];
             naive_solver.
  - intros [[advanced opened] s'] [Hh _]. by apply returns_ret.
Qed.
End Harvest.
End Harvest.
