(* ===== verification/SchedulerPasses.v ===== *)
(** * The passes of a step

    [_prefill_work], [_decode_work] and the verification stretch turn a sound
    plan into inputs the executor must accept; what they promise of their rows
    is what the harvest later relies on. *)

From S2P Require Export SchedulerInv.

Module Passes.
Import Planner Inv Steps Sched SchedInv.

(** ** Slices *)

Lemma slice_le {A} (l : list A) a b : (0 ≤ a ≤ b)%Z → (Z.of_nat (length (Ngram.slice l a b)) ≤ b - a)%Z.
Proof.
  intros Hab. unfold Ngram.slice, Ngram.bound. rewrite length_take, length_drop.
  rewrite !(proj2 (Z.ltb_ge _ _)) by lia. lia.
Qed.

Lemma slice_elem {A} (l : list A) a b x : x ∈ Ngram.slice l a b → x ∈ l.
Proof. intros Hx. by eapply elem_drop, elem_take. Qed.

Lemma slice_length {A} (l : list A) a b :
  a ≤ b ≤ length l → length (Ngram.slice l (Z.of_nat a) (Z.of_nat b)) = b - a.
Proof. intros Hab. rewrite Ngram.slice_nat by done. rewrite length_take, length_drop. lia. Qed.

(** ** Concatenations row by row *)

Lemma length_concat {A} (ls : list (list A)) : length (concat ls) = sum_list (length <$> ls).
Proof. induction ls as [|l ls IH]; [done|]. cbn. by rewrite length_app, IH. Qed.

Lemma total_rows {A} (ls : list (list A)) (starts ends : list Z) :
  Forall2 (λ l ab, Z.of_nat (length l) = ab.2 - ab.1)%Z ls (zip starts ends) →
  length starts = length ends →
  Z.of_nat (length (concat ls)) = total (zip_with (λ a b, b - a)%Z starts ends).
Proof.
  revert starts ends. induction ls as [|l ls IH]; intros [|a starts] [|b ends] Hl Hlen; try done;
    inversion Hl as [|? ? ? ? Hab Hrest]; subst.
  cbn in *. rewrite length_app, Nat2Z.inj_add, Hab. f_equal. apply IH; [done|congruence].
Qed.

Lemma elem_of_enumerate {A} (l : list A) k x :
  (k, x) ∈ zip (seq 0 (length l)) l ↔ l !! k = Some x.
Proof.
  rewrite list_elem_of_lookup. split.
  - intros (i & (k' & x' & E & Hk & Hx)%lookup_zip_with_Some). injection E as <- <-.
    apply lookup_seq in Hk as [-> _]. exact Hx.
  - intros Hx. exists k. apply lookup_zip_with_Some. exists k, x. split_and!; [done| |done].
    apply lookup_seq. split; [done|]. by apply lookup_lt_Some in Hx.
Qed.

Lemma filter_tagged {A B} (f : A → B) (P : A * B → Prop) `{!∀ e, Decision (P e)} l :
  (filter P ((λ a, (a, f a)) <$> l)).*1 = filter (λ a, P (a, f a)) l.
Proof.
  induction l as [|a l IH]; [done|]. rewrite fmap_cons, !filter_cons.
  case_decide; [rewrite fmap_cons|]; by rewrite IH.
Qed.

Lemma make_input_Ok (i : ModelInput) :
  slots i ≠ [] → length (slots i) = length (seq_starts i) → length (seq_starts i) = length (seq_lens i) →
  Z.of_nat (length (tokens i)) = total (chunk_lens i) →
  length (sampled i) = length (sampling i) → length (sampling i) = length (gen_counts i) →
  in_prompt_logprobs i = [] ∨ length (in_prompt_logprobs i) = length (slots i) →
  prompt_targets i = [] ∨ length (prompt_targets i) = length (tokens i) →
  (wants (in_prompt_logprobs i) = true → prompt_targets i ≠ []) → make_input i = Ok i.
Proof.
  intros H1 H2 H2' H3 H4 H4' H5 H6 H7. unfold make_input, rguard.
  rewrite (bool_decide_eq_true_2 (slots i ≠ [])), (bool_decide_eq_true_2 (_ ∧ _)),
    (bool_decide_eq_true_2 (_ = total _)), (bool_decide_eq_true_2 (_ ∧ _)),
    (bool_decide_eq_true_2 (in_prompt_logprobs i = [] ∨ _)),
    (bool_decide_eq_true_2 (prompt_targets i = [] ∨ _)) by done. cbn [mbind result_bind].
  destruct (wants _); [|done]. by rewrite bool_decide_eq_false_2 by auto.
Qed.

Section Passes.
Context {T X LP Row : Type} `{!Offload.OffloadingManager T} `{!Executor X LP Row}
  (digest : list Z → list Z) (digest_ok : Chain.digest_ok digest).

Notation Scheduler := (@Scheduler T X LP).
Notation row := (@row LP).
Implicit Types (s : Scheduler) (r : Req.Request) (owed full : nat → Prop).

Definition seats s : nat := num_slots (planner s).
Definition context s : nat := max_seq_len (config (planner s)).

(** Distinct running requests sit on distinct slots. *)
Lemma slots_distinct (p : BatchPlanner T) l :
  queues p → NoDup l → (∀ o, o ∈ l → o ∈ running p) →
  ∃ sl, (slot_of p <$> l) = Some <$> sl ∧ NoDup sl ∧ Forall (λ k, k < num_slots p) sl.
Proof.
  intros Hq Hnd Hl. set (f o := default 0 (slot_of p o)).
  assert (Hf : ∀ o, o ∈ running p → slot_of p o = Some (f o)).
  { intros o (r & Hr & _ & [k Hk])%(q_running _ Hq). unfold f, slot_of. rewrite Hr. cbn. by rewrite Hk. }
  assert (Hom : omap (slot_of p) (running p) = f <$> running p).
  { clear -Hf. induction (running p) as [|o l IH]; [done|]. cbn. rewrite (Hf o) by left.
    f_equal. apply IH. intros o' Ho'. apply Hf. by right. }
  pose proof (q_slots _ Hq) as Hs. rewrite Hom in Hs.
  assert (Hnd' : NoDup (f <$> running p)).
  { assert (NoDup (free_slots p ++ (f <$> running p))) as Hn by (rewrite Hs; apply NoDup_seq).
    by apply NoDup_app in Hn as (_ & _ & ?). }
  exists (f <$> l). split_and!.
  - rewrite <- list_fmap_compose. apply list_fmap_ext. intros i o Ho. cbn.
    apply Hf, Hl. by eapply list_elem_of_lookup_2.
  - apply NoDup_fmap_2_strong; [|done]. intros x y Hx%Hl Hy%Hl E.
    apply list_elem_of_lookup in Hx as [i Hi], Hy as [j Hj].
    assert (i = j) as ->; [|congruence]. eapply (NoDup_lookup _ i j (f x) Hnd').
    + by rewrite list_lookup_fmap, Hi.
    + by rewrite list_lookup_fmap, Hj, E.
  - apply Forall_forall. intros k (o & -> & Ho%Hl)%list_elem_of_fmap.
    assert (f o ∈ seq 0 (num_slots p)) as Hin.
    { rewrite <- Hs. apply elem_of_app. right. by apply list_elem_of_fmap_2. }
    apply elem_of_seq in Hin. lia.
Qed.

(** ** What a pass promises *)

Record promised s (w : Work) : Prop := {
  p_sampled : length (work_requests w) = length (sampled (work_plan w));
  p_running : ∀ o, o ∈ work_requests w → o ∈ running (planner s);
  p_chunks : in_prompt_logprobs (work_plan w) = [] ∨
    length (work_chunks w) = length (seq_starts (work_plan w)) ∧
    length (in_prompt_logprobs (work_plan w)) = length (work_chunks w);
  p_rows : ∀ k o a b, work_chunks w !! k = Some o → seq_starts (work_plan w) !! k = Some a →
    seq_lens (work_plan w) !! k = Some b →
    o ∈ running (planner s) ∧ ∃ r, heap (planner s) !! o = Some r ∧
      (0 ≤ a ∧ b ≤ Z.of_nat (Req.prompt_len r))%Z ∧
      (k ∉ sampled (work_plan w) → b < Z.of_nat (Req.prompt_len r))%Z;
}.

(** What the planner settled for one chunk. *)
Definition chunk_ok s (c : nat * nat) : Prop :=
  c.1 ∈ running (planner s) ∧
  ∃ r, heap (planner s) !! c.1 = Some r ∧ 1 ≤ c.2 ≤ Req.num_computed_tokens r.

(** A loaded row. *)
Definition loaded s (c : nat * nat) (x : row) : Prop :=
  ∃ r f, x = (c.1, r, f, Z.of_nat c.2) ∧ heap (planner s) !! c.1 = Some r ∧
    c.1 ∈ running (planner s) ∧ 1 ≤ c.2 ≤ Req.num_computed_tokens r ∧
    Req.num_computed_tokens r ≤ Req.prompt_len r ∧ Req.prompt_len r < context s ∧
    Forall Chain.is_token (Req.prompt_token_ids r).

Lemma load_row_Ok owed s c :
  good digest owed nobody s → chunk_ok s c → returns (load_row s c) (loaded s c).
Proof.
  intros Hg (Hin & r & Hr & Hc).
  destruct (live_parts digest _ _ s c.1 Hg (running_live _ _ Hin)) as (r' & f & d & Hr' & Hf & _).
  assert (r' = r) as -> by congruence.
  destruct (q_tokens _ (wf_queues _ _ (g_wf _ _ _ _ Hg)) _ _ (running_live _ _ Hin) Hr) as (Ht & H1 & H2).
  destruct (g_room _ _ _ _ Hg _ _ (running_live _ _ Hin) Hr) as [H3 H4]. specialize (H4 (λ x, x)).
  unfold load_row. rewrite (request_Ok _ _ _ Hr). cbn [mbind result_bind].
  rewrite (front_Ok _ _ _ Hf). cbn [mbind result_bind]. apply returns_ret. exists r, f.
  apply Forall_app in Ht as [Ht _]. split_and!; try done; try lia.
  unfold context. unfold Req.seq_len, Req.prompt_len in *. lia.
Qed.

Lemma loaded_row s c x : loaded s c x →
  (0 ≤ row_start x < row_end x)%Z ∧ (row_end x < Z.of_nat (context s))%Z ∧
  (Z.of_nat (length (row_tokens x)) = row_end x - row_start x)%Z ∧
  length (row_targets x) = length (row_tokens x) ∧
  Forall Chain.is_token (row_tokens x) ∧ row_oid x = c.1 ∧
  Req.slot (row_request x) = slot_of (planner s) c.1 ∧
  heap (planner s) !! c.1 = Some (row_request x) ∧ c.1 ∈ running (planner s) ∧
  (row_end x ≤ Z.of_nat (Req.prompt_len (row_request x)))%Z ∧
  (row_final x = false → row_end x < Z.of_nat (Req.prompt_len (row_request x)))%Z ∧
  (row_final x = true ↔ Req.prefill_done (row_request x) = true).
Proof.
  intros (r & f & -> & Hr & Hin & Hc & Hn & Hl & Ht).
  assert (Hs : (row_start (c.1, r, f, Z.of_nat c.2) = Z.of_nat (Req.num_computed_tokens r - c.2))%Z)
    by (unfold row_start, row_end; lia).
  assert (Hlen : length (row_tokens (c.1, r, f, Z.of_nat c.2)) = c.2).
  { unfold row_tokens. rewrite Hs. unfold row_end. rewrite slice_length; unfold Req.prompt_len in *; lia. }
  rewrite Hs, Hlen. cbn [row_end row_oid row_request row_final]. split_and!; try done; try lia.
  - unfold row_targets. rewrite length_app, length_replicate.
    pose proof (slice_le (Req.prompt_token_ids r) (Z.of_nat (Req.num_computed_tokens r - c.2) + 1)
      (Z.of_nat (Req.num_computed_tokens r) + 1) ltac:(lia)) as Hle.
    rewrite Hs. cbn [row_end]. lia.
  - unfold row_tokens. apply Forall_forall. intros t Hx%slice_elem. by eapply Forall_forall in Ht.
  - unfold slot_of. by rewrite Hr.
  - rewrite bool_decide_eq_false. lia.
  - unfold Req.prefill_done. rewrite !bool_decide_eq_true. lia.
Qed.

(** The facts of a list of loaded rows, column by column. *)
Lemma loaded_rows s chunks rows :
  Forall2 (loaded s) chunks rows → chunks ≠ [] →
  rows ≠ [] ∧ (row_oid <$> rows) = chunks.*1 ∧
  (Req.slot ∘ row_request <$> rows) = (slot_of (planner s) <$> chunks.*1) ∧
  Forall2 (λ a b, 0 ≤ a < b ∧ b ≤ Z.of_nat (context s))%Z (row_start <$> rows) (row_end <$> rows) ∧
  Z.of_nat (length (concat (row_tokens <$> rows))) =
    total (zip_with (λ a b, b - a)%Z (row_start <$> rows) (row_end <$> rows)) ∧
  length (concat (row_targets <$> rows)) = length (concat (row_tokens <$> rows)) ∧
  concat (row_targets <$> rows) ≠ [] ∧
  Forall Chain.is_token (concat (row_tokens <$> rows)).
Proof.
  intros Hrows. induction Hrows as [|c x chunks rows Hx Hrows IH]; intros Hne; [done|].
  destruct (loaded_row s c x Hx) as (R1 & R2 & R3 & R4 & R5 & R6 & R7 & _).
  assert (Hne' : row_targets x ≠ []) by (intros E; rewrite E in R4; cbn in R4; lia).
  destruct chunks as [|c' chunks].
  - inversion Hrows; subst. cbn. rewrite !app_nil_r, R6, R7. split_and!; try done.
    + constructor; [|constructor]. lia.
    + rewrite R3. lia.
  - destruct IH as (_ & I2 & I3 & I4 & I5 & I6 & I7 & I8); [done|].
    rewrite !fmap_cons. cbn [concat app]. rewrite I2, !length_app, R4, I6, Nat2Z.inj_add, R3, I5.
    split_and!; try done.
    + by rewrite R6.
    + cbn [fmap list_fmap] in I3 |- *. cbn. rewrite R7. f_equal. exact I3.
    + constructor; [lia|done].
    + by intros [? _]%app_eq_nil.
    + by apply Forall_app.
Qed.

(** The chunk starts its prompt. *)
Definition whole s (c : nat * nat) : Prop :=
  ∀ r, heap (planner s) !! c.1 = Some r → Req.num_computed_tokens r = c.2.

Lemma chunk_work_Ok owed s resumes kd chunks :
  (kd = PREFILL → resumes = false → Forall (whole s) chunks) →
  good digest owed nobody s → Forall (chunk_ok s) chunks → NoDup chunks.*1 → chunks ≠ [] →
  returns (chunk_work kd chunks s) (λ w, fits (seats s) (context s) resumes (work_plan w) ∧
    promised s w ∧ work_chunks w = chunks.*1 ∧
    (∀ o, o ∈ work_requests w → o ∈ chunks.*1 ∧
      ∃ r, heap (planner s) !! o = Some r ∧ Req.prefill_done r = true) ∧
    ∀ o r, o ∈ chunks.*1 → heap (planner s) !! o = Some r → Req.prefill_done r = true →
      o ∈ work_requests w).
Proof.
  intros Hkd Hg Hc Hnd Hne. unfold chunk_work.
  destruct (returns_rmap (load_row s) (loaded s) chunks) as (rows & -> & Hrows).
  { intros c Hin. apply (load_row_Ok owed); [done|]. by eapply Forall_forall in Hc. }
  cbn [mbind result_bind]. cbv zeta.
  destruct (loaded_rows s chunks rows Hrows Hne) as (L1 & L2 & L3 & L4 & L5 & L6 & L7 & L8).
  set (finals := filter _ (zip _ _)). set (asked := (λ x, prompt_logprobs (row_params x)) <$> rows). set (i := MkInput _ _ _ _ _ _ _ _ _ _ _ _).
  assert (Hi : make_input i = Ok i).
  { apply make_input_Ok; cbn [i slots seq_starts seq_lens tokens sampled sampling gen_counts
      in_prompt_logprobs prompt_targets]; rewrite ?length_fmap, ?length_replicate; try done.
    - by intros ?%fmap_nil_inv.
    - destruct (wants asked); [right|by left]. unfold asked. by rewrite length_fmap.
    - destruct (wants asked); [by right|by left].
    - by destruct (wants asked). }
  rewrite Hi. cbn [mbind result_bind]. apply returns_ret. cbn [work_plan work_requests work_chunks].
  assert (Hrow : ∀ k x, rows !! k = Some x → ∃ c, chunks !! k = Some c ∧ loaded s c x).
  { intros k x Hx. destruct (Forall2_lookup_r _ _ _ _ _ Hrows Hx) as (c & ? & ?). by exists c. }
  assert (Hfin : ∀ k x, (k, x) ∈ finals ↔ row_final x = true ∧ rows !! k = Some x).
  { intros k x. unfold finals. by rewrite list_elem_of_filter, elem_of_enumerate. }
  assert (Hrun : ∀ o, o ∈ chunks.*1 → o ∈ running (planner s)).
  { intros o (c & -> & Hin)%list_elem_of_fmap. by eapply Forall_forall in Hc as [? _]. }
  assert (Hreq : ∀ o, o ∈ (row_oid ∘ snd <$> finals) ↔ ∃ c x, o = c.1 ∧ c ∈ chunks ∧ loaded s c x ∧
      row_final x = true).
  { intros o. rewrite list_elem_of_fmap. split.
    - intros ([k x] & -> & [Hf Hx]%Hfin). destruct (Hrow k x Hx) as (c & Hck & Hl).
      exists c, x. split_and!; [|by eapply list_elem_of_lookup_2|done|done].
      cbn. by destruct (loaded_row s c x Hl) as (_ & _ & _ & _ & _ & -> & _).
    - intros (c & x & -> & [k Hck]%list_elem_of_lookup & Hl & Hf).
      destruct (Forall2_lookup_l _ _ _ _ _ Hrows Hck) as (x' & Hx' & Hl').
      exists (k, x'). cbn. destruct (loaded_row s c x Hl) as (_ & _ & _ & _ & _ & _ & _ & Hh & _ & _ & _ & F1),
        (loaded_row s c x' Hl') as (_ & _ & _ & _ & _ & -> & _ & Hh' & _ & _ & _ & F2).
      split; [done|]. apply Hfin. split; [|done].
      assert (row_request x' = row_request x) as E by congruence. apply F2. rewrite E. by apply F1. }
  split_and!.
  - split; [exact Hi| |exact L4|exact L8| | | |done].
    + cbn [i slots]. rewrite L3. apply slots_distinct; [apply (g_wf _ _ _ _ Hg)|done|done].
    + cbn [i kind seq_starts]. intros Hk Hres. apply Forall_fmap, Forall_lookup. intros j x Hx. cbn.
      destruct (Hrow j x Hx) as (e & He & r & f & -> & Hr & _).
      pose proof (Forall_lookup_1 _ _ _ _ (Hkd Hk Hres) He r Hr) as Hw. unfold row_start, row_end. lia.
    + cbn [i gen_counts]. apply Forall_replicate.
      assert (context s ≠ 0); [|lia]. intros E. destruct rows as [|x rows']; [done|].
      rewrite !fmap_cons in L4. apply Forall2_cons in L4 as [L4 _]. lia.
    + cbn [i sampled slots]. apply Forall_fmap, Forall_forall. intros [j x] [_ Hx]%Hfin. cbn.
      rewrite length_fmap. by eapply lookup_lt_Some.
  - split; cbn [work_plan work_requests work_chunks i sampled seq_starts seq_lens in_prompt_logprobs].
    + by rewrite !length_fmap.
    + intros o (c & x & -> & Hin & _)%Hreq. apply Hrun. by apply list_elem_of_fmap_2.
    + destruct (wants asked); [right|by left]. unfold asked. rewrite <- L2, !length_fmap. done.
    + intros k o a b Ho Ha Hb. change ((row_start <$> rows) !! k = Some a) in Ha.
      change ((row_end <$> rows) !! k = Some b) in Hb.
      rewrite list_lookup_fmap in Ho. rewrite list_lookup_fmap in Ha. rewrite list_lookup_fmap in Hb.
      apply fmap_Some in Ho as (c & Hck & ->). apply fmap_Some in Ha as (x & Hx & ->).
      rewrite Hx in Hb. injection Hb as <-. destruct (Hrow k x Hx) as (c' & Hck' & Hl).
      assert (c' = c) as -> by congruence.
      destruct (loaded_row s c x Hl) as (R1 & _ & _ & _ & _ & _ & _ & Rh & Rr & R10 & R11 & _).
      split; [done|]. eexists. split; [exact Rh|]. split; [lia|]. intros Hk. apply R11.
      destruct (row_final x) eqn:Ef; [|done]. exfalso. apply Hk. apply list_elem_of_fmap.
      exists (k, x). split; [done|]. by apply Hfin.
  - done.
  - intros o (c & x & -> & Hin & Hl & Hf)%Hreq. split; [by apply list_elem_of_fmap_2|].
    destruct (loaded_row s c x Hl) as (_ & _ & _ & _ & _ & _ & _ & Rh & _ & _ & _ & F).
    eexists. split; [exact Rh|]. by apply F.
  - intros o r (c & -> & Hin)%list_elem_of_fmap Hr Hp. apply Hreq.
    apply list_elem_of_lookup in Hin as [k Hck].
    destruct (Forall2_lookup_l _ _ _ _ _ Hrows Hck) as (x & Hx & Hl). exists c, x.
    destruct (loaded_row s c x Hl) as (_ & _ & _ & _ & _ & _ & _ & Rh & _ & _ & _ & F).
    split_and!; [done|by eapply list_elem_of_lookup_2|done|]. apply F. congruence.
Qed.

Definition pass_ok (resumes : bool) s (w : Work) : Prop :=
  fits (seats s) (context s) resumes (work_plan w) ∧ promised s w.

(** The passes of a group: each is acceptable, they sample for members of the
    group only, and for every one whose prompt ends in the step. *)
Record covers_group (resumes : bool) s (group : list nat) (ws : list Work) : Prop := {
  cg_ok : Forall (pass_ok resumes s) ws;
  cg_in : ∀ w o, w ∈ ws → o ∈ work_requests w ++ work_chunks w → o ∈ group;
  cg_done : ∀ w o r, w ∈ ws → o ∈ work_requests w → heap (planner s) !! o = Some r →
    Req.prefill_done r = true;
  cg_all : ∀ o r, o ∈ group → heap (planner s) !! o = Some r → Req.prefill_done r = true →
    ∃ w, w ∈ ws ∧ o ∈ work_requests w;
}.

Lemma covers_none resumes s : covers_group resumes s [] [].
Proof. split; [by constructor| | |]; intros ? ?; [| |]; by intros ?%elem_of_nil || (intros ? ?%elem_of_nil). Qed.

Lemma covers_app resumes s g1 g2 ws1 ws2 :
  covers_group resumes s g1 ws1 → covers_group resumes s g2 ws2 →
  covers_group resumes s (g1 ++ g2) (ws1 ++ ws2).
Proof.
  intros [A1 A2 A4 A3] [B1 B2 B4 B3]. split.
  - by apply Forall_app.
  - intros w o Hw Ho. apply elem_of_app. apply elem_of_app in Hw as [Hw|Hw]; [left|right]; eauto.
  - intros w o r [Hw|Hw]%elem_of_app; eauto.
  - intros o r [Ho|Ho]%elem_of_app Hr Hp;
      [destruct (A3 o r Ho Hr Hp) as (w & ? & ?)|destruct (B3 o r Ho Hr Hp) as (w & ? & ?)];
      exists w; rewrite elem_of_app; auto.
Qed.

Lemma covers_perm resumes s g1 g2 ws :
  (∀ o, o ∈ g1 ↔ o ∈ g2) → covers_group resumes s g1 ws → covers_group resumes s g2 ws.
Proof.
  intros Hg [A1 A2 A4 A3]. split; [done| |done|].
  - intros w o Hw Ho. apply Hg. eauto.
  - intros o r Ho. apply A3. by apply Hg.
Qed.

Lemma chunks_cover owed s resumes kd chunks :
  (kd = PREFILL → resumes = false → Forall (whole s) chunks) →
  good digest owed nobody s → Forall (chunk_ok s) chunks → NoDup chunks.*1 →
  returns (if decide (chunks = []) then Ok [] else w ← chunk_work kd chunks s; Ok [w])
    (covers_group resumes s chunks.*1).
Proof.
  intros Hkd Hg Hc Hnd. case_decide as Hne; [subst; apply returns_ret, covers_none|].
  step_with (chunk_work_Ok owed s resumes kd chunks Hkd Hg Hc Hnd Hne). intros w (W1 & W2 & W3 & W4 & W5).
  apply returns_ret. split.
  - by apply Forall_singleton.
  - intros w' o ->%list_elem_of_singleton [Ho|Ho]%elem_of_app; [by apply W4|by rewrite <- W3].
  - intros w' o r ->%list_elem_of_singleton Ho Hr. destruct (W4 o Ho) as (_ & r' & Hr' & ?). congruence.
  - intros o r Ho Hr Hp. exists w. split; [by left|]. by eapply W5.
Qed.

Lemma prefill_work_Ok owed s resumes group lens cmr :
  (is_Some cmr → resumes = true) →
  good digest owed nobody s → NoDup group → (∀ o, o ∈ group → o ∈ running (planner s)) →
  Forall2 (λ o c, ∃ r, heap (planner s) !! o = Some r ∧ 1 ≤ c ≤ Req.num_computed_tokens r) group lens →
  returns (prefill_work group lens cmr s) (covers_group resumes s group).
Proof.
  intros Hcmr Hg Hnd Hrun Hl. unfold prefill_work.
  pose proof (Forall2_length _ _ _ Hl) as Hlen. apply returns_guard; [by apply bool_decide_eq_true|].
  set (computed := λ o, from_option Req.num_computed_tokens 0 (heap (planner s) !! o)).
  assert (Hzip : Forall (λ c, chunk_ok s c ∧ c.2 ≤ computed c.1) (zip group lens)).
  { apply Forall_lookup. intros k [o c] (o' & c' & [= -> ->] & Ho & Hc)%lookup_zip_with_Some.
    destruct (Forall2_lookup_lr _ _ _ _ _ _ Hl Ho Hc) as (r & Hr & ?). unfold computed. cbn. rewrite Hr. cbn.
    split; [|lia]. split; [by eapply Hrun, list_elem_of_lookup_2|]. by exists r. }
  rewrite (rmap_Ok _ (λ c, (c, computed c.1))).
  2:{ intros c Hin. eapply Forall_forall in Hzip as [(_ & r & Hr & _) _]; [|exact Hin].
      rewrite (request_Ok _ _ _ Hr). unfold computed. by rewrite Hr. }
  cbn [mbind result_bind]. cbv zeta.
  rewrite !filter_tagged. cbn [fst snd].
  set (fresh := filter (λ c, computed c.1 = c.2) _). set (resumed := filter (λ c, c.2 < computed c.1) _).
  assert (Hfst : (zip group lens).*1 = group) by (apply fst_zip; lia).
  assert (Hsub : ∀ P `{!∀ e, Decision (P e)}, Forall (chunk_ok s) (filter P (zip group lens)) ∧
    NoDup (filter P (zip group lens)).*1).
  { intros P ?. split.
    { apply Forall_forall. intros c [_ Hin]%list_elem_of_filter. by eapply Forall_forall in Hzip as [? _]. }
    apply (sublist_NoDup _ group); [done|]. rewrite <- Hfst at 2. apply fmap_sublist, sublist_filter. }
  destruct (Hsub (λ c, computed c.1 = c.2) _) as [F1 F2].
  destruct (Hsub (λ c, c.2 < computed c.1) _) as [R1 R2].
  assert (Hfresh : Forall (whole s) fresh).
  { apply Forall_forall. intros c [Hc _]%list_elem_of_filter r Hr. unfold computed in Hc. by rewrite Hr in Hc. }
  step_with (chunks_cover owed s resumes PREFILL fresh (λ _ _, Hfresh) Hg F1 F2). intros first Hfirst.
  set (kd := match cmr with Some _ => _ | None => EXTEND end).
  assert (Hkd : kd = PREFILL → resumes = false → Forall (whole s) resumed).
  { unfold kd. destruct cmr; [|done]. intros _. by rewrite Hcmr. }
  step_with (chunks_cover owed s resumes kd resumed Hkd Hg R1 R2). intros later Hlater. apply returns_ret.
  eapply covers_perm; [|by apply covers_app]. intros o. rewrite elem_of_app, <- Hfst.
  unfold fresh, resumed. rewrite !list_elem_of_fmap. setoid_rewrite list_elem_of_filter.
  rewrite Forall_forall in Hzip. split.
  - intros [(c & ? & _ & ?)|(c & ? & _ & ?)]; by exists c.
  - intros (c & -> & Hin). destruct (Hzip c Hin) as [_ Hle].
    destruct (decide (computed c.1 = c.2)); [left|right]; exists c; (split; [done|]); split; done || lia.
Qed.

(** ** Decode passes *)

(** A request whose next token comes from its last one. *)
Definition decodable s (o : nat) : Prop :=
  o ∈ running (planner s) ∧ ∃ r f, heap (planner s) !! o = Some r ∧ fronts s !! o = Some f ∧
    Req.output_token_ids r ≠ [] ∧ Forall Chain.is_token (Req.output_token_ids r) ∧
    Req.seq_len r < context s.

Lemma decodable_good owed s o r :
  good digest owed nobody s → o ∈ running (planner s) → ¬ owed o →
  heap (planner s) !! o = Some r → Req.prefill_done r = true → decodable s o.
Proof.
  intros Hg Hin Ho Hr Hp. split; [done|].
  destruct (live_parts digest _ _ s o Hg (running_live _ _ Hin)) as (r' & f & d & Hr' & Hf & _).
  assert (r' = r) as -> by congruence. exists r, f. split_and!; [done|done| | |].
  - by apply (g_ready _ _ _ _ Hg o r).
  - destruct (q_tokens _ (wf_queues _ _ (g_wf _ _ _ _ Hg)) _ _ (running_live _ _ Hin) Hr) as [Ht _].
    by apply Forall_app in Ht as [_ ?].
  - destruct (g_room _ _ _ _ Hg _ _ (running_live _ _ Hin) Hr) as [H3 H4]. specialize (H4 (λ x, x)).
    unfold context. lia.
Qed.

Lemma last_item_Ok (l : list Z) : l ≠ [] → Forall Chain.is_token l →
  ∃ t, last_item l = Ok t ∧ Chain.is_token t.
Proof.
  intros Hl Ht. unfold last_item. destruct (last l) as [t|] eqn:E; [|by apply last_None in E].
  exists t. split; [done|]. apply last_Some in E as (l' & ->).
  apply Forall_app in Ht as [_ Ht]. by rewrite Forall_singleton in Ht.
Qed.

(** The seats of rows that are the objects' own. *)
Lemma rows_slots {A} s (ids : list nat) (rows : list A) (slot : A → option nat) :
  queues (planner s) → NoDup ids → (∀ o, o ∈ ids → o ∈ running (planner s)) →
  Forall2 (λ o x, slot x = slot_of (planner s) o) ids rows →
  ∃ sl, slot <$> rows = Some <$> sl ∧ NoDup sl ∧ Forall (λ k, k < seats s) sl.
Proof.
  intros Hq Hnd Hrun Hl. destruct (slots_distinct (planner s) ids Hq Hnd Hrun) as (sl & E & ? & ?).
  exists sl. split_and!; [|done|done]. rewrite <- E.
  clear -Hl. induction Hl as [|o x ids rows Hx _ IH]; [done|]. cbn. by rewrite Hx, IH.
Qed.

Lemma decode_work_Ok owed s resumes l :
  good digest owed nobody s → NoDup l → Forall (decodable s) l → l ≠ [] →
  returns (decode_work l false s) (λ w, pass_ok resumes s w ∧ work_requests w = l ∧ work_chunks w = []).
Proof.
  intros Hg Hnd Hl Hne. unfold decode_work.
  set (Q := λ o x, heap (planner s) !! o = Some x.1 ∧ fronts s !! o = Some x.2 ∧
    Req.output_token_ids x.1 ≠ [] ∧ Forall Chain.is_token (Req.output_token_ids x.1) ∧
    1 ≤ Req.seq_len x.1 < context s).
  destruct (returns_rmap (λ oid, r ← request oid s; f ← front oid s; Ok (r, f)) Q l) as (rows & -> & Hrows).
  { intros o Ho. eapply Forall_forall in Hl as (_ & r & f & Hr & Hf & H1 & H2 & H3); [|exact Ho].
    rewrite (request_Ok _ _ _ Hr). cbn [mbind result_bind]. rewrite (front_Ok _ _ _ Hf).
    apply returns_ret. split_and!; try done. cbn. unfold Req.seq_len.
    destruct (Req.output_token_ids r); [done|]. cbn. lia. }
  cbn [mbind result_bind]. cbv zeta.
  destruct (returns_rmap (λ '(r, _), last_item (Req.output_token_ids r)) (λ (x : Req.Request * Front LP) t,
    Chain.is_token t) rows) as (toks & -> & Htoks).
  { intros [r f] Hin. apply list_elem_of_lookup in Hin as [k Hk].
    destruct (Forall2_lookup_r _ _ _ _ _ Hrows Hk) as (o & _ & _ & _ & H1 & H2 & _).
    apply last_item_Ok; done. }
  cbn [mbind result_bind]. set (i := MkInput _ _ _ _ _ _ _ _ _ _ _ _).
  assert (Hlen : length rows = length l) by (symmetry; by eapply Forall2_length).
  pose proof (Forall2_length _ _ _ Htoks) as Hlt.
  assert (Hi : make_input i = Ok i).
  { apply make_input_Ok; cbn [i slots seq_starts seq_lens tokens sampled sampling gen_counts
      in_prompt_logprobs prompt_targets]; rewrite ?length_fmap, ?length_seq; auto.
    - intros E%fmap_nil_inv. rewrite E in Hlen. cbn in Hlen. by destruct l.
    - unfold chunk_lens, i. cbn [seq_starts seq_lens]. rewrite <- Hlt. clear. induction rows as [|[r f] rows IH]; [done|].
      cbn [length]. rewrite Nat2Z.inj_succ, IH. rewrite !fmap_cons. cbn [zip_with total foldr].
      unfold total. lia. }
  rewrite Hi. cbn [mbind result_bind]. apply returns_ret. split_and!; [|done|done]. split; cbn [work_plan].
  - split; [exact Hi| | | |done| | |done].
    + cbn [i slots]. apply (rows_slots s l rows); [apply (g_wf _ _ _ _ Hg)|done| |].
      * intros o Ho. by eapply Forall_forall in Hl as [? _].
      * eapply Forall2_impl; [exact Hrows|]. intros o [r f] (Hr & _). cbn. unfold slot_of. cbn in Hr. by rewrite Hr.
    + cbn [i seq_starts seq_lens]. clear -Hrows. induction Hrows as [|o [r f] l rows (_ & _ & _ & _ & H1) _ IH]; [done|].
      rewrite !fmap_cons. constructor; [|exact IH]. cbn in H1. lia.
    + cbn [i tokens]. clear -Htoks. by induction Htoks; constructor.
    + cbn [i gen_counts]. apply Forall_fmap, Forall_forall. intros [r f] Hin. cbn.
      apply list_elem_of_lookup in Hin as [j Hj]. destruct (Forall2_lookup_r _ _ _ _ _ Hrows Hj) as (o & _ & _ & _ & _ & _ & H5).
      cbn in H5. unfold Req.seq_len in H5. lia.
    + cbn [i sampled slots]. apply Forall_forall. intros j Hj%elem_of_seq. rewrite length_fmap. lia.
  - split; cbn [work_requests work_chunks work_plan i sampled in_prompt_logprobs].
    + by rewrite length_seq.
    + intros o Ho. by eapply Forall_forall in Hl as [? _].
    + by left.
    + intros k o a b Ho. done.
Qed.

(** ** Verification *)

(** A draft the planner found room for. *)
Definition draft_ok s (e : nat * list Z) : Prop :=
  decodable s e.1 ∧ Forall Chain.is_token e.2 ∧
  ∀ r, heap (planner s) !! e.1 = Some r → Req.seq_len r + length e.2 ≤ context s.

Lemma verify_input_Ok owed s resumes drafts :
  good digest owed nobody s → NoDup drafts.*1 → Forall (draft_ok s) drafts → drafts ≠ [] →
  returns (verify_input drafts s) (λ i, fits (seats s) (context s) resumes i ∧ return_logits i = true ∧
    length (tokens i) = sum_list ((λ e : nat * list Z, length e.2 + 1) <$> drafts)).
Proof.
  intros Hg Hnd Hd Hne. unfold verify_input.
  set (Q := λ (e : nat * list Z) (x : Req.Request * Z * list Z), heap (planner s) !! e.1 = Some x.1.1 ∧
    Chain.is_token x.1.2 ∧ x.2 = e.2 ∧ Forall Chain.is_token e.2 ∧ 1 ≤ Req.seq_len x.1.1 ∧
    Req.seq_len x.1.1 + length e.2 ≤ context s).
  destruct (returns_rmap (λ '(oid, ids), r ← request oid s; anchor ← last_item (Req.output_token_ids r);
                 Ok (r, anchor, ids)) Q drafts) as (rows & -> & Hrows).
  { intros [o ids] Hin. eapply Forall_forall in Hd as ((_ & r & f & Hr & Hf & H1 & H2 & H3) & Ht & Hl); [|exact Hin].
    cbn [fst snd] in *. rewrite (request_Ok _ _ _ Hr). cbn [mbind result_bind].
    destruct (last_item_Ok _ H1 H2) as (t & -> & Htok). cbn [mbind result_bind]. apply returns_ret.
    split_and!; try done; cbn; [|by apply Hl].
    unfold Req.seq_len. destruct (Req.output_token_ids r); [done|]. cbn. lia. }
  cbn [mbind result_bind]. set (i := MkInput _ _ _ _ _ _ _ _ _ _ _ _).
  assert (Hlen : length rows = length drafts) by (symmetry; by eapply Forall2_length).
  assert (Htoks : length (tokens i) = sum_list ((λ e : nat * list Z, length e.2 + 1) <$> drafts)).
  { cbn [i tokens]. clear -Hrows. induction Hrows as [|e [[r t] ids] drafts rows (_ & _ & E & _) _ IH]; [done|].
    rewrite !fmap_cons. cbn [concat]. rewrite length_app, IH. cbn in E. subst ids. cbn. lia. }
  assert (Hi : make_input i = Ok i).
  { apply make_input_Ok; cbn [i slots seq_starts seq_lens tokens sampled sampling gen_counts
      in_prompt_logprobs prompt_targets]; rewrite ?length_fmap; auto.
    - intros E%fmap_nil_inv. rewrite E in Hlen. cbn in Hlen. by destruct drafts.
    - unfold chunk_lens, i. cbn [seq_starts seq_lens]. apply total_rows; [|by rewrite !length_fmap].
      clear. induction rows as [|[[r t] ids] rows IH]; [constructor|]. rewrite !fmap_cons. cbn [zip_with].
      constructor; [|exact IH]. cbn. lia. }
  rewrite Hi. apply returns_ret. split_and!; [|done|exact Htoks]. split; [exact Hi| | | |done|by apply Forall_nil_2|by apply Forall_nil_2|done].
  - cbn [i slots]. apply (rows_slots s drafts.*1 rows); [apply (g_wf _ _ _ _ Hg)|done| |].
    + intros o (e & -> & He)%list_elem_of_fmap. by eapply Forall_forall in Hd as [[? _] _].
    + apply Forall2_fmap_l. eapply Forall2_impl; [exact Hrows|]. intros e [[r t] ids] (Hr & _). cbn in *.
      unfold slot_of. by rewrite Hr.
  - cbn [i seq_starts seq_lens]. clear -Hrows.
    induction Hrows as [|e [[r t] ids] drafts rows (_ & _ & E & _ & H1 & H2) _ IH]; [done|].
    rewrite !fmap_cons. constructor; [|exact IH]. cbn in *. subst ids. lia.
  - cbn [i tokens]. clear -Hrows.
    induction Hrows as [|e [[r t] ids] drafts rows (_ & Ht & E & H1 & _) _ IH]; [constructor|].
    rewrite fmap_cons. cbn [concat]. apply Forall_app. split; [|exact IH]. cbn in *. subst ids. by constructor.
Qed.
End Passes.
End Passes.
