(* ===== verification/Worker.v ===== *)
(** * The worker: what a pass answers ([ModelWorker] of worker.py)

    From the logits of a pass to its tokens and records: which rows are sampled,
    which prompt positions are scored, and how both are put together.  Running
    the kernels and drawing tokens is the [Device]; on any device that keeps
    [DeviceLaws] the worker keeps what the engine relies on ([ExecutorLaws]). *)

From S2P Require Export SchedulerPasses.

Module Worker.
Import Sched SchedInv Passes.

(** ** The device

    One row of logits is a [Row], one record an [LP].  The grid passes are
    [_prepare_grid], the block-table writes, [begin_prefill] and the forward:
    [prefill_last] gathers (or replays) the last column of each sequence,
    [prefill_all] gives every column.  [forward_rows] is the same of an extend or
    a decode pass, a row of logits per row submitted, filler included.  [draw] is
    the sampler with the penalty's window, the broadcast and the writes of the
    generated-token grid at (slot, column).  [score] and [describe] are one
    record: a row, the token at its position, the width of the top list. *)
Class Device (D Row LP : Type) := {
  prefill_last : ModelInput → D → result (list Row * D);
  prefill_all : ModelInput → D → result (list (list Row) * D);
  forward_rows : ModelInput → D → result (list Row * D);
  draw : list (option nat * Z) → list SamplingParams → list Row → D → result (list Z * D);
  score : Row → Z → Z → LP;
  describe : SamplingParams → Row → Z → Z → LP;
  best : Row → Z;
}.

Section Worker.
Context {D Row LP : Type} `{!Device D Row LP}.
Implicit Types (plan : ModelInput) (d : D).

(** ** Records (sampler.py) *)

(** [_to_records] over the rows of one pass. *)
Definition _to_records (ks : list (option Z)) (ids : list Z) (record : nat → Z → Z → result LP) :
    result (option (list (option LP))) :=
  if negb (wants ks) then Ok None
  else
    records ← rmap (λ '(row, k), match k with
      | None => Ok None
      | Some k => id ← item ids row; lp ← record row id k; Ok (Some lp)
      end) (zip (seq 0 (length ks)) ks);
    Ok (Some records).

(** [rows_logprobs]: a record per row of logits, scored on its target; the
    gather wants a row per target. *)
Definition rows_logprobs (rows : list Row) (targets : list Z) (k : Z) : result (list LP) :=
  _ ← rguard (bool_decide (length targets ≤ length rows)) RuntimeError;
  rmap (λ '(row, logits), id ← item targets row; Ok (score logits id k)) (zip (seq 0 (length rows)) rows).

(** [sample_batched_with_logprobs] *)
Definition sample_batched_with_logprobs (places : list (option nat * Z)) (params : list SamplingParams)
    (logits : list Row) d : result (list Z * option (list (option LP)) * D) :=
  '(ids, d) ← draw places params logits d;
  records ← _to_records (logprobs <$> params) ids (λ row id k,
    p ← item params row; l ← item logits row; Ok (describe p l id k));
  Ok (ids, records, d).

(** ** Picking rows *)

(** [_pick] *)
Definition _pick {A} (logits : list A) (rows : list nat) (total : nat) : result (option (list A)) :=
  if decide (rows = []) then Ok None
  else if decide (length rows = total) then Ok (Some logits)
  else picked ← rmap (item logits) rows; Ok (Some picked).

(** [list(itertools.accumulate(chunk_lens))] *)
Fixpoint accumulate (acc : Z) (l : list Z) : list Z :=
  match l with [] => [] | n :: l => (acc + n)%Z :: accumulate (acc + n) l end.

(** The index of a Python list; below zero it counts from the end. *)
Definition position {A} (l : list A) (z : Z) : nat := Z.to_nat (if (z <? 0)%Z then z + Z.of_nat (length l) else z)%Z.

(** The last row of the stretch of each sampled sequence. *)
Definition last_rows {A} plan (rows : list A) : result (list nat) :=
  rmap (λ index, end_ ← item (accumulate 0 (chunk_lens plan)) index; Ok (position rows (end_ - 1)))
    (sampled plan).

(** ** Prompt records ([_prompt_records])

    One entry per [prompt_logprobs] entry, [None] where not asked. *)
Fixpoint prompt_records_from plan (rows_at : nat → Z → Z → result (list Row)) (index : nat) (offset : Z)
    (asked : list (option Z)) : result (list (option (list LP))) :=
  match asked with
  | [] => Ok []
  | k :: asked =>
      chunk ← item (chunk_lens plan) index;
      entry ←
        match k with
        | None => Ok None
        | Some k =>
            let rows := if decide (index ∈ sampled plan) then (chunk - 1)%Z else chunk in
            if (rows <=? 0)%Z then Ok (Some [])
            else
              logits ← rows_at index offset rows;
              records ← rows_logprobs logits (Ngram.slice (prompt_targets plan) offset (offset + rows)) k;
              Ok (Some records)
        end;
      rest ← prompt_records_from plan rows_at (S index) (offset + chunk) asked;
      Ok (entry :: rest)
  end.

(** [logits[index, :rows]] of a grid, [logits[offset : offset + rows]] of rows. *)
Definition grid_rows_at (logits : list (list Row)) (index : nat) (offset rows : Z) : result (list Row) :=
  line ← item logits index; Ok (Ngram.slice line 0 rows).
Definition flat_rows_at (logits : list Row) (index : nat) (offset rows : Z) : result (list Row) :=
  Ok (Ngram.slice logits offset (offset + rows)).

Definition _prompt_records plan (rows_at : nat → Z → Z → result (list Row)) : result (list (option (list LP))) :=
  prompt_records_from plan rows_at 0 0 (in_prompt_logprobs plan).

(** ** Forwards

    The logits to sample from, [None] when nobody is sampled, and an entry of
    prompt records per sequence. *)
Definition nobody_asked plan : list (option (list LP)) := replicate (length (slots plan)) None.

Definition _forward_grid plan d : result (option (list Row) * list (option (list LP)) * D) :=
  let n := length (slots plan) in
  if negb (wants (in_prompt_logprobs plan)) then
    '(logits, d) ← prefill_last plan d;
    picked ← _pick logits (sampled plan) n; Ok (picked, nobody_asked plan, d)
  else
    '(logits, d) ← prefill_all plan d;
    prompt ← _prompt_records plan (grid_rows_at logits);
    gathered ← rmap (λ '(row, chunk), line ← item logits row; item line (position line (chunk - 1)))
      (zip (seq 0 n) (chunk_lens plan));
    picked ← _pick gathered (sampled plan) n; Ok (picked, prompt, d).

Definition _forward_extend plan d : result (option (list Row) * list (option (list LP)) * D) :=
  '(flat, d) ← forward_rows plan d;
  prompt ← (if wants (in_prompt_logprobs plan) then _prompt_records plan (flat_rows_at flat)
            else Ok (nobody_asked plan));
  if return_logits plan then Ok (Some (take (length (tokens plan)) flat), prompt, d)
  else
    rows ← last_rows plan flat;
    picked ← _pick flat rows (length flat); Ok (picked, prompt, d).

Definition _forward_decode plan d : result (option (list Row) * list (option (list LP)) * D) :=
  let rows := length (slots plan) in
  '(logits, d) ← forward_rows plan d;
  picked ← _pick (take rows logits) (sampled plan) rows; Ok (picked, nobody_asked plan, d).

Definition _forward plan d : result (option (list Row) * list (option (list LP)) * D) :=
  match kind plan with
  | PREFILL => _forward_grid plan d
  | EXTEND => _forward_extend plan d
  | DECODE => _forward_decode plan d
  end.

(** ** Sampling *)

Definition _sample plan (logits : list Row) d : result (list Z * option (list (option LP)) * D) :=
  if decide (sampled plan = []) then Ok ([], None, d)
  else
    _ ← rguard (bool_decide (sampling plan ≠ [])) ValueError;
    seats ← rmap (item (slots plan)) (sampled plan);
    sample_batched_with_logprobs (zip seats (gen_counts plan)) (sampling plan) logits d.

(** ** One pass *)

Definition _execute_inner plan d :
    result (list Z * option (PassLogprobs LP) * option (list Row) * D) :=
  '(logits, prompt, d) ← _forward plan d;
  let all_logits := if return_logits plan then logits else None in
  '(tokens, sampled_records, d) ←
    match logits with
    | None => Ok ([], None, d)
    | Some logits =>
        if return_logits plan then
          rows ← last_rows plan logits;
          sample_logits ← rmap (item logits) rows;
          _sample plan sample_logits d
        else _sample plan logits d
    end;
  Ok (tokens,
      if negb (any_records prompt) && bool_decide (sampled_records = @None (list (option LP))) then None
      else Some (MkLogprobs (default [] sampled_records) prompt),
      all_logits, d).
End Worker.

(** The worker as the engine's executor. *)
#[global] Instance worker_executor (D Row LP : Type) `{!Device D Row LP} : Executor D LP Row := {
  execute i d := '(tokens, records, _, d) ← _execute_inner i d; Ok (tokens, records, d);
  execute_verify i d := '(_, _, logits, d) ← _execute_inner i d; Ok (logits, d);
  argmax := best;
}.

(** ** What the device does *)

Class DeviceLaws (D Row LP : Type) `{!Device D Row LP} (seats context : nat) (resumes : bool) : Prop := {
  prefill_last_ok : ∀ i (d : D), fits seats context resumes i → kind i = PREFILL →
    returns (prefill_last i d) (λ '(rows, _), length rows = length (slots i));
  prefill_all_ok : ∀ i (d : D), fits seats context resumes i → kind i = PREFILL →
    returns (prefill_all i d) (λ '(grid, _), length grid = length (slots i) ∧
      ∀ line chunk, line ∈ grid → chunk ∈ chunk_lens i → (chunk ≤ Z.of_nat (length line))%Z);
  forward_rows_ok : ∀ i (d : D), fits seats context resumes i → kind i ≠ PREFILL →
    returns (forward_rows i d) (λ '(rows, _), length (tokens i) ≤ length rows);
  draw_ok : ∀ places params rows (d : D), length places = length params → length rows = length params →
    Forall (λ p, (∃ s, p.1 = Some s ∧ s < seats) ∧ (0 ≤ p.2 < Z.of_nat context)%Z) places →
    returns (draw places params rows d) (λ '(ids, _), length ids = length rows ∧ Forall Chain.is_token ids);
  best_token : ∀ row, Chain.is_token (best row);
}.

(** ** The shapes *)

Section Laws.
Context {D Row LP : Type} `{!Device D Row LP} (k c : nat) (resumes : bool) `{!DeviceLaws D Row LP k c resumes}.
Implicit Types (plan : ModelInput) (d : D).

Lemma rows_logprobs_Ok (rows : list Row) targets top :
  length targets = length rows → returns (rows_logprobs rows targets top) (λ l, length l = length rows).
Proof.
  intros Hl. unfold rows_logprobs. apply returns_guard; [apply bool_decide_eq_true; lia|].
  eapply returns_mono.
  - apply (returns_rmap _ (λ _ _, True)). intros [j l] Hj%elem_of_enumerate.
    destruct (lookup_lt_is_Some_2 targets j) as [t Ht]; [apply lookup_lt_Some in Hj; lia|].
    rewrite (item_Ok _ _ _ Ht). by apply returns_ret.
  - intros l Hf. apply Forall2_length in Hf. rewrite <- Hf, length_zip, length_seq. lia.
Qed.

Lemma to_records_Ok ks ids record :
  length ks ≤ length ids → (∀ j id top, j < length ks → ids !! j = Some id → returns (record j id top) (λ _ : LP, True)) →
  returns (_to_records ks ids record) (λ r, ∀ l, r = Some l → length l = length ks).
Proof.
  intros Hl Hrec. unfold _to_records. destruct (wants ks); [|by apply returns_ret]. cbn [negb].
  apply returns_bind. eapply returns_mono.
  - apply (returns_rmap _ (λ _ _, True)). intros [j [top|]] Hj%elem_of_enumerate; [|by apply returns_ret].
    apply lookup_lt_Some in Hj. destruct (lookup_lt_is_Some_2 ids j) as [id Hid]; [lia|].
    rewrite (item_Ok _ _ _ Hid). cbn [mbind result_bind]. step_with (Hrec j id top Hj Hid). intros l _.
    by apply returns_ret.
  - intros l Hf. apply returns_ret. intros ? [= <-]. apply Forall2_length in Hf.
    rewrite <- Hf, length_zip, length_seq. lia.
Qed.

Lemma pick_Ok {A} (logits : list A) rows total :
  (length rows = total → length logits = total) → Forall (λ j, j < length logits) rows →
  returns (_pick logits rows total) (λ r, match r with
    | Some picked => length picked = length rows ∧ rows ≠ []
    | None => rows = [] end).
Proof.
  intros Hall Hin. unfold _pick. case_decide; [by apply returns_ret|]. case_decide as Ht.
  { apply returns_ret. split; [rewrite Ht; auto|done]. }
  apply returns_bind. eapply returns_mono.
  - apply (returns_rmap _ (λ _ _, True)). intros j Hj. eapply Forall_forall in Hin; [|exact Hj].
    destruct (lookup_lt_is_Some_2 logits j Hin) as [x Hx]. rewrite (item_Ok _ _ _ Hx). by apply returns_ret.
  - intros l Hf. apply returns_ret. split; [|done]. symmetry. by eapply Forall2_length.
Qed.

(** A fitting pass, column by column. *)
Record columns plan (n : nat) : Prop := {
  col_slots : length (slots plan) = n;
  col_chunks : length (chunk_lens plan) = n;
  col_positive : Forall (λ x, 0 < x)%Z (chunk_lens plan);
  col_tokens : Z.of_nat (length (tokens plan)) = total (chunk_lens plan);
  col_asked : in_prompt_logprobs plan = [] ∨ length (in_prompt_logprobs plan) = n;
  col_targets : wants (in_prompt_logprobs plan) = true → length (prompt_targets plan) = length (tokens plan);
  col_sampling : length (sampled plan) = length (sampling plan) ∧ length (sampling plan) = length (gen_counts plan);
  col_some : slots plan ≠ [];
}.

Lemma fits_columns plan : fits k c resumes plan → columns plan (length (slots plan)).
Proof.
  intros Hf. pose proof (fit_input _ _ _ _ Hf) as E. unfold make_input in E.
  repeat apply bind_Ok in E as (? & ? & E).
  repeat match goal with H : rguard (bool_decide ?P) _ = Ok _ |- _ =>
    unfold rguard in H; destruct (bool_decide_reflect P); [clear H|discriminate H] end.
  repeat match goal with H : _ ∧ _ |- _ => destruct H end.
  assert (Hw : wants (in_prompt_logprobs plan) = true → prompt_targets plan ≠ []).
  { intros Hw Ht. by rewrite Hw, Ht, bool_decide_eq_true_2 in *. }
  split; try done.
  - unfold chunk_lens. rewrite length_zip_with. lia.
  - pose proof (fit_spans _ _ _ _ Hf) as Hs. unfold chunk_lens. clear -Hs.
    induction Hs as [|a b l1 l2 Hab _ IH]; [constructor|]. cbn [zip_with]. constructor; [lia|exact IH].
  - intros Hx%Hw. match goal with H : prompt_targets plan = [] ∨ _ |- _ => by destruct H end.
Qed.

(** A slice between non-negative ends. *)
Lemma slice_ends {A} (l : list A) a b : (0 ≤ a)%Z → (0 ≤ b)%Z →
  Ngram.slice l a b = Ngram.slice l (Z.of_nat (Z.to_nat a)) (Z.of_nat (Z.to_nat b)).
Proof. intros Ha Hb. by rewrite !Z2Nat.id. Qed.

Lemma total_cons x l : total (x :: l) = (x + total l)%Z.
Proof. done. Qed.
Lemma total_app l1 l2 : total (l1 ++ l2) = (total l1 + total l2)%Z.
Proof. induction l1 as [|x l1 IH]; [done|]. cbn [app]. rewrite !total_cons, IH. lia. Qed.
Lemma total_nonneg l : Forall (λ x, 0 < x)%Z l → (0 ≤ total l)%Z.
Proof. induction 1; [done|]. rewrite total_cons. lia. Qed.

(** A pass that fits feeds at least a token. *)
Lemma fits_feeds plan : fits k c resumes plan → tokens plan ≠ [].
Proof.
  intros Hf E. destruct (fits_columns plan Hf) as [_ Hl Hp Ht _ _ _ Hne]. rewrite E in Ht.
  destruct (chunk_lens plan) as [|x l]; [by apply Hne, nil_length_inv|].
  apply Forall_cons in Hp as [Hx Hp]. rewrite total_cons in Ht. pose proof (total_nonneg _ Hp). cbn in Ht. lia.
Qed.

Lemma total_take j x l : Forall (λ x, 0 < x)%Z l → l !! j = Some x →
  (0 ≤ total (take j l) ∧ total (take j l) + x ≤ total l)%Z ∧ total (take (S j) l) = (total (take j l) + x)%Z.
Proof.
  intros Hp Hx. rewrite (take_S_r l j x Hx), total_app, total_cons.
  rewrite <- (take_drop_middle l j x Hx) at 3. rewrite total_app, total_cons.
  pose proof (total_nonneg _ (Forall_take _ j _ Hp)). pose proof (total_nonneg _ (Forall_drop _ (S j) _ Hp)).
  change (total []) with 0%Z. lia.
Qed.

Lemma accumulate_lookup l j x acc : l !! j = Some x →
  accumulate acc l !! j = Some (acc + total (take (S j) l))%Z.
Proof.
  revert j acc. induction l as [|y l IH]; intros j acc Hx; [done|]. destruct j as [|j].
  - rewrite take_S_r with (x := y), take_0 by done. unfold total. cbn. f_equal. lia.
  - cbn [accumulate lookup list_lookup]. change (accumulate (acc + y) l !! j = Some (acc + total (take (S (S j)) (y :: l)))%Z).
    rewrite (IH j (acc + y)%Z Hx). rewrite (firstn_cons (S j) y l), total_cons. f_equal. lia.
Qed.

(** ** Prompt records *)

Section Scoring.
Context (plan : ModelInput) (Hf : fits k c resumes plan) (Hw : wants (in_prompt_logprobs plan) = true).
Context (rows_at : nat → Z → Z → result (list Row)).
Context (Hrows : ∀ j chunk rows, chunk_lens plan !! j = Some chunk → (0 < rows ≤ chunk)%Z →
  returns (rows_at j (total (take j (chunk_lens plan))) rows) (λ l, Z.of_nat (length l) = rows)).

Lemma targets_length j chunk rows : chunk_lens plan !! j = Some chunk → (0 < rows ≤ chunk)%Z →
  let offset := total (take j (chunk_lens plan)) in
  Z.of_nat (length (Ngram.slice (prompt_targets plan) offset (offset + rows))) = rows.
Proof.
  intros Hc Hr offset. destruct (fits_columns plan Hf) as [_ _ Hp Ht _ Hg _].
  destruct (total_take j chunk _ Hp Hc) as [Hb _]. fold offset in Hb.
  specialize (Hg Hw). rewrite <- Ht, <- Hg in Hb.
  rewrite (slice_ends (prompt_targets plan) offset (offset + rows)) by lia.
  rewrite slice_length by lia. lia.
Qed.

(** One entry per entry asked for, and no more records than rows of the chunk,
    the sampled one excluded. *)
Lemma prompt_records_Ok asked : ∀ index,
  index + length asked ≤ length (chunk_lens plan) →
  returns (prompt_records_from (LP := LP) plan rows_at index (total (take index (chunk_lens plan))) asked)
    (λ out, length out = length asked ∧ ∀ j records, out !! j = Some (Some records) →
      ∃ top chunk, asked !! j = Some (Some top) ∧ chunk_lens plan !! (index + j)%nat = Some chunk ∧
        (Z.of_nat (length records) ≤ if decide ((index + j)%nat ∈ sampled plan) then chunk - 1 else chunk)%Z).
Proof.
  induction asked as [|a asked IH]; intros index Hi; cbn [prompt_records_from]; [by apply returns_ret|].
  cbn [length] in Hi. destruct (lookup_lt_is_Some_2 (chunk_lens plan) index) as [chunk Hc]; [lia|].
  rewrite (item_Ok _ _ _ Hc). cbn [mbind result_bind].
  destruct (fits_columns plan Hf) as [_ _ Hp _ _ _ _]. pose proof (Forall_lookup_1 _ _ _ _ Hp Hc) as Hpos. cbn in Hpos.
  destruct (total_take index chunk _ Hp Hc) as [_ Hnext]. rewrite <- Hnext.
  set (bound := if decide (index ∈ sampled plan) then (chunk - 1)%Z else chunk).
  apply returns_bind. apply (returns_mono _ (λ entry, ∀ records, entry = Some records →
    is_Some a ∧ (Z.of_nat (length records) ≤ bound)%Z)).
  - destruct a as [top|]; [|by apply returns_ret]. case_match eqn:Eb.
    + apply returns_ret. intros ? [= <-]. split; [done|]. unfold bound. case_decide; cbn; lia.
    + apply Z.leb_gt in Eb. assert (Hb : (0 < bound ≤ chunk)%Z) by (unfold bound in *; case_decide; lia).
      step_with (Hrows index chunk bound Hc Hb). intros logits Hl.
      step_with (rows_logprobs_Ok logits (Ngram.slice (prompt_targets plan) _ (_ + bound)) top
        ltac:(apply Nat2Z.inj; rewrite Hl; by apply (targets_length index chunk))).
      intros records Hrec. apply returns_ret. intros ? [= <-]. split; [done|].
      cbv beta in *. lia.
  - intros entry He. step_with (IH (S index) ltac:(lia)). intros rest [Hl Hrest]. apply returns_ret.
    split; [cbn; lia|]. intros [|j] records Hj.
    + injection Hj as ->. destruct (He records eq_refl) as [[top ->] Hle]. exists top, chunk.
      rewrite Nat.add_0_r. by split_and!.
    + destruct (Hrest j records Hj) as (top & ch & H1 & H2 & H3). exists top, ch.
      rewrite <- Nat.add_succ_comm. by split_and!.
Qed.
End Scoring.

(** ** One pass *)

(** What a forward hands to the sampler. *)
Record forwarded plan (logits : option (list Row)) (prompt : list (option (list LP))) : Prop := {
  fw_logits : return_logits plan = false →
    match logits with Some l => length l = length (sampled plan) ∧ sampled plan ≠ [] | None => sampled plan = [] end;
  fw_all : return_logits plan = true → ∃ l, logits = Some l ∧ length l = length (tokens plan);
  fw_prompt : length prompt = length (slots plan);
  fw_records : ∀ j records, prompt !! j = Some (Some records) →
    ∃ top chunk, in_prompt_logprobs plan !! j = Some (Some top) ∧ chunk_lens plan !! j = Some chunk ∧
      (Z.of_nat (length records) ≤ if decide (j ∈ sampled plan) then chunk - 1 else chunk)%Z;
}.

(** The prompt half of it. *)
Definition prompt_ok plan (prompt : list (option (list LP))) : Prop :=
  length prompt = length (slots plan) ∧ ∀ j records, prompt !! j = Some (Some records) →
    ∃ top chunk, in_prompt_logprobs plan !! j = Some (Some top) ∧ chunk_lens plan !! j = Some chunk ∧
      (Z.of_nat (length records) ≤ if decide (j ∈ sampled plan) then chunk - 1 else chunk)%Z.

Lemma nobody_asked_ok plan : prompt_ok plan (nobody_asked plan).
Proof.
  unfold prompt_ok, nobody_asked. rewrite length_replicate. split; [done|].
  by intros j records [? _]%lookup_replicate.
Qed.

Lemma scored_ok plan rows_at : fits k c resumes plan → wants (in_prompt_logprobs plan) = true →
  (∀ j chunk rows, chunk_lens plan !! j = Some chunk → (0 < rows ≤ chunk)%Z →
    returns (rows_at j (total (take j (chunk_lens plan))) rows) (λ l : list Row, Z.of_nat (length l) = rows)) →
  returns (_prompt_records plan rows_at) (prompt_ok plan).
Proof.
  intros Hf Hw Hrows. destruct (fits_columns plan Hf) as [_ Hch _ _ Has _ _].
  destruct Has as [Has|Has]; [by rewrite Has in Hw|].
  eapply returns_mono; [exact (prompt_records_Ok plan Hf Hw rows_at Hrows (in_prompt_logprobs plan) 0 ltac:(lia))|].
  intros out [Hl Ho]. split; [lia|exact Ho].
Qed.

(** A pass that asks for all logits is an extend pass. *)
Lemma plain_kind plan : fits k c resumes plan → kind plan ≠ EXTEND → return_logits plan = false.
Proof.
  intros Hf Hk. destruct (return_logits plan) eqn:E; [|done]. by destruct (fit_verify _ _ _ _ Hf E).
Qed.

Lemma slots_tokens plan : fits k c resumes plan → length (slots plan) ≤ length (tokens plan).
Proof.
  intros Hf. destruct (fits_columns plan Hf) as [_ Hn Hp Ht _ _ _]. apply Nat2Z.inj_le. rewrite Ht, <- Hn.
  clear -Hp. induction Hp as [|x l Hx _ IH]; [done|]. rewrite total_cons. cbn [length]. lia.
Qed.

(** Logits over all sequences, narrowed to the sampled ones. *)
Lemma forwarded_plain plan logits prompt : fits k c resumes plan → kind plan ≠ EXTEND →
  length logits = length (slots plan) → prompt_ok plan prompt →
  returns (_pick logits (sampled plan) (length (slots plan))) (λ picked, forwarded plan picked prompt).
Proof.
  intros Hf Hk Hl [Hp1 Hp2]. eapply returns_mono.
  { apply (pick_Ok logits (sampled plan) (length (slots plan))); [done|]. rewrite Hl. apply (fit_sampled _ _ _ _ Hf). }
  intros picked Hpick. split; [|rewrite (plain_kind plan Hf Hk); done|done|done]. intros _. by destruct picked.
Qed.

Lemma forward_grid_Ok plan d : fits k c resumes plan → kind plan = PREFILL →
  returns (_forward_grid plan d) (λ '(logits, prompt, _), forwarded plan logits prompt).
Proof.
  intros Hf Hk. assert (Hke : kind plan ≠ EXTEND) by (by rewrite Hk). unfold _forward_grid. cbv zeta.
  destruct (wants (in_prompt_logprobs plan)) eqn:Hw; cbn [negb].
  - step_with (prefill_all_ok plan d Hf Hk). intros [grid d'] [Hg Hline].
    destruct (fits_columns plan Hf) as [_ Hch Hp _ _ _ _].
    assert (Hlook : ∀ j chunk, chunk_lens plan !! j = Some chunk →
      ∃ line, grid !! j = Some line ∧ (chunk ≤ Z.of_nat (length line))%Z).
    { intros j chunk Hc. destruct (lookup_lt_is_Some_2 grid j) as [line Hl]; [apply lookup_lt_Some in Hc; lia|].
      exists line. split; [done|]. by apply Hline; eapply list_elem_of_lookup_2. }
    step_with (scored_ok plan (grid_rows_at grid) Hf Hw ltac:(intros j chunk rows Hc Hr;
      destruct (Hlook j chunk Hc) as (line & Hl & Hle); unfold grid_rows_at; rewrite (item_Ok _ _ _ Hl);
      apply returns_ret; rewrite slice_ends, slice_length by lia; lia)).
    intros prompt Hprompt. rewrite <- Hch. apply returns_bind. eapply returns_mono.
    { apply (returns_rmap _ (λ _ _, True)). intros [j chunk] Hc%elem_of_enumerate.
      destruct (Hlook j chunk Hc) as (line & Hl & Hle). rewrite (item_Ok _ _ _ Hl). cbn [mbind result_bind].
      pose proof (Forall_lookup_1 _ _ _ _ Hp Hc) as Hpos. cbn in Hpos. unfold position.
      rewrite (proj2 (Z.ltb_ge _ _)) by lia.
      destruct (lookup_lt_is_Some_2 line (Z.to_nat (chunk - 1))) as [x Hx]; [lia|].
      rewrite (item_Ok _ _ _ Hx). by apply returns_ret. }
    intros gathered Hgl%Forall2_length. rewrite length_zip, length_seq in Hgl. rewrite Hch.
    step_with (forwarded_plain plan gathered prompt Hf Hke ltac:(lia) Hprompt). intros picked Hpick.
    by apply returns_ret.
  - step_with (prefill_last_ok plan d Hf Hk). intros [logits d'] Hl.
    step_with (forwarded_plain plan logits _ Hf Hke Hl (nobody_asked_ok plan)). intros picked Hpick. by apply returns_ret.
Qed.

Lemma forward_decode_Ok plan d : fits k c resumes plan → kind plan = DECODE →
  returns (_forward_decode plan d) (λ '(logits, prompt, _), forwarded plan logits prompt).
Proof.
  intros Hf Hk. unfold _forward_decode. cbv zeta. pose proof (slots_tokens plan Hf) as Hst.
  step_with (forward_rows_ok plan d Hf ltac:(by rewrite Hk)). intros [flat d'] Hl.
  step_with (forwarded_plain plan (take (length (slots plan)) flat) _ Hf ltac:(by rewrite Hk)
    ltac:(rewrite length_take; lia) (nobody_asked_ok plan)).
  intros picked Hpick. by apply returns_ret.
Qed.

(** The last row of every stretch is a row of the pass. *)
Lemma last_rows_Ok {A} plan (rows : list A) : fits k c resumes plan → length (tokens plan) ≤ length rows →
  returns (last_rows plan rows) (λ l, length l = length (sampled plan) ∧ Forall (λ j, j < length rows) l).
Proof.
  intros Hf Hl. destruct (fits_columns plan Hf) as [_ Hn Hp Ht _ _ _]. unfold last_rows.
  eapply returns_mono.
  { apply (returns_rmap _ (λ _ j, j < length rows)). intros index Hin.
    pose proof (proj1 (Forall_forall _ _) (fit_sampled _ _ _ _ Hf) index Hin) as Hi. cbn in Hi.
    destruct (lookup_lt_is_Some_2 (chunk_lens plan) index) as [x Hx]; [lia|].
    rewrite (item_Ok _ _ _ (accumulate_lookup _ _ _ 0 Hx)). cbn [mbind result_bind]. apply returns_ret.
    pose proof (Forall_lookup_1 _ _ _ _ Hp Hx) as Hpos. cbn in Hpos.
    destruct (total_take index x _ Hp Hx) as [Hb ->]. unfold position. rewrite (proj2 (Z.ltb_ge _ _)) by lia. lia. }
  intros l Hall. split; [symmetry; by eapply Forall2_length|]. apply Forall_forall. intros j Hj.
  apply list_elem_of_lookup in Hj as [i Hi]. by destruct (Forall2_lookup_r _ _ _ _ _ Hall Hi) as (? & _ & ?).
Qed.

Lemma forward_extend_Ok plan d : fits k c resumes plan → kind plan = EXTEND →
  returns (_forward_extend plan d) (λ '(logits, prompt, _), forwarded plan logits prompt).
Proof.
  intros Hf Hk. unfold _forward_extend.
  step_with (forward_rows_ok plan d Hf ltac:(by rewrite Hk)). intros [flat d'] Hl.
  destruct (fits_columns plan Hf) as [_ _ Hp Ht _ _ _].
  assert (Hprompt : returns (if wants (in_prompt_logprobs plan) then _prompt_records plan (flat_rows_at flat)
    else Ok (nobody_asked plan)) (prompt_ok plan)).
  { destruct (wants (in_prompt_logprobs plan)) eqn:Hw; [|apply returns_ret, nobody_asked_ok].
    apply scored_ok; [done|done|]. intros j chunk rows Hc Hr. unfold flat_rows_at. apply returns_ret.
    destruct (total_take j chunk _ Hp Hc) as [Hb _]. rewrite slice_ends, slice_length by lia. lia. }
  step_with Hprompt. intros prompt [Hp1 Hp2]. destruct (return_logits plan) eqn:Er.
  - apply returns_ret. split; [congruence| |done|done]. intros _. eexists. split; [done|]. rewrite length_take. lia.
  - step_with (last_rows_Ok plan flat Hf Hl). intros rows [Hr1 Hr2].
    step_with (pick_Ok flat rows (length flat) (λ _, eq_refl) Hr2). intros picked Hpick. apply returns_ret.
    split; [|congruence|done|done]. intros _. destruct picked as [l|].
    + destruct Hpick as [-> Hne]. split; [done|]. intros E. rewrite E in Hr1. by destruct rows.
    + rewrite Hpick in Hr1. by destruct (sampled plan).
Qed.

Lemma forward_Ok plan d : fits k c resumes plan →
  returns (_forward plan d) (λ '(logits, prompt, _), forwarded plan logits prompt).
Proof.
  intros Hf. unfold _forward. destruct (kind plan) eqn:Hk.
  - by apply forward_grid_Ok.
  - by apply forward_extend_Ok.
  - by apply forward_decode_Ok.
Qed.

Lemma sample_Ok plan logits d : fits k c resumes plan → length logits = length (sampled plan) →
  returns (_sample plan logits d) (λ '(toks, records, _), length toks = length (sampled plan) ∧
    Forall Chain.is_token toks ∧ ∀ l, records = Some l → length l = length toks).
Proof.
  intros Hf Hl. unfold _sample. case_decide as Hs.
  { apply returns_ret. rewrite Hs. split_and!; [done|constructor|done]. }
  destruct (fits_columns plan Hf) as [_ _ _ _ _ _ [Hs1 Hs2]].
  apply returns_guard. { apply bool_decide_eq_true. intros E. rewrite E in Hs1. by destruct (sampled plan). }
  destruct (fit_slots _ _ _ _ Hf) as (sl & Esl & _ & Hsl).
  apply returns_bind. eapply returns_mono.
  { apply (returns_rmap _ (λ _ o, ∃ x, o = Some x ∧ x < k)). intros j Hj.
    pose proof (proj1 (Forall_forall _ _) (fit_sampled _ _ _ _ Hf) j Hj) as Hlt. cbn in Hlt.
    rewrite Esl, length_fmap in Hlt. destruct (lookup_lt_is_Some_2 sl j Hlt) as [x Hx].
    rewrite (item_Ok (slots plan) j (Some x)) by (by rewrite Esl, list_lookup_fmap, Hx).
    apply returns_ret. exists x. split; [done|]. by apply (Forall_lookup_1 _ _ _ _ Hsl Hx). }
  intros places Hpl. pose proof (Forall2_length _ _ _ Hpl) as Hlp. unfold sample_batched_with_logprobs.
  step_with (draw_ok (zip places (gen_counts plan)) (sampling plan) logits d
    ltac:(rewrite length_zip; lia) ltac:(lia) ltac:(apply Forall_lookup; intros i [p n] (p' & n' & [= -> ->] & Hp & Hn)%lookup_zip_with_Some;
      destruct (Forall2_lookup_r _ _ _ _ _ Hpl Hp) as (? & _ & ?); split; [done|];
      by apply (Forall_lookup_1 _ _ _ _ (fit_counts _ _ _ _ Hf) Hn))).
  intros [ids d'] [Hi1 Hi2].
  step_with (to_records_Ok (logprobs <$> sampling plan) ids (λ row id k0,
    p ← item (sampling plan) row; l ← item logits row; Ok (describe p l id k0) : result LP)
    ltac:(rewrite length_fmap; lia) ltac:(intros j id top Hj _; rewrite length_fmap in Hj;
      destruct (lookup_lt_is_Some_2 (sampling plan) j Hj) as [p Hp]; rewrite (item_Ok _ _ _ Hp); cbn [mbind result_bind];
      destruct (lookup_lt_is_Some_2 logits j) as [x Hx]; [lia|]; rewrite (item_Ok _ _ _ Hx); by apply returns_ret)).
  intros records Hrec. apply returns_ret. split_and!; [lia|done|]. intros l Hr. rewrite (Hrec l Hr), length_fmap. lia.
Qed.

(** A fitting pass runs and answers what the engine relies on, with all its
    logits when they were asked for. *)
Lemma execute_inner_Ok plan d : fits k c resumes plan →
  returns (_execute_inner plan d) (λ '(toks, lps, logits, _), answers plan toks lps ∧
    ∀ rows, logits = Some rows → length rows = length (tokens plan)).
Proof.
  intros Hf. unfold _execute_inner. step_with (forward_Ok plan d Hf). intros [[logits prompt] d1] [F1 F2 F3 F4].
  cbv zeta. apply returns_bind. apply (returns_mono _ (λ '(toks, records, _), length toks = length (sampled plan) ∧
    Forall Chain.is_token toks ∧ ∀ l : list (option LP), records = Some l → length l = length toks)).
  - destruct (return_logits plan) eqn:Er.
    + destruct (F2 eq_refl) as (l & -> & Hl). step_with (last_rows_Ok plan l Hf ltac:(lia)). intros rows [Hr1 Hr2].
      apply returns_bind. eapply returns_mono.
      { apply (returns_rmap _ (λ _ _, True)). intros j Hj. eapply Forall_forall in Hr2; [|exact Hj].
        destruct (lookup_lt_is_Some_2 l j Hr2) as [x Hx]. rewrite (item_Ok _ _ _ Hx). by apply returns_ret. }
      intros picked Hp%Forall2_length. apply sample_Ok; [done|lia].
    + specialize (F1 eq_refl). destruct logits as [l|]; [apply sample_Ok; [done|by destruct F1]|].
      apply returns_ret. rewrite F1. split_and!; [done|constructor|done].
  - intros [[toks records] d2] (H1 & H2 & H3). apply returns_ret. split.
    + assert (Hlps : ∀ l, (if negb (any_records prompt) && bool_decide (records = None) then None
        else Some (MkLogprobs (default [] records) prompt)) = Some l → l = MkLogprobs (default [] records) prompt)
        by (intros l; destruct (_ && _); congruence).
      split; [done|done| | | |].
      * intros l ->%Hlps. destruct records as [l|]; cbn; [right; by apply H3|by left].
      * intros l ->%Hlps. by right.
      * intros l j rec ->%Hlps Hj. destruct (F4 j rec Hj) as (top & _ & Ht & _). by exists top.
      * intros l j rec n ->%Hlps Hj Hn. destruct (F4 j rec Hj) as (_ & chunk & _ & Hc & Hle).
        rewrite Hn in Hc. by injection Hc as <-.
    + intros rows. destruct (return_logits plan); [|done]. destruct (F2 eq_refl) as (l & -> & Hl). by intros [= <-].
Qed.

End Laws.

(** The worker keeps the engine's side of the interface. *)
#[global] Instance worker_laws (D Row LP : Type) `{!Device D Row LP} k c resumes `{!DeviceLaws D Row LP k c resumes} :
  ExecutorLaws D LP Row k c resumes.
Proof.
  split.
  - intros i d Hf. destruct (execute_inner_Ok k c resumes i d Hf) as ([[[toks lps] logits] d'] & E & Ha & _).
    exists toks, lps, d'. split; [|done]. cbn. by rewrite E.
  - intros i d Hf _. destruct (execute_inner_Ok k c resumes i d Hf) as ([[[toks lps] logits] d'] & E & _ & Hl).
    exists logits, d'. split; [|done]. cbn. by rewrite E.
  - apply best_token.
Qed.
End Worker.
