(* ===== verification/Evolution.v ===== *)
(** * What becomes of a request from one engine state to a later one

    Its token sequence only grows, by tokens that are no stop tokens and never
    past its end; once finished it is left alone.  The harvest and the planner's
    step are two cases. *)

From S2P Require Export Harvest SchedulerPasses PlannerStages.

Module Evolve.
Import Planner Inv Stages Steps Sched SchedInv Harvest Passes.

(** The prompt with everything generated, which preemption folds together. *)
Definition sequence (r : Req.Request) : list Z := Req.prompt_token_ids r ++ Req.output_token_ids r.

(** [r'] is [r] with generated tokens. *)
Definition extends (stops : list Z) (r r' : Req.Request) : Prop :=
  Req.request_id r' = Req.request_id r ∧ end_of r' = end_of r ∧
  ∃ gen, sequence r' = sequence r ++ gen ∧ Forall (λ t, t ∉ stops) gen.

#[global] Instance extends_preorder stops : PreOrder (extends stops).
Proof.
  split.
  - intros r. split_and!; [done|done|]. exists []. by rewrite app_nil_r.
  - intros r1 r2 r3 (I1 & E1 & g1 & S1 & F1) (I2 & E2 & g2 & S2 & F2).
    split_and!; [congruence|congruence|]. exists (g1 ++ g2).
    rewrite S2, S1, app_assoc. split; [done|]. by apply Forall_app.
Qed.

Lemma stamp_extends stops r r' : stamp r' = stamp r → extends stops r r'.
Proof.
  intros E. destruct (stamp_end r r' E) as (_ & ? & ?). split_and!; [done|done|]. exists [].
  rewrite app_nil_r. split; [|by constructor]. unfold stamp in E. unfold sequence. congruence.
Qed.

Section Evolve.
Context {T X LP Row : Type} `{!Offload.OffloadingManager T} `{!Executor X LP Row}
  (digest : list Z → list Z) (digest_ok : Chain.digest_ok digest)
  (decode_ids : list Z → Text.text) (is_digit : Z → bool).

Notation Scheduler := (@Scheduler T X LP).
Notation lane := (@lane LP).
Implicit Types (s : Scheduler) (r : Req.Request) (owed full : nat → Prop).

Record evolves s s' : Prop := {
  ev_limits : settings s' = settings s ∧ same_limits (planner s) (planner s');
  ev_live : ∀ o r, o ∈ live (planner s) → heap (planner s) !! o = Some r →
    ∃ r', heap (planner s') !! o = Some r' ∧ extends (stop_token_ids (settings s)) r r' ∧
      (Z.of_nat (Req.seq_len r') ≤ end_of r')%Z ∧
      (o ∈ live (planner s') ∨ Req.is_finished r' = true);
  ev_done : ∀ o r, heap (planner s) !! o = Some r → Req.is_finished r = true →
    core <$> heap (planner s') !! o = Some (core r);
}.

Lemma core_finished r r' : core r' = core r → Req.is_finished r' = Req.is_finished r.
Proof. unfold core, Req.is_finished. intros E. by replace (Req.status r') with (Req.status r) by congruence. Qed.

Lemma evolves_trans s1 s2 s3 : evolves s1 s2 → evolves s2 s3 → evolves s1 s3.
Proof.
  intros [[A1 A1'] A2 A3] [[B1 B1'] B2 B3]. split.
  - split; [congruence|by etrans].
  - intros o r Ho Hr. destruct (A2 o r Ho Hr) as (r2 & Hr2 & X2 & L2 & [Hl|Hf]).
    + destruct (B2 o r2 Hl Hr2) as (r3 & Hr3 & X3 & L3 & Hd). exists r3. split_and!; try done.
      rewrite A1 in X3. by etrans.
    + pose proof (B3 o r2 Hr2 Hf) as Hc. destruct (heap (planner s3) !! o) as [r3|]; [|done].
      apply (inj Some) in Hc. exists r3. pose proof (core_stamp _ _ Hc) as Hs.
      destruct (stamp_end _ _ Hs) as (-> & -> & _). split_and!; [done| |done|].
      * etrans; [exact X2|]. by apply stamp_extends.
      * right. by rewrite (core_finished _ _ Hc).
  - intros o r Hr Hf. pose proof (A3 o r Hr Hf) as Hc.
    destruct (heap (planner s2) !! o) as [r2|] eqn:Hr2; [|done]. apply (inj Some) in Hc.
    rewrite <- Hc. apply (B3 o r2 Hr2). by rewrite (core_finished _ _ Hc).
Qed.

Lemma live_unfinished owed full s o r :
  good digest owed full s → o ∈ live (planner s) → heap (planner s) !! o = Some r →
  Req.is_finished r = false.
Proof.
  intros Hg Hl Hr. unfold Req.is_finished.
  destruct (live_cases _ o r (wf_queues _ _ (g_wf _ _ _ _ Hg)) Hl Hr) as [(_ & _ & -> & _)|(_ & _ & -> & _)]; done.
Qed.

(** Steps that leave the stamps and the queues' membership alone. *)
Lemma stamps_evolves owed s s' :
  good digest owed nobody s → settings s' = settings s → same_limits (planner s) (planner s') →
  (∀ o, o ∈ live (planner s) → stamp <$> heap (planner s') !! o = stamp <$> heap (planner s) !! o) →
  (∀ o, o ∈ live (planner s) → o ∈ live (planner s')) →
  (∀ o, o ∉ live (planner s) → is_Some (heap (planner s) !! o) →
    core <$> heap (planner s') !! o = core <$> heap (planner s) !! o) →
  evolves s s'.
Proof.
  intros Hg Hset Hlim Hst Hlive Hdead. split; [done| |].
  - intros o r Ho Hr. pose proof (Hst o Ho) as E. rewrite Hr in E.
    destruct (heap (planner s') !! o) as [r'|]; [|done]. apply (inj Some) in E. exists r'.
    destruct (stamp_end _ _ E) as (-> & -> & _). split_and!; [done|by apply stamp_extends| |left; auto].
    destruct (g_room _ _ _ _ Hg o r Ho Hr) as [_ Hs]. specialize (Hs (λ x, x)). lia.
  - intros o r Hr Hf. rewrite Hdead, Hr; [done| |by exists r]. intros Hl.
    by rewrite (live_unfinished _ _ _ _ _ Hg Hl Hr) in Hf.
Qed.

Lemma evolves_refl owed s : good digest owed nobody s → evolves s s.
Proof. intros Hg. by apply (stamps_evolves owed). Qed.

(** ** The harvest *)

(** A lane after some tokens, from the request it started with. *)
Definition absorbed (stops : list Z) r0 (x : lane) : Prop :=
  extends stops r0 x.1.1 ∧ (Z.of_nat (Req.seq_len x.1.1) ≤ end_of x.1.1)%Z ∧
  (Req.is_finished x.1.1 = false → (Z.of_nat (Req.seq_len x.1.1) < end_of x.1.1)%Z).

Lemma push_end token r : end_of (push token r) = end_of r ∧ Req.seq_len (push token r) = S (Req.seq_len r).
Proof. unfold end_of, Req.seq_len. cbn. rewrite length_app. cbn. split; [done|lia]. Qed.

Lemma absorb_absorbed stops limit check r0 x e :
  absorbed stops r0 x → absorbed stops r0 (absorb decode_ids is_digit stops limit check x e).
Proof.
  destruct x as [[r f] d], e as [token record]. intros (Hx & Hle & Hlt). unfold absorb.
  destruct (Req.is_finished r) eqn:Hf; [done|]. cbn [fst] in Hlt. specialize (Hlt Hf).
  case_decide as Ht; [done|]. destruct (Detok.append _ _ _ _) as [[piece d']|]; [|done].
  destruct (push_end token r) as [E1 E2]. set (f' := note record piece f).
  assert (Hpush : extends stops r0 (push token r)).
  { destruct Hx as (I & E & gen & S & F). split_and!; [done|done|]. exists (gen ++ [token]).
    cbn [fst] in S. unfold sequence in *. cbn. rewrite app_assoc, S, app_assoc.
    split; [done|]. apply Forall_app. split; [done|]. by constructor. }
  set (why := verdict _ _ _ _ _). assert (Hwhy : why = None → (Z.of_nat (Req.seq_len (push token r)) < end_of (push token r))%Z).
  { unfold why, verdict. rewrite has_room_end. by case_bool_decide. }
  destruct why as [reason|]; cbn [close]; split_and!; cbn [fst]; try done.
  - change (Z.of_nat (Req.seq_len (push token r)) ≤ end_of (push token r))%Z. lia.
  - lia.
  - intros _. by apply Hwhy.
Qed.

Lemma absorb_all_absorbed stops limit check x es :
  absorbed stops x.1.1 x → absorbed stops x.1.1 (absorb_all decode_ids is_digit stops limit check x es).
Proof.
  intros Hx. induction es as [|e es IH] using rev_ind; [by destruct x as [[]]|].
  rewrite absorb_all_snoc. apply absorb_absorbed. case_decide; [|done]. by destruct x as [[]].
Qed.

Lemma harvested_evolves check owed s emitted advanced s' :
  good digest owed nobody s → harvested digest decode_ids is_digit check owed s emitted advanced s' →
  evolves s s'.
Proof.
  intros Hg Hh. pose proof (wf_queues _ _ (g_wf _ _ _ _ Hg)) as Hq. pose proof Hh as [].
  assert (Hrest : ∀ o r, heap (planner s) !! o = Some r → o ∉ running (planner s) →
    heap (planner s') !! o = Some r).
  { intros o r Hr Ho. by rewrite (proj1 (h_rest0 o Ho)). }
  split; [by destruct h_fixed0| |].
  - intros o r Ho Hr. destruct (g_room _ _ _ _ Hg o r Ho Hr) as [_ Hs]. specialize (Hs (λ x, x)).
    destruct (decide (o ∈ running (planner s))) as [Hin|Hn].
    + destruct (running_lane digest owed s o Hg Hin) as (x & Hx & _).
      assert (x.1.1 = r) as Er by (destruct Hx as [E _]; congruence).
      pose proof (h_lane0 o x Hin Hx) as Hy. set (es := tokens_for o emitted) in Hy.
      pose proof (absorb_all_absorbed (stop_token_ids (settings s)) (max_seq_len (config (planner s))) check x es)
        as Ha. set (y := absorb_all _ _ _ _ _ _ _) in *. rewrite Er in Ha.
      destruct Ha as (X1 & X2 & X3); [by rewrite <- Er; split_and!; try rewrite Er; try lia|].
      exists y.1.1. split_and!; [apply Hy|done|done|].
      destruct (Req.is_finished y.1.1) eqn:Ef; [by right|left]. apply running_live.
      by apply (lane_running digest decode_ids is_digit check owed s emitted advanced s' o x).
    + exists r. split_and!; [by apply Hrest|done|lia|left].
      apply elem_of_app in Ho as [Ho|Ho]; [|done]. apply elem_of_app. left. by rewrite h_waiting0.
  - intros o r Hr Hf. rewrite (Hrest o r Hr); [done|]. intros Hin.
    by rewrite (live_unfinished _ _ _ _ _ Hg (running_live _ _ Hin) Hr) in Hf.
Qed.

(** Nothing happens to a request the harvest has no token for. *)
Lemma harvested_kept check owed s emitted advanced s' o :
  good digest owed nobody s → harvested digest decode_ids is_digit check owed s emitted advanced s' →
  o ∈ running (planner s) → o ∉ emitted.*1.*1 →
  o ∈ running (planner s') ∧ heap (planner s') !! o = heap (planner s) !! o ∧ fronts s' !! o = fronts s !! o.
Proof.
  intros Hg Hh Hin Hn. destruct (running_lane digest owed s o Hg Hin) as (x & Hx & _).
  pose proof (h_lane _ _ _ _ _ _ _ _ _ Hh o x Hin Hx) as Hy.
  pose proof (lane_running digest decode_ids is_digit check owed s emitted advanced s' o x Hh Hin Hx) as Hrun.
  rewrite (proj2 (tokens_for_nil o emitted) Hn) in Hy, Hrun.
  assert (Hid : ∀ stops limit, absorb_all decode_ids is_digit stops limit check x [] = x) by (by destruct x as [[]]).
  rewrite Hid in Hy, Hrun. pose proof Hx as (Hx1 & Hx2 & _). destruct Hy as (Hy1 & Hy2 & _).
  split_and!; [|congruence|congruence]. apply Hrun. by apply (running_open digest s owed nobody o).
Qed.
End Evolve.
End Evolve.
