(* ===== verification/SchedulerSync.v ===== *)
(** * The synchronous step

    Planning, speculation, execution and collection, each returning and
    keeping the invariant of the engine loop under the executor's laws. *)

From S2P Require Export Evolution.

Module Sync.
Import Planner Inv Stages Steps Sched SchedInv Harvest Passes Evolve.

Section Sync.
Context {T X LP Row : Type} `{!Offload.OffloadingManager T} `{!Executor X LP Row}
  (digest : list Z → list Z) (digest_ok : Chain.digest_ok digest)
  (decode_ids : list Z → Text.text) (is_digit : Z → bool).

Notation Scheduler := (@Scheduler T X LP).
Implicit Types (s : Scheduler) (r : Req.Request) (owed full : nat → Prop).

(** All of the state but the planner and the fronts. *)
Definition same_shell s s' : Prop :=
  settings s' = settings s ∧ detokenizers s' = detokenizers s ∧ next_object s' = next_object s ∧
  request_ids s' = request_ids s ∧ step_count s' = step_count s ∧ tokenizing s' = tokenizing s ∧
  inflight s' = inflight s ∧ on_errors s' = on_errors s.

#[global] Instance same_shell_preorder : PreOrder same_shell.
Proof.
  split; [done|]. intros s1 s2 s3 (?&?&?&?&?&?&?&?) (?&?&?&?&?&?&?&?). split_and!; congruence.
Qed.

(** ** Planning *)

Lemma preempted_fronts l s :
  let s' := foldr (λ oid, update_front oid preempted_front) s l in
  planner s' = planner s ∧ executor s' = executor s ∧ same_shell s s' ∧
  ∀ o, fronts s' !! o = (if decide (o ∈ l) then preempted_front else id) <$> fronts s !! o.
Proof.
  induction l as [|v l (IH1 & IH2 & IH3 & IH4)]; cbn; [split_and!; try done|].
  - intros o. rewrite decide_False by apply not_elem_of_nil. by destruct (fronts s !! o).
  - split_and!; [done|done|exact IH3|]. intros o. destruct (decide (o = v)) as [->|Hne].
    + rewrite lookup_alter_eq, IH4. destruct (decide (v ∈ v :: l)) as [_|Hn]; [|set_solver].
      case_decide; by destruct (fronts s !! v).
    + rewrite lookup_alter_ne, IH4 by done. f_equal.
      do 2 case_decide; set_solver.
Qed.

Lemma job_heap s s' e :
  job_ok s e → requests (planner s') = requests (planner s) →
  (job_request e.2 ∉ live (planner s) → job_request e.2 ∉ live (planner s') ∧
    core <$> heap (planner s') !! job_request e.2 = core <$> heap (planner s) !! job_request e.2) →
  (∀ f', fronts s' !! job_request e.2 = Some f' → ∃ f, fronts s !! job_request e.2 = Some f ∧
    (fr_prompt_logprobs f = None → fr_prompt_logprobs f' = None)) →
  job_ok s' e.
Proof.
  intros (J1 & J2 & (r & Hr & Hid & Hsub) & J4 & J5) Hreq Hh Hfr. destruct (Hh J2) as [Hl Hc].
  rewrite Hr in Hc. destruct (heap (planner s') !! job_request e.2) as [r'|] eqn:Hr'; [|done].
  apply (inj Some) in Hc. unfold core in Hc. injection Hc as C1 C2 C3 C4 C5 C6 _ _.
  split_and!; [by rewrite Hreq|done| |intros f' (f & Hf & Himp)%Hfr; by apply Himp, J4|done]. exists r'.
  destruct Hsub as (? & ? & ? & ? & ?). split_and!; [done|congruence|]. unfold submittable. split_and!; congruence.
Qed.

(** What a step of the planner that keeps the stamps does to the engine. *)
Lemma planner_good owed owed' s s' :
  good digest owed nobody s → wf digest (planner s') →
  requests (planner s') = requests (planner s) → same_limits (planner s) (planner s') →
  (∀ o, o ∈ live (planner s') ↔ o ∈ live (planner s)) →
  (∀ o, stamp <$> heap (planner s') !! o = stamp <$> heap (planner s) !! o) →
  (∀ o, o ∉ live (planner s) → core <$> heap (planner s') !! o = core <$> heap (planner s) !! o) →
  (∀ o, is_Some (fronts s !! o) → is_Some (fronts s' !! o)) →
  (∀ o f', fronts s' !! o = Some f' → ∃ f, fronts s !! o = Some f ∧
    (fr_prompt_logprobs f = None → fr_prompt_logprobs f' = None)) →
  (∀ o r f l, o ∈ live (planner s') → heap (planner s') !! o = Some r → fronts s' !! o = Some f →
    fr_prompt_logprobs f = Some l → length l = Req.prompt_len r) →
  (∀ o r, o ∈ running (planner s') → heap (planner s') !! o = Some r → ¬ owed' o →
    Req.prefill_done r = true → Req.output_token_ids r ≠ []) →
  same_shell s s' → good digest owed' nobody s'.
Proof.
  intros Hg Hwf Hreq Hlim Hlive Hst Hdead Hfr Hfr' Hrec Hready (S1 & S2 & S3 & S4 & S5 & S6 & S7 & S8).
  pose proof Hg as [].
  assert (Hsome : ∀ o r', heap (planner s') !! o = Some r' → ∃ r, heap (planner s) !! o = Some r ∧ stamp r' = stamp r).
  { intros o r' Hr'. pose proof (Hst o) as E. rewrite Hr' in E.
    destruct (heap (planner s) !! o) as [r|]; [|done]. exists r. split; [done|]. by apply (inj Some). }
  split; try done.
  - intros o [r' (r & Hr & _)%Hsome]. rewrite S3. apply g_new0. by exists r.
  - intros o [r' (r & Hr & _)%Hsome]. apply Hfr, g_front0. by exists r.
  - intros rid. by rewrite S2, Hreq.
  - intros rid d. rewrite S2. apply g_one0.
  - intros o r' Ho Hr'. destruct (Hsome o r' Hr') as (r & Hr & E). destruct (stamp_end _ _ E) as (-> & -> & _).
    rewrite (proj1 Hlim). by apply (g_room0 o r); [apply Hlive|].
  - by rewrite S6.
  - intros e. rewrite S6. intros He. apply (job_heap s); [by apply g_jobs0|done| |by apply Hfr'].
    intros Hn. split; [by rewrite Hlive|by apply Hdead].
Qed.

Lemma schedule_Ok s :
  good digest nobody nobody s →
  returns (schedule digest s) (λ '(out, s'), good digest (λ o, o ∈ prefill out) nobody s' ∧
    plan_sound out (planner s') ∧ evolves s s' ∧ same_shell s s' ∧ executor s' = executor s ∧
    Forall2 (λ o c, ∃ r, heap (planner s') !! o = Some r ∧ c ≤ Req.num_computed_tokens r)
      (prefill out) (prefill_chunk_lens out)).
Proof.
  intros Hg. destruct (plan_Ok digest digest_ok (planner s) (g_wf _ _ _ _ Hg))
    as (out & p' & E & Hwf' & Hsound & Hlim & Hpl).
  unfold schedule. rewrite E. cbn [mbind result_bind]. apply returns_ret.
  destruct (preempted_fronts (preempted out) (set_planner p' s)) as (F1 & F2 & F3 & F4).
  set (s' := foldr _ _ _) in *. cbn [planner set_planner fronts] in F1, F4.
  destruct Hpl as [P1 P2 P3 P4 P5 P6 P7 P8 P9 P10]. cbn [w_prefill w_chunks w_preempted] in *.
  assert (Hgood : good digest (λ o, o ∈ prefill out) nobody s').
  { apply (planner_good nobody _ s); rewrite ?F1; try done.
    - intros o [f Hf]. rewrite F4, Hf. by eexists.
    - intros o f'. rewrite F4. intros (f & Hf & ->)%fmap_Some. exists f. split; [done|]. by case_decide.
    - intros o r f l Ho Hr. rewrite F4. intros (f0 & Hf0 & ->)%fmap_Some.
      case_decide as Hv; [done|]. cbn [id]. intros El. apply P10 in Hv. rewrite Hr in Hv.
      destruct (heap (planner s) !! o) as [r0|] eqn:Hr0; [|done]. apply (inj Some) in Hv.
      unfold Req.prompt_len. rewrite Hv. apply P7 in Ho. by apply (g_records _ _ _ _ Hg o r0 f0 l).
    - intros o r Ho Hr Hn Hd. destruct (P9 o r Ho Hn Hr Hd) as [Ho0 Hc].
      destruct (heap (planner s) !! o) as [r0|] eqn:Hr0; [|done]. apply (inj Some) in Hc.
      assert (Req.output_token_ids r = Req.output_token_ids r0) as -> by (unfold core in Hc; congruence).
      apply (g_ready _ _ _ _ Hg o r0 Ho0 Hr0); [by intros []|]. by rewrite (core_prefill_done _ _ Hc). }
  split_and!; [exact Hgood|by rewrite F1| |exact F3|exact F2|by rewrite F1].
  apply (stamps_evolves digest nobody); rewrite ?F1; try done.
  - apply F3.
  - intros o Ho. by apply P7.
  - intros o Ho _. by apply P8.
Qed.

(** ** Speculation *)

Lemma good_grows owed s p' :
  good digest owed nobody s → wf digest p' → grows (planner s) p' →
  good digest owed nobody (set_planner p' s).
Proof.
  intros Hg Hwf [Hf Hrows]. apply (planner_good owed _ s); try done; cbn [planner set_planner fronts].
  - apply (f_requests _ _ Hf).
  - apply (f_config _ _ Hf).
  - intros o. by rewrite (frame_live _ _ Hf).
  - intros o. by apply frame_stamp.
  - intros o _. apply (f_heap _ _ Hf).
  - intros o f' Hf'. by exists f'.
  - intros o r' f l Ho Hr' Hfr Hl. rewrite (frame_live _ _ Hf) in Ho.
    destruct (frame_lookup_inv _ _ _ _ Hf Hr') as (r & Hr & Hc).
    replace (Req.prompt_len r') with (Req.prompt_len r) by (unfold core, Req.prompt_len in *; congruence).
    by apply (g_records _ _ _ _ Hg o r f l).
  - intros o r' Ho Hr' Hn Hd. rewrite (f_running _ _ Hf) in Ho.
    destruct (frame_lookup_inv _ _ _ _ Hf Hr') as (r & Hr & Hc).
    rewrite (core_prefill_done _ _ Hc) in Hd.
    replace (Req.output_token_ids r') with (Req.output_token_ids r) by (unfold core in Hc; congruence).
    by apply (g_ready _ _ _ _ Hg o r).
Qed.

Lemma decodable_core s s' o :
  o ∈ running (planner s') → core <$> heap (planner s') !! o = core <$> heap (planner s) !! o →
  fronts s' !! o = fronts s !! o → context s' = context s → decodable s o → decodable s' o.
Proof.
  intros Hin Hh Hf Hc (_ & r & f & Hr & Hfr & H1 & H2 & H3). split; [done|].
  rewrite Hr in Hh. destruct (heap (planner s') !! o) as [r'|]; [|done]. apply (inj Some) in Hh.
  exists r', f. unfold core in Hh. injection Hh as _ C2 C3 _ _ _ _ _.
  unfold Req.seq_len in *. rewrite C2, C3, Hf, Hc. by split_and!.
Qed.

Lemma grows_decodable s p' o :
  grows (planner s) p' → decodable s o → decodable (set_planner p' s) o.
Proof.
  intros [Hf _] Hd. apply (decodable_core s); try done; cbn.
  - rewrite (f_running _ _ Hf). apply Hd.
  - apply (f_heap _ _ Hf).
  - unfold context. cbn. by rewrite (proj1 (f_config _ _ Hf)).
Qed.

Lemma grows_draft s p' e :
  grows (planner s) p' → draft_ok s e → draft_ok (set_planner p' s) e.
Proof.
  intros Hg (H1 & H2 & H3). split_and!; [by apply grows_decodable|done|]. destruct Hg as [Hf _].
  intros r' Hr'. destruct (frame_lookup_inv _ _ _ _ Hf Hr') as (r & Hr & Hc).
  unfold context. cbn. rewrite (proj1 (f_config _ _ Hf)).
  replace (Req.seq_len r') with (Req.seq_len r); [by apply H3|].
  unfold core, Req.seq_len in *. injection Hc as _ C2 C3 _ _ _ _ _. by rewrite C2, C3.
Qed.

Lemma propose_elem p l x : x ∈ Ngram.propose p l → x ∈ l.
Proof.
  unfold Ngram.propose. case_decide; [by intros ?%elem_of_nil|]. generalize (Z.to_nat (Z.min (Ngram.max_ngram_size p)
    (Z.of_nat (length l) - 1))). intros g. induction g as [|g IH]; [by intros ?%elem_of_nil|].
  cbn [Ngram.scan_grams]. case_decide; [by intros ?%elem_of_nil|]. cbv zeta.
  destruct (Ngram.find_match _ _ _ _); [|exact IH]. case_decide; [|exact IH]. apply slice_elem.
Qed.

Record drafting owed s (pre : list nat) (drafts : list (nat * list Z)) (remaining : list nat) s1 : Prop := {
  dr_good : good digest owed nobody s1;
  dr_state : s1 = set_planner (planner s1) s;
  dr_grows : grows (planner s) (planner s1);
  dr_perm : drafts.*1 ++ remaining ≡ₚ pre;
  dr_ok : Forall (draft_ok s1) drafts;
}.

Lemma draft_one_Ok owed p s pre drafts remaining s1 o :
  drafting owed s pre drafts remaining s1 → decodable s o →
  returns (draft_one p o (drafts, remaining, s1)) (λ '(drafts', remaining', s'),
    drafting owed s (pre ++ [o]) drafts' remaining' s').
Proof.
  intros Hd Ho0. pose proof Hd as [Hg Hst Hgr Hperm Hok].
  assert (Ho : decodable s1 o) by (rewrite Hst; by apply grows_decodable).
  pose proof Ho as (Hin & r & f & Hr & Hf & H1 & H2 & H3).
  unfold draft_one. rewrite (request_Ok _ _ _ Hr). cbn [mbind result_bind].
  rewrite (front_Ok _ _ _ Hf). cbn [mbind result_bind].
  assert (Hkeep : drafting owed s (pre ++ [o]) drafts (remaining ++ [o]) s1).
  { split; try done. rewrite app_assoc. by rewrite Hperm. }
  case_decide; [by apply returns_ret|]. set (proposed := Ngram.propose _ _).
  assert (Hprop : Forall Chain.is_token proposed).
  { destruct (q_tokens _ (wf_queues _ _ (g_wf _ _ _ _ Hg)) o r (running_live _ _ Hin) Hr) as [Ht _].
    apply Forall_forall. intros x Hx%propose_elem. by eapply Forall_forall in Ht. }
  destruct (decide (proposed = [])) as [Ep|Ep].
  { cbn [mbind result_bind]. rewrite decide_True by done. by apply returns_ret. }
  destruct (reserve_speculative_Ok digest (planner s1) o r (length proposed) (g_wf _ _ _ _ Hg) Hin Hr)
    as (k & p' & -> & Hwf' & Hgr' & Hk & Hfit).
  cbn [mbind result_bind]. set (s2 := set_planner p' s1).
  assert (Hg2 : good digest owed nobody s2) by (by apply good_grows).
  assert (Hst2 : s2 = set_planner (planner s2) s) by (unfold s2; by rewrite Hst).
  assert (Hgr2 : grows (planner s) (planner s2)) by (by etrans).
  assert (Hok2 : Forall (draft_ok s2) drafts).
  { eapply Forall_impl; [exact Hok|]. intros e. by apply grows_draft. }
  case_decide as Ek; apply returns_ret; (split; [done|done|done| |]); try done.
  - rewrite app_assoc. by rewrite Hperm.
  - rewrite fmap_app. cbn. rewrite <- Hperm. solve_Permutation.
  - apply Forall_app. split; [done|]. apply Forall_singleton. split_and!; cbn [fst snd].
    + by apply grows_decodable.
    + by apply Forall_take.
    + intros r2 Hr2. cbn in Hr2. destruct Hgr' as [Hf' _].
      destruct (frame_lookup_inv _ _ _ _ Hf' Hr2) as (r1 & Hr1 & Hc). assert (r1 = r) as -> by congruence.
      destruct Hfit as [Hfit _]; [lia|]. rewrite length_take. unfold context. cbn.
      rewrite (proj1 (f_config _ _ Hf')). unfold core, Req.seq_len in *.
      injection Hc as _ C2 C3 _ _ _ _ _. rewrite C2, C3. lia.
Qed.

(** ** Acceptance *)

Section Acceptance.
Notation pick := (argmax (X := X) (LP := LP)).
Implicit Types (rows : list Row) (ids : list Z).

(** Greedy decoding with a fixed next-token function. *)
Fixpoint greedy (next : list Z → Z) (context : list Z) (n : nat) : list Z :=
  match n with
  | 0 => []
  | S n => next context :: greedy next (context ++ [next context]) n
  end.

(** The rows of one stretch are the model's answers along the draft. *)
Definition answers_along (next : list Z → Z) (context : list Z) rows ids : Prop :=
  length rows = length ids + 1 ∧
  ∀ i row, rows !! i = Some row → pick row = next (context ++ take i ids).

Lemma answers_tail next context row rows d ids :
  answers_along next context (row :: rows) (d :: ids) → answers_along next (context ++ [d]) rows ids.
Proof.
  intros [Hl Ha]. split; [cbn in *; lia|]. intros i row' Hi. rewrite (Ha (S i) row' Hi). cbn.
  by rewrite <- app_assoc.
Qed.

Lemma stretch_greedy next ids : ∀ context rows,
  answers_along next context rows ids →
  ∃ n, accepted rows ids = Ok n ∧ n ≤ length ids ∧
    stretch rows ids = Ok (greedy next context (S n)) ∧
    take n ids = greedy next context n ∧
    (n < length ids → ids !! n ≠ Some (next (context ++ take n ids))).
Proof.
  induction ids as [|d ids IH]; intros context rows Hans.
  - destruct rows as [|row [|]]; try (by destruct Hans). exists 0. cbn.
    rewrite (proj2 Hans 0 row eq_refl). cbn. rewrite app_nil_r. split_and!; try done; lia.
  - destruct rows as [|row rows]; [by destruct Hans|].
    pose proof (proj2 Hans 0 row eq_refl) as Hrow. cbn in Hrow. rewrite app_nil_r in Hrow.
    unfold stretch. cbn [accepted]. destruct (decide (pick row ≠ d)) as [Hne|Heq].
    + exists 0. cbn. rewrite app_nil_r, <- Hrow. split_and!; try done; [lia|]. intros _ E. congruence.
    + apply dec_stable in Heq. subst d.
      destruct (IH (context ++ [pick row]) rows) as (n & Ha & Hn & Hs & Ht & Hm); [by eapply answers_tail|].
      exists (S n). rewrite Ha. cbn [mbind result_bind]. unfold stretch in Hs. rewrite Ha in Hs.
      cbn [mbind result_bind] in Hs. change (item (row :: rows) (S n)) with (item rows n).
      destruct (item rows n) as [last|]; [|done]. cbn [mbind result_bind] in Hs |- *. injection Hs as Hs.
      cbn [take app length greedy]. rewrite <- Hrow. split_and!; [done|lia|by rewrite Hs|by rewrite Ht|].
      intros Hlt. cbn [lookup list_lookup]. rewrite cons_middle, app_assoc. apply Hm. lia.
Qed.

Lemma stretch_token `{!ExecutorLaws X LP Row k c resumes} rows ids :
  length rows = length ids + 1 → Forall Chain.is_token ids →
  returns (stretch rows ids) (λ chain, Forall Chain.is_token chain).
Proof.
  intros Hlen Ht. assert (∃ n, accepted rows ids = Ok n ∧ n ≤ length ids) as (n & Ha & Hn).
  { clear Ht. revert rows Hlen. induction ids as [|d ids IH]; intros rows Hlen; [destruct rows; [done|]; exists 0; split; [done|lia]|].
    destruct rows as [|row rows]; [done|]. cbn [accepted]. case_decide; [exists 0; split; [done|lia]|].
    destruct (IH rows) as (n & -> & Hn); [cbn in Hlen; lia|]. exists (S n). cbn. split; [done|lia]. }
  unfold stretch. rewrite Ha. cbn [mbind result_bind].
  destruct (lookup_lt_is_Some_2 rows n) as [row Hrow]; [lia|]. rewrite (item_Ok _ _ _ Hrow).
  cbn [mbind result_bind]. apply returns_ret. apply Forall_app. split; [by apply Forall_take|].
  apply Forall_singleton. apply argmax_token.
Qed.

(** One draft's stretch, from its own rows. *)
Definition own_stretch (e : nat * list Z * list Row) : result (list (nat * Z * option LP)) :=
  let '(oid, ids, rows) := e in
  match stretch rows ids with
  | Ok chain => Ok ((λ token, (oid, token, None)) <$> chain)
  | Err e => Err e
  end.

(** The stretches of a flat list of rows, draft by draft. *)
Lemma stretches_split (drafts : list (nat * list Z)) : ∀ (before : list Row) (parts : list (list Row)),
  Forall2 (λ e rows, length rows = length e.2 + 1) drafts parts →
  stretches (LP := LP) (length before) (before ++ concat parts) drafts =
  (chains ← rmap own_stretch (zip drafts parts); Ok (concat chains)).
Proof.
  induction drafts as [|[oid ids] drafts IH]; intros before parts Hl;
    inversion Hl as [|? part ? parts' Hpart Hrest]; subst; [done|].
  cbn [stretches zip zip_with rmap concat]. cbn in Hpart. rewrite drop_app_length, <- Hpart, take_app_length.
  cbn [own_stretch]. destruct (stretch part ids) as [chain|]; [|done]. cbn [mbind result_bind].
  specialize (IH (before ++ part) parts' Hrest). rewrite length_app, <- app_assoc in IH. rewrite IH.
  destruct (rmap _ (zip drafts parts')); done.
Qed.

(** Rows enough can be cut per draft. *)
Lemma cut_rows (drafts : list (nat * list Z)) : ∀ logits : list Row,
  length logits = sum_list ((λ e : nat * list Z, length e.2 + 1) <$> drafts) →
  ∃ parts, logits = concat parts ∧ Forall2 (λ e rows, length rows = length e.2 + 1) drafts parts.
Proof.
  induction drafts as [|e drafts IH]; intros logits Hl; cbn in Hl.
  - destruct logits; [|done]. exists []. by split; [|constructor].
  - destruct (IH (drop (length e.2 + 1) logits)) as (parts & E & Hp); [rewrite length_drop; lia|].
    exists (take (length e.2 + 1) logits :: parts). cbn. rewrite <- E, take_drop. split; [done|].
    constructor; [|done]. rewrite length_take. lia.
Qed.

Lemma stretches_Ok `{!ExecutorLaws X LP Row k c resumes} (drafts : list (nat * list Z)) logits :
  length logits = sum_list ((λ e : nat * list Z, length e.2 + 1) <$> drafts) →
  Forall (λ e : nat * list Z, Forall Chain.is_token e.2) drafts →
  returns (stretches (LP := LP) 0 logits drafts) (Forall (λ e, e.1.1 ∈ drafts.*1 ∧ Chain.is_token e.1.2)).
Proof.
  intros Hl Ht. destruct (cut_rows drafts logits Hl) as (parts & -> & Hp).
  pose proof (stretches_split drafts [] parts Hp) as E. cbn [length app] in E. rewrite E. clear E.
  apply returns_bind. eapply returns_mono.
  - apply (returns_rmap _ (λ e chain, Forall (λ x : nat * Z * option LP, x.1.1 = e.1.1 ∧ Chain.is_token x.1.2) chain)).
    intros [[oid ids] rows] [k'' Hk]%list_elem_of_lookup.
    apply lookup_zip_with_Some in Hk as (e & rows' & [= <- <-] & He & Hrows).
    pose proof (Forall2_lookup_lr _ _ _ _ _ _ Hp He Hrows) as Hlen.
    eapply Forall_lookup in Ht; [|exact He]. destruct (stretch_token rows ids Hlen Ht) as (chain & E & Hc).
    unfold own_stretch. rewrite E. apply returns_ret, Forall_fmap. eapply Forall_impl; [exact Hc|]. done.
  - intros chains Hc. apply returns_ret, Forall_forall. intros x (chain & Hx & Hin)%elem_of_concat.
    apply list_elem_of_lookup in Hin as [k'' Hk]. destruct (Forall2_lookup_r _ _ _ _ _ Hc Hk) as ([e rows] & He & HF).
    eapply Forall_forall in HF as [-> ?]; [|exact Hx]. split; [|done].
    apply lookup_zip_with_Some in He as (e' & rows' & [= <- <-] & He & _). apply list_elem_of_fmap_2.
    by eapply list_elem_of_lookup_2.
Qed.
End Acceptance.

(** ** The executor's replies *)

Section Laws.
Context (k c : nat) (resumes : bool) `{!ExecutorLaws X LP Row k c resumes}.

(** The engine the laws speak of. *)
Definition sized s : Prop := seats s = k ∧ context s = c ∧
  (is_Some (chunked_min_rows (settings s)) → resumes = true).

Lemma evolves_sized s s' : evolves s s' → sized s → sized s'.
Proof.
  intros [(E0 & E1 & E2 & _) _ _] (H1 & H2 & H3). unfold sized, seats, context in *. by rewrite E2, E1, E0.
Qed.

(** A request nothing happened to. *)
Definition untouched (o : nat) s s' : Prop :=
  o ∈ running (planner s') ∧ core <$> heap (planner s') !! o = core <$> heap (planner s) !! o ∧
  fronts s' !! o = fronts s !! o.

Lemma untouched_decodable s s' o :
  evolves s s' → untouched o s s' → decodable s o → decodable s' o.
Proof.
  intros [(_ & E & _) _ _] (H1 & H2 & H3) Hd. apply (decodable_core s); try done.
  unfold context. by rewrite E.
Qed.

(** What the executor holds is nobody else's concern. *)
Lemma executor_good owed s x : good digest owed nobody s → good digest owed nobody (set_executor x s).
Proof. by intros []. Qed.

Lemma planner_evolves owed s s' :
  good digest owed nobody s → settings s' = settings s → planner s' = planner s → evolves s s'.
Proof. intros Hg E1 E2. apply (stamps_evolves digest owed); rewrite ?E2; done. Qed.

Lemma grows_evolves owed s p' :
  good digest owed nobody s → grows (planner s) p' → evolves s (set_planner p' s).
Proof.
  intros Hg [Hf _]. apply (stamps_evolves digest owed); cbn [planner set_planner]; try done.
  - apply (f_config _ _ Hf).
  - intros o _. by apply frame_stamp.
  - intros o. by rewrite (frame_live _ _ Hf).
  - intros o _ _. apply (f_heap _ _ Hf).
Qed.

Lemma harvest_untouched check owed s emitted advanced s' o :
  good digest owed nobody s → harvested digest decode_ids is_digit check owed s emitted advanced s' →
  o ∈ running (planner s) → o ∉ emitted.*1.*1 → untouched o s s'.
Proof.
  intros Hg Hh Hin Hn. destruct (harvested_kept _ _ _ _ _ _ _ _ _ _ Hg Hh Hin Hn) as (? & E & ?).
  split_and!; [done|by rewrite E|done].
Qed.

(** What speculation leaves: the drafted requests have advanced, the others
    wait for the plain decode pass. *)
Record speculated owed (l : list nat) s (remaining : list nat) s' : Prop := {
  sp_good : good digest owed nobody s';
  sp_evolves : evolves s s';
  sp_nodup : NoDup remaining;
  sp_decodable : Forall (decodable s') remaining;
  sp_others : ∀ o, o ∈ running (planner s) → o ∉ l → untouched o s s';
}.

Lemma dedup_elem l : ∀ seen o, o ∈ dedup seen l → o ∈ l.
Proof.
  induction l as [|o' l IH]; intros seen o; [done|]. cbn [dedup]. case_decide.
  - intros Ho%IH. by right.
  - intros [->|Ho%IH]%elem_of_cons; [by left|by right].
Qed.

Lemma untouched_grows s p' x o : grows (planner s) p' → o ∈ running (planner s) →
  untouched o s (set_executor x (set_planner p' s)).
Proof.
  intros [Hf _] Ho. split_and!; cbn; [by rewrite (f_running _ _ Hf)|apply (f_heap _ _ Hf)|done].
Qed.

Lemma speculate_verify_Ok owed p l s :
  good digest owed nobody s → sized s → NoDup l → Forall (decodable s) l →
  returns (speculate_verify digest decode_ids is_digit p l s)
    (λ '(advanced, remaining, s'), speculated owed l s remaining s' ∧ advanced ⊆ l).
Proof.
  intros Hg Hsz Hnd Hl. unfold speculate_verify. apply returns_bind. eapply returns_mono.
  { apply (returns_rfold (λ pre '(drafts, remaining, s1), drafting owed s pre drafts remaining s1)).
    - split; [done|by destruct s|done|done|by constructor].
    - intros pre o post [[drafts remaining] s1] El Hd.
      eapply returns_mono; [apply (draft_one_Ok owed p s pre drafts remaining s1 o Hd)|by intros [[??]?]].
      eapply Forall_forall; [exact Hl|]. rewrite El. set_solver. }
  intros [[drafts remaining] s1] [Hg1 Hst Hgr Hperm Hok].
  assert (Hev : evolves s s1) by (rewrite Hst; by apply (grows_evolves owed)).
  assert (Hnd' : NoDup (drafts.*1 ++ remaining)) by (by rewrite Hperm).
  apply NoDup_app in Hnd' as (Hnd1 & Hdis & Hnd2).
  assert (Hdec : ∀ o, o ∈ l → decodable s1 o).
  { intros o Ho. rewrite Hst. apply grows_decodable; [done|]. by eapply Forall_forall in Hl. }
  assert (Hsub : ∀ o, o ∈ remaining → o ∈ l) by (intros o Ho; rewrite <- Hperm; set_solver).
  assert (Hun : ∀ x o, o ∈ running (planner s) → untouched o s (set_executor x s1)).
  { intros x o Ho. rewrite Hst. by apply untouched_grows. }
  case_decide as Hne.
  { apply returns_ret. split; [|by intros o Ho%elem_of_nil]. split; [done|done|done| |].
    - apply Forall_forall. auto.
    - intros o Ho _. destruct (Hun (executor s1) o Ho) as (? & ? & ?). by split_and!. }
  step_with (verify_input_Ok digest owed s1 resumes drafts Hg1 Hnd1 Hok Hne). intros i (Hi1 & Hi2 & Hi3).
  pose proof (evolves_sized _ _ Hev Hsz) as (Hk & Hc & _). rewrite Hk, Hc in Hi1.
  destruct (verify_ok i (executor s1) Hi1 Hi2) as (logits & x & Ex & Hlog). rewrite Ex. cbn [mbind result_bind].
  set (s2 := set_executor x s1). assert (Hg2 : good digest owed nobody s2) by (by apply executor_good).
  assert (Hev2 : evolves s s2) by (eapply evolves_trans; [done|by apply (planner_evolves owed)]).
  destruct logits as [logits|].
  2:{ apply returns_ret. split; [|by intros o Ho%elem_of_nil].
      split; [done|done|done| |intros o Ho _; by apply Hun]. apply Forall_forall. intros o Ho%Hdec. exact Ho. }
  assert (Hdt : Forall (λ e : nat * list Z, Forall Chain.is_token e.2) drafts).
  { eapply Forall_impl; [exact Hok|]. by intros e (_ & ? & _). }
  step_with (stretches_Ok (k := k) (c := c) (resumes := resumes) drafts logits (eq_trans (Hlog _ eq_refl) Hi3) Hdt).
  intros emitted Hem.
  assert (Hin : Forall (λ e : nat * Z * option LP, e.1.1 ∈ running (planner s2) ∧ Chain.is_token e.1.2) emitted).
  { eapply Forall_impl; [exact Hem|]. intros e [(d & -> & Hd)%list_elem_of_fmap ?]. split; [|done].
    by eapply Forall_forall in Hok as [[? _] _]. }
  step_with (harvest_Ok digest digest_ok decode_ids is_digit owed s2 emitted Hg2 Hin).
  intros [advanced s3] Hh. apply returns_ret.
  assert (Hout : ∀ o, o ∈ running (planner s) → o ∉ drafts.*1 → untouched o s s3).
  { intros o Ho Hn. destruct (Hun x o Ho) as (U1 & U2 & U3).
    destruct (harvest_untouched _ _ _ _ _ _ o Hg2 Hh U1) as (V1 & V2 & V3).
    - intros (y & -> & (e & -> & He)%list_elem_of_fmap)%list_elem_of_fmap. by eapply Forall_forall in Hem as [? _].
    - split_and!; [done| |]; etrans; done. }
  assert (Hev3 : evolves s s3) by (eapply evolves_trans; [exact Hev2|by eapply harvested_evolves]).
  assert (Hdl : ∀ o, o ∈ drafts.*1 → o ∈ l) by (intros o Ho; rewrite <- Hperm; apply elem_of_app; by left).
  split.
  2:{ intros o Ho%dedup_elem%(h_advanced _ _ _ _ _ _ _ _ _ Hh). apply Hdl.
      apply list_elem_of_fmap in Ho as (y & -> & (e & -> & He)%list_elem_of_fmap).
      by eapply Forall_forall in Hem as [? _]. }
  split; [| done|done| |].
  - eapply good_weaken; [| |exact (h_good _ _ _ _ _ _ _ _ _ Hh)]; [by intros o []|done].
  - apply Forall_forall. intros o Ho. apply (untouched_decodable s); [done| |].
    + apply Hout; [by eapply Forall_forall in Hl as [? _]; [|apply Hsub]|]. intros Hd. by apply (Hdis o).
    + eapply Forall_forall in Hl; [exact Hl|by apply Hsub].
  - intros o Ho Hn. apply Hout; [done|]. intros Hd. apply Hn. rewrite <- Hperm. set_solver.
Qed.

(** ** Execution *)

Notation Launched := (Work * list Z * option (PassLogprobs LP))%type.

Lemma execute_Ok work s :
  Forall (λ w, fits k c resumes (work_plan w)) work →
  returns (execute_lockstep work s) (λ '(done_, s'),
    Forall2 (λ w (e : Launched), e.1.1 = w ∧ answers (work_plan w) e.1.2 e.2) work done_ ∧
    s' = set_executor (executor s') s).
Proof.
  intros Hf. unfold execute_lockstep. eapply returns_mono.
  - apply (returns_rfold (λ pre '(done_, s1),
      Forall2 (λ w (e : Launched), e.1.1 = w ∧ answers (work_plan w) e.1.2 e.2) pre done_ ∧
      s1 = set_executor (executor s1) s)).
    + split; [constructor|by destruct s].
    + intros pre w post [done_ s1] El [Hd Hs].
      destruct (execute_ok (work_plan w) (executor s1)) as (toks & lps & x & E & Ha).
      { rewrite Forall_forall in Hf. apply Hf. rewrite El. apply elem_of_app. right. left. }
      unfold execute_one. rewrite E. cbn [mbind result_bind]. apply returns_ret. split.
      * apply Forall2_app; [done|]. by apply Forall2_cons.
      * rewrite Hs. done.
  - by intros [? ?].
Qed.

(** ** Collection *)

(** Prompt records that fit the prompt. *)
Lemma attribute_one_Ok owed s o start records :
  good digest owed nobody s → o ∈ running (planner s) → (0 ≤ start)%Z →
  (∀ r l, heap (planner s) !! o = Some r → records = Some l → l ≠ [] →
    start + Z.of_nat (length l) < Z.of_nat (Req.prompt_len r))%Z →
  returns (attribute_one (o, start, records) s) (λ s',
    good digest owed nobody s' ∧ s' = set_fronts (fronts s') s).
Proof.
  intros Hg Hin Hs Hfit. unfold attribute_one.
  destruct records as [records|]; [|apply returns_ret; split; [done|by destruct s]].
  destruct (live_parts digest _ _ s o Hg (running_live _ _ Hin)) as (r & f & d & Hr & Hf & _).
  rewrite (request_Ok _ _ _ Hr). cbn [mbind result_bind]. rewrite (front_Ok _ _ _ Hf).
  cbn [mbind result_bind]. set (placed := default _ _).
  assert (Hlen : length placed = Req.prompt_len r).
  { unfold placed. destruct (fr_prompt_logprobs f) as [l|] eqn:El; cbn; [|apply length_replicate].
    by apply (g_records _ _ _ _ Hg o r f l (running_live _ _ Hin)). }
  apply returns_bind. eapply returns_mono.
  - apply (returns_rfold (λ _ (l : list (option LP)), length l = Req.prompt_len r)); [done|].
    intros pre [j record] post l El Hl. unfold put_record.
    assert (Hj : j < length records).
    { assert ((j, record) ∈ zip (seq 0 (length records)) records) as Hz by (rewrite El; apply elem_of_app; right; left).
      apply elem_of_enumerate in Hz. by apply lookup_lt_Some in Hz. }
    destruct (lookup_lt_is_Some_2 l (Z.to_nat start + j + 1)) as [v Hv].
    { rewrite Hl. assert (records ≠ []) as Hne by (intros E; rewrite E in Hj; cbn in Hj; lia).
      pose proof (Hfit r records Hr eq_refl Hne). lia. }
    rewrite (item_Ok _ _ _ Hv). apply returns_ret. by rewrite length_insert.
  - intros placed' Hp. apply returns_ret. split; [|by destruct s].
    apply update_front_good; [by apply running_live| |done]. intros f' r' l _ Hr' _ [= <-]. congruence.
Qed.

(** Records come back for sequences that asked, so one sequence of the pass did. *)
Lemma any_records_asked i toks lps (l : PassLogprobs LP) :
  answers i toks lps → lps = Some l → any_records (lp_prompt l) = true →
  in_prompt_logprobs i ≠ [] ∧ length (lp_prompt l) = length (slots i).
Proof.
  intros Ha -> Hany. unfold any_records in Hany. apply existsb_exists in Hany as (x & Hin & Hx).
  apply list_elem_of_In, list_elem_of_lookup in Hin as [j Hj]. destruct x as [records|]; [|done]. split.
  - destruct (ans_asked _ _ _ Ha l j records eq_refl Hj) as [top Htop]. intros E. by rewrite E in Htop.
  - destruct (ans_prompt _ _ _ Ha l eq_refl) as [E|E]; [by rewrite E in Hj|done].
Qed.

(** The shapes [ModelInput] checked. *)
Lemma make_input_lengths i : make_input i = Ok i →
  length (slots i) = length (seq_starts i) ∧ length (seq_starts i) = length (seq_lens i) ∧
  (in_prompt_logprobs i = [] ∨ length (in_prompt_logprobs i) = length (slots i)).
Proof.
  unfold make_input. intros E. repeat apply bind_Ok in E as (? & ? & E).
  repeat match goal with H : rguard (bool_decide ?P) _ = Ok _ |- _ =>
    unfold rguard in H; destruct (bool_decide_reflect P); [clear H|discriminate H] end. tauto.
Qed.

(** A pass with its answers. *)
Definition collectable s (e : Launched) : Prop :=
  promised s e.1.1 ∧ fits k c resumes (work_plan e.1.1) ∧ answers (work_plan e.1.1) e.1.2 e.2.

Lemma attribute_pass_Ok owed s (e : Launched) :
  good digest owed nobody s → collectable s e →
  returns (attribute_pass e.1.1 e.2 s) (λ s', good digest owed nobody s' ∧ s' = set_fronts (fronts s') s).
Proof.
  destruct e as [[w toks] lps]. intros Hg (Hp & Hfit & Ha). cbn [fst snd] in *. unfold attribute_pass.
  assert (Hskip : returns (Ok s) (λ s', good digest owed nobody s' ∧ s' = set_fronts (fronts s') s)).
  { apply returns_ret. split; [done|by destruct s]. }
  destruct lps as [lps|]; [|exact Hskip]. destruct (any_records (lp_prompt lps)) eqn:Eany; [|exact Hskip].
  destruct (any_records_asked _ _ _ lps Ha eq_refl Eany) as [Hne Hl].
  pose proof (make_input_lengths _ (fit_input _ _ _ _ Hfit)) as (Hm1 & Hm2 & Hm3).
  destruct (p_chunks _ _ Hp) as [?|[H1 H2]]; [done|]. unfold attribute_prompt_logprobs.
  apply returns_guard; [apply bool_decide_eq_true; split; congruence|].
  eapply returns_mono.
  - apply (returns_rfold (λ _ s', good digest owed nobody s' ∧ s' = set_fronts (fronts s') s)).
    + split; [done|by destruct s].
    + intros pre [[o start] records] post s1 El [Hg1 Hs1].
      assert (Hz : ((o, start), records) ∈ zip (zip (work_chunks w) (seq_starts (work_plan w))) (lp_prompt lps))
        by (rewrite El; apply elem_of_app; right; left).
      apply list_elem_of_lookup in Hz as [i Hi].
      apply lookup_zip_with_Some in Hi as ([o' st] & rec & [= <- <- <-] & Hi & Hrec).
      apply lookup_zip_with_Some in Hi as (o' & st & [= <- <-] & Ho & Hst).
      destruct (Forall2_lookup_l _ _ _ _ _ (fit_spans _ _ _ _ Hfit) Hst) as (b & Hb & Hspan).
      destruct (p_rows _ _ Hp i o start b Ho Hst Hb) as (Hin & r & Hr & Hab & Hns).
      eapply returns_mono.
      * assert (Hpl : planner s1 = planner s) by (rewrite Hs1; done).
        apply (attribute_one_Ok owed s1 o start records Hg1); rewrite ?Hpl; [done|lia|].
        intros r' l Hr' -> Hl0. assert (r' = r) as -> by congruence.
        assert (Hch : chunk_lens (work_plan w) !! i = Some (b - start)%Z).
        { unfold chunk_lens. apply lookup_zip_with_Some. by exists start, b. }
        pose proof (ans_records _ _ _ Ha lps i l (b - start)%Z eq_refl Hrec Hch) as Hle.
        case_decide as Hd; [lia|]. specialize (Hns Hd). lia.
      * intros s2 [Hg2 Hs2]. split; [done|]. rewrite Hs2, Hs1. done.
  - done.
Qed.

Lemma pass_tokens_Ok s (e : Launched) :
  collectable s e →
  returns (pass_tokens e.1.1 e.1.2 e.2) (λ emitted, emitted.*1.*1 = work_requests e.1.1 ∧
    Forall (λ x, Chain.is_token x.1.2) emitted).
Proof.
  destruct e as [[w toks] lps]. intros (Hp & _ & Ha). cbn [fst snd] in *. unfold pass_tokens.
  pose proof (ans_length _ _ _ Ha) as Hl. pose proof (p_sampled _ _ Hp) as Hs.
  assert (Hr : length (pass_records w lps) = length toks).
  { unfold pass_records. destruct lps as [lps|]; [|rewrite length_replicate; congruence].
    case_decide as E; [rewrite length_replicate; congruence|].
    destruct (ans_sampled _ _ _ Ha lps eq_refl) as [E'|E']; [by rewrite E' in E|done]. }
  apply returns_guard; [apply bool_decide_eq_true; split; congruence|]. apply returns_ret. split.
  - rewrite fst_zip by (rewrite length_zip; lia). apply fst_zip. lia.
  - apply Forall_lookup. intros i [[o t] rec] (e & rec' & [= <- <-] & He & _)%lookup_zip_with_Some.
    apply lookup_zip_with_Some in He as (o' & t' & [= <- <-] & _ & Ht). cbn.
    by apply (Forall_lookup_1 _ _ _ _ (ans_tokens _ _ _ Ha) Ht).
Qed.

Lemma promised_planner s s' w : planner s' = planner s → promised s w → promised s' w.
Proof. intros E []. split; by rewrite ?E. Qed.

(** Collecting the passes of a step: every sampled request is emitted for. *)
Lemma collect_Ok owed s (es : list Launched) :
  good digest owed nobody s → Forall (collectable s) es →
  returns (rfold collect_one es ([], s)) (λ '(emitted, s'), good digest owed nobody s' ∧
    s' = set_fronts (fronts s') s ∧
    emitted.*1.*1 = concat ((λ e, work_requests e.1.1) <$> es) ∧
    Forall (λ e, e.1.1 ∈ running (planner s) ∧ Chain.is_token e.1.2) emitted).
Proof.
  intros Hg Hes. apply (returns_rfold (λ pre '(emitted, s'), good digest owed nobody s' ∧
    s' = set_fronts (fronts s') s ∧ emitted.*1.*1 = concat ((λ e, work_requests e.1.1) <$> pre) ∧
    Forall (λ e, e.1.1 ∈ running (planner s) ∧ Chain.is_token e.1.2) emitted)).
  { split_and!; [done|by destruct s|done|constructor]. }
  intros pre e post [emitted s1] El (Hg1 & Hs1 & Hids & Hem).
  assert (He : collectable s e) by (rewrite Forall_forall in Hes; apply Hes; rewrite El; apply elem_of_app; right; left).
  assert (He1 : collectable s1 e).
  { destruct He as (H1 & H2 & H3). split_and!; [|done|done].
    apply (promised_planner s); [by rewrite Hs1|done]. }
  destruct e as [[w toks] lps]. unfold collect_one.
  step_with (attribute_pass_Ok owed s1 (w, toks, lps) Hg1 He1). intros s2 [Hg2 Hs2].
  step_with (pass_tokens_Ok s1 (w, toks, lps) He1). intros more [Hm1 Hm2]. apply returns_ret.
  split_and!; [done| | |].
  - rewrite Hs2, Hs1. done.
  - rewrite !fmap_app, concat_app, Hids, Hm1. cbn. by rewrite app_nil_r.
  - apply Forall_app. split; [done|]. apply Forall_forall. intros x Hx. split.
    + apply (p_running _ _ (proj1 He)). cbn [fst] in Hm1 |- *. rewrite <- Hm1. by do 2 apply list_elem_of_fmap_2.
    + by eapply Forall_forall in Hm2.
Qed.
End Laws.
End Sync.
End Sync.
