(* ===== verification/SchedulerOps.v ===== *)
(** * The other operations of the engine loop

    Submissions, tokenizing jobs and aborts: what each answers, and that each
    keeps the invariant between steps. *)

From S2P Require Export SchedulerSync.

Module Ops.
Import Planner Inv Stages Steps Sched SchedInv Harvest Passes Evolve Sync.

Section Ops.
Context {T X LP : Type} `{!Offload.OffloadingManager T}
  (digest : list Z → list Z) (digest_ok : Chain.digest_ok digest).

Notation Scheduler := (@Scheduler T X LP).
Implicit Types (s : Scheduler) (r : Req.Request) (owed full : nat → Prop).
Notation good := (SchedInv.good digest nobody nobody).

(** ** Changes outside the queues *)

Lemma frame_evolves s s' :
  good s → settings s' = settings s → same_limits (planner s) (planner s') →
  (∀ o r, heap (planner s) !! o = Some r → o ∈ live (planner s) ∨ Req.is_finished r = true →
    heap (planner s') !! o = Some r) →
  (∀ o, o ∈ live (planner s) → o ∈ live (planner s')) → evolves s s'.
Proof.
  intros Hg Hset Hlim Hheap Hlive. split; [done| |].
  - intros o r Ho Hr. exists r. split_and!; [by apply Hheap; auto|done| |left; auto].
    destruct (g_room _ _ _ _ Hg o r Ho Hr) as [_ Hs]. specialize (Hs (λ x, x)). lia.
  - intros o r Hr Hf. rewrite (Hheap o r Hr); auto.
Qed.

Lemma tokenizing_good s l :
  good s → NoDup l.*1 → (∀ e, e ∈ l → job_ok s e) → good (set_tokenizing l s).
Proof. intros [] Hnd Hj. by split. Qed.

Lemma filter_jobs s rid :
  good s → good (set_tokenizing (filter (λ e, e.1 ≠ rid) (tokenizing s)) s).
Proof.
  intros Hg. apply tokenizing_good; [done| |].
  - eapply sublist_NoDup; [apply (g_keys _ _ _ _ Hg)|]. apply fmap_sublist, sublist_filter.
  - intros e [_ He]%list_elem_of_filter. by apply (g_jobs _ _ _ _ Hg).
Qed.

(** An object no queue and no job knows. *)
Definition offline s (oid : nat) : Prop :=
  oid ∉ live (planner s) ∧ ∀ e, e ∈ tokenizing s → job_request e.2 ≠ oid.

Definition with_object (oid : nat) r (f : Front LP) s : Scheduler :=
  set_fronts (<[oid := f]> (fronts s)) (set_planner (new_object oid r (planner s)) s).

Lemma object_good s oid r f objects ids :
  good s → offline s oid → next_object s ≤ objects → oid < objects →
  good (set_counters objects ids (step_count s) (with_object oid r f s)).
Proof.
  intros Hg [Hl Hj] Hn Ho. pose proof Hg as [].
  pose proof (new_object_wf digest (planner s) oid r g_wf0 Hl) as Hwf.
  set (p' := new_object oid r (planner s)) in *.
  assert (Hheap : ∀ o, o ≠ oid → heap p' !! o = heap (planner s) !! o).
  { intros o Hne. cbn. by rewrite lookup_insert_ne. }
  assert (Hlive : ∀ o, o ∈ live (planner s) → o ≠ oid) by (by intros o Hin ->).
  split; try done.
  - intros o Hs. cbn in Hs |- *. destruct (decide (o = oid)) as [->|Hne]; [done|].
    rewrite lookup_insert_ne in Hs by done. apply g_new0 in Hs. lia.
  - intros o Hs. cbn in Hs |- *. destruct (decide (o = oid)) as [->|Hne].
    + rewrite lookup_insert_eq. by eexists.
    + rewrite lookup_insert_ne in Hs by done. rewrite lookup_insert_ne by done. by apply g_front0.
  - intros o ro Hin. change (heap p' !! o = Some ro → (end_of ro ≤ Z.of_nat (max_seq_len (config (planner s))))%Z ∧
      (¬ nobody o → (Z.of_nat (Req.seq_len ro) < end_of ro)%Z)).
    rewrite Hheap by (by apply Hlive). by apply g_room0.
  - intros o ro Hin. change (heap p' !! o = Some ro → ¬ nobody o → Req.prefill_done ro = true →
      Req.output_token_ids ro ≠ []).
    rewrite Hheap by (by apply Hlive, running_live). by apply g_ready0.
  - intros o ro fo l Hin. change (heap p' !! o = Some ro → (<[oid := f]> (fronts s)) !! o = Some fo →
      fr_prompt_logprobs fo = Some l → length l = Req.prompt_len ro).
    assert (o ≠ oid) by (by apply Hlive). rewrite Hheap, lookup_insert_ne by done. by apply g_records0.
  - intros e He. destruct (g_jobs0 e He) as (J1 & J2 & J3 & J4 & J5). pose proof (Hj e He) as Hne.
    split_and!; try done.
    + destruct J3 as (rj & ? & ?). exists rj.
      change (heap p' !! job_request e.2 = Some rj ∧ Req.request_id rj = e.1 ∧ submittable rj). by rewrite Hheap.
    + intros fo. cbn. rewrite lookup_insert_ne by done. apply J4.
Qed.

Lemma object_evolves s oid r f objects ids :
  good s → oid ∉ live (planner s) →
  (∀ r0, heap (planner s) !! oid = Some r0 → Req.is_finished r0 = false) →
  evolves s (set_counters objects ids (step_count s) (with_object oid r f s)).
Proof.
  intros Hg Hl Hfin. apply frame_evolves; try done. intros o ro Hro Hcase. cbn.
  rewrite lookup_insert_ne; [done|]. intros <-. destruct Hcase as [?|Hf]; [done|].
  by rewrite (Hfin ro Hro) in Hf.
Qed.

(** ** Registration *)

Lemma new_max_bounds limit r :
  1 ≤ Req.prompt_len r < limit → 1 ≤ new_max limit r ≤ limit - Req.prompt_len r.
Proof. intros Hb. unfold new_max. cbv zeta. destruct (Req.max_gen_len r) as [[|n]|]; lia. Qed.

(** The engine with a request queued. *)
Definition registered s (oid : nat) r : Scheduler :=
  set_detokenizers (<[Req.request_id r := Detok.init 1]> (detokenizers s))
    (set_planner (queued_state (planner s) oid r) s).

Lemma registered_good s oid r f :
  good s → offline s oid → heap (planner s) !! oid = Some r → submittable r →
  requests (planner s) !! Req.request_id r = None → Req.request_id r ∉ (tokenizing s).*1 →
  1 ≤ Req.prompt_len r < max_seq_len (config (planner s)) →
  fronts s !! oid = Some f → fr_prompt_logprobs f = None →
  good (registered s oid r).
Proof.
  intros Hg [Hl Hj] Hr Hsub Hreq Hkey Hlen Hf Hnone. pose proof Hg as [].
  pose proof (queued_wf digest (planner s) oid r g_wf0 Hl Hreq Hsub (proj1 Hlen)) as Hwf.
  set (p' := queued_state (planner s) oid r) in *.
  set (r' := Req.set_max_new_tokens (Z.of_nat (new_max (max_seq_len (config (planner s))) r)) r).
  assert (Hself : heap p' !! oid = Some r') by apply lookup_insert_eq.
  assert (Hheap : ∀ o, o ≠ oid → heap p' !! o = heap (planner s) !! o).
  { intros o Hne. cbn. by rewrite lookup_insert_ne. }
  assert (Hlive : ∀ o, o ∈ live p' ↔ o = oid ∨ o ∈ live (planner s)).
  { intros o. unfold live. cbn. rewrite fmap_app, !elem_of_app. cbn. rewrite list_elem_of_singleton. tauto. }
  split; try done.
  - intros o Hs. cbn in Hs |- *. destruct (decide (o = oid)) as [->|Hne]; [apply g_new0; by exists r|].
    rewrite lookup_insert_ne in Hs by done. by apply g_new0.
  - intros o Hs. cbn in Hs |- *. destruct (decide (o = oid)) as [->|Hne]; [apply g_front0; by exists r|].
    rewrite lookup_insert_ne in Hs by done. by apply g_front0.
  - intros rid. cbn. destruct (decide (rid = Req.request_id r)) as [->|Hne].
    + rewrite !lookup_insert_eq. split; intros _; by eexists.
    + rewrite !lookup_insert_ne by done. apply g_detok0.
  - intros rid d. cbn. destruct (decide (rid = Req.request_id r)) as [->|Hne].
    + rewrite lookup_insert_eq. by intros [= <-].
    + rewrite lookup_insert_ne by done. apply g_one0.
  - intros o ro Ho Hro. change (o ∈ live p') in Ho. change (heap p' !! o = Some ro) in Hro.
    change (config (planner (registered s oid r))) with (config (planner s)).
    destruct (decide (o = oid)) as [->|Hne].
    + rewrite Hself in Hro. injection Hro as <-.
      pose proof (new_max_bounds (max_seq_len (config (planner s))) r Hlen) as Hb.
      destruct Hsub as (_ & _ & Hout & _). unfold end_of, Req.seq_len, Req.prompt_len in *. cbn.
      rewrite Hout. cbn. split; [lia|]. intros _. lia.
    + rewrite Hheap in Hro by done. apply Hlive in Ho as [?|Ho]; [done|]. by apply g_room0.
  - intros o ro Ho Hro. change (o ∈ running (planner s)) in Ho. change (heap p' !! o = Some ro) in Hro.
    rewrite Hheap in Hro; [by apply (g_ready0 o ro)|]. intros ->. by apply Hl, running_live.
  - intros o ro fo l Ho Hro Hfo Hlo. change (o ∈ live p') in Ho. change (heap p' !! o = Some ro) in Hro.
    change (fronts s !! o = Some fo) in Hfo. destruct (decide (o = oid)) as [->|Hne]; [congruence|].
    rewrite Hheap in Hro by done. apply Hlive in Ho as [?|Ho]; [done|]. by apply (g_records0 o ro fo l).
  - intros e He. destruct (g_jobs0 e He) as (J1 & J2 & J3 & J4 & J5). pose proof (Hj e He) as Hne.
    assert (e.1 ≠ Req.request_id r) as Hk.
    { intros E. apply Hkey. rewrite <- E. by apply list_elem_of_fmap_2. }
    split_and!; try done.
    + cbn. by rewrite lookup_insert_ne.
    + change (job_request e.2 ∉ live p'). rewrite Hlive. by intros [|].
    + destruct J3 as (rj & ? & ?). exists rj.
      change (heap p' !! job_request e.2 = Some rj ∧ Req.request_id rj = e.1 ∧ submittable rj). by rewrite Hheap.
Qed.

Lemma registered_evolves s oid r :
  good s → oid ∉ live (planner s) → heap (planner s) !! oid = Some r → submittable r →
  evolves s (registered s oid r).
Proof.
  intros Hg Hl Hr (Hst & _). apply frame_evolves; try done.
  - intros o ro Hro Hcase. cbn. rewrite lookup_insert_ne; [done|]. intros <-.
    destruct Hcase as [?|Hf]; [done|]. assert (ro = r) as -> by congruence.
    unfold Req.is_finished in Hf. by rewrite Hst in Hf.
  - intros o. unfold live. cbn. rewrite fmap_app, !elem_of_app. tauto.
Qed.

(** [_register_request]: an id in use, an empty or an overlong prompt is
    refused. *)
Lemma register_request_Ok s oid r :
  good s → oid ∉ live (planner s) → heap (planner s) !! oid = Some r → submittable r →
  register_request oid s =
  if decide (requests (planner s) !! Req.request_id r = None ∧
             1 ≤ Req.prompt_len r < max_seq_len (config (planner s)))
  then Ok (registered s oid r) else Err ValueError.
Proof.
  intros Hg Hl Hr Hsub. pose proof (add_request_Ok digest (planner s) oid r (g_wf _ _ _ _ Hg) Hl Hr Hsub) as Ha.
  unfold register_request. case_decide; [|by rewrite Ha]. destruct Ha as [-> _]. cbn [mbind result_bind].
  by rewrite (get_Ok _ _ _ (lookup_insert_eq _ _ _)).
Qed.

(** ** Tokenizing jobs *)

Lemma jobs_distinct s e e' :
  good s → e ∈ tokenizing s → e' ∈ tokenizing s → job_request e'.2 = job_request e.2 → e'.1 = e.1.
Proof.
  intros Hg He He' E. destruct (g_jobs _ _ _ _ Hg e He) as (_ & _ & (r & Hr & <- & _) & _).
  destruct (g_jobs _ _ _ _ Hg e' He') as (_ & _ & (r' & Hr' & <- & _) & _). congruence.
Qed.

(** Once its entry is dropped, a job's object is nobody's. *)
Lemma dropped_offline s e :
  good s → e ∈ tokenizing s →
  offline (set_tokenizing (filter (λ e', e'.1 ≠ e.1) (tokenizing s)) s) (job_request e.2).
Proof.
  intros Hg He. split; [apply (g_jobs _ _ _ _ Hg e He)|].
  intros e' [Hne He']%list_elem_of_filter E. by apply Hne, (jobs_distinct s e e').
Qed.

Lemma with_object_update s oid r f g h :
  heap (planner s) !! oid = Some r → fronts s !! oid = Some f →
  update_request oid h (update_front oid g s) = with_object oid (h r) (g f) s.
Proof.
  intros Hr Hf. unfold update_front, update_request, with_object, update, new_object. cbn [planner set_fronts].
  rewrite (alter_insert _ _ r), (alter_insert _ _ f) by done. done.
Qed.

Lemma with_object_request s oid r f h :
  heap (planner s) !! oid = Some r → fronts s !! oid = Some f →
  update_request oid h s = with_object oid (h r) f s.
Proof.
  intros Hr Hf. unfold with_object, update_request, update, new_object. rewrite (alter_insert _ _ r) by done.
  rewrite (insert_id (fronts s)) by done. by destruct s.
Qed.

Lemma counters_id s : set_counters (next_object s) (request_ids s) (step_count s) s = s.
Proof. by destruct s. Qed.

Lemma object_good' s oid r f :
  good s → offline s oid → is_Some (heap (planner s) !! oid) → good (with_object oid r f s).
Proof.
  intros Hg Ho Hs. pose proof (object_good s oid r f (next_object s) (request_ids s) Hg Ho (le_n _)
    (g_new _ _ _ _ Hg oid Hs)) as Hg'. exact (eq_ind _ good Hg' _ (counters_id (with_object oid r f s))).
Qed.

Lemma object_evolves' s oid r f :
  good s → oid ∉ live (planner s) →
  (∀ r0, heap (planner s) !! oid = Some r0 → Req.is_finished r0 = false) →
  evolves s (with_object oid r f s).
Proof.
  intros Hg Hl Hf. pose proof (object_evolves s oid r f (next_object s) (request_ids s) Hg Hl Hf) as He.
  exact (eq_ind _ (evolves s) He _ (counters_id (with_object oid r f s))).
Qed.

Lemma errors_good s l : good s → good (set_on_errors l s).
Proof. by intros []. Qed.

Lemma shell_evolves s s' : good s → settings s' = settings s → planner s' = planner s → evolves s s'.
Proof. intros Hg E1 E2. apply frame_evolves; rewrite ?E2; try done. Qed.

(** A job that fails keeps its request out of every queue, finished. *)
Definition rejected oid (exc : exn) (has_on_error : bool) s : Scheduler :=
  let s := update_front oid (set_error (Some exc)) s in
  let s := update_request oid (λ r,
    Req.set_finish_reason (Some "invalid") (Req.set_status Req.FINISHED r)) s in
  if has_on_error then set_on_errors (on_errors s ++ [(oid, exc)]) s else s.

Lemma rejected_good s oid exc b r :
  good s → offline s oid → heap (planner s) !! oid = Some r → Req.is_finished r = false →
  good (rejected oid exc b s) ∧ evolves s (rejected oid exc b s) ∧
  tokenizing (rejected oid exc b s) = tokenizing s.
Proof.
  intros Hg Ho Hr Hopen. destruct (g_front _ _ _ _ Hg oid) as [f Hf]; [by exists r|].
  unfold rejected. rewrite (with_object_update s oid r f _ _ Hr Hf). set (s' := with_object _ _ _ s).
  assert (Hg' : good s') by (apply object_good'; [done|done|by exists r]).
  assert (He : evolves s s') by (apply object_evolves'; [done|apply Ho|intros; congruence]).
  destruct b; [|by split_and!]. split_and!; [by apply errors_good| |done].
  eapply evolves_trans; [exact He|by apply shell_evolves].
Qed.

Lemma collect_job_Ok s e :
  good s → e ∈ tokenizing s →
  good (collect_job e.1 e.2 s) ∧ evolves s (collect_job e.1 e.2 s) ∧
  ∀ e', e' ∈ tokenizing s → e'.1 ≠ e.1 → e' ∈ tokenizing (collect_job e.1 e.2 s).
Proof.
  intros Hg He. destruct (g_jobs _ _ _ _ Hg e He) as (J1 & J2 & (r & Hr & Hid & Hsub) & J4 & J5).
  unfold collect_job. destruct (outcome e.2) as [answer|]; [|split_and!; [done|by eapply evolves_refl|done]].
  cbv zeta. set (oid := job_request e.2) in *. set (s1 := set_tokenizing _ s).
  assert (Hg1 : good s1) by (by apply filter_jobs).
  assert (He1 : evolves s s1) by (by apply shell_evolves).
  assert (Ho1 : offline s1 oid) by (by apply dropped_offline).
  assert (Hopen : Req.is_finished r = false) by (unfold Req.is_finished; by rewrite (proj1 Hsub)).
  assert (Ht1 : ∀ e', e' ∈ tokenizing s → e'.1 ≠ e.1 → e' ∈ tokenizing s1).
  { intros e' ? ?. by apply list_elem_of_filter. }
  destruct (g_front _ _ _ _ Hg oid) as [f Hf]; [by exists r|].
  destruct answer as [ids|exc]; cbn [mbind result_bind].
  2:{ destruct (rejected_good s1 oid exc (has_on_error e.2) r Hg1 Ho1 Hr Hopen) as (? & ? & E).
      unfold rejected in *. split_and!; [done|by eapply evolves_trans|]. intros e' ? ?. rewrite E. by apply Ht1. }
  rewrite (with_object_request s1 oid r f _ Hr Hf). set (r2 := Req.set_prompt_token_ids ids r).
  set (s2 := with_object oid r2 f s1).
  assert (Hg2 : good s2) by (apply object_good'; [done|done|by exists r]).
  assert (He2 : evolves s s2).
  { eapply evolves_trans; [exact He1|]. apply object_evolves'; [done|done|]. intros r0 Hr0.
    change (heap (planner s) !! oid = Some r0) in Hr0. congruence. }
  assert (Hr2 : heap (planner s2) !! oid = Some r2) by apply lookup_insert_eq.
  assert (Hsub2 : submittable r2).
  { destruct Hsub as (S1 & S2 & S3 & S4 & _). split_and!; try done. by apply J5. }
  rewrite (register_request_Ok s2 oid r2 Hg2 J2 Hr2 Hsub2). case_decide as Hd.
  - split_and!; [|eapply evolves_trans; [exact He2|by apply registered_evolves]|exact Ht1].
    apply (registered_good s2 oid r2 f); try done.
    + apply Hd.
    + intros (e' & E & [Hne _]%list_elem_of_filter)%list_elem_of_fmap. apply Hne. rewrite <- E. exact Hid.
    + apply Hd.
    + apply lookup_insert_eq.
    + by apply J4.
  - destruct (rejected_good s2 oid ValueError (has_on_error e.2) r2 Hg2 Ho1 Hr2 Hopen) as (? & ? & E).
    unfold rejected in *. split_and!; [done|by eapply evolves_trans|]. intros e' ? ?. rewrite E. by apply Ht1.
Qed.

Lemma collect_jobs_Ok l : ∀ s,
  good s → NoDup l.*1 → (∀ e, e ∈ l → e ∈ tokenizing s) →
  let s' := foldl (λ s e, collect_job e.1 e.2 s) s l in good s' ∧ evolves s s'.
Proof.
  induction l as [|e l IH]; intros s Hg Hnd Hin; [split; [done|by eapply evolves_refl]|].
  rewrite fmap_cons in Hnd. apply NoDup_cons in Hnd as [Hn Hnd]. cbn [foldl].
  destruct (collect_job_Ok s e Hg) as (Hg1 & He1 & Hkeep); [apply Hin; by left|].
  destruct (IH (collect_job e.1 e.2 s)) as [Hg2 He2]; [done|done| |].
  - intros e' He'. apply Hkeep; [apply Hin; by right|]. intros E. apply Hn. rewrite <- E.
    by apply list_elem_of_fmap_2.
  - split; [done|by eapply evolves_trans].
Qed.

Lemma collect_tokenized_Ok s : good s → good (collect_tokenized s) ∧ evolves s (collect_tokenized s).
Proof. intros Hg. apply collect_jobs_Ok; [done|apply (g_keys _ _ _ _ Hg)|done]. Qed.

(** [encode_lands]: the environment answers tokens, or an error. *)
Lemma encode_lands_Ok s rid answer :
  good s → (∀ ids, answer = Ok ids → Forall Chain.is_token ids) →
  good (encode_lands rid answer s) ∧ evolves s (encode_lands rid answer s).
Proof.
  intros Hg Ha. split; [|by apply shell_evolves]. unfold encode_lands.
  apply tokenizing_good; [done| |].
  - pose proof (g_keys _ _ _ _ Hg) as Hnd. rewrite <- list_fmap_compose.
    rewrite (list_fmap_ext _ fst (tokenizing s)); [done|]. intros i e _. cbn. by case_decide.
  - intros e' (e & -> & He)%list_elem_of_fmap. destruct (g_jobs _ _ _ _ Hg e He) as (J1 & J2 & J3 & J4 & J5).
    case_decide; [|done]. split_and!; try done. by intros ids [= ->]; apply Ha.
Qed.

(** ** Aborts *)

Lemma retired_evolves s oid r reason p :
  good s → oid ∈ live (planner s) → heap (planner s) !! oid = Some r →
  evolves s (retire (Req.request_id r) (set_planner (retired_state (planner s) oid r reason p) s)).
Proof.
  intros Hg Hl Hr. pose proof (wf_queues _ _ (g_wf _ _ _ _ Hg)) as Hq.
  pose proof (retired_live (planner s) oid r reason p Hq Hl Hr) as Hlive. split; [done| |].
  - intros o ro Ho Hro. destruct (g_room _ _ _ _ Hg o ro Ho Hro) as [_ Hs]. specialize (Hs (λ x, x)).
    cbn [planner set_planner retire set_detokenizers]. cbn [retired_state heap].
    destruct (decide (o = oid)) as [->|Hne].
    + assert (ro = r) as -> by congruence. exists (retired reason r). rewrite lookup_insert_eq.
      split_and!; [done|by apply stamp_extends| |by right].
      change (Z.of_nat (Req.seq_len r) ≤ end_of r)%Z. lia.
    + exists ro. rewrite lookup_insert_ne by done. split_and!; [done|done|lia|left].
      rewrite <- Hlive in Ho. by apply elem_of_cons in Ho as [?|?].
  - intros o ro Hro Hf. cbn. rewrite lookup_insert_ne, Hro; [done|]. intros <-.
    by rewrite (live_unfinished _ _ _ _ _ _ Hg Hl Hro) in Hf.
Qed.

(** [abort]: the request of a job or of a queue ends; an unknown id is
    ignored. *)
Lemma sched_abort_Ok s rid :
  good s →
  returns (Sched.abort digest rid s) (λ '(o, s'), good s' ∧ evolves s s' ∧
    match o with
    | Some oid => ∃ r', heap (planner s') !! oid = Some r' ∧ Req.request_id r' = rid ∧
        Req.status r' = Req.FINISHED ∧ Req.finish_reason r' = Some "abort" ∧ oid ∉ live (planner s')
    | None => s' = s ∧ rid ∉ (tokenizing s).*1 ∧ requests (planner s) !! rid = None
    end).
Proof.
  intros Hg. unfold Sched.abort. destruct (list_find _ (tokenizing s)) as [[i [rid' job]]|] eqn:Efind.
  - apply list_find_Some in Efind as (Hi & E & _). cbn in E. subst rid'.
    apply list_elem_of_lookup_2 in Hi as He.
    destruct (g_jobs _ _ _ _ Hg _ He) as (J1 & J2 & (r & Hr & Hid & Hsub) & _). cbn [fst snd] in *.
    destruct (g_front _ _ _ _ Hg (job_request job)) as [f Hf]; [by exists r|].
    set (s1 := set_tokenizing _ s). assert (Hg1 : good s1) by (by apply filter_jobs).
    rewrite (with_object_request s1 (job_request job) r f _ Hr Hf). apply returns_ret.
    split_and!.
    + apply object_good'; [done|exact (dropped_offline s (rid, job) Hg He)|by exists r].
    + eapply evolves_trans; [by apply (shell_evolves s s1)|]. apply object_evolves'; [done|done|].
      intros r0 Hr0. change (heap (planner s) !! job_request job = Some r0) in Hr0.
      assert (r0 = r) as -> by congruence. unfold Req.is_finished. by rewrite (proj1 Hsub).
    + eexists. split; [apply lookup_insert_eq|]. by split_and!.
  - assert (Hn : rid ∉ (tokenizing s).*1).
    { intros (e & -> & He)%list_elem_of_fmap. eapply list_find_None, Forall_forall in Efind; [|exact He]. done. }
    destruct (abort_Ok digest digest_ok (planner s) rid (g_wf _ _ _ _ Hg))
      as [[Hreq ->]|(oid & r & p & Hreq & Hr & <- & Hl & -> & Hwf')]; cbn [mbind result_bind].
    + apply returns_ret. replace (set_planner (planner s) s) with s by (by destruct s).
      split_and!; [done|by eapply evolves_refl|done|done|done].
    + rewrite (get_Ok _ _ (retired "abort" r)) by apply lookup_insert_eq. cbn [mbind result_bind].
      apply returns_ret. split_and!.
      * eapply good_weaken; [| |exact (retired_good digest nobody nobody s oid r "abort" p Hg Hl Hr Hwf')];
          by intros o [[] ?].
      * exact (retired_evolves s oid r "abort" p Hg Hl Hr).
      * exists (retired "abort" r). split_and!; [apply lookup_insert_eq|done|done|done|].
        pose proof (q_live _ (wf_queues _ _ (g_wf _ _ _ _ Hg))) as Hnd.
        rewrite <- (retired_live (planner s) oid r "abort" p (wf_queues _ _ (g_wf _ _ _ _ Hg)) Hl Hr) in Hnd.
        by apply NoDup_cons in Hnd as [? _].
Qed.

(** ** Submissions *)

#[global] Instance generated_id_inj : Inj (=) (=) generated_id.
Proof. intros n m E. unfold generated_id in E. apply (inj (String.append _)) in E. by apply (inj pretty). Qed.

Lemma fresh_id_cases s fuel : ∀ n,
  (∃ m, n ≤ m ∧ fresh_id fuel n s = Ok (generated_id m, S m) ∧ _request_id_in_use (generated_id m) s = false ∧
    ∀ j, n ≤ j < m → _request_id_in_use (generated_id j) s = true) ∨
  ∀ j, n ≤ j < n + fuel → _request_id_in_use (generated_id j) s = true.
Proof.
  induction fuel as [|fuel IH]; intros n; [right; lia|]. cbn [fresh_id].
  destruct (_request_id_in_use (generated_id n) s) eqn:E.
  - destruct (IH (S n)) as [(m & Hm & E' & Hfree & Hused)|Hused].
    + left. exists m. split_and!; [lia|done|done|]. intros j Hj.
      destruct (decide (j = n)) as [->|]; [done|]. apply Hused. lia.
    + right. intros j Hj. destruct (decide (j = n)) as [->|]; [done|]. apply Hused. lia.
  - left. exists n. split_and!; [lia|done|done|lia].
Qed.

(** The search for an id ends: [id_fuel] is enough. *)
Lemma fresh_id_Ok s n :
  ∃ m, n ≤ m ∧ fresh_id (id_fuel s) n s = Ok (generated_id m, S m) ∧
    _request_id_in_use (generated_id m) s = false ∧
    ∀ j, n ≤ j < m → _request_id_in_use (generated_id j) s = true.
Proof.
  destruct (fresh_id_cases s (id_fuel s) n) as [Hm|Hall]; [done|]. exfalso.
  set (used := (tokenizing s).*1 ++ elements (dom (detokenizers s)) ++ elements (dom (requests (planner s)))).
  assert (Hsub : (generated_id <$> seq n (id_fuel s)) ⊆+ used).
  { apply NoDup_submseteq; [apply NoDup_fmap_2; [apply _|apply NoDup_seq]|].
    intros rid (j & -> & Hj%elem_of_seq)%list_elem_of_fmap. specialize (Hall j Hj).
    unfold _request_id_in_use, has_request_id in Hall. unfold used. rewrite !elem_of_app, !elem_of_elements, !elem_of_dom.
    apply orb_true_iff in Hall as [Hall|Hall]; [apply orb_true_iff in Hall as [Hall|Hall]|];
      apply bool_decide_eq_true in Hall; tauto. }
  apply submseteq_length in Hsub. unfold used in Hsub.
  rewrite length_fmap, length_seq, !length_app, length_fmap in Hsub.
  change (length (elements (dom (detokenizers s)))) with (size (dom (detokenizers s))) in Hsub.
  change (length (elements (dom (requests (planner s))))) with (size (dom (requests (planner s)))) in Hsub.
  rewrite !size_dom in Hsub. unfold id_fuel in Hsub. lia.
Qed.

Lemma id_free rid s :
  _request_id_in_use rid s = false ↔
  rid ∉ (tokenizing s).*1 ∧ detokenizers s !! rid = None ∧ requests (planner s) !! rid = None.
Proof.
  unfold _request_id_in_use, has_request_id. rewrite !orb_false_iff, !bool_decide_eq_false.
  rewrite !eq_None_not_Some. tauto.
Qed.

(** A new object holding a submission. *)
Definition made (s : Scheduler) (n : nat) (prompt : Text.text) (p : SamplingParams) (r : Req.Request) : Scheduler :=
  set_counters (S (next_object s)) n (step_count s) (with_object (next_object s) r (fresh_front prompt p) s).

Lemma next_offline s : good s → offline s (next_object s) ∧ heap (planner s) !! next_object s = None.
Proof.
  intros Hg. assert (Hnone : heap (planner s) !! next_object s = None).
  { apply eq_None_not_Some. intros Hs%(g_new _ _ _ _ Hg). lia. }
  split; [split|done].
  - intros Hl. destruct (live_parts digest _ _ _ _ Hg Hl) as (r & _ & _ & Hr & _). congruence.
  - intros e He E. destruct (g_jobs _ _ _ _ Hg e He) as (_ & _ & (r & Hr & _) & _). congruence.
Qed.

Lemma made_Ok s n prompt p r :
  good s → good (made s n prompt p r) ∧ evolves s (made s n prompt p r) ∧
  offline (made s n prompt p r) (next_object s).
Proof.
  intros Hg. destruct (next_offline s Hg) as [Ho Hnone]. split_and!.
  - apply object_good; [done|done|lia|lia].
  - apply object_evolves; [done|apply Ho|]. intros r0 Hr0. congruence.
  - exact Ho.
Qed.

(** The object waits for its encode. *)
Definition deferred s n prompt p rid on_error : Scheduler :=
  set_tokenizing (tokenizing s ++ [(rid, MkJob (next_object s) None on_error)])
    (made s n prompt p (Req.fresh rid [] (max_gen_len p))).

Lemma deferred_Ok s n prompt p rid on_error :
  good s → _request_id_in_use rid s = false →
  good (deferred s n prompt p rid on_error) ∧ evolves s (deferred s n prompt p rid on_error).
Proof.
  intros Hg Hfree. destruct (made_Ok s n prompt p (Req.fresh rid [] (max_gen_len p)) Hg) as (Hg1 & He1 & Ho1).
  apply id_free in Hfree as (Hk & _ & Hreq). split; [|by eapply evolves_trans; [exact He1|apply shell_evolves]].
  apply tokenizing_good; [done| |].
  - rewrite fmap_app. apply NoDup_app. split_and!; [apply (g_keys _ _ _ _ Hg)| |by apply NoDup_singleton].
    intros x Hx Hx'%list_elem_of_singleton. by subst x.
  - intros e [He|He]%elem_of_app; [by apply (g_jobs _ _ _ _ Hg1)|]. apply list_elem_of_singleton in He as ->.
    split_and!; cbn [fst snd job_request outcome]; [exact Hreq|apply Ho1| | |done].
    + exists (Req.fresh rid [] (max_gen_len p)). split; [apply lookup_insert_eq|]. split; [done|].
      by split_and!.
    + intros f. cbn. rewrite lookup_insert_eq. by intros [= <-].
Qed.

(** The object is queued at once. *)
Definition queued s n prompt p rid ids : Scheduler :=
  let r := Req.fresh rid ids (max_gen_len p) in registered (made s n prompt p r) (next_object s) r.

Lemma queued_Ok s n prompt p rid ids :
  good s → _request_id_in_use rid s = false → Forall Chain.is_token ids →
  1 ≤ length ids < max_seq_len (config (planner s)) →
  good (queued s n prompt p rid ids) ∧ evolves s (queued s n prompt p rid ids).
Proof.
  intros Hg Hfree Ht Hlen. unfold queued. set (r := Req.fresh rid ids (max_gen_len p)).
  destruct (made_Ok s n prompt p r Hg) as (Hg1 & He1 & Ho1). apply id_free in Hfree as (Hk & _ & Hreq).
  assert (Hr : heap (planner (made s n prompt p r)) !! next_object s = Some r) by apply lookup_insert_eq.
  assert (Hsub : submittable r) by by split_and!. split.
  - apply (registered_good (made s n prompt p r) (next_object s) r (fresh_front prompt p)); try done.
    apply lookup_insert_eq.
  - eapply evolves_trans; [exact He1|]. apply registered_evolves; [done|apply Ho1|done|done].
Qed.

Lemma register_made s n prompt p rid ids :
  good s → _request_id_in_use rid s = false → Forall Chain.is_token ids →
  register_request (next_object s) (made s n prompt p (Req.fresh rid ids (max_gen_len p))) =
  if decide (1 ≤ length ids < max_seq_len (config (planner s)))
  then Ok (queued s n prompt p rid ids) else Err ValueError.
Proof.
  intros Hg Hfree Ht. set (r := Req.fresh rid ids (max_gen_len p)).
  destruct (made_Ok s n prompt p r Hg) as (Hg1 & He1 & Ho1). apply id_free in Hfree as (Hk & _ & Hreq).
  assert (Hr : heap (planner (made s n prompt p r)) !! next_object s = Some r) by apply lookup_insert_eq.
  rewrite (register_request_Ok _ _ r Hg1 (proj1 Ho1) Hr); [|by split_and!].
  unfold queued. fold r. apply decide_ext. split; [by intros [_ ?]|]. by intros ?.
Qed.

(** [add_request], all its answers. *)
Lemma sched_add_request_cases encode prompt params rid ids on_error s :
  good s → (∀ l, encode prompt = Ok l → Forall Chain.is_token l) →
  (∀ l, ids = Some l → Forall Chain.is_token l) →
  let p := default default_params params in
  (∃ name, rid = Some name ∧ _request_id_in_use name s = true ∧
    Sched.add_request encode prompt params rid ids on_error s = Err ValueError) ∨
  ∃ name n, _request_id_in_use name s = false ∧ (∀ x, rid = Some x → x = name) ∧
    Sched.add_request encode prompt params rid ids on_error s =
      match ids, async_tokenize (settings s) with
      | None, true => Ok (next_object s, deferred s n prompt p name on_error)
      | _, _ =>
          l ← (match ids with Some l => Ok l | None => encode prompt end);
          if decide (1 ≤ length l < max_seq_len (config (planner s)))
          then Ok (next_object s, queued s n prompt p name l) else Err ValueError
      end.
Proof.
  intros Hg Henc Hids p. unfold Sched.add_request.
  assert (Hphase : (∃ name, rid = Some name ∧ _request_id_in_use name s = true) ∨
    ∃ name n, _request_id_in_use name s = false ∧ (∀ x, rid = Some x → x = name) ∧
      (match rid with
       | None =>
         '(rid, n) ← fresh_id (id_fuel s) (request_ids s) s;
         Ok (rid, set_counters (next_object s) n (step_count s) s)
       | Some rid =>
         _ ← rguard (negb (_request_id_in_use rid s)) ValueError;
         Ok (rid, s)
       end) = Ok (name, set_counters (next_object s) n (step_count s) s)).
  { destruct rid as [name|].
    - destruct (_request_id_in_use name s) eqn:E; [left; by exists name|right]. exists name, (request_ids s).
      split_and!; [done|by intros x [= ->]|]. cbn. do 2 f_equal. symmetry. apply counters_id.
    - right. destruct (fresh_id_Ok s (request_ids s)) as (m & _ & -> & Hfree & _).
      exists (generated_id m), (S m). by split_and!. }
  destruct Hphase as [(name & -> & E)|(name & n & Hfree & Hname & ->)].
  { left. exists name. by rewrite E. }
  right. exists name, n. split_and!; [done|done|]. cbn [mbind result_bind]. cbv zeta. fold p.
  assert (Hreg : ∀ l, Forall Chain.is_token l →
    ('(oid, s) ← Ok (new_request name prompt l p (set_counters (next_object s) n (step_count s) s));
      s ← register_request oid s; Ok (oid, s)) =
    (if decide (1 ≤ length l < max_seq_len (config (planner s)))
     then Ok (next_object s, queued s n prompt p name l) else Err ValueError)).
  { intros l Ht. cbn [mbind result_bind]. change (new_request name prompt l p _) with
      (next_object s, made s n prompt p (Req.fresh name l (max_gen_len p))).
    cbv beta iota. rewrite (register_made s n prompt p name l Hg Hfree Ht). by case_decide. }
  destruct ids as [ids|].
  - exact (Hreg ids (Hids ids eq_refl)).
  - destruct (async_tokenize (settings s)) eqn:Easync.
    + change (async_tokenize (settings (set_counters _ _ _ s))) with (async_tokenize (settings s)).
      rewrite Easync. done.
    + change (async_tokenize (settings (set_counters _ _ _ s))) with (async_tokenize (settings s)).
      rewrite Easync. destruct (encode prompt) as [l|e]; [|done]. exact (Hreg l (Henc l eq_refl)).
Qed.
End Ops.
End Ops.
