(* ===== verification/SchedulerSpec.v ===== *)
(** * What the engine loop guarantees

    The synchronous scheduler never raises and generates what it should: the
    properties of every run of submissions, aborts, landing encodes and steps. *)

From S2P Require Export SchedulerOps PlannerSpec.

Module SchedSpec.
Import Planner Inv Stages Steps PlannerSpec Sched SchedInv Harvest Passes Evolve Sync Ops.

Section Step.
Context {T X LP Row : Type} `{!Offload.OffloadingManager T} `{!Executor X LP Row}
  (digest : list Z → list Z) (digest_ok : Chain.digest_ok digest)
  (decode_ids : list Z → Text.text) (encode : Text.text → result (list Z)) (is_digit : Z → bool)
  (k c : nat) (resumes : bool) `{!ExecutorLaws X LP Row k c resumes}.

Notation Scheduler := (@Scheduler T X LP).
Notation Launched := (Work * list Z * option (PassLogprobs LP))%type.
Implicit Types (s : Scheduler) (r : Req.Request) (owed full : nat → Prop).
Notation good := (SchedInv.good digest).
Notation evolves := (Evolve.evolves (LP := LP)).

(** ** One synchronous step *)

Lemma promised_untouched s s' w :
  promised s w → (∀ o, o ∈ work_requests w ++ work_chunks w → untouched o s s') → promised s' w.
Proof.
  intros [P1 P2 P3 P4] Hu. split; try done.
  - intros o Ho. apply Hu. apply elem_of_app. by left.
  - intros i o a b Ho Ha Hb. destruct (P4 i o a b Ho Ha Hb) as (_ & r & Hr & Hab & Hn).
    assert (Hin : o ∈ work_requests w ++ work_chunks w).
    { apply elem_of_app. right. by eapply list_elem_of_lookup_2. }
    destruct (Hu o Hin) as (Hrun & Hc & _). split; [done|]. rewrite Hr in Hc.
    destruct (heap (planner s') !! o) as [r'|]; [|done]. apply (inj Some) in Hc. exists r'.
    replace (Req.prompt_len r') with (Req.prompt_len r) by (unfold core, Req.prompt_len in *; congruence).
    done.
Qed.

Lemma count_good owed s : good owed nobody s → good owed nobody (count_step s).
Proof. by intros []. Qed.

Lemma good_settled owed s :
  good owed nobody s →
  (∀ o r, o ∈ running (planner s) → heap (planner s) !! o = Some r → owed o →
    Req.prefill_done r = true → False) → good nobody nobody s.
Proof.
  intros [] Hno. split; try done. intros o r Ho Hr _ Hd.
  apply (g_ready0 o r Ho Hr); [|done]. intros Hw. by apply (Hno o r).
Qed.

Lemma speculated_none owed l s :
  good owed nobody s → NoDup l → Forall (decodable s) l → speculated digest owed l s l s.
Proof.
  intros Hg Hnd Hl. split; [done|by eapply evolves_refl|done|done|]. intros o Ho _. by split_and!.
Qed.

Lemma pass_fits rs s ws :
  sized k c resumes s → Forall (pass_ok rs s) ws → Forall (λ w, fits k c rs (work_plan w)) ws.
Proof. intros (<- & <- & _) Hw. eapply Forall_impl; [exact Hw|]. by intros w [? _]. Qed.

(** The passes planned before speculation still hold after it. *)
Lemma passes_collectable s2 s3 s4 group first later (pending : list Launched) owed l remaining :
  covers_group resumes s2 group first → (∀ o, o ∈ group → o ∈ running (planner s2) ∧ o ∉ l) →
  speculated digest owed l s2 remaining s3 → Forall (pass_ok resumes s3) later → sized k c resumes s2 → sized k c resumes s3 →
  planner s4 = planner s3 →
  Forall2 (λ w (e : Launched), e.1.1 = w ∧ answers (work_plan w) e.1.2 e.2) (first ++ later) pending →
  Forall (collectable k c resumes s4) pending.
Proof.
  intros [Hok Hin _] Hgroup Hsp Hlater (E1 & E1' & _) (E2 & E2' & _) E4 Hpend. apply Forall_forall. intros e He.
  apply list_elem_of_lookup in He as [i Hi].
  destruct (Forall2_lookup_r _ _ _ _ _ Hpend Hi) as (w & Hw & <- & Ha).
  apply list_elem_of_lookup_2, elem_of_app in Hw as [Hw|Hw].
  - rewrite Forall_forall in Hok. destruct (Hok _ Hw) as [Hf Hp]. rewrite E1, E1' in Hf.
    split_and!; [|done|done]. apply (promised_planner s3); [done|].
    apply (promised_untouched s2); [done|]. intros o Ho. destruct (Hgroup o) as [? ?]; [by eapply Hin|].
    by apply (sp_others _ _ _ _ _ _ Hsp).
  - rewrite Forall_forall in Hlater. destruct (Hlater _ Hw) as [Hf Hp]. rewrite E2, E2' in Hf.
    split_and!; [by apply (promised_planner s3)|done|done].
Qed.

(** Whoever was prefilled to the end has its token in the harvest. *)
Lemma settled group first (pending : list Launched) later s2 s3 s5 s6 check emitted advanced owed l remaining :
  covers_group resumes s2 group first → (∀ o, o ∈ group → o ∈ running (planner s2) ∧ o ∉ l) →
  speculated digest owed l s2 remaining s3 → planner s5 = planner s3 →
  Forall2 (λ w (e : Launched), e.1.1 = w ∧ answers (work_plan w) e.1.2 e.2) (first ++ later) pending →
  emitted.*1.*1 = concat ((λ e, work_requests e.1.1) <$> pending) →
  good (λ o, o ∈ group) nobody s5 →
  harvested digest decode_ids is_digit check (λ o, o ∈ group) s5 emitted advanced s6 →
  good nobody nobody s6.
Proof.
  intros Hcov Hgroup Hsp E5 Hpend Hem Hg5 Hh. apply (good_settled _ s6 (h_good _ _ _ _ _ _ _ _ _ Hh)).
  intros o r Ho Hr [Hog Hn] Hd. destruct (Hgroup o Hog) as [Hrun2 Hnl].
  destruct (sp_others _ _ _ _ _ _ Hsp o Hrun2 Hnl) as (U1 & U2 & _). rewrite <- E5 in U1, U2.
  destruct (harvest_untouched digest decode_ids is_digit _ _ _ _ _ _ o Hg5 Hh U1 Hn) as (_ & V & _).
  rewrite U2, Hr in V. destruct (heap (planner s2) !! o) as [r2|] eqn:Hr2; [|done].
  apply (inj Some) in V. rewrite (core_prefill_done _ _ V) in Hd.
  destruct (cg_all _ _ _ _ Hcov o r2 Hog Hr2 Hd) as (w & Hw & How). apply Hn. rewrite Hem.
  assert (Hw' : w ∈ first ++ later) by (apply elem_of_app; by left).
  apply list_elem_of_lookup in Hw' as [i Hi]. destruct (Forall2_lookup_l _ _ _ _ _ Hpend Hi) as (e & He & <- & _).
  apply elem_of_concat. exists (work_requests e.1.1). split; [done|].
  apply list_elem_of_fmap. exists e. split; [done|]. by eapply list_elem_of_lookup_2.
Qed.

(** The stages of a step: its prefill passes, ... *)
Lemma first_passes_Ok out s1 threshold :
  let s2 := count_step s1 in
  (is_Some threshold → resumes = true) →
  good (λ o, o ∈ prefill out) nobody s1 → plan_sound out (planner s1) →
  Forall2 (λ o c, ∃ r, heap (planner s1) !! o = Some r ∧ c ≤ Req.num_computed_tokens r)
    (prefill out) (prefill_chunk_lens out) →
  returns (if decide (prefill out = []) then Ok []
           else prefill_work (prefill out) (prefill_chunk_lens out) threshold s2) (covers_group resumes s2 (prefill out)).
Proof.
  intros s2 Hres Hg Hsound Hown. pose proof (s_nodup _ _ Hsound) as Hnd. apply NoDup_app in Hnd as (Hnd & _ & _).
  case_decide as E; [rewrite E; apply returns_ret, covers_none|].
  apply (prefill_work_Ok digest (λ o, o ∈ prefill out)); [done|by apply count_good|done| |].
  - intros o Ho. apply (s_running _ _ Hsound). apply elem_of_app. by left.
  - apply Forall2_same_length_lookup_2; [by eapply Forall2_length|]. intros i o n Ho Hn.
    destruct (Forall2_lookup_lr _ _ _ _ _ _ Hown Ho Hn) as (r & Hr & Hle). exists r. split; [done|].
    destruct (Forall_lookup_1 _ _ _ _ (s_chunks _ _ Hsound) Hn) as [? _]. done.
Qed.

(** ... the decode batch, of requests past their prompt, ... *)
Lemma planned_decodable out s1 :
  good (λ o, o ∈ prefill out) nobody s1 → plan_sound out (planner s1) →
  NoDup (decode out) ∧ Forall (decodable (count_step s1)) (decode out) ∧
  ∀ o, o ∈ prefill out → o ∈ running (planner s1) ∧ o ∉ decode out.
Proof.
  intros Hg Hsound. pose proof (s_nodup _ _ Hsound) as Hnd. apply NoDup_app in Hnd as (_ & Hdis & Hnd).
  split_and!; [done| |].
  - apply Forall_forall. intros o Ho. destruct (s_decode _ _ Hsound o Ho) as (r & Hr & Hd & _).
    apply (decodable_good digest (λ o, o ∈ prefill out) (count_step s1) o r); try done; [by apply count_good| |].
    + apply (s_running _ _ Hsound). apply elem_of_app. by right.
    + intros Hp. by apply (Hdis o).
  - intros o Ho. split; [|by apply Hdis]. apply (s_running _ _ Hsound). apply elem_of_app. by left.
Qed.

(** ... its decode pass, ... *)
Lemma later_passes_Ok owed s3 remaining :
  good owed nobody s3 → NoDup remaining → Forall (decodable s3) remaining →
  returns (if decide (remaining = []) then Ok [] else w ← decode_work remaining false s3; Ok [w])
    (Forall (pass_ok resumes s3)).
Proof.
  intros Hg Hnd Hdec. case_decide as E; [by apply returns_ret|].
  step_with (decode_work_Ok digest owed s3 resumes remaining Hg Hnd Hdec E).
  intros w (Hw & _). apply returns_ret. by apply Forall_singleton.
Qed.

(** ... and the harvest of what the passes answered. *)
Lemma finish_step_Ok out first later (pending : list Launched) s2 s3 s4 remaining :
  let owed := λ o, o ∈ prefill out in
  covers_group resumes s2 (prefill out) first →
  (∀ o, o ∈ prefill out → o ∈ running (planner s2) ∧ o ∉ decode out) →
  speculated digest owed (decode out) s2 remaining s3 → Forall (pass_ok resumes s3) later →
  sized k c resumes s2 → sized k c resumes s3 → s4 = set_executor (executor s4) s3 →
  Forall2 (λ w (e : Launched), e.1.1 = w ∧ answers (work_plan w) e.1.2 e.2) (first ++ later) pending →
  returns (rfold collect_one pending ([], s4)) (λ '(emitted, s5),
    returns (harvest digest decode_ids is_digit emitted s5) (λ '(advanced, s6),
      good nobody nobody s6 ∧ evolves s3 s6 ∧ ∀ o, o ∈ advanced → is_Some (heap (planner s6) !! o))).
Proof.
  intros owed Hfirst Hgroup Hsp Hlater Hsz2 Hsz3 Es4 Hpend. pose proof Hsp as [Hg3 Hev3 _ _ _].
  assert (Hg4 : good owed nobody s4) by (rewrite Es4; by apply executor_good).
  pose proof (passes_collectable s2 s3 s4 _ _ _ _ _ _ _ Hfirst Hgroup Hsp Hlater Hsz2 Hsz3
    ltac:(by rewrite Es4) Hpend) as Hcol.
  eapply returns_mono; [exact (collect_Ok digest k c resumes owed s4 pending Hg4 Hcol)|].
  intros [emitted s5] (Hg5 & Es5 & Hids & Hem).
  assert (Hem5 : Forall (λ e, e.1.1 ∈ running (planner s5) ∧ Chain.is_token e.1.2) emitted) by (by rewrite Es5).
  eapply returns_mono; [exact (harvest_Ok digest digest_ok decode_ids is_digit owed s5 emitted Hg5 Hem5)|].
  intros [advanced s6] Hh.
  assert (Hev5 : evolves s3 s5) by (eapply planner_evolves; [exact Hg3|by rewrite Es5, Es4|by rewrite Es5, Es4]).
  assert (Hev6 : evolves s5 s6) by (by eapply harvested_evolves).
  split_and!; [|by eapply evolves_trans|].
  - eapply (settled (prefill out) first pending later s2 s3 s5); try done. by rewrite Es5, Es4.
  - intros o Ho. apply (h_advanced _ _ _ _ _ _ _ _ _ Hh) in Ho.
    apply list_elem_of_fmap in Ho as (y & -> & (e & -> & He)%list_elem_of_fmap).
    eapply Forall_forall in Hem5 as [Ho _]; [|exact He].
    destruct (q_running _ (wf_queues _ _ (g_wf _ _ _ _ Hg5)) _ Ho) as (r & Hr & _).
    destruct (ev_live _ _ Hev6 _ r (running_live _ _ Ho) Hr) as (r' & ? & _). by exists r'.
Qed.

Lemma step_Ok s :
  good nobody nobody s → sized k c resumes s →
  returns (step_synchronous digest decode_ids is_digit s) (λ '(advanced, s'), good nobody nobody s' ∧
    evolves s s' ∧ ∀ o, o ∈ advanced → is_Some (heap (planner s') !! o)).
Proof.
  intros Hg Hsz. unfold step_synchronous.
  step_with (schedule_Ok digest digest_ok s Hg). intros [out s1] (Hg1 & Hsound & Hev1 & _ & _ & Hown).
  destruct (is_empty out) eqn:Eempty.
  { apply returns_ret. split_and!; [|done|by intros o ?%elem_of_nil]. apply bool_decide_eq_true in Eempty as [E _].
    eapply good_weaken; [| |exact Hg1]; [|done]. intros o. rewrite E. by intros ?%elem_of_nil. }
  cbv zeta. set (s2 := count_step s1). set (owed := λ o, o ∈ prefill out).
  assert (Hg2 : good owed nobody s2) by (by apply count_good).
  assert (Hev2 : evolves s s2) by (eapply evolves_trans; [exact Hev1|by eapply planner_evolves]).
  assert (Hsz2 : sized k c resumes s2) by (by eapply evolves_sized).
  step_with (first_passes_Ok out s1 (chunked_min_rows (settings s2)) (proj2 (proj2 Hsz2)) Hg1 Hsound Hown). intros first Hfirst.
  destruct (planned_decodable out s1 Hg1 Hsound) as (Hnd & Hdec & Hgroup).
  apply returns_bind. eapply returns_mono.
  { assert (returns (match proposer (settings s2) with
       | Some p => if decide (decode out = []) then Ok ([], decode out, s2)
                   else speculate_verify digest decode_ids is_digit p (decode out) s2
       | None => Ok ([], decode out, s2)
       end) (λ '(spec_advanced, remaining, s3), speculated digest owed (decode out) s2 remaining s3 ∧
        spec_advanced ⊆ decode out)) as Hf; [|exact Hf].
    pose proof (speculated_none owed (decode out) s2 Hg2 Hnd Hdec) as Hnone.
    assert (Hskip : returns (Ok ([], decode out, s2)) (λ '(spec_advanced, remaining, s3),
      speculated digest owed (decode out) s2 remaining s3 ∧ spec_advanced ⊆ decode out)).
    { apply returns_ret. split; [done|]. by intros o ?%elem_of_nil. }
    destruct (proposer (settings s2)) as [p|]; [|done]. case_decide; [done|]. by apply (speculate_verify_Ok digest digest_ok decode_ids is_digit k c resumes). }
  intros [[spec_advanced remaining] s3] [Hsp Hspec]. pose proof Hsp as [Hg3 Hev3 Hnd3 Hdec3 _].
  assert (Hsz3 : sized k c resumes s3) by (by eapply evolves_sized).
  step_with (later_passes_Ok owed s3 remaining Hg3 Hnd3 Hdec3). intros later Hlater.
  assert (Hfits : Forall (λ w, fits k c resumes (work_plan w)) (first ++ later)).
  { apply Forall_app. split; [apply (pass_fits resumes s2)|apply (pass_fits resumes s3)]; try done. apply (cg_ok _ _ _ _ Hfirst). }
  step_with (execute_Ok k c resumes (first ++ later) s3 Hfits). intros [pending s4] [Hpend Es4].
  step_with (finish_step_Ok out first later pending s2 s3 s4 remaining Hfirst Hgroup Hsp Hlater Hsz2 Hsz3 Es4 Hpend).
  intros [emitted s5] Hf. step_with Hf. intros [advanced s6] (Hg6 & Hev6 & Hadv). apply returns_ret.
  assert (Hev : evolves s2 s6) by (by eapply evolves_trans).
  split_and!; [done|by eapply evolves_trans|].
  intros o [Ho|Ho]%elem_of_app; [by apply Hadv|]. apply Hspec in Ho.
  eapply Forall_forall in Hdec as (Hin & r & f & Hr & _); [|exact Ho].
  destruct (ev_live _ _ Hev o r (running_live _ _ Hin) Hr) as (r' & ? & _). by exists r'.
Qed.

(** ** Runs *)

(** What may happen to a scheduler: a submission, an abort, an encode that
    lands, a step; a call that raises is not one of them. *)
Inductive op : Scheduler → Scheduler → Prop :=
  | op_submit s prompt params rid ids on_error o s' :
      (∀ l, ids = Some l → Forall Chain.is_token l) →
      Sched.add_request encode prompt params rid ids on_error s = Ok (o, s') → op s s'
  | op_abort s rid o s' : Sched.abort digest rid s = Ok (o, s') → op s s'
  | op_lands s rid answer :
      (∀ l, answer = Ok l → Forall Chain.is_token l) → op s (encode_lands rid answer s)
  | op_step s advanced s' : Sched.step digest decode_ids is_digit s = Ok (advanced, s') → op s s'.

(** Resumed chunks are sent through the grid only to an executor that takes
    them; the repository's worker may raise on one, so for it this says that the
    chunked kernel is off ([RAPID_FUSED_CHUNK=0], or context parallelism). *)
Definition grids_taken (d : Deployment) (takes : bool) : Prop :=
  fused_chunk d = true → decode_context_parallel d = false → takes = true.

(** A synchronous scheduler between two operations, without an offloading
    tier, on an executor of [k] slots and a context of [c]. *)
Definition reachable s : Prop :=
  ∃ d raw cfg x depth async s0, make_config raw = Ok cfg ∧
    Sched.init d (Some cfg) x false depth async None = Ok s0 ∧
    executor_num_slots d = k ∧ max_seq_len cfg = c ∧
    grids_taken d resumes ∧ rtc op s0 s.

Hypothesis encode_tokens : ∀ prompt l, encode prompt = Ok l → Forall Chain.is_token l.

Lemma engine_init_good d raw cfg x depth async s0 :
  make_config raw = Ok cfg → Sched.init d (Some cfg) x false depth async None = Ok s0 →
  good nobody nobody s0 ∧ pipeline (settings s0) = false ∧
  seats s0 = executor_num_slots d ∧ context s0 = max_seq_len cfg ∧
  (grids_taken d resumes → is_Some (chunked_min_rows (settings s0)) → resumes = true).
Proof.
  intros Hc Hi. unfold Sched.init in Hi. apply bind_Ok in Hi as (u1 & _ & Hi).
  cbn [mbind result_bind] in Hi. apply bind_Ok in Hi as (u2 & _ & Hi). apply bind_Ok in Hi as (u3 & _ & Hi).
  apply bind_Ok in Hi as (u4 & _ & Hi). apply bind_Ok in Hi as (p & Hp & Hi).
  apply bind_Ok in Hi as (u5 & _ & Hi). injection Hi as <-.
  destruct (planner_init_wf digest cfg _ _ p (make_config_ok _ _ Hc) Hp) as (Hwf & Hcfg & Hn).
  assert (Hempty : heap p = ∅ ∧ requests p = ∅ ∧ live p = []).
  { unfold Planner.init in Hp. apply bind_Ok in Hp as (v1 & _ & Hp). cbv zeta in Hp.
    apply bind_Ok in Hp as (v2 & _ & Hp). cbn [mbind result_bind] in Hp. by injection Hp as <-. }
  destruct Hempty as (E1 & E2 & E3).
  split_and!; [|done|done|unfold context; cbn; by rewrite Hcfg|].
  2: { intros Hd. cbn. unfold grids_taken in Hd. destruct (fused_chunk d), (decode_context_parallel d); cbn;
       try (by intros [? ?]). intros _. by apply Hd. }
  split; cbn; try done; rewrite ?E1, ?E2, ?E3.
  - intros o [? Ho]. by rewrite lookup_empty in Ho.
  - intros o [? Ho]. by rewrite lookup_empty in Ho.
  - intros rid. rewrite !lookup_empty. split; intros [? ?]; done.
  - intros o r Ho. by apply elem_of_nil in Ho.
  - intros o r _ Hr. by rewrite lookup_empty in Hr.
  - constructor.
  - intros e He. by apply elem_of_nil in He.
Qed.

Lemma sched_step_Ok s :
  good nobody nobody s → sized k c resumes s → pipeline (settings s) = false →
  returns (Sched.step digest decode_ids is_digit s) (λ '(advanced, s'), good nobody nobody s' ∧
    evolves s s' ∧ ∀ o, o ∈ advanced → is_Some (heap (planner s') !! o)).
Proof.
  intros Hg Hsz Hp. unfold Sched.step. destruct (collect_tokenized_Ok digest s Hg) as [Hg1 He1].
  rewrite (proj1 (ev_limits _ _ He1)), Hp.
  eapply returns_mono; [apply step_Ok; [done|by eapply evolves_sized]|].
  intros [advanced s'] (Hg' & He' & Hadv). split_and!; [done|by eapply evolves_trans|done].
Qed.

Lemma op_good s s' :
  good nobody nobody s → sized k c resumes s → pipeline (settings s) = false → op s s' →
  good nobody nobody s' ∧ evolves s s'.
Proof.
  intros Hg Hsz Hp Hop. destruct Hop as [s prompt params rid ids on_error o s' Hids E|s rid o s' E|s rid answer Ha|s adv s' E].
  - destruct (sched_add_request_cases digest encode prompt params rid ids on_error s Hg (encode_tokens prompt) Hids)
      as [(name & _ & _ & E')|(name & n & Hfree & _ & E')]; rewrite E' in E; [done|].
    assert (Hq : ∀ l, Forall Chain.is_token l →
      (if decide (1 ≤ length l < max_seq_len (config (planner s)))
       then Ok (next_object s, queued s n prompt (default default_params params) name l) else Err ValueError)
      = Ok (o, s') → good nobody nobody s' ∧ evolves s s').
    { intros l Hl. case_decide as Hd; [|done]. intros [= _ <-]. by apply queued_Ok. }
    destruct ids as [l|]; [apply (Hq l); [by apply Hids|done]|].
    destruct (async_tokenize (settings s)); [injection E as _ <-; by apply deferred_Ok|].
    destruct (encode prompt) as [l|e] eqn:El; [|done]. apply (Hq l); [by eapply encode_tokens|done].
  - destruct (sched_abort_Ok digest digest_ok s rid Hg) as ([o' s1] & E' & Hg' & He' & _).
    rewrite E in E'. by injection E' as _ <-.
  - by apply encode_lands_Ok.
  - destruct (sched_step_Ok s Hg Hsz Hp) as ([adv' s1] & E' & Hg' & He' & _). rewrite E in E'. by injection E' as _ <-.
Qed.

Lemma run_good s s' :
  good nobody nobody s → sized k c resumes s → pipeline (settings s) = false → rtc op s s' →
  good nobody nobody s' ∧ evolves s s'.
Proof.
  intros Hg Hsz Hp Hrun. induction Hrun as [s|s s1 s' Hop _ IH]; [split; [done|by eapply evolves_refl]|].
  destruct (op_good s s1 Hg Hsz Hp Hop) as [Hg1 He1]. destruct IH as [Hg' He'].
  - done.
  - by eapply evolves_sized.
  - by rewrite (proj1 (ev_limits _ _ He1)).
  - split; [done|by eapply evolves_trans].
Qed.

Lemma reachable_good s :
  reachable s → good nobody nobody s ∧ sized k c resumes s ∧ pipeline (settings s) = false.
Proof.
  intros (d & raw & cfg & x & depth & async & s0 & Hc & Hi & Hk & Hl & Hres & Hrun).
  destruct (engine_init_good d raw cfg x depth async s0 Hc Hi) as (Hg0 & Hp0 & E1 & E2 & E3).
  assert (Hsz0 : sized k c resumes s0) by (split_and!; [by etrans|by etrans|by apply E3]).
  destruct (run_good s0 s Hg0 Hsz0 Hp0 Hrun) as [Hg He]. split_and!; [done|by eapply evolves_sized|].
  by rewrite (proj1 (ev_limits _ _ He)).
Qed.

(** ** Properties *)

(** C1: the synchronous engine never raises.  On every state a run of
    submissions, aborts, landing encodes and steps can reach, a step returns and
    so does an abort of any id, whatever an executor does that runs the passes
    that fit it: distinct slots below its count, spans within its context, token
    ids of 32 bits, and the shapes [ModelInput] checks.  An executor that raises
    on any other pass satisfies the laws, so every pass of a run fits.  The
    repository's worker satisfies them ([worker_laws]) on any device that runs
    its passes; one that raises on a padded grid resumed in mid-prompt needs the
    chunked prefill kernel off, which is what [grids_taken] asks. *)
Theorem sync_engine_never_raises s (Hr : reachable s) :
  (∃ advanced s', Sched.step digest decode_ids is_digit s = Ok (advanced, s') ∧
    ∀ o, o ∈ advanced → is_Some (heap (planner s') !! o)) ∧
  (∀ rid, ∃ o s', Sched.abort digest rid s = Ok (o, s') ∧
    match o with
    | Some oid => ∃ r', heap (planner s') !! oid = Some r' ∧ Req.request_id r' = rid ∧
        Req.status r' = Req.FINISHED ∧ Req.finish_reason r' = Some "abort" ∧ oid ∉ live (planner s')
    | None => s' = s ∧ rid ∉ (tokenizing s).*1 ∧ requests (planner s) !! rid = None
    end).
Proof.
  destruct (reachable_good s Hr) as (Hg & Hsz & Hp). split.
  - destruct (sched_step_Ok s Hg Hsz Hp) as ([advanced s'] & E & _ & _ & Ha). by exists advanced, s'.
  - intros rid. destruct (sched_abort_Ok digest digest_ok s rid Hg) as ([o s'] & E & _ & _ & Ho). by exists o, s'.
Qed.

(** C13: the passes are well-formed.  On every reachable state the step plans,
    and its prefill and decode batches become passes that pass every check of
    [ModelInput]: distinct seats below the executor's count, non-empty spans
    within the context, one token id of 32 bits per row.  The prefill passes
    sample exactly for the requests whose prompt they complete, the decode pass
    for the decode batch.  Without a threshold for the chunked kernel every padded
    grid starts at the first position.  (Reachable states are those of an
    engine whose executor keeps [ExecutorLaws], as [Worker] does.) *)
Theorem passes_well_formed s (Hr : reachable s) :
  ∃ out s', schedule digest s = Ok (out, s') ∧
    (∀ threshold, ∃ ws, prefill_work (prefill out) (prefill_chunk_lens out) threshold s' = Ok ws ∧
      Forall (λ w, fits k c (bool_decide (is_Some threshold)) (work_plan w)) ws ∧
      ∀ o r, o ∈ prefill out → heap (planner s') !! o = Some r →
        (∃ w, w ∈ ws ∧ o ∈ work_requests w) ↔ Req.prefill_done r = true) ∧
    (decode out ≠ [] → ∃ w, decode_work (decode out) false s' = Ok w ∧
      fits k c false (work_plan w) ∧ work_requests w = decode out).
Proof.
  destruct (reachable_good s Hr) as (Hg & Hsz & _).
  destruct (schedule_Ok digest digest_ok s Hg) as ([out s'] & E & Hg1 & Hsound & Hev & _ & _ & Hown).
  exists out, s'. pose proof (evolves_sized _ _ _ _ _ Hev Hsz) as Hsz1.
  pose proof (s_nodup _ _ Hsound) as Hnd. apply NoDup_app in Hnd as (Hnd1 & Hdis & Hnd2).
  split_and!; [done| |].
  - intros threshold.
    destruct (prefill_work_Ok digest (λ o, o ∈ prefill out) s' (bool_decide (is_Some threshold)) (prefill out)
      (prefill_chunk_lens out) threshold) as (ws & Ew & Hcov); [by intros ?; apply bool_decide_eq_true|done|done| | |].
    + intros o Ho. apply (s_running _ _ Hsound). apply elem_of_app. by left.
    + apply Forall2_same_length_lookup_2; [by eapply Forall2_length|]. intros i o n Ho Hn.
      destruct (Forall2_lookup_lr _ _ _ _ _ _ Hown Ho Hn) as (r & Hro & Hle). exists r. split; [done|].
      destruct (Forall_lookup_1 _ _ _ _ (s_chunks _ _ Hsound) Hn) as [? _]. done.
    + exists ws. split_and!; [done|by apply (pass_fits (bool_decide (is_Some threshold)) s'), (cg_ok _ _ _ _ Hcov)|]. intros o r Ho Hro. split.
      * intros (w & Hw & How). by apply (cg_done _ _ _ _ Hcov w o r).
      * by apply (cg_all _ _ _ _ Hcov).
  - intros Hne. destruct (decode_work_Ok digest (λ o, o ∈ prefill out) s' false (decode out) Hg1 Hnd2) as (w & Ew & [Hf _] & Hw & _).
    + apply Forall_forall. intros o Ho. destruct (s_decode _ _ Hsound o Ho) as (r & Hro & Hd & _).
      apply (decodable_good digest (λ o, o ∈ prefill out) s' o r); try done.
      * apply (s_running _ _ Hsound). apply elem_of_app. by right.
      * intros Hp. by apply (Hdis o).
    + done.
    + exists w. destruct Hsz1 as (<- & <- & _). done.
Qed.

(** How many tokens a prompt of [n] tokens may generate. *)
Definition allowance (p : SamplingParams) (n : nat) : nat :=
  match max_gen_len p with Some (S m) => Nat.min (S m) (c - n) | _ => c - n end.

(** C2: the generation contract.  Once a request is accepted, at any later point
    of the run its object holds the submitted prompt followed by generated
    tokens, whatever preemptions did in between: none is a stop token, there are
    at most the cap of them (so prompt and output fit the context), and the
    request is still live or has finished.  (On an executor that keeps
    [ExecutorLaws], as [Worker] does.) *)
Theorem generation_contract s s1 s2 prompt params rid ids on_error o
    (Hr : reachable s) (Hids : Forall Chain.is_token ids)
    (Hsub : Sched.add_request encode prompt params rid (Some ids) on_error s = Ok (o, s1))
    (Hrun : rtc op s1 s2) :
  ∃ r gen, heap (planner s2) !! o = Some r ∧ sequence r = ids ++ gen ∧
    Forall (λ t, t ∉ stop_token_ids (settings s)) gen ∧
    length gen ≤ allowance (default default_params params) (length ids) ∧
    (∀ name, rid = Some name → Req.request_id r = name) ∧
    (o ∈ live (planner s2) ∨ Req.is_finished r = true).
Proof.
  destruct (reachable_good s Hr) as (Hg & Hsz & Hp). set (p := default default_params params).
  destruct (sched_add_request_cases digest encode prompt params rid (Some ids) on_error s Hg
    (encode_tokens prompt) ltac:(by intros l [= <-])) as [(name & _ & _ & E)|(name & n & Hfree & Hname & E)];
    rewrite E in Hsub; [done|]. cbn [mbind result_bind] in Hsub. case_decide as Hlen; [|done].
  injection Hsub as <- <-. fold p in Hrun. destruct (queued_Ok digest s n prompt p name ids Hg Hfree Hids Hlen) as [Hg1 He1].
  destruct (run_good _ _ Hg1 (evolves_sized _ _ _ _ _ He1 Hsz)
    ltac:(by rewrite (proj1 (ev_limits _ _ He1))) Hrun) as [_ He2].
  set (r0 := Req.fresh name ids (max_gen_len p)). set (oid := next_object s).
  set (r1 := Req.set_max_new_tokens (Z.of_nat (new_max (max_seq_len (config (planner s))) r0)) r0).
  assert (Hr1 : heap (planner (queued s n prompt p name ids)) !! oid = Some r1) by apply lookup_insert_eq.
  assert (Hl1 : oid ∈ live (planner (queued s n prompt p name ids))).
  { unfold live. cbn. rewrite fmap_app, !elem_of_app. left. right. by left. }
  destruct (ev_live _ _ He2 oid r1 Hl1 Hr1) as (r & Hr2 & (Hid & Hend & gen & Hseq & Hstop) & Hle & Hlive).
  change (sequence r1) with (ids ++ []) in Hseq. rewrite app_nil_r in Hseq.
  exists r, gen. split_and!; [done|done| | | |done].
  - by rewrite (proj1 (ev_limits _ _ He1)) in Hstop.
  - assert (Hs : Req.seq_len r = length ids + length gen).
    { unfold Req.seq_len. rewrite <- length_app. change (length (sequence r) = length ids + length gen).
      by rewrite Hseq, length_app. }
    rewrite Hend, Hs in Hle. destruct Hsz as (_ & Hc & _). unfold context in Hc.
    unfold end_of, r1 in Hle. cbn in Hle. rewrite Hc in Hle.
    change (new_max c r0) with (allowance p (length ids)) in Hle. unfold Req.prompt_len in Hle. cbn in Hle. lia.
  - intros x Hx. rewrite Hid. cbn. symmetry. by apply Hname.
Qed.

(** C11: the harvest is per request.  On a reachable state, tokens for running
    requests in any interleaving are harvested without raising, and each running
    request ends up as if it alone had absorbed its own tokens in order: the
    delta starts empty, a token is appended with its text and record, and the
    first stop token, full length or detected loop retires it, the rest of its
    tokens ignored.  Finished requests leave the batch, every other object is
    left alone.  (On an executor that keeps [ExecutorLaws], as [Worker] does.) *)
Theorem harvest_is_per_request s emitted (Hr : reachable s)
    (Hem : Forall (λ e, e.1.1 ∈ running (planner s) ∧ Chain.is_token e.1.2) emitted) :
  let check := bool_decide (step_count s mod Stop.POLL_INTERVAL = 0) in
  ∃ advanced s', harvest digest decode_ids is_digit emitted s = Ok (advanced, s') ∧
    (∀ o r f d, o ∈ running (planner s) → heap (planner s) !! o = Some r → fronts s !! o = Some f →
      detokenizers s !! Req.request_id r = Some d →
      let x := absorb_all decode_ids is_digit (stop_token_ids (settings s)) c check (r, f, d)
                 (tokens_for o emitted) in
      heap (planner s') !! o = Some x.1.1 ∧ fronts s' !! o = Some x.1.2 ∧
      (o ∈ running (planner s') ↔ Req.is_finished x.1.1 = false) ∧
      detokenizers s' !! Req.request_id r = if Req.is_finished x.1.1 then None else Some x.2) ∧
    (∀ o, o ∉ running (planner s) →
      heap (planner s') !! o = heap (planner s) !! o ∧ fronts s' !! o = fronts s !! o) ∧
    waiting (planner s') = waiting (planner s) ∧
    (∀ o, o ∈ advanced ↔ o ∈ emitted.*1.*1).
Proof.
  intros check. destruct (reachable_good s Hr) as (Hg & Hsz & _).
  destruct (harvest_Ok digest digest_ok decode_ids is_digit nobody s emitted Hg Hem) as ([advanced s'] & E & Hh).
  pose proof Hh as []. destruct Hsz as (_ & Hc & _). unfold context in Hc. rewrite Hc in h_lane0.
  exists advanced, s'. split_and!; [done| |done|done|done].
  intros o r f d Ho Hro Hf Hd x.
  destruct (h_lane0 o (r, f, d) Ho ltac:(by split_and!)) as (L1 & L2 & L3).
  change (absorb_all _ _ _ _ _ _ _) with x in L1, L2, L3.
  assert (Hrun : o ∈ running (planner s') ↔ Req.is_finished x.1.1 = false).
  { rewrite h_running0, list_elem_of_filter. unfold unfinished. rewrite L1.
    destruct (Req.is_finished x.1.1); naive_solver. }
  assert (Hid : Req.request_id x.1.1 = Req.request_id r) by apply absorb_all_id.
  split_and!; [done|done|done|]. destruct (Req.is_finished x.1.1) eqn:Ef.
  - apply eq_None_not_Some. intros Hs%(g_detok _ _ _ _ h_good0). destruct Hs as [o' Hreq].
    apply (q_requests _ (wf_queues _ _ (g_wf _ _ _ _ h_good0))) in Hreq as (Hl' & r' & Hr' & Hid').
    assert (Hl : o' ∈ live (planner s)).
    { apply elem_of_app in Hl' as [Hw|Hw]; apply elem_of_app.
      - left. by rewrite <- h_waiting0.
      - right. rewrite h_running0 in Hw. by apply list_elem_of_filter in Hw as [_ ?]. }
    pose proof (wf_queues _ _ (g_wf _ _ _ _ Hg)) as Hq.
    destruct (harvested_evolves digest decode_ids is_digit _ _ _ _ _ _ Hg Hh) as [_ Hev _].
    destruct (live_parts digest _ _ s o' Hg Hl) as (r0 & _ & _ & Hr0 & _ & Hreq0 & _).
    destruct (Hev o' r0 Hl Hr0) as (r1 & Hr1 & (Hid1 & _) & _). assert (r1 = r') as -> by congruence.
    destruct (live_request _ _ _ Hq (running_live _ _ Ho) Hro) as [Hreq1 _].
    rewrite <- Hid1, Hid', Hreq1 in Hreq0. injection Hreq0 as <-.
    rewrite L1 in Hr'. injection Hr' as <-.
    by rewrite (live_unfinished digest _ _ s' o _ h_good0 Hl' L1) in Ef.
  - rewrite <- Hid. by apply L3.
Qed.

(** C14: what a submission answers.  On every reachable state an id in use is
    refused with ValueError; otherwise a prompt left to a background encode is
    always taken; otherwise the encode's exception comes through, a prompt that
    is empty or fills the context is refused with ValueError, and any other is
    queued last under the given id, or a generated one, that was not in use.
    The search for a free generated id always ends.  (On an executor that keeps
    [ExecutorLaws], as [Worker] does.) *)
Theorem submission_answers s prompt params rid ids on_error (Hr : reachable s)
    (Hids : ∀ l, ids = Some l → Forall Chain.is_token l) :
  let answer := Sched.add_request encode prompt params rid ids on_error s in
  if (match rid with Some name => _request_id_in_use name s | None => false end)
  then answer = Err ValueError
  else if (match ids with None => async_tokenize (settings s) | Some _ => false end)
  then ∃ s' name, answer = Ok (next_object s, s') ∧ _request_id_in_use name s = false ∧
    (∀ x, rid = Some x → x = name) ∧
    tokenizing s' = tokenizing s ++ [(name, MkJob (next_object s) None on_error)] ∧
    waiting (planner s') = waiting (planner s)
  else match (match ids with Some l => Ok l | None => encode prompt end) with
  | Err e => answer = Err e
  | Ok l =>
      if decide (1 ≤ length l < c)
      then ∃ s' name, answer = Ok (next_object s, s') ∧ _request_id_in_use name s = false ∧
        (∀ x, rid = Some x → x = name) ∧
        waiting (planner s') = waiting (planner s) ++ [(name, next_object s)] ∧
        tokenizing s' = tokenizing s
      else answer = Err ValueError
  end.
Proof.
  intros answer. destruct (reachable_good s Hr) as (Hg & (_ & Hc & _) & _). unfold context in Hc.
  destruct (sched_add_request_cases digest encode prompt params rid ids on_error s Hg (encode_tokens prompt) Hids)
    as [(name & -> & -> & E)|(name & n & Hfree & Hname & E)]; [done|].
  assert (Hsel : (match rid with Some name => _request_id_in_use name s | None => false end) = false).
  { destruct rid as [x|]; [|done]. by rewrite (Hname x eq_refl). }
  rewrite Hsel. fold answer in E. clear Hsel. rewrite Hc in E.
  destruct ids as [l|]; [|destruct (async_tokenize (settings s)); [|destruct (encode prompt) as [l|e]; [|done]]];
    cbn [mbind result_bind] in E |- *.
  - case_decide; [|done]. eexists _, name. by split_and!.
  - eexists _, name. by split_and!.
  - case_decide; [|done]. eexists _, name. by split_and!.
Qed.
End Step.

(** ** Speculative acceptance *)

(** C12: speculation is greedy decoding.  When the rows of a verification pass
    are a model's answers along each draft, the tokens emitted for each draft
    are exactly the model's own greedy continuation of that request: the longest
    run of drafted tokens it agrees with, and one more. *)
Theorem speculation_is_greedy {X LP Row : Type} `{!Executor X LP Row} (next : list Z → Z)
    (drafts : list (nat * list Z)) (contexts : list (list Z)) (parts : list (list Row))
    (Hl : length contexts = length drafts)
    (Ha : Forall2 (λ (e : nat * list Z * list Z) rows,
      answers_along (X := X) (LP := LP) next e.2 rows e.1.2) (zip drafts contexts) parts) :
  ∃ counts, stretches (X := X) (LP := LP) 0 (concat parts) drafts =
      Ok (concat (zip_with (λ (e : nat * list Z * list Z) n,
        (λ t, (e.1.1, t, None)) <$> greedy next e.2 (S n)) (zip drafts contexts) counts)) ∧
    Forall2 (λ (e : nat * list Z * list Z) n, n ≤ length e.1.2 ∧ take n e.1.2 = greedy next e.2 n ∧
      (n < length e.1.2 → e.1.2 !! n ≠ Some (next (e.2 ++ take n e.1.2)))) (zip drafts contexts) counts.
Proof.
  assert (Hlen : Forall2 (λ e rows, length rows = length e.2 + 1) drafts parts).
  { rewrite <- (fst_zip drafts contexts) by lia. apply Forall2_fmap_l.
    eapply Forall2_impl; [exact Ha|]. by intros e rows [? _]. }
  pose proof (stretches_split (LP := LP) drafts [] parts Hlen) as E. cbn [length app] in E. rewrite E. clear E.
  revert drafts contexts Hl Ha Hlen. induction parts as [|part parts IH]; intros drafts contexts Hl Ha Hlen.
  - apply Forall2_nil_inv_r in Hlen as ->. destruct contexts; [|done]. exists []. by split.
  - apply Forall2_cons_inv_r in Hlen as (e & drafts' & Hpart & Hlen & ->).
    destruct contexts as [|ctx contexts]; [done|]. cbn [zip zip_with] in Ha. apply Forall2_cons in Ha as [Ha1 Ha].
    destruct (IH drafts' contexts ltac:(by injection Hl) Ha Hlen) as (counts & E & Hc).
    cbn [fst snd] in Ha1. destruct (stretch_greedy next e.2 ctx part Ha1) as (n & _ & Hn & Hs & Ht & Hm).
    exists (n :: counts). split; [|by constructor]. destruct e as [oid ids]. cbn [zip zip_with rmap].
    cbn [own_stretch]. cbn [fst snd] in Hs. rewrite Hs. cbn [mbind result_bind].
    cbn [zip zip_with] in E. destruct (rmap _ _) as [chains|]; [|done]. cbn [mbind result_bind] in E |- *.
    injection E as E. by rewrite concat_cons, E.
Qed.
End SchedSpec.
