(* ===== verification/EngineDemo.v ===== *)
(** * A small engine to run

    The worker on a deterministic device, an engine on it, and the witnesses of
    the engine loop's properties. *)

From S2P Require Export Worker SchedulerSpec.
From Stdlib Require Import QArith.

#[local] Close Scope Q_scope.

Module EngineDemo.
Import Planner Inv PlannerSpec Sched SchedInv Harvest Passes Worker Evolve Sync Ops SchedSpec.

(** The next token depends on the length of the sequence, with period three. *)
Definition next_at (len : Z) : Z := (10 + len mod 3)%Z.

(** One row of logits per position of each chunk. *)
Definition toy_rows (i : ModelInput) : list Z :=
  concat (zip_with (λ a b, (λ j, next_at (a + 1 + Z.of_nat j)) <$> seq 0 (Z.to_nat (b - a))) (seq_starts i) (seq_lens i)).

(** A device whose rows of logits are their best token; a record is the token at
    its position, as in the tests' executor; row passes end in a row of filler. *)
#[global] Instance toy_device : Device unit Z Z := {
  prefill_last i d := Ok (next_at <$> seq_lens i, d);
  prefill_all i d := Ok ((λ a, (λ j, next_at (a + 1 + Z.of_nat j)) <$>
    seq 0 (Z.to_nat (foldr Z.max 0 (chunk_lens i))))%Z <$> seq_starts i, d);
  forward_rows i d := Ok (toy_rows i ++ [0%Z], d);
  draw places params rows d := Ok ((λ row, row mod 1000)%Z <$> rows, d);
  score row id k := id;
  describe p row id k := id;
  best row := (row mod 1000)%Z;
}.

Lemma small_token z n : (0 < n ≤ 1000)%Z → Chain.is_token (z mod n).
Proof. intros Hn. unfold Chain.is_token. pose proof (Z.mod_pos_bound z n). lia. Qed.

Lemma next_token len : Chain.is_token (next_at len).
Proof. unfold next_at, Chain.is_token. pose proof (Z.mod_pos_bound len 3). lia. Qed.

Lemma toy_rows_length k c resumes i : fits k c resumes i → length (toy_rows i) = length (tokens i).
Proof.
  intros Hf. destruct (fits_columns k c resumes i Hf) as [_ _ _ Ht _ _ _ _]. apply Nat2Z.inj. rewrite Ht.
  pose proof (fit_spans _ _ _ _ Hf) as Hs. unfold toy_rows, chunk_lens.
  apply total_rows; [|by eapply Forall2_length]. clear -Hs.
  induction Hs as [|a b starts ends Hab _ IH]; [constructor|]. cbn [zip_with]. constructor; [|exact IH].
  rewrite length_fmap, length_seq. cbn. lia.
Qed.

Lemma widest x l : x ∈ l → (x ≤ foldr Z.max 0 l)%Z.
Proof. induction 1 as [|? ? ? _ IH]; cbn [foldr]; lia. Qed.

(** The worker on this device is an executor of any size, resumed grids or not;
    its laws follow from those of the device. *)
#[global] Instance toy_laws k c resumes : DeviceLaws unit Z Z k c resumes.
Proof.
  split.
  - intros i d Hf _. apply returns_ret. rewrite length_fmap. pose proof (make_input_lengths i (fit_input _ _ _ _ Hf)). lia.
  - intros i d Hf _. apply returns_ret. split.
    + rewrite length_fmap. pose proof (make_input_lengths i (fit_input _ _ _ _ Hf)). lia.
    + intros line chunk (a & -> & _)%list_elem_of_fmap Hc%widest. rewrite length_fmap, length_seq. lia.
  - intros i d Hf _. apply returns_ret. rewrite length_app, (toy_rows_length k c resumes i Hf). lia.
  - intros places params rows d _ _ _. apply returns_ret. rewrite length_fmap. split; [done|].
    apply Forall_fmap, Forall_forall. intros row _. cbn. apply small_token. lia.
  - intros row. apply small_token. lia.
Qed.

(** Two slots, a context of 64, eight blocks, speculation on. *)
Definition demo_deployment : Deployment :=
  MkDeployment false 64 [99%Z] 2 8 false false 8 true false.
Definition demo_scheduler_config : SchedulerConfig := MkConfig 64 2 64 true 16 true None true 0.

Definition demo_encode (t : Text.text) : result (list Z) :=
  if decide (Forall Chain.is_token t) then Ok t else Err TypeError.
Definition demo_digit (z : Z) : bool := ((48 <=? z) && (z <=? 57))%Z.
Definition demo_params : SamplingParams := MkParams 0%Q 1%Q (Some 9) 1%Q false None None.
(** The same, with records of its prompt and of its tokens. *)
Definition asking_params : SamplingParams := MkParams 0%Q 1%Q (Some 9) 1%Q false (Some 1%Z) (Some 1%Z).

Lemma demo_encode_tokens prompt l : demo_encode prompt = Ok l → Forall Chain.is_token l.
Proof. unfold demo_encode. case_decide; [|done]. by intros [= <-]. Qed.

Notation engine := (@Scheduler demo_tier unit Z).
Notation demo_step := (Sched.step (T := demo_tier) (X := unit) (LP := Z) (Row := Z) Chain.toy_digest id demo_digit).
Notation demo_reachable := (SchedSpec.reachable (T := demo_tier) (X := unit) (LP := Z) (Row := Z)
  Chain.toy_digest id demo_encode demo_digit 2 64 false).
Notation demo_op := (op (T := demo_tier) (X := unit) (LP := Z) (Row := Z)
  Chain.toy_digest id demo_encode demo_digit).

Definition demo_init (async : bool) : result engine :=
  cfg ← make_config demo_scheduler_config;
  Sched.init demo_deployment (Some cfg) tt false 1 async None.

Definition submit_with (params : SamplingParams) (rid : string) (ids : list Z) (s : engine) : result engine :=
  '(_, s) ← Sched.add_request demo_encode [] (Some params) (Some rid) (Some ids) false s; Ok s.
Notation submit := (submit_with demo_params).

Fixpoint steps (n : nat) (s : engine) : result engine :=
  match n with 0 => Ok s | S n => '(_, s) ← demo_step s; steps n s end.

(** Two prompts, the first one periodic, the second asking for records, and some
    steps. *)
Definition demo_engine (n : nat) : result engine :=
  s ← demo_init false;
  s ← submit "a" [10; 11; 12; 10; 11]%Z s;
  s ← submit_with asking_params "b" [7; 8; 9]%Z s;
  steps n s.

Lemma steps_run n : ∀ s s', steps n s = Ok s' → rtc demo_op s s'.
Proof.
  induction n as [|n IH]; intros s s'; cbn [steps]; [by intros [= <-]|].
  intros ([advanced s1] & E & Hs)%bind_Ok. eapply rtc_l; [|by apply IH]. by eapply op_step.
Qed.

Lemma submit_op params rid ids s s' :
  Forall Chain.is_token ids → submit_with params rid ids s = Ok s' → demo_op s s'.
Proof.
  intros Ht ([o s1] & E & [= <-])%bind_Ok. eapply op_submit; [|exact E]. by intros l [= <-].
Qed.

Lemma demo_grids : grids_taken demo_deployment false.
Proof. by intros ?. Qed.

Lemma engine_demo_reach async s0 s : demo_init async = Ok s0 → rtc demo_op s0 s → demo_reachable s.
Proof.
  intros (cfg & Hc & Hi)%bind_Ok Hrun.
  exists demo_deployment, demo_scheduler_config, cfg, tt, 1, async, s0.
  assert (Hcfg : max_seq_len cfg = 64) by (clear -Hc; vm_compute in Hc; by injection Hc as <-).
  exact (conj Hc (conj Hi (conj eq_refl (conj Hcfg (conj demo_grids Hrun))))).
Qed.

Lemma demo_engine_reachable n s : demo_engine n = Ok s → demo_reachable s.
Proof.
  intros (s0 & E0 & (s1 & E1 & (s2 & E2 & E3)%bind_Ok)%bind_Ok)%bind_Ok.
  apply (engine_demo_reach false s0); [done|]. eapply rtc_l; [eapply submit_op; [|exact E1]; repeat constructor; done|].
  eapply rtc_l; [eapply submit_op; [|exact E2]; repeat constructor; done|]. by eapply steps_run.
Qed.

Notation never_raises := (sync_engine_never_raises (T := demo_tier) (X := unit) (LP := Z) (Row := Z)
  Chain.toy_digest Chain.toy_digest_ok id demo_encode demo_digit 2 64 false demo_encode_tokens).

(** A mixed batch on the worker: the periodic prompt is a step from its end, and
    the other has the records of its prompt and of every token. *)
Lemma sync_engine_never_raises_witness :
  ∃ s advanced s', demo_engine 2 = Ok s ∧ demo_step s = Ok (advanced, s') ∧ advanced = [1; 0] ∧
    (fr_prompt_logprobs <$> fronts s !! 1) = Some (Some [None; Some 8; Some 9]%Z) ∧
    (output_logprobs <$> fronts s' !! 1) = Some (Some [10; 11; 12]%Z).
Proof.
  destruct (demo_engine 2) as [s|] eqn:E0; [|vm_compute in E0; discriminate E0].
  destruct (never_raises s (demo_engine_reachable 2 s E0)) as [(advanced & s' & E & _) _].
  establish E0 (λ s : engine, bool_decide ((fr_prompt_logprobs <$> fronts s !! 1) = Some (Some [None; Some 8; Some 9]%Z)) &&
    holds_after (demo_step s) (λ x, bool_decide (x.1 = [1; 0] ∧
      (output_logprobs <$> fronts x.2 !! 1) = Some (Some [10; 11; 12]%Z)))).
  apply andb_true_iff in Hfact as [Hp%bool_decide_eq_true Hfact].
  pose proof (holds_after_Ok _ _ _ E Hfact) as [Ha Ho]%bool_decide_eq_true.
  exists s, advanced, s'. exact (conj eq_refl (conj E (conj Ha (conj Hp Ho)))).
Defined.

Lemma passes_well_formed_witness :
  ∃ s out s' ws, demo_engine 0 = Ok s ∧ schedule Chain.toy_digest s = Ok (out, s') ∧ prefill out = [0; 1] ∧
    prefill_work (prefill out) (prefill_chunk_lens out) None s' = Ok ws ∧
    Forall (λ w, fits 2 64 false (work_plan w)) ws.
Proof.
  destruct (demo_engine 0) as [s|] eqn:E0; [|vm_compute in E0; discriminate E0].
  destruct (passes_well_formed Chain.toy_digest Chain.toy_digest_ok id demo_encode demo_digit 2 64 false demo_encode_tokens
    s (demo_engine_reachable 0 s E0)) as (out & s' & E & Hp & _).
  destruct (Hp None) as (ws & Ew & Hf & _).
  establish E0 (λ s : engine, holds_after (schedule Chain.toy_digest s) (λ x, bool_decide (prefill x.1 = [0; 1]))).
  pose proof (holds_after_Ok _ _ _ E Hfact) as Hin%bool_decide_eq_true. cbn [fst] in Hin.
  exists s, out, s', ws. exact (conj eq_refl (conj E (conj Hin (conj Ew Hf)))).
Defined.

(** Prompt "a" is accepted and runs to its cap of nine. *)
Lemma generation_contract_witness :
  ∃ s0 s1 s2 r gen, demo_init false = Ok s0 ∧ submit "a" [10; 11; 12; 10; 11]%Z s0 = Ok s1 ∧
    steps 4 s1 = Ok s2 ∧ heap (planner s2) !! 0 = Some r ∧
    sequence r = [10; 11; 12; 10; 11]%Z ++ gen ∧ length gen ≤ 9 ∧ Forall (λ t, t ∉ [99%Z]) gen.
Proof.
  destruct (demo_init false) as [s0|] eqn:E0; [|vm_compute in E0; discriminate E0].
  pose proof (engine_demo_reach false s0 s0 E0 (rtc_refl _ _)) as Hr.
  establish E0 (λ s : engine, holds_after (submit "a" [10; 11; 12; 10; 11]%Z s) (λ s1, match steps 4 s1 with Ok _ => true | Err _ => false end)).
  destruct (submit "a" [10; 11; 12; 10; 11]%Z s0) as [s1|] eqn:E1; [|discriminate Hfact]. cbn [holds_after] in Hfact.
  destruct (steps 4 s1) as [s2|] eqn:E2; [|discriminate Hfact]. clear Hfact.
  establish E0 (λ s : engine, bool_decide (stop_token_ids (settings s) = [99%Z])). apply bool_decide_eq_true in Hfact.
  pose proof E1 as ([o s1'] & Ea & Eb)%bind_Ok. injection Eb as ->.
  establish E0 (λ s : engine, holds_after (Sched.add_request demo_encode [] (Some demo_params) (Some "a"%string)
    (Some [10; 11; 12; 10; 11]%Z) false s) (λ x, bool_decide (x.1 = 0))).
  pose proof (holds_after_Ok _ _ _ Ea Hfact0) as Ho%bool_decide_eq_true. cbn [fst] in Ho. subst o.
  assert (Ht : Forall Chain.is_token [10; 11; 12; 10; 11]%Z) by (repeat constructor; done).
  destruct (generation_contract Chain.toy_digest Chain.toy_digest_ok id demo_encode demo_digit 2 64 false demo_encode_tokens
    s0 s1 s2 _ _ _ _ _ 0 Hr Ht Ea (steps_run 4 s1 s2 E2)) as (r & gen & H1 & H2 & H3 & H4 & _).
  rewrite Hfact in H3.
  exists s0, s1, s2, r, gen. exact (conj eq_refl (conj E1 (conj E2 (conj H1 (conj H2 (conj H4 H3)))))).
Defined.

(** Two requests, their tokens interleaved, a stop token in the middle. *)
Definition demo_tokens : list (nat * Z * option Z) :=
  [(0, 12%Z, None); (1, 11%Z, None); (0, 99%Z, None); (0, 5%Z, None); (1, 12%Z, None)].

Lemma demo_tokens_ok : Forall (λ e : nat * Z * option Z, e.1.1 ∈ [0; 1] ∧ Chain.is_token e.1.2) demo_tokens.
Proof.
  unfold demo_tokens. repeat (apply Forall_cons_2; [split; [cbn; set_solver|split; done]|]). by apply Forall_nil_2.
Qed.

Lemma harvest_is_per_request_witness :
  ∃ s advanced s', demo_engine 1 = Ok s ∧ harvest Chain.toy_digest id demo_digit demo_tokens s = Ok (advanced, s') ∧
    (∀ o, o ∈ advanced ↔ o ∈ demo_tokens.*1.*1) ∧ waiting (planner s') = waiting (planner s).
Proof.
  destruct (demo_engine 1) as [s|] eqn:E0; [|vm_compute in E0; discriminate E0].
  establish E0 (λ s : engine, bool_decide (running (planner s) = [0; 1])). apply bool_decide_eq_true in Hfact.
  assert (Hem : Forall (λ e, e.1.1 ∈ running (planner s) ∧ Chain.is_token e.1.2) demo_tokens).
  { rewrite Hfact. exact demo_tokens_ok. }
  destruct (harvest_is_per_request Chain.toy_digest Chain.toy_digest_ok id demo_encode demo_digit 2 64 false demo_encode_tokens s demo_tokens (demo_engine_reachable 1 s E0) Hem)
    as (advanced & s' & E & _ & _ & Hw & Ha).
  exists s, advanced, s'. exact (conj eq_refl (conj E (conj Ha Hw))).
Defined.

Lemma submission_answers_witness :
  ∃ s, demo_engine 1 = Ok s ∧
    Sched.add_request demo_encode [] None (Some "a"%string) (Some [1; 2]%Z) false s = Err ValueError ∧
    Sched.add_request demo_encode [] None (Some "c"%string) (Some []) false s = Err ValueError.
Proof.
  destruct (demo_engine 1) as [s|] eqn:E0; [|vm_compute in E0; discriminate E0].
  establish E0 (λ s : engine, _request_id_in_use "a" s && negb (_request_id_in_use "c" s)).
  apply andb_true_iff in Hfact as [Ha Hc%negb_true_iff].
  pose proof (submission_answers Chain.toy_digest Chain.toy_digest_ok id demo_encode demo_digit 2 64 false demo_encode_tokens s
    [] None (Some "a"%string) (Some [1; 2]%Z) false (demo_engine_reachable 1 s E0)
    ltac:(intros l [= <-]; repeat constructor; done)) as H1. cbv beta iota zeta in H1. rewrite Ha in H1.
  pose proof (submission_answers Chain.toy_digest Chain.toy_digest_ok id demo_encode demo_digit 2 64 false demo_encode_tokens s
    [] None (Some "c"%string) (Some []) false (demo_engine_reachable 1 s E0)
    ltac:(intros l [= <-]; constructor)) as H2. cbv beta iota zeta in H2. rewrite Hc, decide_False in H2 by (cbn; lia).
  exists s. exact (conj eq_refl (conj H1 H2)).
Defined.

(** Two drafts: two of three tokens accepted, then none of one. *)
Lemma speculation_is_greedy_witness :
  let next l := next_at (Z.of_nat (length l)) in
  let drafts := [(0, [10; 11; 5]%Z); (1, [7%Z])] in
  ∃ counts, stretches (X := unit) (LP := Z) 0 [10; 11; 12; 10; 10; 11]%Z drafts =
      Ok (concat (zip_with (λ (e : nat * list Z * list Z) n,
        (λ t, (e.1.1, t, None)) <$> greedy next e.2 (S n)) (zip drafts [[1; 2; 3; 4; 5; 6]; [1; 2; 3]]%Z) counts)) ∧
    length counts = 2.
Proof.
  intros next drafts.
  destruct (speculation_is_greedy (X := unit) (LP := Z) next drafts [[1; 2; 3; 4; 5; 6]; [1; 2; 3]]%Z
    [[10; 11; 12; 10]; [10; 11]]%Z eq_refl) as (counts & E & Hc).
  - repeat constructor; cbn; intros i row Hi; repeat (destruct i as [|i]; [by injection Hi as <-|]); done.
  - exists counts. exact (conj E (eq_sym (Forall2_length _ _ _ Hc))).
Defined.
End EngineDemo.
