(* ===== verification/EventLoop.v ===== *)
(** * The command loop of a scheduler process ([run_event_loop] of scheduler.py)

    Typed commands in, typed events out (scheduler_ipc.py).  One turn drains the
    command queue, runs a step and publishes what each advanced request gained
    since its last event.  Queues are lists; waiting, clocks and the check on
    the parent process are left out, and there is one replica. *)

From S2P Require Export Scheduler.

Module Loop.
Import Planner Sched.

(** ** Commands and events *)

Record AddRequest := MkAdd {
  add_request_id : string;
  add_prompt_token_ids : list Z;
  add_sampling_params : SamplingParams;
  add_stream : bool;
}.

Inductive SchedulerCommand :=
  | CmdAdd (c : AddRequest)
  | CmdAddBatch (cs : list AddRequest)
  | CmdAbort (request_id : string)
  | CmdUtility (call_id : Z) (method : string)
  | CmdWake
  | CmdShutdown.

Record RequestEvent {LP : Type} := MkEvent {
  ev_request_id : string;
  new_token_ids : list Z;
  ev_finish_reason : option string;
  ev_prompt_len : nat;
  ev_delta_logprobs : option LP;
  ev_prompt_logprobs : option (list (option LP));
  ev_error : option exn;
}.
Arguments RequestEvent : clear implicits.
Arguments MkEvent {LP} _ _ _ _ _ _ _.

(** The result of a query: running, waiting, promoting; [None] for an unknown method. *)
Record UtilityEvent := MkUtility {
  call_id : Z;
  stats : option (nat * nat * nat);
}.

Record SchedulerEvents {LP : Type} := MkEvents {
  outputs : list (RequestEvent LP);
  utility_output : option UtilityEvent;
}.
Arguments SchedulerEvents : clear implicits.
Arguments MkEvents {LP} _ _.

Section Loop.
Context {T X LP Row : Type} `{!Offload.OffloadingManager T} `{!Executor X LP Row}
  (digest : list Z → list Z) (decode_ids : list Z → Text.text)
  (encode : Text.text → result (list Z)) (is_digit : Z → bool).

Notation Scheduler := (@Scheduler T X LP).
Notation step := (Sched.step (Row := Row) digest decode_ids is_digit).

(** The local variables of [run_event_loop]; [event_queue] is what was put. *)
Record EventLoop := MkLoop {
  sched : Scheduler;
  sent_tokens : gmap string nat;
  stream_outputs : gmap string bool;
  stopping : bool;
  event_queue : list (SchedulerEvents LP);
}.

Definition put (e : SchedulerEvents LP) (l : EventLoop) : EventLoop :=
  MkLoop (sched l) (sent_tokens l) (stream_outputs l) (stopping l) (event_queue l ++ [e]).
Definition set_sched (s : Scheduler) (l : EventLoop) : EventLoop :=
  MkLoop s (sent_tokens l) (stream_outputs l) (stopping l) (event_queue l).
Definition set_sent (m : gmap string nat) (l : EventLoop) : EventLoop :=
  MkLoop (sched l) m (stream_outputs l) (stopping l) (event_queue l).
Definition set_streams (m : gmap string bool) (l : EventLoop) : EventLoop :=
  MkLoop (sched l) (sent_tokens l) m (stopping l) (event_queue l).

(** [sent_tokens.pop(id, None)] and [stream_outputs.pop(id, None)] *)
Definition forget (request_id : string) (l : EventLoop) : EventLoop :=
  set_streams (delete request_id (stream_outputs l)) (set_sent (delete request_id (sent_tokens l)) l).

Definition apply_add (c : AddRequest) (l : EventLoop) : result EventLoop :=
  if stopping l then Ok l
  else
    match Sched.add_request encode [] (Some (add_sampling_params c)) (Some (add_request_id c))
            (Some (add_prompt_token_ids c)) false (sched l) with
    | Err ValueError =>
        Ok (put (MkEvents [MkEvent (add_request_id c) [] (Some "invalid") 0 None None
                             (Some ValueError)] None) l)
    | Err e => Err e
    | Ok (_, s) =>
        Ok (set_streams (<[add_request_id c := add_stream c]> (stream_outputs l))
              (set_sent (<[add_request_id c := 0]> (sent_tokens l)) (set_sched s l)))
    end.

Definition apply (c : SchedulerCommand) (l : EventLoop) : result EventLoop :=
  match c with
  | CmdAdd c => apply_add c l
  | CmdAddBatch cs => rfold apply_add cs l
  | CmdAbort request_id =>
      '(_, s) ← Sched.abort digest request_id (sched l);
      Ok (forget request_id (set_sched s l))
  | CmdUtility call_id method =>
      let p := planner (sched l) in
      Ok (put (MkEvents [] (Some (MkUtility call_id
        (if decide (method = "step_stats"%string)
         then Some (num_running p, num_waiting p, num_promoting p) else None)))) l)
  | CmdWake => Ok l
  | CmdShutdown =>
      Ok (MkLoop (sched l) (sent_tokens l) (stream_outputs l) true (event_queue l))
  end.

(** Everything queued, up to a shutdown; the rest stays in the queue. *)
Fixpoint drain (commands : list SchedulerCommand) (l : EventLoop) :
    result (list SchedulerCommand * EventLoop) :=
  if stopping l then Ok (commands, l)
  else
    match commands with
    | [] => Ok ([], l)
    | c :: commands => l ← apply c l; drain commands l
    end.

(** What one advanced request publishes. *)
Definition publish_one (oid : nat) (st : list (RequestEvent LP) * EventLoop) :
    result (list (RequestEvent LP) * EventLoop) :=
  let '(events, l) := st in
  r ← request oid (sched l);
  f ← front oid (sched l);
  let rid := Req.request_id r in
  if negb (default true (stream_outputs l !! rid)) && negb (Req.is_finished r) then Ok (events, l)
  else
    let sent := default 0 (sent_tokens l !! rid) in
    let new := drop sent (Req.output_token_ids r) in
    let l := if decide (new = []) then l
             else set_sent (<[rid := sent + length new]> (sent_tokens l)) l in
    let prompt_lps := if Req.is_finished r then fr_prompt_logprobs f else None in
    let l := if Req.is_finished r then forget rid l else l in
    if decide (new = [] ∧ Req.is_finished r = false) then Ok (events, l)
    else
      Ok (events ++ [MkEvent rid new (Req.finish_reason r) (Req.prompt_len r)
                       (if decide (new = []) then None else delta_logprobs f) prompt_lps None], l).

Definition publish (advanced : list nat) (l : EventLoop) : result EventLoop :=
  '(events, l) ← rfold publish_one advanced ([], l);
  Ok (if decide (events = []) then l else put (MkEvents events None) l).

(** One turn of the [while] loop, over what is in the queue; [true] when the
    loop returns. *)
Definition turn (commands : list SchedulerCommand) (l : EventLoop) :
    result (bool * list SchedulerCommand * EventLoop) :=
  '(unread, l) ← drain commands l;
  if has_unfinished_requests (sched l) then
    '(advanced, s) ← step (sched l);
    l ← publish advanced (set_sched s l);
    Ok (false, unread, l)
  else Ok (stopping l, unread, l).
End Loop.
End Loop.
