(* ===== verification/EventLoopSpec.v ===== *)
(** * The command loop never raises

    Any commands in any order, between any steps. *)

From S2P Require Export EventLoop SchedulerSpec.

Module LoopSpec.
Import Planner Inv Stages Steps PlannerSpec Sched Loop SchedInv Harvest Passes Evolve Sync Ops SchedSpec.

Section Loop.
Context {T X LP Row : Type} `{!Offload.OffloadingManager T} `{!Executor X LP Row}
  (digest : list Z → list Z) (digest_ok : Chain.digest_ok digest)
  (decode_ids : list Z → Text.text) (encode : Text.text → result (list Z)) (is_digit : Z → bool)
  (k c : nat) (resumes : bool) `{!ExecutorLaws X LP Row k c resumes}.
Hypothesis encode_tokens : ∀ prompt l, encode prompt = Ok l → Forall Chain.is_token l.

Notation EventLoop := (@EventLoop T X LP).
Notation turn := (Loop.turn (Row := Row) digest decode_ids encode is_digit).
Implicit Types (l : EventLoop).

(** Token ids are 32-bit words. *)
Definition add_ok (a : AddRequest) : Prop := Forall Chain.is_token (add_prompt_token_ids a).
Definition command_ok (x : SchedulerCommand) : Prop :=
  match x with CmdAdd a => add_ok a | CmdAddBatch l => Forall add_ok l | _ => True end.

(** A synchronous engine with the given settings. *)
Section healthy.
Context (st : Settings) (synchronous : pipeline st = false).

Definition healthy l : Prop :=
  good digest nobody nobody (sched l) ∧ sized k c resumes (sched l) ∧ settings (sched l) = st.

Lemma healthy_op l s' :
  healthy l → good digest nobody nobody s' → evolves (sched l) s' →
  good digest nobody nobody s' ∧ sized k c resumes s' ∧ settings s' = st.
Proof.
  intros (Hg & Hsz & Hp) Hg' He. split_and!; [done|by eapply evolves_sized|].
  by rewrite (proj1 (ev_limits _ _ He)).
Qed.

Lemma apply_add_Ok a l : healthy l → add_ok a → returns (apply_add encode a l) healthy.
Proof.
  intros Hh Ha. unfold apply_add. destruct (stopping l); [by apply returns_ret|]. pose proof Hh as (Hg & _).
  destruct (sched_add_request_cases digest encode [] (Some (add_sampling_params a)) (Some (add_request_id a))
    (Some (add_prompt_token_ids a)) false (sched l) Hg (encode_tokens []) ltac:(by intros x [= <-]))
    as [(name & _ & _ & ->)|(name & n & Hfree & _ & ->)]; [by apply returns_ret|].
  cbn [mbind result_bind default]. case_decide as Hd; [|by apply returns_ret]. apply returns_ret.
  destruct (queued_Ok digest (sched l) n [] (add_sampling_params a) name (add_prompt_token_ids a) Hg Hfree Ha Hd)
    as [Hg' He']. by apply (healthy_op l).
Qed.

Lemma apply_Ok x l : healthy l → command_ok x → returns (apply digest encode x l) healthy.
Proof.
  intros Hh Hx. destruct x as [a|adds|rid|call method| |]; cbn [apply]; try (by apply returns_ret).
  - by apply apply_add_Ok.
  - apply (returns_rfold (λ _, healthy)); [done|]. intros pre a post l1 El Hl1.
    apply apply_add_Ok; [done|]. change (Forall add_ok adds) in Hx. rewrite Forall_forall in Hx. apply Hx. rewrite El. apply elem_of_app. right. by left.
  - pose proof Hh as (Hg & _). step_with (sched_abort_Ok digest digest_ok (sched l) rid Hg).
    intros [o s'] (Hg' & He' & _). apply returns_ret. by apply (healthy_op l).
Qed.

Lemma loop_drain_Ok commands : ∀ l, healthy l → Forall command_ok commands →
  returns (drain digest encode commands l) (λ '(_, l'), healthy l').
Proof.
  induction commands as [|x commands IH]; intros l Hh Hc; cbn [drain]; destruct (stopping l); try (by apply returns_ret).
  apply Forall_cons in Hc as [Hx Hc]. step_with (apply_Ok x l Hh Hx). intros l1 Hl1. by apply IH.
Qed.

Lemma publish_Ok advanced l :
  healthy l → (∀ o, o ∈ advanced → is_Some (heap (planner (sched l)) !! o)) →
  returns (publish advanced l) healthy.
Proof.
  intros Hh Ha. unfold publish. apply returns_bind. eapply returns_mono.
  - apply (returns_rfold (λ _ '(_, l1), sched l1 = sched l)); [done|].
    intros pre o post [events l1] El Hl1. unfold publish_one. rewrite Hl1.
    destruct (Ha o) as [r Hr]; [rewrite El; apply elem_of_app; right; by left|].
    destruct (g_front _ _ _ _ (proj1 Hh) o) as [f Hf]; [by exists r|].
    rewrite (request_Ok _ _ _ Hr). cbn [mbind result_bind]. rewrite (front_Ok _ _ _ Hf). cbn [mbind result_bind].
    cbv zeta. case_match; [by apply returns_ret|].
    repeat (case_decide || case_match); apply returns_ret; done.
  - intros [events l1] Hl1. apply returns_ret. unfold healthy in *. case_decide; cbn; by rewrite Hl1.
Qed.

Lemma turn_Ok commands l :
  healthy l → Forall command_ok commands → returns (turn commands l) (λ '(_, _, l'), healthy l').
Proof.
  intros Hh Hc. unfold Loop.turn. step_with (loop_drain_Ok commands l Hh Hc). intros [unread l1] Hl1.
  destruct (has_unfinished_requests (sched l1)); [|by apply returns_ret].
  pose proof Hl1 as (Hg & Hsz & Hp).
  step_with (sched_step_Ok digest digest_ok decode_ids is_digit k c resumes (sched l1) Hg Hsz ltac:(by rewrite Hp)).
  intros [advanced s'] (Hg' & He' & Ha).
  assert (Hh' : healthy (set_sched s' l1)) by (by apply (healthy_op l1)).
  step_with (publish_Ok advanced (set_sched s' l1) Hh' Ha). intros l2 Hl2. by apply returns_ret.
Qed.

(** The [while] loop, over the commands that arrive before each turn: what was
    left unread stays in front of them. *)
Fixpoint serve (unread : list SchedulerCommand) (arrivals : list (list SchedulerCommand)) l :
    result (bool * EventLoop) :=
  match arrivals with
  | [] => Ok (false, l)
  | commands :: arrivals =>
      '(over, unread, l) ← turn (unread ++ commands) l;
      if (over : bool) then Ok (true, l) else serve unread arrivals l
  end.

Lemma drain_unread commands : ∀ l unread l',
  Forall command_ok commands → drain digest encode commands l = Ok (unread, l') → Forall command_ok unread.
Proof.
  induction commands as [|x commands IH]; intros l unread l' Hc; cbn [drain]; destruct (stopping l).
  - by intros [= <- _].
  - by intros [= <- _].
  - by intros [= <- _].
  - apply Forall_cons in Hc as [_ Hc]. intros (l1 & _ & E)%bind_Ok. by apply (IH l1 unread l').
Qed.

Lemma turn_unread commands l over unread l' :
  Forall command_ok commands → turn commands l = Ok (over, unread, l') → Forall command_ok unread.
Proof.
  intros Hc ([u l1] & E & Ht)%bind_Ok. pose proof (drain_unread commands l u l1 Hc E) as Hu.
  destruct (has_unfinished_requests (sched l1)).
  - apply bind_Ok in Ht as ([advanced s'] & _ & Ht). apply bind_Ok in Ht as (l2 & _ & Ht). by injection Ht as _ <- _.
  - by injection Ht as _ <- _.
Qed.

Lemma serve_Ok arrivals : ∀ unread l,
  healthy l → Forall command_ok unread → Forall (Forall command_ok) arrivals →
  returns (serve unread arrivals l) (λ '(_, l'), healthy l').
Proof.
  induction arrivals as [|commands arrivals IH]; intros unread l Hh Hu Ha; [by apply returns_ret|].
  apply Forall_cons in Ha as [Hc Ha]. cbn [serve].
  assert (Hall : Forall command_ok (unread ++ commands)) by (by apply Forall_app).
  destruct (turn_Ok _ l Hh Hall) as ([[over unread'] l'] & E & Hl'). rewrite E. cbn [mbind result_bind].
  destruct over; [by apply returns_ret|]. apply IH; [done| |done]. by eapply turn_unread.
Qed.

End healthy.

(** C15: the command loop never raises.  A scheduler process that starts on a
    synchronous engine survives any commands in any order: adds (an invalid one
    is answered with an error event), batches, aborts of any id, queries,
    wake-ups and a shutdown, with steps and published events in between.  Token
    ids in the commands are of 32 bits ([command_ok]), and the executor runs the
    passes that fit it ([ExecutorLaws], which [Worker] proves of the repository's
    worker), resumed padded grids included unless the chunked kernel is off
    ([grids_taken]). *)
Theorem command_loop_never_raises d raw cfg x depth async s0 arrivals
    (Hc : make_config raw = Ok cfg) (Hi : Sched.init d (Some cfg) x false depth async None = Ok s0)
    (Hk : executor_num_slots d = k) (Hl : max_seq_len cfg = c) (Hgrid : grids_taken d resumes)
    (Ha : Forall (Forall command_ok) arrivals) :
  ∃ over l, serve [] arrivals (MkLoop s0 ∅ ∅ false []) = Ok (over, l).
Proof.
  destruct (engine_init_good digest resumes d raw cfg x depth async s0 Hc Hi) as (Hg & Hp & E1 & E2 & E3).
  destruct (serve_Ok (settings s0) Hp arrivals [] (MkLoop s0 ∅ ∅ false [])) as ([over l] & E & _); [|constructor|done|by exists over, l].
  split_and!; [done| |done]. split_and!; cbn; [congruence|congruence|by apply E3].
Qed.
End Loop.
End LoopSpec.
