(* ===== verification/EngineLimits.v ===== *)
(** * Where the engine loop falls short

    Three runs on a small engine: events lost to a preemption, and the two ways
    the launch/harvest pipeline gets ahead of its books. *)

From S2P Require Export EventLoopSpec EngineDemo.
From Stdlib Require Import QArith.

#[local] Close Scope Q_scope.

Module EngineLimits.
Import Planner Inv PlannerSpec Sched Loop SchedInv Passes Evolve SchedSpec LoopSpec EngineDemo.

(** An executor that keeps the passes it was given. *)
#[global] Instance trace_executor : Executor (list ModelInput) unit Z := {
  execute i x := Ok ((λ k, next_at (default 0%Z (seq_lens i !! k))) <$> sampled i, None, x ++ [i]);
  execute_verify i x := Ok (None, x ++ [i]);
  argmax row := (row mod 1000)%Z;
}.
Notation traced := (@Scheduler demo_tier (list ModelInput) unit).

(** Two slots, a context of 64, preemption off, no speculation. *)
Definition limits_config (blocks : nat) : SchedulerConfig :=
  MkConfig 64 2 64 true 64 false (Some blocks) false 0.
Definition limits_deployment : Deployment :=
  MkDeployment false 64 [99%Z] 2 0 false true 8 false false.
Definition limits_init (blocks : nat) (pipelined : bool) (depth : nat) : result traced :=
  cfg ← make_config (limits_config blocks);
  Sched.init limits_deployment (Some cfg) [] pipelined depth false None.

Definition traced_submit (rid : string) (ids : list Z) (s : traced) : result traced :=
  '(_, s) ← Sched.add_request demo_encode [] None (Some rid) (Some ids) false s; Ok s.
Fixpoint traced_steps (n : nat) (s : traced) : result traced :=
  match n with
  | 0 => Ok s
  | S n => '(_, s) ← Sched.step (Row := Z) Chain.toy_digest id demo_digit s; traced_steps n s
  end.

(** ** Events *)

Definition lossy_adds : list SchedulerCommand :=
  [CmdAdd (MkAdd "a" (replicate 14 5%Z) demo_params true);
   CmdAdd (MkAdd "b" (replicate 13 6%Z) demo_params true)].

(** A loop on a pool of some blocks, the two adds and some more turns. *)
Definition lossy_loop (blocks more : nat) : result (bool * @EventLoop demo_tier (list ModelInput) unit) :=
  s ← limits_init blocks false 1;
  serve (Row := Z) Chain.toy_digest id demo_encode demo_digit []
    (lossy_adds :: replicate more []) (MkLoop s ∅ ∅ false []).

(** What was published for an id. *)
Definition published {LP} (rid : string) (events : list (SchedulerEvents LP)) : list Z :=
  concat ((λ e, if decide (ev_request_id e = rid) then new_token_ids e else []) <$>
    concat (outputs <$> events)).

(** Where a request stands in a loop: its status and place, its prompt and
    output tokens, the count of tokens sent, and what was published for it. *)
Record Standing := MkStanding {
  st_status : Req.RequestStatus;
  st_running : bool;
  st_waiting : bool;
  st_prompt : list Z;
  st_output : list Z;
  st_sent : option nat;
  st_published : list Z;
}.
#[global] Instance Standing_eq_dec : EqDecision Standing.
Proof. solve_decision. Defined.

Definition standing {X LP} (rid : string) (oid : nat) (l : @EventLoop demo_tier X LP) : option Standing :=
  r ← heap (planner (sched l)) !! oid;
  Some (MkStanding (Req.status r) (bool_decide (oid ∈ running (planner (sched l))))
    (bool_decide ((rid, oid) ∈ waiting (planner (sched l)))) (Req.prompt_token_ids r)
    (Req.output_token_ids r) (sent_tokens l !! rid) (published rid (event_queue l))).

(** C30: a preemption loses events.  In a run of the command loop on three usable
    blocks with [enable_preemption] off, request "b" has published its first
    three tokens when a block shortage evicts it in the next turn all the same:
    it goes back to the queue, its three tokens are moved from its output to its
    prompt, and the count of tokens sent stays at three.  It is resumed and ends
    at its cap of nine tokens, but the tokens the count skips are never sent: of
    its nine tokens the client hears five.  The same run on enough blocks
    never evicts it and publishes all nine. *)
Theorem preemption_loses_events :
  ∃ l1 l2 l3 l4, lossy_loop 4 2 = Ok (false, l1) ∧ lossy_loop 4 3 = Ok (false, l2) ∧
    lossy_loop 4 13 = Ok (false, l3) ∧ lossy_loop 20 13 = Ok (false, l4) ∧
    enable_preemption (config (planner (sched l2))) = false ∧
    standing "b" 1 l1 = Some (MkStanding Req.RUNNING true false (replicate 13 6%Z) [11; 12; 10]%Z (Some 3) [11; 12; 10]%Z) ∧
    standing "b" 1 l2 = Some (MkStanding Req.WAITING false true (replicate 13 6%Z ++ [11; 12; 10]%Z) [] (Some 3)
      [11; 12; 10]%Z) ∧
    standing "b" 1 l3 = Some (MkStanding Req.FINISHED false false (replicate 13 6%Z ++ [11; 12; 10; 11]%Z)
      [12; 10; 11; 12; 10]%Z None [11; 12; 10; 12; 10]%Z) ∧
    standing "b" 1 l4 = Some (MkStanding Req.FINISHED false false (replicate 13 6%Z)
      [11; 12; 10; 11; 12; 10; 11; 12; 10]%Z None [11; 12; 10; 11; 12; 10; 11; 12; 10]%Z).
Proof.
  assert (Hrun : match lossy_loop 4 2, lossy_loop 4 3, lossy_loop 4 13, lossy_loop 20 13 with
    | Ok (false, l1), Ok (false, l2), Ok (false, l3), Ok (false, l4) =>
        bool_decide (enable_preemption (config (planner (sched l2))) = false) &&
        bool_decide (standing "b" 1 l1 = Some (MkStanding Req.RUNNING true false (replicate 13 6%Z) [11; 12; 10]%Z (Some 3)
          [11; 12; 10]%Z)) &&
        bool_decide (standing "b" 1 l2 = Some (MkStanding Req.WAITING false true (replicate 13 6%Z ++ [11; 12; 10]%Z) []
          (Some 3) [11; 12; 10]%Z)) &&
        bool_decide (standing "b" 1 l3 = Some (MkStanding Req.FINISHED false false (replicate 13 6%Z ++ [11; 12; 10; 11]%Z)
          [12; 10; 11; 12; 10]%Z None [11; 12; 10; 12; 10]%Z)) &&
        bool_decide (standing "b" 1 l4 = Some (MkStanding Req.FINISHED false false (replicate 13 6%Z)
          [11; 12; 10; 11; 12; 10; 11; 12; 10]%Z None [11; 12; 10; 11; 12; 10; 11; 12; 10]%Z))
    | _, _, _, _ => false
    end = true) by (vm_compute; reflexivity).
  destruct (lossy_loop 4 2) as [[[|] l1]|], (lossy_loop 4 3) as [[[|] l2]|], (lossy_loop 4 13) as [[[|] l3]|],
    (lossy_loop 20 13) as [[[|] l4]|]; try discriminate Hrun.
  repeat apply andb_true_iff in Hrun as [Hrun ?].
  exists l1, l2, l3, l4. split_and!; try reflexivity; by eapply bool_decide_eq_true.
Qed.

(** ** The pipeline *)

(** C31: a pipeline of depth two runs past the context.  A prompt of sixty
    tokens in a context of 64 ends in a decode pass for position 65, beyond
    every row the slot has; with depth one the spans of the same run stay
    within the context. *)
Theorem pipeline_overruns_context :
  (∃ s i, (s ← limits_init 20 true 2; s ← traced_submit "a" (replicate 60 5%Z) s; traced_steps 8 s) = Ok s ∧
    i ∈ executor s ∧ kind i = DECODE ∧ seq_starts i = [64%Z] ∧ seq_lens i = [65%Z] ∧
    max_seq_len (config (planner s)) = 64) ∧
  (∃ s, (s ← limits_init 20 true 1; s ← traced_submit "a" (replicate 60 5%Z) s; traced_steps 8 s) = Ok s ∧
    Forall (λ i, Forall (λ b, b ≤ 64)%Z (seq_lens i)) (executor s) ∧
    has_unfinished_requests s = false).
Proof.
  split.
  - match goal with |- ∃ s i, ?x = Ok s ∧ _ => destruct x as [s|] eqn:E; [|vm_compute in E; discriminate E] end.
    establish E (λ s : traced, bool_decide (max_seq_len (config (planner s)) = 64) &&
      match last (executor s) with
      | Some i => bool_decide (kind i = DECODE ∧ seq_starts i = [64%Z] ∧ seq_lens i = [65%Z])
      | None => false
      end).
    apply andb_true_iff in Hfact as [Hc%bool_decide_eq_true Hi].
    destruct (last (executor s)) as [i|] eqn:El; [|discriminate Hi].
    apply bool_decide_eq_true in Hi as (H1 & H2 & H3).
    assert (Hin : i ∈ executor s).
    { apply last_Some in El as (l & ->). apply elem_of_app. right. by left. }
    exists s, i. exact (conj eq_refl (conj Hin (conj H1 (conj H2 (conj H3 Hc))))).
  - match goal with |- ∃ s, ?x = Ok s ∧ _ => destruct x as [s|] eqn:E; [|vm_compute in E; discriminate E] end.
    establish E (λ s : traced, bool_decide (Forall (λ i, Forall (λ b, b ≤ 64)%Z (seq_lens i)) (executor s)) &&
      negb (has_unfinished_requests s)).
    apply andb_true_iff in Hfact as [Hf%bool_decide_eq_true Hu%negb_true_iff].
    exists s. exact (conj eq_refl (conj Hf Hu)).
Qed.

(** C32: the pipeline evicts a launched request.  The constructor refuses
    [enable_preemption] with the pipeline, yet a block shortage evicts whatever
    the flag says: the token in flight is then appended to a request that is
    back in the queue, whose pending count goes to -1. *)
Theorem pipeline_evicts_launched :
  Sched.init limits_deployment (Some (MkConfig 64 2 64 true 64 false (Some 4) true 0)) [] true 1 false None =
    (Err ValueError : result traced) ∧
  ∃ s r, (s ← limits_init 4 true 1; s ← traced_submit "a" (replicate 14 5%Z) s;
      s ← traced_submit "b" (replicate 14 5%Z) s; traced_steps 3 s) = Ok s ∧
    enable_preemption (config (planner s)) = false ∧
    heap (planner s) !! 1 = Some r ∧ Req.status r = Req.WAITING ∧ ("b"%string, 1) ∈ waiting (planner s) ∧
    Req.output_token_ids r ≠ [] ∧ Req.pending_tokens r = (-1)%Z.
Proof.
  split; [vm_compute; reflexivity|].
  match goal with |- ∃ s r, ?x = Ok s ∧ _ => destruct x as [s|] eqn:E; [|vm_compute in E; discriminate E] end.
  establish E (λ s : traced, negb (enable_preemption (config (planner s))) &&
    match heap (planner s) !! 1 with
    | Some r => bool_decide (Req.status r = Req.WAITING ∧ ("b"%string, 1) ∈ waiting (planner s) ∧
        Req.output_token_ids r ≠ [] ∧ Req.pending_tokens r = (-1)%Z)
    | None => false
    end).
  apply andb_true_iff in Hfact as [Hp%negb_true_iff Hr].
  destruct (heap (planner s) !! 1) as [r|] eqn:Er; [|discriminate Hr].
  apply bool_decide_eq_true in Hr as (H1 & H2 & H3 & H4).
  exists s, r. exact (conj eq_refl (conj Hp (conj Er (conj H1 (conj H2 (conj H3 H4)))))).
Qed.

(** ** The loop's witness *)

(** An add, a duplicate, an abort of an unknown id, and two turns. *)
Lemma command_loop_never_raises_witness :
  ∃ over l, (s ← demo_init false; serve (Row := Z) Chain.toy_digest id demo_encode demo_digit []
      [[CmdAdd (MkAdd "a" [10; 11]%Z demo_params true); CmdAdd (MkAdd "a" [12]%Z demo_params true);
        CmdAbort "zzz"]; [CmdUtility 7 "step_stats"]] (MkLoop s ∅ ∅ false [])) = Ok (over, l).
Proof.
  destruct (demo_init false) as [s0|] eqn:E0; [|vm_compute in E0; discriminate E0].
  pose proof E0 as (cfg & Hc & Hi)%bind_Ok. cbn [mbind result_bind].
  assert (Hcfg : max_seq_len cfg = 64) by (clear -Hc; vm_compute in Hc; by injection Hc as <-).
  apply (command_loop_never_raises (T := demo_tier) (X := unit) (LP := Z) (Row := Z) Chain.toy_digest
    Chain.toy_digest_ok id demo_encode demo_digit 2 64 false demo_encode_tokens demo_deployment
    demo_scheduler_config cfg tt 1 false s0 _ Hc Hi eq_refl Hcfg demo_grids).
  clear. repeat constructor; done.
Defined.
End EngineLimits.
