(* ===== verification/Spmd.v ===== *)
(** Programs that every rank of a process grid runs, and the collectives of
    [torch.distributed] they meet in.

    A rank's code is a [prog]: it returns, raises, or calls a collective on a
    process group and goes on with what the call hands it.  A grid of ranks
    steps when all members of one group have arrived at the same collective of
    that group; nothing else can move, so a rank that never arrives leaves its
    peers waiting.  What a collective answers is a parameter ([wire]); its
    documented behaviour is the class [WireLaws].

    Any two steps that are possible at once commute, so the order in which the
    groups get to meet is irrelevant ([every_schedule]): to show that a program
    finishes on every schedule it is enough to exhibit one. *)

From S2P Require Import Prelude.

Module Spmd.

(** A process group: its global ranks in group order, and the number
    [torch.distributed] gives each group it creates. *)
Record group := Group { ranks : list nat; comm : nat }.

Inductive reduction := SUM | MAX | MIN.

Inductive backend := nccl | gloo.

Inductive collective :=
  | InitProcessGroup
  | NewGroup (members : list nat) (b : backend)
  | AllGather
  | AllReduce (op : reduction)
  | ReduceScatter
  | AllToAll
  | Broadcast (src : nat)
  | Exchange.

#[global] Instance group_eq_dec : EqDecision group.
Proof. solve_decision. Defined.
#[global] Instance backend_eq_dec : EqDecision backend.
Proof. solve_decision. Defined.

Section programs.
Context {V : Type}.

Inductive prog (A : Type) :=
  | Ret (a : A)
  | Raise (e : exn)
  | Call (g : group) (c : collective) (x : V) (k : list V → prog A).
Arguments Ret {A} _.
Arguments Raise {A} _.
Arguments Call {A} _ _ _ _.

#[global] Instance prog_ret : MRet prog := λ A, Ret.
#[global] Instance prog_bind : MBind prog := λ A B f,
  fix bind p :=
    match p with
    | Ret a => f a
    | Raise e => Raise e
    | Call g c x k => Call g c x (λ y, bind (k y))
    end.

(** [assert b e] in a program. *)
Definition pguard (b : bool) (e : exn) : prog unit := if b then Ret tt else Raise e.

(** A pure computation that may raise. *)
Definition lift {A} (r : result A) : prog A := match r with Ok a => Ret a | Err e => Raise e end.

(** A [for] loop whose body calls collectives. *)
Fixpoint pfold {A S} (f : A → S → prog S) (l : list A) (s : S) : prog S :=
  match l with
  | [] => Ret s
  | a :: l => s ← f a s; pfold f l s
  end.

(** ** The grid *)

Context (wire : collective → list V → option (list (list V))).

Definition resume {A} (p : prog A) (y : list V) : prog A :=
  match p with Call _ _ _ k => k y | _ => p end.

Definition position (r : nat) (l : list nat) : option nat := fst <$> list_find (r =.) l.

Definition deliver {A} (g : group) (ys : list (list V)) (cfg : list (prog A)) : list (prog A) :=
  imap (λ r p, match position r (ranks g) ≫= (ys !!.) with Some y => resume p y | None => p end) cfg.

(** All members of [g] have arrived at [c], the [i]-th with [xs !! i]. *)
Definition ready {A} (cfg : list (prog A)) (g : group) (c : collective) (xs : list V) : Prop :=
  Forall2 (λ r x, ∃ k, cfg !! r = Some (Call g c x k)) (ranks g) xs.

Definition step {A} (cfg cfg' : list (prog A)) : Prop :=
  ∃ g c xs ys, ranks g ≠ [] ∧ NoDup (ranks g) ∧ ready cfg g c xs ∧
    wire c xs = Some ys ∧ length ys = length xs ∧ cfg' = deliver g ys cfg.

(** [spmd n p a]: the ranks below [n], each running its [p], can finish, rank
    [r] with the result [a r]. *)
Definition spmd {A} (n : nat) (p : nat → prog A) (a : nat → A) : Prop :=
  rtc step (p <$> seq 0 n) ((λ r, Ret (a r)) <$> seq 0 n).

(** ** Schedules *)

Lemma position_Some r l i : position r l = Some i → l !! i = Some r.
Proof.
  unfold position. intros ([j x] & Hf & [= <-])%fmap_Some. apply list_find_Some in Hf as (Hx & -> & _).
  done.
Qed.

Lemma position_None r l : position r l = None ↔ r ∉ l.
Proof.
  unfold position. rewrite fmap_None, list_find_None, Forall_forall. split.
  - intros H Hr. by apply (H r).
  - intros H x Hx ->. done.
Qed.

Lemma position_elem r l : r ∈ l → ∃ i, position r l = Some i.
Proof. intros Hr. destruct (position r l) as [i|] eqn:E; [eauto|]. by apply position_None in E. Qed.

Lemma position_lookup r l i : NoDup l → l !! i = Some r → position r l = Some i.
Proof.
  intros Hl Hi. destruct (position_elem r l) as [j Hj]; [by apply list_elem_of_lookup_2 in Hi|].
  rewrite Hj. f_equal. apply (NoDup_lookup l j i r Hl); [by apply position_Some|done].
Qed.

Lemma deliver_lookup {A} g ys (cfg : list (prog A)) r :
  deliver g ys cfg !! r =
  (λ p, match position r (ranks g) ≫= (ys !!.) with Some y => resume p y | None => p end) <$> cfg !! r.
Proof. apply list_lookup_imap. Qed.

Lemma deliver_other {A} g ys (cfg : list (prog A)) r :
  r ∉ ranks g → deliver g ys cfg !! r = cfg !! r.
Proof.
  intros Hr. rewrite deliver_lookup. apply position_None in Hr as ->. cbn. by destruct (cfg !! r).
Qed.

Lemma ready_call {A} (cfg : list (prog A)) g c xs r :
  ready cfg g c xs → r ∈ ranks g → ∃ x k, cfg !! r = Some (Call g c x k).
Proof.
  intros Hr (i & Hi)%list_elem_of_lookup_1. destruct (Forall2_lookup_l _ _ _ _ _ Hr Hi) as (x & _ & k & Hk).
  eauto.
Qed.

Lemma ready_fun {A} (cfg : list (prog A)) g c1 c2 xs1 xs2 :
  ranks g ≠ [] → ready cfg g c1 xs1 → ready cfg g c2 xs2 → c1 = c2 ∧ xs1 = xs2.
Proof.
  intros Hne H1 H2.
  assert (Hxs : xs1 = xs2 ∧ (c1 = c2 ∨ ranks g = [])).
  { clear Hne. unfold ready in *. revert xs2 H2.
    induction H1 as [|r x1 rs xs1 (k1 & E1) _ IH]; intros xs2 H2; inversion H2 as [|? x2 ? xs2' (k2 & E2) H2']; subst.
    - auto.
    - rewrite E1 in E2. injection E2 as <- <- _. destruct (IH _ H2') as (-> & _). auto. }
  destruct Hxs as (-> & [->|?]); done.
Qed.

Lemma ready_other {A} (cfg : list (prog A)) g1 g2 ys c xs :
  (∀ r, r ∈ ranks g1 → r ∉ ranks g2) → ready cfg g1 c xs → ready (deliver g2 ys cfg) g1 c xs.
Proof.
  intros Hd Hr. apply Forall2_same_length_lookup in Hr as (Hl & Hr).
  apply Forall2_same_length_lookup. split; [done|]. intros i r x Hi Hx. destruct (Hr i r x Hi Hx) as (k & Hk).
  exists k. rewrite deliver_other; [done|]. by eapply Hd, list_elem_of_lookup_2.
Qed.

Lemma deliver_comm {A} (cfg : list (prog A)) g1 g2 ys1 ys2 :
  (∀ r, r ∈ ranks g1 → r ∉ ranks g2) →
  deliver g1 ys1 (deliver g2 ys2 cfg) = deliver g2 ys2 (deliver g1 ys1 cfg).
Proof.
  intros Hd. apply list_eq. intros r. rewrite !deliver_lookup.
  destruct (cfg !! r) as [p|]; [|done]. cbn.
  destruct (decide (r ∈ ranks g1)) as [H1|H1].
  - assert (position r (ranks g2) = None) as -> by (apply position_None; auto). done.
  - apply position_None in H1 as ->. done.
Qed.

(** Two steps of one grid are the same step, or commute. *)
Lemma step_diamond {A} (cfg a b : list (prog A)) :
  step cfg a → step cfg b → a = b ∨ ∃ d, step a d ∧ step b d.
Proof.
  intros (g1 & c1 & xs1 & ys1 & Hn1 & Hd1 & Hr1 & Hw1 & Hl1 & ->)
         (g2 & c2 & xs2 & ys2 & Hn2 & Hd2 & Hr2 & Hw2 & Hl2 & ->).
  destruct (decide (g1 = g2)) as [<-|Hg].
  - left. destruct (ready_fun cfg g1 c1 c2 xs1 xs2 Hn1 Hr1 Hr2) as (<- & <-). congruence.
  - assert (∀ r, r ∈ ranks g1 → r ∉ ranks g2) as Hdis.
    { intros r H1 H2. destruct (ready_call _ _ _ _ _ Hr1 H1) as (? & ? & E1).
      destruct (ready_call _ _ _ _ _ Hr2 H2) as (? & ? & E2). congruence. }
    right. exists (deliver g2 ys2 (deliver g1 ys1 cfg)). split.
    + exists g2, c2, xs2, ys2. repeat split; try done. apply ready_other; [|done]. intros r H2 H1. by apply (Hdis r).
    + exists g1, c1, xs1, ys1. repeat split; try done; [by apply ready_other|by apply eq_sym, deliver_comm].
Qed.

Definition finished {A} (cfg : list (prog A)) : Prop :=
  ∀ p, p ∈ cfg → match p with Call _ _ _ _ => False | _ => True end.

Lemma finished_stops {A} (cfg cfg' : list (prog A)) : finished cfg → ¬ step cfg cfg'.
Proof.
  intros Hf (g & c & xs & ys & Hn & _ & Hr & _). destruct (ranks g) as [|r rs] eqn:E; [done|].
  destruct (ready_call _ _ _ _ r Hr) as (x & k & Hk); [rewrite E; left|].
  by apply list_elem_of_lookup_2, Hf in Hk.
Qed.

Lemma finished_ret {A} n (a : nat → A) : finished ((λ r, Ret (a r)) <$> seq 0 n).
Proof. intros p (r & -> & _)%list_elem_of_fmap. done. Qed.

Lemma next_step {A} n (cfg b final : list (prog A)) :
  finished final → nsteps step n cfg final → step cfg b → ∃ m, n = S m ∧ nsteps step m b final.
Proof.
  intros Hf. revert cfg b. induction n as [|n IH]; intros cfg b Hn Hb.
  - inversion Hn; subst. by apply finished_stops in Hb.
  - inversion Hn as [|? ? a ? Ha Hn']; subst. exists n. split; [done|].
    destruct (step_diamond cfg a b Ha Hb) as [<-|(d & Had & Hbd)]; [done|].
    destruct (IH a d Hn' Had) as (m & -> & Hm). by econstructor.
Qed.

(** Whatever the groups that met first, the grid is never stuck and can only
    finish with the same results. *)
Lemma every_schedule {A} n (p : nat → prog A) (a : nat → A) cfg :
  spmd n p a → rtc step (p <$> seq 0 n) cfg → rtc step cfg ((λ r, Ret (a r)) <$> seq 0 n).
Proof.
  intros (k & Hk)%rtc_nsteps_1 Hrun. revert k Hk.
  induction Hrun as [cfg|cfg1 cfg2 cfg3 Hs _ IH]; intros k Hk; [by eapply rtc_nsteps_2|].
  destruct (next_step k cfg1 cfg2 _ (finished_ret n a) Hk Hs) as (m & -> & Hm). eauto.
Qed.

(** Whatever happens first, the ranks below [n] end with the results [a]. *)
Definition always {A} (n : nat) (p : nat → prog A) (a : nat → A) : Prop :=
  ∀ cfg, rtc step (p <$> seq 0 n) cfg → rtc step cfg ((λ r, Ret (a r)) <$> seq 0 n).

Lemma spmd_always {A} n (p : nat → prog A) (a : nat → A) : spmd n p a → always n p a.
Proof. intros Hp cfg. by apply every_schedule. Qed.

(** A schedule has no more steps than any other. *)
Lemma schedule_bound {A} n (p : nat → prog A) (a : nat → A) k m cfg :
  nsteps step k (p <$> seq 0 n) ((λ r, Ret (a r)) <$> seq 0 n) →
  nsteps step m (p <$> seq 0 n) cfg → m ≤ k.
Proof.
  intros Hk Hm. revert k Hk. remember (p <$> seq 0 n) as c0 eqn:E. clear E.
  induction Hm as [|m c1 c2 c3 Hs _ IH]; intros k Hk; [lia|].
  destruct (next_step k c1 c2 _ (finished_ret n a) Hk Hs) as (k' & -> & Hk').
  apply IH in Hk'. lia.
Qed.

(** ** Rules: what a grid of ranks computes *)

Lemma spmd_ret {A} n (a : nat → A) : spmd n (λ r, Ret (a r)) a.
Proof. apply rtc_refl. Qed.

Lemma spmd_ext {A} n (p q : nat → prog A) (a b : nat → A) :
  (∀ r, r < n → p r = q r) → (∀ r, r < n → a r = b r) → spmd n p a → spmd n q b.
Proof.
  intros Hp Ha. unfold spmd.
  rewrite (list_fmap_ext p q (seq 0 n)) by (intros i r Hi; apply Hp; by apply lookup_seq in Hi as (-> & ?)).
  rewrite (list_fmap_ext (λ r, Ret (a r)) (λ r, Ret (b r)) (seq 0 n)); [done|].
  intros i r Hi. f_equal. apply Ha. by apply lookup_seq in Hi as (-> & ?).
Qed.

Definition bind_all {A B} (f : nat → A → prog B) (cfg : list (prog A)) : list (prog B) :=
  imap (λ r p, p ≫= f r) cfg.

Lemma bind_all_step {A B} (f : nat → A → prog B) cfg cfg' :
  step cfg cfg' → step (bind_all f cfg) (bind_all f cfg').
Proof.
  intros (g & c & xs & ys & Hn & Hd & Hr & Hw & Hl & ->). exists g, c, xs, ys. repeat split; try done.
  - apply Forall2_same_length_lookup in Hr as (Hlen & Hr). apply Forall2_same_length_lookup. split; [done|].
    intros i r x Hi Hx. destruct (Hr i r x Hi Hx) as (k & Hk). exists (λ y, k y ≫= f r).
    unfold bind_all. by rewrite list_lookup_imap, Hk.
  - apply list_eq. intros r. unfold bind_all.
    rewrite list_lookup_imap, !deliver_lookup, list_lookup_imap. destruct (cfg !! r) as [p|] eqn:E; [|done].
    cbn. f_equal. destruct (position r (ranks g)) as [i|] eqn:Ei; [|done]. cbn.
    destruct (ys !! i) as [y|]; [|done].
    destruct (ready_call _ _ _ _ r Hr) as (x & k & Hk); [by eapply list_elem_of_lookup_2, position_Some|].
    rewrite E in Hk. injection Hk as ->. done.
Qed.

Lemma bind_all_seq {A B} n (f : nat → A → prog B) (p : nat → prog A) :
  bind_all f (p <$> seq 0 n) = (λ r, p r ≫= f r) <$> seq 0 n.
Proof.
  apply list_eq. intros r. unfold bind_all. rewrite list_lookup_imap, !list_lookup_fmap.
  destruct (seq 0 n !! r) as [r'|] eqn:E; [|done]. apply lookup_seq in E as (-> & _). done.
Qed.

Lemma spmd_bind {A B} n (p : nat → prog A) (f : nat → A → prog B) a b :
  spmd n p a → spmd n (λ r, f r (a r)) b → spmd n (λ r, p r ≫= f r) b.
Proof.
  intros Hp Hf. unfold spmd in *. etrans; [|exact Hf].
  assert (rtc step (bind_all f (p <$> seq 0 n)) (bind_all f ((λ r, Ret (a r)) <$> seq 0 n))) as H.
  { revert Hp. generalize (p <$> seq 0 n) as c1. intros c1. induction 1 as [c1|c1 c2 c3 H1 _ IH]; [apply rtc_refl|].
    eapply rtc_l; [|exact IH]. by apply bind_all_step. }
  by rewrite !bind_all_seq in H.
Qed.

Lemma spmd_lift {A} n (p : nat → result A) a : (∀ r, r < n → p r = Ok (a r)) → spmd n (λ r, lift (p r)) a.
Proof.
  intros H. eapply spmd_ext; [|reflexivity|apply (spmd_ret n a)]. intros r Hr. by rewrite H.
Qed.

Lemma spmd_pfold {A S} n (f : nat → A → S → prog S) (g : nat → A → S → S) l (s : nat → S) :
  (∀ a s, a ∈ l → spmd n (λ r, f r a (s r)) (λ r, g r a (s r))) →
  spmd n (λ r, pfold (f r) l (s r)) (λ r, foldl (λ s a, g r a s) (s r) l).
Proof.
  revert s. induction l as [|a l IH]; intros s H; cbn; [apply spmd_ret|].
  eapply spmd_bind; [apply H; left|]. apply IH. intros a' s' Ha'. apply H. by right.
Qed.

(** The same loop over a list whose items differ from rank to rank. *)
Lemma spmd_pfold_map {A S} n (f : nat → A → S → prog S) (g : nat → (nat → A) → S → S) (l : list (nat → A)) (s : nat → S) :
  (∀ x s, x ∈ l → spmd n (λ r, f r (x r) (s r)) (λ r, g r x (s r))) →
  spmd n (λ r, pfold (f r) ((λ x, x r) <$> l) (s r)) (λ r, foldl (λ s x, g r x s) (s r) l).
Proof.
  revert s. induction l as [|a l IH]; intros s H; cbn; [apply spmd_ret|].
  eapply spmd_bind; [apply H; left|]. apply IH. intros a' s' Ha'. apply H. by right.
Qed.

(** The ranks below [n], each in its own group [grp r], all groups whole. *)
Record family (n : nat) (grp : nat → group) : Prop := {
  family_own : ∀ r, r < n → r ∈ ranks (grp r);
  family_peer : ∀ r r', r < n → r' ∈ ranks (grp r) → r' < n ∧ grp r' = grp r;
  family_nodup : ∀ r, r < n → NoDup (ranks (grp r));
}.

(** Every rank calls the collective of its group. *)
Lemma spmd_calls {A} n (grp : nat → group) (c : nat → collective) (x : nat → V) (y : nat → list V) (k : nat → list V → prog A) b :
  family n grp → (∀ r r', r < n → r' ∈ ranks (grp r) → c r' = c r) →
  (∀ r, r < n → wire (c r) (x <$> ranks (grp r)) = Some (y <$> ranks (grp r))) →
  spmd n (λ r, k r (y r)) b → spmd n (λ r, Call (grp r) (c r) (x r) (k r)) b.
Proof.
  intros Hfam Hc Hw Hk. unfold spmd in *. etrans; [|exact Hk]. clear Hk.
  set (mix := λ (G : list group) r, if decide (grp r ∈ G) then k r (y r) else Call (grp r) (c r) (x r) (k r)).
  assert (∀ m, m ≤ n → rtc step (mix [] <$> seq 0 n) (mix (grp <$> seq 0 m) <$> seq 0 n)) as H.
  { induction m as [|m IH]; intros Hm; [apply rtc_refl|].
    rewrite seq_S, fmap_app. cbn [fmap list_fmap Nat.add]. etrans; [apply IH; lia|].
    set (G := grp <$> seq 0 m) in *.
    destruct (decide (grp m ∈ G)) as [Hin|Hin].
    - replace (mix (G ++ [grp m]) <$> seq 0 n) with (mix G <$> seq 0 n); [apply rtc_refl|].
      apply list_fmap_ext. intros _ r _. unfold mix.
      assert (grp r ∈ G ↔ grp r ∈ G ++ [grp m]) as Hiff
        by (rewrite elem_of_app, list_elem_of_singleton; naive_solver congruence).
      by apply decide_ext.
    - apply rtc_once. exists (grp m), (c m), (x <$> ranks (grp m)), (y <$> ranks (grp m)).
      assert (m < n) as Hmn by lia. repeat split.
      + pose proof (family_own _ _ Hfam m Hmn) as H. by intros E; rewrite E in H; apply elem_of_nil in H.
      + by apply (family_nodup _ _ Hfam).
      + apply Forall2_fmap_r, Forall_Forall2_diag, Forall_forall. intros r Hr.
        destruct (family_peer _ _ Hfam m r Hmn Hr) as (Hrn & Hg). exists (k r).
        rewrite list_lookup_fmap, (lookup_seq_lt 0 n r) by done. cbn. unfold mix. by rewrite Hg, (Hc m r), decide_False.
      + by apply Hw.
      + by rewrite !length_fmap.
      + apply list_eq. intros r. rewrite deliver_lookup, !list_lookup_fmap.
        destruct (seq 0 n !! r) as [r'|] eqn:E; [|done]. apply lookup_seq in E as (-> & Hrn). cbn [fmap option_fmap option_map Nat.add].
        f_equal. destruct (decide (r ∈ ranks (grp m))) as [Hr|Hr].
        * destruct (family_peer _ _ Hfam m r Hmn Hr) as (_ & Hg).
          destruct (list_elem_of_lookup_1 _ _ Hr) as (i & Hi).
          rewrite (position_lookup r _ i) by (done || by apply (family_nodup _ _ Hfam)). cbn.
          rewrite list_lookup_fmap, Hi. cbn. unfold mix. rewrite Hg, decide_True by (apply elem_of_app; right; by left). by rewrite decide_False.
        * pose proof Hr as ->%position_None. cbn. unfold mix.
          assert (grp r ≠ grp m) by (intros Eg; apply Hr; rewrite <- Eg; by apply (family_own _ _ Hfam)).
          apply decide_ext. rewrite elem_of_app, list_elem_of_singleton. naive_solver. }
  specialize (H n (le_n n)).
  replace ((λ r, Call (grp r) (c r) (x r) (k r)) <$> seq 0 n) with (mix [] <$> seq 0 n);
    [replace ((λ r, k r (y r)) <$> seq 0 n) with (mix (grp <$> seq 0 n) <$> seq 0 n); [done|]|].
  - apply list_fmap_ext. intros i r Hi. unfold mix. rewrite decide_True; [done|].
    by eapply list_elem_of_fmap_2, list_elem_of_lookup_2.
  - apply list_fmap_ext. intros _ r _. unfold mix. by rewrite decide_False by apply not_elem_of_nil.
Qed.

Lemma spmd_call {A} n (grp : nat → group) c (x : nat → V) (y : nat → list V) (k : nat → list V → prog A) b :
  family n grp →
  (∀ r, r < n → wire c (x <$> ranks (grp r)) = Some (y <$> ranks (grp r))) →
  spmd n (λ r, k r (y r)) b → spmd n (λ r, Call (grp r) c (x r) (k r)) b.
Proof. intros Hfam. by apply (spmd_calls n grp (λ _, c)). Qed.

End programs.

Arguments Ret {V A} _.
Arguments Raise {V A} _.
Arguments Call {V A} _ _ _ _.

(** ** Tensors on the wire *)

(** A tensor is the list of its slices along the axis a collective works on.
    How two slices are reduced is the arithmetic of the device. *)
Class RowOps (Row : Type) := {
  row_zero : Row;
  row_reduce : reduction → Row → Row → Row;
}.

Section wire_laws.
Context {Row : Type} `{!RowOps Row}.
Notation tensor := (list Row).
Implicit Types (x : tensor) (xs : list tensor) (g : group).

(** The elementwise reduction of what the ranks contribute, in group order. *)
Definition reduce (op : reduction) (xs : list tensor) : tensor :=
  match xs with [] => [] | x :: xs => foldl (zip_with (row_reduce op)) x xs end.

Definition chunk (n i : nat) (x : tensor) : tensor := take n (drop (i * n) x).

(** [dist.get_world_size] and [dist.get_rank]. *)
Definition group_size (g : group) : nat := length (ranks g).
Definition group_rank (g : group) (r : nat) : nat := default 0 (position r (ranks g)).

(** What the documentation of [torch.distributed] says the collectives answer
    when the members contribute tensors of the shapes it asks for. *)
Class WireLaws (wire : collective → list tensor → option (list (list tensor))) := {
  wire_init xs : wire InitProcessGroup xs = Some ((λ _, []) <$> xs);
  wire_new_group m b xs : wire (NewGroup m b) xs = Some ((λ _, []) <$> xs);
  wire_all_gather n xs : Forall (λ x, length x = n) xs → wire AllGather xs = Some ((λ _, xs) <$> xs);
  wire_all_reduce op n xs :
    Forall (λ x, length x = n) xs → wire (AllReduce op) xs = Some ((λ _, [reduce op xs]) <$> xs);
  wire_reduce_scatter n xs :
    Forall (λ x, length x = n * length xs) xs →
    wire ReduceScatter xs = Some (imap (λ i _, [chunk n i (reduce SUM xs)]) xs);
  wire_all_to_all n xs :
    Forall (λ x, length x = n * length xs) xs →
    wire AllToAll xs = Some (imap (λ i _, [concat (chunk n i <$> xs)]) xs);
  wire_broadcast src x xs : xs !! src = Some x → wire (Broadcast src) xs = Some ((λ _, [x]) <$> xs);
  wire_exchange x y : wire Exchange [x; y] = Some [[y]; [x]];
}.

(** The collectives as a function: the model the laws are checked on. *)
Definition ideal_wire (c : collective) (xs : list tensor) : option (list (list tensor)) :=
  match c with
  | InitProcessGroup | NewGroup _ _ => Some ((λ _, []) <$> xs)
  | AllGather => Some ((λ _, xs) <$> xs)
  | AllReduce op => Some ((λ _, [reduce op xs]) <$> xs)
  | ReduceScatter =>
      let n := default [] (head xs) in
      Some (imap (λ i _, [chunk (length n / length xs) i (reduce SUM xs)]) xs)
  | AllToAll =>
      let n := default [] (head xs) in
      Some (imap (λ i _, [concat (chunk (length n / length xs) i <$> xs)]) xs)
  | Broadcast src => x ← xs !! src; Some ((λ _, [x]) <$> xs)
  | Exchange => match xs with [x; y] => Some [[y]; [x]] | _ => None end
  end.

#[global] Instance ideal_wire_laws : WireLaws ideal_wire.
Proof.
  assert (∀ n xs, Forall (λ x, length x = n * length xs) xs → xs ≠ [] →
            length (default [] (head xs)) / length xs = n) as Hdiv.
  { intros n [|x xs] H Hne; [done|]. apply Forall_cons in H as (H & _). cbn [head default]. cbn [head default from_option].
    unfold id. rewrite H. apply Nat.div_mul. done. }
  split; try done; unfold ideal_wire.
  - intros n [|x xs] H; [done|]. by rewrite (Hdiv n (x :: xs)) by done.
  - intros n [|x xs] H; [done|]. by rewrite (Hdiv n (x :: xs)) by done.
  - intros src x xs ->. done.
Qed.

(** ** Indexing by the rank within a group *)

Lemma group_rank_lookup g r : r ∈ ranks g → ranks g !! group_rank g r = Some r.
Proof. intros (i & Hi)%position_elem. unfold group_rank. rewrite Hi. by apply position_Some. Qed.

Lemma group_rank_lt g r : r ∈ ranks g → group_rank g r < group_size g.
Proof. intros H%group_rank_lookup. by apply lookup_lt_Some in H. Qed.

Lemma imap_ranks {A B} g (f : nat → A) (x : nat → B) :
  NoDup (ranks g) → imap (λ i _, f i) (x <$> ranks g) = (λ r, f (group_rank g r)) <$> ranks g.
Proof.
  intros Hg. apply list_eq. intros i. rewrite list_lookup_imap, !list_lookup_fmap.
  destruct (ranks g !! i) as [r|] eqn:E; [|done]. cbn. unfold group_rank.
  by rewrite (position_lookup r _ i).
Qed.
End wire_laws.
End Spmd.
