(* ===== verification/Topology.v ===== *)
(** The rank geometry of the process grid ([distributed/topology.py] and
    [grid_coordinates] of [distributed/parallel_state.py]).

    A world of [dp x tp] ranks; the [tp] axis of a replica factors into
    [pcp x attention-tp], and [dcp] cuts consecutive subgroups out of an
    attention-tp group.  The group lists partition the world, and the
    coordinates of a rank are its positions in its groups. *)

From S2P Require Import Prelude.

Module Topology.

Definition PCP_STRATEGIES : list string := ["zigzag"; "interleave"]%string.
Definition DCP_COMM_BACKENDS : list string := ["ag_rs"; "a2a"]%string.

(** The widths are positive and the rank natural once [resolve_topology] has
    accepted them. *)
Record ParallelTopology := MkTopology {
  global_rank : nat;
  tp_size : nat;
  dp_size : nat;
  pcp_size : nat;
  dcp_size : nat;
  pcp_strategy : string;
  dcp_comm_backend : string;
}.

(** [range(start, stop, step)] for a positive step. *)
Definition range_step (start stop step : nat) : list nat :=
  (λ i, start + i * step) <$> seq 0 ((stop - start + step - 1) / step).

Section properties.
Context (t : ParallelTopology).

Definition world_size : nat := tp_size t * dp_size t.
Definition dp_rank : nat := global_rank t / tp_size t.
Definition tp_rank : nat := global_rank t mod tp_size t.
Definition attention_tp_size : nat := tp_size t / pcp_size t.
Definition pcp_rank : nat := tp_rank / attention_tp_size.
Definition attention_tp_rank : nat := tp_rank mod attention_tp_size.
Definition dcp_rank : nat := attention_tp_rank mod dcp_size t.
Definition dcp_group_index : nat := attention_tp_rank / dcp_size t.

Definition replica_members (replica : option nat) : list nat :=
  seq (default dp_rank replica * tp_size t) (tp_size t).

Definition attention_tp_groups : list (list nat) :=
  replica ← seq 0 (dp_size t);
  pcp_rank ← seq 0 (pcp_size t);
  [seq (replica * tp_size t + pcp_rank * attention_tp_size) attention_tp_size].

Definition pcp_groups : list (list nat) :=
  replica ← seq 0 (dp_size t);
  attention_rank ← seq 0 attention_tp_size;
  [(λ pcp_rank, replica * tp_size t + pcp_rank * attention_tp_size + attention_rank) <$>
     seq 0 (pcp_size t)].

Definition dcp_groups : list (list nat) :=
  attention_group ← attention_tp_groups;
  start ← range_step 0 (length attention_group) (dcp_size t);
  [take (dcp_size t) (drop start attention_group)].
End properties.

(** The checks of [__post_init__]. *)
Definition resolve_topology (global_rank tp_size dp_size pcp_size dcp_size : Z)
    (pcp_strategy dcp_comm_backend : string) : result ParallelTopology :=
  _ ← rguard (forallb (λ value, negb (value <? 1)%Z) [tp_size; dp_size; pcp_size; dcp_size]) ValueError;
  _ ← rguard ((0 <=? global_rank) && (global_rank <? tp_size * dp_size))%Z ValueError;
  _ ← rguard (tp_size mod pcp_size =? 0)%Z ValueError;
  _ ← rguard ((tp_size / pcp_size) mod dcp_size =? 0)%Z ValueError;
  _ ← rguard (bool_decide (pcp_strategy ∈ PCP_STRATEGIES)) ValueError;
  _ ← rguard (negb (bool_decide (dcp_comm_backend = "fi_a2a"%string))) ValueError;
  _ ← rguard (bool_decide (dcp_comm_backend ∈ DCP_COMM_BACKENDS)) ValueError;
  Ok (MkTopology (Z.to_nat global_rank) (Z.to_nat tp_size) (Z.to_nat dp_size) (Z.to_nat pcp_size)
        (Z.to_nat dcp_size) pcp_strategy dcp_comm_backend).

Definition grid_coordinates (global_rank tp_size dp_size : Z) : result (Z * Z) :=
  _ ← rguard (negb ((tp_size <? 1) || (dp_size <? 1)))%Z ValueError;
  _ ← rguard ((0 <=? global_rank) && (global_rank <? tp_size * dp_size))%Z ValueError;
  Ok (global_rank / tp_size, global_rank mod tp_size)%Z.

(** ** What an accepted topology is *)

Record valid (t : ParallelTopology) : Prop := {
  valid_tp : tp_size t ≠ 0;
  valid_dp : dp_size t ≠ 0;
  valid_pcp : pcp_size t ≠ 0;
  valid_dcp : dcp_size t ≠ 0;
  valid_rank : global_rank t < world_size t;
  valid_attention : tp_size t = pcp_size t * attention_tp_size t;
  valid_decode : attention_tp_size t mod dcp_size t = 0;
}.

Lemma divides_nat a b : (0 < a)%Z → (0 < b)%Z → (a mod b = 0)%Z →
  Z.to_nat a = Z.to_nat b * (Z.to_nat a / Z.to_nat b) ∧
  Z.to_nat (a / b) = Z.to_nat a / Z.to_nat b.
Proof.
  intros Ha Hb Hm. rewrite Z2Nat.inj_div by lia. split; [|done].
  pose proof (Nat.div_mod_eq (Z.to_nat a) (Z.to_nat b)) as E.
  assert (Z.to_nat a mod Z.to_nat b = 0) by (rewrite <- Z2Nat.inj_mod by lia; by rewrite Hm). lia.
Qed.

Lemma resolve_topology_Ok rank tp dp pcp dcp strategy backend t :
  resolve_topology rank tp dp pcp dcp strategy backend = Ok t →
  valid t ∧ t = MkTopology (Z.to_nat rank) (Z.to_nat tp) (Z.to_nat dp) (Z.to_nat pcp)
                  (Z.to_nat dcp) strategy backend ∧
  (0 ≤ rank)%Z ∧ world_size t = Z.to_nat (tp * dp).
Proof.
  unfold resolve_topology. intros H. inv_ok. subst t.
  repeat match goal with H : forallb _ _ = true |- _ => cbn in H end.
  repeat match goal with H : (_ && _)%bool = true |- _ => apply andb_prop in H as (? & ?) end.
  repeat match goal with H : negb _ = true |- _ => apply negb_true_iff in H end.
  repeat match goal with
  | H : (_ <? _)%Z = false |- _ => apply Z.ltb_ge in H
  | H : (_ <? _)%Z = true |- _ => apply Z.ltb_lt in H
  | H : (_ <=? _)%Z = true |- _ => apply Z.leb_le in H
  | H : (_ =? _)%Z = true |- _ => apply Z.eqb_eq in H
  end.
  destruct (divides_nat tp pcp) as (Htp & Hq); [lia..|].
  assert (Hw : Z.to_nat tp * Z.to_nat dp = Z.to_nat (tp * dp)) by (rewrite Z2Nat.inj_mul by lia; done).
  split; [|split; [done|split; [done|exact Hw]]].
  split; cbn; unfold attention_tp_size, world_size; cbn; try lia.
  rewrite <- Hq. rewrite <- Z2Nat.inj_mod by (try apply Z.div_pos; lia). by replace ((tp / pcp) mod dcp)%Z with 0%Z.
Qed.

(** The ranks of one grid see the same widths. *)
Definition at_rank (r : nat) (t : ParallelTopology) : ParallelTopology :=
  MkTopology r (tp_size t) (dp_size t) (pcp_size t) (dcp_size t) (pcp_strategy t) (dcp_comm_backend t).

Lemma valid_at r t : valid t → r < world_size t → valid (at_rank r t).
Proof. by intros [] Hr; split. Qed.

Lemma resolve_at r0 tp dp pcp dcp strategy backend t r :
  resolve_topology r0 tp dp pcp dcp strategy backend = Ok t → r < world_size t →
  resolve_topology (Z.of_nat r) tp dp pcp dcp strategy backend = Ok (at_rank r t).
Proof.
  intros H Hr. destruct (resolve_topology_Ok _ _ _ _ _ _ _ _ H) as (_ & Et & _ & Hw).
  unfold resolve_topology in *. inv_ok.
  repeat match goal with H : ?b = true |- context [rguard ?b] => rewrite H; cbn [rguard mbind result_bind] end.
  replace ((0 <=? Z.of_nat r) && (Z.of_nat r <? tp * dp))%Z with true.
  - cbn [rguard mbind result_bind]. subst t. unfold at_rank. cbn. by rewrite Nat2Z.id.
  - symmetry. apply andb_true_intro. rewrite Z.leb_le, Z.ltb_lt. lia.
Qed.

(** ** The group lists partition the world *)

Lemma bind_concat {A B} (f : A → list (list B)) l : concat (l ≫= f) = (x ← l; concat (f x)).
Proof. induction l as [|x l IH]; [done|]. cbn. by rewrite concat_app, IH. Qed.

Lemma concat_fmap {A B} (f : A → list B) l : concat (f <$> l) = l ≫= f.
Proof. induction l as [|x l IH]; [done|]. cbn. by f_equal. Qed.

Lemma bind_ext {A B} (f g : A → list B) l : (∀ x, x ∈ l → f x = g x) → (l ≫= f) = (l ≫= g).
Proof. induction l as [|x l IH]; intros H; [done|]. cbn. rewrite H, IH; [done| |left]. intros; apply H; by right. Qed.

Lemma bind_seq b w k : (i ← seq 0 k; seq (b + i * w) w) = seq b (k * w).
Proof.
  induction k as [|k IH]; [done|]. rewrite seq_S, bind_app, IH. cbn. rewrite app_nil_r.
  by rewrite (Nat.add_comm w), seq_app.
Qed.

Lemma bind_chunks {A} (l : list A) d k :
  length l = k * d → (i ← seq 0 k; take d (drop (i * d) l)) = l.
Proof.
  intros Hl. assert (∀ m, m ≤ k → (i ← seq 0 m; take d (drop (i * d) l)) = take (m * d) l) as H.
  { induction m as [|m IH]; intros Hm; [done|]. rewrite seq_S, bind_app, IH by lia. cbn. rewrite app_nil_r.
    by rewrite (Nat.add_comm d), take_add. }
  rewrite H by done. by rewrite take_ge by lia.
Qed.

Lemma range_step_mul start step k : step ≠ 0 → start < step →
  range_step start (k * step) step = (λ i, start + i * step) <$> seq 0 k.
Proof.
  intros Hs Hlt. unfold range_step. do 2 f_equal. destruct k as [|k].
  - cbn. rewrite Nat.div_small; lia.
  - symmetry. apply (Nat.div_unique _ _ _ (step - start - 1)); nia.
Qed.

(** A number has one pair of digits. *)
Lemma digits w i j a b : a < w → b < w → i * w + a = j * w + b → i = j ∧ a = b.
Proof. intros Ha Hb E. assert (i = j) by nia. subst. lia. Qed.

(** Reading a [k x w] grid by columns. *)
Lemma columns_perm b w k :
  (a ← seq 0 w; [(λ i, b + i * w + a) <$> seq 0 k]) ≫= id ≡ₚ seq b (k * w).
Proof.
  assert (∀ y, y ∈ (a ← seq 0 w; [(λ i, b + i * w + a) <$> seq 0 k]) ≫= id ↔
            ∃ a i, y = b + i * w + a ∧ a < w ∧ i < k) as Hin.
  { intros y. rewrite list_elem_of_bind. split.
    - intros (g & Hy & (a & Hg & Ha)%list_elem_of_bind). apply list_elem_of_singleton in Hg as ->.
      apply list_elem_of_fmap in Hy as (i & -> & Hi). apply elem_of_seq in Ha, Hi. exists a, i. lia.
    - intros (a & i & -> & Ha & Hi). exists ((λ i, b + i * w + a) <$> seq 0 k). split.
      + apply list_elem_of_fmap. exists i. split; [done|]. apply elem_of_seq. lia.
      + apply list_elem_of_bind. exists a. split; [by left|]. apply elem_of_seq. lia. }
  apply NoDup_Permutation.
  - replace ((a ← seq 0 w; [(λ i, b + i * w + a) <$> seq 0 k]) ≫= id)
      with (a ← seq 0 w; (λ i, b + i * w + a) <$> seq 0 k)
      by (clear; induction (seq 0 w) as [|a l IH]; [done|]; cbn; by rewrite IH).
    apply NoDup_bind; [| |apply NoDup_seq].
    + intros a1 a2 y H1 H2 (i & -> & Hi)%list_elem_of_fmap (j & E & Hj)%list_elem_of_fmap.
      apply elem_of_seq in H1, H2. apply (digits w i j a1 a2); lia.
    + intros a Ha. apply elem_of_seq in Ha. apply NoDup_fmap_2_strong; [|apply NoDup_seq].
      intros i j _ _ E. apply (digits w i j a a); lia.
  - apply NoDup_seq.
  - intros y. rewrite Hin, elem_of_seq. split.
    + intros (a & i & -> & Ha & Hi). nia.
    + intros Hy. exists ((y - b) mod w), ((y - b) / w). assert (w ≠ 0) by nia.
      pose proof (Nat.div_mod_eq (y - b) w). pose proof (Nat.mod_upper_bound (y - b) w).
      split; [lia|]. split; [lia|]. apply Nat.Div0.div_lt_upper_bound. lia.
Qed.

Definition partition (n : nat) (gs : list (list nat)) : Prop := concat gs ≡ₚ seq 0 n.

Lemma partition_bound n gs g r : partition n gs → g ∈ gs → r ∈ g → r < n.
Proof.
  intros Hp Hg Hr. assert (r ∈ concat gs) as Hin by (apply elem_of_concat; eauto).
  rewrite Hp in Hin. apply elem_of_seq in Hin. lia.
Qed.

Lemma partition_nodup n gs g : partition n gs → g ∈ gs → NoDup g.
Proof.
  intros Hp Hg. assert (NoDup (concat gs)) as Hn by (rewrite Hp; apply NoDup_seq). clear Hp.
  induction gs as [|h gs IH]; [by apply elem_of_nil in Hg|]. cbn in Hn. apply NoDup_app in Hn as (H1 & _ & H2).
  apply elem_of_cons in Hg as [->|Hg]; auto.
Qed.

Lemma partition_unique n gs i j g h r :
  partition n gs → gs !! i = Some g → gs !! j = Some h → r ∈ g → r ∈ h → i = j.
Proof.
  intros Hp Hi Hj Hg Hh. assert (NoDup (concat gs)) as Hn by (rewrite Hp; apply NoDup_seq). clear Hp.
  revert i j Hi Hj. induction gs as [|l gs IH]; intros i j Hi Hj; [done|].
  cbn in Hn. apply NoDup_app in Hn as (_ & Hd & Hn).
  destruct i as [|i], j as [|j]; cbn in Hi, Hj; simplify_eq/=; [done| | |f_equal; eauto].
  all: exfalso; apply (Hd r); [done|]; apply elem_of_concat; eauto using list_elem_of_lookup_2.
Qed.

Lemma partition_total n gs r : partition n gs → r < n → ∃ i g, gs !! i = Some g ∧ r ∈ g.
Proof.
  intros Hp Hr. assert (r ∈ concat gs) as Hin by (rewrite Hp; apply elem_of_seq; lia).
  apply elem_of_concat in Hin as (g & Hg & (i & Hi)%list_elem_of_lookup_1). eauto.
Qed.

Section partitions.
Context (t : ParallelTopology) (Ht : valid t).

Let W := attention_tp_size t.

Lemma tp_groups_partition : partition (world_size t) ((λ d, replica_members t (Some d)) <$> seq 0 (dp_size t)).
Proof.
  unfold partition, replica_members. cbn [default from_option id].
  rewrite concat_fmap. etrans; [apply reflexive_eq, (bind_seq 0)|]. unfold world_size. by rewrite Nat.mul_comm.
Qed.

Lemma replica_cover replica :
  concat (p ← seq 0 (pcp_size t); [seq (replica * tp_size t + p * W) W]) = seq (replica * tp_size t) (tp_size t).
Proof.
  rewrite bind_concat. etrans; [apply bind_ext; intros p _; cbn; apply app_nil_r|].
  rewrite bind_seq. unfold W. by rewrite <- (valid_attention t Ht).
Qed.

Lemma attention_tp_groups_partition : partition (world_size t) (attention_tp_groups t).
Proof.
  unfold partition, attention_tp_groups. rewrite bind_concat.
  etrans; [apply reflexive_eq, bind_ext; intros replica _; apply replica_cover|].
  etrans; [apply reflexive_eq, (bind_seq 0)|]. unfold world_size. by rewrite Nat.mul_comm.
Qed.

Lemma concat_bind_id {A} (ls : list (list A)) : concat ls = ls ≫= id.
Proof. induction ls as [|l ls IH]; [done|]. cbn. by rewrite IH. Qed.

Lemma bind_perm {A B} (f g : A → list B) l : (∀ x, x ∈ l → f x ≡ₚ g x) → (l ≫= f) ≡ₚ (l ≫= g).
Proof.
  induction l as [|x l IH]; intros H; [done|]. cbn. apply Permutation_app; [apply H; left|].
  apply IH. intros; apply H; by right.
Qed.

Lemma pcp_groups_partition : partition (world_size t) (pcp_groups t).
Proof.
  unfold partition, pcp_groups. rewrite bind_concat.
  etrans; [apply bind_perm; intros replica _; rewrite concat_bind_id; apply columns_perm|].
  rewrite <- (valid_attention t Ht). etrans; [apply reflexive_eq, (bind_seq 0)|]. unfold world_size. by rewrite Nat.mul_comm.
Qed.

Lemma dcp_groups_partition : partition (world_size t) (dcp_groups t).
Proof.
  unfold partition, dcp_groups. rewrite bind_concat.
  etrans; [|apply attention_tp_groups_partition]. rewrite (concat_bind_id (attention_tp_groups t)).
  apply reflexive_eq, bind_ext. intros g Hg. rewrite bind_concat.
  etrans; [apply bind_ext; intros s _; cbn; apply app_nil_r|].
  assert (length g = W / dcp_size t * dcp_size t) as Hl.
  { apply list_elem_of_bind in Hg as (d & (p & ->%list_elem_of_singleton & _)%list_elem_of_bind & _).
    rewrite length_seq. fold W. pose proof (Nat.div_mod_eq W (dcp_size t)). pose proof (valid_decode t Ht). fold W in H0. lia. }
  pose proof (valid_dcp t Ht). rewrite Hl, range_step_mul by lia. cbn.
  transitivity (i ← seq 0 (W / dcp_size t); take (dcp_size t) (drop (i * dcp_size t) g)); [|by apply bind_chunks].
  induction (seq 0 (W / dcp_size t)) as [|i l IH]; [done|]. cbn. by f_equal.
Qed.

(** The DP axis is the stride through the grid. *)
Lemma lanes_partition :
  partition (world_size t) ((λ lane, range_step lane (world_size t) (tp_size t)) <$> seq 0 (tp_size t)).
Proof.
  unfold partition. rewrite concat_bind_id.
  replace ((λ lane, range_step lane (world_size t) (tp_size t)) <$> seq 0 (tp_size t))
    with (a ← seq 0 (tp_size t); [(λ i, 0 + i * tp_size t + a) <$> seq 0 (dp_size t)]).
  - rewrite columns_perm. unfold world_size. by rewrite Nat.mul_comm.
  - unfold world_size. rewrite (Nat.mul_comm (tp_size t)).
    assert (∀ l, (∀ a, a ∈ l → a < tp_size t) →
      (a ← l; [(λ i, 0 + i * tp_size t + a) <$> seq 0 (dp_size t)]) =
      (λ lane, range_step lane (dp_size t * tp_size t) (tp_size t)) <$> l) as H.
    { induction l as [|a l IH]; intros Hl; [done|]. cbn [mbind list_bind fmap list_fmap app].
      f_equal; [|apply IH; intros; apply Hl; by right].
      rewrite range_step_mul; [|apply Ht|apply Hl; left]. apply list_fmap_ext. intros. lia. }
    apply H. intros a Ha%elem_of_seq. lia.
Qed.
End partitions.

(** ** A rank's position in its groups is its coordinate *)

Section coordinates.
Context (t : ParallelTopology) (Ht : valid t).

Lemma tp_rank_lt : tp_rank t < tp_size t.
Proof. apply Nat.mod_upper_bound, Ht. Qed.

Lemma dp_rank_lt : dp_rank t < dp_size t.
Proof. apply Nat.Div0.div_lt_upper_bound, (valid_rank t Ht). Qed.

Lemma attention_tp_size_pos : attention_tp_size t ≠ 0.
Proof. pose proof (valid_attention t Ht). pose proof (valid_tp t Ht). nia. Qed.

Lemma pcp_rank_lt : pcp_rank t < pcp_size t.
Proof.
  apply Nat.Div0.div_lt_upper_bound. rewrite Nat.mul_comm, <- (valid_attention t Ht). apply tp_rank_lt.
Qed.

Lemma attention_tp_rank_lt : attention_tp_rank t < attention_tp_size t.
Proof. apply Nat.mod_upper_bound, attention_tp_size_pos. Qed.

Lemma dcp_rank_lt : dcp_rank t < dcp_size t.
Proof. apply Nat.mod_upper_bound, Ht. Qed.

Lemma global_rank_digits :
  global_rank t = dp_rank t * tp_size t + tp_rank t ∧
  tp_rank t = pcp_rank t * attention_tp_size t + attention_tp_rank t ∧
  attention_tp_rank t = dcp_group_index t * dcp_size t + dcp_rank t.
Proof.
  rewrite (Nat.mul_comm (dp_rank t)), (Nat.mul_comm (pcp_rank t)), (Nat.mul_comm (dcp_group_index t)).
  repeat split; apply Nat.div_mod_eq.
Qed.

(** [g] is a group of [gs] with this rank in place [i] of [n]. *)
Definition seated (gs : list (list nat)) (i n : nat) : Prop :=
  ∃ g, g ∈ gs ∧ g !! i = Some (global_rank t) ∧ length g = n.

Lemma replica_seat : seated ((λ d, replica_members t (Some d)) <$> seq 0 (dp_size t)) (tp_rank t) (tp_size t).
Proof.
  exists (replica_members t (Some (dp_rank t))). split.
  - apply list_elem_of_fmap. exists (dp_rank t). split; [done|]. apply elem_of_seq. pose proof dp_rank_lt. lia.
  - unfold replica_members. cbn. rewrite length_seq. split; [|done].
    rewrite lookup_seq_lt by apply tp_rank_lt. f_equal. symmetry. apply global_rank_digits.
Qed.

Lemma attention_seat : seated (attention_tp_groups t) (attention_tp_rank t) (attention_tp_size t).
Proof.
  exists (seq (dp_rank t * tp_size t + pcp_rank t * attention_tp_size t) (attention_tp_size t)). split.
  - apply list_elem_of_bind. exists (dp_rank t). split; [|apply elem_of_seq; pose proof dp_rank_lt; lia].
    apply list_elem_of_bind. exists (pcp_rank t). split; [by left|]. apply elem_of_seq. pose proof pcp_rank_lt. lia.
  - rewrite length_seq. split; [|done]. rewrite lookup_seq_lt by apply attention_tp_rank_lt. f_equal.
    pose proof global_rank_digits. lia.
Qed.

Lemma pcp_seat : seated (pcp_groups t) (pcp_rank t) (pcp_size t).
Proof.
  exists ((λ p, dp_rank t * tp_size t + p * attention_tp_size t + attention_tp_rank t) <$> seq 0 (pcp_size t)). split.
  - apply list_elem_of_bind. exists (dp_rank t). split; [|apply elem_of_seq; pose proof dp_rank_lt; lia].
    apply list_elem_of_bind. exists (attention_tp_rank t). split; [by left|].
    apply elem_of_seq. pose proof attention_tp_rank_lt. lia.
  - rewrite length_fmap, length_seq. split; [|done].
    rewrite list_lookup_fmap, lookup_seq_lt by apply pcp_rank_lt. cbn. f_equal. pose proof global_rank_digits. lia.
Qed.

Lemma dcp_group_index_lt : dcp_group_index t < attention_tp_size t / dcp_size t.
Proof.
  apply Nat.Div0.div_lt_upper_bound. pose proof attention_tp_rank_lt. pose proof (valid_decode t Ht).
  pose proof (Nat.div_mod_eq (attention_tp_size t) (dcp_size t)). lia.
Qed.

Lemma dcp_seat : seated (dcp_groups t) (dcp_rank t) (dcp_size t).
Proof.
  destruct attention_seat as (g & Hg & Hi & Hl). pose proof (valid_dcp t Ht) as Hd.
  pose proof dcp_group_index_lt as Hx. pose proof global_rank_digits as (_ & _ & E).
  pose proof (Nat.div_mod_eq (attention_tp_size t) (dcp_size t)) as Ew. pose proof (valid_decode t Ht) as Ez.
  exists (take (dcp_size t) (drop (dcp_group_index t * dcp_size t) g)). split; [|split].
  - apply list_elem_of_bind. exists g. split; [|done]. apply list_elem_of_bind.
    exists (dcp_group_index t * dcp_size t). split; [by left|].
    replace (length g) with (attention_tp_size t / dcp_size t * dcp_size t) by lia.
    rewrite range_step_mul by lia. apply list_elem_of_fmap. exists (dcp_group_index t). split; [done|].
    apply elem_of_seq. lia.
  - apply lookup_slice. split; [|apply dcp_rank_lt]. by rewrite <- E.
  - rewrite length_take, length_drop, Hl. nia.
Qed.

Lemma lane_seat :
  seated ((λ lane, range_step lane (world_size t) (tp_size t)) <$> seq 0 (tp_size t)) (dp_rank t) (dp_size t).
Proof.
  pose proof tp_rank_lt. exists (range_step (tp_rank t) (world_size t) (tp_size t)). split.
  - apply list_elem_of_fmap. exists (tp_rank t). split; [done|]. apply elem_of_seq. lia.
  - unfold world_size. rewrite (Nat.mul_comm (tp_size t)), range_step_mul by (done || apply Ht).
    rewrite length_fmap, length_seq. split; [|done].
    rewrite list_lookup_fmap, lookup_seq_lt by apply dp_rank_lt. cbn. f_equal. pose proof global_rank_digits. lia.
Qed.
End coordinates.

End Topology.
