(* ===== verification/ParallelState.v ===== *)
(** The process grid of [distributed/parallel_state.py]: the groups a rank
    joins and the collectives built on them.

    The module's globals are a record [grid].  [init_parallel] is a program
    that meets the other ranks in one [new_group] per group, in the same order
    on every rank.  Tensors are lists of slices along the shard axis. *)

From S2P Require Import Prelude Spmd Topology.

Module ParallelState.
Import Spmd.

(** ** The module's globals *)

Record grid := MkGrid {
  _TP_RANK : nat; _TP_WORLD_SIZE : nat; _TP_GROUP : option group; _TP_CPU_GROUP : option group;
  _DP_RANK : nat; _DP_WORLD_SIZE : nat; _DP_GROUP : option group; _DP_CPU_GROUP : option group;
  _DP_ATTENTION : bool;
  _EP_ENABLED : bool; _EP_GROUP : option group; _EP_RANK : nat; _EP_WORLD_SIZE : nat;
  _ATTN_TP_GROUP : option group; _ATTN_TP_RANK : nat; _ATTN_TP_WORLD_SIZE : nat;
  _PCP_GROUP : option group; _PCP_RANK : nat; _PCP_WORLD_SIZE : nat;
  _DCP_GROUP : option group; _DCP_RANK : nat; _DCP_WORLD_SIZE : nat;
  _TOPOLOGY : Topology.ParallelTopology;
  backend_of : backend;  (** what [dist.get_backend] answers of the data groups *)
}.

(** [_reset_grid]: a world of one. *)
Definition _reset_grid : grid :=
  MkGrid 0 1 None None 0 1 None None false false None 0 1 None 0 1 None 0 1 None 0 1
    (Topology.MkTopology 0 1 1 1 1 "zigzag" "ag_rs") gloo.

(** The arguments of [init_parallel]. *)
Record init_args := InitArgs {
  arg_tp_size : Z;
  arg_dp_size : Z;
  arg_backend : option backend;
  enable_expert_parallel : bool;
  enable_dp_attention : bool;
  prefill_context_parallel_size : Z;
  decode_context_parallel_size : Z;
  prefill_context_parallel_strategy : string;
  arg_dcp_comm_backend : string;
}.

Section programs.
Context {Row : Type} `{!RowOps Row}.
Notation tensor := (list Row).
Notation prog := (@prog tensor).

Definition world_group (world : nat) : group := Group (seq 0 world) 0.

(** [dist.new_group]: every rank of the world takes part; groups are numbered
    by how many this process has created. *)
Definition new_group (world : nat) (members : list nat) (b : backend) (count : nat) : prog (group * nat) :=
  Call (world_group world) (NewGroup members b) [] (λ _, Ret (Group members count, S count)).

(** [for members in groups: group = new_group(members); if global_rank in members: mine = group] *)
Definition join_groups (world : nat) (b : backend) (rank : nat) (groups : list (list nat))
    (prior : option group) (count : nat) : prog (option group * nat) :=
  pfold (λ members '(x, count),
    '(g, count) ← new_group world members b count;
    Ret (if decide (rank ∈ members) then Some g else x, count)) groups (prior, count).

(** [for i in range(n)], with the group of [members_of i] and its CPU twin,
    the group itself when the backend is gloo; the [mine]-th is this rank's. *)
Definition join_groups_twin (world : nat) (b : backend) (n : nat) (members_of : nat → list nat)
    (mine : nat) (prior : option group * option group) (count : nat) :
    prog (option group * option group * nat) :=
  pfold (λ i '(x, count),
    '(g, count) ← new_group world (members_of i) b count;
    '(cpu, count) ← (if decide (b = gloo) then Ret (g, count) else new_group world (members_of i) gloo count);
    Ret (if decide (i = mine) then (Some g, Some cpu) else x, count)) (seq 0 n) (prior, count).

Definition dp_attention_wanted (t : Topology.ParallelTopology) (a : init_args) : bool :=
  enable_dp_attention a && (1 <? Topology.dp_size t).

(** The rank and the width of the expert split. *)
Definition expert_place (t : Topology.ParallelTopology) (a : init_args) : nat * nat :=
  if negb (enable_expert_parallel a) then (0, 1)
  else if dp_attention_wanted t a then (Topology.global_rank t, Topology.world_size t)
  else (Topology.tp_rank t, Topology.tp_size t).

(** [cuda] is [torch.cuda.is_available()], [initialized] is
    [dist.is_initialized()], [prior] the globals before the call and [count]
    the groups created so far. *)
Definition init_groups (t : Topology.ParallelTopology) (a : init_args) (cuda initialized : bool)
    (prior : grid) (count : nat) : prog (grid * nat) :=
  let rank := Topology.global_rank t in
  let tp := Topology.tp_size t in
  let dp := Topology.dp_size t in
  let world := Topology.world_size t in
  let dp_attention := dp_attention_wanted t a in
  let ep := enable_expert_parallel a in
  let ep_place := expert_place t a in
  let done tp_group tp_cpu attn pcp dcp dp_group dp_cpu ep_group ep_rank ep_world b :=
    MkGrid (Topology.tp_rank t) tp tp_group tp_cpu
      (Topology.dp_rank t) dp dp_group dp_cpu dp_attention
      ep ep_group ep_rank ep_world
      attn (Topology.attention_tp_rank t) (Topology.attention_tp_size t)
      pcp (Topology.pcp_rank t) (Topology.pcp_size t)
      dcp (Topology.dcp_rank t) (Topology.dcp_size t) t b in
  if (tp <=? 1) && negb dp_attention
  then Ret (done (_TP_GROUP prior) (_TP_CPU_GROUP prior) (_ATTN_TP_GROUP prior) (_PCP_GROUP prior)
              (_DCP_GROUP prior) (_DP_GROUP prior) (_DP_CPU_GROUP prior) (_EP_GROUP prior) 0 1
              (backend_of prior), count)
  else
    let b := default (if cuda then nccl else gloo) (arg_backend a) in
    _ ← (if initialized then Ret tt
         else Call (world_group world) InitProcessGroup [] (λ _, Ret tt));
    '(tp_groups, count) ←
      (if 1 <? tp
       then join_groups_twin world b dp (λ replica, seq (replica * tp) tp) (Topology.dp_rank t)
              (_TP_GROUP prior, _TP_CPU_GROUP prior) count
       else Ret (_TP_GROUP prior, _TP_CPU_GROUP prior, count));
    let '(tp_group, tp_cpu) := tp_groups in
    '(attn, count) ←
      (if decide (Topology.pcp_size t = 1) then Ret (tp_group, count)
       else if 1 <? Topology.attention_tp_size t
       then join_groups world b rank (Topology.attention_tp_groups t)
              (_ATTN_TP_GROUP prior) count
       else Ret (_ATTN_TP_GROUP prior, count));
    '(pcp, count) ←
      (if 1 <? Topology.pcp_size t
       then join_groups world b rank (Topology.pcp_groups t)
              (_PCP_GROUP prior) count
       else Ret (_PCP_GROUP prior, count));
    '(dcp, count) ←
      (if 1 <? Topology.dcp_size t
       then if decide (Topology.dcp_size t = Topology.attention_tp_size t) then Ret (attn, count)
            else join_groups world b rank (Topology.dcp_groups t)
                   (_DCP_GROUP prior) count
       else Ret (_DCP_GROUP prior, count));
    '(dp_groups, count) ←
      (if dp_attention
       then join_groups_twin world b tp (λ lane, Topology.range_step lane world tp) (Topology.tp_rank t)
              (_DP_GROUP prior, _DP_CPU_GROUP prior) count
       else Ret (_DP_GROUP prior, _DP_CPU_GROUP prior, count));
    let '(dp_group, dp_cpu) := dp_groups in
    '(ep_group, count) ←
      (if ep
       then if dp_attention
            then '(g, count) ← new_group world (seq 0 world) b count; Ret (Some g, count)
            else Ret (tp_group, count)
       else Ret (_EP_GROUP prior, count));
    Ret (done tp_group tp_cpu attn pcp dcp dp_group dp_cpu ep_group ep_place.1 ep_place.2 b, count).

Definition init_parallel (global_rank : Z) (a : init_args) (cuda initialized : bool)
    (prior : grid) (count : nat) : prog (grid * nat) :=
  t ← lift (Topology.resolve_topology global_rank (arg_tp_size a) (arg_dp_size a)
              (prefill_context_parallel_size a) (decode_context_parallel_size a)
              (prefill_context_parallel_strategy a) (arg_dcp_comm_backend a));
  init_groups t a cuda initialized prior count.

(** ** Joining the groups of a partition *)

(** The ranks below [n] each hold their own group of one family, of [size]
    members, as its member number [coordinate]. *)
Definition seats (n : nat) (held : nat → option group) (coordinate : nat → nat) (size : nat) : Prop :=
  ∃ grp, family n grp ∧ ∀ r, r < n →
    held r = Some (grp r) ∧ group_rank (grp r) r = coordinate r ∧ group_size (grp r) = size.

Lemma seats_of_partition n gs (held : nat → option group) (number : nat → nat) coordinate size :
  Topology.partition n gs →
  (∀ i r g, gs !! i = Some g → r ∈ g → held r = Some (Group g (number i))) →
  (∀ r, r < n → ∃ g, g ∈ gs ∧ g !! coordinate r = Some r ∧ length g = size) →
  seats n held coordinate size.
Proof.
  intros Hp Hheld Hseat. exists (λ r, default (Group [] 0) (held r)).
  assert (∀ r, r < n → ∃ i g, gs !! i = Some g ∧ r ∈ g ∧ held r = Some (Group g (number i))) as Hown.
  { intros r Hr. destruct (Topology.partition_total n gs r Hp Hr) as (i & g & Hi & Hg). exists i, g. eauto. }
  split.
  - split.
    + intros r Hr. destruct (Hown r Hr) as (i & g & Hi & Hg & ->). done.
    + intros r r' Hr. destruct (Hown r Hr) as (i & g & Hi & Hg & E). rewrite E. cbn. intros Hr'.
      split; [by eapply Topology.partition_bound, Hr'; [|eapply list_elem_of_lookup_2]|].
      by rewrite (Hheld i r' g Hi Hr').
    + intros r Hr. destruct (Hown r Hr) as (i & g & Hi & Hg & ->). cbn.
      by eapply Topology.partition_nodup, list_elem_of_lookup_2.
  - intros r Hr. destruct (Hown r Hr) as (i & g & Hi & Hg & E). rewrite E. cbn [default from_option]. unfold id.
    destruct (Hseat r Hr) as (h & Hh & Hc & Hl). destruct (list_elem_of_lookup_1 _ _ Hh) as (j & Hj).
    assert (i = j) as <- by (eapply (Topology.partition_unique n gs i j g h r); eauto using list_elem_of_lookup_2).
    rewrite Hi in Hj. injection Hj as <-. split; [done|]. unfold group_rank, group_size. cbn [ranks].
    rewrite (position_lookup r g (coordinate r)); [done| |done]. by eapply Topology.partition_nodup, list_elem_of_lookup_2.
Qed.

Context (wire : collective → list tensor → option (list (list tensor))) `{!WireLaws wire}.
Notation spmd := (Spmd.spmd wire).

Lemma world_family n : family n (λ _, world_group n).
Proof.
  split; cbn.
  - intros r Hr. apply elem_of_seq. lia.
  - intros r r' _ Hr'%elem_of_seq. split; [lia|done].
  - intros _ _. apply NoDup_seq.
Qed.

Lemma spmd_new_group n members b (count : nat → nat) :
  spmd n (λ r, new_group n members b (count r)) (λ r, (Group members (count r), S (count r))).
Proof.
  unfold new_group. eapply (spmd_call wire n (λ _, world_group n) _ (λ _, []) (λ _, [])); [apply world_family| |].
  - intros r _. by rewrite wire_new_group, <- list_fmap_compose.
  - apply spmd_ret.
Qed.

Lemma spmd_init n : spmd n (λ _, Call (world_group n) InitProcessGroup [] (λ _, Ret tt)) (λ _, tt).
Proof.
  eapply (spmd_call wire n (λ _, world_group n) _ (λ _, []) (λ _, [])); [apply world_family| |].
  - intros r _. by rewrite wire_init, <- list_fmap_compose.
  - apply spmd_ret.
Qed.

Definition joined (rank : nat) (groups : list (list nat)) (prior : option group) (count : nat) :
    option group * nat :=
  foldl (λ s members, (if decide (rank ∈ members) then Some (Group members s.2) else s.1, S s.2))
    (prior, count) groups.

Lemma spmd_join_groups n b (rank : nat → nat) gs (prior : nat → option group) (count : nat → nat) :
  spmd n (λ r, join_groups n b (rank r) gs (prior r) (count r))
         (λ r, joined (rank r) gs (prior r) (count r)).
Proof.
  unfold join_groups, joined.
  eapply (spmd_pfold wire n (λ r members '(x, count),
    '(g, count) ← new_group n members b count;
    Ret (if decide (rank r ∈ members) then Some g else x, count))
    (λ r members s, (if decide (rank r ∈ members) then Some (Group members s.2) else s.1, S s.2))
    gs (λ r, (prior r, count r))).
  intros members s _.
  apply (spmd_ext wire n (λ r, '(g, c) ← new_group n members b (s r).2;
    Ret (if decide (rank r ∈ members) then Some g else (s r).1, c)) _
    (λ r, (if decide (rank r ∈ members) then Some (Group members (s r).2) else (s r).1, S (s r).2)));
    [intros r _; by destruct (s r)|done|].
  eapply spmd_bind; [apply spmd_new_group|]. apply spmd_ret.
Qed.

Lemma joined_skip rank gs prior count :
  (∀ g, g ∈ gs → rank ∉ g) → joined rank gs prior count = (prior, count + length gs).
Proof.
  unfold joined. revert prior count. induction gs as [|g gs IH]; intros prior count H; cbn; [f_equal; lia|].
  rewrite decide_False by (apply H; left). rewrite IH by (intros; apply H; by right). f_equal. lia.
Qed.

(** The loop of a rank that is in exactly one of the groups. *)
Lemma joined_one rank gs prior count i g :
  gs !! i = Some g → rank ∈ g → (∀ j h, gs !! j = Some h → rank ∈ h → i = j) →
  joined rank gs prior count = (Some (Group g (count + i)), count + length gs).
Proof.
  unfold joined. revert prior count i. induction gs as [|h gs IH]; intros prior count i Hi Hr Hu; [done|].
  cbn. destruct i as [|i].
  - cbn in Hi. injection Hi as ->. rewrite decide_True by done.
    fold (joined rank gs (Some (Group g count)) (S count)). rewrite joined_skip.
    + f_equal; [do 2 f_equal|]; lia.
    + intros h (j & Hj)%list_elem_of_lookup_1 Hh. by specialize (Hu (S j) h Hj Hh).
  - rewrite decide_False.
    + rewrite (IH _ _ i Hi Hr); [f_equal; [do 2 f_equal|]; lia|].
      intros j h' Hj Hh'. specialize (Hu (S j) h' Hj Hh'). lia.
    + intros Hh. by specialize (Hu 0 h eq_refl Hh).
Qed.

(** All ranks join the groups of a partition, and each gets its own. *)
Lemma join_partition n b gs (prior : nat → option group) count coordinate size :
  Topology.partition n gs →
  (∀ r, r < n → ∃ g, g ∈ gs ∧ g !! coordinate r = Some r ∧ length g = size) →
  ∃ held, spmd n (λ r, join_groups n b r gs (prior r) count) (λ r, (held r, count + length gs)) ∧
          seats n held coordinate size.
Proof.
  intros Hp Hseat. exists (λ r, (joined r gs (prior r) count).1).
  assert (∀ i r g, gs !! i = Some g → r ∈ g →
            joined r gs (prior r) count = (Some (Group g (count + i)), count + length gs)) as Hj.
  { intros i r g Hi Hr. apply joined_one; [done..|]. intros j h Hj Hh. by eapply Topology.partition_unique. }
  split.
  - eapply spmd_ext; [reflexivity| |apply (spmd_join_groups n b (λ r, r))].
    intros r Hr. cbn. destruct (Topology.partition_total n gs r Hp Hr) as (i & g & Hi & Hg).
    by rewrite (Hj i r g Hi Hg).
  - eapply (seats_of_partition n gs _ (λ i, count + i)); [done| |done].
    intros i r g Hi Hg. by rewrite (Hj i r g Hi Hg).
Qed.

(** How many groups a turn of the twin loop creates. *)
Definition twin_width (b : backend) : nat := if decide (b = gloo) then 1 else 2.

Definition joined_twin (b : backend) (members_of : nat → list nat) (mine m : nat)
    (prior : option group * option group) (count : nat) : option group * option group * nat :=
  foldl (λ s i,
    (if decide (i = mine)
     then (Some (Group (members_of i) s.2), Some (Group (members_of i) (s.2 + (twin_width b - 1))))
     else s.1, s.2 + twin_width b)) (prior, count) (seq 0 m).

Lemma spmd_join_groups_twin n b m members_of (mine : nat → nat) prior (count : nat → nat) :
  spmd n (λ r, join_groups_twin n b m members_of (mine r) (prior r) (count r))
         (λ r, joined_twin b members_of (mine r) m (prior r) (count r)).
Proof.
  unfold join_groups_twin, joined_twin.
  eapply (spmd_pfold wire n (λ r i '(x, count),
    '(g, count) ← new_group n (members_of i) b count;
    '(cpu, count) ← (if decide (b = gloo) then Ret (g, count) else new_group n (members_of i) gloo count);
    Ret (if decide (i = mine r) then (Some g, Some cpu) else x, count))
    (λ r i s,
    (if decide (i = mine r)
     then (Some (Group (members_of i) s.2), Some (Group (members_of i) (s.2 + (twin_width b - 1))))
     else s.1, s.2 + twin_width b)) (seq 0 m) (λ r, (prior r, count r))).
  intros i s _.
  apply (spmd_ext wire n (λ r,
    '(g, c) ← new_group n (members_of i) b (s r).2;
    '(cpu, c) ← (if decide (b = gloo) then Ret (g, c) else new_group n (members_of i) gloo c);
    Ret (if decide (i = mine r) then (Some g, Some cpu) else (s r).1, c)) _
    (λ r, (if decide (i = mine r)
     then (Some (Group (members_of i) (s r).2), Some (Group (members_of i) ((s r).2 + (twin_width b - 1))))
     else (s r).1, (s r).2 + twin_width b))); [intros r _; by destruct (s r)|done|].
  eapply spmd_bind; [apply spmd_new_group|]. unfold twin_width. case_decide.
  - eapply spmd_ext; [reflexivity| |apply spmd_ret]. intros r _. cbn. rewrite Nat.add_0_r, Nat.add_1_r. done.
  - eapply spmd_bind; [apply spmd_new_group|]. eapply spmd_ext; [reflexivity| |apply spmd_ret].
    intros r _. cbn. rewrite Nat.add_1_r. do 2 f_equal. lia.
Qed.

Lemma joined_twin_mine b members_of mine m prior count :
  mine < m →
  joined_twin b members_of mine m prior count =
    (Some (Group (members_of mine) (count + mine * twin_width b)),
     Some (Group (members_of mine) (count + mine * twin_width b + (twin_width b - 1))), count + m * twin_width b).
Proof.
  assert (∀ m, joined_twin b members_of mine m prior count =
    (if decide (mine < m) then
      (Some (Group (members_of mine) (count + mine * twin_width b)),
       Some (Group (members_of mine) (count + mine * twin_width b + (twin_width b - 1))))
     else prior, count + m * twin_width b)) as H.
  { unfold joined_twin. clear. induction m as [|m IH]; [cbn; by rewrite Nat.add_0_r|].
    rewrite seq_S, foldl_app. cbn [foldl Nat.add]. rewrite IH. cbn [fst snd].
    f_equal; [|lia]. destruct (decide (m = mine)) as [<-|].
    - by rewrite decide_True by lia.
    - apply decide_ext. lia. }
  intros Hm. rewrite H. by rewrite decide_True.
Qed.

Lemma join_partition_twin n b m members_of (mine : nat → nat) prior count coordinate size :
  Topology.partition n (members_of <$> seq 0 m) →
  (∀ r, r < n → mine r < m ∧ members_of (mine r) !! coordinate r = Some r) →
  (∀ i, i < m → length (members_of i) = size) →
  ∃ held cpu count', spmd n (λ r, join_groups_twin n b m members_of (mine r) (prior r) count)
                       (λ r, (held r, cpu r, count')) ∧
    seats n held coordinate size ∧ seats n cpu coordinate size ∧
    ∀ r, r < n → ranks <$> held r = Some (members_of (mine r)).
Proof.
  intros Hp Hmine Hsize.
  set (w := twin_width b).
  exists (λ r, Some (Group (members_of (mine r)) (count + mine r * w))),
         (λ r, Some (Group (members_of (mine r)) (count + mine r * w + (w - 1)))), (count + m * w).
  assert (∀ i r g, (members_of <$> seq 0 m) !! i = Some g → r ∈ g → mine r = i ∧ g = members_of i) as Hone.
  { intros i r g Hi Hr. rewrite list_lookup_fmap in Hi. apply fmap_Some in Hi as (j & Hj & ->).
    apply lookup_seq in Hj as (-> & Hjm). cbn in *. split; [|done].
    assert (r < n) as Hrn.
    { eapply Topology.partition_bound; [done| |exact Hr]. apply list_elem_of_fmap. exists i. split; [done|]. apply elem_of_seq. lia. }
    destruct (Hmine r Hrn) as (Hm & Hl).
    eapply (Topology.partition_unique n _ (mine r) i _ _ r Hp).
    - by rewrite list_lookup_fmap, lookup_seq_lt.
    - by rewrite list_lookup_fmap, lookup_seq_lt.
    - by eapply list_elem_of_lookup_2.
    - done. }
  assert (∀ r, r < n → ∃ g, g ∈ members_of <$> seq 0 m ∧ g !! coordinate r = Some r ∧ length g = size) as Hseat.
  { intros r Hr. destruct (Hmine r Hr) as (Hm & Hl). exists (members_of (mine r)). split; [|auto].
    apply list_elem_of_fmap. exists (mine r). split; [done|]. apply elem_of_seq. lia. }
  split; [|split; [|split]]; [| | |done].
  - eapply spmd_ext; [reflexivity| |apply (spmd_join_groups_twin n b m members_of mine prior (λ _, count))].
    intros r Hr. cbn. by rewrite joined_twin_mine by apply Hmine, Hr.
  - eapply (seats_of_partition n _ _ (λ i, count + i * w)); [done| |done].
    intros i r g Hi Hr. by destruct (Hone i r g Hi Hr) as (-> & ->).
  - eapply (seats_of_partition n _ _ (λ i, count + i * w + (w - 1))); [done| |done].
    intros i r g Hi Hr. by destruct (Hone i r g Hi Hr) as (-> & ->).
Qed.

(** ** The stages of [init_parallel] *)

Lemma seats_ext n (h1 h2 : nat → option group) c1 c2 size :
  (∀ r, r < n → h1 r = h2 r ∧ c1 r = c2 r) → seats n h1 c1 size → seats n h2 c2 size.
Proof.
  intros He (grp & Hf & H). exists grp. split; [done|]. intros r Hr. destruct (He r Hr) as (<- & <-). auto.
Qed.

Section stages.
Context (t : Topology.ParallelTopology) (Ht : Topology.valid t) (b : backend).
Notation n := (Topology.world_size t).
Notation at_rank r := (Topology.at_rank r t).

Lemma seat_of gs coordinate size :
  (∀ t', Topology.valid t' → Topology.seated t' (gs t') (coordinate t') (size t')) →
  (∀ r, gs (at_rank r) = gs t) → (∀ r, size (at_rank r) = size t) →
  ∀ r, r < n → ∃ g, g ∈ gs t ∧ g !! coordinate (at_rank r) = Some r ∧ length g = size t.
Proof.
  intros H Hgs Hsize r Hr. destruct (H (at_rank r)) as (g & Hg & Hc & Hl); [by apply Topology.valid_at|].
  exists g. by rewrite <- (Hgs r), <- (Hsize r).
Qed.

Lemma tp_stage (prior : option group * option group) count :
  ∃ tp cpu count', spmd n (λ r,
      if 1 <? Topology.tp_size t
      then join_groups_twin n b (Topology.dp_size t)
        (λ replica, seq (replica * Topology.tp_size t) (Topology.tp_size t)) (Topology.dp_rank (at_rank r)) prior count
      else Ret (prior, count)) (λ r, (tp r, cpu r, count')) ∧
    (1 < Topology.tp_size t →
     seats n tp (λ r, Topology.tp_rank (at_rank r)) (Topology.tp_size t) ∧
     seats n cpu (λ r, Topology.tp_rank (at_rank r)) (Topology.tp_size t) ∧
     ∀ r, r < n → ranks <$> tp r = Some (seq (Topology.dp_rank (at_rank r) * Topology.tp_size t) (Topology.tp_size t))).
Proof.
  destruct (Nat.ltb_spec 1 (Topology.tp_size t)) as [Htp|Htp].
  2: { exists (λ _, prior.1), (λ _, prior.2), count. split; [|lia]. destruct prior. apply spmd_ret. }
  edestruct (join_partition_twin n b (Topology.dp_size t)
    (λ replica, seq (replica * Topology.tp_size t) (Topology.tp_size t)) (λ r, Topology.dp_rank (at_rank r))
    (λ _, prior) count (λ r, Topology.tp_rank (at_rank r)) (Topology.tp_size t)) as (tp & cpu & c & H & Hs); [| | |by eauto 10].
  - apply Topology.tp_groups_partition.
  - intros r Hr. pose proof (Topology.valid_at r t Ht Hr) as Hv. split; [by apply (Topology.dp_rank_lt (at_rank r))|].
    rewrite lookup_seq_lt by by apply (Topology.tp_rank_lt (at_rank r)). f_equal. symmetry.
    by destruct (Topology.global_rank_digits (at_rank r)) as (E & _).
  - intros i _. apply length_seq.
Qed.

Lemma lane_stage a (prior : option group * option group) count :
  ∃ dp cpu count', spmd n (λ r,
      if dp_attention_wanted t a
      then join_groups_twin n b (Topology.tp_size t)
        (λ lane, Topology.range_step lane n (Topology.tp_size t)) (Topology.tp_rank (at_rank r)) prior count
      else Ret (prior, count)) (λ r, (dp r, cpu r, count')) ∧
    (dp_attention_wanted t a = true →
     seats n dp (λ r, Topology.dp_rank (at_rank r)) (Topology.dp_size t) ∧
     seats n cpu (λ r, Topology.dp_rank (at_rank r)) (Topology.dp_size t) ∧
     ∀ r, r < n → ranks <$> dp r = Some (Topology.range_step (Topology.tp_rank (at_rank r)) n (Topology.tp_size t))).
Proof.
  destruct (dp_attention_wanted t a).
  2: { exists (λ _, prior.1), (λ _, prior.2), count. split; [|done]. destruct prior. apply spmd_ret. }
  assert (∀ lane, lane < Topology.tp_size t → Topology.range_step lane n (Topology.tp_size t) =
            (λ i, lane + i * Topology.tp_size t) <$> seq 0 (Topology.dp_size t)) as E.
  { intros lane Hl. unfold Topology.world_size. rewrite (Nat.mul_comm (Topology.tp_size t)).
    apply Topology.range_step_mul; [apply Ht|done]. }
  edestruct (join_partition_twin n b (Topology.tp_size t)
    (λ lane, Topology.range_step lane n (Topology.tp_size t)) (λ r, Topology.tp_rank (at_rank r))
    (λ _, prior) count (λ r, Topology.dp_rank (at_rank r)) (Topology.dp_size t)) as (dp & cpu & c & H & Hs); [| | |by eauto 10].
  - by apply Topology.lanes_partition.
  - intros r Hr. pose proof (Topology.valid_at r t Ht Hr) as Hv.
    pose proof (Topology.tp_rank_lt (at_rank r) Hv) as Hl. split; [exact Hl|].
    rewrite E by exact Hl. rewrite list_lookup_fmap, lookup_seq_lt by by apply (Topology.dp_rank_lt (at_rank r)).
    cbn. f_equal. destruct (Topology.global_rank_digits (at_rank r)) as (E' & _). cbn in E'. lia.
  - intros i Hi. rewrite E by done. by rewrite length_fmap, length_seq.
Qed.

Lemma attention_stage (tp prior : nat → option group) count :
  (1 < Topology.tp_size t → seats n tp (λ r, Topology.tp_rank (at_rank r)) (Topology.tp_size t)) →
  ∃ attn count', spmd n (λ r,
      if decide (Topology.pcp_size t = 1) then Ret (tp r, count)
      else if 1 <? Topology.attention_tp_size t
      then join_groups n b r (Topology.attention_tp_groups t) (prior r) count
      else Ret (prior r, count)) (λ r, (attn r, count')) ∧
    (1 < Topology.attention_tp_size t →
     seats n attn (λ r, Topology.attention_tp_rank (at_rank r)) (Topology.attention_tp_size t)).
Proof.
  intros Htp. destruct (decide (Topology.pcp_size t = 1)) as [E|E].
  - exists tp, count. split; [apply spmd_ret|].
    assert (Topology.attention_tp_size t = Topology.tp_size t) as Ew
      by (pose proof (Topology.valid_attention t Ht) as H; rewrite E in H; lia).
    rewrite Ew. intros H. eapply seats_ext; [|by apply Htp]. intros r Hr. split; [done|].
    unfold Topology.attention_tp_rank. change (Topology.attention_tp_size (at_rank r)) with (Topology.attention_tp_size t).
    rewrite Ew. symmetry. apply Nat.mod_small. by apply (Topology.tp_rank_lt (at_rank r)), Topology.valid_at.
  - destruct (Nat.ltb_spec 1 (Topology.attention_tp_size t)) as [H|H].
    + destruct (join_partition n b (Topology.attention_tp_groups t) prior count
        (λ r, Topology.attention_tp_rank (at_rank r)) (Topology.attention_tp_size t)) as (held & Hrun & Hs).
      * by apply Topology.attention_tp_groups_partition.
      * by apply (seat_of Topology.attention_tp_groups Topology.attention_tp_rank Topology.attention_tp_size Topology.attention_seat).
      * eauto.
    + exists prior, count. split; [apply spmd_ret|lia].
Qed.

Lemma pcp_stage (prior : nat → option group) count :
  ∃ pcp count', spmd n (λ r,
      if 1 <? Topology.pcp_size t then join_groups n b r (Topology.pcp_groups t) (prior r) count
      else Ret (prior r, count)) (λ r, (pcp r, count')) ∧
    (1 < Topology.pcp_size t → seats n pcp (λ r, Topology.pcp_rank (at_rank r)) (Topology.pcp_size t)).
Proof.
  destruct (Nat.ltb_spec 1 (Topology.pcp_size t)) as [H|H].
  - destruct (join_partition n b (Topology.pcp_groups t) prior count
      (λ r, Topology.pcp_rank (at_rank r)) (Topology.pcp_size t)) as (held & Hrun & Hs).
    + by apply Topology.pcp_groups_partition.
    + by apply (seat_of Topology.pcp_groups Topology.pcp_rank Topology.pcp_size Topology.pcp_seat).
    + eauto.
  - exists prior, count. split; [apply spmd_ret|lia].
Qed.

Lemma dcp_stage (attn prior : nat → option group) count :
  (1 < Topology.attention_tp_size t →
   seats n attn (λ r, Topology.attention_tp_rank (at_rank r)) (Topology.attention_tp_size t)) →
  ∃ dcp count', spmd n (λ r,
      if 1 <? Topology.dcp_size t
      then if decide (Topology.dcp_size t = Topology.attention_tp_size t) then Ret (attn r, count)
           else join_groups n b r (Topology.dcp_groups t) (prior r) count
      else Ret (prior r, count)) (λ r, (dcp r, count')) ∧
    (1 < Topology.dcp_size t → seats n dcp (λ r, Topology.dcp_rank (at_rank r)) (Topology.dcp_size t)).
Proof.
  intros Hattn. destruct (Nat.ltb_spec 1 (Topology.dcp_size t)) as [H|H]; [|exists prior, count; split; [apply spmd_ret|lia]].
  case_decide as E.
  - exists attn, count. split; [apply spmd_ret|]. intros _. rewrite E.
    eapply seats_ext; [|apply Hattn; lia]. intros r Hr. split; [done|].
    unfold Topology.dcp_rank. change (Topology.dcp_size (at_rank r)) with (Topology.dcp_size t). rewrite E.
    symmetry. apply Nat.mod_small. by apply (Topology.attention_tp_rank_lt (at_rank r)), Topology.valid_at.
  - destruct (join_partition n b (Topology.dcp_groups t) prior count
      (λ r, Topology.dcp_rank (at_rank r)) (Topology.dcp_size t)) as (held & Hrun & Hs).
    + by apply Topology.dcp_groups_partition.
    + by apply (seat_of Topology.dcp_groups Topology.dcp_rank Topology.dcp_size Topology.dcp_seat).
    + eauto.
Qed.

(** The group of the whole grid. *)
Lemma spmd_whole_group count :
  spmd n (λ _, new_group n (seq 0 n) b count) (λ _, (Group (seq 0 n) count, S count)) ∧
  seats n (λ _, Some (Group (seq 0 n) count)) (λ r, r) n.
Proof.
  split; [apply (spmd_new_group n (seq 0 n) b (λ _, count))|].
  exists (λ _, Group (seq 0 n) count). split.
  - split; cbn; intros; [apply elem_of_seq; lia| |apply NoDup_seq].
    split; [|done]. match goal with H : _ ∈ _ |- _ => apply elem_of_seq in H; lia end.
  - intros r Hr. split; [done|]. unfold group_rank, group_size. cbn [ranks]. rewrite length_seq.
    rewrite (position_lookup r (seq 0 n) r); [done|apply NoDup_seq|by rewrite lookup_seq_lt].
Qed.

Lemma expert_stage a (tp : nat → option group) prior count :
  (1 < Topology.tp_size t → seats n tp (λ r, Topology.tp_rank (at_rank r)) (Topology.tp_size t)) →
  ∃ ep count', spmd n (λ r,
      if enable_expert_parallel a
      then if dp_attention_wanted t a
           then '(g, count) ← new_group n (seq 0 n) b count; Ret (Some g, count)
           else Ret (tp r, count)
      else Ret (prior, count)) (λ r, (ep r, count')) ∧
    (∀ size, 1 < size → (∀ r, r < n → (expert_place (at_rank r) a).2 = size) →
      seats n ep (λ r, (expert_place (at_rank r) a).1) size) ∧
    (enable_expert_parallel a = true → dp_attention_wanted t a = false → ep = tp).
Proof.
  intros Htp. unfold expert_place, dp_attention_wanted.
  change (Topology.dp_size (at_rank _)) with (Topology.dp_size t).
  assert (0 < n) as Hn by (unfold Topology.world_size; pose proof (Topology.valid_tp t Ht); pose proof (Topology.valid_dp t Ht); lia).
  destruct (enable_expert_parallel a); cbn [negb].
  2: { exists (λ _, prior), count. split; [apply spmd_ret|]. split; [|done]. intros size Hs H. specialize (H 0 Hn). cbn in H. lia. }
  destruct (enable_dp_attention a && (1 <? Topology.dp_size t)); cbn [fst snd].
  - destruct (spmd_whole_group count) as (Hrun & Hs). exists (λ _, Some (Group (seq 0 n) count)), (S count).
    split; [eapply spmd_bind; [apply Hrun|apply spmd_ret]|]. split; [|done]. intros size _ H. specialize (H 0 Hn).
    change (Topology.world_size (at_rank 0)) with n in H. by subst size.
  - exists tp, count. split; [apply spmd_ret|]. split; [|done]. intros size Hs H. specialize (H 0 Hn).
    change (Topology.tp_size (at_rank 0)) with (Topology.tp_size t) in H. subst size. auto.
Qed.
End stages.

(** Every group of more than one rank exists, the groups of one kind partition
    the grid, and the accessors say where in its group a rank is. *)
Record placed (t : Topology.ParallelTopology) (a : init_args) (G : nat → grid) : Prop := {
  placed_topology r : r < Topology.world_size t → _TOPOLOGY (G r) = Topology.at_rank r t;
  placed_sizes r : r < Topology.world_size t →
    _TP_WORLD_SIZE (G r) = Topology.tp_size t ∧ _DP_WORLD_SIZE (G r) = Topology.dp_size t ∧
    _ATTN_TP_WORLD_SIZE (G r) = Topology.attention_tp_size t ∧ _PCP_WORLD_SIZE (G r) = Topology.pcp_size t ∧
    _DCP_WORLD_SIZE (G r) = Topology.dcp_size t ∧
    _DP_ATTENTION (G r) = dp_attention_wanted t a ∧
    _TP_RANK (G r) = r mod Topology.tp_size t ∧ _DP_RANK (G r) = r / Topology.tp_size t;
  placed_backend r r' : r < Topology.world_size t → r' < Topology.world_size t → backend_of (G r) = backend_of (G r');
  placed_tp : 1 < Topology.tp_size t →
    seats (Topology.world_size t) (λ r, _TP_GROUP (G r)) (λ r, _TP_RANK (G r)) (Topology.tp_size t) ∧
    seats (Topology.world_size t) (λ r, _TP_CPU_GROUP (G r)) (λ r, _TP_RANK (G r)) (Topology.tp_size t) ∧
    (** a replica's ranks are consecutive *)
    ∀ r, r < Topology.world_size t →
      ranks <$> _TP_GROUP (G r) = Some (seq (_DP_RANK (G r) * Topology.tp_size t) (Topology.tp_size t));
  placed_attention : 1 < Topology.attention_tp_size t →
    seats (Topology.world_size t) (λ r, _ATTN_TP_GROUP (G r)) (λ r, _ATTN_TP_RANK (G r)) (Topology.attention_tp_size t);
  placed_pcp : 1 < Topology.pcp_size t →
    seats (Topology.world_size t) (λ r, _PCP_GROUP (G r)) (λ r, _PCP_RANK (G r)) (Topology.pcp_size t);
  placed_dcp : 1 < Topology.dcp_size t →
    seats (Topology.world_size t) (λ r, _DCP_GROUP (G r)) (λ r, _DCP_RANK (G r)) (Topology.dcp_size t);
  placed_dp : dp_attention_wanted t a = true →
    seats (Topology.world_size t) (λ r, _DP_GROUP (G r)) (λ r, _DP_RANK (G r)) (Topology.dp_size t) ∧
    seats (Topology.world_size t) (λ r, _DP_CPU_GROUP (G r)) (λ r, _DP_RANK (G r)) (Topology.dp_size t) ∧
    (** the peers of a rank hold the same position in the other replicas *)
    ∀ r, r < Topology.world_size t →
      ranks <$> _DP_GROUP (G r) =
        Some (Topology.range_step (_TP_RANK (G r)) (Topology.world_size t) (Topology.tp_size t));
  placed_expert : ∀ r, r < Topology.world_size t →
    _EP_ENABLED (G r) = enable_expert_parallel a ∧
    (_EP_RANK (G r), _EP_WORLD_SIZE (G r)) =
      (if (1 <? Topology.tp_size t) || dp_attention_wanted t a
       then expert_place (Topology.at_rank r t) a else (0, 1));
  (** without DP attention the experts split over a replica *)
  placed_ep_replica : enable_expert_parallel a = true → dp_attention_wanted t a = false → 1 < Topology.tp_size t →
    ∀ r, r < Topology.world_size t → _EP_GROUP (G r) = _TP_GROUP (G r);
  placed_ep : ∀ size, 1 < size → (∀ r, r < Topology.world_size t → _EP_WORLD_SIZE (G r) = size) →
    seats (Topology.world_size t) (λ r, _EP_GROUP (G r)) (λ r, _EP_RANK (G r)) size;
}.

Lemma init_groups_lockstep t a cuda initialized prior count :
  Topology.valid t →
  ∃ G count', spmd (Topology.world_size t)
      (λ r, init_groups (Topology.at_rank r t) a cuda initialized prior count) (λ r, (G r, count')) ∧
    placed t a G.
Proof.
  intros Ht. set (n := Topology.world_size t). set (b := default (if cuda then nccl else gloo) (arg_backend a)).
  destruct ((Topology.tp_size t <=? 1) && negb (dp_attention_wanted t a)) eqn:Esingle.
  - eexists _, count. split.
    + eapply spmd_ext; [|reflexivity|apply spmd_ret]. intros r Hr. unfold init_groups.
      change (dp_attention_wanted (Topology.at_rank r t) a) with (dp_attention_wanted t a).
      change (Topology.tp_size (Topology.at_rank r t)) with (Topology.tp_size t). rewrite Esingle. reflexivity.
    + apply andb_prop in Esingle as (E1 & E2%negb_true_iff). apply Nat.leb_le in E1.
      pose proof (Topology.valid_attention t Ht) as Ea. pose proof (Topology.valid_decode t Ht) as Ed.
      pose proof (Topology.valid_tp t Ht) as E0.
      assert (Topology.pcp_size t = 1 ∧ Topology.attention_tp_size t = 1) as (Ep & Ew) by (apply Nat.eq_mul_1; lia).
      assert (Topology.dcp_size t = 1) as Ec.
      { pose proof (Topology.valid_dcp t Ht). rewrite Ew in Ed. destruct (Topology.dcp_size t) as [|[|d]]; [done..|].
        by rewrite Nat.mod_small in Ed by lia. }
      split; cbn; auto; try lia.
      * repeat split; auto.
      * by rewrite E2.
      * intros r Hr. split; [done|]. rewrite E2. by destruct (Topology.tp_size t) as [|[|]]; [| |lia].
      * intros size Hs H. assert (0 < Topology.world_size t) as Hw.
        { unfold Topology.world_size. pose proof (Topology.valid_dp t Ht). lia. }
        specialize (H 0 Hw). lia.
  - destruct (tp_stage t Ht b (_TP_GROUP prior, _TP_CPU_GROUP prior) count) as (tp & cpu & c1 & H1 & S1).
    destruct (attention_stage t Ht b tp (λ _, _ATTN_TP_GROUP prior) c1) as (attn & c2 & H2 & S2); [intros; by apply S1|].
    destruct (pcp_stage t Ht b (λ _, _PCP_GROUP prior) c2) as (pcp & c3 & H3 & S3).
    destruct (dcp_stage t Ht b attn (λ _, _DCP_GROUP prior) c3 S2) as (dcp & c4 & H4 & S4).
    destruct (lane_stage t Ht b a (_DP_GROUP prior, _DP_CPU_GROUP prior) c4) as (dp & dpc & c5 & H5 & S5).
    destruct (expert_stage t Ht b a tp (_EP_GROUP prior) c5) as (ep & c6 & H6 & S6 & S7); [intros; by apply S1|].
    eexists _, c6. split.
    + eapply spmd_ext; [|reflexivity|].
      { intros r Hr. unfold init_groups.
        change (dp_attention_wanted (Topology.at_rank r t) a) with (dp_attention_wanted t a).
        change (Topology.tp_size (Topology.at_rank r t)) with (Topology.tp_size t). rewrite Esingle. reflexivity. }
      cbv zeta. eapply spmd_bind; [instantiate (1 := λ _, tt); destruct initialized; [apply spmd_ret|apply spmd_init]|].
      eapply spmd_bind; [exact H1|]. cbv beta iota.
      eapply spmd_bind; [exact H2|]. cbv beta iota.
      eapply spmd_bind; [exact H3|]. cbv beta iota.
      eapply spmd_bind; [exact H4|]. cbv beta iota.
      eapply spmd_bind; [exact H5|]. cbv beta iota.
      eapply spmd_bind; [exact H6|]. cbv beta iota. apply spmd_ret.
    + assert ((1 <? Topology.tp_size t) || dp_attention_wanted t a = true) as Hcond.
      { rewrite Nat.leb_antisym in Esingle. by destruct (1 <? _), (dp_attention_wanted t a). }
      split; cbn -[Nat.ltb expert_place]; auto; [by repeat split| |].
      * intros r Hr. rewrite Hcond. by destruct (expert_place _ a).
      * intros He Hd _ r _. by rewrite (S7 He Hd).
Qed.

(** The whole of [init_parallel], from arguments some rank accepts. *)
Lemma init_parallel_runs r0 t a cuda initialized prior count :
  Topology.resolve_topology r0 (arg_tp_size a) (arg_dp_size a) (prefill_context_parallel_size a)
    (decode_context_parallel_size a) (prefill_context_parallel_strategy a) (arg_dcp_comm_backend a) = Ok t →
  ∃ G count', spmd (Topology.world_size t)
      (λ r, init_parallel (Z.of_nat r) a cuda initialized prior count) (λ r, (G r, count')) ∧
    placed t a G.
Proof.
  intros Ht. pose proof (Topology.resolve_topology_Ok _ _ _ _ _ _ _ _ Ht) as (Hv & _).
  destruct (init_groups_lockstep t a cuda initialized prior count Hv) as (G & count' & Hrun & HG).
  exists G, count'. split; [|done]. eapply spmd_ext; [|reflexivity|exact Hrun]. intros r Hr. unfold init_parallel.
  by rewrite (Topology.resolve_at _ _ _ _ _ _ _ t r Ht Hr).
Qed.

(** C7: From arguments one rank accepts, all ranks of the world get through [init_parallel] on every schedule (no rank
    ever waits in a [new_group] its peers skip), and the groups they end up with are consistent: the groups of each kind
    partition the world, have the width the topology says, and list every rank at the position its rank accessor
    names. *)
Theorem init_parallel_lockstep r0 t a cuda initialized prior count :
  Topology.resolve_topology r0 (arg_tp_size a) (arg_dp_size a) (prefill_context_parallel_size a)
    (decode_context_parallel_size a) (prefill_context_parallel_strategy a) (arg_dcp_comm_backend a) = Ok t →
  ∃ G count',
    always wire (Topology.world_size t) (λ r, init_parallel (Z.of_nat r) a cuda initialized prior count) (λ r, (G r, count')) ∧
    placed t a G.
Proof.
  intros Ht. destruct (init_parallel_runs r0 t a cuda initialized prior count Ht) as (G & count' & Hrun & HG).
  exists G, count'. split; [by apply spmd_always|done].
Qed.
End programs.
End ParallelState.
