(* ===== verification/Collectives.v ===== *)
(** The collectives [distributed/parallel_state.py] offers to the model code:
    reductions and gathers over the groups of the grid, and the ragged gather
    and reduce-scatter that run on an equal-length wire. *)

From S2P Require Import Prelude Spmd Topology ParallelState.

Module Collectives.
Import Spmd ParallelState.

(** [divide a b what]. *)
Definition divide (a b : nat) : result nat :=
  _ ← rguard (bool_decide (b ≠ 0)) ZeroDivisionError;
  _ ← rguard (bool_decide (a mod b = 0)) ValueError;
  Ok (a / b).

Section programs.
Context {Row : Type} `{!RowOps Row}.
Notation tensor := (list Row).
Notation prog := (@prog tensor).

(** [tensor.numel() * tensor.element_size()], the payload of a message. *)
Context (payload : tensor → nat).

Section on_rank.
Context (s : grid).

Definition me : nat := Topology.global_rank (_TOPOLOGY s).

(** [group=None] is the default group, the whole world. *)
Definition group_or_world (g : option group) : group :=
  default (world_group (_DP_WORLD_SIZE s * _TP_WORLD_SIZE s)) g.

(** A collective that fills one output tensor. *)
Definition call1 (g : group) (c : collective) (x : tensor) : prog tensor :=
  Call g c x (λ ys, match ys with [] => Raise RuntimeError | y :: _ => Ret y end).

Definition _all_reduce_on (x : tensor) (g : option group) (world_size : nat) : prog tensor :=
  if world_size <=? 1 then Ret x else call1 (group_or_world g) (AllReduce SUM) x.

(** [torch.cat] of the parts, in group order. *)
Definition _all_gather_on (x : tensor) (g : option group) (world_size : nat) : prog tensor :=
  if world_size <=? 1 then Ret x else Call (group_or_world g) AllGather x (λ parts, Ret (concat parts)).

Definition attention_model_parallel_all_reduce (x : tensor) : prog tensor :=
  _all_reduce_on x (_ATTN_TP_GROUP s) (_ATTN_TP_WORLD_SIZE s).
Definition attention_model_parallel_all_gather (x : tensor) : prog tensor :=
  _all_gather_on x (_ATTN_TP_GROUP s) (_ATTN_TP_WORLD_SIZE s).
Definition prefill_context_parallel_all_gather (x : tensor) : prog tensor :=
  _all_gather_on x (_PCP_GROUP s) (_PCP_WORLD_SIZE s).
Definition decode_context_parallel_all_gather (x : tensor) : prog tensor :=
  _all_gather_on x (_DCP_GROUP s) (_DCP_WORLD_SIZE s).
Definition decode_context_parallel_all_reduce (x : tensor) : prog tensor :=
  _all_reduce_on x (_DCP_GROUP s) (_DCP_WORLD_SIZE s).

(** Two ranks exchange their partials and each adds what it received. *)
Definition p2p_all_reduce (x : tensor) : prog tensor :=
  if _TP_WORLD_SIZE s <=? 1 then Ret x
  else if negb (_TP_WORLD_SIZE s =? 2) || negb (bool_decide (is_Some (_TP_GROUP s)))
          || negb (bool_decide (backend_of s = nccl))
  then call1 (group_or_world (_TP_GROUP s)) (AllReduce SUM) x
  else y ← call1 (group_or_world (_TP_GROUP s)) Exchange x;
       Ret (zip_with (row_reduce SUM) x y).

Definition tensor_model_parallel_all_reduce (x : tensor) : prog tensor :=
  if _TP_WORLD_SIZE s <=? 1 then Ret x
  else if (_TP_WORLD_SIZE s =? 2) && bool_decide (is_Some (_TP_GROUP s))
          && bool_decide (backend_of s = nccl) && (payload x <=? 65536)
  then p2p_all_reduce x
  else call1 (group_or_world (_TP_GROUP s)) (AllReduce SUM) x.

Definition tensor_model_parallel_all_reduce_max (x : tensor) : prog tensor :=
  if _TP_WORLD_SIZE s <=? 1 then Ret x else call1 (group_or_world (_TP_GROUP s)) (AllReduce MAX) x.

Definition tensor_model_parallel_all_gather (x : tensor) : prog tensor :=
  if _TP_WORLD_SIZE s <=? 1 then Ret x
  else Call (group_or_world (_TP_GROUP s)) AllGather x (λ parts, Ret (concat parts)).

Definition tensor_model_parallel_broadcast (src : nat) (x : tensor) : prog tensor :=
  if _TP_WORLD_SIZE s <=? 1 then Ret x else call1 (group_or_world (_TP_GROUP s)) (Broadcast src) x.

Definition data_parallel_all_gather (group : option group) (x : tensor) : prog tensor :=
  match (match group with None => _DP_GROUP s | Some g => Some g end) with
  | None => Ret x
  | Some g => if group_size g <=? 1 then Ret x else Call g AllGather x (λ parts, Ret (concat parts))
  end.

Definition data_parallel_all_reduce (op : reduction) (x : tensor) : prog tensor :=
  match _DP_GROUP s with
  | None => Ret x
  | Some g => if group_size g <=? 1 then Ret x else call1 g (AllReduce op) x
  end.

(** [_world_of_one] *)
Definition _world_of_one (g : option group) : bool :=
  match g with None => _TP_WORLD_SIZE s <=? 1 | Some g => group_size g <=? 1 end.

Definition _resolve (g : option group) : group :=
  group_or_world (match g with None => _TP_GROUP s | Some g => Some g end).

Definition reduce_scatter (g : option group) (x : tensor) : prog tensor :=
  if _world_of_one g then Ret x
  else
    let g := _resolve g in
    _ ← pguard (bool_decide (length x mod group_size g = 0)) ValueError;
    call1 g ReduceScatter x.

Definition all_to_all (g : option group) (x : tensor) : prog tensor :=
  if _world_of_one g then Ret x
  else
    let g := _resolve g in
    _ ← pguard (bool_decide (length x mod group_size g = 0)) ValueError;
    call1 g AllToAll x.

(** Positions of the rows of a ragged pool in the [world x padded] rectangle. *)
Definition _ragged_plan (sizes : list nat) (padded : nat) : list nat :=
  concat (imap (λ r rows, seq (r * padded) rows) sizes).

Definition maximum (l : list nat) : nat := foldr max 0 l.

(** [len(set(sizes)) == 1] *)
Definition one_value (sizes : list nat) : bool := length (remove_dups sizes) =? 1.

(** [F.pad] of the shard axis. *)
Definition pad_rows (rows : nat) (x : tensor) : tensor := x ++ replicate (rows - length x) row_zero.

(** [index_select] and [index_copy_] along the shard axis. *)
Definition index_select (x : tensor) (plan : list nat) : result tensor := rmap (item x) plan.
Definition index_copy (x : tensor) (plan : list nat) (y : tensor) : tensor :=
  foldl (λ x '(p, v), <[p := v]> x) x (zip plan y).

Definition all_gatherv (tensors : list tensor) (sizes : option (list nat)) (group : option group) :
    prog (list tensor) :=
  match (match group with None => _DP_GROUP s | Some g => Some g end) with
  | None => Ret tensors
  | Some g =>
      if group_size g <=? 1 then Ret tensors else
      let world := group_size g in
      let rank := group_rank g me in
      first ← lift (item tensors 0);
      let sizes := default (replicate world (length first)) sizes in
      _ ← pguard (bool_decide (length sizes = world)) ValueError;
      own ← lift (item sizes rank);
      _ ← pguard (forallb (λ x, length x =? own) tensors) ValueError;
      if one_value sizes
      then pfold (λ x done, y ← data_parallel_all_gather (Some g) x; Ret (done ++ [y])) tensors []
      else
        let padded := maximum sizes in
        let plan := _ragged_plan sizes padded in
        pfold (λ x done,
          gathered ← data_parallel_all_gather (Some g) (pad_rows padded x);
          y ← lift (index_select gathered plan);
          Ret (done ++ [y])) tensors []
  end.

Definition reduce_scatterv (x : tensor) (sizes : list nat) (group : option group) : prog tensor :=
  match (match group with None => _DP_GROUP s | Some g => Some g end) with
  | None => Ret x
  | Some g =>
      if group_size g <=? 1 then Ret x else
      let world := group_size g in
      let rank := group_rank g me in
      _ ← pguard (bool_decide (length sizes = world)) ValueError;
      _ ← pguard (bool_decide (length x = sum_list sizes)) ValueError;
      if one_value sizes
      then reduce_scatter (Some g) x
      else
        let padded := maximum sizes in
        let plan := _ragged_plan sizes padded in
        let buf := index_copy (replicate (padded * world) row_zero) plan x in
        shard ← call1 g ReduceScatter buf;
        own ← lift (item sizes rank);
        Ret (take own shard)
  end.
End on_rank.
End programs.
End Collectives.
