(* ===== verification/CollectiveSpec.v ===== *)
(** What the collectives of a placed grid compute, on every rank at once. *)

From S2P Require Import Prelude Spmd Topology ParallelState Collectives.

Module CollectiveSpec.
Import Spmd ParallelState Collectives.

Lemma foldl_snoc {A B} (f : A → B) l acc : foldl (λ acc x, acc ++ [f x]) acc l = acc ++ (f <$> l).
Proof.
  revert acc. induction l as [|x l IH]; intros acc; cbn; [by rewrite app_nil_r|]. by rewrite IH, <- app_assoc.
Qed.

(** ** Reductions, position by position *)

Section reductions.
Context {Row : Type} `{!RowOps Row}.
Notation tensor := (list Row).
Implicit Types (x : tensor) (xs : list tensor).

Definition reduce1 (op : reduction) (l : list Row) : option Row :=
  match l with [] => None | v :: l => Some (foldl (row_reduce op) v l) end.

Lemma reduce_length op n xs : xs ≠ [] → Forall (λ x, length x = n) xs → length (reduce op xs) = n.
Proof.
  destruct xs as [|x xs]; [done|]. intros _ (Hx & Hxs)%Forall_cons. cbn.
  revert x Hx. induction Hxs as [|y xs Hy _ IH]; intros x Hx; [done|]. cbn. apply IH.
  rewrite length_zip_with. lia.
Qed.

Lemma reduce_lookup op n xs p :
  Forall (λ x, length x = n) xs → p < n → reduce op xs !! p = reduce1 op (omap (.!! p) xs).
Proof.
  destruct xs as [|x xs]; [done|]. intros (Hx & Hxs)%Forall_cons Hp. cbn.
  destruct (lookup_lt_is_Some_2 x p) as (v & Hv); [lia|]. rewrite Hv. cbn.
  revert x v Hx Hv. induction Hxs as [|y xs Hy _ IH]; intros x v Hx Hv; [done|]. cbn.
  destruct (lookup_lt_is_Some_2 y p) as (w & Hw); [lia|]. rewrite Hw. cbn. apply IH.
  - rewrite length_zip_with. lia.
  - rewrite lookup_zip_with, Hv. cbn. by rewrite Hw.
Qed.

Lemma reduce_one op x : reduce op [x] = x.
Proof. done. Qed.

Lemma chunk_lookup n i x p : chunk n i x !! p = if decide (p < n) then x !! (i * n + p) else None.
Proof.
  unfold chunk. case_decide as Hp; [by rewrite lookup_take_lt, lookup_drop|by rewrite lookup_take_ge by lia].
Qed.
End reductions.

(** ** The ragged plan *)

Section ragged.
Context {Row : Type} `{!RowOps Row}.
Notation tensor := (list Row).

Definition offset (sizes : list nat) (r : nat) : nat := sum_list (take r sizes).

Definition plan_from (k : nat) (sizes : list nat) (padded : nat) : list nat :=
  concat (imap (λ r rows, seq ((k + r) * padded) rows) sizes).

Lemma plan_from_cons k n sizes padded :
  plan_from k (n :: sizes) padded = seq (k * padded) n ++ plan_from (S k) sizes padded.
Proof.
  unfold plan_from. cbn. rewrite Nat.add_0_r. f_equal. f_equal. apply imap_ext.
  intros i x _. cbn. f_equal. lia.
Qed.

Lemma plan_from_bound k sizes padded p :
  Forall (λ n, n ≤ padded) sizes → p ∈ plan_from k sizes padded → k * padded ≤ p < (k + length sizes) * padded.
Proof.
  intros Hs. revert k. induction Hs as [|n sizes Hn _ IH]; intros k; [by intros ?%elem_of_nil|].
  rewrite plan_from_cons, elem_of_app, elem_of_seq. cbn [length]. intros [H|H%IH]; nia.
Qed.

Lemma plan_from_nodup k sizes padded : Forall (λ n, n ≤ padded) sizes → NoDup (plan_from k sizes padded).
Proof.
  intros Hs. revert k. induction Hs as [|n sizes Hn Hs IH]; intros k; [constructor|].
  rewrite plan_from_cons. apply NoDup_app. split; [apply NoDup_seq|]. split; [|done].
  intros p Hp%elem_of_seq Hq%plan_from_bound; [nia|done].
Qed.

Lemma plan_lookup k sizes padded r n j :
  sizes !! r = Some n → j < n → plan_from k sizes padded !! (offset sizes r + j) = Some ((k + r) * padded + j).
Proof.
  unfold offset. revert k r. induction sizes as [|m sizes IH]; intros k r Hr Hj; [done|].
  rewrite plan_from_cons. destruct r as [|r]; cbn in Hr |- *.
  - injection Hr as ->. rewrite lookup_app_l by (rewrite length_seq; lia). rewrite lookup_seq_lt by done. f_equal. lia.
  - rewrite lookup_app_r by (rewrite length_seq; lia). rewrite length_seq.
    replace (m + sum_list (take r sizes) + j - m) with (sum_list (take r sizes) + j) by lia.
    rewrite (IH (S k) r) by done. f_equal. lia.
Qed.

Lemma plan_length k sizes padded : length (plan_from k sizes padded) = sum_list sizes.
Proof.
  revert k. induction sizes as [|n sizes IH]; intros k; [done|].
  rewrite plan_from_cons, length_app, length_seq, IH. done.
Qed.

Lemma ragged_plan_from sizes padded : _ragged_plan sizes padded = plan_from 0 sizes padded.
Proof. done. Qed.

(** The receiver's compaction undoes the padding. *)
Lemma item_seq (x y : tensor) b : (∀ j, j < length y → x !! (b + j) = y !! j) → rmap (item x) (seq b (length y)) = Ok y.
Proof.
  revert b. induction y as [|v y IH]; intros b H; [done|]. cbn.
  specialize (H 0) as H0. cbn in H0. rewrite Nat.add_0_r in H0. rewrite (item_Ok _ _ v) by (apply H0; lia).
  cbn [mbind result_bind]. rewrite IH; [done|]. intros j Hj. specialize (H (S j)). cbn [length lookup list_lookup] in H.
  replace (S b + j) with (b + S j) by lia. apply H. cbn. lia.
Qed.

Lemma rmap_Ok_app {A B} (f : A → result B) l1 l2 b1 b2 :
  rmap f l1 = Ok b1 → rmap f l2 = Ok b2 → rmap f (l1 ++ l2) = Ok (b1 ++ b2).
Proof.
  revert b1. induction l1 as [|a l1 IH]; cbn; intros b1 H1 H2; [by injection H1 as <-|].
  destruct (f a) as [b|]; [|done]. cbn in *. destruct (rmap f l1) as [bs|]; [|done]. cbn in *. injection H1 as <-.
  by rewrite (IH bs).
Qed.

Lemma gather_compact (shards : list tensor) padded :
  Forall (λ x, length x ≤ padded) shards →
  index_select (concat (pad_rows padded <$> shards)) (_ragged_plan (length <$> shards) padded) = Ok (concat shards).
Proof.
  intros Hs. unfold index_select. rewrite ragged_plan_from.
  enough (∀ pre k, length pre = k * padded →
    rmap (item (pre ++ concat (pad_rows padded <$> shards))) (plan_from k (length <$> shards) padded) = Ok (concat shards))
    as H by exact (H [] 0 eq_refl).
  induction Hs as [|x shards Hx _ IH]; intros pre k Hk; [done|].
  cbn [fmap list_fmap concat]. rewrite plan_from_cons. apply rmap_Ok_app.
  - apply item_seq. intros j Hj. rewrite lookup_app_r by lia. unfold pad_rows. rewrite <- app_assoc.
    rewrite lookup_app_l by lia. f_equal. lia.
  - rewrite app_assoc. apply IH. unfold pad_rows. rewrite !length_app, length_replicate. lia.
Qed.

(** The sender's scatter puts row [j] of chunk [r] at row [j] of the rank's
    stretch of the buffer. *)
Lemma index_copy_length (x : tensor) plan y : length (index_copy x plan y) = length x.
Proof.
  unfold index_copy. revert x. induction (zip plan y) as [|[p v] l IH]; intros x; [done|].
  cbn. rewrite IH. apply length_insert.
Qed.

Lemma index_copy_other (x : tensor) plan y p : p ∉ plan → index_copy x plan y !! p = x !! p.
Proof.
  unfold index_copy. revert x y. induction plan as [|q plan IH]; intros x [|v y] Hp; try done. cbn.
  apply not_elem_of_cons in Hp as (Hq & Hp). rewrite IH by done. by apply list_lookup_insert_ne.
Qed.

Lemma index_copy_lookup (x : tensor) plan y i p v :
  NoDup plan → plan !! i = Some p → y !! i = Some v → p < length x → index_copy x plan y !! p = Some v.
Proof.
  unfold index_copy. revert x y i. induction plan as [|q plan IH]; intros x [|w y] i Hn Hi Hy Hp; try done.
  apply NoDup_cons in Hn as (Hq & Hn). destruct i as [|i]; cbn in *.
  - injection Hi as ->. injection Hy as ->. fold (index_copy (<[p:=v]> x) plan y).
    rewrite index_copy_other by done. by apply list_lookup_insert_eq.
  - eapply IH; [done|exact Hi|exact Hy|]. by rewrite length_insert.
Qed.

Lemma offset_slice sizes r n : sizes !! r = Some n → offset sizes r + n ≤ sum_list sizes.
Proof.
  unfold offset. revert r. induction sizes as [|m sizes IH]; intros [|r] Hr; cbn in *; [done| |..]; simplify_eq/=; [lia|].
  apply IH in Hr. lia.
Qed.
End ragged.

(** ** One collective, on every rank of a family of groups *)

Section calls.
Context {Row : Type} `{!RowOps Row}.
Notation tensor := (list Row).
Context (wire : collective → list tensor → option (list (list tensor))) `{!WireLaws wire}.
Notation spmd := (Spmd.spmd wire).
Context (payload : tensor → nat) (n : nat) (G : nat → grid) (grp : nat → group).
Hypothesis Hfam : family n grp.
Implicit Types (x y : nat → tensor) (r : nat).

(** What the members of a rank's group contribute, in group order. *)
Definition peers {A} (x : nat → A) r : list A := x <$> ranks (grp r).

(** The members of a group bring the same number of rows. *)
Definition even x : Prop := ∀ r r', r < n → r' ∈ ranks (grp r) → length (x r') = length (x r).

Lemma even_peers x r : even x → r < n → Forall (λ t, length t = length (x r)) (peers x r).
Proof. intros He Hr. apply Forall_fmap, Forall_forall. intros r' Hr'. cbn. by apply He. Qed.

Lemma peers_group {A} (x : nat → A) r r' : r < n → r' ∈ ranks (grp r) → peers x r' = peers x r.
Proof. intros Hr Hr'. unfold peers. by destruct (family_peer _ _ Hfam r r' Hr Hr') as (_ & ->). Qed.

Lemma peers_ext {A} (x y : nat → A) r : (∀ r', r' ∈ ranks (grp r) → x r' = y r') → peers x r = peers y r.
Proof. intros H. apply list_fmap_ext. intros i r' Hi. by eapply H, list_elem_of_lookup_2. Qed.

Lemma peers_length {A} (x : nat → A) r : length (peers x r) = group_size (grp r).
Proof. apply length_fmap. Qed.

Lemma peers_single {A} (x : nat → A) r : r < n → group_size (grp r) ≤ 1 → peers x r = [x r].
Proof.
  intros Hr Hs. pose proof (family_own _ _ Hfam r Hr) as Hin. unfold peers, group_size in *.
  destruct (ranks (grp r)) as [|r0 [|r1 l]]; [by apply elem_of_nil in Hin| |cbn in Hs; lia].
  apply list_elem_of_singleton in Hin as ->. done.
Qed.

Lemma peers_ne {A} (x : nat → A) r : r < n → peers x r ≠ [].
Proof.
  intros Hr. pose proof (family_own _ _ Hfam r Hr) as Hin. unfold peers.
  destruct (ranks (grp r)); [by apply elem_of_nil in Hin|done].
Qed.

Lemma peers_own {A} (x : nat → A) r : r < n → peers x r !! group_rank (grp r) r = Some (x r).
Proof.
  intros Hr. unfold peers. rewrite list_lookup_fmap, group_rank_lookup; [done|]. by apply Hfam.
Qed.

(** A rule for every collective that answers the same on all members. *)
Lemma spmd_same {A} c (x : nat → tensor) (f : list tensor → list tensor) (k : nat → list tensor → prog A) b :
  (∀ r, r < n → wire c (peers x r) = Some ((λ _, f (peers x r)) <$> peers x r)) →
  spmd n (λ r, k r (f (peers x r))) b → spmd n (λ r, Call (grp r) c (x r) (k r)) b.
Proof.
  intros Hw Hk. eapply (spmd_call wire n grp c x (λ r, f (peers x r))); [done| |done].
  intros r Hr. change (x <$> ranks (grp r)) with (peers x r). rewrite Hw by done. f_equal.
  unfold peers at 2. rewrite <- list_fmap_compose. apply list_fmap_ext. intros i r' Hi. cbn.
  by rewrite (peers_group x r r') by (done || by eapply list_elem_of_lookup_2).
Qed.

(** Groups may run different collectives, one kind each. *)
Lemma spmd_each {A} (c : nat → collective) (x : nat → tensor) (f : nat → list tensor → list tensor)
    (k : nat → list tensor → prog A) b :
  (∀ r r', r < n → r' ∈ ranks (grp r) → c r' = c r ∧ f r' = f r) →
  (∀ r, r < n → wire (c r) (peers x r) = Some ((λ _, f r (peers x r)) <$> peers x r)) →
  spmd n (λ r, k r (f r (peers x r))) b → spmd n (λ r, Call (grp r) (c r) (x r) (k r)) b.
Proof.
  intros Hc Hw Hk. eapply (spmd_calls wire n grp c x (λ r, f r (peers x r))); [done|by intros; apply Hc| |done].
  intros r Hr. change (x <$> ranks (grp r)) with (peers x r). rewrite Hw by done. f_equal.
  unfold peers at 2. rewrite <- list_fmap_compose. apply list_fmap_ext. intros i r' Hi. cbn.
  pose proof (list_elem_of_lookup_2 _ _ _ Hi) as Hin. rewrite (peers_group x r r') by done.
  by destruct (Hc r r') as (_ & ->).
Qed.

(** And one for those that answer by the place of the member. *)
Lemma spmd_indexed {A} c (x : nat → tensor) (f : nat → nat → list tensor)
    (k : nat → list tensor → prog A) b :
  (∀ r, r < n → wire c (peers x r) = Some (imap (λ i _, f r i) (peers x r))) →
  (∀ r r' i, r < n → r' ∈ ranks (grp r) → f r' i = f r i) →
  spmd n (λ r, k r (f r (group_rank (grp r) r))) b → spmd n (λ r, Call (grp r) c (x r) (k r)) b.
Proof.
  intros Hw Hf Hk. eapply (spmd_call wire n grp c x (λ r, f r (group_rank (grp r) r))); [done| |done].
  intros r Hr. change (x <$> ranks (grp r)) with (peers x r). rewrite Hw by done. f_equal.
  unfold peers. rewrite imap_ranks by by apply Hfam. apply list_fmap_ext. intros i r' Hi.
  pose proof (list_elem_of_lookup_2 _ _ _ Hi) as Hin. rewrite (Hf r r') by done.
  by destruct (family_peer _ _ Hfam r r' Hr Hin) as (_ & ->).
Qed.

Lemma spmd_reduce op x : even x → spmd n (λ r, call1 (grp r) (AllReduce op) (x r)) (λ r, reduce op (peers x r)).
Proof.
  intros He. eapply (spmd_same _ x (λ xs, [reduce op xs])); [|apply spmd_ret].
  intros r Hr. by eapply wire_all_reduce, even_peers.
Qed.

Lemma spmd_gather x :
  even x → spmd n (λ r, Call (grp r) AllGather (x r) (λ parts, Ret (concat parts))) (λ r, concat (peers x r)).
Proof.
  intros He. eapply (spmd_same _ x (λ xs, xs)); [|apply spmd_ret].
  intros r Hr. by eapply wire_all_gather, even_peers.
Qed.

Lemma spmd_scatter m x :
  (∀ r, r < n → length (x r) = m r * group_size (grp r)) →
  (∀ r r', r < n → r' ∈ ranks (grp r) → m r' = m r) →
  spmd n (λ r, call1 (grp r) ReduceScatter (x r)) (λ r, chunk (m r) (group_rank (grp r) r) (reduce SUM (peers x r))).
Proof.
  intros Hx Hm. eapply (spmd_indexed _ x (λ r i, [chunk (m r) i (reduce SUM (peers x r))])); [| |apply spmd_ret].
  - intros r Hr. apply wire_reduce_scatter. apply Forall_fmap, Forall_forall. intros r' Hr'. cbn.
    destruct (family_peer _ _ Hfam r r' Hr Hr') as (Hn & Eg). by rewrite Hx, Eg, (Hm r r'), peers_length.
  - intros r r' i Hr Hr'. by rewrite (Hm r r'), (peers_group x r r').
Qed.

Lemma spmd_exchange_all m x :
  (∀ r, r < n → length (x r) = m r * group_size (grp r)) →
  (∀ r r', r < n → r' ∈ ranks (grp r) → m r' = m r) →
  spmd n (λ r, call1 (grp r) AllToAll (x r)) (λ r, concat (chunk (m r) (group_rank (grp r) r) <$> peers x r)).
Proof.
  intros Hx Hm. eapply (spmd_indexed _ x (λ r i, [concat (chunk (m r) i <$> peers x r)])); [| |apply spmd_ret].
  - intros r Hr. apply wire_all_to_all. apply Forall_fmap, Forall_forall. intros r' Hr'. cbn.
    destruct (family_peer _ _ Hfam r r' Hr Hr') as (Hn & Eg). by rewrite Hx, Eg, (Hm r r'), peers_length.
  - intros r r' i Hr Hr'. by rewrite (Hm r r'), (peers_group x r r').
Qed.

(** ** The ragged gather *)

(** The ranks know their own number and hold the group [grp r], all groups of
    [size] members. *)
Context (size : nat).
Hypothesis Hme : ∀ r, r < n → me (G r) = r.
Hypothesis Hsize : ∀ r, r < n → group_size (grp r) = size.

Lemma spmd_dp_gather x :
  even x → spmd n (λ r, data_parallel_all_gather (G r) (Some (grp r)) (x r)) (λ r, concat (peers x r)).
Proof.
  intros He. destruct (Nat.leb_spec size 1) as [Hs|Hs].
  - eapply spmd_ext; [| |apply (spmd_ret wire n x)]; intros r Hr; unfold data_parallel_all_gather.
    + rewrite Hsize by done. apply Nat.leb_le in Hs. by rewrite Hs.
    + rewrite peers_single by (done || by rewrite Hsize). cbn. by rewrite app_nil_r.
  - eapply spmd_ext; [|reflexivity|by apply spmd_gather]. intros r Hr. unfold data_parallel_all_gather.
    rewrite Hsize by done. apply Nat.leb_gt in Hs. by rewrite Hs.
Qed.

Lemma one_value_all sizes v : one_value sizes = true → v ∈ sizes → Forall (λ w, w = v) sizes.
Proof.
  unfold one_value. intros H%Nat.eqb_eq Hv. apply Forall_forall. intros w Hw.
  rewrite <- elem_of_remove_dups in Hv, Hw.
  destruct (remove_dups sizes) as [|u [|? l]]; [done| |done].
  apply list_elem_of_singleton in Hv, Hw. congruence.
Qed.

Lemma elem_le_maximum l v : v ∈ l → v ≤ maximum l.
Proof. unfold maximum. induction 1; cbn; lia. Qed.

(** [sizes r] lists the rows each member of [r]'s group declared. *)
Definition declared (sizes : nat → list nat) x : Prop := ∀ r, r < n → length <$> peers x r = sizes r.

Lemma declared_own sizes x r : declared sizes x → r < n → sizes r !! group_rank (grp r) r = Some (length (x r)).
Proof. intros Hd Hr. rewrite <- Hd by done. rewrite list_lookup_fmap. by rewrite peers_own. Qed.

Lemma declared_group sizes x r r' : declared sizes x → r < n → r' ∈ ranks (grp r) → sizes r' = sizes r.
Proof.
  intros Hd Hr Hr'. destruct (family_peer _ _ Hfam r r' Hr Hr') as (Hn & _).
  by rewrite <- !Hd, (peers_group x r r') by done.
Qed.

Lemma even_when_one sizes x :
  declared sizes x → even (λ r, if one_value (sizes r) then x r else pad_rows (maximum (sizes r)) (x r)).
Proof.
  intros Hd r r' Hr Hr'. destruct (family_peer _ _ Hfam r r' Hr Hr') as (Hn & Eg).
  pose proof (declared_own sizes x r Hd Hr) as H1. pose proof (declared_own sizes x r' Hd Hn) as H2.
  rewrite (declared_group sizes x r r') in H2 |- * by done.
  destruct (one_value (sizes r)) eqn:E.
  - pose proof (one_value_all _ _ E (list_elem_of_lookup_2 _ _ _ H1)) as Hall. rewrite Forall_forall in Hall.
    by apply Hall, (list_elem_of_lookup_2 _ _ _ H2).
  - unfold pad_rows. rewrite !length_app, !length_replicate.
    pose proof (elem_le_maximum _ _ (list_elem_of_lookup_2 _ _ _ H1)). pose proof (elem_le_maximum _ _ (list_elem_of_lookup_2 _ _ _ H2)). lia.
Qed.

Lemma own_lengths sizes x0 xs r :
  Forall (declared sizes) (x0 :: xs) → r < n →
  forallb (λ t, length t =? length (x0 r)) ((λ x, x r) <$> x0 :: xs) = true.
Proof.
  intros (H0 & Hd)%Forall_cons Hr. apply forallb_forall. intros t Ht%list_elem_of_In.
  apply list_elem_of_fmap in Ht as (x & -> & Hx). apply Nat.eqb_eq.
  assert (declared sizes x) as H1 by (apply elem_of_cons in Hx as [->|Hx]; [done|]; by eapply Forall_forall in Hd).
  pose proof (declared_own sizes x r H1 Hr). pose proof (declared_own sizes x0 r H0 Hr). congruence.
Qed.

Lemma all_gatherv_concat (xs : list (nat → tensor)) (sizes : nat → list nat) :
  xs ≠ [] → Forall (declared sizes) xs →
  spmd n (λ r, all_gatherv (G r) ((λ x, x r) <$> xs) (Some (sizes r)) (Some (grp r)))
         (λ r, (λ x, concat (peers x r)) <$> xs).
Proof.
  intros Hne Hd. rewrite Forall_forall in Hd. destruct (Nat.leb_spec size 1) as [Hs|Hs].
  { eapply spmd_ext; [| |apply (spmd_ret wire n (λ r, (λ x, x r) <$> xs))]; intros r Hr.
    - unfold all_gatherv. rewrite Hsize by done. apply Nat.leb_le in Hs. by rewrite Hs.
    - apply list_fmap_ext. intros i x _. rewrite peers_single by (done || by rewrite Hsize). cbn. by rewrite app_nil_r. }
  set (z := λ x r, if one_value (sizes r) then x r else pad_rows (maximum (sizes r)) (x r)).
  set (post := λ r (y : tensor), if one_value (sizes r) then Ok y
               else index_select y (_ragged_plan (sizes r) (maximum (sizes r)))).
  set (step := λ r (t : tensor) (done : list tensor),
    if one_value (sizes r)
    then y ← data_parallel_all_gather (G r) (Some (grp r)) t; Ret (done ++ [y])
    else gathered ← data_parallel_all_gather (G r) (Some (grp r)) (pad_rows (maximum (sizes r)) t);
         y ← lift (index_select gathered (_ragged_plan (sizes r) (maximum (sizes r))));
         Ret (done ++ [y])).
  apply (spmd_ext wire n (λ r, pfold (step r) ((λ x, x r) <$> xs) []) _
    (λ r, foldl (λ done x, done ++ [concat (peers x r)]) [] xs)).
  - intros r Hr. unfold all_gatherv. rewrite Hsize by done. pose proof Hs as ->%Nat.leb_gt.
    destruct xs as [|x0 xs']; [done|]. pose proof (Hd x0 ltac:(left)) as Hd0.
    cbn [fmap list_fmap item lookup list_lookup lift mbind prog_bind default].
    rewrite Hme by done.
    assert (length (sizes r) = size) as Hl by (rewrite <- (Hd0 r Hr), length_fmap, peers_length; auto).
    rewrite (bool_decide_eq_true_2 (length _ = _)) by done. cbn [pguard mbind prog_bind].
    rewrite (item_Ok _ _ (length (x0 r))) by by apply declared_own. cbn [lift mbind prog_bind].
    assert (Forall (declared sizes) (x0 :: xs')) as Hall by (apply Forall_forall; exact Hd).
    pose proof (own_lengths sizes x0 xs' r Hall Hr) as Hw. cbn [fmap list_fmap] in Hw. rewrite Hw. cbn [pguard mbind prog_bind].
    unfold step, id. by destruct (one_value (sizes r)).
  - intros r Hr. apply (foldl_snoc _ xs []).
  - apply (spmd_pfold_map wire n step (λ r x done, done ++ [concat (peers x r)]) xs (λ _, [])).
    intros x done Hx. specialize (Hd x Hx).
    apply (spmd_ext wire n (λ r,
      gathered ← data_parallel_all_gather (G r) (Some (grp r)) (z x r);
      y ← lift (post r gathered); Ret (done r ++ [y])) _ (λ r, done r ++ [concat (peers x r)])); [|done|].
    { intros r _. unfold step, z, post. by destruct (one_value (sizes r)). }
    eapply spmd_bind; [by apply spmd_dp_gather, even_when_one|].
    eapply spmd_bind; [|apply spmd_ret]. apply (spmd_lift wire n _ (λ r, concat (peers x r))).
    intros r Hr. unfold post, z. rewrite <- (Hd r Hr).
    assert (∀ r', r' ∈ ranks (grp r) → sizes r' = length <$> peers x r) as Hpeer.
    { intros r' Hr'. rewrite (declared_group sizes x r r') by done. symmetry. by apply Hd. }
    destruct (one_value (length <$> peers x r)) eqn:E.
    + do 2 f_equal. unfold peers at 2. apply list_fmap_ext. intros i r' Hi.
      rewrite (Hpeer r') by by eapply list_elem_of_lookup_2. by rewrite E.
    + rewrite <- gather_compact with (padded := maximum (length <$> peers x r)).
      * do 2 f_equal. set (m := maximum (length <$> peers x r)). unfold peers at 1. transitivity ((pad_rows m ∘ x) <$> ranks (grp r));
          [|apply list_fmap_compose]. apply list_fmap_ext. intros i r' Hi.
        rewrite (Hpeer r') by by eapply list_elem_of_lookup_2. cbv beta. rewrite E. done.
      * apply Forall_forall. intros t Ht. apply elem_le_maximum. by apply list_elem_of_fmap_2.
Qed.

(** ** The ragged reduce-scatter *)

Lemma offset_constant sizes v i : Forall (λ w, w = v) sizes → i ≤ length sizes → offset sizes i = i * v.
Proof.
  unfold offset. intros H. revert i. induction H as [|w sizes -> _ IH]; intros [|i] Hi; cbn in *; [done|lia|done|].
  rewrite IH by lia. done.
Qed.

Lemma omap_peers {A B} (f g : A → option B) (x y : nat → A) r :
  (∀ r', r' ∈ ranks (grp r) → f (x r') = g (y r')) → omap f (peers x r) = omap g (peers y r).
Proof.
  unfold peers. intros H. induction (ranks (grp r)) as [|r' l IH]; [done|]. cbn.
  rewrite (H r') by left. rewrite IH by (intros; apply H; by right). done.
Qed.

Lemma sum_constant sizes v : Forall (λ w, w = v) sizes → sum_list sizes = length sizes * v.
Proof.
  intros H. rewrite <- (offset_constant sizes v) by done. unfold offset. by rewrite take_ge.
Qed.

(** The pool scattered into the padded rectangle. *)
Definition rectangle (sizes : list nat) (t : tensor) : tensor :=
  index_copy (replicate (maximum sizes * length sizes) row_zero) (_ragged_plan sizes (maximum sizes)) t.

Lemma rectangle_length sizes (t : tensor) : length (rectangle sizes t) = maximum sizes * length sizes.
Proof. unfold rectangle. by rewrite index_copy_length, length_replicate. Qed.

Lemma rectangle_lookup sizes (t : tensor) i v j :
  length t = sum_list sizes → sizes !! i = Some v → j < v →
  rectangle sizes t !! (i * maximum sizes + j) = t !! (offset sizes i + j).
Proof.
  intros Hl Hi Hj. pose proof (offset_slice _ _ _ Hi). pose proof (elem_le_maximum _ _ (list_elem_of_lookup_2 _ _ _ Hi)).
  pose proof (lookup_lt_Some _ _ _ Hi). destruct (lookup_lt_is_Some_2 t (offset sizes i + j)) as (w & Hw); [lia|].
  rewrite Hw. eapply index_copy_lookup; [|by apply (plan_lookup 0 sizes _ i v)|done|rewrite length_replicate; nia].
  rewrite ragged_plan_from. apply plan_from_nodup, Forall_forall. intros u Hu. by apply elem_le_maximum.
Qed.

(** Narrowing the scattered shard of the padded buffers is slicing the sum of
    the pools. *)
Lemma rectangle_shard sizes (y : nat → tensor) r i v :
  r < n → (∀ r', r' ∈ ranks (grp r) → length (y r') = sum_list sizes) → sizes !! i = Some v →
  take v (chunk (maximum sizes) i (reduce SUM (peers (λ r', rectangle sizes (y r')) r))) =
  take v (drop (offset sizes i) (reduce SUM (peers y r))).
Proof.
  intros Hr Hy Hi. pose proof (elem_le_maximum _ _ (list_elem_of_lookup_2 _ _ _ Hi)) as Hm.
  pose proof (lookup_lt_Some _ _ _ Hi) as Hlen. pose proof (offset_slice _ _ _ Hi) as Ho.
  apply list_eq. intros j. destruct (decide (j < v)) as [Hj|Hj]; [|by rewrite !lookup_take_ge by lia].
  rewrite !lookup_take_lt by done. rewrite chunk_lookup, decide_True by lia. rewrite lookup_drop.
  rewrite (reduce_lookup _ (maximum sizes * length sizes)).
  - rewrite (reduce_lookup _ (sum_list sizes)); [|by apply Forall_fmap, Forall_forall|lia].
    f_equal. apply omap_peers. intros r' Hr'. cbv beta. apply (rectangle_lookup _ _ _ v); auto.
  - apply Forall_fmap, Forall_forall. intros r' _. apply rectangle_length.
  - nia.
Qed.

Lemma reduce_scatterv_slices (y : nat → tensor) (sizes : nat → list nat) (own : nat → nat) :
  (∀ r, r < n → length (sizes r) = size ∧ length (y r) = sum_list (sizes r) ∧
        sizes r !! group_rank (grp r) r = Some (own r)) →
  (∀ r r', r < n → r' ∈ ranks (grp r) → sizes r' = sizes r) →
  spmd n (λ r, reduce_scatterv (G r) (y r) (sizes r) (Some (grp r)))
         (λ r, take (own r) (drop (offset (sizes r) (group_rank (grp r) r)) (reduce SUM (peers y r)))).
Proof.
  intros Hok Hgrp. destruct (Nat.leb_spec size 1) as [Hs|Hs].
  { eapply spmd_ext; [| |apply (spmd_ret wire n y)]; intros r Hr.
    - unfold reduce_scatterv. rewrite Hsize by done. apply Nat.leb_le in Hs. by rewrite Hs.
    - destruct (Hok r Hr) as (Hl & Hy & Ho). rewrite peers_single by (done || by rewrite Hsize). cbn [reduce foldl].
      destruct (sizes r) as [|v [|? ?]]; [by rewrite lookup_nil in Ho| |cbn in Hl; lia].
      destruct (group_rank (grp r) r) as [|i]; [|done]. injection Ho as ->. cbn in Hy |- *.
      rewrite drop_0. by rewrite take_ge by lia. }
  set (buf := λ r, if one_value (sizes r) then y r else rectangle (sizes r) (y r)).
  set (first := λ ys : list tensor, match ys with [] => Raise RuntimeError | t :: _ => Ret t end : @prog tensor tensor).
  set (k := λ r, if one_value (sizes r) then first
    else (λ ys, first ys ≫= λ shard, own ← lift (item (sizes r) (group_rank (grp r) r)); Ret (take own shard))).
  set (m := λ r, if one_value (sizes r) then own r else maximum (sizes r)).
  apply (spmd_ext wire n (λ r, Call (grp r) ReduceScatter (buf r) (k r)) _
    (λ r, take (own r) (drop (offset (sizes r) (group_rank (grp r) r)) (reduce SUM (peers y r))))); [|done|].
  - intros r Hr. destruct (Hok r Hr) as (Hl & Hy & Ho). unfold reduce_scatterv. rewrite Hsize by done.
    pose proof Hs as ->%Nat.leb_gt. rewrite Hme by done.
    rewrite (bool_decide_eq_true_2 (length (sizes r) = _)) by done.
    rewrite (bool_decide_eq_true_2 (length (y r) = _)) by done. cbn [pguard mbind prog_bind].
    unfold buf, k. destruct (one_value (sizes r)) eqn:E.
    + unfold reduce_scatter, _world_of_one, _resolve, group_or_world. rewrite Hsize by done.
      pose proof Hs as ->%Nat.leb_gt. cbn [default from_option]. unfold id. rewrite Hsize by done.
      rewrite bool_decide_eq_true_2; [done|]. rewrite Hy.
      pose proof (one_value_all _ _ E (list_elem_of_lookup_2 _ _ _ Ho)) as Hall.
      rewrite (sum_constant _ _ Hall), Hl, Nat.mul_comm. apply Nat.Div0.mod_mul.
    + unfold rectangle. by rewrite Hl.
  - assert (∀ r r', r < n → r' ∈ ranks (grp r) → length (sizes r') = size ∧ length (y r') = sum_list (sizes r) ∧
              length (buf r') = m r * size ∧ m r' = m r) as Hgroup.
    { intros r r' Hr Hr'. destruct (family_peer _ _ Hfam r r' Hr Hr') as (Hn & _).
      destruct (Hok r Hr) as (Hl & _ & Ho). destruct (Hok r' Hn) as (Hl' & Hy' & Ho').
      rewrite (Hgrp r r') in Hl', Hy', Ho' by done. rewrite (Hgrp r r') by done. split; [done|]. split; [done|].
      unfold buf, m. rewrite (Hgrp r r') by done. destruct (one_value (sizes r)) eqn:E.
      - pose proof (one_value_all _ _ E (list_elem_of_lookup_2 _ _ _ Ho)) as Hall.
        rewrite Hy', (sum_constant _ _ Hall). split; [lia|].
        rewrite Forall_forall in Hall. by apply Hall, (list_elem_of_lookup_2 _ _ _ Ho').
      - by rewrite rectangle_length, Hl'. }
    eapply (spmd_indexed _ buf (λ r i, [chunk (m r) i (reduce SUM (peers buf r))])).
    + intros r Hr. apply wire_reduce_scatter. apply Forall_fmap, Forall_forall. intros r' Hr'. cbn.
      rewrite peers_length, Hsize by done. by apply Hgroup.
    + intros r r' i Hr Hr'. rewrite (peers_group buf r r') by done. by rewrite (proj2 (proj2 (proj2 (Hgroup r r' Hr Hr')))).
    + eapply spmd_ext; [|reflexivity|apply (spmd_ret wire n)]. intros r Hr. cbv beta.
      destruct (Hok r Hr) as (Hl & Hy & Ho). unfold k, m.
      assert (∀ r', r' ∈ ranks (grp r) → buf r' = if one_value (sizes r) then y r' else rectangle (sizes r) (y r')) as Hbuf.
      { intros r' Hr'. unfold buf. by rewrite (Hgrp r r'). }
      destruct (one_value (sizes r)) eqn:E.
      * f_equal. pose proof (one_value_all _ _ E (list_elem_of_lookup_2 _ _ _ Ho)) as Hall.
        rewrite (offset_constant _ _ _ Hall) by (apply lookup_lt_Some in Ho; lia). unfold chunk.
        by rewrite (peers_ext buf y r).
      * cbn [mbind prog_bind]. rewrite (item_Ok _ _ (own r)) by done. cbn [lift mbind prog_bind]. f_equal.
        rewrite (peers_ext buf (λ r', rectangle (sizes r) (y r')) r) by done.
        unfold first. cbn [mbind prog_bind]. f_equal. symmetry. apply rectangle_shard; [done| |done]. intros r' Hr'. by apply Hgroup.
Qed.
End calls.
End CollectiveSpec.
