(* ===== verification/DPAttention.v ===== *)
(** DP attention ([distributed/dp_attention.py]): the handshake that agrees how
    many tokens every rank brings to a step, and the exchanges that pool them.

    What travels between ranks is a row of some tensor; [row] tells the kinds
    of tensors of a step apart, so that a collective works on all of them. *)

From S2P Require Import Prelude Spmd Topology ParallelState Collectives.

Module DPAttention.
Import Spmd ParallelState Collectives.

(** ** What crosses the wire *)

(** The arithmetic of the model in exact numbers: hidden states add
    commutatively, routing weights scale them.  Rounding is not modelled. *)
Class HiddenOps (H W : Type) := {
  hzero : H;
  hadd : H → H → H;
  scale : W → H → H;
  one : W;
}.

Class HiddenLaws (H W : Type) `{!HiddenOps H W} := {
  hadd_assoc : ∀ a b c : H, hadd a (hadd b c) = hadd (hadd a b) c;
  hadd_comm : ∀ a b : H, hadd a b = hadd b a;
  hadd_zero : ∀ a : H, hadd hzero a = a;
  scale_add : ∀ (w : W) (a b : H), scale w (hadd a b) = hadd (scale w a) (scale w b);
  scale_zero : ∀ w : W, scale w hzero = (hzero : H);
  scale_one : ∀ a : H, scale one a = a;
}.

Section dp_attention.
Context {H W : Type} `{!HiddenOps H W}.

Inductive row :=
  | RZero                        (* a row of padding *)
  | RHidden (h : H)              (* hidden states *)
  | RWeights (ws : list W)       (* routing weights of a token *)
  | RIds (ids : list Z)          (* routed expert ids of a token *)
  | RCount (n : nat)             (* an integer of the handshake *)
  | RSlot (h : H) (id : Z).      (* a routing slot: hidden states and expert id *)

#[global] Instance row_ops : RowOps row := {|
  row_zero := RZero;
  row_reduce op a b :=
    match a, b with
    | RZero, b => b
    | a, RZero => a
    | RHidden a, RHidden b => RHidden (hadd a b)
    | RCount a, RCount b => RCount (match op with SUM => a + b | MAX => max a b | MIN => min a b end)
    | a, _ => a
    end |}.

Notation tensor := (list row).
Notation prog := (@prog tensor).

(** Reading a received tensor back at its type; padding reads as zeros. *)
Definition hidden_of (v : row) : result H :=
  match v with RHidden h => Ok h | RZero => Ok hzero | _ => Err TypeError end.
Definition weights_of (v : row) : result (list W) :=
  match v with RWeights ws => Ok ws | _ => Err TypeError end.
Definition ids_of (v : row) : result (list Z) :=
  match v with RIds ids => Ok ids | _ => Err TypeError end.
Definition count_of (v : row) : result nat :=
  match v with RCount n => Ok n | _ => Err TypeError end.

(** ** The geometry of a step *)

Record DPMetadata := MkMetadata { num_tokens_across_dp : list nat; rank : nat }.

Section metadata.
Context (m : DPMetadata).
Definition world_size : nat := length (num_tokens_across_dp m).
Definition local_tokens : result nat := item (num_tokens_across_dp m) (rank m).
Definition uniform : bool := one_value (num_tokens_across_dp m).
Definition padded_tokens : nat := maximum (num_tokens_across_dp m).
Definition total_tokens : nat := sum_list (num_tokens_across_dp m).
Definition local_offset : nat := sum_list (take (rank m) (num_tokens_across_dp m)).
Definition padded_offset : nat := rank m * padded_tokens.
End metadata.

Section on_rank.
Context (payload : tensor → nat) (s : grid).

(** [coordinate_tokens_across_dp]: one integer per rank over the CPU group. *)
Definition coordinate_tokens_across_dp (num_tokens : nat) : prog DPMetadata :=
  gathered ← data_parallel_all_gather s (_DP_CPU_GROUP s) [RCount num_tokens];
  across ← lift (rmap count_of gathered);
  _ ← pguard (bool_decide (length across = _DP_WORLD_SIZE s)) RuntimeError;
  Ret (MkMetadata across (_DP_RANK s)).

(** [coordinate_forward_count_across_dp] *)
Definition coordinate_forward_count_across_dp (local_count : nat) : prog nat :=
  if negb (_DP_ATTENTION s) then Ret local_count
  else
    gathered ← data_parallel_all_gather s (_DP_CPU_GROUP s) [RCount local_count];
    counts ← lift (rmap count_of gathered);
    Ret (maximum counts).

(** [dp_attention_region]: the metadata the body of the region sees. *)
Definition dp_attention_region (sequence_parallel : bool) (num_tokens : nat) : prog (option DPMetadata) :=
  if negb (_DP_ATTENTION s) then Ret None
  else
    _ ← pguard (negb sequence_parallel) RuntimeError;
    m ← coordinate_tokens_across_dp num_tokens;
    Ret (Some m).

(** [dp_gather]: the padded rectangle. *)
Definition dp_gather (x : list H) (m : DPMetadata) : prog (list H) :=
  local ← lift (local_tokens m);
  _ ← pguard (bool_decide (length x = local)) ValueError;
  let padded := padded_tokens m in
  let x := RHidden <$> x in
  let x := if decide (length x = padded) then x else pad_rows padded x in
  pool ← data_parallel_all_gather s None x;
  lift (rmap hidden_of pool).

(** [dp_scatter]: this rank's slice of the rectangle. *)
Definition dp_scatter (x : list H) (m : DPMetadata) : result (list H) :=
  local ← local_tokens m;
  Ok (take local (drop (padded_offset m) x)).

(** [dp_dispatch]: hidden states and routing pooled together, ragged. *)
Definition dp_dispatch (x : list H) (topk_weights : list (list W)) (topk_ids : list (list Z)) (m : DPMetadata) :
    prog (list H * list (list W) * list (list Z)) :=
  local ← lift (local_tokens m);
  _ ← pguard (bool_decide (length x = local)) ValueError;
  pools ← all_gatherv s [RHidden <$> x; RWeights <$> topk_weights; RIds <$> topk_ids]
            (Some (num_tokens_across_dp m)) (_DP_GROUP s);
  match pools with
  | [px; pw; pi] =>
      px ← lift (rmap hidden_of px); pw ← lift (rmap weights_of pw); pi ← lift (rmap ids_of pi);
      Ret (px, pw, pi)
  | _ => Raise ValueError
  end.

(** [dp_combine]: the pool's expert output, summed, this rank's rows. *)
Definition dp_combine (pooled_out : list H) (m : DPMetadata) : prog (list H) :=
  out ← reduce_scatterv s (RHidden <$> pooled_out) (num_tokens_across_dp m) (_DP_GROUP s);
  out ← (if 1 <? _TP_WORLD_SIZE s then tensor_model_parallel_all_reduce payload s out else Ret out);
  lift (rmap hidden_of out).
End on_rank.
End dp_attention.
End DPAttention.
