(* ===== verification/MoE.v ===== *)
(** The routed expert stage ([modules/moe/layer.py], the dispatchers of
    [modules/moe/token_dispatcher], [modules/moe/utils.py], the grouped expert
    computation of [kernels/backend/cpu.py] and the placement kernels of
    [kernels/ops/moe/ep_dispatch.py]).

    An expert is the function its gated MLP applies to a row of hidden states;
    a rank holds a window of the model's experts, or a slice of every expert.
    Tokens reach the experts of other ranks through a ragged pool (AgRs) or an
    all-to-all exchange of routing slots. *)

From S2P Require Import Prelude Spmd Topology ParallelState Collectives DPAttention.

Module MoE.
Import Spmd ParallelState Collectives DPAttention.

Inductive MoeA2ABackend := NONE | ALL_TO_ALL | ALLGATHER_REDUCESCATTER.

#[global] Instance backend_eq_dec : EqDecision MoeA2ABackend.
Proof. solve_decision. Defined.

(** [get_moe_a2a_backend]; [env] is [RAPID_MOE_A2A_BACKEND]. *)
Definition get_moe_a2a_backend (s : grid) (env : option string) : MoeA2ABackend :=
  if negb (_EP_ENABLED s && (1 <? _EP_WORLD_SIZE s)) then NONE
  else if negb (_DP_ATTENTION s) then ALL_TO_ALL
  else if bool_decide (env = Some "all_to_all"%string) then ALL_TO_ALL
  else ALLGATHER_REDUCESCATTER.

(** The placement [SparseMoeBlock.__init__] fixes. *)
Record placement := Placement {
  num_experts : nat;
  num_local_experts : nat;
  expert_offset : nat;
  moe_intermediate_size : nat;
  a2a_backend : MoeA2ABackend;
}.

Definition SparseMoeBlock_init (s : grid) (env : option string) (experts intermediate : nat) : result placement :=
  let ep_enabled := _EP_ENABLED s && (1 <? _EP_WORLD_SIZE s) in
  '(num_local, offset, width) ←
    (if ep_enabled
     then num_local ← divide experts (_EP_WORLD_SIZE s);
          Ok (num_local, _EP_RANK s * num_local, intermediate)
     else width ← divide intermediate (_TP_WORLD_SIZE s);
          Ok (experts, 0, width));
  let backend := get_moe_a2a_backend s env in
  (* [AllToAllDispatcher.__init__] *)
  _ ← (if decide (backend = ALL_TO_ALL)
       then _ ← rguard (bool_decide (num_local ≠ 0)) ZeroDivisionError;
            rguard (bool_decide (experts mod num_local = 0)) ValueError
       else Ok tt);
  Ok (Placement experts num_local offset width backend).

Section moe.
Context {H W : Type} `{!HiddenOps H W}.
Notation row := (@row H W).
Notation tensor := (list row).
Notation prog := (@prog tensor).
Implicit Types (x out : list H) (weights : list (list W)) (ids : list (list Z)).

(** ** The experts of one rank *)

(** [torch.where(ids == e)]: row and column of every match, row by row. *)
Definition where_eq ids (e : Z) : list (nat * nat) :=
  concat (imap (λ r choices,
    omap (λ '(c, id), if bool_decide (id = e) then Some (r, c) else None) (imap pair choices)) ids).

(** [out.index_add_(0, rows, values)] *)
Definition index_add out (rows : list nat) (values : list H) : result (list H) :=
  rfold (λ '(r, v) out, o ← item out r; Ok (<[r := hadd o v]> out)) (zip rows values) out.

(** [_fused_moe]: the rows routed to each local expert, scaled and added up. *)
Definition _fused_moe (experts : list (H → H)) (hidden_states : list H) weights ids : result (list H) :=
  rfold (λ expert out,
    let picked := where_eq ids (Z.of_nat expert) in
    if decide (picked = []) then Ok out
    else
      f ← item experts expert;
      values ← rmap (λ '(r, c),
        h ← item hidden_states r; ws ← item weights r; w ← item ws c; Ok (scale w (f h))) picked;
      index_add out (picked.*1) values) (seq 0 (length experts)) (replicate (length hidden_states) hzero).

(** The rank's experts in the numbering of the model: rebased to the window,
    -1 outside it ([ep_local_ids], and its CPU chain). *)
Definition ep_local_id (offset num_local : nat) (id : Z) : Z :=
  let local := (id - Z.of_nat offset)%Z in
  if ((0 <=? local) && (local <? Z.of_nat num_local))%Z then local else (-1)%Z.

(** ** The all-to-all dispatcher *)

Record AllToAllDispatcher := MkDispatcher {
  d_num_experts : nat;
  d_num_local : nat;
  d_offset : nat;
  (** [ceil(n / ep_size * capacity_factor)] in floating point, if a factor is set *)
  capacity : option (nat → nat → nat);
  capacity_slack : nat;
  _fused : bool;
  strict : bool;  (** [RAPID_EP_CAPACITY_STRICT=1] *)
}.

Record DispatchHandle := MkHandle {
  h_rows : nat;
  h_top_k : nat;
  h_cap : nat;
  h_ep_size : nat;
  h_order : option (list nat);
  h_send_pos : list nat;
  h_flat_weights : list W;
  h_recv : tensor;
  h_recv_out : option tensor;
}.

(** The device a call runs on: whether it is a GPU with a contiguous batch,
    whether a graph is being captured, the order in which the atomic tickets of
    a placement kernel are drawn, and what an uninitialised buffer holds. *)
Record device := MkDevice {
  cuda : bool;
  capturing : bool;
  arrival : nat → list nat;
  junk : nat → H * Z;
}.

(** [torch.sort(dest, stable=True)]: the permutation. *)
Fixpoint insert_stable (key : nat → Z) (i : nat) (l : list nat) : list nat :=
  match l with
  | [] => [i]
  | j :: l' => if (key i <? key j)%Z then i :: l else j :: insert_stable key i l'
  end.

Definition stable_order (dest : list Z) : list nat :=
  let key i := nth i dest 0%Z in
  foldl (λ l i, insert_stable key i l) [] (seq 0 (length dest)).

(** [torch.searchsorted(sorted, v, side="left")] *)
Definition searchsorted (sorted : list Z) (v : Z) : nat := length (filter (λ u, (u < v)%Z) sorted).

(** [buffer[positions] = values] *)
Definition index_put (buffer : tensor) (positions : list nat) (values : tensor) : result tensor :=
  rfold (λ '(p, v) buffer, _ ← item buffer p; Ok (<[p := v]> buffer)) (zip positions values) buffer.

(** The sorted placement: where each sorted slot goes, slots past the cap to
    the trash row [buf]. *)
Definition sorted_placement (num_local cap buf : nat) (flat_ids : list Z) : list nat * list nat * list bool :=
  let dest := (λ id, id / Z.of_nat num_local)%Z <$> flat_ids in
  let order := stable_order dest in
  let sorted_dest := (λ i, nth i dest 0%Z) <$> order in
  let pos_in_seg := imap (λ i v, i - searchsorted sorted_dest v) sorted_dest in
  let keep := (λ p, p <? cap) <$> pos_in_seg in
  (order,
   zip_with (λ v p, if p <? cap then Z.to_nat v * cap + p else buf) sorted_dest pos_in_seg,
   keep).

(** [_ep_prep_kernel]: the counters cleared, every row of the payload stamped
    as padding. *)
Definition _ep_prep_kernel (ep_size : nat) (payload : tensor) : list nat * tensor :=
  (replicate ep_size 0, (λ v, match v with RSlot h _ => RSlot h (-1) | v => v end) <$> payload).

(** [_ep_place_scatter_kernel], the program of one slot: a ticket of its
    destination gives the row, which takes the token and the expert id. *)
Definition _ep_place_scatter_kernel (num_local cap top_k : nat) (x : list H) (flat_ids : list Z) (slot : nat)
    (state : list nat * list nat * tensor) : result (list nat * list nat * tensor) :=
  let '(counters, send_pos, payload) := state in
  eid ← item flat_ids slot;
  let dest := Z.to_nat (Z.quot eid (Z.of_nat num_local)) in
  pos ← item counters dest;
  let sp := dest * cap + pos in
  _ ← item send_pos slot;
  h ← item x (slot / top_k);
  _ ← item payload sp;
  Ok (<[dest := S pos]> counters, <[slot := sp]> send_pos, <[sp := RSlot h eid]> payload).

(** [ep_dispatch_place]; [slots] is the order in which the programs draw their
    tickets.  The row width [payload_x.numel() // buf] divides by the size of
    the buffer, which is 0 for a batch without slots. *)
Definition ep_dispatch_place (num_local cap ep_size : nat) (slots : list nat) (x : list H)
    (top_k : nat) (flat_ids : list Z) (payload : tensor) : result (list nat * tensor) :=
  _ ← rguard (ep_size <=? 32) ValueError;
  let '(counters, payload) := _ep_prep_kernel ep_size payload in
  _ ← rguard (bool_decide (ep_size * cap ≠ 0)) ZeroDivisionError;
  '(_, send_pos, payload) ← rfold (_ep_place_scatter_kernel num_local cap top_k x flat_ids) slots
    (counters, replicate (length flat_ids) 0, payload);
  Ok (send_pos, payload).

Definition slot_of (v : row) : result (H * Z) := match v with RSlot h id => Ok (h, id) | _ => Err TypeError end.

Section on_rank.
Context (s : grid) (dev : device).

(** [CommStreamPool.all_to_all_async] *)
Definition exchange (g : option group) (x : tensor) : prog tensor :=
  match (match g with None => _TP_GROUP s | Some g => Some g end) with
  | None => Ret x
  | Some g => if group_size g <=? 1 then Ret x else call1 g AllToAll x
  end.

Definition get_ep_group : option group := if _EP_ENABLED s then _EP_GROUP s else None.
Definition _ep_size (g : option group) : nat := match g with None => 1 | Some g => group_size g end.

Section dispatcher.
Context (d : AllToAllDispatcher).

(** The receive capacity of each destination. *)
Definition dispatch_cap (n ep_size : nat) : nat :=
  match capacity d with
  | None => n
  | Some ceil => min n (ceil n ep_size + capacity_slack d)
  end.

Definition _detect_overflow (keep : list bool) (cap n : nat) : result unit :=
  rguard (negb (strict d) || (n <=? cap) || (cuda dev && capturing dev) || forallb id keep) RuntimeError.

(** The send buffer and where the slots are in it; [k] is the width of the routing. *)
Definition fill_payload (x : list H) (k : nat) (flat_ids : list Z) (cap ep_size : nat) :
    result (option (list nat) * list nat * tensor) :=
  let buf := ep_size * cap in
  if _fused d && bool_decide (capacity d = None) && (ep_size <=? 32) && cuda dev
  then
    '(send_pos, payload) ← ep_dispatch_place (d_num_local d) cap ep_size (arrival dev (length flat_ids)) x k flat_ids
                             ((λ i, RSlot (junk dev i).1 (junk dev i).2) <$> seq 0 buf);
    Ok (None, send_pos, payload)
  else
    let '(order, send_pos, keep) := sorted_placement (d_num_local d) cap buf flat_ids in
    _ ← _detect_overflow keep cap (length flat_ids);
    values ← rmap (λ i, h ← item x (i / k); id ← item flat_ids i; Ok (RSlot h id)) order;
    payload ← index_put (replicate (buf + 1) (RSlot hzero 0)) send_pos values;
    Ok (Some order, send_pos, take buf payload).

Definition dispatch_a (x : list H) (k : nat) ids weights : prog DispatchHandle :=
  _ ← pguard (bool_decide (length <$> weights = length <$> ids)) ValueError;
  _ ← pguard (bool_decide (length ids = length x)) ValueError;
  let flat_ids := concat ids in
  _ ← pguard (cuda dev || forallb (λ id, (0 <=? id) && (id <? Z.of_nat (d_num_experts d)))%Z flat_ids) ValueError;
  let rows := length x in
  let n := rows * k in
  let ep_size := _ep_size get_ep_group in
  _ ← pguard (bool_decide (ep_size * d_num_local d = d_num_experts d)) ValueError;
  let cap := dispatch_cap n ep_size in
  '(order, send_pos, payload) ← lift (fill_payload x k flat_ids cap ep_size);
  recv ← exchange get_ep_group payload;
  Ret (MkHandle rows k cap ep_size order send_pos (concat weights) recv None).

Definition dispatch_b (handle : DispatchHandle) : result (list H * list (list Z) * list (list W)) :=
  slots ← rmap slot_of (h_recv handle);
  Ok (slots.*1,
      (λ '(_, id), [ep_local_id (d_offset d) (d_num_local d) id]) <$> slots,
      (λ _, [one]) <$> slots).

Definition combine_a (handle : DispatchHandle) (local_out : list H) : prog DispatchHandle :=
  recv_out ← exchange get_ep_group (RHidden <$> local_out);
  Ret (MkHandle (h_rows handle) (h_top_k handle) (h_cap handle) (h_ep_size handle) (h_order handle)
         (h_send_pos handle) (h_flat_weights handle) (h_recv handle) (Some recv_out)).

(** [weighted.view(rows, top_k, -1).sum(dim=1)]; torch cannot infer the -1 of a
    view without elements. *)
Definition hsum (l : list H) : H := foldr hadd hzero l.
Definition sum_slots (rows top_k : nat) (weighted : list H) : list H :=
  (λ t, hsum (take top_k (drop (t * top_k) weighted))) <$> seq 0 rows.

(** [ep_combine]: the slots of a token gathered by their own positions. *)
Definition ep_combine (recv_out : list H) (send_pos : list nat) (flat_weights : list W) (rows top_k : nat) :
    result (list H) :=
  results ← rmap (item recv_out) send_pos;
  Ok (sum_slots rows top_k (zip_with scale flat_weights results)).

(** [results_flat[order] = results_sorted] on an uninitialised tensor. *)
Definition unpermute (order : list nat) (sorted : list H) : result (list H) :=
  rfold (λ '(p, v) buffer, _ ← item buffer p; Ok (<[p := v]> buffer)) (zip order sorted)
    ((λ i, (junk dev i).1) <$> seq 0 (length sorted)).

Definition combine_b (handle : DispatchHandle) : result (list H) :=
  match h_recv_out handle with
  | None => Err AssertionError
  | Some recv_out =>
      recv_out ← rmap hidden_of recv_out;
      match h_order handle with
      | None => ep_combine recv_out (h_send_pos handle) (h_flat_weights handle) (h_rows handle) (h_top_k handle)
      | Some order =>
          results_sorted ← rmap (item (recv_out ++ [hzero])) (h_send_pos handle);
          results_flat ← unpermute order results_sorted;
          _ ← rguard (bool_decide (h_rows handle * h_top_k handle ≠ 0)) RuntimeError;
          Ok (sum_slots (h_rows handle) (h_top_k handle) (zip_with scale (h_flat_weights handle) results_flat))
      end
  end.

Definition combine (handle : DispatchHandle) (local_out : list H) : prog (list H) :=
  handle ← combine_a handle local_out;
  lift (combine_b handle).
End dispatcher.

(** ** The block *)

Section block.
Context (payload : tensor → nat).
(** The rank's experts, the router, row by row, and the rank's partial sum of
    the shared expert, whose down projection is reduced over the TP group. *)
Context (p : placement) (experts : list (H → H)) (top_k : nat) (d : AllToAllDispatcher).
Context (_route : H → list W * list Z) (shared_partial : option (H → H)).

(** [ColumnParallelLinear] into [RowParallelLinear]: the partial sums of the
    ranks' slices of the intermediate dimension, reduced. *)
Definition FusedMLP (partial : H → H) (x : list H) : prog (list H) :=
  out ← tensor_model_parallel_all_reduce payload s (RHidden ∘ partial <$> x);
  lift (rmap hidden_of out).

Definition shared_experts (x : list H) : prog (option (list H)) :=
  match shared_partial with
  | None => Ret None
  | Some partial => out ← FusedMLP partial x; Ret (Some out)
  end.

Definition _forward_dp_attention_agrs (x : list H) (metadata : DPMetadata) : prog (list H * option (list H)) :=
  let routed := _route <$> x in
  '(pool_x, pool_weights, pool_ids) ← dp_dispatch s x (routed.*1) (routed.*2) metadata;
  let local_ids := (λ l : list Z, ep_local_id (expert_offset p) (num_local_experts p) <$> l) <$> pool_ids in
  out ← lift (_fused_moe experts pool_x pool_weights local_ids);
  routed ← dp_combine payload s out metadata;
  shared ← shared_experts x;
  Ret (routed, shared).

(** [dispatch], the local experts, [combine]. *)
Definition expert_round_trip (x : list H) ids weights : prog (list H) :=
  handle ← dispatch_a d x top_k ids weights;
  '(local_x, local_ids, local_weights) ← lift (dispatch_b d handle);
  local_out ← lift (_fused_moe experts local_x local_weights local_ids);
  combine handle local_out.

Definition _forward_dp_attention_a2a (x : list H) (metadata : DPMetadata) : prog (list H * option (list H)) :=
  pooled ← dp_gather s x metadata;
  let routed := _route <$> pooled in
  routed ← expert_round_trip pooled (routed.*2) (routed.*1);
  shared ← shared_experts x;
  out ← lift (dp_scatter routed metadata);
  Ret (out, shared).

(** Without overlap the shared expert runs after both exchanges; with it, the
    shared expert's own stream runs it between them. *)
Definition _forward_ep (overlap : bool) (x : list H) ids weights : prog (list H * option (list H)) :=
  if negb (cuda dev) || bool_decide (shared_partial = None) || negb overlap
  then
    out ← expert_round_trip x ids weights;
    shared ← shared_experts x;
    Ret (out, shared)
  else
    handle ← dispatch_a d x top_k ids weights;
    shared ← shared_experts x;
    '(local_x, local_ids, local_weights) ← lift (dispatch_b d handle);
    local_out ← lift (_fused_moe experts local_x local_weights local_ids);
    handle ← combine_a handle local_out;
    out ← lift (combine_b handle);
    Ret (out, shared).

(** [SparseMoeBlock.forward] *)
Definition forward (overlap : bool) (metadata : option DPMetadata) (x : list H) : prog (list H) :=
  '(out, shared) ←
    match a2a_backend p, metadata with
    | ALLGATHER_REDUCESCATTER, None => Raise RuntimeError
    | ALLGATHER_REDUCESCATTER, Some m => _forward_dp_attention_agrs x m
    | ALL_TO_ALL, Some m => _forward_dp_attention_a2a x m
    | ALL_TO_ALL, None =>
        let routed := _route <$> x in
        _forward_ep overlap x (routed.*2) (routed.*1)
    | NONE, _ =>
        let routed := _route <$> x in
        out ← lift (_fused_moe experts x (routed.*1) (routed.*2));
        out ← tensor_model_parallel_all_reduce payload s (RHidden <$> out);
        out ← lift (rmap hidden_of out);
        shared ← shared_experts x;
        Ret (out, shared)
    end;
  Ret (match shared with None => out | Some shared => zip_with hadd out shared end).
End block.
End on_rank.
End moe.
End MoE.
