(* ===== verification/ExpertSum.v ===== *)
(** Sums of hidden states, and what the grouped expert computation adds up:
    every row receives the scaled outputs of exactly the local experts its
    routing names. *)

From S2P Require Import Prelude Spmd Topology ParallelState Collectives DPAttention MoE.

Module ExpertSum.
Import DPAttention MoE.

Section sums.
Context {H W : Type} `{!HiddenOps H W, !HiddenLaws H W}.
Implicit Types (l : list H) (E : list (H → H)) (ws : list W) (ids : list Z).

Lemma hadd_zero_r (a : H) : hadd a hzero = a.
Proof. by rewrite hadd_comm, hadd_zero. Qed.

Lemma hsum_cons a l : hsum (a :: l) = hadd a (hsum l).
Proof. done. Qed.

Lemma hsum_app l1 l2 : hsum (l1 ++ l2) = hadd (hsum l1) (hsum l2).
Proof. induction l1 as [|a l1 IH]; cbn [app]; [symmetry; apply hadd_zero|]. by rewrite !hsum_cons, IH, hadd_assoc. Qed.

Lemma hsum_perm l1 l2 : l1 ≡ₚ l2 → hsum l1 = hsum l2.
Proof.
  induction 1 as [|a l1 l2 _ IH|a b l|l1 l2 l3 _ IH1 _ IH2]; [done| | |congruence]; rewrite !hsum_cons; [by rewrite IH|].
  by rewrite !hadd_assoc, (hadd_comm a b).
Qed.

Lemma hsum_zeros l : Forall (.= hzero) l → hsum l = hzero.
Proof. induction 1 as [|a l -> _ IH]; [done|]. by rewrite hsum_cons, IH, hadd_zero. Qed.

Lemma hsum_foldl a l : foldl hadd a l = hadd a (hsum l).
Proof. revert a. induction l as [|b l IH]; intros a; cbn [foldl]; [symmetry; apply hadd_zero_r|]. by rewrite IH, hsum_cons, hadd_assoc. Qed.

Lemma hsum_bind {A B} (f : B → H) (g : A → list B) (l : list A) :
  hsum (f <$> (l ≫= g)) = hsum ((λ a, hsum (f <$> g a)) <$> l).
Proof.
  induction l as [|a l IH]; [done|]. cbn [mbind list_bind fmap list_fmap]. rewrite hsum_cons, <- IH.
  change (hsum (f <$> (g a ++ (l ≫= g))) = hadd (hsum (f <$> g a)) (hsum (f <$> (l ≫= g)))).
  by rewrite fmap_app, hsum_app.
Qed.

Lemma hsum_add {A} (f g : A → H) (xs : list A) :
  hsum ((λ a, hadd (f a) (g a)) <$> xs) = hadd (hsum (f <$> xs)) (hsum (g <$> xs)).
Proof.
  induction xs as [|x xs IH]; cbn [fmap list_fmap]; [symmetry; apply hadd_zero|]. rewrite !hsum_cons, IH, !hadd_assoc. f_equal.
  rewrite <- !hadd_assoc. f_equal. apply hadd_comm.
Qed.

Lemma hsum_swap {A B} (f : A → B → H) (xs : list A) (ys : list B) :
  hsum ((λ a, hsum (f a <$> ys)) <$> xs) = hsum ((λ b, hsum ((λ a, f a b) <$> xs)) <$> ys).
Proof.
  induction xs as [|x xs IH]; cbn [fmap list_fmap].
  - symmetry. apply hsum_zeros, Forall_fmap, Forall_forall. done.
  - rewrite hsum_cons, IH. symmetry. exact (hsum_add (f x) (λ b, hsum ((λ a, f a b) <$> xs)) ys).
Qed.

(** Only one term of a sum is not zero. *)
Lemma hsum_single {A} (f : A → H) (xs : list A) i a :
  xs !! i = Some a → (∀ j b, xs !! j = Some b → j ≠ i → f b = hzero) → hsum (f <$> xs) = f a.
Proof.
  revert i. induction xs as [|x xs IH]; intros i Hi Hf; [done|]. cbn [fmap list_fmap]. rewrite hsum_cons. destruct i as [|i].
  - injection Hi as ->. rewrite hsum_zeros; [apply hadd_zero_r|].
    apply Forall_fmap, Forall_forall. intros b (j & Hj)%list_elem_of_lookup_1. by apply (Hf (S j) b).
  - rewrite (Hf 0 x) by done. rewrite hadd_zero. apply (IH i); [done|].
    intros j b Hj Hne. apply (Hf (S j) b); [done|lia].
Qed.

Lemma hsum_scale {A} (w : W) (f : A → H) (xs : list A) : hsum ((λ a, scale w (f a)) <$> xs) = scale w (hsum (f <$> xs)).
Proof. induction xs as [|x xs IH]; cbn [fmap list_fmap]; [symmetry; apply scale_zero|]. by rewrite !hsum_cons, IH, scale_add. Qed.

(** ** One token *)

(** A routing slot: the weighted output of the expert it names, nothing when
    no expert of [E] has that number. *)
Definition expert E (id : Z) (h : H) : H :=
  if (0 <=? id)%Z then match E !! Z.to_nat id with Some f => f h | None => hzero end else hzero.

(** What a token gathers from the experts [E]. *)
Definition routed E (h : H) ws ids : H := hsum (zip_with (λ w id, scale w (expert E id h)) ws ids).

Lemma routed_none E h ws ids : Forall (λ id, ∀ h, expert E id h = hzero) ids → routed E h ws ids = hzero.
Proof.
  intros Hi. apply hsum_zeros. revert ws. induction Hi as [|id ids Hid _ IH]; intros [|w ws]; try constructor; [|auto].
  by rewrite Hid, scale_zero.
Qed.

Lemma expert_nil id h : expert [] id h = hzero.
Proof. unfold expert. by destruct (0 <=? id)%Z. Qed.

Lemma expert_take_S E m f id h :
  E !! m = Some f → expert (take (S m) E) id h = if decide (id = Z.of_nat m) then f h else expert (take m E) id h.
Proof.
  intros Hf. unfold expert. destruct (Z.leb_spec 0 id) as [H0|H0]; case_decide as Hm; [| |lia|done].
  - subst id. by rewrite Nat2Z.id, lookup_take_lt, Hf by lia.
  - destruct (decide (Z.to_nat id < m)) as [Hlt|Hge]; [by rewrite !lookup_take_lt by lia|].
    by rewrite !lookup_take_ge by lia.
Qed.

(** The outputs of one expert, column by column. *)
Definition picks (f : H → H) (e : Z) (h : H) ws ids : list H :=
  omap (λ '(w, id), if bool_decide (id = e) then Some (scale w (f h)) else None) (zip ws ids).

Lemma routed_take_S E m f h ws ids :
  E !! m = Some f →
  routed (take (S m) E) h ws ids = foldl hadd (routed (take m E) h ws ids) (picks f (Z.of_nat m) h ws ids).
Proof.
  intros Hf. rewrite hsum_foldl. unfold routed, picks.
  revert ids. induction ws as [|w ws IH]; intros [|id ids]; cbn [zip zip_with omap list_omap]; try (symmetry; apply hadd_zero).
  rewrite !hsum_cons, IH, (expert_take_S E m f) by done. destruct (decide (id = Z.of_nat m)) as [->|Hid].
  - rewrite bool_decide_true by done. rewrite hsum_cons. assert (expert (take m E) (Z.of_nat m) h = hzero) as ->.
    { unfold expert. case_match; [|done]. by rewrite Nat2Z.id, lookup_take_ge. }
    rewrite scale_zero, hadd_zero. rewrite !hadd_assoc. f_equal. apply hadd_comm.
  - rewrite bool_decide_false by done. by rewrite hadd_assoc.
Qed.

(** ** The grouped computation *)

Lemma omap_concat {A B} (f : A → option B) (ls : list (list A)) :
  omap f (concat ls) = concat ((λ l : list A, omap f l) <$> ls).
Proof. induction ls as [|l ls IH]; [done|]. cbn. by rewrite omap_app, IH. Qed.

Lemma omap_none {A B} (f : A → option B) (l : list A) : (∀ a, a ∈ l → f a = None) → omap f l = [].
Proof.
  induction l as [|a l IH]; intros Hf; [done|]. cbn. rewrite Hf by left. apply IH. intros b Hb. apply Hf. by right.
Qed.

Lemma omap_map {A B C} (f : B → option C) (g : A → B) (l : list A) : omap f (g <$> l) = omap (λ a, f (g a)) l.
Proof. induction l as [|a l IH]; [done|]. cbn. by rewrite IH. Qed.

Lemma omap_omap {A B C} (f : A → option B) (g : B → option C) (l : list A) :
  omap g (omap f l) = omap (λ a, f a ≫= g) l.
Proof. induction l as [|a l IH]; [done|]. cbn. destruct (f a) as [b|]; cbn; [|done]. by rewrite IH. Qed.

Lemma concat_imap_none {A B} (h : nat → A → list B) (l : list A) : (∀ r b, h r b = []) → concat (imap h l) = [].
Proof. intros Hh. revert h Hh. induction l as [|a l IH]; intros h Hh; [done|]. cbn. rewrite Hh. apply IH. intros r b. apply Hh. Qed.

Lemma concat_imap_one {A B} (h : nat → A → list B) (l : list A) t a :
  l !! t = Some a → (∀ r b, r ≠ t → h r b = []) → concat (imap h l) = h t a.
Proof.
  revert h t. induction l as [|x l IH]; intros h t Ht Hh; [done|]. cbn. destruct t as [|t].
  - injection Ht as ->. rewrite concat_imap_none, app_nil_r; [done|]. intros r b. by apply Hh.
  - rewrite Hh by done. cbn. apply (IH (h ∘ S) t Ht). intros r b Hr. apply Hh. lia.
Qed.

(** The values of a scatter that land on row [t]. *)
Definition at_row {V} (t : nat) (P : list (nat * V)) : list V :=
  omap (λ '(r, v), if decide (r = t) then Some v else None) P.

Lemma index_add_rows (out : list H) (P : list (nat * H)) :
  Forall (λ p, p.1 < length out) P →
  rfold (λ '(r, v) out, o ← item out r; Ok (<[r := hadd o v]> out)) P out =
    Ok (imap (λ t o, foldl hadd o (at_row t P)) out).
Proof.
  revert out. induction P as [|[r v] P IH]; intros out HP.
  { cbn. f_equal. apply list_eq. intros t. rewrite list_lookup_imap. by destruct (out !! t). }
  apply Forall_cons in HP as (Hr & HP). cbn in Hr. cbn [rfold].
  destruct (lookup_lt_is_Some_2 out r Hr) as (o & Ho). rewrite (item_Ok _ _ o Ho). cbn [mbind result_bind].
  rewrite IH; [|by rewrite length_insert]. f_equal. apply list_eq. intros t. rewrite !list_lookup_imap.
  destruct (decide (r = t)) as [<-|Hne].
  - rewrite list_lookup_insert_eq, Ho by done. cbn. by rewrite decide_True.
  - rewrite list_lookup_insert_ne by done. unfold at_row. cbn [omap list_omap]. by rewrite decide_False.
Qed.

(** Of the matches of expert [e], those of row [t] are the ones of its own routing. *)
Lemma where_eq_row {V} (g : nat * nat → V) (ids : list (list Z)) e t row :
  ids !! t = Some row →
  at_row t ((λ p, (p.1, g p)) <$> where_eq ids e) =
    omap (λ '(c, id), if bool_decide (id = e) then Some (g (t, c)) else None) (imap pair row).
Proof.
  intros Ht. unfold at_row, where_eq.
  rewrite omap_map. cbn.
  rewrite omap_concat, fmap_imap. erewrite concat_imap_one; [|exact Ht|]; cbn.
  - rewrite omap_omap. apply list_omap_ext, Forall_Forall2_diag, Forall_forall. intros [c id] _. cbn.
    case_bool_decide; [|done]. cbn. by rewrite decide_True.
  - intros r choices Hr. rewrite omap_omap. apply omap_none. intros [c id] _. cbn.
    case_bool_decide; [|done]. cbn. by rewrite decide_False.
Qed.

Lemma picks_columns (f : H → H) e h ws ids :
  length ws = length ids →
  omap (λ '(c, id), if bool_decide (id = e)
                    then Some (match ws !! c with Some w => scale w (f h) | None => hzero end) else None)
    (imap pair ids) = picks f e h ws ids.
Proof.
  unfold picks. revert ids. induction ws as [|w ws IH]; intros [|id ids] Hl; try done. injection Hl as Hl.
  cbn [imap zip zip_with omap list_omap lookup list_lookup].
  replace (imap (pair ∘ S) ids) with ((λ '(c, id), (S c, id)) <$> imap (pair (B := Z)) ids).
  2: { rewrite fmap_imap. by apply imap_ext. }
  specialize (IH ids Hl). rewrite omap_map.
  replace (omap _ (imap pair ids)) with
    (omap (λ '(w, id), if bool_decide (id = e) then Some (scale w (f h)) else None) (zip ws ids)); [done|].
  rewrite <- IH. apply list_omap_ext, Forall_Forall2_diag, Forall_forall. by intros [c i] _.
Qed.

Definition aligned (token : H * (list W * list Z)) : Prop := length token.2.1 = length token.2.2.
Definition gather E (token : H * (list W * list Z)) : H := routed E token.1 token.2.1 token.2.2.

(** The weighted output of expert [f] for one match. *)
Definition match_value (f : H → H) (R : list (H * (list W * list Z))) (p : nat * nat) : H :=
  match R !! p.1 with
  | Some (h, (ws, _)) => match ws !! p.2 with Some w => scale w (f h) | None => hzero end
  | None => hzero
  end.

Lemma matches_row (f : H → H) e (R : list (H * (list W * list Z))) t h ws ids :
  R !! t = Some (h, (ws, ids)) → length ws = length ids →
  at_row t ((λ p, (p.1, match_value f R p)) <$> where_eq (R.*2.*2) e) = picks f e h ws ids.
Proof.
  intros Ht Hl. rewrite (where_eq_row (match_value f R) _ e t ids) by by rewrite !list_lookup_fmap, Ht.
  rewrite <- picks_columns by done. apply list_omap_ext, Forall_Forall2_diag, Forall_forall. intros [c id] _. cbn.
  unfold match_value. cbn. by rewrite Ht.
Qed.

Lemma where_eq_inv (ids : list (list Z)) e r c :
  (r, c) ∈ where_eq ids e → ∃ row, ids !! r = Some row ∧ row !! c = Some e.
Proof.
  unfold where_eq. rewrite elem_of_concat. intros (l & Hp & (i & Hi)%list_elem_of_lookup_1).
  rewrite list_lookup_imap in Hi. apply fmap_Some in Hi as (row & Hrow & ->).
  apply list_elem_of_omap in Hp as ([c' id] & Hc & Hid). case_bool_decide as He; [|done]. injection Hid as -> ->.
  apply list_elem_of_lookup_1 in Hc as (j & Hj). rewrite list_lookup_imap in Hj.
  apply fmap_Some in Hj as (id' & Hj & [= -> ->]). exists row. by subst.
Qed.

Lemma fused_moe_step (f : H → H) E m (R : list (H * (list W * list Z))) :
  Forall aligned R → E !! m = Some f →
  (let picked := where_eq (R.*2.*2) (Z.of_nat m) in
   if decide (picked = []) then Ok (gather (take m E) <$> R)
   else
     f ← item E m;
     values ← rmap (λ '(r, c), h ← item (R.*1) r; ws ← item (R.*2.*1) r; w ← item ws c; Ok (scale w (f h))) picked;
     index_add (gather (take m E) <$> R) (picked.*1) values) = Ok (gather (take (S m) E) <$> R).
Proof.
  intros HR Hf. cbv zeta. set (picked := where_eq (R.*2.*2) (Z.of_nat m)).
  assert (∀ t h ws ids, R !! t = Some (h, (ws, ids)) →
    gather (take (S m) E) (h, (ws, ids)) =
      foldl hadd (gather (take m E) (h, (ws, ids))) (at_row t ((λ p, (p.1, match_value f R p)) <$> picked))) as Hrow.
  { intros t h ws ids Ht. unfold picked. rewrite (matches_row f _ R t h ws ids Ht).
    - by apply routed_take_S.
    - eapply (Forall_lookup_1 _ _ _ _ HR Ht). }
  case_decide as Hp.
  - f_equal. apply list_fmap_ext. intros t [h [ws ids]] Ht. rewrite (Hrow t) by done. by rewrite Hp.
  - rewrite (item_Ok E m f Hf). cbn [mbind result_bind].
    rewrite (rmap_Ok _ (match_value f R)).
    2: { intros [r c] Hrc. apply where_eq_inv in Hrc as (row & Hr & Hc). rewrite !list_lookup_fmap in Hr.
         destruct (R !! r) as [[h [ws ids]]|] eqn:Er; [|done]. cbn in Hr. injection Hr as ->.
         pose proof (Forall_lookup_1 _ _ _ _ HR Er) as Hal. unfold aligned in Hal. cbn in Hal.
         destruct (lookup_lt_is_Some_2 ws c) as (w & Hw); [apply lookup_lt_Some in Hc; lia|].
         rewrite (item_Ok _ _ h) by by rewrite list_lookup_fmap, Er.
         cbn [mbind result_bind]. rewrite (item_Ok _ _ ws) by by rewrite !list_lookup_fmap, Er.
         cbn [mbind result_bind]. rewrite (item_Ok _ _ w Hw). cbn [mbind result_bind]. unfold match_value. cbn. by rewrite Er, Hw. }
    cbn [mbind result_bind]. unfold index_add.
    replace (zip (picked.*1) (match_value f R <$> picked)) with ((λ p, (p.1, match_value f R p)) <$> picked).
    2: { clear. induction picked as [|p l IH]; [done|]. cbn. by rewrite <- IH. }
    rewrite index_add_rows.
    + f_equal. apply list_eq. intros t. rewrite list_lookup_imap, !list_lookup_fmap.
      destruct (R !! t) as [[h [ws ids]]|] eqn:Et; [|done]. cbn [fmap option_fmap option_map]. by rewrite (Hrow t).
    + apply Forall_fmap, Forall_forall. intros [r c] Hrc. apply where_eq_inv in Hrc as (row & Hr & _). cbn.
      rewrite length_fmap. apply lookup_lt_Some in Hr. by rewrite !length_fmap in Hr.
Qed.

(** The grouped computation gives each row what its routing names. *)
Lemma fused_moe_routed E (R : list (H * (list W * list Z))) :
  Forall aligned R → _fused_moe E (R.*1) (R.*2.*1) (R.*2.*2) = Ok (gather E <$> R).
Proof.
  intros HR. unfold _fused_moe.
  replace (replicate (length R.*1) hzero) with (gather (take 0 E) <$> R).
  2: { rewrite length_fmap. clear HR. induction R as [|[h [ws ids]] R IH]; [done|]. cbn [fmap list_fmap length replicate].
       f_equal; [|exact IH]. apply routed_none, Forall_forall. intros id _ h'. apply expert_nil. }
  assert (∀ k m, m + k = length E →
    rfold (λ e out,
      let picked := where_eq (R.*2.*2) (Z.of_nat e) in
      if decide (picked = []) then Ok out
      else
        f ← item E e;
        values ← rmap (λ '(r, c), h ← item (R.*1) r; ws ← item (R.*2.*1) r; w ← item ws c; Ok (scale w (f h))) picked;
        index_add out (picked.*1) values) (seq m k) (gather (take m E) <$> R) = Ok (gather (take (m + k) E) <$> R)) as Hgo.
  { induction k as [|k IH]; intros m Hm; [by rewrite Nat.add_0_r|]. cbn [seq rfold].
    destruct (lookup_lt_is_Some_2 E m) as (f & Hf); [lia|].
    pose proof (fused_moe_step f E m R HR Hf) as Hstep. cbv zeta in Hstep |- *. rewrite Hstep.
    cbn [mbind result_bind]. replace (m + S k) with (S m + k) by lia. apply IH. lia. }
  rewrite Hgo by done. by rewrite take_ge.
Qed.
End sums.
End ExpertSum.
