(* ===== verification/TokenExchange.v ===== *)
(** What the collectives of the routed stage compute on a grid that
    [init_parallel] has laid out: sums over a replica's ranks and over the
    peers of a DP lane, as explicit lists of ranks. *)

From S2P Require Import Prelude Spmd Topology ParallelState Collectives CollectiveSpec DPAttention MoE ExpertSum.

Module TokenExchange.
Import Spmd ParallelState Collectives CollectiveSpec DPAttention MoE ExpertSum.

Lemma list_fmap_same {A} (f : A → A) (l : list A) : (∀ a, a ∈ l → f a = a) → f <$> l = l.
Proof.
  induction l as [|a l IH]; intros Hf; [done|]. cbn. rewrite Hf by left. f_equal. apply IH. intros b Hb. apply Hf. by right.
Qed.

(** ** Elementwise sums of batches *)

Section vsum.
Context {H W : Type} `{!HiddenOps H W, !HiddenLaws H W}.
Notation row := (@row H W).
Notation tensor := (list row).

(** A batch as the rows that cross the wire. *)
Notation hid l := (@fmap list list_fmap H row RHidden l).

Definition vsum (m : nat) (ls : list (list H)) : list H :=
  (λ j, hsum ((λ l, default hzero (l !! j)) <$> ls)) <$> seq 0 m.

Lemma vsum_map {A P} (f : P → A → H) (xs : list A) (ps : list P) :
  vsum (length xs) ((λ p, f p <$> xs) <$> ps) = (λ x, hsum ((λ p, f p x) <$> ps)) <$> xs.
Proof.
  unfold vsum. apply list_eq. intros j. rewrite !list_lookup_fmap.
  destruct (xs !! j) as [x|] eqn:E.
  - rewrite lookup_seq_lt by by apply lookup_lt_Some in E. cbn. f_equal. rewrite <- list_fmap_compose. f_equal.
    apply list_fmap_ext. intros i p _. cbn. by rewrite list_lookup_fmap, E.
  - apply lookup_ge_None in E. by rewrite lookup_seq_ge.
Qed.

Lemma reduce1_hidden (l : list H) a :
  reduce1 SUM (hid (a :: l)) = Some (RHidden (hsum (a :: l))).
Proof.
  cbn [fmap list_fmap reduce1]. f_equal. rewrite hsum_cons, <- hsum_foldl. revert a.
  induction l as [|b l IH]; intros a; [done|]. cbn [fmap list_fmap foldl]. by rewrite <- IH.
Qed.

(** The elementwise reduction of batches of hidden states is their sum. *)
Lemma reduce_hidden m (ls : list (list H)) :
  ls ≠ [] → Forall (λ l, length l = m) ls →
  reduce SUM ((λ l : list H, hid l) <$> ls) = hid (vsum m ls).
Proof.
  intros Hne Hm. assert (Forall (λ l : tensor, length l = m) ((λ l : list H, hid l) <$> ls)) as Hm'.
  { apply Forall_fmap. eapply Forall_impl; [exact Hm|]. intros l Hl. cbn. by rewrite length_fmap. }
  apply list_eq. intros j. destruct (decide (j < m)) as [Hj|Hj].
  - rewrite (reduce_lookup SUM m) by done. rewrite list_lookup_fmap. unfold vsum.
    rewrite list_lookup_fmap, lookup_seq_lt by done. cbn [fmap option_fmap option_map Nat.add].
    rewrite omap_map.
    replace (omap (λ l : list H, hid l !! j) ls) with (hid ((λ l : list H, default hzero (l !! j)) <$> ls)).
    + destruct ls as [|l ls]; [done|]. cbn [fmap list_fmap]. apply reduce1_hidden.
    + clear Hne Hm'. induction Hm as [|l ls Hl _ IH]; [done|]. cbn [fmap list_fmap omap list_omap].
      destruct (lookup_lt_is_Some_2 l j) as (v & Hv); [lia|]. rewrite list_lookup_fmap, Hv. cbn. by rewrite <- IH.
  - rewrite !lookup_ge_None_2; [done| |].
    + rewrite length_fmap. unfold vsum. rewrite length_fmap, length_seq. lia.
    + rewrite (reduce_length SUM m); [lia| |done]. by intros ?%fmap_nil_inv.
Qed.

Lemma hidden_rows (l : list H) : rmap hidden_of (hid l) = Ok l.
Proof. rewrite (rmap_Ok _ (λ v, match v with RHidden h => h | _ => hzero end)).
  - rewrite <- list_fmap_compose. f_equal. by apply list_fmap_id.
  - intros v (h & -> & _)%list_elem_of_fmap. done.
Qed.

Lemma vsum_one (l : list H) : vsum (length l) [l] = l.
Proof.
  unfold vsum. apply list_eq. intros j. rewrite list_lookup_fmap. destruct (l !! j) as [h|] eqn:E.
  - rewrite lookup_seq_lt by by apply lookup_lt_Some in E. cbn. by rewrite E, hadd_zero_r.
  - apply lookup_ge_None in E. by rewrite lookup_seq_ge.
Qed.

Lemma vsum_perm m (ls1 ls2 : list (list H)) : ls1 ≡ₚ ls2 → vsum m ls1 = vsum m ls2.
Proof. intros Hp. unfold vsum. apply list_fmap_ext. intros _ j _. apply hsum_perm. by rewrite Hp. Qed.
End vsum.

(** ** A laid out grid *)

Section grid.
Context {H W : Type} `{!HiddenOps H W, !HiddenLaws H W}.
Notation row := (@row H W).
Notation tensor := (list row).
Notation hid l := (@fmap list list_fmap H row RHidden l).
Context (wire : collective → list tensor → option (list (list tensor))) `{!WireLaws wire}.
Notation spmd := (Spmd.spmd wire).
(** Messages of as many rows have the same size. *)
Context (payload : tensor → nat).
Hypothesis Hpayload : ∀ x y, length x = length y → payload x = payload y.
Context (t : Topology.ParallelTopology) (Ht : Topology.valid t) (a : init_args) (G : nat → grid).
Hypothesis HG : placed t a G.
Notation n := (Topology.world_size t).
Notation tp := (Topology.tp_size t).
Notation dp := (Topology.dp_size t).

(** The ranks of [r]'s replica, and its peers in the other replicas. *)
Definition replica r : list nat := seq (r / tp * tp) tp.
Definition lane r : list nat := (λ i, r mod tp + i * tp) <$> seq 0 dp.

Lemma replica_elem r r' : r < n → r' ∈ replica r → r' < n ∧ r' / tp = r / tp.
Proof.
  intros Hr Hr'%elem_of_seq. pose proof (Topology.valid_tp t Ht). unfold Topology.world_size in *.
  assert (r' / tp = r / tp) as E by (symmetry; apply (Nat.div_unique _ _ _ (r' - r / tp * tp)); [|rewrite (Nat.mul_comm tp)]; lia).
  split; [|done]. assert (r / tp < dp) by (apply Nat.Div0.div_lt_upper_bound; lia). nia.
Qed.

Lemma replica_family : 1 < tp → ∃ grp, family n grp ∧ ∀ r, r < n →
  _TP_GROUP (G r) = Some (grp r) ∧ ranks (grp r) = replica r ∧ group_size (grp r) = tp.
Proof.
  intros Htp. destruct (placed_tp _ _ _ HG Htp) as ((grp & Hf & Hg) & _ & Hm). exists grp. split; [done|].
  intros r Hr. destruct (Hg r Hr) as (E & _ & Hs). specialize (Hm r Hr). rewrite E in Hm. cbn in Hm.
  destruct (placed_sizes _ _ _ HG r Hr) as (_ & _ & _ & _ & _ & _ & _ & Ed). rewrite Ed in Hm.
  split; [done|]. split; [by injection Hm|done].
Qed.

Lemma single_replica r : tp = 1 → replica r = [r].
Proof. intros E. unfold replica. rewrite E, Nat.div_1_r, Nat.mul_1_r. done. Qed.

(** The other rank of a replica of two. *)
Definition other r : nat := r / 2 * 2 + (1 - r mod 2).

Lemma pair_replica r : tp = 2 → replica r = [r; other r] ∧ other (other r) = r ∨ replica r = [other r; r] ∧ other (other r) = r.
Proof.
  intros E. unfold replica, other. rewrite E. cbn [seq].
  pose proof (Nat.div_mod_eq r 2). pose proof (Nat.mod_upper_bound r 2).
  assert (∀ q m, m < 2 → (q * 2 + m) / 2 = q ∧ (q * 2 + m) mod 2 = m) as Hqm.
  { intros q m Hm. split; [symmetry; apply (Nat.div_unique _ _ _ m)|symmetry; apply (Nat.mod_unique _ _ q)]; lia. }
  destruct (Hqm (r / 2) (1 - r mod 2)) as (-> & ->); [lia|].
  destruct (r mod 2) as [|[|m]]; [left|right|lia]; (split; [repeat (f_equal; try lia)|lia]).
Qed.

Notation reduced_by_pair x r :=
  ((tp =? 2) && bool_decide (backend_of (G r) = nccl) && (payload (hid (x r)) <=? 65536)).

(** [tensor_model_parallel_all_reduce] sums over the replica, whichever way it
    takes. *)
Lemma spmd_replica_sum (x : nat → list H) :
  (∀ r r', r < n → r' ∈ replica r → length (x r') = length (x r)) →
  spmd n (λ r, tensor_model_parallel_all_reduce payload (G r) (hid (x r)))
         (λ r, hid (vsum (length (x r)) (x <$> replica r))).
Proof.
  intros Hx. pose proof (Topology.valid_tp t Ht) as Htp0.
  assert (∀ r, r < n → _TP_WORLD_SIZE (G r) = tp) as Hsize by (intros r Hr; by apply (placed_sizes _ _ _ HG)).
  destruct (decide (1 < tp)) as [Htp|Htp].
  2: { assert (tp = 1) as E by lia. eapply spmd_ext; [| |apply (spmd_ret wire n (λ r, hid (x r)))]; intros r Hr.
       - unfold tensor_model_parallel_all_reduce. by rewrite Hsize, E.
       - rewrite single_replica by done. cbn [fmap list_fmap]. by rewrite vsum_one. }
  destruct (replica_family Htp) as (grp & Hf & Hg).
  set (pair r := reduced_by_pair x r).
  set (c r := if pair r then Exchange else AllReduce SUM).
  set (first := λ ys : list tensor, match ys with [] => Raise RuntimeError | y :: _ => Ret y end : @prog tensor tensor).
  set (k r := if pair r then (λ ys, first ys ≫= λ y, Ret (zip_with (row_reduce SUM) (hid (x r)) y)) else first).
  set (answer r := if pair r then [hid (x (other r))] else [reduce SUM (peers grp (λ r, hid (x r)) r)]).
  assert (∀ r r', r < n → r' ∈ ranks (grp r) → r' < n ∧ length (x r') = length (x r) ∧ pair r' = pair r) as Hsame.
  { intros r r' Hr Hr'. destruct (Hg r Hr) as (_ & E & _). rewrite E in Hr'. pose proof (replica_elem r r' Hr Hr') as (Hn & _).
    split; [done|]. split; [by apply Hx|]. unfold pair. rewrite (placed_backend _ _ _ HG r r') by done.
    by rewrite (Hpayload (hid (x r')) (hid (x r))) by (rewrite !length_fmap; by apply Hx). }
  eapply (spmd_ext wire n (λ r, Call (grp r) (c r) (hid (x r)) (k r))); [|reflexivity|].
  { intros r Hr. destruct (Hg r Hr) as (E & _ & _). unfold tensor_model_parallel_all_reduce, p2p_all_reduce, c, k, pair.
    rewrite Hsize, E by done. pose proof Htp as ->%Nat.leb_gt. rewrite (bool_decide_true (is_Some (Some (grp r)))) by by eexists.
    destruct (tp =? 2), (bool_decide (backend_of (G r) = nccl)), (payload _ <=? 65536); done. }
  eapply (spmd_calls wire n grp c _ answer); [done|intros r r' Hr Hr'; unfold c; by destruct (Hsame r r' Hr Hr') as (_ & _ & ->)| |].
  - intros r Hr. destruct (Hg r Hr) as (_ & E & _). unfold c. destruct (pair r) eqn:Ep.
    + pose proof Ep as ((E2%Nat.eqb_eq & _)%andb_prop & _)%andb_prop.
      assert (∀ r', r' ∈ ranks (grp r) → answer r' = [hid (x (other r'))]) as Ha.
      { intros r' Hr'. unfold answer. destruct (Hsame r r' Hr Hr') as (_ & _ & ->). by rewrite Ep. }
      revert Ha. rewrite E. destruct (pair_replica r E2) as [(-> & Eo)|(-> & Eo)]; intros Ha; cbn [fmap list_fmap];
        rewrite wire_exchange, (Ha r), (Ha (other r)), Eo by set_solver; done.
    + change ((λ r, hid (x r)) <$> ranks (grp r)) with (peers grp (λ r, hid (x r)) r).
      rewrite (wire_all_reduce SUM (length (x r))).
      * f_equal. unfold peers at 2. rewrite <- list_fmap_compose. apply list_fmap_ext. intros i r' Hi. cbn.
        pose proof (list_elem_of_lookup_2 _ _ _ Hi) as Hin. unfold answer. destruct (Hsame r r' Hr Hin) as (_ & _ & ->).
        rewrite Ep. by rewrite (peers_group n grp Hf _ r r').
      * apply Forall_fmap, Forall_forall. intros r' Hr'. cbn. rewrite length_fmap. by apply Hsame.
  - eapply spmd_ext; [|reflexivity|apply (spmd_ret wire n)]. intros r Hr. destruct (Hg r Hr) as (_ & E & _).
    unfold k, answer. destruct (pair r) eqn:Ep; cbn [first mbind prog_bind]; f_equal.
    + pose proof Ep as ((E2%Nat.eqb_eq & _)%andb_prop & _)%andb_prop.
      transitivity (hid (vsum (length (x r)) (x <$> [r; other r]))).
      * f_equal. apply vsum_perm. destruct (pair_replica r E2) as [(-> & _)|(-> & _)]; [done|]. cbn. by constructor.
      * rewrite <- reduce_hidden; [done|done|]. assert (other r ∈ replica r) as Hin.
        { destruct (pair_replica r E2) as [(-> & _)|(-> & _)]; set_solver. }
        repeat constructor. by apply Hx.
    + unfold peers. rewrite E, (list_fmap_compose x (λ l : list H, hid l)). symmetry. apply reduce_hidden.
      * intros Enil%fmap_nil_inv. unfold replica in Enil. by destruct tp.
      * apply Forall_fmap, Forall_forall. intros r' Hr'. by apply Hx.
Qed.

(** ** The lanes of DP attention *)

Hypothesis Hdp : dp_attention_wanted t a = true.

Lemma dp_many : 1 < dp.
Proof. unfold dp_attention_wanted in Hdp. apply andb_prop in Hdp as (_ & Hlt%Nat.ltb_lt). done. Qed.

Lemma lane_family : ∃ grp, family n grp ∧ ∀ r, r < n →
  _DP_GROUP (G r) = Some (grp r) ∧ ranks (grp r) = lane r ∧ group_size (grp r) = dp ∧ group_rank (grp r) r = r / tp.
Proof.
  pose proof (Topology.valid_tp t Ht).
  destruct (placed_dp _ _ _ HG Hdp) as ((grp & Hf & Hg) & _ & Hm). exists grp. split; [done|].
  intros r Hr. destruct (Hg r Hr) as (E & Hk & Hs). specialize (Hm r Hr). rewrite E in Hm. cbn in Hm.
  destruct (placed_sizes _ _ _ HG r Hr) as (_ & _ & _ & _ & _ & _ & Et & Ed). rewrite Et in Hm. rewrite Ed in Hk.
  split; [done|]. split; [|done]. injection Hm as ->. unfold lane, Topology.world_size. rewrite (Nat.mul_comm tp).
  apply Topology.range_step_mul; [done|]. by apply Nat.mod_upper_bound.
Qed.

Lemma lane_coordinates r : (λ r', r' / tp) <$> lane r = seq 0 dp.
Proof.
  pose proof (Topology.valid_tp t Ht). unfold lane. rewrite <- list_fmap_compose. apply list_fmap_same.
  intros i _. cbn. symmetry. apply (Nat.div_unique _ _ _ (r mod tp)); [by apply Nat.mod_upper_bound|lia].
Qed.

Lemma lane_peers {A} (f : nat → A) r : (λ r', f (r' / tp)) <$> lane r = f <$> seq 0 dp.
Proof. by rewrite <- (lane_coordinates r), <- list_fmap_compose. Qed.

Lemma group_coordinates grp (coordinate : nat → nat) size r :
  family n grp → (∀ r, r < n → group_rank (grp r) r = coordinate r ∧ group_size (grp r) = size) → r < n →
  coordinate <$> ranks (grp r) = seq 0 size.
Proof.
  intros Hf Hc Hr. destruct (Hc r Hr) as (_ & Hs). apply list_eq. intros i. rewrite list_lookup_fmap.
  destruct (ranks (grp r) !! i) as [r'|] eqn:E.
  - destruct (family_peer _ _ Hf r r' Hr) as (Hn & Eg); [by eapply list_elem_of_lookup_2|].
    rewrite lookup_seq_lt by (rewrite <- Hs; by eapply lookup_lt_Some). cbn [fmap option_fmap option_map Nat.add].
    destruct (Hc r' Hn) as (<- & _). rewrite Eg. f_equal. unfold group_rank. by rewrite (position_lookup r' _ i) by (done || by apply Hf).
  - symmetry. apply lookup_ge_None in E. apply lookup_ge_None. by rewrite length_seq, <- Hs.
Qed.

Definition metadata (count : nat → nat) r : DPMetadata := MkMetadata (count <$> seq 0 dp) (r / tp).

(** One integer per rank over the CPU group. *)
Lemma spmd_counts (count : nat → nat) :
  spmd n (λ r, data_parallel_all_gather (G r) (_DP_CPU_GROUP (G r)) [RCount (count (r / tp))])
    (λ r, RCount <$> (count <$> seq 0 dp)).
Proof.
  destruct (placed_dp _ _ _ HG Hdp) as (_ & (grp & Hf & Hg) & _).
  assert (∀ r, r < n → group_rank (grp r) r = r / tp ∧ group_size (grp r) = dp) as Hc.
  { intros r Hr. destruct (Hg r Hr) as (_ & Hk & Hs). destruct (placed_sizes _ _ _ HG r Hr) as (_ & _ & _ & _ & _ & _ & _ & Ed).
    by rewrite Ed in Hk. }
  eapply spmd_ext; [| |by apply (spmd_dp_gather wire n G grp Hf dp (λ r Hr, proj2 (Hc r Hr)) (λ r, [RCount (count (r / tp))]))];
    intros r Hr.
  - by destruct (Hg r Hr) as (-> & _).
  - rewrite <- (group_coordinates grp (λ r, r / tp) dp r Hf Hc Hr). unfold peers.
    generalize (ranks (grp r)) as l. induction l as [|r' l IH]; [done|]. cbn. by rewrite IH.
Qed.

Lemma read_counts (l : list nat) : rmap count_of (RCount <$> l : tensor) = Ok l.
Proof. induction l as [|m l IH]; [done|]. cbn. by rewrite IH. Qed.

(** The handshake: every rank learns what every replica brought. *)
Lemma spmd_tokens (count : nat → nat) :
  spmd n (λ r, coordinate_tokens_across_dp (G r) (count (r / tp))) (metadata count).
Proof.
  unfold coordinate_tokens_across_dp. eapply spmd_bind; [apply spmd_counts|].
  eapply spmd_ext; [|reflexivity|apply (spmd_ret wire n)]. intros r Hr. rewrite read_counts. cbn [lift mbind prog_bind].
  destruct (placed_sizes _ _ _ HG r Hr) as (_ & Ew & _ & _ & _ & _ & _ & Ed).
  rewrite bool_decide_true by by rewrite !length_fmap, length_seq. cbn [pguard mbind prog_bind]. unfold metadata. by rewrite Ed.
Qed.

(** Every rank learns the largest number of forwards. *)
Lemma spmd_forward_count (count : nat → nat) :
  spmd n (λ r, coordinate_forward_count_across_dp (G r) (count (r / tp))) (λ _, maximum (count <$> seq 0 dp)).
Proof.
  apply (spmd_ext wire n (λ r, gathered ← data_parallel_all_gather (G r) (_DP_CPU_GROUP (G r)) [RCount (count (r / tp))];
    counts ← lift (rmap count_of gathered); Ret (maximum counts)) _ (λ _, maximum (count <$> seq 0 dp))); [|done|].
  - intros r Hr. unfold coordinate_forward_count_across_dp.
    destruct (placed_sizes _ _ _ HG r Hr) as (_ & _ & _ & _ & _ & -> & _). by rewrite Hdp.
  - eapply spmd_bind; [apply spmd_counts|]. eapply spmd_ext; [|reflexivity|apply (spmd_ret wire n)]. intros r Hr. by rewrite read_counts.
Qed.

Lemma placed_me r : r < n → me (G r) = r.
Proof. intros Hr. unfold me. by rewrite (placed_topology _ _ _ HG r Hr). Qed.

(** A batch per replica, its rows counted by the handshake; the ranks of a
    replica hold the same rows. *)
Definition counts {A} (b : nat → list A) : list nat := (length ∘ b) <$> seq 0 dp.
Definition pool {A} (b : nat → list A) : list A := concat (b <$> seq 0 dp).

Lemma replica_lt r : r < n → r / tp < dp.
Proof. intros Hr. pose proof (Topology.valid_tp t Ht). unfold Topology.world_size in Hr. apply Nat.Div0.div_lt_upper_bound; lia. Qed.

Lemma pool_map {A B} (f : A → B) (b : nat → list A) : f <$> pool b = pool (λ i, f <$> b i).
Proof. unfold pool. induction (seq 0 dp) as [|i l IH]; [done|]. cbn. by rewrite fmap_app, IH. Qed.

Lemma pool_length {A} (b : nat → list A) : length (pool b) = sum_list (counts b).
Proof. unfold pool, counts. induction (seq 0 dp) as [|i l IH]; [done|]. cbn. by rewrite length_app, IH. Qed.

(** A replica's rows are a slice of the pool. *)
Lemma pool_slice {A} (b : nat → list A) i :
  i < dp → take (length (b i)) (drop (offset (counts b) i) (pool b)) = b i.
Proof.
  intros Hi. unfold pool, counts, offset.
  assert (seq 0 dp = seq 0 i ++ i :: seq (S i) (dp - S i)) as ->.
  { replace dp with (i + S (dp - S i)) at 1 by lia. by rewrite seq_app. }
  rewrite !fmap_app, concat_app. cbn [fmap list_fmap concat].
  rewrite take_app_length' by by rewrite length_fmap, length_seq.
  rewrite drop_app_length'; [by rewrite take_app_length|].
  induction (seq 0 i) as [|j l IH]; [done|]. cbn. by rewrite length_app, IH.
Qed.

Lemma rmap_back {A} (f : A → row) (g : row → result A) (l : list A) : (∀ v, g (f v) = Ok v) → rmap g (f <$> l) = Ok l.
Proof. intros Hg. induction l as [|v l IH]; [done|]. cbn. rewrite Hg. cbn [mbind result_bind]. cbn in IH. by rewrite IH. Qed.

(** [dp_dispatch]: every rank holds the whole pool and its routing. *)
Lemma spmd_dispatch (xs : nat → list H) (ws : nat → list (list W)) (ids : nat → list (list Z)) :
  (∀ i, length (ws i) = length (xs i) ∧ length (ids i) = length (xs i)) →
  spmd n (λ r, dp_dispatch (G r) (xs (r / tp)) (ws (r / tp)) (ids (r / tp)) (MkMetadata (counts xs) (r / tp)))
         (λ _, (pool xs, pool ws, pool ids)).
Proof.
  intros Hl. destruct lane_family as (grp & Hf & Hg).
  assert (∀ (f : nat → tensor) r, r < n → concat (peers grp (λ r', f (r' / tp)) r) = pool f) as Hpool.
  { intros f r Hr. destruct (Hg r Hr) as (_ & E & _). unfold peers. by rewrite E, lane_peers. }
  unfold dp_dispatch. apply (spmd_ext wire n (λ r,
    pools ← all_gatherv (G r) ((λ x, x r) <$> [λ r, hid (xs (r / tp)); λ r, RWeights <$> ws (r / tp); λ r, RIds <$> ids (r / tp)])
              (Some (counts xs)) (Some (grp r));
    match pools with
    | [px; pw; pi] =>
        px ← lift (rmap hidden_of px); pw ← lift (rmap weights_of pw); pi ← lift (rmap ids_of pi);
        Ret (px, pw, pi)
    | _ => Raise ValueError
    end) _ (λ _, (pool xs, pool ws, pool ids))); [|done|].
  { intros r Hr. unfold local_tokens. cbn [num_tokens_across_dp DPAttention.rank].
    rewrite (item_Ok _ _ (length (xs (r / tp)))).
    2: { unfold counts. by rewrite list_lookup_fmap, lookup_seq_lt by by apply replica_lt. }
    cbn [lift mbind prog_bind]. rewrite bool_decide_true by done. by destruct (Hg r Hr) as (-> & _). }
  eapply spmd_bind.
  - apply (all_gatherv_concat wire n G grp Hf dp placed_me); [by intros r Hr; apply Hg|done|].
    repeat constructor; intros r Hr; destruct (Hg r Hr) as (_ & E & _); unfold peers, counts; rewrite E, <- list_fmap_compose;
      rewrite <- (lane_peers _ r); apply list_fmap_ext; intros i r' _; cbn; by rewrite length_fmap, ?(proj1 (Hl _)), ?(proj2 (Hl _)).
  - cbn [fmap list_fmap]. eapply spmd_ext; [|reflexivity|apply (spmd_ret wire n)]. intros r Hr. cbv beta.
    rewrite (Hpool (λ i, hid (xs i)) r Hr), (Hpool (λ i, RWeights <$> ws i) r Hr), (Hpool (λ i, RIds <$> ids i) r Hr).
    rewrite <- (pool_map RHidden), <- (pool_map RWeights), <- (pool_map RIds).
    rewrite hidden_rows, !rmap_back by done. done.
Qed.

(** [dp_combine]: this rank's rows of the pool's output, summed over its lane
    and then over its replica. *)
Lemma spmd_combine (xs : nat → list H) (y : nat → list H) :
  (∀ r, r < n → length (y r) = length (pool xs)) →
  spmd n (λ r, dp_combine payload (G r) (y r) (MkMetadata (counts xs) (r / tp)))
         (λ r, vsum (length (xs (r / tp)))
            ((λ q, take (length (xs (r / tp))) (drop (offset (counts xs) (r / tp)) (vsum (length (pool xs)) (y <$> lane q))))
               <$> replica r)).
Proof.
  intros Hy. destruct lane_family as (grp & Hf & Hg).
  set (z := λ r, take (length (xs (r / tp))) (drop (offset (counts xs) (r / tp)) (vsum (length (pool xs)) (y <$> lane r)))).
  assert (∀ i, i < dp → counts xs !! i = Some (length (xs i))) as Hcount.
  { intros i Hi. unfold counts. by rewrite list_lookup_fmap, lookup_seq_lt. }
  assert (∀ r, r < n → length (z r) = length (xs (r / tp))) as Hz.
  { intros r Hr. unfold z. pose proof (offset_slice _ _ _ (Hcount _ (replica_lt r Hr))).
    rewrite length_take, length_drop. unfold vsum. rewrite length_fmap, length_seq, pool_length. lia. }
  unfold dp_combine. eapply spmd_bind.
  { eapply (spmd_ext wire n (λ r, reduce_scatterv (G r) (hid (y r)) (counts xs) (Some (grp r))) _ _ (λ r, hid (z r)));
      [| |apply (reduce_scatterv_slices wire n G grp Hf dp placed_me) with (own := λ r, length (xs (r / tp)))].
    - intros r Hr. by destruct (Hg r Hr) as (-> & _).
    - intros r Hr. cbv beta. destruct (Hg r Hr) as (_ & E & _ & ->). unfold peers. rewrite E, (list_fmap_compose y (λ l : list H, hid l)).
      rewrite (reduce_hidden (length (pool xs))).
      + unfold z. by rewrite fmap_take, fmap_drop.
      + intros Enil%fmap_nil_inv. unfold lane in Enil. pose proof dp_many. by destruct dp; [lia|].
      + apply Forall_fmap, Forall_forall. intros r' Hr'. cbn. apply Hy. rewrite <- E in Hr'. by destruct (family_peer _ _ Hf r r' Hr Hr').
    - intros r Hr. by apply Hg.
    - intros r Hr. destruct (Hg r Hr) as (_ & _ & _ & ->). rewrite length_fmap, Hy, pool_length by done. unfold counts at 1.
      rewrite length_fmap, length_seq. split; [done|]. split; [done|]. by apply Hcount, replica_lt.
    - done. }
  cbv beta. eapply spmd_bind.
  - eapply spmd_ext; [|reflexivity|apply (spmd_replica_sum z)].
    + intros r Hr. destruct (placed_sizes _ _ _ HG r Hr) as (Ew & _). unfold tensor_model_parallel_all_reduce.
      rewrite Ew, Nat.leb_antisym. by destruct (1 <? tp).
    + intros r r' Hr Hr'. destruct (replica_elem r r' Hr Hr') as (Hn & E). by rewrite !Hz, E by done.
  - eapply spmd_ext; [| |apply (spmd_ret wire n)]; intros r Hr; [by rewrite hidden_rows|]. cbv beta.
    rewrite Hz by done. f_equal. apply list_fmap_ext. intros i q Hq. unfold z.
    by destruct (replica_elem r q Hr (list_elem_of_lookup_2 _ _ _ Hq)) as (_ & ->).
Qed.
End grid.
End TokenExchange.
