(* ===== verification/MoESpec.v ===== *)
(** The routed stage of every parallel layout computes what one device with all
    the experts would: expert windows add up to the whole model, and so do
    TP slices of every expert. *)

From S2P Require Import Prelude Spmd Topology ParallelState Collectives CollectiveSpec DPAttention MoE ExpertSum TokenExchange.

Module MoESpec.
Import Spmd ParallelState Collectives CollectiveSpec DPAttention MoE ExpertSum TokenExchange.

(** ** Windows of experts *)

Section windows.
Context {H W : Type} `{!HiddenOps H W, !HiddenLaws H W}.
Implicit Types (E : list (H → H)) (ws : list W) (ids : list Z).

(** The experts [i * nl, (i + 1) * nl), which rank [i] of the expert split owns. *)
Definition window E (nl i : nat) : list (H → H) := take nl (drop (i * nl) E).

Lemma window_expert E nl i id h :
  expert (window E nl i) (ep_local_id (i * nl) nl id) h =
  if decide (0 ≤ id)%Z then if decide (Z.to_nat id / nl = i ∧ nl ≠ 0) then expert E id h else hzero else hzero.
Proof.
  unfold ep_local_id, expert. destruct (Z.leb_spec 0 (id - Z.of_nat (i * nl))) as [H0|H0]; cbn [andb].
  - destruct (Z.ltb_spec (id - Z.of_nat (i * nl)) (Z.of_nat nl)) as [H1|H1].
    + rewrite decide_True by lia. assert (nl ≠ 0) as Hnl by lia.
      assert (Z.to_nat id / nl = i) as Hi.
      { symmetry. apply (Nat.div_unique _ _ _ (Z.to_nat id - i * nl)); lia. }
      rewrite decide_True by done. destruct (Z.leb_spec 0 (id - Z.of_nat (i * nl))); [|lia].
      destruct (Z.leb_spec 0 id); [|lia]. unfold window. rewrite lookup_take_lt, lookup_drop by lia.
      by replace (i * nl + Z.to_nat (id - Z.of_nat (i * nl))) with (Z.to_nat id) by lia.
    + cbn. case_decide as Hid; [|done]. case_decide as Hn; [|done]. destruct Hn as (Hn & Hnl).
      pose proof (Nat.div_mod_eq (Z.to_nat id) nl). pose proof (Nat.mod_upper_bound (Z.to_nat id) nl Hnl). nia.
  - cbn. case_decide as Hid; [|done]. case_decide as Hn; [|done]. destruct Hn as (Hn & Hnl).
    pose proof (Nat.div_mod_eq (Z.to_nat id) nl). nia.
Qed.

(** A routing slot is served by exactly one window. *)
Lemma windows_expert E nl s id h :
  s * nl = length E → hsum ((λ i, expert (window E nl i) (ep_local_id (i * nl) nl id) h) <$> seq 0 s) = expert E id h.
Proof.
  intros Hl.
  assert (∀ i, expert (window E nl i) (ep_local_id (i * nl) nl id) h =
    if decide (0 ≤ id)%Z then if decide (Z.to_nat id / nl = i ∧ nl ≠ 0) then expert E id h else hzero else hzero) as Hw
    by (intros; apply window_expert).
  destruct (decide (0 ≤ id)%Z) as [Hid|Hid].
  2: { transitivity (hzero : H).
       - apply hsum_zeros, Forall_fmap, Forall_forall. intros i _. cbn. by rewrite Hw.
       - unfold expert. by destruct (Z.leb_spec 0 id); [lia|]. }
  destruct (decide (Z.to_nat id < length E)) as [Hin|Hout].
  - assert (nl ≠ 0) as Hnl by lia.
    assert (Z.to_nat id / nl < s) by (apply Nat.Div0.div_lt_upper_bound; lia).
    rewrite (hsum_single _ _ (Z.to_nat id / nl) (Z.to_nat id / nl)).
    + rewrite Hw. by rewrite decide_True.
    + by rewrite lookup_seq_lt.
    + intros j b Hj Hne. apply lookup_seq in Hj as (-> & _). rewrite Hw, decide_False; [done|]. cbn. naive_solver lia.
  - assert (expert E id h = hzero) as Hz.
    { unfold expert. destruct (Z.leb_spec 0 id); [|done]. by rewrite lookup_ge_None_2 by lia. }
    rewrite Hz. apply hsum_zeros, Forall_fmap, Forall_forall. intros i _. cbn. rewrite Hw, Hz. by repeat case_decide.
Qed.

Lemma routed_zip E h ws ids : routed E h ws ids = hsum ((λ '(w, id), scale w (expert E id h)) <$> zip ws ids).
Proof. unfold routed. f_equal. revert ids. induction ws as [|w ws IH]; intros [|id ids]; try done. cbn. by rewrite IH. Qed.

(** What a token gathers from all windows is what it gathers from the model. *)
Lemma windows_routed E nl s h ws ids :
  s * nl = length E →
  hsum ((λ i, routed (window E nl i) h ws (ep_local_id (i * nl) nl <$> ids)) <$> seq 0 s) = routed E h ws ids.
Proof.
  intros Hl.
  transitivity (hsum ((λ i, hsum ((λ p : W * Z, scale p.1 (expert (window E nl i) (ep_local_id (i * nl) nl p.2) h)) <$> zip ws ids))
                        <$> seq 0 s)).
  { f_equal. apply list_fmap_ext. intros _ i _. rewrite routed_zip. f_equal.
    revert ids. induction ws as [|w ws IH]; intros [|id ids]; try done. cbn. by rewrite IH. }
  rewrite hsum_swap, routed_zip. f_equal. apply list_fmap_ext. intros _ [w id] _. cbn [fst snd].
  rewrite (hsum_scale w (λ i, expert (window E nl i) (ep_local_id (i * nl) nl id) h)). by rewrite windows_expert.
Qed.

(** Experts cut along their intermediate dimension: the partial outputs of the
    [s] slices of an expert add up to it. *)
Definition sliced (E : list (H → H)) (slices : list (nat → H → H)) (s : nat) : Prop :=
  Forall2 (λ f part, ∀ h, hsum ((λ q, part q h) <$> seq 0 s) = f h) E slices.

Lemma slices_routed E slices s h ws ids :
  sliced E slices s →
  hsum ((λ q, routed ((λ part, part q) <$> slices) h ws ids) <$> seq 0 s) = routed E h ws ids.
Proof.
  intros Hs.
  transitivity (hsum ((λ q, hsum ((λ p : W * Z, scale p.1 (expert ((λ part, part q) <$> slices) p.2 h)) <$> zip ws ids)) <$> seq 0 s)).
  { f_equal. apply list_fmap_ext. intros _ q _. rewrite routed_zip. f_equal. apply list_fmap_ext. by intros _ [w id] _. }
  rewrite hsum_swap, routed_zip. f_equal. apply list_fmap_ext. intros _ [w id] _. cbn [fst snd].
  rewrite (hsum_scale w (λ q, expert ((λ part, part q) <$> slices) id h)). f_equal. unfold expert.
  destruct (0 <=? id)%Z; [|by apply hsum_zeros, Forall_fmap, Forall_forall].
  destruct (E !! Z.to_nat id) as [f|] eqn:Ef.
  - destruct (Forall2_lookup_l _ _ _ _ _ Hs Ef) as (part & Hp & Hsum). rewrite <- Hsum. f_equal.
    apply list_fmap_ext. intros _ q _. by rewrite list_lookup_fmap, Hp.
  - apply hsum_zeros, Forall_fmap, Forall_forall. intros q _. cbn. rewrite list_lookup_fmap.
    apply lookup_ge_None in Ef. rewrite (Forall2_length _ _ _ Hs) in Ef. by rewrite lookup_ge_None_2.
Qed.
End windows.

(** ** The layer on a laid out grid *)

Section layer.
Context {H W : Type} `{!HiddenOps H W, !HiddenLaws H W}.
Notation row := (@row H W).
Notation tensor := (list row).
Context (wire : collective → list tensor → option (list (list tensor))) `{!WireLaws wire}.
Notation spmd := (Spmd.spmd wire).
Context (payload : tensor → nat).
Hypothesis Hpayload : ∀ x y, length x = length y → payload x = payload y.
Context (t : Topology.ParallelTopology) (Ht : Topology.valid t) (a : init_args) (G : nat → grid).
Hypothesis HG : placed t a G.
Notation n := (Topology.world_size t).
Notation tp := (Topology.tp_size t).
Notation dp := (Topology.dp_size t).
Notation replica := (TokenExchange.replica t).

(** The router, which gives a token as many weights as experts, and the TP
    slices of the shared expert. *)
Context (_route : H → list W * list Z) (shared : option (nat → H → H)).
Hypothesis Hroute : ∀ h, length (_route h).1 = length (_route h).2.

Definition token (h : H) : H * (list W * list Z) := (h, _route h).

Definition shared_sum (part : nat → H → H) (h : H) : H := hsum ((λ q, part q h) <$> seq 0 tp).
Definition shared_on r : option (H → H) := (λ part : nat → H → H, part (r mod tp)) <$> shared.
Definition shared_out (x : list H) : option (list H) := (λ part, shared_sum part <$> x) <$> shared.

(** The layer on one device: all the experts on every token. *)
Definition reference E (h : H) : H :=
  let out := routed E h (_route h).1 (_route h).2 in
  match shared with None => out | Some part => hadd out (shared_sum part h) end.

Lemma bind_map {A B C} (f : A → B) (g : B → list C) (l : list A) : (f <$> l) ≫= g = l ≫= λ x, g (f x).
Proof. induction l as [|x l IH]; [done|]. cbn. by rewrite IH. Qed.

Lemma replica_ranks {A} (f : nat → A) r : (λ q, f (q mod tp)) <$> replica r = f <$> seq 0 tp.
Proof.
  unfold TokenExchange.replica. pose proof (fmap_add_seq (r / tp * tp) 0 tp) as Es. rewrite Nat.add_0_r in Es.
  rewrite <- Es, <- list_fmap_compose. apply list_fmap_ext.
  intros i q Hq. apply lookup_seq in Hq as (-> & Hlt). cbn. f_equal. pose proof (Topology.valid_tp t Ht).
  rewrite Nat.add_comm, Nat.Div0.mod_add. by apply Nat.mod_small.
Qed.

Lemma spmd_shared (xs : nat → list H) :
  spmd n (λ r, shared_experts (G r) payload (shared_on r) (xs (r / tp))) (λ r, shared_out (xs (r / tp))).
Proof.
  unfold shared_experts, shared_on, shared_out. destruct shared as [part|]; cbn [fmap option_fmap option_map]; [|apply spmd_ret].
  unfold FusedMLP. eapply spmd_bind; [|apply spmd_ret]. eapply spmd_bind.
  - eapply spmd_ext; [|reflexivity|].
    2: { apply (spmd_replica_sum wire payload Hpayload t Ht a G HG (λ r, part (r mod tp) <$> xs (r / tp))).
         intros r r' Hr Hr'. destruct (replica_elem t Ht r r' Hr Hr') as (_ & ->). by rewrite !length_fmap. }
    intros r Hr. cbv beta. f_equal. symmetry. apply (list_fmap_compose (part (r mod tp)) RHidden).
  - eapply spmd_ext; [| |apply (spmd_ret wire n)]; intros r Hr; [by rewrite hidden_rows|]. cbv beta.
    rewrite length_fmap.
    transitivity (vsum (length (xs (r / tp))) ((λ q, part (q mod tp) <$> xs (r / tp)) <$> replica r)).
    + f_equal. apply list_fmap_ext. intros i q Hq.
      by destruct (replica_elem t Ht r q Hr (list_elem_of_lookup_2 _ _ _ Hq)) as (_ & ->).
    + rewrite vsum_map. apply list_fmap_ext. intros _ h _. unfold shared_sum. f_equal.
      apply (replica_ranks (λ q, part q h)).
Qed.

(** ** AgRs: the ragged pool *)

Section pooled.
Hypothesis Hdp : dp_attention_wanted t a = true.
Context (E : list (H → H)) (nl : nat).
Hypothesis HE : n * nl = length E.

Lemma replica_lanes r : r < n → replica r ≫= lane t ≡ₚ seq 0 n.
Proof.
  intros Hr. rewrite <- (Topology.lanes_partition t Ht), Topology.concat_fmap.
  replace (replica r ≫= lane t) with (seq 0 tp ≫= λ l, Topology.range_step l n tp); [done|].
  assert (seq 0 tp = (λ q, q mod tp) <$> replica r) as -> by (rewrite (replica_ranks id); symmetry; apply list_fmap_id).
  rewrite bind_map. apply Topology.bind_ext. intros q Hq. unfold lane, Topology.world_size.
  rewrite (Nat.mul_comm tp). pose proof (Topology.valid_tp t Ht). apply Topology.range_step_mul; [done|]. by apply Nat.mod_upper_bound.
Qed.

Lemma spmd_agrs (p : nat → placement) (xs : nat → list H) :
  (∀ r, r < n → expert_offset (p r) = r * nl ∧ num_local_experts (p r) = nl) →
  spmd n (λ r, _forward_dp_attention_agrs (G r) payload (p r) (window E nl r) _route (shared_on r) (xs (r / tp))
                 (MkMetadata (counts t xs) (r / tp)))
         (λ r, ((λ h, routed E h (_route h).1 (_route h).2) <$> xs (r / tp), shared_out (xs (r / tp)))).
Proof.
  intros Hp. unfold _forward_dp_attention_agrs.
  set (part := λ r h, gather (window E nl r) (h, ((_route h).1, ep_local_id (r * nl) nl <$> (_route h).2))).
  eapply spmd_bind.
  { apply (spmd_dispatch wire t Ht a G HG Hdp xs (λ i, (_route <$> xs i).*1) (λ i, (_route <$> xs i).*2)).
    intros i. by rewrite !length_fmap. }
  cbv beta iota. eapply spmd_bind.
  { apply (spmd_lift wire n _ (λ r, part r <$> pool t xs)). intros r Hr. destruct (Hp r Hr) as (-> & ->).
    set (R := (λ h, (h, ((_route h).1, ep_local_id (r * nl) nl <$> (_route h).2))) <$> pool t xs).
    replace (pool t xs) with (R.*1) at 1. 2: { unfold R. rewrite <- list_fmap_compose. by apply list_fmap_id. }
    replace (pool t (λ i, (_route <$> xs i).*1)) with (R.*2.*1).
    2: { unfold R. rewrite <- (pool_map t fst), <- (pool_map t _route), <- !list_fmap_compose. done. }
    replace ((λ l : list Z, ep_local_id (r * nl) nl <$> l) <$> pool t (λ i, (_route <$> xs i).*2)) with (R.*2.*2).
    2: { unfold R. rewrite <- (pool_map t snd), <- (pool_map t _route), <- !list_fmap_compose. done. }
    rewrite fused_moe_routed.
    - unfold R. by rewrite <- list_fmap_compose.
    - apply Forall_fmap, Forall_forall. intros h _. unfold aligned. cbn. by rewrite length_fmap. }
  eapply spmd_bind; [apply (spmd_combine wire payload Hpayload t Ht a G HG Hdp xs); intros; by rewrite length_fmap|].
  eapply spmd_bind; [apply spmd_shared|]. eapply spmd_ext; [reflexivity| |apply (spmd_ret wire n)].
  intros r Hr. cbv beta. f_equal.
  transitivity (vsum (length (xs (r / tp))) ((λ q, (λ h, hsum ((λ p, part p h) <$> lane t q)) <$> xs (r / tp)) <$> replica r)).
  - f_equal. apply list_fmap_ext. intros i q Hq. rewrite vsum_map, <- fmap_drop, <- fmap_take.
    by rewrite pool_slice by by apply replica_lt.
  - rewrite vsum_map. apply list_fmap_ext. intros _ h _.
    transitivity (hsum ((λ p, part p h) <$> (replica r ≫= lane t))).
    + symmetry. apply hsum_bind.
    + rewrite (hsum_perm _ ((λ p, part p h) <$> seq 0 n)) by by rewrite replica_lanes.
      apply (windows_routed E nl n h (_route h).1 (_route h).2 HE).
Qed.
End pooled.
End layer.
End MoESpec.
