(* ===== verification/SlotPlacement.v ===== *)
(** Where the routing slots of a batch go in the send buffer of the expert
    exchange: the sorted placement and the ticket placement give a slot the
    same seat, up to the order in which the slots arrive. *)

From stdpp Require Import sorting.
From S2P Require Import Prelude Spmd Topology ParallelState Collectives CollectiveSpec DPAttention MoE.

Module SlotPlacement.
Import Spmd Collectives CollectiveSpec DPAttention MoE.

Lemma filter_nothing {A} (P : A → Prop) `{!∀ x, Decision (P x)} l : Forall (λ x, ¬ P x) l → filter P l = [].
Proof. induction 1 as [|x l Hx _ IH]; [done|]. by rewrite filter_cons, decide_False. Qed.

(** ** Stable sorting *)

Section sorting.
Context (key : nat → Z).
Notation le := (λ i j, (key i ≤ key j)%Z).
Notation at_key v := (λ j, key j = v).

Lemma insert_stable_perm i l : insert_stable key i l ≡ₚ i :: l.
Proof.
  induction l as [|j l IH]; [done|]. cbn. case_match; [done|]. rewrite IH. by constructor.
Qed.

Lemma insert_stable_sorted i l : StronglySorted le l → StronglySorted le (insert_stable key i l).
Proof.
  induction 1 as [|j l Hl IH Hj]; cbn; [by repeat constructor|]. destruct (Z.ltb_spec (key i) (key j)) as [Hij|Hij].
  - constructor; [by constructor|]. constructor; [lia|]. eapply Forall_impl; [exact Hj|]. cbn. lia.
  - constructor; [exact IH|]. rewrite insert_stable_perm. by constructor.
Qed.

(** A new element comes after the ones of its key, and leaves the others where they are. *)
Lemma insert_stable_filter i l v :
  StronglySorted le l →
  filter (at_key v) (insert_stable key i l) = filter (at_key v) l ++ (if decide (key i = v) then [i] else []).
Proof.
  induction 1 as [|j l Hl IH Hj]; cbn [insert_stable].
  { rewrite filter_cons, !filter_nil. by case_decide. }
  destruct (Z.ltb_spec (key i) (key j)) as [Hij|Hij].
  - rewrite filter_cons. case_decide as Hi; [|by rewrite app_nil_r].
    assert (filter (at_key v) (j :: l) = []) as ->; [|done].
    apply filter_nothing. constructor; [lia|]. eapply Forall_impl; [exact Hj|]. cbn. lia.
  - rewrite !filter_cons, IH. by repeat case_decide.
Qed.

Lemma sort_facts l acc :
  StronglySorted le acc →
  let s := foldl (λ l i, insert_stable key i l) acc l in
  s ≡ₚ acc ++ l ∧ StronglySorted le s ∧ ∀ v, filter (at_key v) s = filter (at_key v) (acc ++ l).
Proof.
  revert acc. induction l as [|i l IH]; intros acc Hacc; cbn; [by rewrite app_nil_r|].
  destruct (IH (insert_stable key i acc)) as (Hp & Hs & Hf); [by apply insert_stable_sorted|].
  split; [|split; [done|]].
  - rewrite Hp, insert_stable_perm. cbn. by rewrite Permutation_middle.
  - intros v. rewrite Hf, !filter_app, insert_stable_filter, filter_cons by done. rewrite <- app_assoc. f_equal. by case_decide.
Qed.

(** A sorted list is its smaller elements, its equal ones, its larger ones. *)
Lemma sorted_segments l v :
  StronglySorted le l →
  l = filter (λ j, (key j < v)%Z) l ++ filter (at_key v) l ++ filter (λ j, (v < key j)%Z) l.
Proof.
  induction 1 as [|j l Hl IH Hj]; [done|]. rewrite !filter_cons.
  destruct (Z.lt_trichotomy (key j) v) as [Hlt|[He|Hgt]].
  - rewrite (decide_True (P := (key j < v)%Z)), (decide_False (P := key j = v)), (decide_False (P := (v < key j)%Z)) by lia.
    cbn. by f_equal.
  - rewrite (decide_False (P := (key j < v)%Z)), (decide_True (P := key j = v)), (decide_False (P := (v < key j)%Z)) by lia.
    assert (filter (λ j, (key j < v)%Z) l = []) as E.
    { apply filter_nothing. eapply Forall_impl; [exact Hj|]. cbn. lia. }
    rewrite E in IH |- *. cbn in IH |- *. by f_equal.
  - rewrite (decide_False (P := (key j < v)%Z)), (decide_False (P := key j = v)), (decide_True (P := (v < key j)%Z)) by lia.
    assert (filter (λ j, (key j < v)%Z) l = [] ∧ filter (at_key v) l = []) as (E1 & E2).
    { split; apply filter_nothing; (eapply Forall_impl; [exact Hj|]); cbn; lia. }
    rewrite E1, E2 in IH |- *. cbn in IH |- *. by f_equal.
Qed.
End sorting.

(** ** Seats *)

(** Slot [s] is the [i]-th of its destination among the slots [l]. *)
Definition seat (key : nat → Z) (l : list nat) (s i : nat) : Prop := filter (λ j, key j = key s) l !! i = Some s.

Section seats.
Context (key : nat → Z) (l : list nat).

Lemma seat_exists s : s ∈ l → ∃ i, seat key l s i.
Proof. intros Hs. apply list_elem_of_lookup_1, list_elem_of_filter. done. Qed.

Lemma seat_lt s i : seat key l s i → i < length l.
Proof. intros Hs%lookup_lt_Some. pose proof (length_filter (λ j, key j = key s) l). lia. Qed.

Lemma seat_unique s i i' : NoDup l → seat key l s i → seat key l s i' → i = i'.
Proof. intros Hl H1 H2. by eapply (NoDup_lookup _ _ _ s (NoDup_filter (λ j, key j = key s) _ Hl)). Qed.

Lemma seat_same s s' i : seat key l s i → seat key l s' i → key s = key s' → s = s'.
Proof. unfold seat. intros H1 H2 E. rewrite E in H1. congruence. Qed.
End seats.

Section sorted.
Context (num_local cap buf : nat) (flat_ids : list Z).
Notation n := (length flat_ids).

(** The destination of a slot. *)
Definition dest_of (i : nat) : Z := nth i ((λ id, id / Z.of_nat num_local)%Z <$> flat_ids) 0%Z.
Notation placement := (sorted_placement num_local cap buf flat_ids).
Notation order := (placement.1.1).

Lemma order_perm : order ≡ₚ seq 0 n.
Proof.
  unfold sorted_placement, stable_order. cbn [fst]. rewrite length_fmap.
  destruct (sort_facts dest_of (seq 0 n) []) as (Hp & _); [constructor|]. exact Hp.
Qed.

Lemma order_nodup : NoDup order.
Proof. rewrite order_perm. apply NoDup_seq. Qed.

Lemma sorted_seat q s :
  order !! q = Some s →
  ∃ i, seat dest_of (seq 0 n) s i ∧
    placement.1.2 !! q = Some (if i <? cap then Z.to_nat (dest_of s) * cap + i else buf) ∧
    placement.2 !! q = Some (i <? cap).
Proof.
  intros Hq. pose proof order_nodup as Hnd.
  destruct (sort_facts dest_of (seq 0 n) []) as (_ & Hs & Hf); [constructor|].
  assert (foldl (λ l i, insert_stable dest_of i l) [] (seq 0 n) = order) as Eo.
  { unfold sorted_placement, stable_order. cbn [fst]. by rewrite length_fmap. }
  cbv zeta in Hs, Hf. rewrite Eo in Hs, Hf.
  assert (s ∈ filter (λ j, dest_of j = dest_of s) order) as Hin.
  { apply list_elem_of_filter. split; [done|]. by eapply list_elem_of_lookup_2. }
  apply list_elem_of_lookup_1 in Hin as (i & Hi).
  assert (q = length (filter (λ j, (dest_of j < dest_of s)%Z) order) + i) as Eq.
  { eapply (NoDup_lookup order); [done|exact Hq|].
    pose proof (sorted_segments dest_of order (dest_of s) Hs) as Eseg.
    set (A := filter (λ j, (dest_of j < dest_of s)%Z) order) in *. rewrite Eseg.
    rewrite lookup_app_r by lia. rewrite Nat.add_comm, Nat.add_sub, lookup_app_l; [done|by eapply lookup_lt_Some]. }
  exists i. split; [unfold seat; change (seq 0 n) with ([] ++ seq 0 n); by rewrite <- (Hf (dest_of s))|].
  unfold sorted_placement. cbn [fst snd].
  set (dest := (λ id, id / Z.of_nat num_local)%Z <$> flat_ids).
  change (stable_order dest) with order.
  assert (((λ i, nth i dest 0%Z) <$> order) !! q = Some (dest_of s)) as Hd by by rewrite list_lookup_fmap, Hq.
  assert (searchsorted ((λ i, nth i dest 0%Z) <$> order) (dest_of s) = length (filter (λ j, (dest_of j < dest_of s)%Z) order)) as Es.
  { unfold searchsorted. change (λ i, nth i dest 0%Z) with dest_of. generalize (dest_of s) as v. intros v. generalize order as l.
    induction l as [|j l IH]; [done|]. cbn [fmap list_fmap]. rewrite !filter_cons. case_decide; cbn; by rewrite IH. }
  assert (imap (λ i v, i - searchsorted ((λ i, nth i dest 0%Z) <$> order) v) ((λ i, nth i dest 0%Z) <$> order) !! q = Some i) as Hp.
  { rewrite list_lookup_imap, Hd. cbn [fmap option_fmap option_map]. rewrite Es. f_equal. lia. }
  split.
  - rewrite lookup_zip_with, Hd. cbn [mbind option_bind]. rewrite Hp. done.
  - rewrite list_lookup_fmap, Hp. done.
Qed.
End sorted.

(** ** Scattering into a buffer *)

Section puts.
Context {A : Type}.
Implicit Types (buffer values : list A) (positions : list nat).

(** [buffer[positions] = values], all positions in range. *)
Definition put buffer positions values : list A := foldl (λ b '(p, v), <[p := v]> b) buffer (zip positions values).

Lemma put_Ok buffer positions values :
  Forall (λ p, p < length buffer) positions →
  rfold (λ '(p, v) buffer, _ ← item buffer p; Ok (<[p := v]> buffer)) (zip positions values) buffer =
    Ok (put buffer positions values).
Proof.
  unfold put. revert buffer values. induction positions as [|p ps IH]; intros buffer [|v vs] Hp; try done.
  apply Forall_cons in Hp as (Hp & Hps). destruct (lookup_lt_is_Some_2 buffer p Hp) as (o & Ho).
  cbn [zip zip_with rfold foldl]. rewrite (item_Ok _ _ o Ho). cbn [mbind result_bind]. apply IH. by rewrite length_insert.
Qed.

Lemma put_length buffer positions values : length (put buffer positions values) = length buffer.
Proof.
  unfold put. revert buffer. induction (zip positions values) as [|[p v] l IH]; intros buffer; [done|].
  cbn. by rewrite IH, length_insert.
Qed.

Lemma put_elsewhere buffer positions values p : p ∉ positions → put buffer positions values !! p = buffer !! p.
Proof.
  unfold put. revert buffer values. induction positions as [|q ps IH]; intros buffer [|v vs] Hp; try done.
  apply not_elem_of_cons in Hp as (Hq & Hp). cbn. rewrite IH by done. by apply list_lookup_insert_ne.
Qed.

(** A position that occurs once holds its value. *)
Lemma put_lookup buffer positions values i p v :
  positions !! i = Some p → values !! i = Some v → (∀ j, positions !! j = Some p → j = i) → p < length buffer →
  put buffer positions values !! p = Some v.
Proof.
  unfold put. revert buffer values i. induction positions as [|q ps IH]; intros buffer [|w vs] i Hi Hv Hu Hp; try done.
  destruct i as [|i]; cbn in *.
  - injection Hi as ->. injection Hv as ->. fold (put (<[p:=v]> buffer) ps vs). rewrite put_elsewhere.
    + by apply list_lookup_insert_eq.
    + intros (j & Hj)%list_elem_of_lookup_1. by specialize (Hu (S j) Hj).
  - apply (IH _ _ i); [done|done| |by rewrite length_insert]. intros j Hj. specialize (Hu (S j) Hj). lia.
Qed.

Lemma put_Forall (P : A → Prop) buffer positions values :
  Forall P buffer → Forall P values → Forall P (put buffer positions values).
Proof.
  unfold put. revert buffer values. induction positions as [|q ps IH]; intros buffer [|v vs] Hb Hv; try done.
  apply Forall_cons in Hv as (Hv & Hvs). cbn. apply IH; [by apply Forall_insert|done].
Qed.
End puts.

(** ** Filling the send buffer *)

Section filling.
Context {H W : Type} `{!HiddenOps H W}.
Notation row := (@row H W).
Notation tensor := (list row).
Context (num_local cap ep_size k : nat) (x : list H) (flat_ids : list Z).
Notation n := (length flat_ids).
Notation dest_of := (dest_of num_local flat_ids).

(** The token and the expert of every slot, the latter within the model. *)
Hypothesis Hslots : ∀ s id, flat_ids !! s = Some id →
  is_Some (x !! (s / k)) ∧ (0 ≤ id < Z.of_nat (ep_size * num_local))%Z.

Definition slot_row s (v : row) : Prop := ∃ h id, x !! (s / k) = Some h ∧ flat_ids !! s = Some id ∧ v = RSlot h id.
Definition is_slot (v : row) : Prop := ∃ h id, v = RSlot h id.

Lemma dest_of_id s id : flat_ids !! s = Some id → dest_of s = (id / Z.of_nat num_local)%Z.
Proof.
  intros Hs. unfold SlotPlacement.dest_of. rewrite nth_lookup, list_lookup_fmap, Hs. done.
Qed.

Lemma dest_bounds s id :
  flat_ids !! s = Some id → (0 ≤ dest_of s)%Z ∧ Z.to_nat (dest_of s) < ep_size.
Proof.
  intros Hs. rewrite (dest_of_id s id Hs). destruct (Hslots s id Hs) as (_ & Hid).
  assert (0 < Z.of_nat num_local)%Z by lia.
  split; [apply Z.div_pos; lia|]. apply Nat2Z.inj_lt. rewrite Z2Nat.id by (apply Z.div_pos; lia).
  apply Z.div_lt_upper_bound; lia.
Qed.

(** A slot is where its seat says. *)
Definition seated_at (l : list nat) (send_pos : list nat) (payload : tensor) s : Prop :=
  ∃ i v, seat dest_of l s i ∧ send_pos !! s = Some (Z.to_nat (dest_of s) * cap + i) ∧
    payload !! (Z.to_nat (dest_of s) * cap + i) = Some v ∧ slot_row s v.

(** What holds once the programs of [P] have run. *)
Definition placing (P : list nat) (state : list nat * list nat * tensor) : Prop :=
  let '(counters, send_pos, payload) := state in
  length counters = ep_size ∧ length send_pos = n ∧ length payload = ep_size * cap ∧ Forall is_slot payload ∧
  (∀ d, d < ep_size → counters !! d = Some (length (filter (λ j, dest_of j = Z.of_nat d) P))) ∧
  ∀ s, s ∈ P → s < n ∧ seated_at P send_pos payload s.

Lemma seat_snoc P s s' i : seat dest_of P s i → seat dest_of (P ++ [s']) s i.
Proof. unfold seat. rewrite filter_app. apply lookup_app_l_Some. Qed.

Lemma seat_index_lt P s i : seat dest_of P s i → i < length (filter (λ j, dest_of j = dest_of s) P).
Proof. apply lookup_lt_Some. Qed.

Lemma place_slot_seats P s state :
  n ≤ cap → s < n → s ∉ P → length P < n → placing P state →
  returns (_ep_place_scatter_kernel num_local cap k x flat_ids s state) (placing (P ++ [s])).
Proof.
  intros Hcap Hs HsP HP. destruct state as [[counters send_pos] payload]. intros (Hc & Hl & Hp & Hr & Hcount & Hseats).
  destruct (lookup_lt_is_Some_2 flat_ids s Hs) as (id & Hid). destruct (Hslots s id Hid) as ((h & Hh) & Hrange).
  destruct (dest_bounds s id Hid) as (Hd0 & Hd). pose proof (dest_of_id s id Hid) as Edest.
  assert (Z.quot id (Z.of_nat num_local) = dest_of s) as Equot by (rewrite Edest; apply Z.quot_div_nonneg; lia).
  set (d := Z.to_nat (dest_of s)) in *. set (pos := length (filter (λ j, dest_of j = dest_of s) P)).
  assert (counters !! d = Some pos) as Hpos by (rewrite Hcount by done; unfold d, pos; by rewrite Z2Nat.id).
  assert (pos < cap) as Hposcap by (pose proof (length_filter (λ j, dest_of j = dest_of s) P); unfold pos; lia).
  assert (d * cap + pos < ep_size * cap) as Hsp by nia.
  unfold _ep_place_scatter_kernel. rewrite (item_Ok _ _ id Hid). cbn [mbind result_bind]. rewrite Equot. fold d.
  rewrite (item_Ok _ _ pos Hpos). cbn [mbind result_bind].
  destruct (lookup_lt_is_Some_2 send_pos s) as (old & Hold); [lia|]. rewrite (item_Ok _ _ old Hold). cbn [mbind result_bind].
  rewrite (item_Ok _ _ h Hh). cbn [mbind result_bind].
  destruct (lookup_lt_is_Some_2 payload (d * cap + pos)) as (v & Hv); [lia|]. rewrite (item_Ok _ _ v Hv). cbn [mbind result_bind].
  apply returns_ret. unfold placing. rewrite !length_insert. do 3 (split; [done|]). split; [|split].
  - apply Forall_insert; [done|]. by exists h, id.
  - intros d' Hd'. rewrite filter_app, length_app, filter_cons, filter_nil. case_decide as E.
    + assert (d' = d) as -> by (unfold d; lia). rewrite list_lookup_insert_eq by lia. f_equal. cbn. unfold pos. rewrite <- E. lia.
    + rewrite list_lookup_insert_ne by (unfold d; lia). cbn. rewrite Nat.add_0_r. by apply Hcount.
  - intros s' [Hs'| ->%list_elem_of_singleton]%elem_of_app.
    + destruct (Hseats s' Hs') as (Hs'n & i & w & Hi & Hpos' & Hw & Hrow). split; [done|]. exists i, w.
      assert (s ≠ s') as Hne by (intros ->; done). rewrite list_lookup_insert_ne by done. split; [by apply seat_snoc|]. split; [done|].
      split; [|done]. rewrite list_lookup_insert_ne; [done|]. fold d. intros E.
      pose proof (seat_index_lt P s' i Hi) as Hlt.
      assert (i < cap) as Hicap by (pose proof (length_filter (λ j, dest_of j = dest_of s') P); lia).
      apply Topology.digits in E as (Ed & Ei); [|done..].
      destruct (lookup_lt_is_Some_2 flat_ids s' Hs'n) as (id' & Hid'). destruct (dest_bounds s' id' Hid') as (Hd0' & _).
      assert (dest_of s' = dest_of s) as Es by (unfold d in Ed; lia). rewrite Es in Hlt. unfold pos in Ei. lia.
    + split; [done|]. exists pos, (RSlot h id). fold d. split; [|split; [|split]].
      * unfold seat. rewrite filter_app, filter_cons, filter_nil, decide_True by done.
        rewrite lookup_app_r by done. by rewrite Nat.sub_diag.
      * by rewrite list_lookup_insert_eq by lia.
      * by rewrite list_lookup_insert_eq by lia.
      * by exists h, id.
Qed.

Lemma ep_dispatch_place_seats (arrival : list nat) (payload : tensor) :
  n ≤ cap → ep_size ≤ 32 → ep_size * cap ≠ 0 → arrival ≡ₚ seq 0 n → length payload = ep_size * cap → Forall is_slot payload →
  returns (ep_dispatch_place num_local cap ep_size arrival x k flat_ids payload) (λ '(send_pos, payload),
    length send_pos = n ∧ length payload = ep_size * cap ∧ Forall is_slot payload ∧
    ∀ s, s < n → seated_at arrival send_pos payload s).
Proof.
  intros Hcap H32 Hbuf Harr Hlen Hrows. unfold ep_dispatch_place.
  apply returns_guard; [by apply Nat.leb_le|]. cbn [_ep_prep_kernel].
  apply returns_guard; [by apply bool_decide_eq_true|].
  assert (NoDup arrival) as Hnd by (rewrite Harr; apply NoDup_seq).
  assert (length arrival = n) as Hla by (rewrite Harr; apply length_seq).
  apply returns_bind. eapply returns_mono.
  - apply (returns_rfold placing).
    + unfold placing. rewrite !length_replicate, length_fmap. do 3 (split; [done|]). split; [|split].
      * apply Forall_fmap. eapply Forall_impl; [exact Hrows|]. intros v (h & id & ->). by exists h, (-1)%Z.
      * intros d Hd. by rewrite lookup_replicate_2.
      * by intros s Hs%elem_of_nil.
    + intros pre s post state -> Hpre. apply NoDup_app in Hnd as (_ & Hdis & _). rewrite length_app in Hla. cbn in Hla.
      apply place_slot_seats; [done| | |lia|done].
      * assert (s ∈ seq 0 n) as Hs%elem_of_seq by (rewrite <- Harr; set_solver). lia.
      * intros Hs. apply (Hdis s Hs). left.
  - intros [[counters send_pos] payload'] (_ & Hl & Hp & Hr & _ & Hs). apply returns_ret. repeat split; [done..|].
    intros s Hsn. apply Hs. rewrite Harr. apply elem_of_seq. lia.
Qed.

(** The sorted fill: the slot at sorted place [q]. *)
Definition filled_at (order send_pos : list nat) (keep : list bool) (payload : tensor) q s : Prop :=
  order !! q = Some s ∧ ∃ i, seat dest_of (seq 0 n) s i ∧ keep !! q = Some (i <? cap) ∧
    if i <? cap
    then send_pos !! q = Some (Z.to_nat (dest_of s) * cap + i) ∧
         ∃ v, payload !! (Z.to_nat (dest_of s) * cap + i) = Some v ∧ slot_row s v
    else send_pos !! q = Some (ep_size * cap).

Notation placement := (sorted_placement num_local cap (ep_size * cap) flat_ids).

Lemma order_slot q s : placement.1.1 !! q = Some s → s < n.
Proof.
  intros Hq%list_elem_of_lookup_2. rewrite order_perm in Hq. apply elem_of_seq in Hq. lia.
Qed.

Lemma sorted_position q p :
  placement.1.2 !! q = Some p →
  ∃ s i, placement.1.1 !! q = Some s ∧ seat dest_of (seq 0 n) s i ∧
    p = if i <? cap then Z.to_nat (dest_of s) * cap + i else ep_size * cap.
Proof.
  intros Hq. assert (is_Some (placement.1.1 !! q)) as (s & Hs).
  { apply lookup_lt_is_Some. apply lookup_lt_Some in Hq. unfold sorted_placement in *. cbn [fst snd] in *.
    rewrite length_zip_with, length_fmap in Hq. lia. }
  destruct (sorted_seat num_local cap (ep_size * cap) flat_ids q s Hs) as (i & Hi & Hp & _).
  exists s, i. split; [done|]. split; [done|]. congruence.
Qed.

Lemma sorted_fill :
  let order := placement.1.1 in
  returns (values ← rmap (λ i, h ← item x (i / k); id ← item flat_ids i; Ok (RSlot h id)) order;
           index_put (replicate (ep_size * cap + 1) (RSlot hzero 0)) placement.1.2 values) (λ payload,
    length (take (ep_size * cap) payload) = ep_size * cap ∧ Forall is_slot (take (ep_size * cap) payload) ∧
    ∀ q s, order !! q = Some s → filled_at order placement.1.2 placement.2 (take (ep_size * cap) payload) q s).
Proof.
  cbv zeta. set (order := placement.1.1).
  set (row_of s := match x !! (s / k), flat_ids !! s with Some h, Some id => RSlot h id | _, _ => RZero end : row).
  assert (∀ s, s < n → slot_row s (row_of s)) as Hrow.
  { intros s Hs. destruct (lookup_lt_is_Some_2 flat_ids s Hs) as (id & Hid). destruct (Hslots s id Hid) as ((h & Hh) & _).
    exists h, id. unfold row_of. by rewrite Hh, Hid. }
  rewrite (rmap_Ok _ row_of).
  2: { intros s (q & Hq)%list_elem_of_lookup_1. destruct (Hrow s (order_slot q s Hq)) as (h & id & Hh & Hid & ->).
       rewrite (item_Ok _ _ h Hh). cbn [mbind result_bind]. by rewrite (item_Ok _ _ id Hid). }
  cbn [mbind result_bind]. unfold index_put.
  assert (∀ s i, s < n → i < cap → Z.to_nat (dest_of s) * cap + i < ep_size * cap) as Hin.
  { intros s i Hs Hi. destruct (lookup_lt_is_Some_2 flat_ids s Hs) as (id & Hid). destruct (dest_bounds s id Hid). nia. }
  rewrite put_Ok.
  2: { apply Forall_forall. intros p (q & Hq)%list_elem_of_lookup_1. rewrite length_replicate.
       destruct (sorted_position q p Hq) as (s & i & Hs & Hi & ->). destruct (Nat.ltb_spec i cap); [|lia].
       pose proof (Hin s i (order_slot q s Hs)). lia. }
  apply returns_ret. set (payload := put _ _ _).
  assert (length payload = ep_size * cap + 1) as Hlen by (unfold payload; by rewrite put_length, length_replicate).
  split; [rewrite length_take; lia|]. split.
  { apply Forall_take. unfold payload. apply put_Forall.
    - apply Forall_replicate. by exists hzero, 0%Z.
    - apply Forall_fmap, Forall_forall. intros s (q & Hq)%list_elem_of_lookup_1.
      destruct (Hrow s (order_slot q s Hq)) as (h & id & _ & _ & E). cbn. rewrite E. by exists h, id. }
  intros q s Hq. split; [done|].
  destruct (sorted_seat num_local cap (ep_size * cap) flat_ids q s Hq) as (i & Hi & Hp & Hk).
  exists i. split; [done|]. split; [done|]. destruct (Nat.ltb_spec i cap) as [Hc|Hc]; [|done]. split; [done|].
  pose proof (order_slot q s Hq) as Hs. pose proof (Hin s i Hs Hc) as Hlt. exists (row_of s). split; [|by apply Hrow].
  rewrite lookup_take_lt by done. apply (put_lookup _ _ _ q); [done|by rewrite list_lookup_fmap, Hq| |rewrite length_replicate; lia].
  intros q' Hq'. destruct (sorted_position q' _ Hq') as (s' & i' & Hs' & Hi' & E).
  destruct (Nat.ltb_spec i' cap) as [Hc'|Hc']; [|lia]. apply Topology.digits in E as (Ed & <-); [|done..].
  eapply (NoDup_lookup order); [apply order_nodup|exact Hs'|]. rewrite Hq. f_equal.
  eapply (seat_same dest_of (seq 0 n)); [exact Hi|exact Hi'|].
  destruct (lookup_lt_is_Some_2 flat_ids s Hs) as (id & Hid). destruct (dest_bounds s id Hid) as (H0 & _).
  destruct (lookup_lt_is_Some_2 flat_ids s' (order_slot q' s' Hs')) as (id' & Hid'). destruct (dest_bounds s' id' Hid') as (H0' & _). lia.
Qed.
End filling.
End SlotPlacement.
