(* ===== verification/AllToAllSpec.v ===== *)
(** The expert exchange: a routing slot travels to the rank that owns its
    expert and its result comes back to the place it left from, so every token
    gathers the experts its routing names.  A bounded capacity drops exactly
    the slots that come too late at their destination. *)

From S2P Require Import Prelude Spmd Topology ParallelState Collectives CollectiveSpec DPAttention MoE ExpertSum TokenExchange MoESpec SlotPlacement.

Module AllToAllSpec.
Import Spmd ParallelState Collectives CollectiveSpec DPAttention MoE ExpertSum TokenExchange MoESpec SlotPlacement.

(** ** Rectangles *)

Lemma concat_uniform {A} (ls : list (list A)) m i j :
  Forall (λ l, length l = m) ls → j < m → concat ls !! (i * m + j) = ls !! i ≫= (.!! j).
Proof.
  intros Hl. revert i. induction Hl as [|l ls Hl _ IH]; intros i Hj; [done|]. cbn [concat].
  destruct i as [|i]; cbn [lookup list_lookup mbind option_bind].
  - rewrite lookup_app_l by lia. done.
  - rewrite lookup_app_r by lia. rewrite Hl. replace (S i * m + j - m) with (i * m + j) by lia. by apply IH.
Qed.

Lemma concat_uniform_length {A} (ls : list (list A)) m : Forall (λ l, length l = m) ls → length (concat ls) = length ls * m.
Proof. induction 1 as [|l ls Hl _ IH]; [done|]. cbn. rewrite length_app. lia. Qed.

(** ** One exchange, and two *)

Section exchanges.
Context {H W : Type} `{!HiddenOps H W, !HiddenLaws H W}.
Notation row := (@row H W).
Notation tensor := (list row).
Context (wire : collective → list tensor → option (list (list tensor))) `{!WireLaws wire}.
Notation spmd := (Spmd.spmd wire).
Context (n : nat) (G : nat → grid) (grp : nat → group) (size : nat).
Hypothesis Hfam : family n grp.
Hypothesis Hsize : ∀ r, r < n → group_size (grp r) = size.
Notation place r := (group_rank (grp r) r).

Definition received (m : nat → nat) (y : nat → tensor) r : tensor := concat (chunk (m r) (place r) <$> peers grp y r).

Section one.
Context (m : nat → nat) (y : nat → tensor).
Hypothesis Hy : ∀ r, r < n → length (y r) = m r * size.
Hypothesis Hm : ∀ r r', r < n → r' ∈ ranks (grp r) → m r' = m r.

Lemma chunks_uniform r : r < n → Forall (λ l, length l = m r) (chunk (m r) (place r) <$> peers grp y r).
Proof.
  intros Hr. apply Forall_fmap, Forall_fmap, Forall_forall. intros r' Hr'. cbn. unfold chunk.
  destruct (family_peer _ _ Hfam r r' Hr Hr') as (Hn & _).
  pose proof (group_rank_lt (grp r) r (family_own _ _ Hfam r Hr)) as Hk. rewrite Hsize in Hk by done.
  rewrite length_take, length_drop, Hy, (Hm r r') by done. nia.
Qed.

Lemma received_length r : r < n → length (received m y r) = m r * size.
Proof.
  intros Hr. unfold received. rewrite (concat_uniform_length _ (m r)) by by apply chunks_uniform.
  rewrite length_fmap, (peers_length grp), Hsize by done. lia.
Qed.

(** Place [i], row [o] of what is received is what rank [i] of the group had
    for us at row [o]. *)
Lemma received_lookup r i o r' :
  r < n → o < m r → ranks (grp r) !! i = Some r' → received m y r !! (i * m r + o) = y r' !! (place r * m r + o).
Proof.
  intros Hr Ho Hi. unfold received. rewrite concat_uniform by (done || by apply chunks_uniform).
  unfold peers. rewrite !list_lookup_fmap, Hi. cbn. by rewrite chunk_lookup, decide_True.
Qed.

Lemma spmd_exchange : spmd n (λ r, exchange (G r) (Some (grp r)) (y r)) (received m y).
Proof.
  unfold exchange. destruct (Nat.leb_spec size 1) as [Hs|Hs].
  - eapply spmd_ext; [| |apply (spmd_ret wire n y)]; intros r Hr.
    + rewrite Hsize by done. by apply Nat.leb_le in Hs as ->.
    + unfold received. pose proof (group_rank_lt (grp r) r (family_own _ _ Hfam r Hr)) as Hk.
      pose proof (Hy r Hr) as Hl. rewrite Hsize in Hk by done. assert (size = 1) as E by lia. rewrite E in *.
      rewrite (peers_single n grp Hfam) by (done || rewrite Hsize by done; lia). cbn. rewrite app_nil_r.
      unfold chunk. replace (place r) with 0 by lia. cbn. rewrite drop_0, take_ge by lia. done.
  - eapply spmd_ext; [|reflexivity|apply (spmd_exchange_all wire n grp Hfam m y)].
    + intros r Hr. rewrite Hsize by done. by apply Nat.leb_gt in Hs as ->.
    + intros r Hr. rewrite Hsize by done. by apply Hy.
    + done.
Qed.
End one.

(** Sent, worked on by the rank at the other end, and sent back. *)
Lemma returned_lookup (m : nat → nat) (y : nat → tensor) (F : nat → row → row) r p :
  (∀ r, r < n → length (y r) = m r * size) → (∀ r r', r < n → r' ∈ ranks (grp r) → m r' = m r) →
  r < n → p < m r * size →
  received m (λ r, F (place r) <$> received m y r) r !! p = F (p / m r) <$> y r !! p.
Proof.
  intros Hy Hm Hr Hp. assert (m r ≠ 0) as H0 by lia.
  pose proof (Nat.div_mod_eq p (m r)) as Ep. pose proof (Nat.mod_upper_bound p (m r) H0) as Ho.
  set (i := p / m r) in *. set (o := p mod m r) in *. assert (i < size) as Hi by nia.
  destruct (lookup_lt_is_Some_2 (ranks (grp r)) i) as (r' & Hr').
  { unfold group_size in Hsize. by rewrite Hsize. }
  destruct (family_peer _ _ Hfam r r' Hr) as (Hn & Eg); [by eapply list_elem_of_lookup_2|].
  assert (m r' = m r) as Em by (apply Hm; [done|by eapply list_elem_of_lookup_2]).
  assert (place r' = i) as Ei.
  { rewrite Eg. unfold group_rank. rewrite (position_lookup r' _ i); [done|by apply Hfam|done]. }
  replace p with (i * m r + o) by lia. rewrite (received_lookup m _) with (r' := r'); [|intros; rewrite length_fmap; by apply received_length|done..].
  rewrite list_lookup_fmap, Ei. f_equal.
  pose proof (received_lookup m y Hy Hm r' (place r) o r Hn) as Hrec. rewrite Em, Ei in Hrec. apply Hrec; [done|].
  rewrite Eg. by apply group_rank_lookup, Hfam.
Qed.
End exchanges.

(** ** One rank's slots *)

Section slots.
Context {H W : Type} `{!HiddenOps H W, !HiddenLaws H W}.
Notation row := (@row H W).
Notation tensor := (list row).
Notation tokens := (list (H * (list W * list Z))).
Context (E : list (H → H)) (nl size k cap : nat) (R : tokens).
Hypothesis HE : size * nl = length E.

(** Every token names [k] experts of the model. *)
Definition routed_to : Prop := Forall (λ token : H * (list W * list Z),
  length token.2.1 = k ∧ length token.2.2 = k ∧ Forall (λ id, (0 ≤ id < Z.of_nat (length E))%Z) token.2.2) R.
Hypothesis HR : routed_to.

Notation flat_ids := (concat (R.*2.*2)).
Notation x := (R.*1).
Notation slots := (length R * k).
Notation dest_of := (dest_of nl flat_ids).

(** How many slots before [s] go where [s] goes. *)
Definition earlier s : nat := length (filter (λ j, dest_of j = dest_of s) (seq 0 s)).
Definition kept s : bool := earlier s <? cap.

Definition slot_value s : H :=
  if kept s then match x !! (s / k), flat_ids !! s with Some h, Some id => expert E id h | _, _ => hzero end else hzero.

(** What the exchange delivers to each token: its experts, less the slots
    dropped at capacity. *)
Definition delivered : list H :=
  imap (λ t token, hsum (imap (λ j p, if kept (t * k + j) then scale p.1 (expert E p.2 token.1) else hzero)
                          (zip token.2.1 token.2.2))) R.

Lemma ids_uniform : Forall (λ l : list Z, length l = k) (R.*2.*2).
Proof. do 2 apply Forall_fmap. eapply Forall_impl; [exact HR|]. by intros ? (? & ? & ?). Qed.

Lemma weights_uniform : Forall (λ l : list W, length l = k) (R.*2.*1).
Proof. do 2 apply Forall_fmap. eapply Forall_impl; [exact HR|]. by intros ? (? & ? & ?). Qed.

Lemma flat_length : length flat_ids = slots.
Proof. by rewrite (concat_uniform_length _ k ids_uniform), !length_fmap. Qed.

Lemma flat_slot t j : j < k → flat_ids !! (t * k + j) = R !! t ≫= λ token, token.2.2 !! j.
Proof. intros Hj. rewrite (concat_uniform _ k) by (done || apply ids_uniform). rewrite !list_lookup_fmap. by destruct (R !! t). Qed.

Lemma slot_digits t j : j < k → (t * k + j) / k = t.
Proof. intros Hj. symmetry. apply (Nat.div_unique _ _ _ j); lia. Qed.

Lemma slots_routed s id :
  flat_ids !! s = Some id → is_Some (x !! (s / k)) ∧ (0 ≤ id < Z.of_nat (size * nl))%Z.
Proof.
  intros Hs. pose proof Hs as Hlt%lookup_lt_Some. rewrite flat_length in Hlt. assert (k ≠ 0) by lia.
  pose proof (Nat.div_mod_eq s k) as Ed. pose proof (Nat.mod_upper_bound s k) as Hm.
  rewrite Ed, (Nat.mul_comm k), flat_slot in Hs by lia. rewrite list_lookup_fmap.
  destruct (R !! (s / k)) as [token|] eqn:Et; [|done]. cbn in Hs |- *. split; [eauto|].
  pose proof (Forall_lookup_1 _ _ _ _ HR Et) as (_ & _ & Hids). rewrite HE. by apply (Forall_lookup_1 _ _ _ _ Hids Hs).
Qed.

(** A batch with slots names experts of a model. *)
Lemma no_model : slots ≠ 0 → length E ≠ 0.
Proof.
  intros Hslots E0. destruct (lookup_lt_is_Some_2 flat_ids 0) as (id & Hid); [rewrite flat_length; lia|].
  destruct (slots_routed 0 id Hid) as (_ & Hr). rewrite HE, E0 in Hr. lia.
Qed.

Lemma earlier_seat s : s < slots → seat dest_of (seq 0 slots) s (earlier s).
Proof.
  intros Hs. unfold seat, earlier. replace slots with (s + S (slots - S s)) at 1 by lia.
  rewrite seq_app, filter_app. cbn [Nat.add seq]. rewrite lookup_app_r by done.
  by rewrite Nat.sub_diag, filter_cons, decide_True.
Qed.

Lemma earlier_lt s : s < slots → earlier s < slots.
Proof. intros Hs. pose proof (seat_lt _ _ _ _ (earlier_seat s Hs)) as Hlt. by rewrite length_seq in Hlt. Qed.

(** Slot [s] travels in row [p] of the buffer. *)
Definition carried (payload : tensor) s p : Prop :=
  ∃ h id, x !! (s / k) = Some h ∧ flat_ids !! s = Some id ∧ payload !! p = Some (RSlot h id) ∧
    p < size * cap ∧ p / cap = Z.to_nat (dest_of s).

Lemma seated_carried (payload : tensor) s i v :
  i < cap → length payload = size * cap → payload !! (Z.to_nat (dest_of s) * cap + i) = Some v →
  slot_row k x flat_ids s v → carried payload s (Z.to_nat (dest_of s) * cap + i).
Proof.
  intros Hi Hl Hv (h & id & Hh & Hid & ->). exists h, id. split; [done|]. split; [done|]. split; [done|].
  split; [rewrite <- Hl; by eapply lookup_lt_Some|]. symmetry. apply (Nat.div_unique _ _ _ i); [done|lia].
Qed.

(** The two ways of filling the buffer. *)
Definition filled (order : option (list nat)) (send_pos : list nat) (payload : tensor) : Prop :=
  length payload = size * cap ∧ Forall is_slot payload ∧
  let slot_order := default (seq 0 slots) order in
  slot_order ≡ₚ seq 0 slots ∧ length send_pos = slots ∧
  ∀ q s p, slot_order !! q = Some s → send_pos !! q = Some p →
    if kept s then carried payload s p else p = size * cap ∧ is_Some order.

Lemma fill_payload_filled (d : AllToAllDispatcher) (dev : device) :
  d_num_local d = nl → (capacity d = None → cap = slots) → (strict d = true → capacity d = None) →
  arrival dev slots ≡ₚ seq 0 slots → slots ≠ 0 →
  returns (fill_payload dev d x k flat_ids cap size) (λ '(order, send_pos, payload), filled order send_pos payload).
Proof.
  intros Hnl Hcap Hstrict Harr Hslots. unfold fill_payload. rewrite Hnl, flat_length.
  destruct (_fused d && bool_decide (capacity d = None) && (size <=? 32) && cuda dev) eqn:Efused.
  - repeat (apply andb_prop in Efused as (Efused & ?)). rename select (bool_decide _ = true) into Hnone.
    apply bool_decide_eq_true in Hnone. specialize (Hcap Hnone).
    apply returns_bind. eapply returns_mono.
    + apply (ep_dispatch_place_seats nl cap size k x flat_ids); rewrite ?flat_length.
      * intros s id. apply slots_routed.
      * lia.
      * by apply Nat.leb_le.
      * rewrite Hcap. assert (size ≠ 0) by (intros E0; apply (no_model Hslots); by rewrite <- HE, E0). lia.
      * exact Harr.
      * by rewrite length_fmap, length_seq.
      * apply Forall_fmap, Forall_forall. intros i _. by eexists _, _.
    + intros [send_pos payload] (Hl & Hp & Hr & Hs). rewrite flat_length in *. apply returns_ret. split; [done|]. split; [done|].
      cbn [default from_option]. unfold id. split; [done|]. split; [done|]. intros q s p Hq Hpos.
      apply lookup_seq in Hq as (-> & Hq). destruct (Hs q Hq) as (i & v & Hi & Hpos' & Hv & Hrow). cbn [Nat.add] in *.
      assert (kept q = true) as -> by (apply Nat.ltb_lt; rewrite Hcap; by apply earlier_lt).
      rewrite Hpos in Hpos'. injection Hpos' as ->. apply (seated_carried _ _ _ v); [|done..].
      pose proof (seat_lt _ _ _ _ Hi) as Hlt. rewrite Harr, length_seq in Hlt. lia.
  - destruct (sorted_placement nl cap (size * cap) flat_ids) as [[order send_pos] keep] eqn:Eplace.
    assert (_detect_overflow dev d keep cap slots = Ok tt) as ->.
    { unfold _detect_overflow. destruct (strict d) eqn:Es; [|done]. rewrite (Hcap (Hstrict eq_refl)), Nat.leb_refl. done. }
    cbn [mbind result_bind]. pose proof (sorted_fill nl cap size k x flat_ids slots_routed) as Hfill. cbv zeta in Hfill.
    pose proof (order_perm nl cap (size * cap) flat_ids) as Hperm.
    rewrite Eplace in Hfill, Hperm. cbn [fst snd] in Hfill, Hperm. rewrite flat_length in Hperm.
    destruct Hfill as (payload & Hbind & Hl & Hr & Hs). apply bind_Ok in Hbind as (values & -> & Hput).
    cbn [mbind result_bind]. rewrite Hput. cbn [mbind result_bind]. apply returns_ret. split; [done|]. split; [done|].
    cbn [default from_option]. unfold id. split; [done|].
    assert (length send_pos = slots) as Hlen.
    { assert (send_pos = (sorted_placement nl cap (size * cap) flat_ids).1.2) as -> by by rewrite Eplace.
      unfold sorted_placement. cbn [fst snd]. rewrite length_zip_with, length_imap, !length_fmap, Nat.min_id.
      change (length (sorted_placement nl cap (size * cap) flat_ids).1.1 = slots). rewrite Eplace. cbn. by rewrite Hperm, length_seq. }
    split; [done|]. intros q s p Hq Hpos. destruct (Hs q s Hq) as (_ & i & Hi & _ & Hwhere). rewrite flat_length in Hi.
    assert (s < slots) as Hslt.
    { apply list_elem_of_lookup_2 in Hq. rewrite Hperm in Hq. apply elem_of_seq in Hq. lia. }
    assert (i = earlier s) as -> by (eapply seat_unique; [apply NoDup_seq|exact Hi|by apply earlier_seat]).
    unfold kept. destruct (earlier s <? cap) eqn:Ec.
    + destruct Hwhere as (Hpos' & v & Hv & Hrow). rewrite Hpos in Hpos'. injection Hpos' as ->.
      apply Nat.ltb_lt in Ec. by eapply seated_carried.
    + split; [congruence|eauto].
Qed.

(** The results that came back, by the row they left in. *)
Definition answered (payload : tensor) (back : list H) : Prop :=
  length back = size * cap ∧
  ∀ p h id, payload !! p = Some (RSlot h id) → p < size * cap →
    back !! p = Some (expert (window E nl (p / cap)) (ep_local_id (p / cap * nl) nl id) h).

Lemma rmap_by_slot {A} (f : nat → result A) (g : nat → A) (l order : list nat) :
  length l = length order → (∀ q s p, order !! q = Some s → l !! q = Some p → f p = Ok (g s)) →
  rmap f l = Ok (g <$> order).
Proof.
  revert order. induction l as [|p l IH]; intros [|s order] Hl Hf; try done. injection Hl as Hl. cbn.
  rewrite (Hf 0 s p) by done. cbn [mbind result_bind]. rewrite (IH order Hl); [done|]. intros q s' p'. apply (Hf (S q)).
Qed.

Lemma back_slot order send_pos payload back q s p :
  filled order send_pos payload → answered payload back →
  default (seq 0 slots) order !! q = Some s → send_pos !! q = Some p →
  (back ++ [hzero]) !! p = Some (slot_value s) ∧ (order = None → back !! p = Some (slot_value s)).
Proof.
  intros (_ & _ & _ & _ & Hf) (Hl & Hb) Hq Hp. specialize (Hf q s p Hq Hp). unfold slot_value. destruct (kept s).
  - destruct Hf as (h & id & Hh & Hid & Hrow & Hlt & Hd). rewrite Hh, Hid, lookup_app_l by lia.
    rewrite (Hb p h id Hrow Hlt), window_expert, Hd. destruct (slots_routed s id Hid) as (_ & Hrange).
    rewrite (decide_True (P := (0 ≤ id)%Z)) by lia. assert (nl ≠ 0) by lia. rewrite decide_True; [done|].
    split; [|done]. rewrite (dest_of_id nl flat_ids s id Hid). symmetry. rewrite <- (Z2Nat.id id) at 1 by lia.
    by rewrite <- Nat2Z.inj_div, Nat2Z.id.
  - destruct Hf as (-> & Ho). split; [|by intros ->; destruct Ho]. rewrite lookup_app_r by lia. by rewrite Hl, Nat.sub_diag.
Qed.

Lemma unpermute_order (dev : device) order :
  order ≡ₚ seq 0 slots → unpermute dev order (slot_value <$> order) = Ok (slot_value <$> seq 0 slots).
Proof.
  intros Ho. assert (length order = slots) as Hl by by rewrite Ho, length_seq.
  unfold unpermute. rewrite put_Ok.
  2: { apply Forall_forall. intros s Hs. rewrite Ho in Hs. apply elem_of_seq in Hs. rewrite !length_fmap, length_seq. lia. }
  f_equal. apply list_eq. intros s. destruct (decide (s < slots)) as [Hs|Hs].
  - assert (s ∈ order) as Hin by (rewrite Ho; apply elem_of_seq; lia). apply list_elem_of_lookup_1 in Hin as (q & Hq).
    rewrite list_lookup_fmap, lookup_seq_lt by done. cbn [fmap option_fmap option_map Nat.add].
    apply (put_lookup _ _ _ q); [done|by rewrite list_lookup_fmap, Hq| |rewrite !length_fmap, length_seq; lia].
    intros q' Hq'. eapply NoDup_lookup; [|exact Hq'|exact Hq]. rewrite Ho. apply NoDup_seq.
  - rewrite !lookup_ge_None_2; [done| |]; rewrite ?put_length, !length_fmap, length_seq; lia.
Qed.

(** The weighted sum of the slots of every token. *)
Lemma sum_slots_delivered :
  sum_slots (length R) k (zip_with scale (concat (R.*2.*1)) (slot_value <$> seq 0 slots)) = delivered.
Proof.
  unfold sum_slots, delivered. apply list_eq. intros t. rewrite list_lookup_fmap, list_lookup_imap.
  destruct (R !! t) as [token|] eqn:Et.
  2: { apply lookup_ge_None in Et. by rewrite lookup_seq_ge. }
  pose proof (lookup_lt_Some _ _ _ Et) as Ht. rewrite lookup_seq_lt by done. cbn [fmap option_fmap option_map Nat.add]. f_equal.
  pose proof (Forall_lookup_1 _ _ _ _ HR Et) as (Hw & Hi & _). f_equal. apply list_eq. intros j.
  destruct (decide (j < k)) as [Hj|Hj].
  - rewrite lookup_take_lt, lookup_drop, lookup_zip_with, list_lookup_imap, list_lookup_fmap by done.
    rewrite (concat_uniform _ k) by (done || apply weights_uniform). rewrite !list_lookup_fmap, Et. cbn [fmap option_fmap option_map mbind option_bind].
    destruct (lookup_lt_is_Some_2 token.2.1 j) as (w & Ew); [lia|]. destruct (lookup_lt_is_Some_2 token.2.2 j) as (id & Eid); [lia|].
    rewrite lookup_zip_with, Ew. cbn [mbind option_bind]. rewrite lookup_seq_lt by nia.
    rewrite Eid. cbn [mbind option_bind fmap option_fmap option_map Nat.add fst snd]. f_equal. unfold slot_value.
    rewrite slot_digits, flat_slot, list_lookup_fmap, Et by done. cbn [fmap option_fmap option_map mbind option_bind]. rewrite Eid.
    case_match; [done|]. apply scale_zero.
  - rewrite lookup_take_ge by lia. symmetry. apply lookup_ge_None. rewrite length_imap, length_zip_with. lia.
Qed.

Lemma combine_b_delivered (dev : device) order send_pos payload back recv :
  filled order send_pos payload → answered payload back → slots ≠ 0 →
  combine_b dev (MkHandle (length R) k cap size order send_pos (concat (R.*2.*1)) recv (Some (RHidden <$> back : tensor))) = Ok delivered.
Proof.
  intros Hf Hb Hslots. pose proof Hf as (_ & _ & Ho & Hl & _). unfold combine_b. cbn [h_recv_out h_order h_rows h_top_k h_send_pos h_flat_weights].
  rewrite hidden_rows. cbn [mbind result_bind]. destruct order as [order|].
  - rewrite (rmap_by_slot _ slot_value send_pos order).
    + cbn [mbind result_bind]. rewrite unpermute_order by done. cbn [mbind result_bind].
      rewrite bool_decide_true by done. cbn [rguard mbind result_bind]. by rewrite sum_slots_delivered.
    + rewrite Hl. cbn in Ho. by rewrite Ho, length_seq.
    + intros q s p Hq Hp. apply item_Ok. by apply (back_slot _ _ _ back q s p Hf Hb).
  - unfold ep_combine. rewrite (rmap_by_slot _ slot_value send_pos (seq 0 slots)).
    + cbn [mbind result_bind]. by rewrite sum_slots_delivered.
    + by rewrite Hl, length_seq.
    + intros q s p Hq Hp. apply item_Ok. by apply (back_slot _ _ _ back q s p Hf Hb).
Qed.
End slots.

(** ** The round trip of a grid *)

Section round_trip.
Context {H W : Type} `{!HiddenOps H W, !HiddenLaws H W}.
Notation row := (@row H W).
Notation tensor := (list row).
Notation tokens := (list (H * (list W * list Z))).
Context (wire : collective → list tensor → option (list (list tensor))) `{!WireLaws wire}.
Notation spmd := (Spmd.spmd wire).
Context (n : nat) (G : nat → grid) (grp : nat → group) (size : nat).
Hypothesis Hfam : family n grp.
Hypothesis Hsize : ∀ r, r < n → group_size (grp r) = size.
Hypothesis Hep : ∀ r, r < n → _EP_ENABLED (G r) = true ∧ _EP_GROUP (G r) = Some (grp r).
Notation place r := (group_rank (grp r) r).
Context (E : list (H → H)) (nl k : nat).
Hypothesis HE : size * nl = length E.
Context (D : nat → AllToAllDispatcher) (dev : nat → device (H := H)) (R : nat → tokens).
Hypothesis HD : ∀ r, r < n → d_num_experts (D r) = length E ∧ d_num_local (D r) = nl ∧ d_offset (D r) = place r * nl ∧
  (strict (D r) = true → capacity (D r) = None).
Hypothesis HR : ∀ r, r < n → routed_to E k (R r).
Hypothesis Hfull : ∀ r, r < n → length (R r) * k ≠ 0.
Hypothesis Harr : ∀ r, r < n → arrival (dev r) (length (R r) * k) ≡ₚ seq 0 (length (R r) * k).

(** The members of a group exchange blocks of one size. *)
Definition cap_of r : nat := dispatch_cap (D r) (length (R r) * k) size.
Hypothesis cap_same : ∀ r r', r < n → r' ∈ ranks (grp r) → cap_of r' = cap_of r.
Notation flat_ids r := (concat ((R r).*2.*2)).

(** The buffer a rank sends. *)
Definition sent r : option (list nat) * list nat * tensor :=
  match fill_payload (dev r) (D r) ((R r).*1) k (flat_ids r) (cap_of r) size with Ok v => v | Err _ => (None, [], []) end.
Definition sent_rows r : tensor := (sent r).2.

Lemma sent_filled r :
  r < n → fill_payload (dev r) (D r) ((R r).*1) k (flat_ids r) (cap_of r) size = Ok (sent r) ∧
  filled nl size k (cap_of r) (R r) (sent r).1.1 (sent r).1.2 (sent_rows r).
Proof.
  intros Hr. destruct (HD r Hr) as (_ & Hnl & _ & Hs).
  destruct (fill_payload_filled E nl size k (cap_of r) (R r) HE (HR r Hr) (D r) (dev r)) as ([[o sp] pl] & Hfill & Hf); [done| |done|by apply Harr|by apply Hfull|].
  - intros Hc. unfold cap_of, dispatch_cap. by rewrite Hc.
  - unfold sent_rows, sent. by rewrite Hfill.
Qed.

Lemma sent_length r : r < n → length (sent_rows r) = cap_of r * size.
Proof. intros Hr. destruct (sent_filled r Hr) as (_ & Hl & _). lia. Qed.

Definition recv r : tensor := received grp cap_of sent_rows r.
Definition handle recv_out r : DispatchHandle :=
  MkHandle (length (R r)) k (cap_of r) size (sent r).1.1 (sent r).1.2 (concat ((R r).*2.*1)) (recv r) recv_out.

Lemma spmd_dispatch_a :
  spmd n (λ r, dispatch_a (G r) (dev r) (D r) ((R r).*1) k ((R r).*2.*2) ((R r).*2.*1)) (handle None).
Proof.
  apply (spmd_ext wire n (λ r, recv ← exchange (G r) (Some (grp r)) (sent_rows r);
    Ret (MkHandle (length (R r)) k (cap_of r) size (sent r).1.1 (sent r).1.2 (concat ((R r).*2.*1)) recv None)) _ (handle None)).
  - intros r Hr. destruct (HD r Hr) as (Hne & Hnl & _). destruct (Hep r Hr) as (He & Hg). pose proof (HR r Hr) as HRr.
    unfold dispatch_a. rewrite (bool_decide_true (length <$> _ = _)).
    2: { rewrite <- !list_fmap_compose. apply list_fmap_ext. intros i token Hi. cbn.
         pose proof (Forall_lookup_1 _ _ _ _ HRr Hi) as (-> & -> & _). done. }
    cbn [pguard mbind prog_bind]. rewrite (bool_decide_true (length _ = _)) by by rewrite !length_fmap.
    cbn [pguard mbind prog_bind]. replace (cuda (dev r) || _) with true.
    2: { symmetry. apply orb_true_iff. right. apply forallb_forall. intros id Hid%list_elem_of_In%list_elem_of_lookup_1.
         destruct Hid as (s & Hs). destruct (slots_routed E nl size k (R r) HE HRr s id Hs) as (_ & Hid). rewrite HE, <- Hne in Hid.
         apply andb_true_iff. rewrite Z.leb_le, Z.ltb_lt. done. }
    cbn [pguard mbind prog_bind]. unfold get_ep_group. rewrite He, Hg. cbn [_ep_size]. rewrite Hsize, Hne, Hnl by done.
    rewrite bool_decide_true by done. cbn [pguard mbind prog_bind]. rewrite length_fmap.
    destruct (sent_filled r Hr) as (Hfill & _). unfold cap_of in *. rewrite Hfill. cbn [lift mbind prog_bind].
    unfold sent_rows. by destruct (sent r) as [[o sp] pl].
  - done.
  - eapply spmd_bind; [apply (spmd_exchange wire n G grp size Hfam Hsize cap_of sent_rows)|apply spmd_ret].
    + apply sent_length.
    + apply cap_same.
Qed.

(** The rows this rank works on, and what becomes of one. *)
Definition work d (v : row) : row :=
  match v with RSlot h id => RHidden (expert (window E nl d) (ep_local_id (d * nl) nl id) h) | v => v end.
Definition worked r : list H :=
  (λ v, match v with RSlot h id => expert (window E nl (place r)) (ep_local_id (place r * nl) nl id) h | _ => hzero end) <$> recv r.

Lemma recv_slots r : r < n → Forall is_slot (recv r).
Proof.
  intros Hr. unfold recv, received. apply Forall_concat, Forall_fmap, Forall_fmap, Forall_forall. intros r' Hr'. cbn. unfold chunk.
  apply Forall_take, Forall_drop. destruct (family_peer _ _ Hfam r r' Hr Hr') as (Hn & _). by destruct (sent_filled r' Hn) as (_ & _ & Hs & _).
Qed.

Lemma local_experts r recv_out :
  r < n → (l ← dispatch_b (D r) (handle recv_out r); _fused_moe (window E nl (place r)) l.1.1 l.2 l.1.2) = Ok (worked r).
Proof.
  intros Hr. destruct (HD r Hr) as (_ & Hnl & Hoff & _). unfold dispatch_b, handle. cbn [h_recv]. rewrite Hnl, Hoff.
  set (pick := λ v : row, match v with RSlot h id => (h, id) | _ => (hzero, 0%Z) end).
  rewrite (rmap_Ok _ pick).
  2: { intros v Hv. pose proof (recv_slots r Hr) as Hs. rewrite Forall_forall in Hs. by destruct (Hs v Hv) as (h & id & ->). }
  cbn [mbind result_bind fst snd].
  set (toks := (λ p, (p.1, ([one], [ep_local_id (place r * nl) nl p.2]))) <$> (pick <$> recv r) : tokens).
  replace ((pick <$> recv r).*1) with (toks.*1) by (unfold toks; by rewrite <- !list_fmap_compose).
  replace ((λ _ : H * Z, [one]) <$> (pick <$> recv r)) with (toks.*2.*1) by (unfold toks; by rewrite <- !list_fmap_compose).
  replace ((λ '(_, id), [ep_local_id (place r * nl) nl id]) <$> (pick <$> recv r)) with (toks.*2.*2).
  2: { unfold toks. rewrite <- !list_fmap_compose. apply list_fmap_ext. intros _ v _. cbn. by destruct (pick v). }
  rewrite fused_moe_routed.
  - f_equal. unfold worked, toks. rewrite <- !list_fmap_compose. apply list_fmap_ext. intros i v Hv.
    pose proof (recv_slots r Hr) as Hs. destruct (Forall_lookup_1 _ _ _ _ Hs Hv) as (h & id & ->). cbn.
    unfold gather, routed. cbn. by rewrite scale_one, hadd_zero_r.
  - apply Forall_fmap, Forall_forall. done.
Qed.

Definition back r : list H :=
  (λ v, match v with RHidden h => h | _ => hzero end) <$> received grp cap_of (λ r, work (place r) <$> recv r) r.

Lemma worked_rows r : r < n → (RHidden <$> worked r : tensor) = work (place r) <$> recv r.
Proof.
  intros Hr. unfold worked. rewrite <- list_fmap_compose. apply list_fmap_ext. intros i v Hv.
  pose proof (recv_slots r Hr) as Hs. by destruct (Forall_lookup_1 _ _ _ _ Hs Hv) as (h & id & ->).
Qed.

Lemma recv_length r : r < n → length (recv r) = cap_of r * size.
Proof. intros Hr. apply (received_length n grp size Hfam Hsize cap_of sent_rows sent_length cap_same r Hr). Qed.

Lemma back_answered r : r < n → answered E nl size (cap_of r) (sent_rows r) (back r).
Proof.
  intros Hr. split.
  - unfold back. rewrite length_fmap, (received_length n grp size Hfam Hsize); [lia| |apply cap_same|done].
    intros r' Hr'. rewrite length_fmap. by apply recv_length.
  - intros p h id Hp Hlt. unfold back, recv. rewrite list_lookup_fmap, (returned_lookup n grp size Hfam Hsize cap_of sent_rows work r p);
      [by rewrite Hp|apply sent_length|apply cap_same|done|lia].
Qed.

Lemma spmd_combine_a :
  spmd n (λ r, combine_a (G r) (handle None r) (worked r)) (λ r, handle (Some (RHidden <$> back r)) r).
Proof.
  unfold combine_a. eapply spmd_bind.
  - eapply spmd_ext; [|reflexivity|apply (spmd_exchange wire n G grp size Hfam Hsize cap_of (λ r, work (place r) <$> recv r))].
    + intros r Hr. destruct (Hep r Hr) as (He & Hg). unfold get_ep_group. by rewrite He, Hg, worked_rows.
    + intros r Hr. rewrite length_fmap. by apply recv_length.
    + apply cap_same.
  - eapply spmd_ext; [reflexivity| |apply (spmd_ret wire n)]. intros r Hr. cbv beta. unfold handle. cbn. do 2 f_equal.
    unfold back. rewrite <- list_fmap_compose. symmetry. apply list_fmap_same. intros v Hv. cbn.
    unfold received in Hv. apply elem_of_concat in Hv as (l & Hl & (r' & -> & Hr')%list_elem_of_fmap).
    apply elem_take, elem_drop in Hl. unfold peers in Hr'. apply list_elem_of_fmap in Hr' as (r'' & -> & Hr'').
    apply list_elem_of_fmap in Hl as (w & -> & Hw). destruct (family_peer _ _ Hfam r r'' Hr Hr'') as (Hn & _).
    pose proof (recv_slots r'' Hn) as Hs. rewrite Forall_forall in Hs. by destruct (Hs w Hw) as (h & id & ->).
Qed.

Lemma combined r : r < n → combine_b (dev r) (handle (Some (RHidden <$> back r)) r) = Ok (delivered E nl k (cap_of r) (R r)).
Proof.
  intros Hr. destruct (sent_filled r Hr) as (_ & Hf). eapply combine_b_delivered; [done|by apply HR|exact Hf|by apply back_answered|by apply Hfull].
Qed.

Lemma spmd_round_trip :
  spmd n (λ r, expert_round_trip (G r) (dev r) (window E nl (place r)) k (D r) ((R r).*1) ((R r).*2.*2) ((R r).*2.*1))
         (λ r, delivered E nl k (cap_of r) (R r)).
Proof.
  unfold expert_round_trip. eapply spmd_bind; [apply spmd_dispatch_a|]. cbv beta.
  apply (spmd_ext wire n (λ r, out ← combine_a (G r) (handle None r) (worked r); lift (combine_b (dev r) out)) _
    (λ r, delivered E nl k (cap_of r) (R r))); [|done|].
  - intros r Hr. pose proof (local_experts r None Hr) as Hl. apply bind_Ok in Hl as ([[x ids] ws] & -> & Hout).
    cbn [fst snd] in Hout. cbn [lift mbind prog_bind]. rewrite Hout. done.
  - eapply spmd_bind; [apply spmd_combine_a|]. apply spmd_lift. intros r Hr. by apply combined.
Qed.

(** The same trip with other work of the rank between the exchanges. *)
Lemma spmd_overlapped {B} (work : nat → @prog tensor B) (b : nat → B) :
  spmd n work b →
  spmd n (λ r,
      handle ← dispatch_a (G r) (dev r) (D r) ((R r).*1) k ((R r).*2.*2) ((R r).*2.*1);
      done ← work r;
      '(local_x, local_ids, local_weights) ← lift (dispatch_b (D r) handle);
      local_out ← lift (_fused_moe (window E nl (place r)) local_x local_weights local_ids);
      handle ← combine_a (G r) handle local_out;
      out ← lift (combine_b (dev r) handle);
      Ret (out, done))
    (λ r, (delivered E nl k (cap_of r) (R r), b r)).
Proof.
  intros Hwork. eapply spmd_bind; [apply spmd_dispatch_a|]. cbv beta. eapply spmd_bind; [exact Hwork|]. cbv beta.
  apply (spmd_ext wire n (λ r, handle ← combine_a (G r) (handle None r) (worked r);
    out ← lift (combine_b (dev r) handle); Ret (out, b r)) _ (λ r, (delivered E nl k (cap_of r) (R r), b r))); [|done|].
  - intros r Hr. pose proof (local_experts r None Hr) as Hl. apply bind_Ok in Hl as ([[x ids] ws] & -> & Hout).
    cbn [fst snd] in Hout. cbn [lift mbind prog_bind]. rewrite Hout. done.
  - eapply spmd_bind; [apply spmd_combine_a|]. eapply spmd_bind; [apply spmd_lift, combined|]. apply spmd_ret.
Qed.
End round_trip.
End AllToAllSpec.
