(* ===== verification/MoEForward.v ===== *)
(** [SparseMoeBlock.forward] on every layout of the grid, from
    [init_parallel] to the layer's output. *)

From S2P Require Import Prelude Spmd Topology ParallelState Collectives CollectiveSpec DPAttention MoE ExpertSum TokenExchange MoESpec SlotPlacement AllToAllSpec.

Module MoEForward.
Import Spmd ParallelState Collectives CollectiveSpec DPAttention MoE ExpertSum TokenExchange MoESpec SlotPlacement AllToAllSpec.

(** Without a capacity no slot is dropped. *)
Lemma delivered_all {H W : Type} `{!HiddenOps H W, !HiddenLaws H W} (E : list (H → H)) nl size k cap
    (R : list (H * (list W * list Z))) :
  size * nl = length E → routed_to E k R → length R * k ≤ cap → delivered E nl k cap R = gather E <$> R.
Proof.
  intros HE HR Hcap. unfold delivered. apply list_eq. intros t. rewrite list_lookup_imap, list_lookup_fmap.
  destruct (R !! t) as [token|] eqn:Et; [|done]. cbn [fmap option_fmap option_map]. f_equal.
  unfold gather. rewrite routed_zip. f_equal. pose proof (Forall_lookup_1 _ _ _ _ HR Et) as (Hw & Hi & _).
  apply list_eq. intros j. rewrite list_lookup_imap, list_lookup_fmap.
  destruct (zip token.2.1 token.2.2 !! j) as [[w id]|] eqn:Ej; [|done]. cbn [fmap option_fmap option_map fst snd]. f_equal.
  apply lookup_lt_Some in Et, Ej. rewrite length_zip_with in Ej.
  assert (kept nl cap R (t * k + j) = true) as ->; [|done]. apply Nat.ltb_lt.
  pose proof (earlier_lt E nl size k R HE (t * k + j)). nia.
Qed.

Section forward.
Context {H W : Type} `{!HiddenOps H W, !HiddenLaws H W}.
Notation row := (@row H W).
Notation tensor := (list row).
Notation prog := (@prog tensor).
Context (wire : collective → list tensor → option (list (list tensor))) `{!WireLaws wire}.
Notation spmd := (Spmd.spmd wire).
Context (payload : tensor → nat).
Hypothesis Hpayload : ∀ x y, length x = length y → payload x = payload y.
Context (t : Topology.ParallelTopology) (Ht : Topology.valid t) (a : init_args) (G : nat → grid).
Hypothesis HG : placed t a G.
Notation n := (Topology.world_size t).
Notation tp := (Topology.tp_size t).
Notation dp := (Topology.dp_size t).
Notation replica := (TokenExchange.replica t).

Context (E : list (H → H)) (k : nat) (_route : H → list W * list Z) (shared : option (nat → H → H)).

(** The router names [k] experts of the model for every token. *)
Definition routes : Prop := ∀ h, length (_route h).1 = k ∧ length (_route h).2 = k ∧
  Forall (λ id, (0 ≤ id < Z.of_nat (length E))%Z) (_route h).2.
Hypothesis Hroute : routes.

Notation token h := ((h, _route h) : H * (list W * list Z)).

Lemma tokens_routed x : routed_to E k ((λ h, token h) <$> x).
Proof. apply Forall_fmap, Forall_forall. intros h _. apply Hroute. Qed.

Lemma route_aligned h : length (_route h).1 = length (_route h).2.
Proof. destruct (Hroute h) as (-> & -> & _). done. Qed.

Lemma part_tokens_split x :
  ((λ h, token h) <$> x).*1 = x ∧ ((λ h, token h) <$> x).*2.*1 = (_route <$> x).*1 ∧
  ((λ h, token h) <$> x).*2.*2 = (_route <$> x).*2.
Proof. rewrite <- !list_fmap_compose. split; [|done]. by apply list_fmap_id. Qed.

(** ** The padded rectangle *)

Section rectangle.
Hypothesis Hdp : dp_attention_wanted t a = true.
Context (xs : nat → list H).
Notation counts := (TokenExchange.counts t xs).
Notation padded := (maximum counts).

Definition padded_batch i : list H := xs i ++ replicate (padded - length (xs i)) hzero.
Definition rectangle : list H := concat (padded_batch <$> seq 0 dp).

Lemma count_le i : i < dp → length (xs i) ≤ padded.
Proof.
  intros Hi. apply elem_le_maximum. apply list_elem_of_fmap. exists i. split; [done|]. apply elem_of_seq. lia.
Qed.

Lemma count_item i : i < dp → item counts i = Ok (length (xs i)).
Proof. intros Hi. apply item_Ok. unfold TokenExchange.counts. by rewrite list_lookup_fmap, lookup_seq_lt. Qed.

Lemma spmd_rectangle :
  spmd n (λ r, dp_gather (G r) (xs (r / tp)) (MkMetadata counts (r / tp))) (λ _, rectangle).
Proof.
  destruct (lane_family t Ht a G HG Hdp) as (grp & Hf & Hg).
  set (rows i := (RHidden <$> xs i) ++ replicate (padded - length (xs i)) RZero : tensor).
  assert (∀ i, i < dp → length (rows i) = padded) as Hrows.
  { intros i Hi. unfold rows. rewrite length_app, length_fmap, length_replicate. pose proof (count_le i Hi). lia. }
  unfold dp_gather. apply (spmd_ext wire n (λ r,
    pool ← data_parallel_all_gather (G r) (Some (grp r)) (rows (r / tp)); lift (rmap hidden_of pool)) _ (λ _, rectangle)); [|done|].
  - intros r Hr. pose proof (replica_lt t Ht r Hr) as Hlt. unfold local_tokens. cbn [num_tokens_across_dp DPAttention.rank].
    rewrite count_item by done. cbn [lift mbind prog_bind]. rewrite bool_decide_true by done. cbn [pguard mbind prog_bind].
    assert ((if decide (length (RHidden <$> xs (r / tp) : tensor) = padded) then (RHidden <$> xs (r / tp) : tensor)
             else pad_rows padded (RHidden <$> xs (r / tp))) = rows (r / tp)) as Epad.
    { unfold pad_rows, rows. rewrite length_fmap. case_decide as Eq; [|done]. by rewrite Eq, Nat.sub_diag, app_nil_r. }
    unfold padded_tokens. cbn [num_tokens_across_dp]. rewrite Epad.
    unfold data_parallel_all_gather. by destruct (Hg r Hr) as (-> & _).
  - eapply spmd_bind.
    + apply (spmd_dp_gather wire n G grp Hf dp (λ r Hr, proj1 (proj2 (proj2 (Hg r Hr)))) (λ r, rows (r / tp))).
      intros r r' Hr Hr'. destruct (family_peer _ _ Hf r r' Hr Hr') as (Hn & _).
      by rewrite !Hrows by by apply replica_lt.
    + eapply spmd_ext; [|reflexivity|apply (spmd_ret wire n)]. intros r Hr. cbv beta.
      destruct (Hg r Hr) as (_ & El & _). unfold peers. rewrite El, (lane_peers t Ht rows).
      assert (∀ l, (∀ i, i ∈ l → i < dp) → rmap hidden_of (concat (rows <$> l)) = Ok (concat (padded_batch <$> l))) as Hgo.
      { induction l as [|i l IH]; intros Hl; [done|]. cbn [fmap list_fmap concat]. apply rmap_Ok_app; [|apply IH; intros; apply Hl; by right].
        unfold rows, padded_batch. apply rmap_Ok_app; [apply hidden_rows|].
        generalize (padded - length (xs i)) as m. induction m as [|m IHm]; [done|]. cbn. by rewrite IHm. }
      rewrite Hgo; [done|]. intros i Hi%elem_of_seq. lia.
Qed.

Lemma padded_rectangle_length : length rectangle = dp * padded.
Proof.
  unfold rectangle. rewrite (concat_uniform_length _ padded); [by rewrite length_fmap, length_seq|].
  apply Forall_fmap, Forall_forall. intros i Hi%elem_of_seq. cbn. unfold padded_batch.
  rewrite length_app, length_replicate. pose proof (count_le i). lia.
Qed.

Lemma rectangle_full : k ≠ 0 → (∃ i, i < dp ∧ xs i ≠ []) → length rectangle * k ≠ 0.
Proof.
  intros Hk (i & Hi & Hx). rewrite padded_rectangle_length. pose proof (count_le i Hi).
  assert (length (xs i) ≠ 0) by (intros E0%nil_length_inv; done).
  rewrite !Nat.eq_mul_0. lia.
Qed.

(** A replica's rows of a result over the rectangle. *)
Lemma scatter_slice {B} (f : H → B) r :
  r < n → take (length (xs (r / tp))) (drop (r / tp * padded) (f <$> rectangle)) = f <$> xs (r / tp).
Proof.
  intros Hr. pose proof (replica_lt t Ht r Hr) as Hlt. set (i := r / tp) in *.
  rewrite <- fmap_drop, <- fmap_take. f_equal. unfold rectangle.
  assert (seq 0 dp = seq 0 i ++ i :: seq (S i) (dp - S i)) as ->.
  { replace dp with (i + S (dp - S i)) at 1 by lia. by rewrite seq_app. }
  rewrite fmap_app, concat_app. cbn [fmap list_fmap concat]. rewrite drop_app_length'.
  - unfold padded_batch. by rewrite <- app_assoc, take_app_length.
  - rewrite (concat_uniform_length _ padded); [by rewrite length_fmap, length_seq|].
    apply Forall_fmap, Forall_forall. intros j Hj%elem_of_seq. cbn. unfold padded_batch.
    rewrite length_app, length_replicate. pose proof (count_le j). lia.
Qed.
End rectangle.

(** ** The layouts *)

Context (dev : nat → device (H := H)) (D : nat → AllToAllDispatcher).
Hypothesis Harr : ∀ r m, arrival (dev r) m ≡ₚ seq 0 m.

(** A dispatcher without a capacity, on rank [i] of an expert split. *)
Definition dispatches (nl : nat) (d : AllToAllDispatcher) (i : nat) : Prop :=
  d_num_experts d = length E ∧ d_num_local d = nl ∧ d_offset d = i * nl ∧ capacity d = None.

Definition routed_all (x : list H) : list H := (λ h, routed E h (_route h).1 (_route h).2) <$> x.

Section split.
(** The expert split: a family of groups holding windows of the model. *)
Context (grp : nat → group) (size nl : nat).
Hypothesis Hfam : family n grp.
Hypothesis Hsize : ∀ r, r < n → group_size (grp r) = size.
Hypothesis Hep : ∀ r, r < n → _EP_ENABLED (G r) = true ∧ _EP_GROUP (G r) = Some (grp r).
Hypothesis HE : size * nl = length E.
Notation place r := (group_rank (grp r) r).
Hypothesis HD : ∀ r, r < n → dispatches nl (D r) (place r).

Section batch.
Context (x : nat → list H).
Hypothesis Hx : ∀ r r', r < n → r' ∈ ranks (grp r) → length (x r') = length (x r).
Hypothesis Hfull : ∀ r, r < n → length (x r) * k ≠ 0.

Lemma split_dispatch r : r < n → d_num_experts (D r) = length E ∧ d_num_local (D r) = nl ∧ d_offset (D r) = place r * nl ∧
  (strict (D r) = true → capacity (D r) = None).
Proof. intros Hr. by destruct (HD r Hr) as (? & ? & ? & ?). Qed.

Lemma split_routed r : r < n → routed_to E k ((λ h, token h) <$> x r).
Proof. intros _. apply tokens_routed. Qed.

Lemma split_arrival r : r < n →
  arrival (dev r) (length ((λ h, token h) <$> x r) * k) ≡ₚ seq 0 (length ((λ h, token h) <$> x r) * k).
Proof. intros _. apply Harr. Qed.

Lemma split_full r : r < n → length ((λ h, token h) <$> x r) * k ≠ 0.
Proof. intros Hr. rewrite length_fmap. by apply Hfull. Qed.

Lemma split_cap r r' : r < n → r' ∈ ranks (grp r) →
  cap_of size k D (λ r, (λ h, token h) <$> x r) r' = cap_of size k D (λ r, (λ h, token h) <$> x r) r.
Proof.
  intros Hr Hr'. unfold cap_of, dispatch_cap. destruct (HD r Hr) as (_ & _ & _ & ->).
  destruct (family_peer _ _ Hfam r r' Hr Hr') as (Hn & _). destruct (HD r' Hn) as (_ & _ & _ & ->).
  by rewrite !length_fmap, (Hx r r').
Qed.

Lemma split_delivered r : r < n →
  delivered E nl k (cap_of size k D (λ r, (λ h, token h) <$> x r) r) ((λ h, token h) <$> x r) = routed_all (x r).
Proof.
  intros Hr. rewrite (delivered_all E nl size); [by unfold routed_all; rewrite <- list_fmap_compose|done|apply tokens_routed|].
  unfold cap_of, dispatch_cap. by destruct (HD r Hr) as (_ & _ & _ & ->).
Qed.

Lemma spmd_experts :
  spmd n (λ r, expert_round_trip (G r) (dev r) (window E nl (place r)) k (D r) (x r) ((_route <$> x r).*2) ((_route <$> x r).*1))
         (λ r, routed_all (x r)).
Proof.
  eapply spmd_ext; [| |apply (spmd_round_trip wire n G grp size Hfam Hsize Hep E nl k HE D dev (λ r, (λ h, token h) <$> x r)
    split_dispatch split_routed split_full split_arrival split_cap)].
  - intros r Hr. by destruct (part_tokens_split (x r)) as (-> & -> & ->).
  - intros r Hr. by apply split_delivered.
Qed.

(** [_forward_ep], with the shared expert after the exchanges or between them. *)
Lemma spmd_forward_ep (overlap : bool) (work : nat → option (H → H)) (b : nat → option (list H)) :
  (∀ r r', r < n → r' < n → cuda (dev r) = cuda (dev r') ∧ (work r = None ↔ work r' = None)) →
  spmd n (λ r, shared_experts (G r) payload (work r) (x r)) b →
  spmd n (λ r, _forward_ep (G r) (dev r) payload (window E nl (place r)) k (D r) (work r) overlap
                 (x r) ((_route <$> x r).*2) ((_route <$> x r).*1))
         (λ r, (routed_all (x r), b r)).
Proof.
  intros Hall Hwork.
  set (after r := negb (cuda (dev r)) || bool_decide (work r = None) || negb overlap).
  assert (∀ r, r < n → after r = after 0) as Hafter.
  { intros r Hr. destruct (Hall r 0) as (E1 & E2); [lia..|]. unfold after. rewrite E1. do 2 f_equal. by apply bool_decide_ext. }
  unfold _forward_ep. destruct (after 0) eqn:Eafter.
  - eapply (spmd_ext wire n (λ r,
      out ← expert_round_trip (G r) (dev r) (window E nl (place r)) k (D r) (x r) ((_route <$> x r).*2) ((_route <$> x r).*1);
      shared ← shared_experts (G r) payload (work r) (x r);
      Ret (out, shared))); [|reflexivity|].
    + intros r Hr. specialize (Hafter r Hr). unfold after in Hafter. by rewrite Hafter.
    + eapply spmd_bind; [apply spmd_experts|]. eapply spmd_bind; [exact Hwork|apply spmd_ret].
  - eapply spmd_ext; [| |apply (spmd_overlapped wire n G grp size Hfam Hsize Hep E nl k HE D dev (λ r, (λ h, token h) <$> x r)
      split_dispatch split_routed split_full split_arrival split_cap _ b Hwork)].
    + intros r Hr. specialize (Hafter r Hr). unfold after in Hafter. rewrite Hafter.
      by destruct (part_tokens_split (x r)) as (-> & -> & ->).
    + intros r Hr. cbv beta. by rewrite split_delivered.
Qed.
End batch.

(** The padded rectangle through the exchange, and this replica's rows back. *)
Lemma spmd_a2a_pooled (xs : nat → list H) :
  dp_attention_wanted t a = true → k ≠ 0 → (∃ i, i < dp ∧ xs i ≠ []) →
  spmd n (λ r, _forward_dp_attention_a2a (G r) (dev r) payload (window E nl (place r)) k (D r) _route (shared_on t shared r)
                 (xs (r / tp)) (MkMetadata (counts t xs) (r / tp)))
         (λ r, (routed_all (xs (r / tp)), shared_out t shared (xs (r / tp)))).
Proof.
  intros Hdp Hk Hne. unfold _forward_dp_attention_a2a. eapply spmd_bind; [by apply spmd_rectangle|]. cbv beta zeta.
  eapply spmd_bind; [apply (spmd_experts (λ _, rectangle xs)); [done|intros r _; by apply rectangle_full]|].
  eapply spmd_bind; [apply (spmd_shared wire payload Hpayload t Ht a G HG)|].
  eapply spmd_ext; [| |apply (spmd_ret wire n)]; [|reflexivity]. intros r Hr. cbv beta.
  unfold dp_scatter, local_tokens, padded_offset, padded_tokens. cbn [num_tokens_across_dp DPAttention.rank].
  rewrite (count_item xs (r / tp)) by by apply replica_lt. cbn [lift mbind result_bind prog_bind]. f_equal. f_equal.
  unfold routed_all. by rewrite scatter_slice.
Qed.
End split.

(** Every expert cut over the replica: the partial outputs are reduced. *)
Lemma spmd_dense (slices : list (nat → H → H)) (xs : nat → list H) :
  sliced E slices tp →
  spmd n (λ r,
      out ← lift (_fused_moe ((λ part : nat → H → H, part (r mod tp)) <$> slices) (xs (r / tp))
                    ((_route <$> xs (r / tp)).*1) ((_route <$> xs (r / tp)).*2));
      out ← tensor_model_parallel_all_reduce payload (G r) (RHidden <$> out);
      out ← lift (rmap hidden_of out);
      shared ← shared_experts (G r) payload (shared_on t shared r) (xs (r / tp));
      Ret (out, shared))
    (λ r, (routed_all (xs (r / tp)), shared_out t shared (xs (r / tp)))).
Proof.
  intros Hs. set (part q h := gather ((λ part : nat → H → H, part q) <$> slices) (token h)).
  eapply spmd_bind.
  { apply (spmd_lift wire n _ (λ r, part (r mod tp) <$> xs (r / tp))). intros r Hr.
    destruct (part_tokens_split (xs (r / tp))) as (E1 & E2 & E3). rewrite <- E1 at 1. rewrite <- E2, <- E3, fused_moe_routed.
    - by rewrite <- list_fmap_compose.
    - apply Forall_fmap, Forall_forall. intros h _. apply route_aligned. }
  eapply spmd_bind.
  { apply (spmd_replica_sum wire payload Hpayload t Ht a G HG (λ r, part (r mod tp) <$> xs (r / tp))).
    intros r r' Hr Hr'. destruct (replica_elem t Ht r r' Hr Hr') as (_ & ->). by rewrite !length_fmap. }
  eapply spmd_bind; [apply spmd_lift; intros r Hr; apply hidden_rows|].
  eapply spmd_bind; [apply (spmd_shared wire payload Hpayload t Ht a G HG)|].
  eapply spmd_ext; [reflexivity| |apply (spmd_ret wire n)]. intros r Hr. cbv beta. f_equal.
  rewrite length_fmap.
  transitivity (vsum (length (xs (r / tp))) ((λ q, part (q mod tp) <$> xs (r / tp)) <$> replica r)).
  - f_equal. apply list_fmap_ext. intros i q Hq.
    by destruct (replica_elem t Ht r q Hr (list_elem_of_lookup_2 _ _ _ Hq)) as (_ & ->).
  - rewrite vsum_map. apply list_fmap_ext. intros _ h _. rewrite (replica_ranks t Ht (λ q, part q h)).
    by apply (slices_routed E slices tp).
Qed.

(** ** Putting the stages together *)

Lemma spmd_region (xs : nat → list H) :
  spmd n (λ r, dp_attention_region (G r) false (length (xs (r / tp))))
         (λ r, if dp_attention_wanted t a then Some (MkMetadata (counts t xs) (r / tp)) else None).
Proof.
  unfold dp_attention_region. destruct (dp_attention_wanted t a) eqn:Hdp.
  - apply (spmd_ext wire n (λ r, m ← coordinate_tokens_across_dp (G r) ((length ∘ xs) (r / tp)); Ret (Some m)) _
      (λ r, Some (MkMetadata (counts t xs) (r / tp)))); [|done|].
    2: { eapply spmd_bind; [apply (spmd_tokens wire t a G HG Hdp)|apply spmd_ret]. }
    intros r Hr. destruct (placed_sizes _ _ _ HG r Hr) as (_ & _ & _ & _ & _ & -> & _). by rewrite Hdp.
  - eapply spmd_ext; [|reflexivity|apply spmd_ret]. intros r Hr.
    destruct (placed_sizes _ _ _ HG r Hr) as (_ & _ & _ & _ & _ & -> & _). by rewrite Hdp.
Qed.

(** The routed and the shared half, added up. *)
Definition add_shared (out : list H) (shared : option (list H)) : list H :=
  match shared with None => out | Some shared => zip_with hadd out shared end.

Lemma add_shared_reference (x : list H) :
  add_shared (routed_all x) (shared_out t shared x) = reference t _route shared E <$> x.
Proof.
  unfold add_shared, shared_out, reference, routed_all. destruct shared as [part|]; [|done]. cbn [fmap option_fmap option_map].
  induction x as [|h x IH]; [done|]. cbn. by rewrite <- IH.
Qed.

Lemma spmd_forward (p : nat → placement) (experts : nat → list (H → H)) (overlap : bool) (m : nat → option DPMetadata)
    (work : nat → option (H → H)) (halves : nat → prog (list H * option (list H))) (xs : nat → list H) :
  (∀ r, r < n → forward (G r) (dev r) payload (p r) (experts r) k (D r) _route (work r) overlap (m r) (xs (r / tp)) =
     ('(out, shared) ← halves r; Ret (add_shared out shared))) →
  spmd n halves (λ r, (routed_all (xs (r / tp)), shared_out t shared (xs (r / tp)))) →
  spmd n (λ r, forward (G r) (dev r) payload (p r) (experts r) k (D r) _route (work r) overlap (m r) (xs (r / tp)))
         (λ r, reference t _route shared E <$> xs (r / tp)).
Proof.
  intros Hp Hrun. apply (spmd_ext wire n (λ r, '(out, shared) ← halves r; Ret (add_shared out shared)) _
    (λ r, add_shared (routed_all (xs (r / tp))) (shared_out t shared (xs (r / tp))))).
  - intros r Hr. by rewrite Hp.
  - intros r Hr. apply add_shared_reference.
  - eapply spmd_bind; [exact Hrun|apply spmd_ret].
Qed.
End forward.

(** ** The whole program *)

Section layer.
Context {H W : Type} `{!HiddenOps H W}.
Notation row := (@row H W).
Notation tensor := (list row).
Notation prog := (@prog tensor).
Context (payload : tensor → nat).
(** The launch: the parallel configuration, the state of the process before it
    and [RAPID_MOE_A2A_BACKEND]. *)
Context (a : init_args) (cuda_available initialized : bool) (prior : grid) (count : nat) (env : option string).
(** The model: its experts, their TP slices, the width of an expert, the router
    and the TP slices of the shared expert. *)
Context (E : list (H → H)) (slices : list (nat → H → H)) (intermediate k : nat)
  (_route : H → list W * list Z) (shared : option (nat → H → H)).
(** The devices and the dispatcher's options. *)
Context (dev : nat → device (H := H)) (slack : nat) (fused strict overlap : bool).

(** The expert weights a rank loads. *)
Definition own_experts (s : grid) (p : placement) : list (H → H) :=
  if _EP_ENABLED s && (1 <? _EP_WORLD_SIZE s) then take (num_local_experts p) (drop (expert_offset p) E)
  else (λ part : nat → H → H, part (_TP_RANK s)) <$> slices.

Definition own_dispatcher (p : placement) : AllToAllDispatcher :=
  MkDispatcher (num_experts p) (num_local_experts p) (expert_offset p) None slack fused strict.

(** One rank: join the grid, build the layer, agree on the step, run the layer. *)
Definition layer_on (r : nat) (x : list H) : prog (list H) :=
  '(s, _) ← init_parallel (Z.of_nat r) a cuda_available initialized prior count;
  p ← lift (SparseMoeBlock_init s env (length E) intermediate);
  m ← dp_attention_region s false (length x);
  forward s (dev r) payload p (own_experts s p) k (own_dispatcher p) _route
    ((λ part : nat → H → H, part (_TP_RANK s)) <$> shared) overlap m x.

Context `{!HiddenLaws H W} (wire : collective → list tensor → option (list (list tensor))) `{!WireLaws wire}.
Hypothesis Hpayload : ∀ x y, length x = length y → payload x = payload y.
Context (t : Topology.ParallelTopology) (Ht : Topology.valid t).
Hypothesis Hroute : routes E k _route.
Hypothesis Hslices : sliced E slices (Topology.tp_size t).
Hypothesis HE : E ≠ [].
(** The experts divide over the expert split, or their width over the replica. *)
Hypothesis Hwidth : if enable_expert_parallel a then length E mod (expert_place t a).2 = 0
                    else intermediate mod Topology.tp_size t = 0.
Hypothesis Harr : ∀ r m, arrival (dev r) m ≡ₚ seq 0 m.
Hypothesis Hdev : ∀ r r', cuda (dev r) = cuda (dev r').
Notation n := (Topology.world_size t).
Notation tp := (Topology.tp_size t).

Lemma divide_Ok x y : y ≠ 0 → x mod y = 0 → divide x y = Ok (x / y).
Proof. intros Hy Hx. unfold divide. by rewrite !bool_decide_true. Qed.

Section placed.
Context (G : nat → grid).
Hypothesis HG : placed t a G.
Notation width := ((expert_place t a).2).
Notation nl := (length E / width).

(** A step hands the expert exchange at least a token of every replica. *)
Definition populated (xs : nat → list H) : Prop :=
  enable_expert_parallel a = true → k ≠ 0 ∧ ∀ i, i < Topology.dp_size t → xs i ≠ [].

(** The expert split of a grid: its groups, and a rank's place in them. *)
Lemma split_family :
  enable_expert_parallel a = true → 1 < tp ∨ dp_attention_wanted t a = true →
  1 < width ∧ ∃ grp, family n grp ∧ ∀ r, r < n →
    group_size (grp r) = width ∧ _EP_ENABLED (G r) = true ∧ _EP_GROUP (G r) = Some (grp r) ∧
    _EP_WORLD_SIZE (G r) = width ∧ _EP_RANK (G r) = group_rank (grp r) r ∧
    (dp_attention_wanted t a = true → width = n ∧ group_rank (grp r) r = r) ∧
    (dp_attention_wanted t a = false → ∀ r', r' ∈ ranks (grp r) → r' ∈ TokenExchange.replica t r).
Proof.
  intros Hep Hwide. pose proof (Topology.valid_tp t Ht) as Htp. pose proof (Topology.valid_dp t Ht) as Hdp.
  assert (∀ r, r < n → _EP_ENABLED (G r) = true ∧ (_EP_RANK (G r), _EP_WORLD_SIZE (G r)) = expert_place (Topology.at_rank r t) a) as He.
  { intros r Hr. destruct (placed_expert _ _ _ HG r Hr) as (-> & ->). rewrite Hep. split; [done|].
    destruct Hwide as [H1%Nat.ltb_lt|H1]; rewrite H1; [done|]. by rewrite orb_true_r. }
  assert (∀ r, expert_place (Topology.at_rank r t) a = (if dp_attention_wanted t a then r else r mod tp, width)) as Hplace.
  { intros r. unfold expert_place. rewrite Hep. cbn [negb]. change (dp_attention_wanted (Topology.at_rank r t) a) with (dp_attention_wanted t a).
    by destruct (dp_attention_wanted t a). }
  assert (width = if dp_attention_wanted t a then n else tp) as Hw.
  { unfold expert_place. rewrite Hep. cbn [negb]. by destruct (dp_attention_wanted t a). }
  assert (1 < width) as H1.
  { rewrite Hw. destruct (dp_attention_wanted t a) eqn:Hd; [|by destruct Hwide].
    apply dp_many in Hd. unfold Topology.world_size. nia. }
  split; [done|].
  assert (∀ r, r < n → _EP_WORLD_SIZE (G r) = width) as Hsize.
  { intros r Hr. destruct (He r Hr) as (_ & E1). rewrite Hplace in E1. by injection E1. }
  destruct (placed_ep _ _ _ HG _ H1 Hsize) as (grp & Hf & Hg). exists grp. split; [done|]. intros r Hr.
  destruct (Hg r Hr) as (E1 & E2 & E3). destruct (He r Hr) as (E4 & E5). rewrite Hplace in E5. injection E5 as E6 E7.
  do 4 (split; [done|]). split; [done|]. split.
  - intros Hd. rewrite Hd in Hw, E6. split; [done|]. by rewrite E2.
  - intros Hd r' Hr'. assert (1 < tp) as Htp1 by (destruct Hwide as [?|Hd']; [done|by rewrite Hd in Hd']).
    destruct (replica_family t a G HG Htp1) as (grp' & _ & Hg'). destruct (Hg' r Hr) as (E8 & <- & _).
    pose proof (placed_ep_replica _ _ _ HG Hep Hd Htp1 r Hr) as E9. rewrite E1, E8 in E9. by injection E9 as <-.
Qed.

Lemma own_shared r : r < n → (λ part : nat → H → H, part (_TP_RANK (G r))) <$> shared = shared_on t shared r.
Proof. intros Hr. unfold shared_on. by destruct (placed_sizes _ _ _ HG r Hr) as (_ & _ & _ & _ & _ & _ & -> & _). Qed.

Notation rest r x := (
  p ← lift (SparseMoeBlock_init (G r) env (length E) intermediate);
  m ← dp_attention_region (G r) false (length x);
  forward (G r) (dev r) payload p (own_experts (G r) p) k (own_dispatcher p) _route
    ((λ part : nat → H → H, part (_TP_RANK (G r))) <$> shared) overlap m x).

(** The layer under a geometry the step has agreed on already. *)
Notation layer r m x := (
  p ← lift (SparseMoeBlock_init (G r) env (length E) intermediate);
  forward (G r) (dev r) payload p (own_experts (G r) p) k (own_dispatcher p) _route
    ((λ part : nat → H → H, part (_TP_RANK (G r))) <$> shared) overlap m x).
Definition agreed (xs : nat → list H) r : option DPMetadata :=
  if dp_attention_wanted t a then Some (MkMetadata (counts t xs) (r / tp)) else None.
Notation exact xs prog := (Spmd.spmd wire n prog (λ r, reference t _route shared E <$> xs (r / tp))).

(** Both ways to run it, once its placement is known. *)
Lemma spmd_rest (p : nat → placement) (experts : nat → list (H → H)) (halves : nat → prog (list H * option (list H))) (xs : nat → list H) :
  (∀ r, r < n → SparseMoeBlock_init (G r) env (length E) intermediate = Ok (p r) ∧ own_experts (G r) (p r) = experts r) →
  (∀ r, r < n → forward (G r) (dev r) payload (p r) (experts r) k (own_dispatcher (p r)) _route (shared_on t shared r) overlap (agreed xs r) (xs (r / tp)) =
     ('(out, shared) ← halves r; Ret (add_shared out shared))) →
  Spmd.spmd wire n halves (λ r, (routed_all E _route (xs (r / tp)), shared_out t shared (xs (r / tp)))) →
  exact xs (λ r, layer r (agreed xs r) (xs (r / tp))) ∧ exact xs (λ r, rest r (xs (r / tp))).
Proof.
  intros Hp Hf Hrun.
  assert (exact xs (λ r, forward (G r) (dev r) payload (p r) (experts r) k (own_dispatcher (p r)) _route (shared_on t shared r)
    overlap (agreed xs r) (xs (r / tp)))) as Hlayer.
  { by apply (spmd_forward wire payload t G E k _route shared dev (λ r, own_dispatcher (p r)) p experts overlap
      (λ r, agreed xs r) (shared_on t shared) halves). }
  split.
  - eapply spmd_ext; [|reflexivity|exact Hlayer]. intros r Hr. cbv beta.
    destruct (Hp r Hr) as (-> & Eo). cbn [lift mbind prog_bind]. by rewrite Eo, own_shared.
  - apply (spmd_ext wire n (λ r, m ← dp_attention_region (G r) false (length (xs (r / tp)));
      forward (G r) (dev r) payload (p r) (experts r) k (own_dispatcher (p r)) _route (shared_on t shared r) overlap m (xs (r / tp)))
      _ (λ r, reference t _route shared E <$> xs (r / tp))); [|done|].
    + intros r Hr. destruct (Hp r Hr) as (-> & Eo). cbn [lift mbind prog_bind]. by rewrite Eo, own_shared.
    + eapply spmd_bind; [by apply spmd_region|exact Hlayer].
Qed.

(** Experts split by windows. *)
Lemma spmd_rest_split (xs : nat → list H) :
  enable_expert_parallel a = true → 1 < tp ∨ dp_attention_wanted t a = true → populated xs →
  exact xs (λ r, layer r (agreed xs r) (xs (r / tp))) ∧ exact xs (λ r, rest r (xs (r / tp))).
Proof.
  intros Hep Hwide Hbatch. destruct (split_family Hep Hwide) as (H1 & grp & Hf & Hg). pose proof Hwidth as Hdiv. rewrite Hep in Hdiv.
  assert (length E ≠ 0) as Hne by by intros E0%nil_length_inv.
  assert (width * nl = length E) as Hsplit.
  { pose proof (Nat.div_mod_eq (length E) width) as Ed. rewrite Hdiv in Ed. lia. }
  assert (nl ≠ 0) as Hnl by (intros E0; rewrite E0 in Hsplit; lia).
  assert (length E mod nl = 0) as Hmod.
  { assert (∀ x y z, x * y = z → z mod y = 0) as Hm by (intros x y z <-; apply Nat.Div0.mod_mul). by apply (Hm width). }
  set (backend := if negb (dp_attention_wanted t a) then ALL_TO_ALL
                  else if bool_decide (env = Some "all_to_all"%string) then ALL_TO_ALL else ALLGATHER_REDUCESCATTER).
  set (p r := Placement (length E) nl (group_rank (grp r) r * nl) intermediate backend).
  assert (∀ r, r < n → SparseMoeBlock_init (G r) env (length E) intermediate = Ok (p r) ∧
            own_experts (G r) (p r) = window E nl (group_rank (grp r) r)) as Hp.
  { intros r Hr. destruct (Hg r Hr) as (_ & E1 & _ & E2 & E3 & _).
    destruct (placed_sizes _ _ _ HG r Hr) as (_ & _ & _ & _ & _ & E4 & _).
    assert ((1 <? width) = true) as Hlt by by apply Nat.ltb_lt.
    unfold SparseMoeBlock_init, own_experts, get_moe_a2a_backend. rewrite E1, E2, E3, E4, Hlt. cbn [andb negb].
    rewrite divide_Ok by (done || lia). cbn [mbind result_bind]. fold backend. split; [|done].
    case_decide; [|done]. by rewrite (bool_decide_true (nl ≠ 0)), (bool_decide_true (length E mod nl = 0)). }
  assert (∀ r, r < n → dispatches E nl (own_dispatcher (p r)) (group_rank (grp r) r)) as HD by done.
  destruct (dp_attention_wanted t a) eqn:Hdp.
  - assert (∀ r, r < n → width = n ∧ group_rank (grp r) r = r) as Hall by (intros r Hr; by apply (Hg r Hr)).
    destruct (decide (backend = ALL_TO_ALL)) as [Eb|Eb].
    + eapply (spmd_rest p (λ r, window E nl (group_rank (grp r) r))); [done| |].
      2: { apply (spmd_a2a_pooled wire payload Hpayload t Ht a G HG E k _route shared Hroute dev (λ r, own_dispatcher (p r)) Harr grp width nl Hf);
             [intros r Hr; by apply Hg|intros r Hr; by destruct (Hg r Hr) as (_ & ? & ? & _)|done|done|done| |]; destruct (Hbatch Hep) as (Hk & Hfull); [done|].
             exists 0. pose proof (Topology.valid_dp t Ht). split; [lia|]. apply Hfull. lia. }
      unfold agreed. rewrite Hdp. intros r Hr. unfold forward. cbn [a2a_backend p]. by rewrite Eb.
    + assert (backend = ALLGATHER_REDUCESCATTER) as Eb'.
      { unfold backend in *. cbn [negb] in *. by case_bool_decide. }
      eapply (spmd_rest p (λ r, window E nl r)).
      * intros r Hr. destruct (Hp r Hr) as (-> & ->). by destruct (Hall r Hr) as (_ & ->).
      * unfold agreed. rewrite Hdp. intros r Hr. unfold forward. cbn [a2a_backend p]. rewrite Eb'. reflexivity.
      * apply (spmd_agrs wire payload Hpayload t Ht a G HG _route shared); [intros h; destruct (Hroute h) as (-> & -> & _); done|done| |].
        -- destruct (decide (0 < n)) as [Hn|Hn]; [by destruct (Hall 0 Hn) as (<- & _)|].
           exfalso. unfold Topology.world_size in Hn. pose proof (Topology.valid_tp t Ht). pose proof (Topology.valid_dp t Ht). nia.
        -- intros r Hr. cbn. by destruct (Hall r Hr) as (_ & ->).
  - assert (backend = ALL_TO_ALL) as Eb by done. destruct (Hbatch Hep) as (Hk & Hfull).
    eapply (spmd_rest p (λ r, window E nl (group_rank (grp r) r))); [done| |].
    2: { apply (spmd_forward_ep wire payload t G E k _route Hroute dev (λ r, own_dispatcher (p r)) Harr grp width nl Hf)
           with (overlap := overlap) (work := shared_on t shared) (x := λ r, xs (r / tp)) (b := λ r, shared_out t shared (xs (r / tp)));
           [intros r Hr; by apply Hg|intros r Hr; by destruct (Hg r Hr) as (_ & ? & ? & _)|done|done| | | |].
         - intros r r' Hr Hr'. destruct (Hg r Hr) as (_ & _ & _ & _ & _ & _ & Hm).
           by destruct (replica_elem t Ht r r' Hr (Hm eq_refl r' Hr')) as (_ & ->).
         - intros r Hr. assert (length (xs (r / tp)) ≠ 0); [|rewrite Nat.eq_mul_0; lia].
           intros E0%nil_length_inv. by apply (Hfull (r / tp)); [apply replica_lt|].
         - intros r r' _ _. split; [done|]. unfold shared_on. by destruct shared.
         - by apply (spmd_shared wire payload Hpayload t Ht a G HG). }
    unfold agreed. rewrite Hdp. intros r Hr. unfold forward. cbn [a2a_backend p]. by rewrite Eb.
Qed.

(** Every expert on every rank, cut over the replica. *)
Lemma spmd_rest_dense (xs : nat → list H) :
  ¬ (enable_expert_parallel a = true ∧ (1 < tp ∨ dp_attention_wanted t a = true)) →
  exact xs (λ r, layer r (agreed xs r) (xs (r / tp))) ∧ exact xs (λ r, rest r (xs (r / tp))).
Proof.
  intros Hno. pose proof (Topology.valid_tp t Ht) as Htp.
  assert (intermediate mod tp = 0) as Hmod.
  { pose proof Hwidth as Hdiv. destruct (enable_expert_parallel a); [|done]. assert (tp = 1) as -> by (destruct (decide (1 < tp)); [naive_solver|lia]).
    apply Nat.mod_1_r. }
  set (p := λ _ : nat, Placement (length E) (length E) 0 (intermediate / tp) NONE).
  assert (∀ r, r < n → _EP_ENABLED (G r) && (1 <? _EP_WORLD_SIZE (G r)) = false) as Hoff.
  { intros r Hr. destruct (placed_expert _ _ _ HG r Hr) as (-> & E1).
    destruct (enable_expert_parallel a); [|done]. cbn [andb].
    destruct ((1 <? tp) || dp_attention_wanted t a) eqn:Ew; [|by injection E1 as _ ->].
    exfalso. apply orb_prop in Ew as [Ew%Nat.ltb_lt|Ew]; naive_solver. }
  eapply (spmd_rest p (λ r, (λ part : nat → H → H, part (r mod tp)) <$> slices));
    [| |by apply (spmd_dense wire payload Hpayload t Ht a G HG E k _route shared Hroute slices xs)].
  - intros r Hr. destruct (placed_sizes _ _ _ HG r Hr) as (E1 & _ & _ & _ & _ & _ & E2 & _).
    unfold SparseMoeBlock_init, own_experts, get_moe_a2a_backend. rewrite (Hoff r Hr), E1, divide_Ok by done.
    cbn [mbind result_bind negb]. split; [|by rewrite E2]. by rewrite decide_False.
  - done.
Qed.

(** The layer on any layout. *)
Lemma spmd_layer (xs : nat → list H) :
  populated xs →
  exact xs (λ r, layer r (agreed xs r) (xs (r / tp))) ∧ exact xs (λ r, rest r (xs (r / tp))).
Proof.
  intros Hbatch. destruct (decide (enable_expert_parallel a = true ∧ (1 < tp ∨ dp_attention_wanted t a = true))) as [(Hep & Hwide)|Hno].
  - by apply spmd_rest_split.
  - by apply spmd_rest_dense.
Qed.
End placed.
End layer.

(** The layer of a whole grid, from its launch. *)
Section theorems.
Context {H W : Type} `{!HiddenOps H W, !HiddenLaws H W}.
Notation row := (@row H W).
Notation tensor := (list row).

(** C6: On every layout of the grid -- any number of replicas and TP ranks, with or without expert parallelism, DP
    attention, the shared expert, the overlap and the fused placement -- and on every schedule of the ranks, they join the
    grid, agree on the step and, every replica bringing at least a token (an idle one brings the row of its dummy pass;
    the expert exchange of an empty batch raises), finish the routed layer without ever blocking for good, and every rank then holds, for
    each of its replica's tokens, the output of the whole unpartitioned model: the weighted sum of the routed experts
    plus the shared expert. *)
Theorem moe_forward_exact
    (wire : collective → list tensor → option (list (list tensor))) `{!WireLaws wire}
    (payload : tensor → nat) (a : init_args) (cuda_available initialized : bool) (prior : grid) (count : nat)
    (env : option string) (E : list (H → H)) (slices : list (nat → H → H)) (intermediate k : nat)
    (_route : H → list W * list Z) (shared : option (nat → H → H)) (dev : nat → device (H := H))
    (slack : nat) (fused strict overlap : bool) (r0 : Z) (t : Topology.ParallelTopology) (xs : nat → list H) :
  (∀ x y, length x = length y → payload x = payload y) →
  Topology.resolve_topology r0 (arg_tp_size a) (arg_dp_size a) (prefill_context_parallel_size a)
    (decode_context_parallel_size a) (prefill_context_parallel_strategy a) (arg_dcp_comm_backend a) = Ok t →
  routes E k _route → sliced E slices (Topology.tp_size t) → E ≠ [] →
  (if enable_expert_parallel a then length E mod (expert_place t a).2 = 0
   else intermediate mod Topology.tp_size t = 0) →
  (∀ r m, arrival (dev r) m ≡ₚ seq 0 m) → (∀ r r', cuda (dev r) = cuda (dev r')) →
  (enable_expert_parallel a = true → k ≠ 0 ∧ ∀ i, i < Topology.dp_size t → xs i ≠ []) →
  always wire (Topology.world_size t)
    (λ r, layer_on payload a cuda_available initialized prior count env E slices intermediate k _route shared dev
            slack fused strict overlap r (xs (r / Topology.tp_size t)))
    (λ r, reference t _route shared E <$> xs (r / Topology.tp_size t)).
Proof.
  intros Hpayload Ht Hroute Hs HE Hw Harr Hdev Hbatch.
  pose proof (Topology.resolve_topology_Ok _ _ _ _ _ _ _ _ Ht) as (Hv & _).
  destruct (init_parallel_runs wire r0 t a cuda_available initialized prior count Ht) as (G & count' & Hrun & HG).
  apply spmd_always. unfold layer_on. eapply spmd_bind; [exact Hrun|]. cbv beta iota.
  by eapply spmd_layer.
Qed.

(** C34: The expert exchange with a bounded capacity: each token receives the weighted outputs of exactly those of its
    experts whose slot has fewer than the capacity's worth of earlier slots bound for the same rank; the later ones
    contribute nothing and no other slot is affected, whichever way the send buffer is filled.  Every rank brings at least
    one slot: the exchange of an empty batch raises. *)
Theorem capacity_drops_late_slots
    (wire : collective → list tensor → option (list (list tensor))) `{!WireLaws wire}
    (n size nl k : nat) (G : nat → grid) (grp : nat → group) (E : list (H → H)) (D : nat → AllToAllDispatcher)
    (dev : nat → device (H := H)) (R : nat → list (H * (list W * list Z))) :
  family n grp → size * nl = length E →
  (∀ r, r < n → group_size (grp r) = size ∧ _EP_ENABLED (G r) = true ∧ _EP_GROUP (G r) = Some (grp r)) →
  (∀ r, r < n → d_num_experts (D r) = length E ∧ d_num_local (D r) = nl ∧ d_offset (D r) = group_rank (grp r) r * nl ∧
     (strict (D r) = true → capacity (D r) = None)) →
  (∀ r, r < n → length (R r) * k ≠ 0 ∧ routed_to E k (R r) ∧ arrival (dev r) (length (R r) * k) ≡ₚ seq 0 (length (R r) * k)) →
  (∀ r r', r < n → r' ∈ ranks (grp r) → cap_of size k D R r' = cap_of size k D R r) →
  always wire n
    (λ r, expert_round_trip (G r) (dev r) (window E nl (group_rank (grp r) r)) k (D r) ((R r).*1) ((R r).*2.*2) ((R r).*2.*1))
    (λ r, imap (λ t token, hsum (imap (λ j p,
            if earlier nl (R r) (t * k + j) <? dispatch_cap (D r) (length (R r) * k) size
            then scale p.1 (expert E p.2 token.1) else hzero) (zip token.2.1 token.2.2))) (R r)).
Proof.
  intros Hf HE Hg HD HR Hcap. apply spmd_always.
  apply (spmd_round_trip wire n G grp size Hf (λ r Hr, proj1 (Hg r Hr)) (λ r Hr, proj2 (Hg r Hr)) E nl k HE D dev R HD
           (λ r Hr, proj1 (proj2 (HR r Hr))) (λ r Hr, proj1 (HR r Hr)) (λ r Hr, proj2 (proj2 (HR r Hr))) Hcap).
Qed.
End theorems.
End MoEForward.
