(* ===== verification/ParallelDemo.v ===== *)
(** The theorems on the process grid at concrete inputs: two replicas of two
    ranks, four experts, the collectives as functions and integer arithmetic. *)

From S2P Require Import Prelude Spmd Topology ParallelState Collectives CollectiveSpec DPAttention MoE ExpertSum TokenExchange MoESpec SlotPlacement AllToAllSpec MoEForward.

Module ParallelDemo.
Import Spmd ParallelState Collectives DPAttention MoE MoESpec AllToAllSpec MoEForward.

(** Hidden states and weights as integers. *)
#[global] Instance int_ops : HiddenOps Z Z := {| hzero := 0%Z; hadd := Z.add; scale := Z.mul; one := 1%Z |}.

#[global] Instance int_laws : HiddenLaws Z Z.
Proof. split; cbn; intros; lia. Qed.

Notation row := (@row Z Z).

(** Two replicas of two ranks. *)
Definition demo_args (ep dp_attention : bool) : init_args := InitArgs 2 2 (Some gloo) ep dp_attention 1 1 "zigzag" "ag_rs".
Definition demo_topology : Topology.ParallelTopology := Topology.MkTopology 0 2 2 1 1 "zigzag" "ag_rs".

Lemma demo_resolves ep dp_attention :
  let a := demo_args ep dp_attention in
  Topology.resolve_topology 0 (arg_tp_size a) (arg_dp_size a) (prefill_context_parallel_size a)
    (decode_context_parallel_size a) (prefill_context_parallel_strategy a) (arg_dcp_comm_backend a) = Ok demo_topology.
Proof. vm_compute. reflexivity. Qed.

Lemma init_parallel_lockstep_witness :
  ∃ G count',
    always (ideal_wire (Row := row)) 4 (λ r, init_parallel (Z.of_nat r) (demo_args true true) false false _reset_grid 0)
      (λ r, (G r, count')) ∧ placed demo_topology (demo_args true true) G.
Proof. apply (init_parallel_lockstep ideal_wire 0 demo_topology (demo_args true true)). vm_compute. reflexivity. Defined.

(** Four experts, cut in a slice that does the work and one that does not. *)
Definition demo_experts : list (Z → Z) := (λ i h, Z.of_nat (S i) * h)%Z <$> seq 0 4.
Definition demo_slices : list (nat → Z → Z) := (λ i q h, if Nat.eqb q 0 then Z.of_nat (S i) * h else 0)%Z <$> seq 0 4.
Definition demo_route (h : Z) : list Z * list Z := ([10; 1], [h mod 4; (h + 1) mod 4])%Z.
Definition demo_shared (q : nat) (h : Z) : Z := if decide (q = 0) then h else 7%Z.
Definition demo_device : device := MkDevice false false (seq 0) (λ _, (99%Z, 3%Z)).
(** Three tokens for the first replica, one for the second. *)
Definition demo_tokens (replica : nat) : list Z := if decide (replica = 0) then [0; 5; 2]%Z else [3]%Z.

Lemma demo_routes : routes demo_experts 2 demo_route.
Proof.
  intros h. do 2 (split; [done|]). cbn.
  repeat constructor; apply Z.mod_pos_bound; lia.
Qed.

Lemma demo_sliced : sliced demo_experts demo_slices 2.
Proof. unfold sliced, demo_experts, demo_slices. cbn. repeat constructor; intros h; cbn; lia. Qed.

(** Rank 1 of the first replica and rank 3 of the second, under DP attention. *)
Lemma moe_forward_exact_witness :
  always (ideal_wire (Row := row)) 4
    (λ r, layer_on length (demo_args true true) false false _reset_grid 0 None demo_experts demo_slices 8 2 demo_route
            (Some demo_shared) (λ _, demo_device) 8 true false false r (demo_tokens (r / 2)))
    (λ r, reference demo_topology demo_route (Some demo_shared) demo_experts <$> demo_tokens (r / 2)) ∧
  reference demo_topology demo_route (Some demo_shared) demo_experts <$> demo_tokens (1 / 2) = [7; 127; 77]%Z ∧
  reference demo_topology demo_route (Some demo_shared) demo_experts <$> demo_tokens (3 / 2) = [133]%Z.
Proof.
  split; [|by vm_compute].
  apply (moe_forward_exact ideal_wire length (demo_args true true) false false _reset_grid 0 None demo_experts demo_slices 8 2
           demo_route (Some demo_shared) (λ _, demo_device) 8 true false false 0 demo_topology demo_tokens).
  - done.
  - by vm_compute.
  - exact demo_routes.
  - exact demo_sliced.
  - done.
  - by vm_compute.
  - done.
  - done.
  - intros _. split; [done|]. intros i _. unfold demo_tokens. by case_decide.
Defined.

(** One replica of two ranks whose dispatcher has room for two slots per
    destination; every token goes to the experts of rank 0. *)
Definition demo_group : group := Group [0; 1] 5.
Definition demo_grid (r : nat) : grid :=
  MkGrid r 2 (Some demo_group) (Some demo_group) 0 1 None None false true (Some demo_group) r 2
    (Some demo_group) r 2 None 0 1 None 0 1 (Topology.MkTopology r 2 1 1 1 "zigzag" "ag_rs") gloo.
Definition demo_dispatcher (r : nat) : AllToAllDispatcher :=
  MkDispatcher 4 2 (r * 2) (Some (λ n size, n / size)) 0 true false.
Definition demo_batch (r : nat) : list (Z * (list Z * list Z)) := [(3, ([10; 1], [0; 1])); (4, ([10; 1], [1; 0]))]%Z.

Lemma demo_family : family 2 (λ _, demo_group).
Proof.
  split; cbn; intros.
  - destruct r as [|[|r]]; [set_solver..|lia].
  - split; [|done]. repeat match goal with H : _ ∈ _ :: _ |- _ => apply elem_of_cons in H as [->|H] end; [lia..|set_solver].
  - repeat constructor; set_solver.
Qed.

Lemma capacity_drops_late_slots_witness :
  always (ideal_wire (Row := row)) 2
    (λ r, expert_round_trip (demo_grid r) demo_device (window demo_experts 2 (group_rank demo_group r)) 2 (demo_dispatcher r)
            ((demo_batch r).*1) ((demo_batch r).*2.*2) ((demo_batch r).*2.*1))
    (λ r, imap (λ t token, hsum (imap (λ j p,
            if earlier 2 (demo_batch r) (t * 2 + j) <? dispatch_cap (demo_dispatcher r) (length (demo_batch r) * 2) 2
            then scale p.1 (ExpertSum.expert demo_experts p.2 token.1) else hzero) (zip token.2.1 token.2.2))) (demo_batch r)) ∧
  imap (λ t token, hsum (imap (λ j p,
            if earlier 2 (demo_batch 0) (t * 2 + j) <? dispatch_cap (demo_dispatcher 0) (length (demo_batch 0) * 2) 2
            then scale p.1 (ExpertSum.expert demo_experts p.2 token.1) else hzero) (zip token.2.1 token.2.2))) (demo_batch 0)
    = [36; 0]%Z.
Proof.
  split; [|by vm_compute].
  apply (capacity_drops_late_slots ideal_wire 2 2 2 2 demo_grid (λ _, demo_group) demo_experts demo_dispatcher (λ _, demo_device) demo_batch).
  - exact demo_family.
  - done.
  - done.
  - intros [|[|r]] Hr; [..|lia]; by vm_compute.
  - intros r _. split; [done|]. split; [|done]. unfold routed_to, demo_batch. repeat constructor; cbn; lia.
  - done.
Defined.
End ParallelDemo.
