(* ===== verification/StateExn.v ===== *)
(** * Stateful code with exceptions

    A method that may raise after it has changed its object: the state survives
    the exception.  The components in front of the scheduler process
    (data_parallel.py, async_engine.py) catch and clean up, so their models are
    computations of [St], and their proofs triples with a postcondition for
    each way out. *)

From S2P Require Export Prelude.

Definition St (S A : Type) : Type := S → result A * S.

#[export] Instance st_ret {S} : MRet (St S) := λ A a s, (Ok a, s).
#[export] Instance st_bind {S} : MBind (St S) := λ A B f m s,
  match m s with
  | (Ok a, s) => f a s
  | (Err e, s) => (Err e, s)
  end.

Section Operations.
Context {S : Type}.

Definition raise {A} (e : exn) : St S A := λ s, (Err e, s).
Definition gets {A} (f : S → A) : St S A := λ s, (Ok (f s), s).
Definition modify (f : S → S) : St S unit := λ s, (Ok tt, f s).
(** A computation that does not touch the state. *)
Definition lift {A} (r : result A) : St S A := λ s, (r, s).
(** [if not b: raise e] *)
Definition require (b : bool) (e : exn) : St S unit := lift (rguard b e).

(** [try: m  except BaseException as e: h] *)
Definition catch {A} (m : St S A) (h : exn → St S A) : St S A := λ s,
  match m s with
  | (Err e, s) => h e s
  | r => r
  end.

(** [try: m  except BaseException: cleanup; raise] *)
Definition on_error {A} (m : St S A) (cleanup : St S unit) : St S A :=
  catch m (λ e, _ ← cleanup; raise e).

(** [with contextlib.suppress(Exception): m] *)
Definition suppress {A} (m : St S A) : St S unit := λ s, (Ok tt, snd (m s)).

(** [for a in l: f a] *)
Fixpoint for_each {A} (f : A → St S unit) (l : list A) : St S unit :=
  match l with
  | [] => mret tt
  | a :: l => _ ← f a; for_each f l
  end.

(** A comprehension. *)
Fixpoint collect {A B} (f : A → St S B) (l : list A) : St S (list B) :=
  match l with
  | [] => mret []
  | a :: l => b ← f a; bs ← collect f l; mret (b :: bs)
  end.

(** ** Triples *)

(** From [P], [m] ends in [Q] when it returns and in [E] when it raises. *)
Definition triple {A} (P : S → Prop) (m : St S A) (Q : A → S → Prop) (E : exn → S → Prop) : Prop :=
  ∀ s, P s → match m s with (Ok a, s') => Q a s' | (Err e, s') => E e s' end.

Implicit Types (P R : S → Prop).

Lemma triple_ret {A} P (a : A) E : triple P (mret a) (λ b s, b = a ∧ P s) E.
Proof. by intros s Hs. Qed.

Lemma triple_bind {A B} P (m : St S A) (f : A → St S B) Q (Q' : B → S → Prop) E :
  triple P m Q E → (∀ a, triple (Q a) (f a) Q' E) → triple P (mbind f m) Q' E.
Proof.
  intros Hm Hf s Hs. specialize (Hm s Hs). unfold mbind, st_bind.
  destruct (m s) as [[a|e] s']; [by apply Hf|done].
Qed.

Lemma triple_conseq {A} P P' (m : St S A) Q Q' E E' :
  triple P m Q E → (∀ s, P' s → P s) → (∀ a s, Q a s → Q' a s) → (∀ e s, E e s → E' e s) →
  triple P' m Q' E'.
Proof.
  intros Hm HP HQ HE s Hs. specialize (Hm s (HP s Hs)).
  destruct (m s) as [[a|e] s']; auto.
Qed.

Lemma triple_modify P f (E : exn → S → Prop) (Q : unit → S → Prop) :
  (∀ s, P s → Q tt (f s)) → triple P (modify f) Q E.
Proof. intros H s Hs. by apply H. Qed.

Lemma triple_gets {A} P (f : S → A) (E : exn → S → Prop) :
  triple P (gets f) (λ a s, a = f s ∧ P s) E.
Proof. by intros s Hs. Qed.

Lemma triple_lift {A} P (r : result A) :
  triple P (lift r) (λ a s, r = Ok a ∧ P s) (λ e s, r = Err e ∧ P s).
Proof. intros s Hs. unfold lift. by destruct r. Qed.

Lemma triple_raise {A} P e (Q : A → S → Prop) : triple P (raise e) Q (λ e' s, e' = e ∧ P s).
Proof. by intros s Hs. Qed.

Lemma triple_catch {A} P (m : St S A) h Q (E E' : exn → S → Prop) :
  triple P m Q E → (∀ e, triple (E e) (h e) Q E') → triple P (catch m h) Q E'.
Proof.
  intros Hm Hh s Hs. specialize (Hm s Hs). unfold catch.
  destruct (m s) as [[a|e] s']; [done|by apply Hh].
Qed.

Lemma triple_on_error {A} P (m : St S A) cleanup Q (E : exn → S → Prop) R :
  triple P m Q E → (∀ e, triple (E e) cleanup (λ _, R) (λ _, R)) →
  triple P (on_error m cleanup) Q (λ _, R).
Proof.
  intros Hm Hc. eapply triple_catch; [done|]. intros e s He. specialize (Hc e s He).
  unfold mbind, st_bind. by destruct (cleanup s) as [[[]|?] ?].
Qed.

Lemma triple_suppress {A} P (m : St S A) R (E : exn → S → Prop) :
  triple P m (λ _, R) (λ _, R) → triple P (suppress m) (λ _, R) E.
Proof.
  intros Hm s Hs. specialize (Hm s Hs). unfold suppress. by destruct (m s) as [[]].
Qed.

Lemma triple_for_each {A} (I : list A → S → Prop) (f : A → St S unit) l (E : exn → S → Prop) :
  (∀ pre a post, l = pre ++ a :: post → triple (I pre) (f a) (λ _, I (pre ++ [a])) E) →
  triple (I []) (for_each f l) (λ _, I l) E.
Proof.
  intros H. cut (∀ post pre, l = pre ++ post → triple (I pre) (for_each f post) (λ _, I l) E).
  { intros Hall. by apply (Hall l []). }
  induction post as [|a post IH]; intros pre Hl; cbn [for_each].
  - rewrite app_nil_r in Hl. subst. by intros s Hs.
  - eapply triple_bind; [by eapply H|]. intros []. apply IH. by rewrite <- app_assoc.
Qed.
End Operations.

(** ** Running a computation *)

Lemma run_bind {S A B} (m : St S A) (f : A → St S B) s :
  (m ≫= f) s = match m s with (Ok a, s') => f a s' | (Err e, s') => (Err e, s') end.
Proof. reflexivity. Qed.

Lemma run_Ok {S A B} (m : St S A) (f : A → St S B) s a s' :
  m s = (Ok a, s') → (m ≫= f) s = f a s'.
Proof. intros E. by rewrite run_bind, E. Qed.

Lemma run_Err {S A B} (m : St S A) (f : A → St S B) s e s' :
  m s = (Err e, s') → (m ≫= f) s = (Err e, s').
Proof. intros E. by rewrite run_bind, E. Qed.

(** Step through the primitive operations at the head of a computation. *)
Ltac st_prim :=
  repeat (rewrite run_bind);
  cbv beta iota delta [gets modify lift require raise mret st_ret].
