(* ===== verification/LoadPolicy.v ===== *)
(** * Replica selection (the load policies of data_parallel.py)

    A policy picks a replica for a request and charges the request to it until
    its release.  [_LoadPolicy] is the abstract class, a type class here; the
    three ways to implement it are [RoundRobinPolicy], [CountingPolicy] (with
    the weights of [RequestCountPolicy] and [TokenCountPolicy]) and
    [CacheAwarePolicy].  [LoadPolicyLaws] is what the controller relies on. *)

From S2P Require Export StateExn HashChain.
From stdpp Require Export pretty.

Module LoadPolicy.

(** The truth value of an optional string. *)
Definition given (request_id : option string) : option string :=
  match request_id with Some EmptyString => None | r => r end.

(** [min(l, key=key)]: the first least element. *)
Fixpoint min_from (key : nat → result Z) (best : nat) (least : Z) (l : list nat) : result nat :=
  match l with
  | [] => Ok best
  | i :: l => k ← key i; if (k <? least)%Z then min_from key i k l else min_from key best least l
  end.

Definition min_by (key : nat → result Z) (l : list nat) : result nat :=
  match l with
  | [] => Err ValueError
  | i :: l => k ← key i; min_from key i k l
  end.

Class _LoadPolicy (P : Type) := {
  dp_size : P → nat;
  select : Z → option (list Z) → option string → St P nat;
  release : string → St P unit;
}.

(** ** Round robin *)

Record RoundRobinPolicy := RoundRobin { rr_dp_size : nat; _counter : nat }.

Definition rr_select (estimated_tokens : Z) (token_ids : option (list Z)) (request_id : option string) :
    St RoundRobinPolicy nat :=
  p ← gets id;
  _ ← require (negb (rr_dp_size p =? 0)) ZeroDivisionError;
  let replica := _counter p mod rr_dp_size p in
  _ ← modify (λ p, RoundRobin (rr_dp_size p) (S (_counter p)));
  mret replica.

#[global] Instance RoundRobinPolicy_policy : _LoadPolicy RoundRobinPolicy := {|
  dp_size := rr_dp_size;
  select := rr_select;
  release _ := mret tt;
|}.

(** ** The charges of the counting and the cache-aware policies *)

Record Charges := MkCharges {
  c_dp_size : nat;
  _anonymous_ids : nat;
  _load : list Z;
  _charges : gmap string (nat * Z);
}.

Definition no_charges (n : nat) : Charges := MkCharges n 0 (replicate n 0%Z) ∅.

Definition _request_id (request_id : option string) : St Charges string := λ c,
  match given request_id with
  | Some r => (Ok r, c)
  | None => (Ok ("policy-" +:+ pretty (_anonymous_ids c)),
             MkCharges (c_dp_size c) (S (_anonymous_ids c)) (_load c) (_charges c))
  end.

(** [self._load[replica] += amount; self._charges[request_id] = (replica, amount)] *)
Definition charge (request_id : string) (replica : nat) (amount : Z) : St Charges unit :=
  c ← gets id;
  load ← lift (item (_load c) replica);
  modify (λ c, MkCharges (c_dp_size c) (_anonymous_ids c) (<[replica := (load + amount)%Z]> (_load c))
                 (<[request_id := (replica, amount)]> (_charges c))).

Definition discharge (request_id : string) : St Charges unit :=
  c ← gets id;
  match _charges c !! request_id with
  | None => mret tt
  | Some (replica, amount) =>
      _ ← modify (λ c, MkCharges (c_dp_size c) (_anonymous_ids c) (_load c) (delete request_id (_charges c)));
      load ← lift (item (_load c) replica);
      modify (λ c, MkCharges (c_dp_size c) (_anonymous_ids c) (<[replica := Z.max 0 (load - amount)]> (_load c))
                     (_charges c))
  end.

(** ** Counting requests or tokens *)

Inductive weighing := RequestCountPolicy | TokenCountPolicy.

Definition _weight (w : weighing) (estimated_tokens : Z) : Z :=
  match w with RequestCountPolicy => 1%Z | TokenCountPolicy => Z.max 1 estimated_tokens end.

Record CountingPolicy := Counting { weights : weighing; charges : Charges }.

(** A computation on the charges of a policy. *)
Definition on_charges {P A} (get : P → Charges) (put : Charges → P → P) (m : St Charges A) : St P A := λ p,
  let '(r, c) := m (get p) in (r, put c p).

Definition counting_charges {A} (m : St Charges A) : St CountingPolicy A :=
  on_charges charges (λ c p, Counting (weights p) c) m.

Definition counting_select (estimated_tokens : Z) (token_ids : option (list Z)) (request_id : option string) :
    St CountingPolicy nat :=
  request_id ← counting_charges (_request_id request_id);
  p ← gets id;
  replica ← lift (min_by (item (_load (charges p))) (seq 0 (c_dp_size (charges p))));
  let amount := _weight (weights p) estimated_tokens in
  _ ← counting_charges (charge request_id replica amount);
  mret replica.

#[global] Instance CountingPolicy_policy : _LoadPolicy CountingPolicy := {|
  dp_size p := c_dp_size (charges p);
  select := counting_select;
  release request_id := counting_charges (discharge request_id);
|}.

(** ** Prefix affinity *)

(** [_resident] holds the keys of each [OrderedDict], oldest first. *)
Record CacheAwarePolicy := CacheAware {
  block_size : nat;
  hash_seed : Z;
  index_capacity : nat;
  _resident : list (list Z);
  ca_charges : Charges;
}.

Definition _uncached (p : CacheAwarePolicy) (prompt_tokens : Z) (cached_blocks : nat) : Z :=
  Z.max 1 (prompt_tokens - Z.of_nat cached_blocks * Z.of_nat (block_size p)).

(** The leading hashes that are resident. *)
Fixpoint cached_run (resident hashes : list Z) : nat :=
  match hashes with
  | [] => 0
  | h :: hashes => if decide (h ∈ resident) then S (cached_run resident hashes) else 0
  end.

Definition _cached_blocks (p : CacheAwarePolicy) (replica : nat) (hashes : list Z) : result nat :=
  resident ← item (_resident p) replica;
  Ok (cached_run resident hashes).

(** [resident[h] = None; resident.move_to_end(h)] *)
Definition move_to_end (resident : list Z) (h : Z) : list Z := filter (λ k, k ≠ h) resident ++ [h].

(** Refreshed in order, then the oldest popped while over the capacity. *)
Definition remember (capacity : nat) (hashes resident : list Z) : list Z :=
  let resident := foldl move_to_end resident hashes in
  drop (length resident - capacity) resident.

Definition _remember (replica : nat) (hashes : list Z) : St CacheAwarePolicy unit :=
  p ← gets id;
  resident ← lift (item (_resident p) replica);
  modify (λ p, CacheAware (block_size p) (hash_seed p) (index_capacity p)
    (<[replica := remember (index_capacity p) hashes resident]> (_resident p)) (ca_charges p)).

Definition cache_charges {A} (m : St Charges A) : St CacheAwarePolicy A :=
  on_charges ca_charges
    (λ c p, CacheAware (block_size p) (hash_seed p) (index_capacity p) (_resident p) c) m.

Section Digest.
(** The block digest of the prefix cache. *)
Context (digest : list Z → list Z).

Definition prompt_hashes (p : CacheAwarePolicy) (token_ids : option (list Z)) : result (list Z) :=
  match token_ids with
  | None | Some [] => Ok []
  | Some l => Chain.iter_block_hashes digest l (block_size p) (hash_seed p)
  end.

Definition prompt_length (estimated_tokens : Z) (token_ids : option (list Z)) : Z :=
  match token_ids with
  | None | Some [] => Z.max 0 estimated_tokens
  | Some l => Z.of_nat (length l)
  end.

Definition cache_select (estimated_tokens : Z) (token_ids : option (list Z)) (request_id : option string) :
    St CacheAwarePolicy nat :=
  request_id ← cache_charges (_request_id request_id);
  p ← gets id;
  hashes ← lift (prompt_hashes p token_ids);
  let prompt_tokens := prompt_length estimated_tokens token_ids in
  priced ← lift (rmap (λ replica,
    cached ← _cached_blocks p replica hashes;
    load ← item (_load (ca_charges p)) replica;
    Ok (cached, load + _uncached p prompt_tokens cached)%Z) (seq 0 (c_dp_size (ca_charges p))));
  replica ← lift (min_by (item (priced.*2)) (seq 0 (c_dp_size (ca_charges p))));
  cached ← lift (item (priced.*1) replica);
  let amount := _uncached p prompt_tokens cached in
  _ ← cache_charges (charge request_id replica amount);
  _ ← _remember replica hashes;
  mret replica.

Definition cached_tokens (p : CacheAwarePolicy) (token_ids : list Z) (replica : nat) : result nat :=
  hashes ← Chain.iter_block_hashes digest token_ids (block_size p) (hash_seed p);
  cached ← _cached_blocks p replica hashes;
  Ok (cached * block_size p).

Definition resident_blocks (p : CacheAwarePolicy) (replica : nat) : result nat :=
  resident ← item (_resident p) replica; Ok (length resident).

#[global] Instance CacheAwarePolicy_policy : _LoadPolicy CacheAwarePolicy := {|
  dp_size p := c_dp_size (ca_charges p);
  select := cache_select;
  release request_id := cache_charges (discharge request_id);
|}.

(** ** The registry *)

Inductive AnyPolicy :=
  | AnyRoundRobin (p : RoundRobinPolicy)
  | AnyCounting (p : CountingPolicy)
  | AnyCacheAware (p : CacheAwarePolicy).

Definition make_cache_aware (n : nat) (block_size : nat) (hash_seed : Z) (index_capacity : nat) :
    result CacheAwarePolicy :=
  _ ← rguard (negb (n <? 1)) ValueError;
  _ ← rguard (negb (block_size <? 1)) ValueError;
  _ ← rguard (negb (index_capacity <? 1)) ValueError;
  Ok (CacheAware block_size hash_seed index_capacity (replicate n []) (no_charges n)).

Definition PREFIX_CACHE_BLOCK_SIZE : nat := 16.
Definition DEFAULT_INDEX_CAPACITY : nat := 65536.

Definition create_load_policy (name : string) (n : nat) : result AnyPolicy :=
  if decide (name = "round_robin"%string)
  then _ ← rguard (negb (n <? 1)) ValueError; Ok (AnyRoundRobin (RoundRobin n 0))
  else if decide (name = "total_requests"%string)
  then _ ← rguard (negb (n <? 1)) ValueError; Ok (AnyCounting (Counting RequestCountPolicy (no_charges n)))
  else if decide (name = "total_tokens"%string)
  then _ ← rguard (negb (n <? 1)) ValueError; Ok (AnyCounting (Counting TokenCountPolicy (no_charges n)))
  else if decide (name = "cache_aware"%string)
  then p ← make_cache_aware n PREFIX_CACHE_BLOCK_SIZE 0 DEFAULT_INDEX_CAPACITY; Ok (AnyCacheAware p)
  else Err ValueError.

(** Whichever policy was created. *)
Definition lift_policy {P A} (make : P → AnyPolicy) (m : St P A) (p : P) : result A * AnyPolicy :=
  let '(r, p) := m p in (r, make p).

#[global] Instance AnyPolicy_policy : _LoadPolicy AnyPolicy := {|
  dp_size p := match p with
    | AnyRoundRobin p => rr_dp_size p
    | AnyCounting p => c_dp_size (charges p)
    | AnyCacheAware p => c_dp_size (ca_charges p)
    end;
  select est tokens rid p := match p with
    | AnyRoundRobin p => lift_policy AnyRoundRobin (rr_select est tokens rid) p
    | AnyCounting p => lift_policy AnyCounting (counting_select est tokens rid) p
    | AnyCacheAware p => lift_policy AnyCacheAware (cache_select est tokens rid) p
    end;
  release rid p := match p with
    | AnyRoundRobin p => (Ok tt, AnyRoundRobin p)
    | AnyCounting p => lift_policy AnyCounting (counting_charges (discharge rid)) p
    | AnyCacheAware p => lift_policy AnyCacheAware (cache_charges (discharge rid)) p
    end;
|}.
End Digest.
End LoadPolicy.
