(* ===== verification/LoadPolicySpec.v ===== *)
(** * What a load policy promises

    [LoadPolicyLaws] is the contract the controller is proved against: the load
    of a replica is the sum of the charges on it, a selection charges the chosen
    replica at most, a release takes exactly that charge back.  The three
    implementations satisfy it, and each chooses as it says. *)

From S2P Require Export LoadPolicy.

Module PolicySpec.
Import LoadPolicy.

Notation chargemap := (gmap string (nat * Z)).

Definition on_replica (r : nat) (v : nat * Z) : Z := if decide (v.1 = r) then v.2 else 0%Z.

(** The sum of the charges on a replica. *)
Definition replica_load (r : nat) (m : chargemap) : Z := map_sum (on_replica r) m.

Class LoadPolicyLaws (P : Type) `{!_LoadPolicy P} := {
  policy_ok : P → Prop;
  charged : P → chargemap;
  loads : P → list Z;
  size_positive p : policy_ok p → dp_size p ≠ 0;
  loads_exact p : policy_ok p → loads p = (λ r, replica_load r (charged p)) <$> seq 0 (dp_size p);
  charged_bounds p rid r a : policy_ok p → charged p !! rid = Some (r, a) → r < dp_size p ∧ (1 ≤ a)%Z;
  select_spec p estimated tokens rid :
    policy_ok p → rid ≠ EmptyString → charged p !! rid = None →
    match select estimated (Some tokens) (Some rid) p with
    | (Ok r, p') => policy_ok p' ∧ dp_size p' = dp_size p ∧ r < dp_size p ∧
        (charged p' = charged p ∨ ∃ a, charged p' = <[rid := (r, a)]> (charged p))
    | (Err _, p') => policy_ok p' ∧ dp_size p' = dp_size p ∧ charged p' = charged p ∧
        ¬ Forall Chain.is_token tokens
    end;
  release_spec p rid :
    policy_ok p →
    ∃ p', release rid p = (Ok tt, p') ∧ policy_ok p' ∧ dp_size p' = dp_size p ∧
      charged p' = delete rid (charged p);
}.

(** ** The least element *)

Lemma min_from_spec (l : list Z) js : ∀ best least,
  l !! best = Some least → (∀ j, j ∈ js → j < length l) →
  ∃ r m, min_from (item l) best least js = Ok r ∧ l !! r = Some m ∧ (m ≤ least)%Z ∧
    r ∈ best :: js ∧ ∀ j, j ∈ js → ∃ k, l !! j = Some k ∧ (m ≤ k)%Z.
Proof.
  induction js as [|j js IH]; intros best least Hb Hjs; cbn [min_from].
  { exists best, least. split_and!; [done|done|lia|by left|]. by intros j Hj%elem_of_nil. }
  destruct (lookup_lt_is_Some_2 l j) as [k Hk]; [apply Hjs; by left|].
  rewrite (item_Ok _ _ _ Hk). cbn [mbind result_bind].
  destruct (Z.ltb_spec k least) as [Hlt|Hge].
  - destruct (IH j k Hk) as (r & m & E & Hr & Hm & Hin & Hall); [intros; apply Hjs; by right|].
    exists r, m. split_and!; [done|done|lia| |].
    + right. done.
    + intros j' [->|Hj']%elem_of_cons; [by exists k|by apply Hall].
  - destruct (IH best least Hb) as (r & m & E & Hr & Hm & Hin & Hall); [intros; apply Hjs; by right|].
    exists r, m. split_and!; [done..| |].
    + apply elem_of_cons in Hin as [->|Hin]; [by left|by right; right].
    + intros j' [->|Hj']%elem_of_cons; [exists k; split; [done|lia]|by apply Hall].
Qed.

Lemma min_by_spec (l : list Z) n : n ≠ 0 → length l = n →
  ∃ r m, min_by (item l) (seq 0 n) = Ok r ∧ r < n ∧ l !! r = Some m ∧
    ∀ j k, l !! j = Some k → (m ≤ k)%Z.
Proof.
  intros Hn Hl. destruct n as [|n]; [done|]. cbn [seq min_by].
  destruct (lookup_lt_is_Some_2 l 0) as [k0 Hk0]; [lia|].
  rewrite (item_Ok _ _ _ Hk0). cbn [mbind result_bind].
  destruct (min_from_spec l (seq 1 n) 0 k0 Hk0) as (r & m & E & Hr & Hm & _ & Hall).
  { intros j [??]%elem_of_seq. lia. }
  exists r, m. split_and!; [done| |done|].
  - apply lookup_lt_Some in Hr. lia.
  - intros j k Hk. destruct j as [|j]; [by simplify_eq|].
    destruct (Hall (S j)) as (k' & Hk' & Hle); [apply elem_of_seq; apply lookup_lt_Some in Hk; lia|].
    by simplify_eq.
Qed.

(** ** Charges *)

Record charges_ok (c : Charges) : Prop := {
  co_size : c_dp_size c ≠ 0;
  co_load : _load c = (λ r, replica_load r (_charges c)) <$> seq 0 (c_dp_size c);
  co_bounds : ∀ rid r a, _charges c !! rid = Some (r, a) → r < c_dp_size c ∧ (1 ≤ a)%Z;
}.

Lemma load_length c : charges_ok c → length (_load c) = c_dp_size c.
Proof. intros Hc. by rewrite (co_load c Hc), length_fmap, length_seq. Qed.

Lemma load_lookup c r : charges_ok c → r < c_dp_size c → _load c !! r = Some (replica_load r (_charges c)).
Proof. intros Hc Hr. rewrite (co_load c Hc), list_lookup_fmap, lookup_seq_lt; done. Qed.

Lemma no_charges_ok n : n ≠ 0 → charges_ok (no_charges n).
Proof.
  intros Hn. split; [done| |done]. cbn. clear Hn.
  apply list_eq. intros i. rewrite list_lookup_fmap. destruct (decide (i < n)) as [Hi|Hi].
  - rewrite lookup_replicate_2, lookup_seq_lt by done. cbn. unfold replica_load. by rewrite map_sum_empty.
  - rewrite !lookup_ge_None_2; [done|rewrite ?length_seq, ?length_replicate; lia..].
Qed.

Lemma load_insert (m : chargemap) n rid r a :
  m !! rid = None → r < n →
  (λ r', replica_load r' (<[rid := (r, a)]> m)) <$> seq 0 n =
  <[r := (replica_load r m + a)%Z]> ((λ r', replica_load r' m) <$> seq 0 n).
Proof.
  intros Hm Hr. apply list_eq. intros i. rewrite list_lookup_fmap.
  unfold replica_load at 1. destruct (decide (i < n)) as [Hi|Hi].
  - rewrite lookup_seq_lt by done. cbn. rewrite map_sum_insert_None by done. unfold on_replica at 1. cbn [fst snd].
    destruct (decide (r = i)) as [->|].
    + rewrite list_lookup_insert_eq by (by rewrite length_fmap, length_seq). unfold replica_load. f_equal. lia.
    + rewrite list_lookup_insert_ne, list_lookup_fmap, lookup_seq_lt by done. done.
  - rewrite !lookup_ge_None_2; [done|rewrite ?length_insert, ?length_fmap, ?length_seq; lia..].
Qed.

Lemma replica_load_nonneg r (m : chargemap) :
  (∀ rid r' a, m !! rid = Some (r', a) → (1 ≤ a)%Z) → (0 ≤ replica_load r m)%Z.
Proof.
  unfold replica_load. induction m as [|rid [r' a] m Hn IH] using map_ind; intros H.
  { by rewrite map_sum_empty. }
  rewrite map_sum_insert_None by done.
  assert (0 ≤ map_sum (on_replica r) m)%Z.
  { apply IH. intros rid' r'' a' Hl. apply (H rid' r'' a'). rewrite lookup_insert_ne; [done|]. intros ->. congruence. }
  assert (1 ≤ a)%Z by (apply (H rid r' a), lookup_insert_eq).
  assert (0 ≤ on_replica r (r', a))%Z by (unfold on_replica; cbn; case_decide; lia). lia.
Qed.

Lemma request_id_given rid c : rid ≠ EmptyString → _request_id (Some rid) c = (Ok rid, c).
Proof. unfold _request_id, given. destruct rid; done. Qed.

Lemma charge_ok c rid r a :
  charges_ok c → _charges c !! rid = None → r < c_dp_size c → (1 ≤ a)%Z →
  ∃ c', charge rid r a c = (Ok tt, c') ∧ charges_ok c' ∧ c_dp_size c' = c_dp_size c ∧
    _charges c' = <[rid := (r, a)]> (_charges c).
Proof.
  intros Hc Hn Hr Ha. unfold charge. st_prim. cbn [id].
  pose proof (load_lookup c r Hc Hr) as Hl. unfold id. rewrite (item_Ok _ _ _ Hl).
  eexists. split; [reflexivity|]. split_and!; [|done|done]. split; cbn.
  - apply Hc.
  - by rewrite load_insert, <- (co_load c Hc).
  - intros rid' r' a'. rewrite lookup_insert_Some. intros [[_ [= <- <-]]|[_ Hl']]; [done|by eapply co_bounds].
Qed.

Lemma discharge_ok c rid :
  charges_ok c →
  ∃ c', discharge rid c = (Ok tt, c') ∧ charges_ok c' ∧ c_dp_size c' = c_dp_size c ∧
    _charges c' = delete rid (_charges c).
Proof.
  intros Hc. unfold discharge. st_prim. unfold id.
  destruct (_charges c !! rid) as [[r a]|] eqn:E.
  2: { exists c. split_and!; [done|done|done|]. by rewrite delete_id. }
  destruct (co_bounds c Hc _ _ _ E) as [Hr Ha].
  set (m := delete rid (_charges c)).
  assert (Hm : ∀ rid' r' a', m !! rid' = Some (r', a') → r' < c_dp_size c ∧ (1 ≤ a')%Z).
  { intros rid' r' a' [_ Hl]%lookup_delete_Some. by eapply co_bounds. }
  assert (Hsum : _charges c = <[rid := (r, a)]> m) by (unfold m; by rewrite insert_delete_id).
  assert (Hn : m !! rid = None) by apply lookup_delete_eq.
  pose proof (load_lookup c r Hc Hr) as Hl. st_prim. cbn [c_dp_size _anonymous_ids _load _charges].
  rewrite (item_Ok _ _ _ Hl). eexists. split; [reflexivity|]. split_and!; [|done|done].
  split; cbn; [apply Hc| |done]. fold m. rewrite (co_load c Hc), Hsum, load_insert, list_insert_insert_eq by done.
  unfold replica_load at 1. rewrite map_sum_insert_None by done. unfold on_replica at 1. cbn. rewrite decide_True by done.
  assert (0 ≤ replica_load r m)%Z by (apply replica_load_nonneg; intros; by eapply Hm).
  fold (replica_load r m). replace (Z.max 0 (a + replica_load r m - a)) with (replica_load r m) by lia.
  apply list_insert_id. by rewrite list_lookup_fmap, lookup_seq_lt.
Qed.

(** ** The implementations *)

#[global] Program Instance RoundRobin_laws : LoadPolicyLaws RoundRobinPolicy := {|
  policy_ok p := rr_dp_size p ≠ 0;
  charged _ := ∅;
  loads p := replicate (rr_dp_size p) 0%Z;
|}.
Next Obligation. done. Qed.
Next Obligation. intros p Hp. apply (co_load _ (no_charges_ok (rr_dp_size p) Hp)). Qed.
Next Obligation. done. Qed.
Next Obligation.
  intros p est tokens rid Hp _ _. cbn [select RoundRobinPolicy_policy]. unfold rr_select.
  st_prim. unfold id, rguard.
  assert (rr_dp_size p =? 0 = false) as -> by (by apply Nat.eqb_neq). cbn.
  split_and!; [done|done|by apply Nat.mod_upper_bound|by left].
Qed.
Next Obligation. intros p rid Hp. exists p. split_and!; try done. Qed.

Definition counting_ok (p : CountingPolicy) : Prop := charges_ok (charges p).

Lemma weight_positive w est : (1 ≤ _weight w est)%Z.
Proof. destruct w; cbn; lia. Qed.

(** The chosen replica carries the least load. *)
Lemma counting_select_spec p est tokens rid :
  counting_ok p → rid ≠ EmptyString → _charges (charges p) !! rid = None →
  ∃ r p', counting_select est tokens (Some rid) p = (Ok r, p') ∧ counting_ok p' ∧
    c_dp_size (charges p') = c_dp_size (charges p) ∧ r < c_dp_size (charges p) ∧
    _charges (charges p') = <[rid := (r, _weight (weights p) est)]> (_charges (charges p)) ∧
    ∀ r', r' < c_dp_size (charges p) →
      (replica_load r (_charges (charges p)) ≤ replica_load r' (_charges (charges p)))%Z.
Proof.
  intros Hp Hne Hn. unfold counting_select, counting_charges, on_charges.
  st_prim. rewrite request_id_given by done. st_prim. unfold id.
  destruct p as [w c]. cbn [charges weights] in *.
  destruct (min_by_spec (_load c) (c_dp_size c)) as (r & m & E & Hr & Hm & Hmin);
    [apply Hp|by apply load_length|].
  cbn [charges weights]. rewrite E. st_prim. cbn [charges weights].
  destruct (charge_ok c rid r (_weight w est) Hp Hn Hr (weight_positive w est)) as (c' & Ec & Hc' & Hs & Hch).
  rewrite Ec. eexists r, _. split; [reflexivity|]. cbn [charges]. split_and!; try done.
  intros r' Hr'. rewrite (load_lookup c r Hp Hr) in Hm. injection Hm as ->.
  by apply (Hmin r'), load_lookup.
Qed.

#[global] Program Instance Counting_laws : LoadPolicyLaws CountingPolicy := {|
  policy_ok := counting_ok;
  charged p := _charges (charges p);
  loads p := _load (charges p);
|}.
Next Obligation. intros p Hp. apply Hp. Qed.
Next Obligation. intros p Hp. apply Hp. Qed.
Next Obligation. intros p rid r a Hp. apply Hp. Qed.
Next Obligation.
  intros p est tokens rid Hp Hne Hn. cbn [select CountingPolicy_policy].
  destruct (counting_select_spec p est (Some tokens) rid Hp Hne Hn) as (r & p' & -> & Hp' & Hs & Hr & Hc & _).
  split_and!; [done|done|done|]. right. eauto.
Qed.
Next Obligation.
  intros [w c] rid Hp. cbn [release CountingPolicy_policy dp_size charges]. unfold counting_charges, on_charges. cbn [charges weights].
  destruct (discharge_ok c rid Hp) as (c' & -> & Hc' & Hs & Hch).
  exists (Counting w c'). split_and!; done.
Qed.

(** ** Prefix affinity *)

Lemma move_to_end_fold hs : ∀ l, ∃ tail,
  foldl move_to_end l hs = filter (λ k, k ∉ hs) l ++ tail ∧ length tail ≤ length hs ∧
  NoDup tail ∧ ∀ x, x ∈ tail ↔ x ∈ hs.
Proof.
  induction hs as [|h hs IH] using rev_ind; intros l.
  { exists []. rewrite app_nil_r. cbn. split_and!; [|done|constructor|done].
    symmetry. apply filter_all. intros x _. apply not_elem_of_nil. }
  destruct (IH l) as (tail & E & Hl & Hnd & Hin). exists (filter (λ k, k ≠ h) tail ++ [h]).
  rewrite foldl_app, E. cbn [foldl]. unfold move_to_end. split_and!.
  - rewrite filter_app, <- app_assoc. f_equal. rewrite list_filter_filter. apply list_filter_iff.
    intros x. rewrite elem_of_app, list_elem_of_singleton. tauto.
  - rewrite !length_app. cbn. pose proof (length_filter (λ k, k ≠ h) tail). lia.
  - apply NoDup_app. split_and!; [by apply NoDup_filter| |apply NoDup_singleton].
    intros x [Hx _]%list_elem_of_filter ->%list_elem_of_singleton. done.
  - intros x. rewrite !elem_of_app, list_elem_of_filter, Hin, !list_elem_of_singleton.
    destruct (decide (x = h)) as [->|]; tauto.
Qed.

Lemma remember_spec capacity hs l :
  NoDup l →
  NoDup (remember capacity hs l) ∧ length (remember capacity hs l) ≤ capacity ∧
  (∀ x, x ∈ remember capacity hs l → x ∈ hs ∨ x ∈ l) ∧
  (length hs ≤ capacity → ∀ x, x ∈ hs → x ∈ remember capacity hs l).
Proof.
  intros Hnd. unfold remember. destruct (move_to_end_fold hs l) as (tail & -> & Hl & Htail & Hin).
  set (F := filter (λ k, k ∉ hs) l).
  assert (Hall : NoDup (F ++ tail)).
  { apply NoDup_app. split_and!; [by apply NoDup_filter| |done].
    intros x [Hx _]%list_elem_of_filter Ht. by apply Hx, Hin. }
  split_and!.
  - rewrite <- (take_drop (length (F ++ tail) - capacity) (F ++ tail)) in Hall.
    by apply NoDup_app in Hall as (_ & _ & Hd).
  - rewrite length_drop. lia.
  - intros x Hx%elem_drop. apply elem_of_app in Hx as [Hx|Hx]; [right|left; by apply Hin].
    by apply list_elem_of_filter in Hx as [_ Hx].
  - intros Hcap x Hx. rewrite drop_app_le by (rewrite length_app; lia).
    apply elem_of_app. right. by apply Hin.
Qed.

Lemma cached_run_prefix resident hashes :
  Forall (λ h, h ∈ resident) (take (cached_run resident hashes) hashes).
Proof. induction hashes as [|h hs IH]; cbn; [constructor|]. case_decide; constructor; done. Qed.

Lemma cached_run_all resident hashes :
  (∀ h, h ∈ hashes → h ∈ resident) → cached_run resident hashes = length hashes.
Proof.
  induction hashes as [|h hs IH]; cbn; [done|]. intros H. rewrite decide_True by (apply H; by left).
  f_equal. apply IH. intros; apply H; by right.
Qed.

Lemma cached_run_le resident hashes : cached_run resident hashes ≤ length hashes.
Proof. induction hashes as [|h hs IH]; cbn; [done|]. case_decide; lia. Qed.

Record cache_ok (p : CacheAwarePolicy) : Prop := {
  ka_charges : charges_ok (ca_charges p);
  ka_block : block_size p ≠ 0;
  ka_length : length (_resident p) = c_dp_size (ca_charges p);
  ka_nodup : Forall NoDup (_resident p);
  ka_capacity : Forall (λ l, length l ≤ index_capacity p) (_resident p);
}.

Section Digest.
Context (digest : list Z → list Z) (digest_ok : Chain.digest_ok digest).

Lemma prompt_hashes_cases p token_ids :
  block_size p ≠ 0 →
  match prompt_hashes digest p (Some token_ids) with
  | Ok hashes => True
  | Err _ => ¬ Forall Chain.is_token token_ids
  end.
Proof.
  intros Hb. unfold prompt_hashes. destruct token_ids as [|x l]; [done|].
  pose proof (Chain.iter_cases digest (x :: l) (block_size p) (hash_seed p) digest_ok Hb) as Hc.
  destruct (Chain.iter_block_hashes _ _ _ _); [done|]. destruct Hc as [_ Hc]. intros Hf. apply Hc.
  by apply Forall_take.
Qed.

(** What the policy pays for a prompt on a replica. *)
Definition cost (p : CacheAwarePolicy) (hashes : list Z) (prompt_tokens : Z) (r : nat) : Z :=
  (replica_load r (_charges (ca_charges p)) +
   _uncached p prompt_tokens (cached_run (default [] (_resident p !! r)) hashes))%Z.

Lemma priced_Ok p hashes prompt_tokens n :
  cache_ok p → n = c_dp_size (ca_charges p) →
  rmap (λ replica,
    cached ← _cached_blocks p replica hashes;
    load ← item (_load (ca_charges p)) replica;
    Ok (cached, load + _uncached p prompt_tokens cached)%Z) (seq 0 n) =
  Ok ((λ r, (cached_run (default [] (_resident p !! r)) hashes, cost p hashes prompt_tokens r)) <$> seq 0 n).
Proof.
  intros Hp ->. apply rmap_Ok. intros r [_ Hr]%elem_of_seq. cbn in Hr. unfold _cached_blocks.
  destruct (lookup_lt_is_Some_2 (_resident p) r) as [l Hl]; [rewrite (ka_length p Hp); lia|].
  rewrite (item_Ok _ _ _ Hl). cbn [mbind result_bind].
  rewrite (item_Ok _ _ _ (load_lookup _ r (ka_charges p Hp) Hr)). cbn [mbind result_bind].
  unfold cost. by rewrite Hl.
Qed.

(** The chosen replica is the cheapest, and remembers the prompt. *)
Lemma cache_select_spec p est tokens rid hashes :
  cache_ok p → rid ≠ EmptyString → _charges (ca_charges p) !! rid = None →
  prompt_hashes digest p (Some tokens) = Ok hashes →
  let n := c_dp_size (ca_charges p) in
  let length := prompt_length est (Some tokens) in
  ∃ r p', cache_select digest est (Some tokens) (Some rid) p = (Ok r, p') ∧ cache_ok p' ∧
    c_dp_size (ca_charges p') = n ∧ r < n ∧
    (∃ a, _charges (ca_charges p') = <[rid := (r, a)]> (_charges (ca_charges p))) ∧
    (∀ r', r' < n → (cost p hashes length r ≤ cost p hashes length r')%Z) ∧
    _resident p' = <[r := remember (index_capacity p) hashes (default [] (_resident p !! r))]> (_resident p) ∧
    block_size p' = block_size p ∧ hash_seed p' = hash_seed p ∧ index_capacity p' = index_capacity p.
Proof.
  intros Hp Hne Hn Eh n length. unfold cache_select, cache_charges, on_charges.
  st_prim. rewrite request_id_given by done. st_prim. unfold id.
  destruct p as [bs seed cap res c]. cbn [ca_charges block_size hash_seed index_capacity _resident] in *.
  set (p := CacheAware bs seed cap res c) in *. rewrite Eh. st_prim.
  match goal with |- context [rmap ?f ?l] =>
    replace (rmap f l) with
      (Ok ((λ r, (cached_run (default [] (_resident p !! r)) hashes, cost p hashes length r)) <$> seq 0 n))
      by (symmetry; exact (priced_Ok p hashes length n Hp eq_refl)) end. st_prim.
  rewrite <- !list_fmap_compose. unfold compose. cbn [fst snd].
  destruct (min_by_spec ((λ r, cost p hashes length r) <$> seq 0 n) n) as (r & m & E & Hr & Hm & Hmin);
    [apply Hp|by rewrite length_fmap, length_seq|].
  cbn [ca_charges]. fold n. rewrite E. st_prim.
  destruct (lookup_lt_is_Some_2 res r) as [l Hl]; [pose proof (ka_length p Hp) as Hlen; cbn in Hlen; unfold n in Hr; lia|].
  erewrite item_Ok by (rewrite list_lookup_fmap, lookup_seq_lt by done; reflexivity). st_prim.
  cbn [ca_charges block_size hash_seed index_capacity _resident].
  set (amount := _uncached _ _ _).
  destruct (charge_ok c rid r amount) as (c' & Ec & Hc' & Hs & Hch);
    [apply Hp|done|done|unfold amount, _uncached; lia|].
  change (ca_charges p) with c. rewrite Ec. unfold _remember, id. st_prim.
  cbn [ca_charges block_size hash_seed index_capacity _resident]. change (_resident p) with res.
  rewrite (item_Ok _ _ _ Hl). cbn [Nat.add].
  eexists r, _. split; [reflexivity|]. cbn [ca_charges block_size hash_seed index_capacity _resident].
  pose proof (ka_nodup p Hp) as Hnd. pose proof (ka_capacity p Hp) as Hcap. cbn in Hnd, Hcap.
  destruct (remember_spec cap hashes l) as (Hnd' & Hcap' & _); [by eapply Forall_lookup_1|].
  split_and!; try done.
  - split; cbn; [done|apply Hp|rewrite length_insert; pose proof (ka_length p Hp); cbn in *; lia| |].
    + by apply Forall_insert.
    + by apply Forall_insert.
  - eauto.
  - intros r' Hr'. rewrite list_lookup_fmap, lookup_seq_lt in Hm by done. injection Hm as <-.
    apply (Hmin r'). by rewrite list_lookup_fmap, lookup_seq_lt.
  - by rewrite Hl.
Qed.

#[local] Instance cache_policy : _LoadPolicy CacheAwarePolicy := CacheAwarePolicy_policy digest.

#[global] Program Instance CacheAware_laws : LoadPolicyLaws CacheAwarePolicy := {|
  policy_ok := cache_ok;
  charged p := _charges (ca_charges p);
  loads p := _load (ca_charges p);
|}.
Next Obligation. intros p Hp. apply Hp. Qed.
Next Obligation. intros p Hp. apply (co_load _ (ka_charges p Hp)). Qed.
Next Obligation. intros p rid r a Hp. apply (co_bounds _ (ka_charges p Hp)). Qed.
Next Obligation.
  intros p est tokens rid Hp Hne Hn. cbn [select cache_policy CacheAwarePolicy_policy dp_size].
  pose proof (prompt_hashes_cases p tokens (ka_block p Hp)) as Hc.
  destruct (prompt_hashes digest p (Some tokens)) as [hashes|e] eqn:E.
  - destruct (cache_select_spec p est tokens rid hashes Hp Hne Hn E) as (r & p' & -> & Hp' & Hs & Hr & Ha & _).
    split_and!; [done|done|done|by right].
  - unfold cache_select, cache_charges, on_charges. st_prim. rewrite request_id_given by done. st_prim. unfold id.
    destruct p as [bs seed cap res c]. cbn [ca_charges block_size hash_seed index_capacity _resident]. rewrite E.
    split_and!; done.
Qed.
Next Obligation.
  intros [bs seed cap res c] rid Hp. cbn [release cache_policy CacheAwarePolicy_policy dp_size].
  unfold cache_charges, on_charges. cbn [ca_charges block_size hash_seed index_capacity _resident].
  destruct (discharge_ok c rid (ka_charges _ Hp)) as (c' & -> & Hc' & Hs & Hch).
  eexists. split; [reflexivity|]. cbn [ca_charges]. split_and!; [|done|done].
  destruct Hp as [? ? Hlen ? ?]. split; cbn in *; [done..| | |]; congruence || done.
Qed.
End Digest.

(** ** Any policy of the registry *)

Section Any.
Context (digest : list Z → list Z) (digest_ok : Chain.digest_ok digest).

#[local] Instance any_policy : _LoadPolicy AnyPolicy := AnyPolicy_policy digest.
#[local] Instance any_cache_policy : _LoadPolicy CacheAwarePolicy := CacheAwarePolicy_policy digest.
#[local] Instance any_cache_laws : LoadPolicyLaws CacheAwarePolicy := CacheAware_laws digest digest_ok.

Definition any_ok (p : AnyPolicy) : Prop :=
  match p with AnyRoundRobin p => policy_ok p | AnyCounting p => policy_ok p | AnyCacheAware p => policy_ok p end.
Definition any_charged (p : AnyPolicy) : chargemap :=
  match p with AnyRoundRobin p => charged p | AnyCounting p => charged p | AnyCacheAware p => charged p end.
Definition any_loads (p : AnyPolicy) : list Z :=
  match p with AnyRoundRobin p => loads p | AnyCounting p => loads p | AnyCacheAware p => loads p end.

#[global] Program Instance AnyPolicy_laws : LoadPolicyLaws AnyPolicy := {|
  policy_ok := any_ok;
  charged := any_charged;
  loads := any_loads;
|}.
Next Obligation. intros [p|p|p] Hp; exact (size_positive p Hp). Qed.
Next Obligation. intros [p|p|p] Hp; exact (loads_exact p Hp). Qed.
Next Obligation. intros [p|p|p] rid r a Hp; exact (charged_bounds p rid r a Hp). Qed.
Next Obligation.
  intros [p|p|p] est tokens rid Hp Hne Hn; pose proof (select_spec p est tokens rid Hp Hne Hn) as H;
    cbn [select any_policy AnyPolicy_policy]; unfold lift_policy.
  - change (rr_select est (Some tokens) (Some rid) p) with (select est (Some tokens) (Some rid) p).
    by destruct (select _ _ _ p) as [[]].
  - change (counting_select est (Some tokens) (Some rid) p) with (select est (Some tokens) (Some rid) p).
    by destruct (select _ _ _ p) as [[]].
  - change (cache_select digest est (Some tokens) (Some rid) p) with (select est (Some tokens) (Some rid) p).
    by destruct (select _ _ _ p) as [[]].
Qed.
Next Obligation.
  intros [p|p|p] rid Hp; cbn [release any_policy AnyPolicy_policy]; unfold lift_policy;
    destruct (release_spec p rid Hp) as (p' & E & Hp' & Hs & Hc); cbn in E.
  - injection E as <-. by eexists.
  - rewrite E. by eexists.
  - rewrite E. by eexists.
Qed.

Lemma replicate_Forall {A} (P : A → Prop) n x : P x → Forall P (replicate n x).
Proof. intros Hx. induction n; constructor; done. Qed.

Lemma make_cache_aware_ok n bs seed cap p :
  make_cache_aware n bs seed cap = Ok p → cache_ok p ∧ c_dp_size (ca_charges p) = n ∧ _charges (ca_charges p) = ∅.
Proof.
  unfold make_cache_aware. intros E. inv_ok. subst p.
  repeat match goal with H : negb _ = true |- _ => apply negb_true_iff, Nat.ltb_ge in H end.
  split_and!; [|done|done]. split; cbn; [apply no_charges_ok; lia|lia|apply length_replicate| |].
  - apply replicate_Forall, NoDup_nil_2.
  - apply replicate_Forall, Nat.le_0_l.
Qed.

(** Every policy of the registry starts without charges. *)
Lemma create_load_policy_ok name n p :
  create_load_policy name n = Ok p → policy_ok p ∧ dp_size p = n ∧ charged p = ∅.
Proof.
  unfold create_load_policy. repeat (case_decide; [|try done]); intros E; inv_ok; subst p.
  4: { destruct (make_cache_aware_ok _ _ _ _ _ ltac:(eassumption)) as (? & ? & ?). by split_and!. }
  all: repeat match goal with H : negb _ = true |- _ => apply negb_true_iff, Nat.ltb_ge in H end.
  all: split_and!; try done; cbn; try lia; apply no_charges_ok; lia.
Qed.
End Any.
End PolicySpec.
