(* ===== verification/Affinity.v ===== *)
(** * Prefix affinity of the cache-aware policy (data_parallel.py)

    The resident index of a replica only names blocks of prompts that were sent
    there, so a predicted hit is a prefix of such a prompt; the choice is the
    cheapest replica under that prediction.  Eviction starts at the head of the
    chain that was refreshed longest ago, which loses the whole chain at once. *)

From S2P Require Export LoadPolicySpec.

Module Affinity.
Import LoadPolicy PolicySpec.

Section Digest.
Context (digest : list Z → list Z) (digest_ok : Chain.digest_ok digest).

Notation prompts := (nat → list (list Z)).

Definition sent_to (sent : prompts) (r : nat) (tokens : list Z) : prompts :=
  λ i, if decide (i = r) then tokens :: sent i else sent i.

(** A policy in use, with the prompts it sent to each replica. *)
Inductive used (bs : nat) (seed : Z) (cap : nat) : CacheAwarePolicy → prompts → Prop :=
  | used_new n p : make_cache_aware n bs seed cap = Ok p → used bs seed cap p (λ _, [])
  | used_select p sent est tokens rid r p' :
      used bs seed cap p sent → rid ≠ EmptyString → _charges (ca_charges p) !! rid = None →
      cache_select digest est (Some tokens) (Some rid) p = (Ok r, p') →
      used bs seed cap p' (sent_to sent r tokens)
  | used_release p sent rid p' :
      used bs seed cap p sent → cache_charges (discharge rid) p = (Ok tt, p') → used bs seed cap p' sent.

Record index_ok (bs : nat) (seed : Z) (cap : nat) (p : CacheAwarePolicy) (sent : prompts) : Prop := {
  ix_ok : cache_ok p;
  ix_block : block_size p = bs;
  ix_seed : hash_seed p = seed;
  ix_capacity : index_capacity p = cap;
  ix_resident : ∀ r l h, _resident p !! r = Some l → h ∈ l →
    ∃ tokens hashes, tokens ∈ sent r ∧ Chain.iter_block_hashes digest tokens bs seed = Ok hashes ∧ h ∈ hashes;
}.

Lemma prompt_hashes_iter p tokens hashes :
  block_size p ≠ 0 → prompt_hashes digest p (Some tokens) = Ok hashes →
  Chain.iter_block_hashes digest tokens (block_size p) (hash_seed p) = Ok hashes.
Proof.
  intros Hb. unfold prompt_hashes. destruct tokens; [|done]. intros [= <-].
  unfold Chain.iter_block_hashes, rguard. rewrite bool_decide_true by done. cbn. by rewrite Nat.Div0.div_0_l.
Qed.

Lemma cache_select_hashes p est tokens rid r p' :
  block_size p ≠ 0 → rid ≠ EmptyString →
  cache_select digest est (Some tokens) (Some rid) p = (Ok r, p') →
  ∃ hashes, prompt_hashes digest p (Some tokens) = Ok hashes.
Proof.
  intros Hb Hne. unfold cache_select, cache_charges, on_charges. st_prim. rewrite request_id_given by done.
  st_prim. unfold id. destruct p as [bs seed cap res c].
  cbn [ca_charges block_size hash_seed index_capacity _resident].
  destruct (prompt_hashes digest _ (Some tokens)) as [hashes|e]; [by eauto|done].
Qed.

Lemma used_ok bs seed cap p sent : used bs seed cap p sent → index_ok bs seed cap p sent.
Proof.
  induction 1 as [n p E|p sent est tokens rid r p' Hu IH Hne Hn E|p sent rid p' Hu IH E].
  - destruct (make_cache_aware_ok _ _ _ _ _ E) as (Hok & _ & _). unfold make_cache_aware in E. inv_ok. subst p.
    split; try done. cbn. intros r l h Hl Hh. apply lookup_replicate in Hl as [-> _]. by apply elem_of_nil in Hh.
  - destruct IH as [Hok Hbs Hs Hc Hres].
    destruct (cache_select_hashes p est tokens rid r p' (ka_block p Hok) Hne E) as [hashes Eh].
    pose proof (cache_select_spec digest p est tokens rid hashes Hok Hne Hn Eh) as Hspec. cbn zeta in Hspec.
    destruct Hspec as (r1 & p1 & E1 & Hok' & Hn' & Hr & _ & _ & Hres' & Hb' & Hs' & Hc').
    rewrite E in E1. injection E1 as <- <-. split; [done|congruence..|].
    intros i l h Hl Hh. rewrite Hres' in Hl. unfold sent_to. case_decide as Hi.
    + subst i. rewrite list_lookup_insert_eq in Hl by (rewrite (ka_length p Hok); done). injection Hl as <-.
      destruct (lookup_lt_is_Some_2 (_resident p) r) as [l Hl]; [rewrite (ka_length p Hok); done|].
      rewrite Hl in Hh. cbn [default] in Hh.
      assert (Hnd : NoDup l) by (eapply (Forall_lookup_1 NoDup _ r); [apply ka_nodup, Hok|done]).
      destruct (remember_spec (index_capacity p) hashes l Hnd) as (_ & _ & Hin & _).
      destruct (Hin h Hh) as [Hin'|Hin'].
      * exists tokens, hashes. split_and!; [by left| |done]. rewrite <- Hbs, <- Hs.
        apply prompt_hashes_iter; [apply Hok|done].
      * destruct (Hres r l h Hl Hin') as (t & hs & Ht & Et & Hth). exists t, hs. split_and!; [by right|done..].
    + rewrite list_lookup_insert_ne in Hl by done. by apply (Hres i l h).
  - destruct IH as [Hok Hbs Hs Hc Hres]. destruct p as [bs' seed' cap' res c].
    unfold cache_charges, on_charges in E. cbn [ca_charges block_size hash_seed index_capacity _resident] in *.
    destruct (discharge_ok c rid (ka_charges _ Hok)) as (c' & Ec & Hc' & Hsz & _). rewrite Ec in E. injection E as <-.
    split; try done. destruct Hok as [? ? Hlen ? ?]. split; cbn in *; [done..| | |]; congruence || done.
Qed.

Lemma cached_run_lookup resident hashes i h :
  hashes !! i = Some h → i < cached_run resident hashes → h ∈ resident.
Proof.
  intros Hh Hi. pose proof (cached_run_prefix resident hashes) as Hf. rewrite Forall_lookup in Hf.
  apply (Hf i). rewrite lookup_take_lt; done.
Qed.

(** C20: prefix affinity is sound, bounded and effective.  In every cache-aware
    policy in use, a replica predicted to hold the first [k] tokens of a prompt
    was sent a prompt with the same first [k] tokens; no index outgrows its
    capacity; and the next selection goes to a replica where load plus uncached
    prompt is least, which from then on is predicted to hold every full block
    of that prompt, if they fit the index at all. *)
Theorem affinity_sound bs seed cap p sent tokens
    (Hu : used bs seed cap p sent)
    (Hcoll : ∀ r t, t ∈ sent r →
      Chain.collision_free digest (Chain.hashed digest tokens bs seed ++ Chain.hashed digest t bs seed) ∧
      Chain.seed_free digest (Chain.hashed digest tokens bs seed ++ Chain.hashed digest t bs seed) seed) :
  (∀ r k, cached_tokens digest p tokens r = Ok k → k ≠ 0 → ∃ t, t ∈ sent r ∧ take k t = take k tokens) ∧
  (∀ r m, resident_blocks p r = Ok m → m ≤ cap) ∧
  (∀ est rid r p', rid ≠ EmptyString → _charges (ca_charges p) !! rid = None →
    cache_select digest est (Some tokens) (Some rid) p = (Ok r, p') →
    (∀ r' k k', cached_tokens digest p tokens r = Ok k → cached_tokens digest p tokens r' = Ok k' →
      let n := prompt_length est (Some tokens) in
      (replica_load r (_charges (ca_charges p)) + Z.max 1 (n - Z.of_nat k) ≤
       replica_load r' (_charges (ca_charges p)) + Z.max 1 (n - Z.of_nat k'))%Z) ∧
    (length tokens / bs ≤ cap → cached_tokens digest p' tokens r = Ok (length tokens / bs * bs))).
Proof.
  destruct (used_ok _ _ _ _ _ Hu) as [Hok Hbs Hs Hc Hres]. split_and!.
  - intros r k (hashes & Eh & (cached & (l & Hl & [= <-])%bind_Ok & [= <-])%bind_Ok)%bind_Ok Hk.
    unfold item in Hl. destruct (_resident p !! r) as [l'|] eqn:El; [|done]. injection Hl as ->.
    set (c := cached_run l hashes) in *. destruct c as [|c'] eqn:Ec; [done|].
    assert (Hcl : c' < length hashes) by (pose proof (cached_run_le l hashes); lia).
    destruct (lookup_lt_is_Some_2 hashes c' Hcl) as [h Hh].
    destruct (Hres r l h El) as (t & hs & Ht & Et & Hth); [apply (cached_run_lookup l hashes c'); [done|lia]|].
    apply list_elem_of_lookup_1 in Hth as [j Hj]. rewrite Hbs, Hs in Eh.
    destruct (Hcoll r t Ht) as [Hcf Hsf].
    destruct (Chain.chain_entry_prefix digest tokens t bs seed hashes hs c' j h) as [<- E]; try done.
    exists t. split; [done|]. rewrite Hbs. rewrite Nat.add_1_r in E. done.
  - intros r m (l & Hl & [= <-])%bind_Ok. unfold item in Hl. destruct (_resident p !! r) as [l'|] eqn:El; [|done].
    injection Hl as ->. rewrite <- Hc. by apply (Forall_lookup_1 (λ l, length l ≤ index_capacity p) (_resident p) r); [apply ka_capacity|].
  - intros est rid r p' Hne Hn E.
    destruct (cache_select_hashes p est tokens rid r p' (ka_block p Hok) Hne E) as [hashes Eh].
    pose proof (cache_select_spec digest p est tokens rid hashes Hok Hne Hn Eh) as Hspec. cbn zeta in Hspec.
    destruct Hspec as (r1 & p1 & E1 & Hok' & Hn' & Hr & _ & Hmin & Hres' & Hb' & Hs' & Hc').
    rewrite E in E1. injection E1 as <- <-. pose proof (prompt_hashes_iter p tokens hashes (ka_block p Hok) Eh) as Ei.
    split.
    + intros r' k k' Hk Hk' n.
      assert (Hpay : ∀ i k, cached_tokens digest p tokens i = Ok k → i < c_dp_size (ca_charges p) ∧
        cost p hashes n i = (replica_load i (_charges (ca_charges p)) + Z.max 1 (n - Z.of_nat k))%Z).
      { intros i k0. unfold cached_tokens, _cached_blocks. rewrite Ei. cbn [mbind result_bind].
        intros (cached & (l & Hl & [= <-])%bind_Ok & [= <-])%bind_Ok. unfold item in Hl.
        destruct (_resident p !! i) as [l'|] eqn:El; [|done]. injection Hl as ->. split.
        - apply lookup_lt_Some in El. by rewrite (ka_length p Hok) in El.
        - unfold cost, _uncached. rewrite El. cbn [default]. unfold id. f_equal. lia. }
      destruct (Hpay r k Hk) as [_ <-]. destruct (Hpay r' k' Hk') as [Hr' <-]. by apply Hmin.
    + intros Hcap. unfold cached_tokens, _cached_blocks. rewrite Hb', Hs', Ei. cbn [mbind result_bind].
      rewrite Hres'. erewrite item_Ok by (apply list_lookup_insert_eq; rewrite (ka_length p Hok); done).
      cbn [mbind result_bind].
      destruct (lookup_lt_is_Some_2 (_resident p) r) as [l Hl]; [rewrite (ka_length p Hok); done|]. rewrite Hl. cbn [default].
      assert (Hnd : NoDup l) by (eapply (Forall_lookup_1 NoDup _ r); [apply ka_nodup, Hok|done]).
      pose proof (Chain.iter_cases digest tokens (block_size p) (hash_seed p) digest_ok (ka_block p Hok)) as Hi.
      rewrite Ei in Hi. destruct Hi as (_ & Hlen & _).
      rewrite cached_run_all, Hlen, Hbs; [done|].
      apply (remember_spec (index_capacity p) hashes l Hnd). rewrite Hlen, Hbs, Hc. done.
Qed.
End Digest.

(** ** Witness, and the eviction at the head *)

Definition demo_policy : result CacheAwarePolicy := make_cache_aware 2 2 7 2.

(** The policy after the selections for some prompts. *)
Definition place (rid : string) (tokens : list Z) (p : CacheAwarePolicy) : result (nat * CacheAwarePolicy) :=
  let '(r, p) := cache_select Chain.toy_digest (Z.of_nat (length tokens)) (Some tokens) (Some rid) p in
  r ← r; Ok (r, p).

Lemma affinity_sound_witness :
  ∃ p0 p1, demo_policy = Ok p0 ∧ place "a" [5; 6; 7; 8; 9]%Z p0 = Ok (0, p1) ∧
    cached_tokens Chain.toy_digest p1 [5; 6; 1; 1]%Z 0 = Ok 2 ∧
    (∃ t, t ∈ [[5; 6; 7; 8; 9]%Z] ∧ take 2 t = [5; 6]%Z).
Proof.
  do 2 eexists. split; [vm_compute; reflexivity|]. split; [vm_compute; reflexivity|].
  split; [vm_compute; reflexivity|].
  refine (proj1 (affinity_sound Chain.toy_digest Chain.toy_digest_ok 2 7 2 _
    (sent_to (λ _, []) 0 [5; 6; 7; 8; 9]%Z) [5; 6; 1; 1]%Z _ _) 0 2 _ _).
  - eapply (used_select _ _ _ _ _ _ 5%Z _ "a"%string).
    + eapply (used_new _ _ _ _ 2). vm_compute. reflexivity.
    + discriminate.
    + vm_compute. reflexivity.
    + vm_compute. reflexivity.
  - intros r t Ht. unfold sent_to in Ht. destruct (decide (r = 0)) as [->|]; [|by apply elem_of_nil in Ht].
    apply list_elem_of_singleton in Ht as ->. split.
    + apply Chain.collision_free_b_sound. vm_compute. reflexivity.
    + apply Chain.seed_free_b_sound. vm_compute. reflexivity.
  - vm_compute. reflexivity.
  - discriminate.
Defined.

(** At capacity the index forgets the head of the oldest chain first: one more
    block on the replica and nothing of the earlier prompt is predicted to be
    there, although one of its blocks still takes up room. *)
Lemma eviction_forgets_chain :
  ∃ p0 p1 p2 p3, demo_policy = Ok p0 ∧ place "a" [5; 6; 7; 8]%Z p0 = Ok (0, p1) ∧
    place "b" [1; 2; 3; 4; 5; 6; 7]%Z p1 = Ok (1, p2) ∧ place "c" [1; 1]%Z p2 = Ok (0, p3) ∧
    cached_tokens Chain.toy_digest p2 [5; 6; 7; 8]%Z 0 = Ok 4 ∧
    cached_tokens Chain.toy_digest p3 [5; 6; 7; 8]%Z 0 = Ok 0 ∧ resident_blocks p3 0 = Ok 2.
Proof. do 4 eexists. repeat (split; [vm_compute; reflexivity|]). vm_compute. reflexivity. Qed.
End Affinity.
