(* ===== verification/Router.v ===== *)
(** * The data-parallel controller ([DataParallelController] of data_parallel.py)

    The controller places each request on a replica and talks to the replicas
    through one command queue each and a shared event queue.  A queue is the
    history of what was put, with a flag that [close] clears: a put on a closed
    queue raises [ValueError].  What arrives is an environment input, one [Poll]
    per [get] with a timeout.  Each method runs as one step: the route lock
    makes its table updates atomic. *)

From S2P Require Export LoadPolicy EventLoop.

Module Router.
Import LoadPolicy Loop Sched.

(** ** Events (scheduler_ipc.py) *)

Definition PROTOCOL_VERSION : Z := 2.

Record SchedulerReady := MkReady {
  protocol_version : Z;
  engine_version : string;
  max_model_len : nat;
  num_gpu_blocks : nat;
  max_num_seqs : nat;
}.

Inductive SchedulerEvent {LP : Type} :=
  | EvReady (ready : SchedulerReady)
  | EvFailed (message : string)
  | EvReplicaReady (global_rank : nat) (scheduler : option SchedulerReady)
  | EvReplicaFailed (global_rank : nat) (message : string)
  | EvEvents (events : SchedulerEvents LP).
Arguments SchedulerEvent : clear implicits.

Section Events.
Context {LP : Type}.

Definition finished (e : RequestEvent LP) : bool := bool_decide (is_Some (ev_finish_reason e)).

(** One [get(timeout)] of the event queue: whether the deadline has passed
    before it, what it got, whether a worker is dead, and whether the deadline
    has passed after it. *)
Record Poll := MkPoll {
  late : bool;
  got : option (SchedulerEvent LP);
  dead : bool;
  expired : bool;
}.
End Events.
Arguments Poll : clear implicits.

(** ** State *)

Record CommandQueue := MkQueue { is_open : bool; commands : list SchedulerCommand }.

Record DataParallelController {P : Type} := MkController {
  data_parallel_size : nat;
  tensor_parallel_size : nat;
  enable_dp_attention : bool;
  _policy : P;
  _routes : gmap string nat;
  _command_queues : list CommandQueue;
  _request_ids : nat;
  _closed : bool;
  _failure : option string;
}.
Arguments DataParallelController : clear implicits.
Arguments MkController {P} _ _ _ _ _ _ _ _ _.

Section Controller.
Context {P LP : Type} `{!_LoadPolicy P}.
Notation Controller := (DataParallelController P).
Implicit Types (c : Controller).

Definition set_policy (p : P) c : Controller :=
  MkController (data_parallel_size c) (tensor_parallel_size c) (enable_dp_attention c) p (_routes c)
    (_command_queues c) (_request_ids c) (_closed c) (_failure c).
Definition set_routes (m : gmap string nat) c : Controller :=
  MkController (data_parallel_size c) (tensor_parallel_size c) (enable_dp_attention c) (_policy c) m
    (_command_queues c) (_request_ids c) (_closed c) (_failure c).
Definition set_queues (q : list CommandQueue) c : Controller :=
  MkController (data_parallel_size c) (tensor_parallel_size c) (enable_dp_attention c) (_policy c) (_routes c)
    q (_request_ids c) (_closed c) (_failure c).
Definition set_request_ids (n : nat) c : Controller :=
  MkController (data_parallel_size c) (tensor_parallel_size c) (enable_dp_attention c) (_policy c) (_routes c)
    (_command_queues c) n (_closed c) (_failure c).
Definition set_closed c : Controller :=
  MkController (data_parallel_size c) (tensor_parallel_size c) (enable_dp_attention c) (_policy c) (_routes c)
    (_command_queues c) (_request_ids c) true (_failure c).
Definition set_failure (message : string) c : Controller :=
  MkController (data_parallel_size c) (tensor_parallel_size c) (enable_dp_attention c) (_policy c) (_routes c)
    (_command_queues c) (_request_ids c) (_closed c) (Some message).

Definition on_policy {A} (m : St P A) : St Controller A := λ c,
  let '(r, p) := m (_policy c) in (r, set_policy p c).

(** ** Queues *)

Definition put (replica : nat) (command : SchedulerCommand) : St Controller unit :=
  queues ← gets _command_queues;
  q ← lift (item queues replica);
  _ ← require (is_open q) ValueError;
  modify (set_queues (<[replica := MkQueue true (commands q ++ [command])]> queues)).

Definition _send_replica (replica : nat) (command : SchedulerCommand) : St Controller unit :=
  _ ← put replica command;
  c ← gets id;
  if enable_dp_attention c
  then for_each (λ peer, if peer =? replica then mret tt else put peer CmdWake)
         (seq 0 (length (_command_queues c)))
  else mret tt.

Definition broadcast (command : SchedulerCommand) : St Controller unit :=
  n ← gets (λ c, length (_command_queues c));
  for_each (λ replica, put replica command) (seq 0 n).

(** ** Routes *)

Definition _release (request_id : string) : St Controller unit :=
  routes ← gets _routes;
  match routes !! request_id with
  | None => mret tt
  | Some _ =>
      _ ← modify (set_routes (delete request_id routes));
      on_policy (release request_id)
  end.

(** Choose a replica, record the route. *)
Definition route (request : AddRequest) : St Controller nat :=
  let token_ids := add_prompt_token_ids request in
  replica ← on_policy (select (Z.of_nat (length token_ids)) (Some token_ids) (Some (add_request_id request)));
  _ ← modify (λ c, set_routes (<[add_request_id request := replica]> (_routes c)) c);
  mret replica.

(** The requests of a batch, grouped by replica. *)
Fixpoint route_all (requests : list AddRequest) (grouped : list (list AddRequest)) :
    St Controller (list (list AddRequest)) :=
  match requests with
  | [] => mret grouped
  | request :: requests =>
      replica ← route request;
      group ← lift (item grouped replica);
      route_all requests (<[replica := group ++ [request]]> grouped)
  end.

Definition send_add (request : AddRequest) : St Controller unit :=
  routes ← gets _routes;
  _ ← require (negb (bool_decide (is_Some (routes !! add_request_id request)))) ValueError;
  replica ← route request;
  on_error (_send_replica replica (CmdAdd request)) (_release (add_request_id request)).

Definition send_batch (requests : list AddRequest) : St Controller unit :=
  let request_ids := add_request_id <$> requests in
  _ ← require (length (remove_dups request_ids) =? length request_ids) ValueError;
  routes ← gets _routes;
  _ ← require (forallb (λ request_id, negb (bool_decide (is_Some (routes !! request_id)))) request_ids) ValueError;
  n ← gets data_parallel_size;
  grouped ← route_all requests (replicate n []);
  on_error
    (for_each (λ '(replica, group),
       if decide (group = []) then mret tt else _send_replica replica (CmdAddBatch group)) (imap pair grouped))
    (for_each _release request_ids).

Definition send (command : SchedulerCommand) : St Controller unit :=
  c ← gets id;
  _ ← require (negb (_closed c)) RuntimeError;
  _ ← require (negb (bool_decide (is_Some (_failure c)))) RuntimeError;
  match command with
  | CmdAddBatch requests => send_batch requests
  | CmdAdd request => send_add request
  | CmdAbort request_id =>
      match _routes c !! request_id with
      | None => mret tt
      | Some replica => _ ← _send_replica replica command; _release request_id
      end
  | CmdUtility _ _ | CmdWake | CmdShutdown => broadcast command
  end.

(** ** Receiving *)

(** The message of a failed rank. *)
Definition rank_failed (global_rank : nat) (message : string) : string :=
  "data-parallel rank " +:+ pretty global_rank +:+ " failed:" +:+ String (Ascii.ascii_of_nat 10) EmptyString +:+ message.
Definition ranks_exited : string := "data-parallel rank(s) exited".

Definition release_finished (output : RequestEvent LP) : St Controller unit :=
  if finished output || bool_decide (is_Some (ev_error output)) then _release (ev_request_id output) else mret tt.

(** What [receive] does with an event. *)
Definition deliver (event : SchedulerEvent LP) : St Controller (SchedulerEvent LP) :=
  match event with
  | EvReplicaFailed global_rank message =>
      _ ← modify (set_failure (rank_failed global_rank message));
      mret (EvFailed (rank_failed global_rank message))
  | EvEvents events => _ ← for_each release_finished (outputs events); mret event
  | _ => mret event
  end.

(** One turn of the loop of [receive]; [None] to go on polling. *)
Definition poll_once (p : Poll LP) : St Controller (option (SchedulerEvent LP)) :=
  _ ← require (negb (late p)) QueueEmpty;
  match got p with
  | Some event => e ← deliver event; mret (Some e)
  | None =>
      closed ← gets _closed;
      if dead p && negb closed
      then _ ← modify (set_failure ranks_exited); raise RuntimeError
      else _ ← require (negb (expired p)) QueueEmpty; mret None
  end.

(** [None] when the polls run out: the call is still waiting. *)
Fixpoint receive (polls : list (Poll LP)) : St Controller (option (SchedulerEvent LP)) :=
  match polls with
  | [] => mret None
  | p :: polls =>
      event ← poll_once p;
      match event with
      | Some e => mret (Some e)
      | None => receive polls
      end
  end.

(** ** Startup *)

(** The loop of [_await_ready] over its turns, each whether the startup timeout
    has passed and the polls of its [receive]. *)
Fixpoint await_turns (turns : list (bool * list (Poll LP))) (pending : list nat) (leader_ready : option SchedulerReady) :
    St Controller (option SchedulerReady) :=
  match pending with
  | [] =>
      match leader_ready with
      | None => raise RuntimeError
      | Some ready => mret (Some ready)
      end
  | _ =>
      match turns with
      | [] => mret None
      | (timed_out, polls) :: turns =>
          _ ← require (negb timed_out) TimeoutError;
          event ← catch (receive polls) (λ e, if decide (e = QueueEmpty) then mret None else raise e);
          match event with
          | Some (EvFailed _) => raise RuntimeError
          | Some (EvReplicaReady global_rank scheduler) =>
              let pending := filter (λ r, r ≠ global_rank) pending in
              match scheduler with
              | None => await_turns turns pending leader_ready
              | Some ready =>
                  _ ← require (bool_decide (protocol_version ready = PROTOCOL_VERSION)) RuntimeError;
                  await_turns turns pending (Some (default ready leader_ready))
              end
          | _ => await_turns turns pending leader_ready
          end
      end
  end.

Definition _await_ready (turns : list (bool * list (Poll LP))) : St Controller (option SchedulerReady) :=
  world_size ← gets (λ c, data_parallel_size c * tensor_parallel_size c);
  await_turns turns (seq 0 world_size) None.

(** ** Shutdown *)

(** Joining and terminating the workers is left out. *)
Definition shutdown : St Controller unit :=
  closed ← gets _closed;
  if (closed : bool) then mret tt
  else
    _ ← suppress (send CmdShutdown);
    _ ← modify set_closed;
    modify (λ c, set_queues ((λ q, MkQueue false (commands q)) <$> _command_queues c) c).

(** ** Blocking generation *)

Record CompletionOutput := MkCompletion {
  out_text : Text.text;
  out_finish_reason : option string;
  out_logprobs : option (list LP);
}.
Record RequestOutput := MkRequestOutput {
  out_prompt : Text.text;
  out_outputs : list CompletionOutput;
  out_prompt_logprobs : option (list (option LP));
}.

(** The dictionaries of one call. *)
Record Collected := MkCollected {
  generated : gmap string (list Z);
  reasons : gmap string (option string);
  output_logprobs : gmap string (list LP);
  prompt_logprobs : gmap string (list (option LP));
  pending : gset string;
}.

Definition collect_output (output : RequestEvent LP) (g : Collected) : result Collected :=
  let rid := ev_request_id output in
  match generated g !! rid with
  | None => Ok g
  | Some tokens =>
      let g := MkCollected (<[rid := tokens ++ new_token_ids output]> (generated g)) (reasons g)
        (match ev_delta_logprobs output with
         | None => output_logprobs g
         | Some x => <[rid := default [] (output_logprobs g !! rid) ++ [x]]> (output_logprobs g)
         end)
        (match ev_prompt_logprobs output with
         | None => prompt_logprobs g
         | Some l => <[rid := l]> (prompt_logprobs g)
         end) (pending g) in
      _ ← rguard (negb (bool_decide (is_Some (ev_error output)))) ValueError;
      Ok (if finished output
          then MkCollected (generated g) (<[rid := ev_finish_reason output]> (reasons g)) (output_logprobs g)
                 (prompt_logprobs g) (pending g ∖ {[rid]})
          else g)
  end.

(** The loop of [generate]: [receive] has no deadline, so it polls until an
    event arrives.  [None] when the polls run out. *)
Fixpoint generate_loop (polls : list (Poll LP)) (g : Collected) : St Controller (option Collected) :=
  if decide (pending g = ∅) then mret (Some g)
  else
    match polls with
    | [] => mret None
    | p :: polls =>
        event ← poll_once p;
        match event with
        | Some (EvFailed _) => raise RuntimeError
        | Some (EvEvents events) =>
            g ← lift (rfold collect_output (outputs events) g);
            generate_loop polls g
        | _ => generate_loop polls g
        end
    end.

Section Tokenizer.
(** [tokenizer.encode], [tokenizer.decode] *)
Context (encode : Text.text → list Z) (decode : list Z → Text.text).

Definition batch_id (n : nat) : string := "batch-" +:+ pretty n.

Definition generate (prompts : list Text.text) (sampling_params : option SamplingParams) (polls : list (Poll LP)) :
    St Controller (option (list RequestOutput)) :=
  if decide (prompts = []) then mret (Some [])
  else
    let params := default default_params sampling_params in
    first ← gets _request_ids;
    _ ← modify (set_request_ids (first + length prompts));
    let request_ids := batch_id <$> seq first (length prompts) in
    let requests := zip_with (λ request_id prompt,
      MkAdd request_id (encode prompt) params (bool_decide (is_Some (logprobs params)))) request_ids prompts in
    let empty := list_to_map ((λ r, (r, [])) <$> request_ids) in
    collected ← on_error
      (_ ← send (CmdAddBatch requests);
       generate_loop polls (MkCollected empty ∅ (list_to_map ((λ r, (r, [])) <$> request_ids)) ∅
                              (list_to_set request_ids)))
      (for_each (λ request_id, suppress (send (CmdAbort request_id))) request_ids);
    match collected with
    | None => mret None
    | Some g =>
        mret (Some (zip_with (λ prompt request_id,
          let records := default [] (output_logprobs g !! request_id) in
          MkRequestOutput prompt
            [MkCompletion (decode (default [] (generated g !! request_id)))
               (default None (reasons g !! request_id))
               (if decide (length records = 0) then None else Some records)]
            (prompt_logprobs g !! request_id)) prompts request_ids))
    end.
End Tokenizer.

End Controller.

(** ** Construction *)

(** What the constructor checks; [visible] is the number of GPUs and
    [speculate] the setting [LITE_LLAMA_SPECULATE], stripped and lowered. *)
Record controller_args := MkArgs {
  arg_data_parallel_size : Z;
  arg_tensor_parallel_size : Z;
  arg_load_balancer : string;
  arg_enable_dp_attention : bool;
  arg_device : option string;
  arg_enable_expert_parallel : bool;
  arg_use_cuda_graph : bool;
}.

Definition LOAD_BALANCE_POLICIES : list string :=
  ["round_robin"; "total_requests"; "total_tokens"; "cache_aware"]%string.

Definition check_args (a : controller_args) (visible : Z) (speculate : string) : result unit :=
  _ ← rguard (negb (arg_data_parallel_size a <? 1)%Z) ValueError;
  _ ← rguard (negb (arg_tensor_parallel_size a <? 1)%Z) ValueError;
  _ ← rguard (match arg_device a with None => true | Some d => bool_decide (d = "cpu"%string) end) ValueError;
  _ ← rguard (bool_decide (arg_load_balancer a ∈ LOAD_BALANCE_POLICIES)) ValueError;
  _ ← (if arg_enable_dp_attention a then
         _ ← rguard (1 <? arg_data_parallel_size a)%Z ValueError;
         _ ← rguard (arg_enable_expert_parallel a) ValueError;
         _ ← rguard (negb (arg_use_cuda_graph a)) ValueError;
         rguard (negb (bool_decide (speculate ∈ ["1"; "true"; "on"]%string))) ValueError
       else Ok tt);
  rguard (bool_decide (arg_device a = Some "cpu"%string)
          || (arg_data_parallel_size a * arg_tensor_parallel_size a <=? visible)%Z) ValueError.

Definition make_controller (a : controller_args) (visible : Z) (speculate : string) :
    result (DataParallelController AnyPolicy) :=
  _ ← check_args a visible speculate;
  let n := Z.to_nat (arg_data_parallel_size a) in
  policy ← create_load_policy (arg_load_balancer a) n;
  Ok (MkController n (Z.to_nat (arg_tensor_parallel_size a)) (arg_enable_dp_attention a) policy ∅
        (replicate n (MkQueue true [])) 0 false None).

(** The replica, the place in it and the command queue of a worker. *)
Definition worker_place {P} (c : DataParallelController P) (global_rank : nat) : nat * nat :=
  (global_rank / tensor_parallel_size c, global_rank mod tensor_parallel_size c).
End Router.
