(* ===== verification/RouterInv.v ===== *)
(** * Queues, routes and charges of the controller

    What the primitive operations of [Router] do, exactly; and the invariant
    that ties the three ledgers of the controller together: the routes, the
    charges of the policy and the history of the command queues. *)

From S2P Require Export Router LoadPolicySpec.

Module RouterInv.
Import LoadPolicy PolicySpec Loop Sched Router.

Section Controller.
Context {P LP : Type} `{!_LoadPolicy P, !LoadPolicyLaws P}.
Notation Controller := (DataParallelController P).
Implicit Types (c : Controller) (rid : string) (r : nat) (cmd : SchedulerCommand).

(** ** Puts *)

Definition push cmd (q : CommandQueue) : CommandQueue := MkQueue (is_open q) (commands q ++ [cmd]).

Definition push_all (l : list (nat * SchedulerCommand)) (queues : list CommandQueue) : list CommandQueue :=
  foldl (λ qs x, alter (push x.2) x.1 qs) queues l.

(** The commands of [l] for one queue. *)
Definition for_queue r (l : list (nat * SchedulerCommand)) : list SchedulerCommand :=
  (filter (λ x, x.1 = r) l).*2.

Lemma push_all_lookup l : ∀ queues r,
  push_all l queues !! r = (λ q, MkQueue (is_open q) (commands q ++ for_queue r l)) <$> queues !! r.
Proof.
  unfold for_queue. induction l as [|[i cmd] l IH]; intros queues r.
  { cbn. destruct (queues !! r) as [[o h]|]; cbn; [by rewrite app_nil_r|done]. }
  change (push_all ((i, cmd) :: l) queues) with (push_all l (alter (push cmd) i queues)).
  rewrite IH. destruct (decide (i = r)) as [->|Hne].
  - rewrite filter_cons_True by done. rewrite list_lookup_alter_eq. destruct (queues !! r) as [[o h]|]; cbn; [|done].
    by rewrite <- app_assoc.
  - rewrite filter_cons_False by done. by rewrite list_lookup_alter_ne.
Qed.

Lemma push_all_app l1 l2 queues : push_all (l1 ++ l2) queues = push_all l2 (push_all l1 queues).
Proof. unfold push_all. by rewrite foldl_app. Qed.

Lemma push_all_length l queues : length (push_all l queues) = length queues.
Proof.
  unfold push_all. revert queues. induction l as [|x l IH]; intros queues; cbn; [done|].
  by rewrite IH, length_alter.
Qed.

Definition puts (l : list (nat * SchedulerCommand)) : St Controller unit := for_each (λ '(r, cmd), put r cmd) l.

Lemma set_queues_id c : set_queues (_command_queues c) c = c.
Proof. by destruct c. Qed.

Lemma queue_put_run r cmd c q :
  _command_queues c !! r = Some q →
  put r cmd c = if is_open q then (Ok tt, set_queues (push_all [(r, cmd)] (_command_queues c)) c)
                else (Err ValueError, c).
Proof.
  intros Hq. unfold put. st_prim. rewrite (item_Ok _ _ _ Hq). unfold rguard.
  destruct q as [[] h]; cbn [is_open]; st_prim; [|done]. f_equal. f_equal. cbn.
  apply list_eq. intros i. destruct (decide (i = r)) as [->|].
  - rewrite list_lookup_alter_eq, Hq. apply list_lookup_insert_eq. by eapply lookup_lt_Some.
  - by rewrite list_lookup_alter_ne, list_lookup_insert_ne.
Qed.

(** Puts go through up to the first closed queue. *)
Lemma puts_run l : ∀ c,
  Forall (λ x, x.1 < length (_command_queues c)) l →
  ∃ pre post, l = pre ++ post ∧
    puts l c = (if decide (post = []) then Ok tt else Err ValueError,
                set_queues (push_all pre (_command_queues c)) c) ∧
    (Forall (λ q, is_open q = true) (_command_queues c) → post = []).
Proof.
  induction l as [|[r cmd] l IH]; intros c Hl.
  { exists [], []. split_and!; [done| |done]. cbn. by rewrite set_queues_id. }
  apply Forall_cons in Hl as [Hr Hl]. cbn in Hr. destruct (lookup_lt_is_Some_2 _ _ Hr) as [q Hq].
  unfold puts. cbn [for_each]. destruct (is_open q) eqn:Ho.
  - set (c1 := set_queues (push_all [(r, cmd)] (_command_queues c)) c).
    destruct (IH c1) as (pre & post & -> & E & Hopen).
    { eapply Forall_impl; [exact Hl|]. intros x Hx. unfold c1. cbn [_command_queues set_queues]. by rewrite push_all_length. }
    exists ((r, cmd) :: pre), post. split; [done|]. split.
    + rewrite run_bind, (queue_put_run r cmd c q Hq), Ho. unfold puts in E. fold c1. rewrite E. done.
    + intros Hall. apply Hopen. unfold c1. cbn [_command_queues set_queues]. rewrite Forall_lookup. intros i q' Hq'.
      rewrite push_all_lookup in Hq'. apply fmap_Some in Hq' as (q0 & Hq0 & ->). cbn. rewrite Forall_lookup in Hall. by eapply Hall.
  - exists [], ((r, cmd) :: l). split_and!; [done| |].
    + rewrite run_bind, (queue_put_run r cmd c q Hq), Ho. cbn. by rewrite set_queues_id.
    + intros Hall. rewrite Forall_lookup in Hall. specialize (Hall _ _ Hq). congruence.
Qed.

(** The puts of [_send_replica]: the command, and a wake-up for every peer. *)
Definition sends (dp : bool) (n r : nat) cmd : list (nat * SchedulerCommand) :=
  (r, cmd) :: if dp then (λ peer, (peer, CmdWake)) <$> filter (λ peer, peer ≠ r) (seq 0 n) else [].

Lemma for_each_app {S A} (f : A → St S unit) l1 l2 s :
  for_each f (l1 ++ l2) s = (_ ← for_each f l1; for_each f l2) s.
Proof.
  revert s. induction l1 as [|a l1 IH]; intros s; cbn [for_each app]; [done|].
  rewrite !run_bind. destruct (f a s) as [[[]|e] s1]; [|done]. by rewrite IH.
Qed.

Lemma for_each_skip {S A B} (f : A → St S unit) (g : B → St S unit) (h : A → B) (Q : A → Prop)
    `{!∀ a, Decision (Q a)} l s :
  (∀ a s, f a s = if decide (Q a) then g (h a) s else (Ok tt, s)) →
  for_each f l s = for_each g (h <$> filter Q l) s.
Proof.
  intros Hf. revert s. induction l as [|a l IH]; intros s; [done|]. cbn [for_each].
  rewrite run_bind, Hf. destruct (decide (Q a)) as [Ha|Ha].
  - rewrite filter_cons_True by done. cbn [fmap list_fmap for_each]. rewrite run_bind.
    destruct (g (h a) s) as [[[]|e] s1]; [apply IH|done].
  - rewrite filter_cons_False by done. apply IH.
Qed.

Lemma queue_put_shape r cmd c c' x :
  put r cmd c = (x, c') →
  c' = set_queues (_command_queues c') c ∧ length (_command_queues c') = length (_command_queues c).
Proof.
  destruct (_command_queues c !! r) as [q|] eqn:Hq.
  - rewrite (queue_put_run r cmd c q Hq). destruct (is_open q); intros [= _ <-]; cbn [_command_queues set_queues].
    + split; [done|]. change (length (push_all [(r, cmd)] (_command_queues c)) = length (_command_queues c)).
      apply push_all_length.
    + by rewrite set_queues_id.
  - unfold put. st_prim. unfold item. rewrite Hq. intros [= _ <-]. by rewrite set_queues_id.
Qed.

Lemma send_replica_puts r cmd c :
  length (_command_queues c) = data_parallel_size c →
  _send_replica r cmd c = puts (sends (enable_dp_attention c) (data_parallel_size c) r cmd) c.
Proof.
  intros Hn. unfold _send_replica, puts, sends. cbn [for_each]. rewrite !run_bind.
  destruct (put r cmd c) as [[[]|e] c1] eqn:E; [|done]. rewrite run_bind. cbv beta iota delta [gets id].
  destruct (queue_put_shape _ _ _ _ _ E) as [-> Hl]. rewrite Hn in Hl.
  cbn [enable_dp_attention set_queues _command_queues] in *. rewrite Hl.
  destruct (enable_dp_attention c); [|done].
  apply (for_each_skip _ (λ '(r, cmd), put r cmd) (λ peer, (peer, CmdWake)) (λ peer, peer ≠ r)).
  intros peer s. destruct (Nat.eqb_spec peer r) as [->|Hne].
  - by rewrite decide_False by tauto.
  - by rewrite decide_True.
Qed.

(** ** The tables *)

Record tables c : Prop := {
  t_policy : policy_ok (_policy c);
  t_size : dp_size (_policy c) = data_parallel_size c;
  t_queues : length (_command_queues c) = data_parallel_size c;
  t_routes : ∀ rid r, _routes c !! rid = Some r → r < data_parallel_size c;
  t_charges : ∀ rid r a, charged (_policy c) !! rid = Some (r, a) → _routes c !! rid = Some r;
}.

(** Only the routes and the policy differ. *)
Definition same_but c c' : Prop := c' = set_routes (_routes c') (set_policy (_policy c') c).

Lemma same_but_refl c : same_but c c.
Proof. by destruct c. Qed.
Lemma same_but_trans c1 c2 c3 : same_but c1 c2 → same_but c2 c3 → same_but c1 c3.
Proof. unfold same_but. intros E1 E2. rewrite E2, E1. done. Qed.

Lemma tables_queues c queues :
  length queues = length (_command_queues c) → tables c → tables (set_queues queues c).
Proof. intros Hl [? ? Hq ? ?]. split; cbn; [done..|by rewrite Hl|done|done]. Qed.

Lemma release_run c rid :
  tables c →
  ∃ c', _release rid c = (Ok tt, c') ∧ tables c' ∧ same_but c c' ∧
    _routes c' = delete rid (_routes c) ∧ charged (_policy c') = delete rid (charged (_policy c)).
Proof.
  intros Ht. unfold _release. st_prim. destruct (_routes c !! rid) as [r|] eqn:Er.
  - st_prim. unfold on_policy. cbn [set_routes _policy].
    destruct (release_spec (_policy c) rid (t_policy c Ht)) as (p' & -> & Hp & Hs & Hc).
    eexists. split; [reflexivity|]. cbn. split_and!; [|done|done|done]. destruct Ht as [? ? ? Hr Hch].
    split; cbn; [done|congruence|done| |].
    + intros rid' r' [_ Hl]%lookup_delete_Some. by eapply Hr.
    + intros rid' r' a. rewrite Hc, !lookup_delete_Some. intros [Hne Hl]. eauto.
  - exists c. split_and!; [done|done|apply same_but_refl|by rewrite delete_id|].
    rewrite delete_id; [done|]. destruct (charged (_policy c) !! rid) as [[r a]|] eqn:E; [|done].
    pose proof (t_charges c Ht _ _ _ E). congruence.
Qed.

Definition without {A} (rids : list string) (m : gmap string A) : gmap string A :=
  foldl (λ m rid, delete rid m) m rids.

Lemma without_lookup {A} rids : ∀ (m : gmap string A) rid,
  without rids m !! rid = if decide (rid ∈ rids) then None else m !! rid.
Proof.
  unfold without. induction rids as [|x rids IH]; intros m rid; cbn [foldl].
  - rewrite decide_False by apply not_elem_of_nil. done.
  - rewrite IH. destruct (decide (rid ∈ rids)); [by rewrite decide_True by (by right)|].
    destruct (decide (rid = x)) as [->|].
    + rewrite lookup_delete_eq, decide_True by (by left). done.
    + rewrite lookup_delete_ne, decide_False by (rewrite ?elem_of_cons; naive_solver). done.
Qed.

Lemma releases_run rids : ∀ c,
  tables c →
  ∃ c', for_each _release rids c = (Ok tt, c') ∧ tables c' ∧ same_but c c' ∧
    _routes c' = without rids (_routes c) ∧ charged (_policy c') = without rids (charged (_policy c)).
Proof.
  induction rids as [|rid rids IH]; intros c Ht; cbn [for_each].
  { exists c. split_and!; try done. apply same_but_refl. }
  destruct (release_run c rid Ht) as (c1 & E1 & Ht1 & Hs1 & Hr1 & Hc1).
  destruct (IH c1 Ht1) as (c2 & E2 & Ht2 & Hs2 & Hr2 & Hc2).
  exists c2. rewrite (run_Ok _ _ _ _ _ E1). split_and!; [done|done|by eapply same_but_trans| |].
  - by rewrite Hr2, Hr1.
  - by rewrite Hc2, Hc1.
Qed.

Definition add_ok (a : AddRequest) : Prop :=
  add_request_id a ≠ EmptyString ∧ Forall Chain.is_token (add_prompt_token_ids a).

Lemma route_run c a :
  tables c → add_request_id a ≠ EmptyString → _routes c !! add_request_id a = None →
  match route a c with
  | (Ok r, c') => tables c' ∧ same_but c c' ∧ r < data_parallel_size c ∧
      _routes c' = <[add_request_id a := r]> (_routes c) ∧
      ∀ rid, rid ≠ add_request_id a → charged (_policy c') !! rid = charged (_policy c) !! rid
  | (Err _, c') => tables c' ∧ same_but c c' ∧ _routes c' = _routes c ∧
      charged (_policy c') = charged (_policy c) ∧ ¬ add_ok a
  end.
Proof.
  intros Ht Hne Hn. set (rid := add_request_id a) in *.
  assert (Hfree : charged (_policy c) !! rid = None).
  { destruct (charged (_policy c) !! rid) as [[r x]|] eqn:E; [|done]. pose proof (t_charges c Ht _ _ _ E). congruence. }
  pose proof (select_spec (_policy c) (Z.of_nat (length (add_prompt_token_ids a))) (add_prompt_token_ids a)
    rid (t_policy c Ht) Hne Hfree) as Hsel.
  unfold route, on_policy. fold rid. st_prim. destruct (select _ _ _ (_policy c)) as [[r|e] p'].
  - destruct Hsel as (Hp & Hs & Hr & Hc). rewrite (t_size c Ht) in Hr, Hs. cbn. split_and!; [|done|done|done|].
    + destruct Ht as [? ? ? Hroutes Hch]. split; cbn; try done.
      * intros rid' r'. rewrite lookup_insert_Some. intros [[_ <-]|[_ Hl]]; [done|by eapply Hroutes].
      * intros rid' r' x Hl. destruct (decide (rid' = rid)) as [->|Hd].
        -- rewrite lookup_insert_eq. destruct Hc as [Hc|[y Hc]]; rewrite Hc in Hl; [congruence|].
           rewrite lookup_insert_eq in Hl. congruence.
        -- rewrite lookup_insert_ne by done. apply (Hch rid' r' x).
           destruct Hc as [Hc|[y Hc]]; rewrite Hc in Hl; [done|]. by rewrite lookup_insert_ne in Hl.
    + intros rid' Hd. cbn [_policy set_routes set_policy]. destruct Hc as [->|[y ->]]; [done|]. by rewrite lookup_insert_ne.
  - destruct Hsel as (Hp & Hs & Hc & Hbad). split_and!; [|done|done|done|].
    + destruct Ht as [? ? ? Hroutes Hch]. split; cbn; [done|congruence|done|done|]. intros rid' r' x. rewrite Hc. apply Hch.
    + intros [_ Hok]. done.
Qed.

Definition ids_of (requests : list AddRequest) : list string := add_request_id <$> requests.

(** The requests sent to one replica. *)
Definition assigned r (choices : list (AddRequest * nat)) : list AddRequest :=
  (filter (λ x, x.2 = r) choices).*1.

Lemma route_all_run requests : ∀ grouped c,
  tables c → NoDup (ids_of requests) → length grouped = data_parallel_size c →
  Forall (λ a, add_request_id a ≠ EmptyString ∧ _routes c !! add_request_id a = None) requests →
  match route_all requests grouped c with
  | (Ok grouped', c') => tables c' ∧ same_but c c' ∧ ∃ choices, choices.*1 = requests ∧
      grouped' = imap (λ r g, g ++ assigned r choices) grouped ∧
      (∀ rid, rid ∉ ids_of requests → _routes c' !! rid = _routes c !! rid ∧
        charged (_policy c') !! rid = charged (_policy c) !! rid) ∧
      (∀ a r, (a, r) ∈ choices → _routes c' !! add_request_id a = Some r ∧ r < data_parallel_size c)
  | (Err _, c') => tables c' ∧ same_but c c' ∧ ¬ Forall add_ok requests
  end.
Proof.
  induction requests as [|a requests IH]; intros grouped c Ht Hnd Hg Hall; cbn [route_all].
  { split_and!; [done|apply same_but_refl|]. exists []. split_and!; [done| |done|].
    - apply list_eq. intros i. rewrite list_lookup_imap. destruct (grouped !! i); cbn; [by rewrite app_nil_r|done].
    - intros a r H. by apply elem_of_nil in H. }
  apply NoDup_cons in Hnd as [Hnot Hnd]. apply Forall_cons in Hall as [[Hne Hn] Hall].
  pose proof (route_run c a Ht Hne Hn) as Hrun. rewrite run_bind. destruct (route a c) as [[r|e] c1].
  2: { destruct Hrun as (Ht1 & Hs1 & _ & _ & Hbad). split_and!; [done|done|]. intros [H _]%Forall_cons. done. }
  destruct Hrun as (Ht1 & Hs1 & Hr & Hr1 & Hc1). st_prim.
  assert (Hn1 : data_parallel_size c1 = data_parallel_size c) by (by rewrite Hs1).
  destruct (lookup_lt_is_Some_2 grouped r) as [g Hgr]; [by rewrite Hg|].
  rewrite (item_Ok _ _ _ Hgr). specialize (IH (<[r := g ++ [a]]> grouped) c1 Ht1 Hnd).
  rewrite length_insert, Hn1 in IH. specialize (IH Hg).
  assert (Hall1 : Forall (λ a, add_request_id a ≠ EmptyString ∧ _routes c1 !! add_request_id a = None) requests).
  { rewrite Forall_forall in *. intros b Hb. destruct (Hall b Hb) as [Hbe Hbn]. split; [done|].
    rewrite Hr1, lookup_insert_ne; [done|]. intros E. apply Hnot. rewrite E. unfold ids_of. by apply list_elem_of_fmap_2. }
  specialize (IH Hall1). destruct (route_all requests _ c1) as [[grouped'|e] c'].
  2: { destruct IH as (Ht' & Hs' & Hbad). split_and!; [done|by eapply same_but_trans|]. intros [_ H]%Forall_cons. done. }
  destruct IH as (Ht' & Hs' & choices & Hch & -> & Hother & Hin).
  split_and!; [done|by eapply same_but_trans|]. exists ((a, r) :: choices). split_and!.
  - cbn. by rewrite Hch.
  - apply list_eq. intros i. rewrite !list_lookup_imap. unfold assigned. destruct (decide (i = r)) as [->|Hd].
    + rewrite filter_cons_True by done. rewrite list_lookup_insert_eq by (by rewrite Hg). rewrite Hgr. cbn.
      by rewrite <- app_assoc.
    + rewrite filter_cons_False by (cbn; congruence). by rewrite list_lookup_insert_ne by done.
  - intros rid Hrid. unfold ids_of in Hrid. cbn in Hrid. apply not_elem_of_cons in Hrid as [Hd Hrid].
    destruct (Hother rid Hrid) as [-> ->]. rewrite Hr1, lookup_insert_ne by done. split; [done|by apply Hc1].
  - intros b i [[= -> ->]|Hb]%elem_of_cons.
    + destruct (Hother (add_request_id a) Hnot) as [-> _]. by rewrite Hr1, lookup_insert_eq.
    + destruct (Hin b i Hb) as [? ?]. split; [done|congruence].
Qed.
End Controller.
End RouterInv.
