(* ===== verification/RouterSpec.v ===== *)
(** * Theorems on the data-parallel controller

    What a send does on every branch, and the invariant of every controller in
    use: the routes agree with the command histories, the charges with the
    routes, and under DP attention the replicas are sent equally many commands. *)

From S2P Require Export RouterInv.

Module RouterSpec.
Import LoadPolicy PolicySpec Loop Sched Router RouterInv.

(** ** Lists *)

Section Lists.
Context {A : Type} `{!EqDecision A}.
Implicit Types (l : list A).

Lemma remove_dups_NoDup l : NoDup l → remove_dups l = l.
Proof. induction 1 as [|x l Hx _ IH]; cbn; [done|]. case_decide; [done|]. by rewrite IH. Qed.

Lemma remove_dups_length l : length (remove_dups l) ≤ length l.
Proof. induction l as [|x l IH]; cbn; [done|]. case_decide; cbn; lia. Qed.

Lemma remove_dups_full l : length (remove_dups l) = length l → NoDup l.
Proof.
  induction l as [|x l IH]; cbn; [by constructor|]. pose proof (remove_dups_length l).
  case_decide; cbn; intros E; [lia|]. constructor; [done|]. apply IH. lia.
Qed.

Lemma bind_bind {B C} l (f : A → list B) (g : B → list C) : (l ≫= f) ≫= g = l ≫= λ a, f a ≫= g.
Proof. induction l as [|a l IH]; [done|]. cbn. by rewrite bind_app, IH. Qed.
End Lists.

(** ** The history of a request in a queue: [true] an add, [false] an abort *)

Definition op_of (rid : string) (cmd : SchedulerCommand) : list bool :=
  match cmd with
  | CmdAdd a => if decide (add_request_id a = rid) then [true] else []
  | CmdAddBatch l => (λ _, true) <$> filter (λ a, add_request_id a = rid) l
  | CmdAbort id => if decide (id = rid) then [false] else []
  | _ => []
  end.

Definition ops (rid : string) (cmds : list SchedulerCommand) : list bool := cmds ≫= op_of rid.

(** Every abort directly follows an add. *)
Fixpoint paired (prev : bool) (l : list bool) : bool :=
  match l with
  | [] => true
  | b :: l => (b || prev) && paired b l
  end.

Lemma paired_app prev l1 l2 : paired prev (l1 ++ l2) = paired prev l1 && paired (default prev (last l1)) l2.
Proof.
  revert prev. induction l1 as [|b l1 IH]; intros prev; [done|]. cbn [app paired].
  rewrite IH, <- andb_assoc. do 2 f_equal. rewrite last_cons. by destruct (last l1).
Qed.

Lemma paired_trues l prev : Forall (λ b, b = true) l → paired prev l = true.
Proof. intros H. revert prev. induction H as [|b l -> _ IH]; intros prev; cbn; [done|apply IH]. Qed.

Lemma last_trues (l : list bool) : Forall (λ b, b = true) l → l ≠ [] → last l = Some true.
Proof.
  intros Hf Hl. destruct (last l) as [b|] eqn:E; [|by apply last_None in E].
  apply last_Some_elem_of in E. rewrite Forall_forall in Hf. by rewrite (Hf _ E).
Qed.

Lemma ops_app rid l1 l2 : ops rid (l1 ++ l2) = ops rid l1 ++ ops rid l2.
Proof. apply bind_app. Qed.

Lemma op_of_batch rid l : op_of rid (CmdAddBatch l) ≠ [] ↔ rid ∈ ids_of l.
Proof.
  cbn. unfold ids_of. rewrite list_elem_of_fmap. split.
  - destruct (filter _ l) as [|a f] eqn:E; [done|]. intros _. exists a.
    assert (a ∈ filter (λ a, add_request_id a = rid) l) as [? ?]%list_elem_of_filter by (rewrite E; by left). done.
  - intros (a & -> & Ha) Hn. apply fmap_nil_inv in Hn.
    assert (a ∈ filter (λ b, add_request_id b = add_request_id a) l) as Hin by (by apply list_elem_of_filter).
    rewrite Hn in Hin. by apply elem_of_nil in Hin.
Qed.

Section Controller.
Context {P LP : Type} `{!_LoadPolicy P, !LoadPolicyLaws P}.
Notation Controller := (DataParallelController P).
Implicit Types (c : Controller) (rid : string) (r : nat) (cmd : SchedulerCommand).

(** ** What reaches each queue *)

Lemma for_queue_app r l1 l2 : for_queue r (l1 ++ l2) = for_queue r l1 ++ for_queue r l2.
Proof. unfold for_queue. by rewrite filter_app, fmap_app. Qed.

Lemma for_queue_each r (cmds : nat → SchedulerCommand) (Q : nat → Prop) `{!∀ i, Decision (Q i)} n :
  r < n → for_queue r ((λ i, (i, cmds i)) <$> filter Q (seq 0 n)) = if decide (Q r) then [cmds r] else [].
Proof.
  intros Hr. unfold for_queue.
  assert (∀ m, (filter (λ x : nat * SchedulerCommand, x.1 = r) ((λ i, (i, cmds i)) <$> filter Q (seq 0 m))).*2 =
    if decide (r < m ∧ Q r) then [cmds r] else []) as Hm.
  { induction m as [|m IH]; [by rewrite decide_False by lia|].
    rewrite seq_S, filter_app, fmap_app, filter_app, fmap_app, IH. cbn [Nat.add].
    destruct (decide (Q m)) as [Hq|Hq].
    - rewrite filter_cons_True, filter_nil by done. cbn [fmap list_fmap]. destruct (decide (m = r)) as [->|Hne].
      + rewrite filter_cons_True by done. rewrite decide_False by lia. rewrite decide_True by (split; [lia|done]). done.
      + rewrite filter_cons_False by done. cbn. rewrite app_nil_r. apply decide_ext. split; intros [? ?]; (split; [lia|done]).
    - rewrite filter_cons_False by done. cbn. rewrite app_nil_r. apply decide_ext.
      split; intros [? ?]; (split; [|done]); [lia|]. destruct (decide (m = r)) as [->|]; [done|lia]. }
  rewrite Hm. apply decide_ext. tauto.
Qed.

Lemma for_queue_sends dp n r0 cmd r :
  r < n → for_queue r (sends dp n r0 cmd) = if decide (r = r0) then [cmd] else if dp then [CmdWake] else [].
Proof.
  intros Hr. unfold sends. destruct (decide (r = r0)) as [->|Hne].
  - unfold for_queue at 1. rewrite filter_cons_True by done. cbn [fmap list_fmap]. destruct dp; [|done].
    pose proof (for_queue_each r0 (λ _, CmdWake) (λ peer, peer ≠ r0) n Hr) as H.
    unfold for_queue in H. rewrite H, decide_False by tauto. done.
  - unfold for_queue at 1. rewrite filter_cons_False by (cbn; congruence). destruct dp; [|done].
    pose proof (for_queue_each r (λ _, CmdWake) (λ peer, peer ≠ r0) n Hr) as H.
    unfold for_queue in H. by rewrite H, decide_True.
Qed.

(** What a reader that skips wake-ups sees of a send. *)
Lemma view_sends {B} (g : SchedulerCommand → list B) dp n r0 cmd r :
  g CmdWake = [] → r < n → for_queue r (sends dp n r0 cmd) ≫= g = if decide (r = r0) then g cmd else [].
Proof.
  intros Hg Hr. rewrite for_queue_sends by done. destruct (decide (r = r0)); cbn; [by rewrite app_nil_r|].
  destruct dp; cbn; [by rewrite Hg|done].
Qed.

Lemma sends_range dp n r0 cmd : r0 < n → Forall (λ x, x.1 < n) (sends dp n r0 cmd).
Proof.
  intros Hr. constructor; [done|]. destruct dp; [|constructor]. rewrite Forall_fmap, Forall_forall.
  intros i [_ Hi]%list_elem_of_filter. apply elem_of_seq in Hi. cbn. lia.
Qed.

(** The puts of a batch. *)
Definition batch_sends (dp : bool) (n : nat) (grouped : list (nat * list AddRequest)) : list (nat * SchedulerCommand) :=
  grouped ≫= λ '(r, g), if decide (g = []) then [] else sends dp n r (CmdAddBatch g).

Lemma puts_shape l : ∀ c x c', puts l c = (x, c') →
  c' = set_queues (_command_queues c') c ∧ length (_command_queues c') = length (_command_queues c).
Proof.
  induction l as [|[r cmd] l IH]; intros c x c'; unfold puts; cbn [for_each].
  { intros [= _ <-]. split; [by destruct c|done]. }
  rewrite run_bind. destruct (put r cmd c) as [[[]|e] c1] eqn:E; destruct (queue_put_shape _ _ _ _ _ E) as [E1 Hl1].
  - intros Hp. destruct (IH c1 x c' Hp) as [E2 Hl2]. split; [|congruence]. rewrite E2, E1. done.
  - intros [= _ <-]. done.
Qed.

Lemma batch_puts grouped : ∀ c,
  length (_command_queues c) = data_parallel_size c →
  for_each (λ '(replica, group),
    if decide (group = []) then mret tt else _send_replica replica (CmdAddBatch group)) grouped c =
  puts (batch_sends (enable_dp_attention c) (data_parallel_size c) grouped) c.
Proof.
  induction grouped as [|[r g] grouped IH]; intros c Hn; [done|]. cbn [for_each]. unfold batch_sends. cbn [mbind list_bind].
  unfold puts. rewrite for_each_app, !run_bind. destruct (decide (g = [])) as [->|Hg].
  - cbn [for_each]. st_prim. by apply IH.
  - rewrite send_replica_puts by done. unfold puts.
    destruct (for_each _ (sends _ _ _ _) c) as [[[]|e] c1] eqn:E; [|done].
    destruct (puts_shape _ _ _ _ E) as [-> Hl]. cbn [_command_queues set_queues] in Hl |- *.
    apply (IH (set_queues (_command_queues c1) c)). cbn. by rewrite Hl.
Qed.

Lemma broadcast_puts cmd c :
  broadcast cmd c = puts ((λ r, (r, cmd)) <$> seq 0 (length (_command_queues c))) c.
Proof.
  unfold broadcast, puts. st_prim.
  rewrite (for_each_skip _ (λ '(r, cmd), put r cmd) (λ r, (r, cmd)) (λ _, True)).
  - by rewrite filter_all.
  - intros r s. by rewrite decide_True.
Qed.

(** ** Sends *)

(** Puts that stop at a closed queue. *)
Definition cut_short (l : list (nat * SchedulerCommand)) (queues queues' : list CommandQueue) : Prop :=
  ∃ pre, pre `prefix_of` l ∧ queues' = push_all pre queues ∧
    (Forall (λ q, is_open q = true) queues → pre = []).

(** After an exception: the tables are as before. *)
Definition rolled_back l c c' : Prop :=
  tables c' ∧ _routes c' = _routes c ∧ charged (_policy c') = charged (_policy c) ∧
  same_but (set_queues (_command_queues c') c) c' ∧ cut_short l (_command_queues c) (_command_queues c').

Lemma rolled_back_none c : tables c → rolled_back [] c c.
Proof.
  intros Ht. split_and!; try done.
  - rewrite set_queues_id. apply same_but_refl.
  - exists []. split_and!; done.
Qed.

Lemma without_same {A} rids (m m' : gmap string A) :
  (∀ rid, rid ∈ rids → m !! rid = None) → (∀ rid, rid ∉ rids → m' !! rid = m !! rid) → without rids m' = m.
Proof.
  intros H1 H2. apply map_eq. intros rid. rewrite without_lookup.
  case_decide as Hd; [by rewrite H1|by apply H2].
Qed.

Lemma charged_None c rid : tables c → _routes c !! rid = None → charged (_policy c) !! rid = None.
Proof.
  intros Ht Hn. destruct (charged (_policy c) !! rid) as [[r a]|] eqn:E; [|done].
  pose proof (t_charges c Ht _ _ _ E). congruence.
Qed.

(** The shared end of both kinds of add: the puts, with the clean-up. *)
Lemma puts_or_release rids l c c1 (cleanup : St Controller unit) (m : St Controller unit) :
  tables c → tables c1 → same_but c c1 →
  (∀ rid, rid ∈ rids → _routes c !! rid = None) →
  (∀ rid, rid ∉ rids → _routes c1 !! rid = _routes c !! rid ∧
     charged (_policy c1) !! rid = charged (_policy c) !! rid) →
  (∀ s, cleanup s = for_each _release rids s) → m c1 = puts l c1 → Forall (λ x, x.1 < data_parallel_size c) l →
  match on_error m cleanup c1 with
  | (Ok _, c') => c' = set_queues (push_all l (_command_queues c)) c1
  | (Err _, c') => rolled_back l c c' ∧ ¬ Forall (λ q, is_open q = true) (_command_queues c)
  end.
Proof.
  intros Ht Ht1 Hs1 Hfree Hother Hclean Hm Hl. unfold on_error, catch. rewrite Hm.
  assert (Hq1 : _command_queues c1 = _command_queues c) by (by rewrite Hs1).
  destruct (puts_run l c1) as (pre & post & -> & E & Hopen).
  { by rewrite Hq1, (t_queues c Ht). }
  rewrite E, Hq1 in *. case_decide as Hp; [by rewrite Hp, app_nil_r|].
  set (c2 := set_queues (push_all pre (_command_queues c)) c1).
  assert (Ht2 : tables c2) by (apply tables_queues; [by rewrite push_all_length, Hq1|done]).
  rewrite run_bind, Hclean. destruct (releases_run rids c2 Ht2) as (c3 & E3 & Ht3 & Hs3 & Hr3 & Hc3). rewrite E3.
  unfold raise. split; [|intros Hall; by apply Hp, Hopen]. split_and!; [done| | | |].
  - rewrite Hr3. apply without_same; [done|]. intros rid Hrid. cbn. by apply Hother.
  - rewrite Hc3. apply without_same; [|intros rid Hrid; cbn; by apply Hother].
    intros rid Hrid. apply charged_None; [done|by apply Hfree].
  - clear -Hs1 Hs3. subst c2. unfold same_but, set_queues, set_routes, set_policy in *.
    destruct c3, c1, c. cbn in *. injection Hs1. injection Hs3. intros. by subst.
  - exists pre. split_and!; [by apply prefix_app_r| |].
    + by rewrite Hs3.
    + intros Hall. exfalso. by apply Hp, Hopen.
Qed.

Lemma send_add_run a c :
  tables c → add_request_id a ≠ EmptyString →
  match send_add a c with
  | (Ok _, c') => _routes c !! add_request_id a = None ∧ ∃ r c1, route a c = (Ok r, c1) ∧
      c' = set_queues (push_all (sends (enable_dp_attention c) (data_parallel_size c) r (CmdAdd a)) (_command_queues c)) c1
  | (Err _, c') => (∃ r, rolled_back (sends (enable_dp_attention c) (data_parallel_size c) r (CmdAdd a)) c c') ∧
      (is_Some (_routes c !! add_request_id a) ∨ ¬ add_ok a ∨ ¬ Forall (λ q, is_open q = true) (_command_queues c))
  end.
Proof.
  intros Ht Hne. set (rid := add_request_id a) in *. unfold send_add. fold rid. st_prim. unfold rguard.
  assert (Hback : ∀ c', tables c' → _routes c' = _routes c → charged (_policy c') = charged (_policy c) →
    same_but c c' → ∃ r, rolled_back (sends (enable_dp_attention c) (data_parallel_size c) r (CmdAdd a)) c c').
  { intros c' Ht' Hr' Hc' Hs'. exists 0. split_and!; try done.
    - unfold same_but in *. rewrite Hs'. by destruct c.
    - exists []. split_and!; [apply prefix_nil|by rewrite Hs'|done]. }
  destruct (_routes c !! rid) as [r0|] eqn:Er.
  { rewrite bool_decide_true by done. cbn [negb]. split; [|left; done]. apply Hback; try done. apply same_but_refl. }
  rewrite bool_decide_false by (by intros [? ?]). cbn [negb]. st_prim.
  pose proof (route_run c a Ht Hne Er) as Hrun. destruct (route a c) as [[r|e] c1].
  2: { destruct Hrun as (Ht1 & Hs1 & Hr1 & Hc1 & Hbad). split; [by apply Hback|]. by right; left. }
  destruct Hrun as (Ht1 & Hs1 & Hr & Hr1 & Hc1).
  pose proof (puts_or_release [rid] (sends (enable_dp_attention c) (data_parallel_size c) r (CmdAdd a)) c c1
    (_release rid) (_send_replica r (CmdAdd a)) Ht Ht1 Hs1) as H.
  destruct (on_error _ _ c1) as [[[]|e] c'].
  - split; [done|]. exists r, c1. split; [done|]. apply H; clear H.
    + by intros x ->%list_elem_of_singleton.
    + intros x Hx. rewrite list_elem_of_singleton in Hx. rewrite Hr1, lookup_insert_ne by done. split; [done|by apply Hc1].
    + intros s. cbn. rewrite run_bind. by destruct (_release rid s) as [[[]|] ?].
    + rewrite send_replica_puts by apply Ht1. by rewrite Hs1.
    + by apply sends_range.
  - destruct H as [Hb Ho]; [| | | | |split; [by exists r|by right; right]].
    + by intros x ->%list_elem_of_singleton.
    + intros x Hx. rewrite list_elem_of_singleton in Hx. rewrite Hr1, lookup_insert_ne by done. split; [done|by apply Hc1].
    + intros s. cbn. rewrite run_bind. by destruct (_release rid s) as [[[]|] ?].
    + rewrite send_replica_puts by apply Ht1. by rewrite Hs1.
    + by apply sends_range.
Qed.

Definition groups n (choices : list (AddRequest * nat)) : list (nat * list AddRequest) :=
  (λ r, (r, assigned r choices)) <$> seq 0 n.

Lemma groups_imap n choices :
  imap pair (imap (λ r g, g ++ assigned r choices) (replicate n [])) = groups n choices.
Proof.
  apply list_eq. intros i. unfold groups. rewrite list_lookup_imap, list_lookup_imap, list_lookup_fmap.
  destruct (decide (i < n)) as [Hi|Hi].
  - by rewrite lookup_replicate_2, lookup_seq_lt.
  - rewrite !lookup_ge_None_2; [done|rewrite ?length_seq, ?length_replicate; lia..].
Qed.

Lemma batch_range dp n choices : Forall (λ x, x.1 < n) (batch_sends dp n (groups n choices)).
Proof.
  unfold batch_sends, groups. rewrite Forall_forall. intros x (g & Hx & Hg)%list_elem_of_bind.
  apply list_elem_of_fmap in Hg as (r & -> & Hr). apply elem_of_seq in Hr.
  case_decide; [by apply elem_of_nil in Hx|].
  pose proof (sends_range dp n r (CmdAddBatch (assigned r choices))) as Hs. rewrite Forall_forall in Hs.
  by apply Hs; [lia|].
Qed.

Lemma for_queue_bind {A} r (f : A → list (nat * SchedulerCommand)) l :
  for_queue r (l ≫= f) = l ≫= λ a, for_queue r (f a).
Proof. induction l as [|a l IH]; [done|]. cbn [mbind list_bind]. by rewrite for_queue_app, IH. Qed.

(** What a batch puts in a queue: its own requests, among wake-ups. *)
Lemma view_batch {B} (g : SchedulerCommand → list B) dp n choices r :
  g CmdWake = [] → r < n →
  for_queue r (batch_sends dp n (groups n choices)) ≫= g =
    if decide (assigned r choices = []) then [] else g (CmdAddBatch (assigned r choices)).
Proof.
  intros Hg Hr. unfold batch_sends, groups. rewrite for_queue_bind, bind_bind.
  assert (∀ m, m ≤ n → (((λ i, (i, assigned i choices)) <$> seq 0 m) ≫= λ x,
      for_queue r (let '(i, l) := x in if decide (l = []) then [] else sends dp n i (CmdAddBatch l)) ≫= g) =
    if decide (r < m) then (if decide (assigned r choices = []) then [] else g (CmdAddBatch (assigned r choices))) else []) as Hall.
  { induction m as [|m IH]; intros Hm; [done|]. rewrite seq_S, fmap_app, bind_app, IH by lia. cbn [fmap list_fmap mbind list_bind Nat.add].
    rewrite app_nil_r. set (l := assigned m choices).
    assert (for_queue r (if decide (l = []) then [] else sends dp n m (CmdAddBatch l)) ≫= g =
      if decide (r = m) then (if decide (l = []) then [] else g (CmdAddBatch l)) else []) as E.
    { destruct (decide (l = [])) as [->|Hl]; [by destruct (decide (r = m))|]. by apply view_sends. }
    cbn [mbind list_bind] in E. rewrite E. destruct (decide (r = m)) as [->|Hne].
    - rewrite decide_False by lia. by rewrite (decide_True (P := m < S m)) by lia.
    - rewrite app_nil_r. apply decide_ext. lia. }
  specialize (Hall n ltac:(lia)). rewrite (decide_True (P := r < n)) in Hall by done. exact Hall.
Qed.

Lemma send_batch_run requests c :
  tables c → Forall add_ok requests →
  match send_batch requests c with
  | (Ok _, c') => NoDup (ids_of requests) ∧ (∀ rid, rid ∈ ids_of requests → _routes c !! rid = None) ∧
      ∃ choices c1, choices.*1 = requests ∧ tables c1 ∧ same_but c c1 ∧
        (∀ a r, (a, r) ∈ choices → _routes c1 !! add_request_id a = Some r ∧ r < data_parallel_size c) ∧
        (∀ rid, rid ∉ ids_of requests → _routes c1 !! rid = _routes c !! rid ∧
           charged (_policy c1) !! rid = charged (_policy c) !! rid) ∧
        c' = set_queues (push_all (batch_sends (enable_dp_attention c) (data_parallel_size c)
               (groups (data_parallel_size c) choices)) (_command_queues c)) c1
  | (Err _, c') => (∃ choices l, choices.*1 = requests ∧
        l `prefix_of` batch_sends (enable_dp_attention c) (data_parallel_size c) (groups (data_parallel_size c) choices) ∧
        rolled_back l c c') ∧
      (¬ NoDup (ids_of requests) ∨ (∃ rid, rid ∈ ids_of requests ∧ is_Some (_routes c !! rid)) ∨
       ¬ Forall (λ q, is_open q = true) (_command_queues c))
  end.
Proof.
  intros Ht Hok. unfold send_batch. fold (ids_of requests). st_prim. unfold rguard.
  assert (Hnone : ∃ choices l, choices.*1 = requests ∧
    l `prefix_of` batch_sends (enable_dp_attention c) (data_parallel_size c) (groups (data_parallel_size c) choices) ∧
    rolled_back l c c).
  { exists ((λ a, (a, 0)) <$> requests), []. split_and!; [|apply prefix_nil|by apply rolled_back_none].
    rewrite <- list_fmap_compose. apply list_fmap_id. }
  destruct (Nat.eqb_spec (length (remove_dups (ids_of requests))) (length (ids_of requests))) as [El|El].
  2: { split; [done|]. left. intros Hnd. apply El. by rewrite remove_dups_NoDup. }
  assert (Hnd : NoDup (ids_of requests)).
  { by apply remove_dups_full. }
  st_prim. destruct (forallb _ (ids_of requests)) eqn:Ef; st_prim.
  2: { split; [done|]. right. left.
    destruct (decide (Exists (λ rid, is_Some (_routes c !! rid)) (ids_of requests))) as [He|He].
    { apply Exists_exists in He as (rid & ? & ?). by exists rid. }
    exfalso. apply not_true_iff_false in Ef. apply Ef, forallb_forall. intros rid Hrid%list_elem_of_In.
    apply negb_true_iff, bool_decide_eq_false. intros Hs. apply He, Exists_exists. by exists rid. }
  assert (Hfree : ∀ rid, rid ∈ ids_of requests → _routes c !! rid = None).
  { intros rid Hrid. rewrite forallb_forall in Ef. specialize (Ef rid (proj1 (list_elem_of_In _ _) Hrid)).
    apply negb_true_iff, bool_decide_eq_false in Ef. by apply eq_None_not_Some. }
  pose proof (route_all_run requests (replicate (data_parallel_size c) []) c Ht Hnd (length_replicate _ _)) as Hrun.
  destruct (route_all _ _ c) as [[grouped|e] c1].
  2: { exfalso. apply Hrun; [|done]. rewrite Forall_forall in *. intros a Ha. split; [by apply (Hok a Ha)|].
    apply Hfree. unfold ids_of. by apply list_elem_of_fmap_2. }
  destruct Hrun as (Ht1 & Hs1 & choices & Hch & -> & Hother & Hin).
  { rewrite Forall_forall in *. intros a Ha. split; [by apply (Hok a Ha)|]. apply Hfree. unfold ids_of. by apply list_elem_of_fmap_2. }
  rewrite groups_imap.
  pose proof (puts_or_release (ids_of requests) (batch_sends (enable_dp_attention c) (data_parallel_size c)
    (groups (data_parallel_size c) choices)) c c1 (for_each _release (ids_of requests))
    (for_each (λ '(replica, group),
       if decide (group = []) then mret tt else _send_replica replica (CmdAddBatch group)) (groups (data_parallel_size c) choices))
    Ht Ht1 Hs1 Hfree Hother (λ s, eq_refl)) as H.
  destruct (on_error _ _ c1) as [[[]|e] c'].
  - split_and!; [done|done|]. exists choices, c1. split_and!; [done..|]. apply H; [|apply batch_range].
    rewrite batch_puts by apply Ht1. by rewrite Hs1.
  - destruct H as [Hb Ho]; [|apply batch_range|].
    + rewrite batch_puts by apply Ht1. by rewrite Hs1.
    + split; [by eexists _, _|by right; right].
Qed.
End Controller.
End RouterSpec.
