(* ===== verification/RouterLedger.v ===== *)
(** * The controller in use

    The invariant of every reachable controller, whatever commands clients send
    and whatever the replicas report, and the theorems. *)

From S2P Require Export RouterSpec.

Module RouterLedger.
Import LoadPolicy PolicySpec Loop Sched Router RouterInv RouterSpec.

Section Controller.
Context {P LP : Type} `{!_LoadPolicy P, !LoadPolicyLaws P}.
Notation Controller := (DataParallelController P).
Implicit Types (c : Controller) (rid : string) (r : nat) (cmd : SchedulerCommand).

Definition all_open c : Prop := Forall (λ q, is_open q = true) (_command_queues c).

(** An active request was added to its replica and not aborted since; aborts
    only follow adds. *)
Record ledger c : Prop := {
  l_last : ∀ rid r q, _routes c !! rid = Some r → _command_queues c !! r = Some q →
    last (ops rid (commands q)) = Some true;
  l_pairs : ∀ rid r q, _command_queues c !! r = Some q → paired false (ops rid (commands q)) = true;
}.

Definition lockstep c : Prop :=
  enable_dp_attention c = true → ∀ r1 r2 q1 q2,
    _command_queues c !! r1 = Some q1 → _command_queues c !! r2 = Some q2 →
    length (commands q1) = length (commands q2).

Record good c : Prop := {
  g_tables : tables c;
  g_ledger : ledger c;
  g_open : _closed c = false → all_open c;
  g_lockstep : lockstep c;
}.

(** ** One command at a time *)

Lemma ledger_adds c c' l :
  ledger c → _command_queues c' = push_all l (_command_queues c) →
  (∀ r rid, r < length (_command_queues c) → Forall (λ b, b = true) (ops rid (for_queue r l))) →
  (∀ rid r, r < length (_command_queues c) → _routes c' !! rid = Some r →
     ops rid (for_queue r l) ≠ [] ∨ _routes c !! rid = Some r) →
  ledger c'.
Proof.
  intros [Hlast Hpairs] Hq Htrue Hroutes. split; intros rid r q'; rewrite Hq, push_all_lookup.
  - intros Hr (q & Hl & ->)%fmap_Some. cbn [commands]. rewrite ops_app.
    pose proof (lookup_lt_Some _ _ _ Hl) as Hlt. specialize (Htrue r rid Hlt).
    destruct (decide (ops rid (for_queue r l) = [])) as [Hnil|Hne].
    + rewrite Hnil, app_nil_r. destruct (Hroutes rid r Hlt Hr) as [Hn|Hold]; [done|]. by eapply Hlast.
    + rewrite last_app. by rewrite last_trues.
  - intros (q & Hl & ->)%fmap_Some. cbn [commands]. rewrite ops_app, paired_app.
    pose proof (lookup_lt_Some _ _ _ Hl) as Hlt. by rewrite (Hpairs rid r q Hl), paired_trues by (by apply Htrue).
Qed.

Lemma ledger_abort c c' rid0 r0 l :
  ledger c → _command_queues c' = push_all l (_command_queues c) →
  _routes c !! rid0 = Some r0 → _routes c' = delete rid0 (_routes c) →
  (∀ r rid, r < length (_command_queues c) →
     ops rid (for_queue r l) = if decide (r = r0) then op_of rid (CmdAbort rid0) else []) →
  ledger c'.
Proof.
  intros [Hlast Hpairs] Hq Hr0 Hr' Hops. split; intros rid r q'; rewrite Hq, push_all_lookup.
  - rewrite Hr'. intros [Hne Hr]%lookup_delete_Some (q & Hl & ->)%fmap_Some. cbn [commands].
    rewrite ops_app, Hops by (by eapply lookup_lt_Some). cbn [op_of].
    replace (if decide (r = r0) then if decide (rid0 = rid) then [false] else [] else []) with (@nil bool)
      by (repeat case_decide; congruence). rewrite app_nil_r. by eapply Hlast.
  - intros (q & Hl & ->)%fmap_Some. cbn [commands]. rewrite ops_app, paired_app, (Hpairs rid r q Hl), Hops by (by eapply lookup_lt_Some).
    cbn [op_of]. destruct (decide (r = r0)) as [->|]; [|done]. destruct (decide (rid0 = rid)) as [->|]; [|done].
    by rewrite (Hlast rid r0 q Hr0 Hl).
Qed.

Lemma lockstep_push c c' l :
  lockstep c → _command_queues c' = push_all l (_command_queues c) →
  enable_dp_attention c' = enable_dp_attention c →
  (enable_dp_attention c = true → ∃ k, ∀ r, r < length (_command_queues c) → length (for_queue r l) = k) →
  lockstep c'.
Proof.
  intros Hl Hq Hdp Hk Hon r1 r2 q1 q2. rewrite Hq, !push_all_lookup. rewrite Hdp in Hon.
  intros (p1 & H1 & ->)%fmap_Some (p2 & H2 & ->)%fmap_Some. cbn. rewrite !length_app.
  destruct (Hk Hon) as [k Hk']. rewrite !Hk' by (by eapply lookup_lt_Some).
  by rewrite (Hl Hon r1 r2 p1 p2 H1 H2).
Qed.

Lemma open_push c c' l :
  all_open c → _command_queues c' = push_all l (_command_queues c) → all_open c'.
Proof.
  unfold all_open. rewrite !Forall_lookup. intros Ho Hq r q'. rewrite Hq, push_all_lookup.
  intros (q & Hl & ->)%fmap_Some. by apply (Ho r q).
Qed.

(** The counts of the puts of a send, a batch and a broadcast. *)
Lemma sends_count n r0 cmd r : r < n → length (for_queue r (sends true n r0 cmd)) = 1.
Proof. intros Hr. rewrite for_queue_sends by done. by case_decide. Qed.

Lemma batch_count n grouped r : r < n →
  length (for_queue r (batch_sends true n grouped)) = length (filter (λ g : nat * list AddRequest, g.2 ≠ []) grouped).
Proof.
  intros Hr. induction grouped as [|[i g] grouped IH]; [done|].
  change (batch_sends true n ((i, g) :: grouped)) with
    ((if decide (g = []) then [] else sends true n i (CmdAddBatch g)) ++ batch_sends true n grouped).
  rewrite for_queue_app, length_app, IH. destruct (decide (g = [])) as [->|Hg].
  - rewrite filter_cons_False by (cbn; tauto). done.
  - rewrite filter_cons_True by done. cbn [length]. by rewrite sends_count.
Qed.

Lemma for_queue_broadcast n cmd r : r < n → for_queue r ((λ i, (i, cmd)) <$> seq 0 n) = [cmd].
Proof.
  intros Hr. pose proof (for_queue_each r (λ _, cmd) (λ _, True) n Hr) as H.
  rewrite filter_all in H by done. by rewrite decide_True in H.
Qed.

(** The shared end of the cases of [send]. *)
Lemma good_push c c1 l :
  good c → tables (set_queues (push_all l (_command_queues c)) c1) → same_but c c1 →
  (∀ r rid, r < data_parallel_size c → Forall (λ b, b = true) (ops rid (for_queue r l))) →
  (∀ rid r, r < data_parallel_size c → _routes c1 !! rid = Some r →
     ops rid (for_queue r l) ≠ [] ∨ _routes c !! rid = Some r) →
  (enable_dp_attention c = true → ∃ k, ∀ r, r < data_parallel_size c → length (for_queue r l) = k) →
  good (set_queues (push_all l (_command_queues c)) c1).
Proof.
  intros [Ht Hl Ho Hk] Ht1 Hs Htrue Hroutes Hcount. rewrite <- (t_queues c Ht) in Htrue, Hroutes, Hcount.
  assert (Hq : _command_queues (set_queues (push_all l (_command_queues c)) c1) = push_all l (_command_queues c)) by done.
  assert (Hcl : _closed c1 = _closed c) by (by rewrite Hs).
  assert (Hdp : enable_dp_attention c1 = enable_dp_attention c) by (by rewrite Hs).
  split; [done| | |].
  - by eapply ledger_adds.
  - cbn. rewrite Hcl. intros Hc. eapply open_push; [by apply Ho|done].
  - by eapply lockstep_push.
Qed.

Lemma tables_push c c1 l : tables c1 → same_but c c1 → tables (set_queues (push_all l (_command_queues c)) c1).
Proof. intros Ht Hs. apply tables_queues; [|done]. by rewrite push_all_length, Hs. Qed.

Lemma rolled_back_good l c c' : good c → all_open c → rolled_back l c c' → good c'.
Proof.
  intros Hg Ho (Ht' & Hr' & Hc' & Hs' & pre & _ & Hq & Hopen). rewrite (Hopen Ho) in Hq. cbn in Hq.
  assert (E : c' = set_queues (push_all [] (_command_queues c)) c').
  { cbn. rewrite <- Hq. symmetry. apply set_queues_id. }
  assert (Hsame : same_but c c').
  { unfold same_but in *. rewrite Hs', Hq. by destruct c. }
  rewrite E. apply good_push; [done|by rewrite <- E|done| | |].
  - intros; constructor.
  - intros rid r _. rewrite Hr'. by right.
  - intros _. by exists 0.
Qed.

Definition command_ok cmd : Prop :=
  match cmd with CmdAdd a => add_ok a | CmdAddBatch l => Forall add_ok l | _ => True end.

Lemma send_good cmd c : good c → command_ok cmd → good (send cmd c).2.
Proof.
  intros Hg Hok. pose proof Hg as [Ht Hl Ho Hk]. unfold send. st_prim. unfold rguard, id.
  destruct (_closed c) eqn:Ec; cbn [negb]; [done|]. st_prim. specialize (Ho eq_refl).
  destruct (_failure c) as [message|] eqn:Ef.
  { rewrite bool_decide_true by done. done. }
  rewrite bool_decide_false by (by intros [? ?]). cbn [negb].
  assert (Hbroadcast : op_of = op_of → (∀ rid, op_of rid cmd = []) → good (broadcast cmd c).2).
  { intros _ Hquiet. rewrite broadcast_puts. set (l := (λ r, (r, cmd)) <$> _).
    destruct (puts_run l c) as (pre & post & El & E & Hopen).
    { unfold l. rewrite Forall_fmap, Forall_forall. intros r [_ Hr]%elem_of_seq. done. }
    rewrite E, (Hopen Ho) in *. rewrite app_nil_r in El. subst pre. cbn [snd].
    assert (Hfor : ∀ r, r < data_parallel_size c → for_queue r l = [cmd]).
    { intros r Hr. unfold l. apply for_queue_broadcast. by rewrite (t_queues c Ht). }
    apply good_push; [done|apply tables_push; [done|apply same_but_refl]|apply same_but_refl| | |].
    - intros r rid Hr. rewrite (Hfor r Hr). unfold ops. cbn. rewrite Hquiet. constructor.
    - intros rid r _ H. by right.
    - intros _. exists 1. intros r Hr. by rewrite (Hfor r Hr). }
  destruct cmd as [a|requests|rid|call_id method| |]; try (by apply Hbroadcast).
  - destruct Hok as [Hne Htok]. pose proof (send_add_run a c Ht Hne) as Hrun. destruct (send_add a c) as [[[]|e] c'].
    + destruct Hrun as (Hn & r & c1 & Er & ->). pose proof (route_run c a Ht Hne Hn) as Hroute. rewrite Er in Hroute.
      destruct Hroute as (Ht1 & Hs1 & Hr & Hr1 & _). cbn [snd].
      assert (Hops : ∀ i rid, i < data_parallel_size c →
        ops rid (for_queue i (sends (enable_dp_attention c) (data_parallel_size c) r (CmdAdd a))) =
        if decide (i = r) then op_of rid (CmdAdd a) else []) by (intros i rid Hi; by apply view_sends).
      apply good_push; [done|by apply tables_push|done| | |].
      * intros i rid Hi. rewrite Hops by done. cbn. repeat case_decide; repeat constructor.
      * intros rid i Hi. rewrite Hr1, Hops, lookup_insert_Some by done.
        intros [[<- <-]|[_ Hold]]; [left|by right]. cbn. by rewrite !decide_True.
      * intros ->. exists 1. intros i Hi. by apply sends_count.
    + destruct Hrun as ((r & Hb) & _). by eapply rolled_back_good.
  - pose proof (send_batch_run requests c Ht Hok) as Hrun. destruct (send_batch requests c) as [[[]|e] c'].
    + destruct Hrun as (Hnd & Hfree & choices & c1 & Hch & Ht1 & Hs1 & Hin & Hother & ->). cbn [snd].
      assert (Hops : ∀ i rid, i < data_parallel_size c →
        ops rid (for_queue i (batch_sends (enable_dp_attention c) (data_parallel_size c) (groups (data_parallel_size c) choices))) =
        op_of rid (CmdAddBatch (assigned i choices))).
      { intros i rid Hi. unfold ops. rewrite view_batch by done. case_decide as E; [by rewrite E|done]. }
      apply good_push; [done|by apply tables_push|done| | |].
      * intros i rid Hi. rewrite Hops by done. cbn. rewrite Forall_fmap. apply Forall_true. done.
      * intros rid i Hi Hr. rewrite Hops by done. destruct (decide (rid ∈ ids_of requests)) as [Hrid|Hrid].
        -- left. apply op_of_batch. unfold ids_of in *. rewrite <- Hch in Hrid.
           apply list_elem_of_fmap in Hrid as (a & -> & Ha). apply list_elem_of_fmap in Ha as ([a' r'] & -> & Ha).
           destruct (Hin _ _ Ha) as [Hr' _]. cbn in Hr. rewrite Hr in Hr'. injection Hr' as <-.
           apply list_elem_of_fmap. exists a'. split; [done|]. unfold assigned. apply list_elem_of_fmap. exists (a', i).
           split; [done|]. by apply list_elem_of_filter.
        -- right. by rewrite <- (proj1 (Hother rid Hrid)).
      * intros ->. eexists. intros i Hi. by apply batch_count.
    + destruct Hrun as ((choices & l & _ & _ & Hb) & _). by eapply rolled_back_good.
  - destruct (_routes c !! rid) as [r0|] eqn:Er; [|done].
    pose proof (t_routes c Ht _ _ Er) as Hr0. rewrite run_bind, send_replica_puts by apply Ht.
    destruct (puts_run (sends (enable_dp_attention c) (data_parallel_size c) r0 (CmdAbort rid)) c) as (pre & post & El & E & Hopen).
    { rewrite (t_queues c Ht). by apply sends_range. }
    rewrite E, (Hopen Ho) in *. rewrite app_nil_r in El. subst pre. cbn [decide].
    set (l := sends _ _ _ _) in *. set (c1 := set_queues (push_all l (_command_queues c)) c).
    assert (Ht1 : tables c1) by (apply tables_push; [done|apply same_but_refl]).
    destruct (release_run c1 rid Ht1) as (c2 & E2 & Ht2 & Hs2 & Hr2 & _).
    rewrite decide_True by done. rewrite E2. cbn [snd].
    assert (Hq2 : _command_queues c2 = push_all l (_command_queues c)) by (by rewrite Hs2).
    split; [done| | |].
    + eapply (ledger_abort c c2 rid r0 l); try done. rewrite (t_queues c Ht). intros r rid' Hr. by apply view_sends.
    + intros _. eapply open_push; [exact Ho|done].
    + eapply (lockstep_push c c2 l); [done|done|by rewrite Hs2|]. rewrite (t_queues c Ht). unfold l.
      intros ->. exists 1. intros r Hr. by apply sends_count.
Qed.

(** ** Events, startup, shutdown *)

(** A release, a failure, a new request number: nothing in the queues changes
    and routes only go. *)
Lemma good_shrink c c' :
  good c → tables c' → _command_queues c' = _command_queues c → _closed c' = _closed c →
  enable_dp_attention c' = enable_dp_attention c →
  (∀ rid r, _routes c' !! rid = Some r → _routes c !! rid = Some r) → good c'.
Proof.
  intros [Ht Hl Ho Hk] Ht' Hq Hc Hdp Hr. split; [done| | |].
  - destruct Hl as [Hlast Hpairs]. split; rewrite Hq; [|done]. intros rid r q H. by apply Hlast, Hr.
  - rewrite Hc. intros H. unfold all_open. rewrite Hq. by apply Ho.
  - unfold lockstep. by rewrite Hq, Hdp.
Qed.

Definition ended (output : RequestEvent LP) : Prop := is_Some (ev_finish_reason output) ∨ is_Some (ev_error output).
#[global] Instance ended_dec output : Decision (ended output).
Proof. unfold ended. apply _. Defined.

Lemma releases_of_events (outs : list (RequestEvent LP)) c :
  for_each release_finished outs c = for_each _release (ev_request_id <$> filter ended outs) c.
Proof.
  apply for_each_skip. intros output s. unfold release_finished, finished, ended.
  destruct (decide (is_Some (ev_finish_reason output))) as [H1|H1]; [rewrite (bool_decide_true _ H1)|rewrite (bool_decide_false _ H1)];
    (destruct (decide (is_Some (ev_error output))) as [H2|H2]; [rewrite (bool_decide_true _ H2)|rewrite (bool_decide_false _ H2)]);
    cbn [orb]; case_decide; tauto || done.
Qed.

(** Delivered: the requests that ended have left the tables, and only they. *)
Lemma deliver_run event c :
  good c → ∃ e c', deliver event c = (Ok e, c') ∧ good c' ∧
    _routes c' = match event with
                 | EvEvents events => without (ev_request_id <$> filter ended (outputs events)) (_routes c)
                 | _ => _routes c
                 end.
Proof.
  intros Hg. destruct event as [ready|message|rank ready|rank message|events]; cbn [deliver].
  - eexists _, c. done.
  - eexists _, c. done.
  - eexists _, c. done.
  - eexists _, _. split; [reflexivity|]. split; [|done].
    pose proof (g_tables c Hg) as [? ? ? ? ?]. by apply (good_shrink c).
  - rewrite run_bind, releases_of_events.
    destruct (releases_run (ev_request_id <$> filter ended (outputs events)) c (g_tables c Hg)) as (c' & E & Ht' & Hs' & Hr' & _).
    rewrite E. eexists _, c'. split; [reflexivity|]. split; [|done].
    apply (good_shrink c); try done; try (by rewrite Hs'). intros rid r. rewrite Hr', without_lookup. by case_decide.
Qed.

Lemma poll_once_good (p : Poll LP) : triple good (poll_once p) (λ _, good) (λ _, good).
Proof.
  intros c Hg. unfold poll_once. st_prim. unfold rguard. destruct (late p); cbn [negb]; [done|]. st_prim.
  destruct (got p) as [event|].
  - destruct (deliver_run event c Hg) as (e & c' & E & Hg' & _). by rewrite run_bind, E.
  - st_prim. destruct (dead p && negb (_closed c)).
    + st_prim. pose proof (g_tables c Hg) as [? ? ? ? ?]. by apply (good_shrink c).
    + st_prim. destruct (expired p); done.
Qed.

Lemma send_triple cmd : command_ok cmd → triple good (send cmd) (λ _, good) (λ _, good).
Proof. intros Hok c Hg. pose proof (send_good cmd c Hg Hok) as H. by destruct (send cmd c) as [[]]. Qed.

Lemma shutdown_good : triple good shutdown (λ _, good) (λ _, good).
Proof.
  intros c Hg. unfold shutdown. st_prim. destruct (_closed c); [done|]. st_prim.
  pose proof (triple_suppress good (send CmdShutdown) good (λ _, good) (send_triple CmdShutdown I) c Hg) as Hs.
  destruct (suppress (send CmdShutdown) c) as [[u|e] c1]; [|done]. st_prim. destruct Hs as [Ht Hl Ho Hk].
  split.
  - apply (tables_queues (set_closed c1)); [cbn; by rewrite length_fmap|]. destruct Ht as [? ? ? ? ?]. by split.
  - destruct Hl as [Hlast Hpairs]. split; cbn; intros rid r q.
    + intros Hr. rewrite list_lookup_fmap. intros (q' & Hq & ->)%fmap_Some. by apply (Hlast rid r q').
    + rewrite list_lookup_fmap. intros (q' & Hq & ->)%fmap_Some. by apply (Hpairs rid r q').
  - done.
  - intros Hdp r1 r2 q1 q2. cbn. rewrite !list_lookup_fmap.
    intros (p1 & H1 & ->)%fmap_Some (p2 & H2 & ->)%fmap_Some. by apply (Hk Hdp r1 r2 p1 p2).
Qed.

Section Tokenizer.
Context (encode : Text.text → list Z) (decode : list Z → Text.text).
Hypothesis encode_tokens : ∀ prompt, Forall Chain.is_token (encode prompt).

Lemma generate_loop_good polls : ∀ g : Collected (LP := LP), triple good (generate_loop polls g) (λ _, good) (λ _, good).
Proof.
  induction polls as [|p polls IH]; intros g; cbn [generate_loop].
  { case_decide; intros c Hg; done. }
  case_decide; [intros c Hg; done|]. eapply triple_bind; [apply poll_once_good|].
  intros [[ready|message|rank ready|rank message|events]|]; try apply IH; [intros c Hg; done|].
  intros c Hg. st_prim. destruct (rfold collect_output _ g); [by apply IH|done].
Qed.

Lemma generate_good prompts params polls :
  triple good (generate (LP := LP) encode decode prompts params polls) (λ _, good) (λ _, good).
Proof.
  intros c Hg. unfold generate. case_decide; [done|]. st_prim.
  set (requests := zip_with _ _ prompts). set (c1 := set_request_ids (_request_ids c + length prompts) c).
  assert (Hg1 : good c1).
  { pose proof (g_tables c Hg) as [? ? ? ? ?]. by apply (good_shrink c). }
  assert (Hok : command_ok (CmdAddBatch requests)).
  { cbn. apply Forall_forall. intros a (i & Ha)%list_elem_of_lookup_1. unfold requests in Ha. rewrite lookup_zip_with in Ha.
    destruct ((batch_id <$> _) !! i) as [rid|] eqn:Ei; [|done]. cbn in Ha.
    destruct (prompts !! i) as [prompt|]; [|done]. injection Ha as <-. split; [|apply encode_tokens].
    rewrite list_lookup_fmap in Ei. apply fmap_Some in Ei as (n & _ & ->). done. }
  match goal with |- context [on_error ?m ?k] =>
    assert (Hon : triple good (on_error m k) (λ _, good) (λ _, good)) end.
  { apply triple_on_error with (E := λ _, good).
    - eapply triple_bind; [by apply send_triple|]. intros u. apply generate_loop_good.
    - intros e. apply (triple_for_each (λ _, good)). intros _ rid _ _. apply triple_suppress. by apply send_triple. }
  specialize (Hon c1 Hg1). st_prim. change (set_request_ids (_request_ids c + length prompts) c) with c1.
  destruct (on_error _ _ c1) as [[[collected|]|e] c2]; done.
Qed.

(** ** Reachable controllers *)

Inductive operation :=
  | OpSend (cmd : SchedulerCommand)
  | OpReceive (p : Poll LP)
  | OpShutdown
  | OpGenerate (prompts : list Text.text) (params : option SamplingParams) (polls : list (Poll LP)).

Definition perform (o : operation) : St Controller unit :=
  match o with
  | OpSend cmd => send cmd
  | OpReceive p => suppress (poll_once p)
  | OpShutdown => shutdown
  | OpGenerate prompts params polls => suppress (generate encode decode prompts params polls)
  end.

Definition operation_ok (o : operation) : Prop := match o with OpSend cmd => command_ok cmd | _ => True end.

(** A new controller: no routes, no charges, empty open queues. *)
Record fresh c : Prop := {
  f_policy : policy_ok (_policy c);
  f_size : dp_size (_policy c) = data_parallel_size c;
  f_charged : charged (_policy c) = ∅;
  f_routes : _routes c = ∅;
  f_queues : _command_queues c = replicate (data_parallel_size c) (MkQueue true []);
}.

Inductive reachable : Controller → Prop :=
  | reach_fresh c : fresh c → reachable c
  | reach_step c o : reachable c → operation_ok o → reachable (perform o c).2.

Lemma fresh_good c : fresh c → good c.
Proof.
  intros [Hp Hs Hc Hr Hq].
  assert (Hempty : ∀ r q, _command_queues c !! r = Some q → q = MkQueue true []).
  { intros r q. rewrite Hq. by intros [-> _]%lookup_replicate. }
  split.
  - split; [done|done|by rewrite Hq, length_replicate|by rewrite Hr|by rewrite Hc].
  - split; [by rewrite Hr|]. intros rid r q H. by rewrite (Hempty r q H).
  - intros _. apply Forall_lookup. intros r q H. by rewrite (Hempty r q H).
  - intros _ r1 r2 q1 q2 H1 H2. by rewrite (Hempty _ _ H1), (Hempty _ _ H2).
Qed.

Lemma controller_good c : reachable c → good c.
Proof.
  induction 1 as [c Hf|c o Hc IH Hok]; [by apply fresh_good|]. destruct o as [cmd|p| |prompts params polls]; cbn [perform].
  - by apply send_good.
  - pose proof (triple_suppress good (poll_once p) good (λ _, good) (poll_once_good p) c IH) as H.
    by destruct (suppress (poll_once p) c) as [[]].
  - pose proof (shutdown_good c IH) as H. by destruct (shutdown c) as [[]].
  - pose proof (triple_suppress good _ good (λ _, good) (generate_good prompts params polls) c IH) as H.
    by destruct (suppress _ c) as [[]].
Qed.

(** C17: the ledgers of the controller agree.  In every reachable controller,
    for any load policy: an active request is routed to one replica, whose
    queue holds its add and no abort after it; in every queue an abort directly
    follows the add of its request; the load of a replica is the sum of the
    charges of active requests routed there, so with no active request every
    load is zero; and under DP attention all queues hold equally many commands. *)
Theorem ledgers_agree c (Hc : reachable c) :
  (∀ rid r, _routes c !! rid = Some r → ∃ q, _command_queues c !! r = Some q ∧ last (ops rid (commands q)) = Some true) ∧
  (∀ rid r q, _command_queues c !! r = Some q → paired false (ops rid (commands q)) = true) ∧
  (∀ rid r a, charged (_policy c) !! rid = Some (r, a) → _routes c !! rid = Some r ∧ (1 ≤ a)%Z) ∧
  loads (_policy c) = (λ r, replica_load r (charged (_policy c))) <$> seq 0 (data_parallel_size c) ∧
  (_routes c = ∅ → loads (_policy c) = replicate (data_parallel_size c) 0%Z) ∧
  (enable_dp_attention c = true → ∀ r1 r2 q1 q2,
     _command_queues c !! r1 = Some q1 → _command_queues c !! r2 = Some q2 → length (commands q1) = length (commands q2)).
Proof.
  pose proof (controller_good c Hc) as [Ht [Hlast Hpairs] _ Hk].
  assert (Hloads : loads (_policy c) = (λ r, replica_load r (charged (_policy c))) <$> seq 0 (data_parallel_size c)).
  { rewrite <- (t_size c Ht). apply loads_exact, Ht. }
  split_and!; [|done| |done| |done].
  - intros rid r Hr. destruct (lookup_lt_is_Some_2 (_command_queues c) r) as [q Hq].
    { rewrite (t_queues c Ht). by eapply t_routes. }
    exists q. split; [done|]. by eapply Hlast.
  - intros rid r a H. split; [by eapply t_charges|]. by eapply charged_bounds; [apply Ht|].
  - intros Hr. rewrite Hloads. assert (charged (_policy c) = ∅) as ->.
    { apply map_empty. intros rid. apply charged_None; [done|]. by rewrite Hr. }
    apply list_eq. intros i. rewrite list_lookup_fmap. destruct (decide (i < data_parallel_size c)) as [Hi|Hi].
    + rewrite lookup_seq_lt, lookup_replicate_2 by done. cbn. unfold replica_load. by rewrite map_sum_empty.
    + rewrite !lookup_ge_None_2; [done|rewrite ?length_seq, ?length_replicate; lia..].
Qed.
End Tokenizer.
End Controller.
End RouterLedger.
