(* ===== verification/RouterSends.v ===== *)
(** * Adds are atomic

    What [send] does with an add command, on every branch: all of it, or an
    exception and none of it. *)

From S2P Require Export RouterLedger.

Module RouterSends.
Import LoadPolicy PolicySpec Loop Sched Router RouterInv RouterSpec RouterLedger.

(** The requests of a command, and those a queue was sent, in order. *)
Definition requests_of (cmd : SchedulerCommand) : list AddRequest :=
  match cmd with CmdAdd a => [a] | CmdAddBatch l => l | _ => [] end.
Definition is_add (cmd : SchedulerCommand) : Prop :=
  match cmd with CmdAdd _ | CmdAddBatch _ => True | _ => False end.
Definition queued (q : CommandQueue) : list AddRequest := commands q ≫= requests_of.

Section Controller.
Context {P LP : Type} `{!_LoadPolicy P, !LoadPolicyLaws P}.
Notation Controller := (DataParallelController P).
Implicit Types (c : Controller) (rid : string) (r : nat) (cmd : SchedulerCommand).

(** Accepted: the requests, each with its replica. *)
Record accepted (requests : list AddRequest) c (choices : list (AddRequest * nat)) c' : Prop := {
  acc_all : choices.*1 = requests;
  acc_routed a r : (a, r) ∈ choices → _routes c' !! add_request_id a = Some r ∧ r < data_parallel_size c;
  acc_others rid : rid ∉ ids_of requests → _routes c' !! rid = _routes c !! rid ∧
    charged (_policy c') !! rid = charged (_policy c) !! rid;
  acc_queues r q : _command_queues c !! r = Some q → ∃ q', _command_queues c' !! r = Some q' ∧
    queued q' = queued q ++ assigned r choices;
}.

(** Refused: the tables and the loads are as they were; so are the queues if they
    were open, and otherwise a replica's queue may have gained what was put before
    a closed one was met, the first of its own requests. *)
Record refused (requests : list AddRequest) c c' : Prop := {
  ref_routes : _routes c' = _routes c;
  ref_charges : charged (_policy c') = charged (_policy c);
  ref_loads : loads (_policy c') = loads (_policy c);
  ref_queues : all_open c → _command_queues c' = _command_queues c;
  ref_kept : ∃ choices, choices.*1 = requests ∧ ∀ r q, _command_queues c !! r = Some q →
    ∃ q' kept, _command_queues c' !! r = Some q' ∧ queued q' = queued q ++ kept ∧ kept `prefix_of` assigned r choices;
}.

Definition refusal (requests : list AddRequest) c : Prop :=
  _closed c = true ∨ is_Some (_failure c) ∨ ¬ NoDup (ids_of requests) ∨
  (∃ rid, rid ∈ ids_of requests ∧ is_Some (_routes c !! rid)) ∨ ¬ all_open c.

Lemma loads_same c c' :
  tables c → tables c' → data_parallel_size c' = data_parallel_size c →
  charged (_policy c') = charged (_policy c) → loads (_policy c') = loads (_policy c).
Proof.
  intros Ht Ht' Hn Hc. rewrite !loads_exact by (by apply t_policy). by rewrite Hc, (t_size c Ht), (t_size c' Ht'), Hn.
Qed.


Lemma queued_push l queues r q :
  queues !! r = Some q → ∃ q', push_all l queues !! r = Some q' ∧
    queued q' = queued q ++ (for_queue r l ≫= requests_of).
Proof.
  intros Hq. rewrite push_all_lookup, Hq. eexists. split; [reflexivity|].
  unfold queued. cbn [commands]. by rewrite bind_app.
Qed.

Lemma refused_refl requests c : refused requests c c.
Proof.
  split; [done..|]. exists ((λ a, (a, 0)) <$> requests). split; [rewrite <- list_fmap_compose; apply list_fmap_id|].
  intros r q Hq. exists q, []. rewrite app_nil_r. split_and!; [done|done|apply prefix_nil].
Qed.

(** Puts that were cut short: of the requests in [l] for a queue, a prefix. *)
Lemma refused_back requests choices l c c' :
  tables c → choices.*1 = requests →
  (∀ r, r < data_parallel_size c → (for_queue r l ≫= requests_of) `prefix_of` assigned r choices) →
  rolled_back l c c' → refused requests c c'.
Proof.
  intros Ht Hch Hl (Ht' & Hr & Hc & Hs & pre & Hpre & Hq & Hopen). split; [done|done| | |].
  - apply loads_same; try done. by rewrite Hs.
  - intros Ho. by rewrite Hq, (Hopen Ho).
  - exists choices. split; [done|]. intros r q Hqr. rewrite Hq. destruct (queued_push pre _ _ _ Hqr) as (q' & Hq' & Eq).
    exists q', (for_queue r pre ≫= requests_of). split_and!; [done|done|]. etrans; [|apply Hl].
    + destruct Hpre as [rest ->]. unfold for_queue. rewrite filter_app, fmap_app, bind_app. by eexists.
    + rewrite <- (t_queues c Ht). by eapply lookup_lt_Some.
Qed.

Lemma add_accepted a c :
  tables c → add_ok a →
  match send_add a c with
  | (Ok _, c') => _routes c !! add_request_id a = None ∧ ∃ choices, accepted [a] c choices c'
  | (Err _, c') => refused [a] c c' ∧ (is_Some (_routes c !! add_request_id a) ∨ ¬ all_open c)
  end.
Proof.
  intros Ht Hok. pose proof (send_add_run a c Ht (proj1 Hok)) as Hrun. destruct (send_add a c) as [[u|e] c'].
  - destruct Hrun as (Hn & r & c1 & Er & ->). split; [done|]. exists [(a, r)].
    pose proof (route_run c a Ht (proj1 Hok) Hn) as Hroute. rewrite Er in Hroute.
    destruct Hroute as (Ht1 & Hs1 & Hr & Hr1 & Hc1). split; [done| | |]; cbn [set_queues _routes _policy _command_queues].
    + intros b i [= -> ->]%list_elem_of_singleton. by rewrite Hr1, lookup_insert_eq.
    + intros rid Hrid. unfold ids_of in Hrid. cbn in Hrid. rewrite list_elem_of_singleton in Hrid.
      rewrite Hr1, lookup_insert_ne by done. split; [done|by apply Hc1].
    + intros i q Hq. destruct (queued_push (sends (enable_dp_attention c) (data_parallel_size c) r (CmdAdd a)) _ _ _ Hq)
        as (q' & Hq' & Eq). exists q'. split; [done|]. rewrite Eq. f_equal.
      rewrite view_sends; [|done|]; [|rewrite <- (t_queues c Ht); by eapply lookup_lt_Some].
      unfold assigned. rewrite filter_cons, filter_nil. cbn. repeat case_decide; congruence || done.
  - destruct Hrun as ((r & Hb) & Hwhy). split; [|unfold all_open; tauto].
    refine (refused_back [a] [(a, r)] _ c c' Ht eq_refl _ Hb). intros i Hi.
    rewrite view_sends by done. unfold assigned. rewrite filter_cons, filter_nil. cbn. repeat case_decide; congruence || done.
Qed.

Lemma batch_accepted requests c :
  tables c → Forall add_ok requests →
  match send_batch requests c with
  | (Ok _, c') => NoDup (ids_of requests) ∧ (∀ rid, rid ∈ ids_of requests → _routes c !! rid = None) ∧
      ∃ choices, accepted requests c choices c'
  | (Err _, c') => refused requests c c' ∧ (¬ NoDup (ids_of requests) ∨
      (∃ rid, rid ∈ ids_of requests ∧ is_Some (_routes c !! rid)) ∨ ¬ all_open c)
  end.
Proof.
  intros Ht Hok. pose proof (send_batch_run requests c Ht Hok) as Hrun. destruct (send_batch requests c) as [[u|e] c'].
  - destruct Hrun as (Hnd & Hfree & choices & c1 & Hch & Ht1 & Hs1 & Hin & Hother & ->).
    split_and!; [done|done|]. exists choices. split; try done. intros i q Hq.
    destruct (queued_push (batch_sends (enable_dp_attention c) (data_parallel_size c) (groups (data_parallel_size c) choices))
      _ _ _ Hq) as (q' & Hq' & Eq). exists q'. split; [done|]. rewrite Eq. f_equal.
    rewrite view_batch; [|done|]; [|rewrite <- (t_queues c Ht); by eapply lookup_lt_Some].
    case_decide as E; [by rewrite E|done].
  - destruct Hrun as ((choices & l & Hch & [rest El] & Hb) & Hwhy). split; [|exact Hwhy].
    apply (refused_back requests choices l c c' Ht Hch); [|exact Hb]. intros r Hr.
    trans (for_queue r (l ++ rest) ≫= requests_of).
    { unfold for_queue. rewrite filter_app, fmap_app, bind_app. by eexists. }
    rewrite <- El, view_batch by done. case_decide as E; [apply prefix_nil|done].
Qed.

End Controller.
End RouterSends.
