(* ===== verification/RouterGenerate.v ===== *)
(** * Blocking generation

    [generate] on a controller whose replicas answer: it returns, and each
    prompt gets its own tokens, whatever else the replicas report in between. *)

From S2P Require Export RouterSends.

Module RouterGenerate.
Import LoadPolicy PolicySpec Loop Sched Router RouterInv RouterSpec RouterLedger RouterSends.

Section Collecting.
Context {LP : Type}.
Implicit Types (rid : string) (o : RequestEvent LP) (os : list (RequestEvent LP)) (g : Collected (LP := LP)) (p : Poll LP).

(** The outputs of a poll. *)
Definition outs_of p : list (RequestEvent LP) :=
  match got p with Some (EvEvents events) => outputs events | _ => [] end.

Definition own rid os : list (RequestEvent LP) := filter (λ o, ev_request_id o = rid) os.
Definition completes rid o : Prop := ev_request_id o = rid ∧ finished o = true.
#[local] Instance completes_dec rid o : Decision (completes rid o).
Proof. unfold completes. apply _. Defined.
Definition done_in os rid : Prop := Exists (completes rid) os.

(** What the outputs [os] say of the requests [ids]. *)
Record gathered (ids : gset string) os g : Prop := {
  ga_tokens rid : generated g !! rid = if decide (rid ∈ ids) then Some (concat (new_token_ids <$> own rid os)) else None;
  ga_reasons rid : rid ∈ ids → reasons g !! rid = last (ev_finish_reason <$> filter (completes rid) os);
  ga_logprobs rid : rid ∈ ids → output_logprobs g !! rid = Some (omap ev_delta_logprobs (own rid os));
  ga_prompt rid : rid ∈ ids → prompt_logprobs g !! rid = last (omap ev_prompt_logprobs (own rid os));
  ga_pending rid : rid ∈ pending g ↔ rid ∈ ids ∧ ¬ done_in os rid;
}.

Lemma own_snoc rid os o : own rid (os ++ [o]) = own rid os ++ (if decide (ev_request_id o = rid) then [o] else []).
Proof. unfold own. rewrite filter_app, filter_cons, filter_nil. done. Qed.

Lemma omap_snoc {A B} (f : A → option B) l a :
  omap f (l ++ [a]) = omap f l ++ match f a with Some b => [b] | None => [] end.
Proof. rewrite omap_app. cbn. by destruct (f a). Qed.

Lemma done_snoc os o rid : done_in (os ++ [o]) rid ↔ done_in os rid ∨ completes rid o.
Proof. unfold done_in. by rewrite Exists_app, Exists_cons, Exists_nil; intuition. Qed.

Lemma collect_step ids os g o :
  gathered ids os g → (ev_request_id o ∈ ids → ev_error o = None) →
  ∃ g', collect_output o g = Ok g' ∧ gathered ids (os ++ [o]) g'.
Proof.
  intros [Ht Hr Hl Hp Hd] He. set (x := ev_request_id o) in *.
  unfold collect_output. fold x. rewrite Ht. case_decide as Hx.
  2: { exists g. split; [done|].
    assert (Hown : ∀ rid, rid ∈ ids → own rid (os ++ [o]) = own rid os).
    { intros rid Hrid. rewrite own_snoc. fold x. rewrite decide_False by congruence. apply app_nil_r. }
    split.
    - intros rid. rewrite Ht. case_decide; [by rewrite Hown|done].
    - intros rid Hrid. rewrite (Hr rid Hrid), filter_app, (filter_cons_False _ o), filter_nil, app_nil_r; [done|].
      intros [E _]. fold x in E. congruence.
    - intros rid Hrid. by rewrite (Hl rid Hrid), Hown.
    - intros rid Hrid. by rewrite (Hp rid Hrid), Hown.
    - intros rid. rewrite Hd, done_snoc. split; intros [? Hn]; (split; [done|]); [|tauto].
      intros [|[E _]]; [done|]. fold x in E. congruence. }
  rewrite He by done. rewrite bool_decide_false by (by intros [? ?]). cbn [rguard negb mbind result_bind].
  eexists. split; [reflexivity|].
  assert (Hother : ∀ rid, rid ≠ x → own rid (os ++ [o]) = own rid os).
  { intros rid Hrid. rewrite own_snoc. fold x. rewrite decide_False by done. apply app_nil_r. }
  assert (Hsame : own x (os ++ [o]) = own x os ++ [o]) by (rewrite own_snoc; fold x; by rewrite decide_True).
  split.
  - intros rid. transitivity (<[x := concat (new_token_ids <$> own x os) ++ new_token_ids o]> (generated g) !! rid).
    { by destruct (finished o). }
    destruct (decide (rid = x)) as [->|Hne].
    + rewrite lookup_insert_eq, Hsame, fmap_app, concat_app, decide_True by done. cbn. by rewrite app_nil_r.
    + by rewrite lookup_insert_ne, Hother, Ht.
  - intros rid Hrid. rewrite filter_app, filter_cons, filter_nil.
    assert (Hcomp : completes rid o ↔ rid = x ∧ finished o = true) by (unfold completes; fold x; naive_solver).
    destruct (finished o) eqn:Ef; cbn [reasons].
    + destruct (decide (rid = x)) as [->|Hne].
      * rewrite lookup_insert_eq, decide_True by tauto. rewrite fmap_app. symmetry. apply last_snoc.
      * rewrite lookup_insert_ne, decide_False by (done || tauto). by rewrite app_nil_r, Hr.
    + rewrite decide_False by (intros [_ E]%Hcomp; congruence). by rewrite app_nil_r, Hr.
  - intros rid Hrid.
    transitivity (match ev_delta_logprobs o with None => output_logprobs g
                  | Some lp => <[x := default [] (output_logprobs g !! x) ++ [lp]]> (output_logprobs g) end !! rid).
    { by destruct (finished o). }
    destruct (decide (rid = x)) as [->|Hne].
    + rewrite Hsame, omap_snoc. destruct (ev_delta_logprobs o); [by rewrite lookup_insert_eq, Hl by done|by rewrite Hl, app_nil_r].
    + rewrite Hother, <- Hl by done. destruct (ev_delta_logprobs o); [by rewrite lookup_insert_ne|done].
  - intros rid Hrid.
    transitivity (match ev_prompt_logprobs o with None => prompt_logprobs g
                  | Some l => <[x := l]> (prompt_logprobs g) end !! rid).
    { by destruct (finished o). }
    destruct (decide (rid = x)) as [->|Hne].
    + rewrite Hsame, omap_snoc. destruct (ev_prompt_logprobs o); [by rewrite lookup_insert_eq, last_snoc|by rewrite app_nil_r, Hp].
    + rewrite Hother, <- Hp by done. destruct (ev_prompt_logprobs o); [by rewrite lookup_insert_ne|done].
  - intros rid. rewrite done_snoc. unfold completes. fold x. destruct (finished o); cbn [pending].
    + rewrite elem_of_difference, elem_of_singleton, Hd. naive_solver.
    + rewrite Hd. naive_solver.
Qed.

Lemma collect_all ids outs : ∀ os g,
  gathered ids os g → Forall (λ o, ev_request_id o ∈ ids → ev_error o = None) outs →
  ∃ g', rfold collect_output outs g = Ok g' ∧ gathered ids (os ++ outs) g'.
Proof.
  induction outs as [|o outs IH]; intros os g Hg He; cbn [rfold].
  { exists g. by rewrite app_nil_r. }
  apply Forall_cons in He as [Ho He]. destruct (collect_step ids os g o Hg Ho) as (g1 & -> & Hg1).
  destruct (IH (os ++ [o]) g1 Hg1 He) as (g' & E & Hg'). cbn [mbind result_bind].
  exists g'. split; [done|]. by rewrite <- app_assoc in Hg'.
Qed.

(** Polls of working replicas. *)
Definition calm (ids : gset string) p : Prop :=
  late p = false ∧
  match got p with
  | None => dead p = false ∧ expired p = false
  | Some (EvFailed _) | Some (EvReplicaFailed _ _) => False
  | Some (EvEvents events) => Forall (λ o, ev_request_id o ∈ ids → ev_error o = None) (outputs events)
  | Some _ => True
  end.

Definition all_done (ids : gset string) (polls : list (Poll LP)) : Prop :=
  ∀ rid, rid ∈ ids → done_in (polls ≫= outs_of) rid.

Lemma constant_map {A} (x : A) (l : list string) rid :
  list_to_map (M := gmap string A) ((λ r, (r, x)) <$> l) !! rid = if decide (rid ∈ l) then Some x else None.
Proof.
  induction l as [|y l IH]; [done|]. cbn [fmap list_fmap list_to_map foldr uncurry]. cbn. destruct (decide (rid = y)) as [->|Hne].
  - by rewrite lookup_insert_eq, decide_True by (by left).
  - rewrite lookup_insert_ne, IH by done. apply decide_ext. rewrite elem_of_cons. tauto.
Qed.

Lemma gathered_nothing (l : list string) :
  gathered (list_to_set l) [] (MkCollected (list_to_map ((λ r, (r, [])) <$> l)) ∅
    (list_to_map ((λ r, (r, [])) <$> l)) ∅ (list_to_set l)).
Proof.
  split; cbn [generated reasons output_logprobs prompt_logprobs pending].
  - intros rid. rewrite constant_map. apply decide_ext. by rewrite elem_of_list_to_set.
  - done.
  - intros rid Hrid%elem_of_list_to_set. by rewrite constant_map, decide_True.
  - done.
  - intros rid. unfold done_in. rewrite Exists_nil. tauto.
Qed.
End Collecting.

Section Controller.
Context {P LP : Type} `{!_LoadPolicy P, !LoadPolicyLaws P}.
Notation Controller := (DataParallelController P).
Implicit Types (c : Controller) (rid : string) (r : nat) (p : Poll LP).

Lemma without_app {A} l1 l2 (m : gmap string A) : without (l1 ++ l2) m = without l2 (without l1 m).
Proof. unfold without. by rewrite foldl_app. Qed.

(** The routes that go with what the replicas report. *)
Definition left_by (os : list (RequestEvent LP)) (m : gmap string nat) : gmap string nat :=
  without (ev_request_id <$> filter ended os) m.

Lemma left_by_app os1 os2 m : left_by (os1 ++ os2) m = left_by os2 (left_by os1 m).
Proof. unfold left_by. by rewrite filter_app, fmap_app, without_app. Qed.

(** One turn of the loop of [generate]. *)
Lemma poll_run ids p os (g : Collected (LP := LP)) c :
  good c → calm ids p → gathered ids os g →
  ∃ g1 c1, good c1 ∧ gathered ids (os ++ outs_of p) g1 ∧ _routes c1 = left_by (outs_of p) (_routes c) ∧
    ∀ polls, pending g ≠ ∅ → generate_loop (p :: polls) g c = generate_loop polls g1 c1.
Proof.
  intros Hg [Hlate Hp] Hga. unfold outs_of. destruct p as [l e d x]. cbn [late got dead expired] in *. subst l.
  assert (Hskip : ∀ c1 (event : option (SchedulerEvent LP)), poll_once (MkPoll false e d x) c = (Ok event, c1) →
    match event with Some (EvFailed _ | EvEvents _) => False | _ => True end →
    ∀ polls, pending g ≠ ∅ → generate_loop (MkPoll false e d x :: polls) g c = generate_loop polls g c1).
  { intros c1 event E Hev polls Hne. cbn [generate_loop]. rewrite decide_False by done. rewrite (run_Ok _ _ _ _ _ E).
    by destruct event as [[]|]. }
  destruct e as [event|].
  - destruct event as [ready|message|rank ready|rank message|events]; try done.
    1,2: exists g, c; rewrite app_nil_r; split_and!; [done..|by eapply Hskip].
    destruct (deliver_run (EvEvents events) c Hg) as (e1 & c1 & E & Hg1 & Hr1).
    destruct (collect_all ids (outputs events) os g Hga Hp) as (g1 & Eg & Hg1').
    exists g1, c1. split_and!; [done..|]. intros polls Hne. cbn [generate_loop]. rewrite decide_False by done.
    assert (e1 = EvEvents events) as ->.
    { cbn [deliver] in E. rewrite run_bind in E. destruct (for_each _ _ c) as [[u|err] c2]; cbv beta iota delta [mret st_ret] in E; congruence. }
    assert (poll_once (MkPoll false (Some (EvEvents events)) d x) c = (Ok (Some (EvEvents events)), c1)) as Ep.
    { unfold poll_once. st_prim. cbn [late rguard negb got]. by rewrite (run_Ok _ _ _ _ _ E). }
    rewrite (run_Ok _ _ _ _ _ Ep). st_prim. by rewrite Eg.
  - destruct Hp as [-> ->]. exists g, c. rewrite app_nil_r. split_and!; [done..|]. by apply (Hskip c None).
Qed.

Lemma loop_run ids polls : ∀ os (g : Collected (LP := LP)) c,
  good c → gathered ids os g → Forall (calm ids) polls →
  (∀ rid, rid ∈ ids → done_in (os ++ (polls ≫= outs_of)) rid) →
  ∃ pre g' c', pre `prefix_of` polls ∧ generate_loop polls g c = (Ok (Some g'), c') ∧
    gathered ids (os ++ (pre ≫= outs_of)) g' ∧ pending g' = ∅ ∧
    (∀ k, k < length pre → ∃ rid, rid ∈ ids ∧ ¬ done_in (os ++ (take k pre ≫= outs_of)) rid) ∧
    _routes c' = left_by (pre ≫= outs_of) (_routes c).
Proof.
  induction polls as [|p polls IH]; intros os g c Hg Hga Hcalm Hdone.
  - assert (pending g = ∅) as Hp.
    { apply set_eq. intros rid. rewrite (ga_pending _ _ _ Hga). rewrite app_nil_r in Hdone. set_solver. }
    exists [], g, c. cbn [generate_loop mbind list_bind length]. rewrite app_nil_r. split_and!; [done| |done|done|lia|done].
    by rewrite decide_True.
  - apply Forall_cons in Hcalm as [Hp Hcalm]. destruct (decide (pending g = ∅)) as [He|Hne].
    { exists [], g, c. cbn [generate_loop mbind list_bind length]. rewrite app_nil_r. split_and!; [apply prefix_nil| |done|done|lia|done].
      by rewrite decide_True. }
    destruct (poll_run ids p os g c Hg Hp Hga) as (g1 & c1 & Hg1 & Hga1 & Hr1 & E).
    destruct (IH (os ++ outs_of p) g1 c1 Hg1 Hga1 Hcalm) as (pre & g' & c' & Hpre & E' & Hga' & Hpend & Hmin & Hr').
    { intros rid Hrid. rewrite <- app_assoc. by apply Hdone. }
    exists (p :: pre), g', c'. split_and!.
    + by apply prefix_cons.
    + by rewrite E.
    + cbn [mbind list_bind]. by rewrite app_assoc.
    + done.
    + intros [|k] Hk; cbn [take mbind list_bind length] in *.
      * destruct (set_choose_L _ Hne) as [rid Hrid]. rewrite (ga_pending _ _ _ Hga) in Hrid. exists rid. by rewrite app_nil_r.
      * destruct (Hmin k) as (rid & Hrid & Hn); [lia|]. exists rid. by rewrite app_assoc.
    + cbn [mbind list_bind]. by rewrite left_by_app, <- Hr1.
Qed.

(** A batch of new requests on a working controller. *)
Lemma send_new requests c :
  good c → _closed c = false → _failure c = None → Forall add_ok requests →
  NoDup (ids_of requests) → (∀ rid, rid ∈ ids_of requests → _routes c !! rid = None) →
  ∃ choices c', send (CmdAddBatch requests) c = (Ok tt, c') ∧ accepted requests c choices c' ∧ good c'.
Proof.
  intros Hg Hc Hf Hok Hnd Hfree. pose proof (send_good (CmdAddBatch requests) c Hg Hok) as Hgood.
  pose proof (batch_accepted requests c (g_tables c Hg) Hok) as Hacc.
  assert (E : send (CmdAddBatch requests) c = send_batch requests c).
  { unfold send. st_prim. unfold id. rewrite Hc, Hf. cbn [negb rguard]. st_prim. by rewrite bool_decide_false by (by intros [? ?]). }
  rewrite E in *. destruct (send_batch requests c) as [[[]|e] c'].
  - destruct Hacc as (_ & _ & choices & Hacc). by exists choices, c'.
  - exfalso. destruct Hacc as (_ & [Hn|[(rid & Hrid & Hs)|Ho]]); [done| |].
    + rewrite Hfree in Hs by done. by destruct Hs.
    + by apply Ho, g_open.
Qed.

#[global] Instance batch_id_inj : Inj (=) (=) batch_id.
Proof. intros n m E. unfold batch_id in E. by simplify_eq. Qed.

(** The requests of a call. *)
Definition rids_from (n : nat) (prompts : list Text.text) : list string := batch_id <$> seq n (length prompts).

Lemma rids_NoDup n prompts : NoDup (rids_from n prompts).
Proof. apply NoDup_fmap; [apply _|apply NoDup_seq]. Qed.

Section Tokenizer.
Context (encode : Text.text → list Z) (decode : list Z → Text.text).
Hypothesis encode_tokens : ∀ prompt, Forall Chain.is_token (encode prompt).

Definition requests_for (rids : list string) (prompts : list Text.text) (params : SamplingParams) : list AddRequest :=
  zip_with (λ rid prompt, MkAdd rid (encode prompt) params (bool_decide (is_Some (logprobs params)))) rids prompts.

Lemma requests_ids rids prompts params :
  length rids = length prompts → ids_of (requests_for rids prompts params) = rids.
Proof.
  unfold ids_of, requests_for. revert prompts. induction rids as [|rid rids IH]; intros [|prompt prompts]; try done.
  cbn. intros [= Hl]. f_equal. by apply IH.
Qed.

Lemma requests_ok n prompts params : Forall add_ok (requests_for (rids_from n prompts) prompts params).
Proof.
  unfold requests_for, rids_from. generalize (length prompts) as k. intros k. revert n k.
  induction prompts as [|prompt prompts IH]; intros n [|k]; cbn; constructor; [|apply IH].
  split; [done|apply encode_tokens].
Qed.

(** The output for a prompt, from everything the replicas reported. *)
Definition reply (os : list (RequestEvent LP)) (prompt : Text.text) rid : RequestOutput :=
  let records := omap ev_delta_logprobs (own rid os) in
  MkRequestOutput prompt
    [MkCompletion (decode (concat (new_token_ids <$> own rid os)))
       (default None (last (ev_finish_reason <$> filter (completes rid) os)))
       (if decide (length records = 0) then None else Some records)]
    (last (omap ev_prompt_logprobs (own rid os))).

Lemma zip_with_ext_in {A B C} (f g : A → B → C) l1 : ∀ l2,
  (∀ a b, b ∈ l2 → f a b = g a b) → zip_with f l1 l2 = zip_with g l1 l2.
Proof.
  induction l1 as [|a l1 IH]; intros [|b l2] H; cbn; [done..|]. rewrite H by (by left). f_equal.
  apply IH. intros a' b' Hb. apply H. by right.
Qed.

Lemma left_by_done os (m : gmap string nat) rid : done_in os rid → left_by os m !! rid = None.
Proof.
  unfold done_in. rewrite Exists_exists. intros (o & Ho & <- & Hf). unfold left_by. rewrite without_lookup, decide_True; [done|].
  apply list_elem_of_fmap. exists o. split; [done|]. apply list_elem_of_filter. split; [|done].
  left. unfold finished in Hf. by apply bool_decide_eq_true in Hf.
Qed.

Lemma left_by_old os (m : gmap string nat) rid r : left_by os m !! rid = Some r → m !! rid = Some r.
Proof. unfold left_by. rewrite without_lookup. by case_decide. Qed.

(** C19: blocking generation is exact.  On a reachable working controller whose numbered
    ids are free, if the replicas report no failure and eventually finish every
    prompt, [generate] returns as soon as the last one is finished: the output
    of each prompt decodes the concatenation of the tokens reported for it, in
    order and whatever else was reported in between, with its finish reason and
    its log-probabilities; its own routes are gone and no route was added. *)
Theorem generate_exact prompts params polls c
    (Hc : reachable (LP := LP) encode decode c) (Hopen : _closed c = false) (Hworks : _failure c = None)
    (Hfree : ∀ rid, rid ∈ rids_from (_request_ids c) prompts → _routes c !! rid = None)
    (Hcalm : Forall (calm (list_to_set (rids_from (_request_ids c) prompts))) polls)
    (Hdone : all_done (list_to_set (rids_from (_request_ids c) prompts)) polls) :
  let rids := rids_from (_request_ids c) prompts in
  ∃ pre c', pre `prefix_of` polls ∧ all_done (list_to_set rids) pre ∧
    (∀ k, k < length pre → ¬ all_done (list_to_set rids) (take k pre)) ∧
    generate encode decode prompts params polls c =
      (Ok (Some (zip_with (reply (pre ≫= outs_of)) prompts rids)), c') ∧
    (∀ rid, rid ∈ rids → _routes c' !! rid = None) ∧
    (∀ rid r, _routes c' !! rid = Some r → _routes c !! rid = Some r).
Proof.
  cbn zeta. pose proof (controller_good encode decode encode_tokens c Hc) as Hg. unfold generate. case_decide as Hp.
  { subst prompts. exists [], c. split_and!; try done; [apply prefix_nil|intros k Hk; cbn in Hk; lia]. }
  set (rids := rids_from (_request_ids c) prompts) in *. st_prim. fold (rids_from (_request_ids c) prompts). fold rids.
  fold (requests_for rids prompts (default default_params params)). set (requests := requests_for _ _ _). st_prim.
  set (c1 := set_request_ids (_request_ids c + length prompts) c).
  assert (Hg1 : good c1) by (pose proof (g_tables c Hg) as [? ? ? ? ?]; by apply (good_shrink c)).
  assert (Hids : ids_of requests = rids).
  { apply requests_ids. unfold rids, rids_from. by rewrite length_fmap, length_seq. }
  destruct (send_new requests c1 Hg1 Hopen Hworks) as (choices & c2 & E2 & Hacc & Hg2).
  { apply requests_ok. }
  { rewrite Hids. apply rids_NoDup. }
  { rewrite Hids. exact Hfree. }
  destruct (loop_run (list_to_set rids) polls [] _ c2 Hg2 (gathered_nothing rids) Hcalm Hdone)
    as (pre & g & c' & Hpre & E & Hga & Hpend & Hmin & Hroutes). cbn [app] in *.
  assert (Hall : all_done (list_to_set rids) pre).
  { intros rid Hrid. apply dec_stable. intros Hn. pose proof (proj2 (ga_pending _ _ _ Hga rid) (conj Hrid Hn)). set_solver. }
  exists pre, c'. split_and!; [done|done| | | |].
  - intros k Hk Hdk. destruct (Hmin k Hk) as (rid & Hrid & Hn). by apply Hn, Hdk.
  - unfold on_error, catch. rewrite (run_Ok _ _ _ _ _ E2), E. cbv beta iota delta [mret st_ret]. do 3 f_equal.
    apply (zip_with_ext_in _ (reply (pre ≫= outs_of))). intros prompt rid Hrid. destruct Hga as [Ht Hr Hl Hpl _]. unfold reply.
    assert (Hin : rid ∈ list_to_set (C := gset string) rids) by (by apply elem_of_list_to_set).
    by rewrite Ht, Hr, Hl, Hpl, decide_True by done.
  - intros rid Hrid. rewrite Hroutes. apply left_by_done, Hall. by apply elem_of_list_to_set.
  - intros rid r Hr. destruct (decide (rid ∈ rids)) as [Hrid|Hrid].
    + rewrite Hroutes, left_by_done in Hr; [done|]. apply Hall. by apply elem_of_list_to_set.
    + rewrite Hroutes in Hr. apply left_by_old in Hr. destruct (acc_others _ _ _ _ Hacc rid ltac:(by rewrite Hids)) as [E1 _]. by rewrite E1 in Hr.
Qed.
End Tokenizer.
End Controller.
End RouterGenerate.
