(* ===== verification/RouterDemo.v ===== *)
(** * A small grid to run

    New controllers are fresh; two replicas balanced by requests witness the
    controller's theorems, and two runs show what a failure leaves behind. *)

From S2P Require Export RouterGenerate.

Module RouterDemo.
Import LoadPolicy PolicySpec Loop Sched Router RouterInv RouterSpec RouterLedger RouterSends RouterGenerate.

Lemma make_controller_fresh digest (digest_ok : Chain.digest_ok digest) a visible speculate c :
  make_controller a visible speculate = Ok c →
  fresh (LoadPolicyLaws0 := AnyPolicy_laws digest digest_ok) c.
Proof.
  unfold make_controller. intros (u & _ & (policy & E & [= <-])%bind_Ok)%bind_Ok.
  destruct (create_load_policy_ok digest digest_ok _ _ _ E) as (Hp & Hs & Hc). by split.
Qed.

#[local] Instance toy_policy : _LoadPolicy AnyPolicy := AnyPolicy_policy Chain.toy_digest.
#[local] Instance toy_laws : LoadPolicyLaws AnyPolicy := AnyPolicy_laws Chain.toy_digest Chain.toy_digest_ok.

(** Tokens of a prompt, and the text of tokens. *)
Definition demo_encode (prompt : Text.text) : list Z := (λ z, (z mod 1000)%Z) <$> prompt.

Lemma grid_encode_tokens prompt : Forall Chain.is_token (demo_encode prompt).
Proof.
  apply Forall_fmap, Forall_forall. intros z _. unfold Chain.is_token.
  pose proof (Z.mod_pos_bound z 1000). cbn. lia.
Qed.

Definition demo_args (balancer : string) : controller_args := MkArgs 2 1 balancer true (Some "cpu"%string) true false.

Notation grid := (DataParallelController AnyPolicy).
Notation demo_perform := (perform (LP := unit) demo_encode id).
Notation demo_reachable := (reachable (LP := unit) demo_encode id).

(** The controller after some operations. *)
Definition after (operations : list (operation (LP := unit))) (c : grid) : grid :=
  foldl (λ c o, (demo_perform o c).2) c operations.

Lemma after_reachable operations : ∀ c,
  demo_reachable c → Forall operation_ok operations → demo_reachable (after operations c).
Proof.
  induction operations as [|o operations IH]; intros c Hc Ho; [done|].
  apply Forall_cons in Ho as [Ho Hos]. apply IH; [|done]. by constructor.
Qed.

Lemma demo_fresh balancer c : make_controller (demo_args balancer) 0 "0" = Ok c → demo_reachable c.
Proof. intros E. apply reach_fresh. by eapply make_controller_fresh. Qed.

Definition demo_add (rid : string) (tokens : list Z) : AddRequest := MkAdd rid tokens default_params false.

Lemma demo_add_ok rid tokens : rid ≠ EmptyString → forallb (λ z, (0 <=? z) && (z <? 1000))%Z tokens = true →
  add_ok (demo_add rid tokens).
Proof.
  intros Hne Ht. split; [done|]. apply Forall_forall. intros z Hz%list_elem_of_In.
  rewrite forallb_forall in Ht. specialize (Ht z Hz). unfold Chain.is_token. lia.
Qed.

Lemma demo_batch_ok rid1 t1 rid2 t2 : rid1 ≠ EmptyString → rid2 ≠ EmptyString →
  forallb (λ z, (0 <=? z) && (z <? 1000))%Z (t1 ++ t2) = true →
  command_ok (CmdAddBatch [demo_add rid1 t1; demo_add rid2 t2]).
Proof.
  intros H1 H2 Ht. rewrite forallb_app in Ht. apply andb_prop in Ht as [Ht1 Ht2].
  repeat apply Forall_cons_2; [by apply demo_add_ok..|apply Forall_nil_2].
Qed.

Definition demo_event (rid : string) (tokens : list Z) (reason : option string) : RequestEvent unit :=
  MkEvent rid tokens reason 1 None None None.
Definition demo_poll (outs : list (RequestEvent unit)) : Poll unit :=
  MkPoll false (Some (EvEvents (MkEvents outs None))) false false.

(** Three requests; one ends, one is aborted, one is still running. *)
Definition demo_run : list (operation (LP := unit)) :=
  [ OpSend (CmdAdd (demo_add "a" [1; 2; 3]%Z));
    OpSend (CmdAddBatch [demo_add "b" [4]%Z; demo_add "c" [5; 6]%Z]);
    OpReceive (demo_poll [demo_event "b" [7]%Z (Some "stop"%string)]);
    OpSend (CmdAbort "a") ].

Lemma demo_run_ok : Forall operation_ok demo_run.
Proof.
  unfold demo_run. rewrite !Forall_cons. split_and!; try done; cbn [operation_ok]; [by apply demo_add_ok|by apply demo_batch_ok].
Qed.

Lemma ledgers_agree_witness :
  ∃ c0, make_controller (demo_args "total_requests") 0 "0" = Ok c0 ∧
    let c := after demo_run c0 in
    _routes c !! "c"%string = Some 0 ∧ length <$> (commands <$> _command_queues c) = [4; 4] ∧
    (∃ q, _command_queues c !! 0 = Some q ∧ last (ops "c" (commands q)) = Some true).
Proof.
  eexists. split; [vm_compute; reflexivity|]. cbn zeta. split; [vm_compute; reflexivity|].
  split; [vm_compute; reflexivity|].
  refine (proj1 (ledgers_agree (LP := unit) demo_encode id grid_encode_tokens _ _) "c"%string 0 _).
  - apply after_reachable; [|exact demo_run_ok]. apply (demo_fresh "total_requests"). vm_compute. reflexivity.
  - vm_compute. reflexivity.
Defined.


Definition demo_prompts : list Text.text := [[65]; [66; 67]]%Z.

(** Chunks of two prompts, interleaved with each other and with a stranger's. *)
Definition demo_polls : list (Poll unit) :=
  [ demo_poll [demo_event "batch-1" [20]%Z None; demo_event "z" [9]%Z None];
    MkPoll false None false false;
    demo_poll [demo_event "batch-0" [10; 11]%Z None; demo_event "batch-1" [21]%Z (Some "stop"%string)];
    demo_poll [demo_event "batch-0" [12]%Z (Some "length"%string)];
    demo_poll [demo_event "z" [9]%Z None] ].

Lemma generate_exact_witness :
  ∃ c0 pre c', make_controller (demo_args "total_requests") 0 "0" = Ok c0 ∧ pre `prefix_of` demo_polls ∧
    generate demo_encode id demo_prompts None demo_polls c0 =
      (Ok (Some (zip_with (reply id (pre ≫= outs_of)) demo_prompts ["batch-0"; "batch-1"]%string)), c').
Proof.
  destruct (make_controller (demo_args "total_requests") 0 "0") as [c0|e] eqn:E0; [|vm_compute in E0; discriminate E0].
  assert (Eids : rids_from (_request_ids c0) demo_prompts = ["batch-0"; "batch-1"]%string ∧ _closed c0 = false ∧
    _failure c0 = None ∧ _routes c0 = ∅) by (vm_compute in E0; injection E0 as <-; split_and!; reflexivity).
  destruct Eids as (Eids & Eopen & Eworks & Eroutes).
  destruct (generate_exact demo_encode id grid_encode_tokens demo_prompts None demo_polls c0 (demo_fresh _ _ E0)
    Eopen Eworks) as (pre & c' & Hpre & _ & _ & E & _).
  - intros rid _. by rewrite Eroutes.
  - rewrite Eids. repeat constructor; by intros.
  - rewrite Eids. intros rid. rewrite elem_of_list_to_set, !elem_of_cons. intros [->|[->|[]%elem_of_nil]].
    all: apply (bool_decide_unpack _); vm_compute; exact I.
  - rewrite Eids in E. by exists c0, pre, c'.
Defined.

(** What the replies are. *)
Lemma demo_replies :
  match make_controller (demo_args "total_requests") 0 "0" with
  | Ok c0 => (generate demo_encode id demo_prompts None demo_polls c0).1 =
      Ok (Some [MkRequestOutput [65]%Z [MkCompletion [10; 11; 12]%Z (Some "length"%string) None] None;
                MkRequestOutput [66; 67]%Z [MkCompletion [20; 21]%Z (Some "stop"%string) None] None])
  | Err _ => False
  end.
Proof. vm_compute. reflexivity. Qed.

(** ** What a failure leaves behind *)

(** The cache-aware policy raises on a token of 2^32 midway through a batch, before the
    clean-up is in force: the route and the charge of the first request stay. *)
Lemma bad_batch_leaks :
  match make_controller (demo_args "cache_aware") 0 "0" with
  | Ok c0 =>
      let cmd := CmdAddBatch [demo_add "a" [1]%Z; demo_add "b" (replicate 16 (2 ^ 32)%Z)] in
      (send cmd c0).1 = Err StructError ∧ _routes (send cmd c0).2 !! "a"%string = Some 0 ∧
      loads (_policy (send cmd c0).2) = [1; 0]%Z
  | Err _ => False
  end.
Proof. vm_compute. split_and!; reflexivity. Qed.

(** A closed queue midway through a batch: the caller is told it failed and no
    route is left, but the first replica has its request. *)
Lemma closed_queue_keeps_earlier :
  match make_controller (demo_args "round_robin") 0 "0" with
  | Ok c0 =>
      let c := set_queues [MkQueue true []; MkQueue false []] c0 in
      let cmd := CmdAddBatch [demo_add "a" [1]%Z; demo_add "b" [2]%Z] in
      (send cmd c).1 = Err ValueError ∧ _routes (send cmd c).2 = ∅ ∧
      (queued <$> _command_queues (send cmd c).2) = [[demo_add "a" [1]%Z]; []]
  | Err _ => False
  end.
Proof. vm_compute. split_and!; reflexivity. Qed.

(** After a replica's failure [shutdown] puts nothing in the queues. *)
Lemma failed_shutdown_is_silent :
  ∃ c0, make_controller (demo_args "round_robin") 0 "0" = Ok c0 ∧
    let c := after [OpReceive (MkPoll false (Some (EvReplicaFailed 1 "oom")) false false); OpShutdown] c0 in
    _closed c = true ∧ _command_queues c = [MkQueue false []; MkQueue false []].
Proof. eexists. split; [vm_compute; reflexivity|]. vm_compute. split_and!; reflexivity. Qed.
End RouterDemo.
