(* ===== verification/AsyncEngine.v ===== *)
(** * The asynchronous engine ([AsyncLLMEngine] of async_engine.py)

    The coroutines of the clients, the receiver thread and the coroutine that
    shuts the engine down share the request table, the lifecycle and the
    backend.  Each is a small program counter here, and a step is one section
    that a lock (or the event loop) makes atomic; [step] is executable and any
    interleaving of the steps is a run.  The backend, one scheduler process or
    the data-parallel controller, is behind [Backend]. *)

From S2P Require Export Detokenizer Router.

Module Async.
Import LoadPolicy Loop Sched Router.

(** ** Streams *)

Record StreamedOutput {LP : Type} := MkStreamed {
  so_request_id : string;
  delta : Text.text;
  text : Text.text;
  so_finish_reason : option string;
  prompt_tokens : nat;
  completion_tokens : nat;
  so_logprobs : option LP;
  so_prompt_logprobs : option (list (option LP));
}.
Arguments StreamedOutput : clear implicits.

Definition is_finished {LP} (o : StreamedOutput LP) : bool := bool_decide (is_Some (so_finish_reason o)).

(** The exceptions put in a stream: [ValueError(event.error)] and [SchedulerProcessError]. *)
Inductive StreamError := EventError (error : exn) | ProcessError (message : string).

Inductive Item {LP : Type} := Chunk (o : StreamedOutput LP) | Raise (e : StreamError) | End.
Arguments Item : clear implicits.

Record _RequestStream {LP : Type} := MkStream {
  request_id : string;
  _queue : list (Item LP);
  _detokenizer : Detok.IncrementalDetokenizer;
  _text : Text.text;
  _completion_tokens : nat;
  stream_finished : bool;
}.
Arguments _RequestStream : clear implicits.

Section Stream.
Context {LP : Type}.
Implicit Types (s : _RequestStream LP).

Definition new_stream (rid : string) : _RequestStream LP := MkStream LP rid [] (Detok.init 1) [] 0 false.

(** The event loops of the clients are open. *)
Definition push (item : Item LP) s : _RequestStream LP :=
  MkStream LP (request_id s) (_queue s ++ [item]) (_detokenizer s) (_text s) (_completion_tokens s) (stream_finished s).
Definition set_finished s : _RequestStream LP :=
  MkStream LP (request_id s) (_queue s) (_detokenizer s) (_text s) (_completion_tokens s) true.

(** [tokenizer.decode] *)
Context (decode : list Z → Text.text).

Definition push_event (event : RequestEvent LP) s : result (_RequestStream LP) :=
  match ev_error event with
  | Some error => Ok (push (Raise (EventError error)) (set_finished s))
  | None =>
      '(delta, d) ← Detok.append_all decode 0 (new_token_ids event) (_detokenizer s);
      let s := MkStream LP (request_id s) (_queue s) d (_text s) (_completion_tokens s) (stream_finished s) in
      let s := if decide (new_token_ids event = []) then s
               else MkStream LP (request_id s) (_queue s) (_detokenizer s) (_text s ++ delta)
                      (_completion_tokens s + length (new_token_ids event)) (stream_finished s) in
      let s := if finished event then set_finished s else s in
      Ok (if decide (delta = [] ∧ finished event = false) then s
          else push (Chunk (MkStreamed LP (request_id s) delta (_text s) (ev_finish_reason event) (ev_prompt_len event)
                 (_completion_tokens s) (if decide (new_token_ids event = []) then None else ev_delta_logprobs event)
                 (ev_prompt_logprobs event))) s)
  end.
End Stream.

(** ** The backend *)

(** What the engine asks of the process behind it; a poll is the arrivals
    within one timeout, [None] the exception [queue.Empty]. *)
Class Backend (B LP : Type) := {
  _put_command : SchedulerCommand → St B unit;
  _get_event : list (Poll LP) → St B (SchedulerEvent LP);
  alive : B → list (Poll LP) → bool;
  _join_backend : St B unit;
  _close_channels : B → B;
}.

(** The queue of one scheduler process. *)
#[global] Instance process_backend {LP} : Backend CommandQueue LP := {
  _put_command command := λ q,
    if is_open q then (Ok tt, MkQueue true (commands q ++ [command])) else (Err ValueError, q);
  _get_event polls := match polls with
    | p :: _ => match got p with Some event => mret event | None => raise QueueEmpty end
    | [] => raise QueueEmpty
    end;
  alive _ polls := match polls with p :: _ => negb (dead p) | [] => true end;
  _join_backend := mret tt;
  _close_channels q := MkQueue false (commands q);
}.

(** The data-parallel controller. *)
#[global] Instance controller_backend {P LP} `{!_LoadPolicy P} : Backend (DataParallelController P) LP := {
  _put_command := send;
  _get_event polls := event ← receive polls; lift (match event with Some e => Ok e | None => Err QueueEmpty end);
  alive c polls := bool_decide (_failure c = None) && negb (_closed c) &&
    match polls with p :: _ => negb (dead p) | [] => true end;
  _join_backend := shutdown;
  _close_channels c := c;
}.

(** ** The engine *)

Inductive _Lifecycle := STARTING | RUNNING | FAILED | CLOSING | CLOSED.
#[global] Instance lifecycle_eq_dec : EqDecision _Lifecycle.
Proof. solve_decision. Defined.

(** How a call of [generate] ends. *)
Inductive Outcome := Returned | Raised (e : exn) | RaisedItem (e : StreamError) | Closed.

(** Where it is: encoding the prompt, waiting for an item, suspended at a
    [yield] (of a last chunk or not), before the two halves of its [finally]. *)
Inductive Phase :=
  | Encoding
  | Waiting
  | Yielding (last : bool)
  | Leaving (o : Outcome)
  | Removed (o : Outcome)
  | Over (o : Outcome).

Record Call {LP : Type} := MkCall {
  prompt : Text.text;
  sampling_params : option SamplingParams;
  stream : _RequestStream LP;
  submitted : bool;
  phase : Phase;
  yielded : list (StreamedOutput LP);
}.
Arguments Call : clear implicits.

(** The receiver thread: in a [get], delivering the outputs of an event, in
    [_mark_failed] before the lock, in [fail_all] with the streams left. *)
Inductive Receiver {LP : Type} :=
  | NotStarted
  | Polling
  | Delivering (outs : list (RequestEvent LP))
  | Marking (message : string)
  | Failing (message : string) (todo : option (list nat))
  | Counting
  | Stopped
  | Crashed (e : exn).
Arguments Receiver : clear implicits.

(** The coroutine that runs [shutdown]: joining, then in [clear] with the
    streams left. *)
Inductive Shutdown := NoShutdown | Joining | Joined | Clearing (todo : list nat).

Record AsyncLLMEngine {B LP : Type} := MkEngine {
  calls : list (Call LP);
  _streams : gmap string nat;
  _snapshot : gmap string nat;
  _request_ids : nat;
  _utility_ids : nat;
  _state : _Lifecycle;
  _failure : option string;
  _receiver : Receiver LP;
  _stop_receiver : bool;
  _shutdown : Shutdown;
  backend : B;
}.
Arguments AsyncLLMEngine : clear implicits.

Section Engine.
Context {B LP : Type} `{!Backend B LP}.
Notation Engine := (AsyncLLMEngine B LP).
Implicit Types (s : Engine) (i : nat).

Definition set_calls l s : Engine :=
  MkEngine B LP l (_streams s) (_snapshot s) (_request_ids s) (_utility_ids s) (_state s) (_failure s) (_receiver s)
    (_stop_receiver s) (_shutdown s) (backend s).
(** [self._streams = m; self._snapshot = m.copy()] *)
Definition set_streams m s : Engine :=
  MkEngine B LP (calls s) m m (_request_ids s) (_utility_ids s) (_state s) (_failure s) (_receiver s)
    (_stop_receiver s) (_shutdown s) (backend s).
Definition set_ids n s : Engine :=
  MkEngine B LP (calls s) (_streams s) (_snapshot s) n (_utility_ids s) (_state s) (_failure s) (_receiver s)
    (_stop_receiver s) (_shutdown s) (backend s).
Definition set_utility_ids n s : Engine :=
  MkEngine B LP (calls s) (_streams s) (_snapshot s) (_request_ids s) n (_state s) (_failure s) (_receiver s)
    (_stop_receiver s) (_shutdown s) (backend s).
Definition set_state x s : Engine :=
  MkEngine B LP (calls s) (_streams s) (_snapshot s) (_request_ids s) (_utility_ids s) x (_failure s) (_receiver s)
    (_stop_receiver s) (_shutdown s) (backend s).
Definition set_failure x s : Engine :=
  MkEngine B LP (calls s) (_streams s) (_snapshot s) (_request_ids s) (_utility_ids s) (_state s) (Some x) (_receiver s)
    (_stop_receiver s) (_shutdown s) (backend s).
Definition set_receiver x s : Engine :=
  MkEngine B LP (calls s) (_streams s) (_snapshot s) (_request_ids s) (_utility_ids s) (_state s) (_failure s) x
    (_stop_receiver s) (_shutdown s) (backend s).
Definition set_stop s : Engine :=
  MkEngine B LP (calls s) (_streams s) (_snapshot s) (_request_ids s) (_utility_ids s) (_state s) (_failure s) (_receiver s)
    true (_shutdown s) (backend s).
Definition set_shutdown x s : Engine :=
  MkEngine B LP (calls s) (_streams s) (_snapshot s) (_request_ids s) (_utility_ids s) (_state s) (_failure s) (_receiver s)
    (_stop_receiver s) x (backend s).
Definition set_backend b s : Engine :=
  MkEngine B LP (calls s) (_streams s) (_snapshot s) (_request_ids s) (_utility_ids s) (_state s) (_failure s) (_receiver s)
    (_stop_receiver s) (_shutdown s) b.

Definition set_stream x (c : Call LP) : Call LP :=
  MkCall LP (prompt c) (sampling_params c) x (submitted c) (phase c) (yielded c).
Definition set_phase x (c : Call LP) : Call LP :=
  MkCall LP (prompt c) (sampling_params c) (stream c) (submitted c) x (yielded c).
Definition set_submitted (c : Call LP) : Call LP :=
  MkCall LP (prompt c) (sampling_params c) (stream c) true (phase c) (yielded c).
Definition set_yielded l (c : Call LP) : Call LP :=
  MkCall LP (prompt c) (sampling_params c) (stream c) (submitted c) (phase c) l.
Definition set_queue l (x : _RequestStream LP) : _RequestStream LP :=
  MkStream LP (request_id x) l (_detokenizer x) (_text x) (_completion_tokens x) (stream_finished x).

Definition on_call i (f : Call LP → Call LP) s : Engine := set_calls (alter f i (calls s)) s.

Definition on_backend {A} (m : St B A) : St Engine A := λ s, let '(r, b) := m (backend s) in (r, set_backend b s).

(** ** The request table *)

(** The stream [item] goes to, finished. *)
Definition finish_with (item : Item LP) i : Engine → Engine :=
  on_call i (λ c, set_stream (push item (set_finished (stream c))) c).

Definition register (c : Call LP) : St Engine unit :=
  streams ← gets _streams;
  _ ← require (negb (bool_decide (is_Some (streams !! request_id (stream c))))) ValueError;
  modify (λ s, set_calls (calls s ++ [c]) (set_streams (<[request_id (stream c) := length (calls s)]> streams) s)).

Definition remove (rid : string) i s : Engine :=
  if decide (_streams s !! rid = Some i) then set_streams (delete rid (_streams s)) s else s.

(** ** Clients *)

Definition _require_running : St Engine unit :=
  state ← gets _state;
  _ ← require (negb (bool_decide (state = FAILED))) RuntimeError;
  require (bool_decide (state = RUNNING)) RuntimeError.

Definition _start_receiver_locked s : Engine :=
  match _receiver s with NotStarted => set_receiver Polling s | _ => s end.

Definition start : St Engine unit := _ ← _require_running; modify _start_receiver_locked.

Definition numbered (n : nat) : string := "request-" +:+ pretty n.

(** [generate] up to its first [await]. *)
Definition generate_start (prompt : Text.text) (params : option SamplingParams) (rid : option string) : St Engine unit :=
  _ ← _require_running;
  _ ← modify _start_receiver_locked;
  rid ← match given rid with
        | Some rid => mret rid
        | None => n ← gets _request_ids; _ ← modify (set_ids (S n)); mret (numbered n)
        end;
  register (MkCall LP prompt params (new_stream rid) false Encoding []).

(** [tokenizer.encode], which may raise, and [tokenizer.decode] *)
Context (encode : Text.text → result (list Z)) (decode : list Z → Text.text).

(** The submission, when the prompt is encoded. *)
Definition submit i : St Engine unit :=
  calls ← gets calls;
  c ← lift (item calls i);
  token_ids ← lift (encode (prompt c));
  _ ← require (negb (bool_decide (token_ids = []))) ValueError;
  _ ← _require_running;
  _ ← on_backend (_put_command (CmdAdd (MkAdd (request_id (stream c)) token_ids
        (default default_params (sampling_params c)) true)));
  modify (on_call i set_submitted).

(** [stream.get()] and what follows it, up to the next [await] or [yield]. *)
Definition take_item (item : Item LP) (rest : list (Item LP)) (c : Call LP) : Call LP :=
  let c := set_stream (set_queue rest (stream c)) c in
  match item with
  | Chunk o => set_phase (Yielding (is_finished o)) (set_yielded (yielded c ++ [o]) c)
  | Raise e => set_phase (Leaving (RaisedItem e)) c
  | End => set_phase (Leaving Returned) c
  end.

Definition abort (rid : string) : St Engine unit :=
  state ← gets _state;
  if decide (state = RUNNING) then on_backend (_put_command (CmdAbort rid)) else mret tt.

(** ** The receiver thread *)

(** The end of a turn, where the thread leaves when it was told to. *)
Definition end_turn s : Engine := set_receiver (if _stop_receiver s then Stopped else Counting) s.

Definition _on_process_exit (message : string) s : Engine :=
  set_receiver (if decide (_state s = RUNNING) then Marking message else Stopped) s.

Definition _handle_event (event : SchedulerEvent LP) s : Engine :=
  match event with
  | EvFailed message => set_receiver (Marking message) s
  | EvEvents events => set_receiver (Delivering (outputs events)) s
  | _ => end_turn s
  end.

Definition exited : string := "exited unexpectedly".

(** One [get] of the loop. *)
Definition output_turn (polls : list (Poll LP)) s : Engine :=
  if _stop_receiver s then set_receiver Stopped s
  else
    match on_backend (_get_event polls) s with
    | (Ok event, s) => _handle_event event s
    | (Err QueueEmpty, s) =>
        if alive (backend s) polls then end_turn s else _on_process_exit exited s
    | (Err e, s) => set_receiver (Crashed e) s
    end.

(** One output of an event. *)
Definition deliver_one (output : RequestEvent LP) (outs : list (RequestEvent LP)) s : Engine :=
  match _snapshot s !! ev_request_id output ≫= λ i, c ← calls s !! i; Some (i, c) with
  | None => set_receiver (Delivering outs) s
  | Some (i, c) =>
      match push_event decode output (stream c) with
      | Ok x => set_receiver (Delivering outs) (on_call i (set_stream x) s)
      | Err e => set_receiver (Crashed e) s
      end
  end.

(** The locked part of [_mark_failed]; a failure that comes too late is dropped. *)
Definition _mark_failed (message : string) s : Engine :=
  if decide (_state s = RUNNING)
  then set_receiver (Failing message None) (set_stop (set_failure message (set_state FAILED s)))
  else end_turn s.

(** The periodic query, when it is due. *)
Definition query_stats (due : bool) s : Engine :=
  if due then
    match on_backend (_put_command (CmdUtility (Z.of_nat (_utility_ids s)) "step_stats")) (set_utility_ids (S (_utility_ids s)) s) with
    | (Ok _, s) => set_receiver Polling s
    | (Err e, s) => set_receiver (Crashed e) s
    end
  else set_receiver Polling s.

(** ** Shutdown *)

Definition shutdown_start s : Engine :=
  set_shutdown Joining (set_stop
    (suppress (on_backend (_put_command CmdShutdown)) (set_state CLOSING s)).2).

(** ** Steps *)

Inductive Action :=
  | Start
  | Generate (prompt : Text.text) (params : option SamplingParams) (rid : option string)
  | Submit i
  | Next i
  | Resume i
  | Close i
  | Remove i
  | Abort i
  | Receive (polls : list (Poll LP))
  | Deliver
  | Mark
  | Fail
  | Stats (due : bool)
  | ShutdownStart
  | Join
  | Clear
  | ClearOne.

(** A section that raises leaves its call for the [finally]. *)
Definition guarded i (m : St Engine unit) (ok : Phase) s : Engine :=
  match m s with
  | (Ok _, s) => on_call i (set_phase ok) s
  | (Err e, s) => on_call i (set_phase (Leaving (Raised e))) s
  end.

Definition client_step (a : Action) i (c : Call LP) s : option Engine :=
  match a, phase c with
  | Submit _, Encoding => Some (guarded i (submit i) Waiting s)
  | Next _, Waiting =>
      match _queue (stream c) with
      | [] => None
      | item :: rest => Some (on_call i (take_item item rest) s)
      end
  | Resume _, Yielding last => Some (on_call i (set_phase (if last then Leaving Returned else Waiting)) s)
  | Close _, (Encoding | Waiting | Yielding _) => Some (on_call i (set_phase (Leaving Closed)) s)
  | Remove _, Leaving o => Some (on_call i (set_phase (Removed o)) (remove (request_id (stream c)) i s))
  | Abort _, Removed o =>
      Some (if submitted c && negb (stream_finished (stream c))
            then match abort (request_id (stream c)) s with
                 | (Ok _, s) => on_call i (set_phase (Over o)) s
                 | (Err e, s) => on_call i (set_phase (Over (Raised e))) s
                 end
            else on_call i (set_phase (Over o)) s)
  | _, _ => None
  end.

Definition receiver_step (a : Action) s : option Engine :=
  match a, _receiver s with
  | Receive polls, Polling => Some (output_turn polls s)
  | Deliver, Delivering [] => Some (end_turn s)
  | Deliver, Delivering (output :: outs) => Some (deliver_one output outs s)
  | Mark, Marking message => Some (_mark_failed message s)
  | Fail, Failing message None => Some (set_receiver (Failing message (Some (snd <$> map_to_list (_snapshot s)))) s)
  | Fail, Failing message (Some (i :: rest)) =>
      Some (set_receiver (Failing message (Some rest)) (finish_with (Raise (ProcessError message)) i s))
  | Fail, Failing _ (Some []) => Some (end_turn s)
  | Stats due, Counting => Some (query_stats due s)
  | _, _ => None
  end.

Definition shutdown_step (a : Action) s : option Engine :=
  match a, _shutdown s with
  | ShutdownStart, NoShutdown => Some (shutdown_start s)
  | Join, Joining => Some (set_shutdown Joined (on_backend _join_backend s).2)
  | Clear, Joined => Some (set_shutdown (Clearing (snd <$> map_to_list (_streams s))) (set_streams ∅ s))
  | ClearOne, Clearing (i :: rest) => Some (set_shutdown (Clearing rest) (finish_with End i s))
  | ClearOne, Clearing [] => if decide (_state s = CLOSED) then None else Some (set_state CLOSED (set_backend (_close_channels (backend s)) s))
  | _, _ => None
  end.

Definition step (a : Action) s : option Engine :=
  match a with
  | Start => Some (start s).2
  | Generate prompt params rid => Some (generate_start prompt params rid s).2
  | Submit i | Next i | Resume i | Close i | Remove i | Abort i => c ← calls s !! i; client_step a i c s
  | Receive _ | Deliver | Mark | Fail | Stats _ => receiver_step a s
  | ShutdownStart | Join | Clear | ClearOne => shutdown_step a s
  end.

(** [generate_text]: the last output of a call that is over; a closed call has no answer. *)
Definition generate_text (c : Call LP) : option (result (StreamedOutput LP)) :=
  match phase c with
  | Over Returned => Some (match last (yielded c) with None => Err RuntimeError | Some o => Ok o end)
  | Over (Raised e) => Some (Err e)
  | Over (RaisedItem (EventError _)) => Some (Err ValueError)
  | Over (RaisedItem (ProcessError _)) => Some (Err RuntimeError)
  | _ => None
  end.

(** A new engine, its backend ready. *)
Definition new_engine (b : B) : Engine := MkEngine B LP [] ∅ ∅ 0 0 RUNNING None NotStarted false NoShutdown b.

(** The startup of a scheduler process over its turns, each whether the
    timeout has passed and what arrives; [None] when the turns run out. *)
Fixpoint _await_ready (turns : list (bool * list (Poll LP))) : St B (option SchedulerReady) :=
  match turns with
  | [] => mret None
  | (timed_out, polls) :: turns =>
      _ ← require (negb timed_out) TimeoutError;
      event ← catch (e ← _get_event polls; mret (Some e)) (λ e,
        if decide (e = QueueEmpty)
        then b ← gets id; _ ← require (alive b polls) RuntimeError; mret None
        else raise e);
      match event with
      | Some (EvFailed _) => raise RuntimeError
      | Some (EvReady ready) =>
          _ ← require (bool_decide (protocol_version ready = PROTOCOL_VERSION)) RuntimeError;
          mret (Some ready)
      | _ => _await_ready turns
      end
  end.

(** The constructor with a scheduler process of its own. *)
Definition launch (turns : list (bool * list (Poll LP))) : St B (option Engine) :=
  ready ← on_error (_await_ready turns) (modify _close_channels);
  match ready with
  | None => mret None
  | Some _ => b ← gets id; mret (Some (new_engine b))
  end.

Inductive reachable (b : B) : Engine → Prop :=
  | reach_new : reachable b (new_engine b)
  | reach_step s a s' : reachable b s → step a s = Some s' → reachable b s'.
End Engine.

(** [from_pretrained]: whether a data-parallel controller is built. *)
Definition from_pretrained (data_parallel_size : Z) (enable_dp_attention : bool) : result bool :=
  if (1 <? data_parallel_size)%Z then Ok true
  else _ ← rguard (negb enable_dp_attention) ValueError; Ok false.
End Async.
