(* ===== verification/AsyncInv.v ===== *)
(** * Who is looked after, and what a stream says

    The invariant of the asynchronous engine behind both of its properties: a
    call that waits has its last item queued, or a thread that will queue it. *)

From S2P Require Export AsyncEngine.

Module AsyncInv.
Import LoadPolicy Loop Sched Router Async.

Section Engine.
Context {B LP : Type} `{!Backend B LP}.
Context (encode : Text.text → result (list Z)) (decode : list Z → Text.text).
Notation Engine := (AsyncLLMEngine B LP).
Implicit Types (s : Engine) (c : Call LP) (i : nat).

(** ** Streams *)

(** After this item a call leaves. *)
Definition terminal (item : Item LP) : Prop :=
  match item with Chunk o => is_finished o = true | _ => True end.
Definition ends c : Prop := Exists terminal (_queue (stream c)).

Lemma append_all_total ids : ∀ d, 0 < length d →
  ∃ t d', Detok.append_all decode 0 ids d = Ok (t, d') ∧ length d' = length d.
Proof.
  induction ids as [|id ids IH]; intros d Hd; [by exists [], d|].
  cbn [Detok.append_all]. unfold Detok.append, Detok.get_state. destruct d as [|st d]; [cbn in Hd; lia|]. cbn [lookup list_lookup].
  cbn [mbind result_bind]. destruct (Detok.append_state decode id st) as [t1 st1]. cbn [mbind result_bind].
  destruct (IH (st1 :: d)) as (t & d' & E & Hl); [cbn; lia|]. change (<[0 := st1]> (st :: d)) with (st1 :: d). rewrite E. cbn [mbind result_bind].
  exists (t1 ++ t), d'. split; [done|]. by rewrite Hl.
Qed.

(** An event only adds to the queue. *)
Lemma push_event_adds event (x : _RequestStream LP) :
  0 < length (_detokenizer x) →
  ∃ x' items, push_event decode event x = Ok x' ∧ request_id x' = request_id x ∧
    _queue x' = _queue x ++ items ∧ length (_detokenizer x') = length (_detokenizer x).
Proof.
  intros Hd. unfold push_event. destruct (ev_error event) as [e|]; [by eexists _, _|].
  destruct (append_all_total (new_token_ids event) (_detokenizer x) Hd) as (t & d' & E & Hl).
  rewrite E. cbn [mbind result_bind].
  destruct (decide (new_token_ids event = [])), (finished event);
    (case_decide; [eexists _, []|eexists _, [_]]); (split; [reflexivity|]); cbn; by rewrite ?app_nil_r.
Qed.

(** ** Calls *)

(** Before the [finally]. *)
Definition present (p : Phase) : Prop := match p with Removed _ | Over _ => False | _ => True end.
(** Waiting, or about to. *)
Definition waits (p : Phase) : Prop := match p with Waiting | Yielding false => True | _ => False end.

Definition clearing s : Prop := match _shutdown s with Clearing _ => True | _ => False end.

(** A thread has still to end the stream of call [i]. *)
Definition cared_for s i : Prop :=
  match _state s with
  | RUNNING => True
  | FAILED => match _receiver s with
              | Failing _ None => True
              | Failing _ (Some todo) => i ∈ todo
              | _ => False
              end
  | _ => match _shutdown s with
         | Joining | Joined => True
         | Clearing todo => i ∈ todo
         | NoShutdown => False
         end
  end.

Record wf s : Prop := {
  wf_snapshot : _snapshot s = _streams s;
  wf_streams rid i : _streams s !! rid = Some i → ∃ c, calls s !! i = Some c ∧ request_id (stream c) = rid ∧ present (phase c);
  wf_present i c : calls s !! i = Some c → present (phase c) → ¬ clearing s → _streams s !! request_id (stream c) = Some i;
  wf_waits i c : calls s !! i = Some c → waits (phase c) → ends c ∨ cared_for s i;
  wf_detok i c : calls s !! i = Some c → length (_detokenizer (stream c)) = 1;
  wf_shutdown : match _state s with
    | RUNNING | FAILED => _shutdown s = NoShutdown
    | CLOSING => _shutdown s ≠ NoShutdown
    | CLOSED => _shutdown s = Clearing []
    | STARTING => False
    end;
  wf_receiver : match _receiver s with
    | Failing _ _ => _state s ≠ RUNNING ∧ _stop_receiver s = true
    | Stopped => _state s ≠ RUNNING
    | NotStarted => calls s = [] ∧ _state s ≠ FAILED
    | _ => _state s ≠ FAILED
    end;
  wf_stop : _stop_receiver s = true ↔ _state s ≠ RUNNING;
}.

Lemma new_wf b : wf (new_engine b).
Proof. split; cbn; try done; try (intros *; by rewrite lookup_empty). Qed.

(** ** Changes that keep the invariant *)

Lemma lookup_on_call i f s j :
  calls (on_call i f s) !! j = if decide (j = i) then f <$> calls s !! j else calls s !! j.
Proof.
  cbn. case_decide as E; [subst; apply list_lookup_alter_eq|]. by apply list_lookup_alter_ne.
Qed.

(** A call changes: it stays registered as long as it was, or leaves the table. *)
Lemma wf_call i f s c :
  wf s → calls s !! i = Some c →
  request_id (stream (f c)) = request_id (stream c) → length (_detokenizer (stream (f c))) = 1 →
  (present (phase (f c)) → present (phase c)) →
  (present (phase c) → present (phase (f c)) ∨ _streams s !! request_id (stream c) ≠ Some i) →
  (waits (phase (f c)) → ends (f c) ∨ cared_for s i) →
  wf (on_call i f s).
Proof.
  intros [Hsn Hst Hpr Hw Hd Hsh Hrec Hstop] Hi Hrid Hdet Hp1 Hp2 Hwait. split; try done.
  - intros rid j Hj. destruct (Hst rid j Hj) as (cj & Hcj & <- & Hpj). rewrite lookup_on_call.
    case_decide as E; [subst j|by eauto]. rewrite Hi in *. injection Hcj as <-. exists (f c). split; [done|]. split; [done|].
    by destruct (Hp2 Hpj).
  - intros j cj. rewrite lookup_on_call. case_decide as E; [|by apply Hpr]. subst j. rewrite Hi. intros [= <-] Hp Hc.
    rewrite Hrid. apply (Hpr i c Hi); [by apply Hp1|done].
  - intros j cj. rewrite lookup_on_call. case_decide as E; [|by apply Hw]. subst j. rewrite Hi. intros [= <-]. done.
  - intros j cj. rewrite lookup_on_call. case_decide as E; [|by apply Hd]. subst j. rewrite Hi. by intros [= <-].
  - cbn. destruct (_receiver s) eqn:Er; try done. destruct Hrec as [Hnil _]. by rewrite Hnil in Hi.
Qed.

Lemma wf_backend b s : wf s → wf (set_backend b s).
Proof. intros []. by split. Qed.

(** The backend is all that a command changes. *)
Lemma on_backend_run {A} (m : St B A) s : ∃ r b, on_backend m s = (r, set_backend b s).
Proof. unfold on_backend. destruct (m (backend s)) as [r b]. by exists r, b. Qed.

Definition receiver_ok s (r : Receiver LP) : Prop :=
  match r with
  | Failing _ _ => _state s ≠ RUNNING ∧ _stop_receiver s = true
  | Stopped => _state s ≠ RUNNING
  | NotStarted => False
  | _ => _state s ≠ FAILED
  end.

Lemma wf_set_receiver r s :
  wf s → receiver_ok s r →
  (_state s = FAILED → ∀ i c, calls s !! i = Some c → waits (phase c) → ends c ∨ cared_for (set_receiver r s) i) →
  wf (set_receiver r s).
Proof.
  intros [Hsn Hst Hpr Hw Hd Hsh Hrec Hstop] Hr Hf. split; try done; [|cbn; by destruct r].
  intros i c Hi Hc. destruct (decide (_state s = FAILED)) as [E|E]; [by apply Hf|].
  destruct (Hw i c Hi Hc) as [|Hcare]; [by left|right]. unfold cared_for in *. cbn in *. by destruct (_state s).
Qed.

Lemma wf_receiver_running r s : wf s → _state s ≠ FAILED → receiver_ok s r → wf (set_receiver r s).
Proof. intros Hw Hs Hr. by apply wf_set_receiver. Qed.

Lemma end_turn_wf s : wf s → _state s ≠ FAILED → wf (end_turn s).
Proof.
  intros Hw Hs. unfold end_turn. apply wf_receiver_running; [done..|]. destruct (_stop_receiver s) eqn:E; [|done].
  cbn. by apply (wf_stop s Hw).
Qed.

(** The item is the last: whoever waits for it will leave. *)
Lemma push_wf item i c s :
  wf s → calls s !! i = Some c → wf (on_call i (λ c, set_stream (push item (set_finished (stream c))) c) s).
Proof.
  intros Hw Hi. eapply wf_call; [done|exact Hi|done|by apply (wf_detok s Hw i c)|done|by left|].
  intros Hc. destruct (wf_waits s Hw i c Hi Hc) as [He|]; [left|by right].
  unfold ends in *. cbn. apply Exists_app. by left.
Qed.

Lemma finish_with_wf item i s : wf s → wf (finish_with item i s).
Proof.
  intros Hw. unfold finish_with. destruct (calls s !! i) as [c|] eqn:Hi; [by eapply push_wf|].
  assert (on_call i (λ c, set_stream (push item (set_finished (stream c))) c) s = s) as ->; [|done].
  unfold on_call. assert (alter (λ c, set_stream (push item (set_finished (stream c))) c) i (calls s) = calls s) as ->.
  { apply list_eq. intros j. destruct (decide (j = i)) as [->|]; [by rewrite list_lookup_alter_eq, Hi|by rewrite list_lookup_alter_ne]. }
  by destruct s.
Qed.

(** ** Clients *)

Lemma require_running_run s :
  (_state s = RUNNING ∧ _require_running s = (Ok tt, s)) ∨ (_state s ≠ RUNNING ∧ _require_running s = (Err RuntimeError, s)).
Proof.
  unfold _require_running. st_prim. destruct (decide (_state s = RUNNING)) as [E|E].
  - left. split; [done|]. rewrite E. done.
  - right. split; [done|]. rewrite run_bind. case_bool_decide; cbn [negb rguard]; [done|]. by rewrite bool_decide_false.
Qed.

Lemma start_receiver_wf s : wf s → _state s = RUNNING → wf (_start_receiver_locked s).
Proof.
  intros Hw Hs. unfold _start_receiver_locked. destruct (_receiver s); try done.
  apply wf_receiver_running; [done|congruence|cbn; congruence].
Qed.

Lemma start_receiver_started s : match _receiver (_start_receiver_locked s) with NotStarted => False | _ => True end.
Proof. unfold _start_receiver_locked. by destruct (_receiver s) eqn:E; cbn; rewrite ?E. Qed.

Lemma register_wf prompt params rid s :
  wf s → _state s = RUNNING → match _receiver s with NotStarted => False | _ => True end →
  wf (register (MkCall LP prompt params (new_stream rid) false Encoding []) s).2.
Proof.
  intros Hw Hs Hstarted. unfold register. st_prim. cbn [stream new_stream request_id].
  destruct (_streams s !! rid) as [k|] eqn:Ek; [by rewrite bool_decide_true by done|].
  rewrite bool_decide_false by (by intros [? ?]). cbn [negb rguard]. st_prim. cbn [snd].
  destruct Hw as [Hsn Hst Hpr Hwt Hd Hsh Hrec Hstop]. set (c := MkCall _ _ _ _ _ _ _).
  assert (Hlast : ∀ i x, (calls s ++ [c]) !! i = Some x → calls s !! i = Some x ∨ (i = length (calls s) ∧ x = c)).
  { intros i x. rewrite lookup_snoc_Some. naive_solver. }
  split; cbn [set_calls set_streams calls _streams _snapshot _state _shutdown _receiver _stop_receiver]; try done.
  - intros rid' i. rewrite lookup_insert_Some. intros [[<- <-]|[Hne Hi]].
    + exists c. by rewrite list_lookup_middle.
    + destruct (Hst rid' i Hi) as (x & Hx & ? & ?). exists x. by rewrite lookup_app_l by (by eapply lookup_lt_Some).
  - intros i x [Hi|[-> ->]]%Hlast Hp Hc; [|by rewrite lookup_insert_eq].
    rewrite lookup_insert_ne; [by apply (Hpr i x)|]. intros E. specialize (Hpr i x Hi Hp Hc). congruence.
  - intros i x [Hi|[-> ->]]%Hlast Hx; [by apply Hwt|done].
  - intros i x [Hi|[-> ->]]%Hlast; [by apply (Hd i x)|done].
  - by destruct (_receiver s).
Qed.

Lemma generate_start_wf prompt params rid s : wf s → wf (generate_start prompt params rid s).2.
Proof.
  intros Hw. unfold generate_start. rewrite run_bind. destruct (require_running_run s) as [[Hs ->]|[_ ->]]; [|done].
  st_prim. assert (Hw1 : wf (_start_receiver_locked s)) by (by apply start_receiver_wf).
  pose proof (start_receiver_started s) as Hst. set (s1 := _start_receiver_locked s) in *.
  assert (Hs1 : _state s1 = RUNNING) by (unfold s1, _start_receiver_locked; by destruct (_receiver s)).
  destruct (given rid) as [r|]; [by apply register_wf|].
  st_prim. apply register_wf; [destruct Hw1; by split|done|done].
Qed.

Lemma submit_run i s c :
  calls s !! i = Some c →
  (∃ b, _state s = RUNNING ∧ submit encode i s = (Ok tt, on_call i set_submitted (set_backend b s))) ∨
  ∃ e b, submit encode i s = (Err e, set_backend b s).
Proof.
  intros Hi. unfold submit. st_prim. rewrite (item_Ok _ _ _ Hi). st_prim.
  assert (Hsame : set_backend (backend s) s = s) by (by destruct s).
  destruct (encode (prompt c)) as [ids|e]; [|right; exists e, (backend s); by rewrite Hsame].
  case_bool_decide; cbn [negb rguard]; [right; exists ValueError, (backend s); by rewrite Hsame|].
  st_prim. destruct (require_running_run s) as [[Hs ->]|[_ ->]]; [|right; exists RuntimeError, (backend s); by rewrite Hsame].
  rewrite run_bind. destruct (on_backend_run (_put_command (CmdAdd (MkAdd (request_id (stream c)) ids
    (default default_params (sampling_params c)) true))) s) as ([u|e] & b & ->); [left|right]; by eauto.
Qed.

Lemma on_call_twice i f g s : on_call i f (on_call i g s) = on_call i (f ∘ g) s.
Proof.
  unfold on_call, set_calls. cbn. f_equal. apply list_eq. intros j. destruct (decide (j = i)) as [->|Hne].
  - rewrite !list_lookup_alter_eq. by destruct (calls s !! i).
  - by rewrite !list_lookup_alter_ne.
Qed.

Lemma abort_run rid s : ∃ r b, abort rid s = (r, set_backend b s).
Proof.
  unfold abort. st_prim. case_decide; [apply on_backend_run|]. exists (Ok tt), (backend s). by destruct s.
Qed.

Lemma remove_wf i c s :
  wf s → calls s !! i = Some c → (∃ o, phase c = Leaving o) →
  ∀ o, wf (on_call i (set_phase (Removed o)) (remove (request_id (stream c)) i s)).
Proof.
  intros Hw Hi [o0 Ho0] o. unfold remove. case_decide as E.
  2: { eapply wf_call; try done; [by apply (wf_detok s Hw i c)|by right]. }
  destruct Hw as [Hsn Hst Hpr Hwt Hd Hsh Hrec Hstop]. split; try done.
  - intros rid j. cbn [set_streams _streams on_call set_calls]. intros [Hne Hj]%lookup_delete_Some.
    destruct (Hst rid j Hj) as (cj & Hcj & <- & Hp). rewrite lookup_on_call. cbn [set_streams calls]. case_decide as Ej; [|by eauto].
    subst j. rewrite Hi in Hcj. injection Hcj as <-. done.
  - intros j cj. rewrite lookup_on_call. cbn [set_streams calls _streams on_call set_calls]. case_decide as Ej.
    + subst j. rewrite Hi. by intros [= <-].
    + intros Hj Hp Hc. specialize (Hpr j cj Hj Hp Hc). rewrite lookup_delete_ne; [done|]. intros Er. rewrite Er in E. congruence.
  - intros j cj. rewrite lookup_on_call. cbn [set_streams calls]. case_decide as Ej; [subst j; rewrite Hi; by intros [= <-]|].
    intros Hj Hwj. by apply Hwt.
  - intros j cj. rewrite lookup_on_call. cbn [set_streams calls]. case_decide as Ej; [subst j; rewrite Hi; intros [= <-]; by apply (Hd i c)|].
    by apply Hd.
  - cbn. destruct (_receiver s) eqn:Er; try done. destruct Hrec as [Hnil _]. by rewrite Hnil in Hi.
Qed.

Lemma client_step_wf a i c s s' :
  wf s → calls s !! i = Some c → client_step encode a i c s = Some s' → wf s'.
Proof.
  intros Hw Hi. pose proof (wf_detok s Hw i c Hi) as Hdet. pose proof (wf_waits s Hw i c Hi) as Hwait.
  assert (Hleave : ∀ b p, (∀ o, p ≠ Removed o) → (∀ o, p ≠ Over o) → present (phase c) →
    (waits p → ends c ∨ cared_for s i) → wf (on_call i (set_phase p) (set_backend b s))).
  { intros b p H1 H2 Hp H3. eapply wf_call; [by apply wf_backend|exact Hi|done|done|done| |exact H3].
    intros _. left. destruct p; try done; [by destruct (H1 o)|by destruct (H2 o)]. }
  assert (Hsame : set_backend (backend s) s = s) by (by destruct s).
  unfold client_step. destruct a, (phase c) as [| |l|o|o|o] eqn:Ep; try done.
  - intros [= <-]. unfold guarded. destruct (submit_run i s c Hi) as [(b & Hs & ->)|(e & b & ->)].
    + rewrite on_call_twice. eapply wf_call; [by apply wf_backend|exact Hi|done|done|by rewrite Ep|by left|].
      intros _. right. unfold cared_for. cbn. by rewrite Hs.
    + apply Hleave; done.
  - destruct (_queue (stream c)) as [|it rest] eqn:Eq; [done|]. intros [= <-].
    eapply wf_call; [done|exact Hi| | |by rewrite Ep| |].
    1,2: by destruct it.
    { intros _. left. by destruct it. }
    destruct it as [o|e|]; try done. unfold take_item. cbn. destruct (is_finished o) eqn:Ef; [done|]. intros _.
    destruct Hwait as [He|]; [done| |by right]. left. unfold ends in *. cbn. rewrite Eq, Exists_cons in He.
    destruct He as [He|]; [|done]. cbn in He. congruence.
  - intros [= <-]. rewrite <- Hsame at 1. apply Hleave; by destruct l.
  - intros [= <-]. rewrite <- Hsame at 1. by apply Hleave.
  - intros [= <-]. rewrite <- Hsame at 1. by apply Hleave.
  - intros [= <-]. rewrite <- Hsame at 1. by apply Hleave.
  - intros [= <-]. by apply remove_wf; eauto.
  - assert (Hover : ∀ b o', wf (on_call i (set_phase (Over o')) (set_backend b s))).
    { intros b o'. eapply wf_call; [by apply wf_backend|exact Hi|done|done|done|by rewrite Ep|done]. }
    intros [= <-]. destruct (submitted c && _); [|rewrite <- Hsame at 1; apply Hover].
    destruct (abort_run (request_id (stream c)) s) as ([u|e] & b & ->); apply Hover.
Qed.

(** ** The receiver *)

Lemma output_turn_wf polls s : wf s → _receiver s = Polling → wf (output_turn polls s).
Proof.
  intros Hw Er. pose proof (wf_receiver s Hw) as Hrec. rewrite Er in Hrec. unfold output_turn.
  destruct (_stop_receiver s) eqn:Estop.
  { apply wf_receiver_running; [done..|]. cbn. by apply (wf_stop s Hw). }
  destruct (on_backend_run (_get_event polls) s) as (r & b & ->). pose proof (wf_backend b s Hw) as Hwb.
  destruct r as [event|e].
  - destruct event; cbn [_handle_event]; try (by apply end_turn_wf); by apply wf_receiver_running.
  - destruct e; try (by apply wf_receiver_running). destruct (alive (backend _) polls); [by apply end_turn_wf|].
    unfold _on_process_exit. case_decide; by apply wf_receiver_running.
Qed.

Lemma deliver_one_wf output outs s :
  wf s → _state s ≠ FAILED → wf (deliver_one decode output outs s).
Proof.
  intros Hw Hs. unfold deliver_one. destruct (_snapshot s !! ev_request_id output) as [i|] eqn:Ei; cbn [mbind option_bind];
    [|by apply wf_receiver_running].
  destruct (calls s !! i) as [c|] eqn:Hi; cbn [mbind option_bind]; [|by apply wf_receiver_running].
  pose proof (wf_detok s Hw i c Hi) as Hdet.
  destruct (push_event_adds output (stream c)) as (x & items & -> & Hrid & Hq & Hl); [lia|].
  apply wf_receiver_running; [|done|done]. eapply wf_call; [done|exact Hi|done|cbn; by rewrite Hl|done|by left|].
  intros Hc. destruct (wf_waits s Hw i c Hi Hc) as [He|]; [left|by right]. unfold ends in *. cbn. rewrite Hq, Exists_app. by left.
Qed.

Lemma registered_listed s i c :
  wf s → calls s !! i = Some c → present (phase c) → ¬ clearing s →
  i ∈ snd <$> map_to_list (_streams s).
Proof.
  intros Hw Hi Hp Hc. pose proof (wf_present s Hw i c Hi Hp Hc) as Hr. apply list_elem_of_fmap.
  exists (request_id (stream c), i). split; [done|]. by apply elem_of_map_to_list.
Qed.

Lemma waits_present p : waits p → present p.
Proof. by destruct p. Qed.

(** Ending one more stream: those still to be ended are the others. *)
Lemma finish_with_waits item i rest s j c :
  terminal item → wf s → (∀ j c, calls s !! j = Some c → waits (phase c) → ends c ∨ j ∈ i :: rest) →
  calls (finish_with item i s) !! j = Some c → waits (phase c) → ends c ∨ j ∈ rest.
Proof.
  intros Ht Hw Hall. unfold finish_with. rewrite lookup_on_call. case_decide as E.
  - subst j. intros (c0 & Hi & ->)%fmap_Some _. left. unfold ends. cbn. apply Exists_app. right. by apply Exists_cons_hd.
  - intros Hj Hwt. destruct (Hall j c Hj Hwt) as [|[|]%elem_of_cons]; [by left|done|by right].
Qed.

Lemma receiver_step_wf a s s' : wf s → receiver_step decode a s = Some s' → wf s'.
Proof.
  intros Hw. pose proof (wf_receiver s Hw) as Hrec. unfold receiver_step.
  destruct a; try done; destruct (_receiver s) as [| |outs|message|message todo| | |] eqn:Er; try done.
  - intros [= <-]. by apply output_turn_wf.
  - destruct outs as [|output outs]; intros [= <-]; [by apply end_turn_wf|by apply deliver_one_wf].
  - intros [= <-]. unfold _mark_failed. case_decide as Es; [|by apply end_turn_wf].
    destruct Hw as [Hsn Hst Hpr Hwt Hd Hsh Hrec' Hstop]. split; try done.
    + intros i c Hi Hc. by right.
    + cbn in *. by rewrite Es in Hsh.
  - destruct Hrec as [Hs Hstop]. destruct todo as [[|i rest]|]; intros [= <-].
    + unfold end_turn. rewrite Hstop. apply wf_set_receiver; [done..|]. intros Hf j c Hj Hc.
      destruct (wf_waits s Hw j c Hj Hc) as [|Hcare]; [by left|]. exfalso. unfold cared_for in Hcare. rewrite Hf, Er in Hcare.
      by apply elem_of_nil in Hcare.
    + apply wf_set_receiver; [by apply finish_with_wf|done|]. intros Hf j c Hj Hc.
      change (_state (finish_with (Raise (ProcessError message)) i s)) with (_state s) in Hf.
      destruct (finish_with_waits (Raise (ProcessError message)) i rest s j c) as [|Hin]; [done|done| |done|done|by left|right].
      * intros k x Hk Hx. destruct (wf_waits s Hw k x Hk Hx) as [|Hcare]; [by left|right].
        unfold cared_for in Hcare. by rewrite Hf, Er in Hcare.
      * unfold cared_for. cbn. by rewrite Hf.
    + apply wf_set_receiver; [done..|]. intros Hf j c Hj Hc. right. unfold cared_for. cbn. rewrite Hf.
      rewrite (wf_snapshot s Hw). eapply registered_listed; [done|exact Hj|by apply waits_present|].
      pose proof (wf_shutdown s Hw) as Hsh. unfold clearing. rewrite Hf in Hsh. cbn in Hsh. rewrite Hsh. tauto.
  - intros [= <-]. unfold query_stats. destruct due; [|by apply wf_receiver_running].
    assert (Hw' : wf (set_utility_ids (S (_utility_ids s)) s)) by (destruct Hw; by split).
    destruct (on_backend_run (_put_command (CmdUtility (Z.of_nat (_utility_ids s)) "step_stats"))
      (set_utility_ids (S (_utility_ids s)) s)) as ([u|e] & b & ->);
      (apply wf_receiver_running; [by apply wf_backend|done|done]).
Qed.

(** ** Shutdown *)

Lemma shutdown_step_wf a s s' : wf s → shutdown_step a s = Some s' → wf s'.
Proof.
  intros Hw. pose proof (wf_shutdown s Hw) as Hsh. unfold shutdown_step.
  destruct a; try done; destruct (_shutdown s) as [| | |todo] eqn:Es; try done.
  - intros [= <-]. unfold shutdown_start, suppress.
    destruct (on_backend_run (_put_command CmdShutdown) (set_state CLOSING s)) as (r & b & ->). cbn [snd].
    destruct Hw as [Hsn Hst Hpr Hwt Hd _ Hrec Hstop]. split; try done.
    + intros i c Hi Hp _. apply (Hpr i c Hi Hp). unfold clearing. rewrite Es. tauto.
    + intros i c _ _. by right.
    + cbn. destruct (_receiver s); naive_solver.
  - intros [= <-]. destruct (on_backend_run _join_backend s) as (r & b & ->). cbn [snd].
    destruct Hw as [Hsn Hst Hpr Hwt Hd _ Hrec Hstop]. split; try done.
    + intros i c Hi Hp _. apply (Hpr i c Hi Hp). unfold clearing. rewrite Es. tauto.
    + intros i c Hi Hc. destruct (Hwt i c Hi Hc) as [|Hcare]; [by left|right]. unfold cared_for in *. cbn.
      destruct (_state s); rewrite ?Es in *; done.
    + cbn. destruct (_state s); done.
  - intros [= <-]. destruct Hw as [Hsn Hst Hpr Hwt Hd Hsh' Hrec Hstop].
    assert (Hlist : ∀ i c, calls s !! i = Some c → waits (phase c) → i ∈ snd <$> map_to_list (_streams s)).
    { intros i c Hi Hc. eapply (registered_listed s i c); [by split|done|by apply waits_present|]. unfold clearing. rewrite Es. tauto. }
    split; try done.
    + intros i c Hi Hc. right. specialize (Hlist i c Hi Hc). unfold cared_for. cbn. destruct (_state s); done.
    + cbn. destruct (_state s); done.
  - destruct todo as [|i rest].
    + case_decide as Ec; [done|]. intros [= <-]. destruct Hw as [Hsn Hst Hpr Hwt Hd Hsh' Hrec Hstop]. split; try done.
      * intros i c Hi Hc. destruct (Hwt i c Hi Hc) as [|Hcare]; [by left|]. exfalso. unfold cared_for in Hcare.
        destruct (_state s); try done; rewrite Es in Hcare; by apply elem_of_nil in Hcare.
      * cbn. destruct (_receiver s); naive_solver.
      * cbn. destruct (_state s); naive_solver.
    + intros [= <-]. pose proof (finish_with_wf End i s Hw) as Hw'.
      assert (Hst : _state s = CLOSING) by (destruct (_state s); done).
      destruct Hw' as [Hsn Hs' Hpr Hwt Hd _ Hrec Hstop]. split; try done.
      * intros j c Hj Hc. destruct (finish_with_waits End i rest s j c) as [|Hin]; [done|done| |done|done|by left|right].
        -- intros k x Hk Hx. destruct (wf_waits s Hw k x Hk Hx) as [|Hcare]; [by left|right].
           unfold cared_for in Hcare. by rewrite Hst, Es in Hcare.
        -- unfold cared_for. cbn. by rewrite Hst.
      * cbn. by rewrite Hst.
Qed.

(** ** Every step *)

Lemma step_wf a s s' : wf s → step encode decode a s = Some s' → wf s'.
Proof.
  intros Hw. destruct a; cbn [step]; try (by apply receiver_step_wf); try (by apply shutdown_step_wf).
  - intros [= <-]. unfold start. rewrite run_bind. destruct (require_running_run s) as [[Hs ->]|[_ ->]]; [|done].
    by apply start_receiver_wf.
  - intros [= <-]. by apply generate_start_wf.
  - intros (c & Hi & Hc)%bind_Some. by eapply client_step_wf.
  - intros (c & Hi & Hc)%bind_Some. by eapply client_step_wf.
  - intros (c & Hi & Hc)%bind_Some. by eapply client_step_wf.
  - intros (c & Hi & Hc)%bind_Some. by eapply client_step_wf.
  - intros (c & Hi & Hc)%bind_Some. by eapply client_step_wf.
  - intros (c & Hi & Hc)%bind_Some. by eapply client_step_wf.
Qed.

Lemma async_reachable_wf b s : reachable encode decode b s → wf s.
Proof. induction 1; [apply new_wf|by eapply step_wf]. Qed.
End Engine.
End AsyncInv.
