(* ===== verification/AsyncSpec.v ===== *)
(** * Every call of the asynchronous engine ends

    After a shutdown or a failure each client comes to the end of its call by
    its own steps; and behind a backend whose death shows as an empty queue the
    receiver brings every failure to the clients. *)

From S2P Require Export AsyncInv.

Module AsyncSpec.
Import LoadPolicy Loop Sched Router Async AsyncInv.

(** What one timeout brings from a dead process. *)
Definition dead_poll {LP} : list (Poll LP) := [MkPoll false None true true].

(** A backend that takes every command, raises nothing but [queue.Empty], and
    whose death is seen. *)
Class LivelyBackend (B LP : Type) `{!Backend B LP} := {
  lively : B → Prop;
  put_lively command b : lively b → ∃ b', _put_command command b = (Ok tt, b') ∧ lively b';
  get_lively polls b : lively b →
    match _get_event polls b with (Ok _, b') => lively b' | (Err e, b') => e = QueueEmpty ∧ lively b' end;
  join_lively b : lively b → lively (_join_backend b).2;
  death_seen b : lively b → _get_event dead_poll b = (Err QueueEmpty, b) ∧ alive b dead_poll = false;
}.

#[global] Program Instance process_lively {LP} : LivelyBackend CommandQueue LP := {| lively q := is_open q = true |}.
Next Obligation. intros LP command q Hq. cbn. rewrite Hq. by eexists. Qed.
Next Obligation. intros LP [|p polls] q Hq; cbn; [done|]. by destruct (got p). Qed.
Next Obligation. done. Qed.
Next Obligation. done. Qed.

Section Engine.
Context {B LP : Type} `{!Backend B LP}.
Context (encode : Text.text → result (list Z)) (decode : list Z → Text.text).
Notation Engine := (AsyncLLMEngine B LP).
Notation step := (step encode decode).
Notation reachable := (reachable encode decode).
Implicit Types (s : Engine) (c : Call LP) (i : nat).

(** ** The clients' own steps *)

Definition own_action i (p : Phase) : option (Action (LP := LP)) :=
  match p with
  | Encoding => Some (Submit i)
  | Waiting => Some (Next i)
  | Yielding _ => Some (Resume i)
  | Leaving _ => Some (Remove i)
  | Removed _ => Some (Abort i)
  | Over _ => None
  end.

(** The next step of call [i], if it can take one. *)
Definition own_step i s : Engine :=
  default s (c ← calls s !! i; a ← own_action i (phase c); step a s).

(** The failure has been passed on, or the engine is closed. *)
Definition settled s : Prop := (_state s = FAILED ∧ _receiver s = Stopped) ∨ _state s = CLOSED.

Lemma settled_ends s i c : wf s → settled s → calls s !! i = Some c → waits (phase c) → ends c.
Proof.
  intros Hw Hs Hi Hc. destruct (wf_waits s Hw i c Hi Hc) as [|Hcare]; [done|]. exfalso. unfold cared_for in Hcare.
  destruct Hs as [[Hf Hr]|Hcl]; [by rewrite Hf, Hr in Hcare|].
  pose proof (wf_shutdown s Hw) as Hsh. rewrite Hcl in *. rewrite Hsh in Hcare. by apply elem_of_nil in Hcare.
Qed.

(** The steps a call is away from its end. *)
Definition distance c : nat :=
  match phase c with
  | Encoding => 3
  | Waiting => 2 * length (_queue (stream c)) + 3
  | Yielding false => 2 * length (_queue (stream c)) + 4
  | Yielding true => 3
  | Leaving _ => 2
  | Removed _ => 1
  | Over _ => 0
  end.

Lemma own_step_closer i s c :
  _state s ≠ RUNNING → calls s !! i = Some c → (waits (phase c) → ends c) →
  (∃ o, phase c = Over o) ∨
  ∃ c', calls (own_step i s) !! i = Some c' ∧ _state (own_step i s) ≠ RUNNING ∧
    (waits (phase c') → ends c') ∧ distance c' < distance c.
Proof.
  intros Hs Hi Hends. unfold own_step. rewrite Hi. cbn [mbind option_bind].
  assert (Hgo : ∀ f s1, calls s1 = calls s → _state s1 = _state s → (waits (phase (f c)) → ends (f c)) → distance (f c) < distance c →
    ∃ c', calls (on_call i f s1) !! i = Some c' ∧ _state (on_call i f s1) ≠ RUNNING ∧ (waits (phase c') → ends c') ∧ distance c' < distance c).
  { intros f s1 Hc1 Hs1 H1 H2. exists (f c). rewrite lookup_on_call, Hc1, decide_True, Hi by done.
    split_and!; [done|cbn; congruence|done|done]. }
  destruct (phase c) as [| |l|o|o|o] eqn:Ep; cbn [own_action mbind option_bind]; [right|right|right|right|right|left; by eexists];
    unfold step; cbn [Async.step]; rewrite Hi; cbn [mbind option_bind client_step]; rewrite Ep; cbn [default].
  - unfold guarded. destruct (submit_run encode i s c Hi) as [(b & Hr & _)|(e & b & ->)]; [congruence|].
    apply Hgo; try done. unfold distance. cbn. rewrite Ep. lia.
  - specialize (Hends I). unfold ends in Hends. destruct (_queue (stream c)) as [|it rest] eqn:Eq; [by apply Exists_nil in Hends|].
    cbn [default]. apply Hgo; [done..| |].
    + destruct it as [o|e|]; try done. unfold take_item. cbn. destruct (is_finished o) eqn:Ef; [done|]. intros _.
      unfold ends. cbn. apply Exists_cons in Hends as [He|]; [cbn in He; congruence|done].
    + unfold distance. rewrite Ep, Eq. destruct it as [o|e|]; cbn; [|lia..]. destruct (is_finished o); lia.
  - cbn [default]. apply Hgo; [done..| |].
    + destruct l; [done|]. intros _. by apply Hends.
    + unfold distance. rewrite Ep. destruct l; cbn; lia.
  - apply Hgo; try done; [unfold remove; by case_decide..|]. unfold distance. rewrite Ep. cbn. lia.
  - assert (Hd : ∀ o', distance (set_phase (Over o') c) < distance c) by (intros o'; unfold distance; rewrite Ep; cbn; lia).
    destruct (submitted c && _); [|by apply Hgo].
    destruct (abort_run (request_id (stream c)) s) as ([u|e] & b & ->); by apply Hgo.
Qed.

Lemma own_steps_end i n : ∀ s c,
  _state s ≠ RUNNING → calls s !! i = Some c → (waits (phase c) → ends c) → distance c ≤ n →
  ∃ c' o, calls (Nat.iter n (own_step i) s) !! i = Some c' ∧ phase c' = Over o.
Proof.
  assert (Hstay : ∀ s c o n, calls s !! i = Some c → phase c = Over o → Nat.iter n (own_step i) s = s).
  { intros s c o m Hi Ep. assert (E : own_step i s = s).
    { unfold own_step. rewrite Hi. cbn [mbind option_bind]. by rewrite Ep. }
    induction m as [|m IH]; [done|]. change (own_step i (Nat.iter m (own_step i) s) = s). by rewrite IH. }
  induction n as [|n IH]; intros s c Hs Hi Hends Hn.
  - destruct (own_step_closer i s c Hs Hi Hends) as [[o Ho]|(c' & _ & _ & _ & ?)]; [|lia]. by exists c, o.
  - destruct (own_step_closer i s c Hs Hi Hends) as [[o Ho]|(c' & Hi' & Hs' & Hends' & Hlt)].
    + exists c, o. by rewrite (Hstay s c o).
    + rewrite Nat.iter_succ_r. apply (IH _ c'); try done. lia.
Qed.

(** A call of a settled engine. *)
Lemma settled_calls_end s i c :
  wf s → settled s → calls s !! i = Some c →
  ∃ c' o, calls (Nat.iter (2 * length (_queue (stream c)) + 4) (own_step i) s) !! i = Some c' ∧ phase c' = Over o.
Proof.
  intros Hw Hs Hi. apply (own_steps_end i _ s c); [|done|by eapply settled_ends|].
  - by destruct Hs as [[-> _]| ->].
  - unfold distance. destruct (phase c) as [| |[]| | |]; lia.
Qed.

(** ** The receiver's own steps *)

Definition receiver_action s : option (Action (LP := LP)) :=
  match _receiver s with
  | Polling => Some (Receive dead_poll)
  | Delivering _ => Some Deliver
  | Marking _ => Some Mark
  | Failing _ _ => Some Fail
  | Counting => Some (Stats false)
  | NotStarted | Stopped | Crashed _ => None
  end.

Definition receiver_own s : Engine := default s (a ← receiver_action s; step a s).

Definition settles s : Prop := ∃ n, settled (Nat.iter n receiver_own s).

Lemma settles_step s : settles (receiver_own s) → settles s.
Proof. intros [n Hn]. exists (S n). by rewrite Nat.iter_succ_r. Qed.

Lemma settles_now s : settled s → settles s.
Proof. by exists 0. Qed.

Lemma failing_settles todo : ∀ s message,
  _state s = FAILED → _stop_receiver s = true → _receiver s = Failing message (Some todo) → settles s.
Proof.
  induction todo as [|i todo IH]; intros s message Hs Hstop Hr; apply settles_step;
    unfold receiver_own, receiver_action; rewrite Hr; cbn [mbind option_bind step Async.step receiver_step]; rewrite Hr; cbn [default].
  - apply settles_now. left. unfold end_turn. by rewrite Hstop.
  - by eapply IH.
Qed.

Lemma failed_settles s : wf s → _state s = FAILED → settles s.
Proof.
  intros Hw Hs. pose proof (wf_receiver s Hw) as Hrec.
  destruct (_receiver s) as [| | | |message todo| | |] eqn:Hr; try done; [naive_solver| |by apply settles_now; left].
  destruct Hrec as [_ Hstop]. destruct todo as [todo|]; [by eapply failing_settles|].
  apply settles_step. unfold receiver_own, receiver_action. rewrite Hr. cbn [mbind option_bind step Async.step receiver_step]. rewrite Hr. cbn [default].
  by eapply failing_settles.
Qed.

Lemma marking_settles s message : wf s → _state s = RUNNING → _receiver s = Marking message → settles s.
Proof.
  intros Hw Hs Hr. apply settles_step.
  assert (Hs' : step Mark s = Some (receiver_own s)).
  { unfold receiver_own, receiver_action. rewrite Hr. cbn [mbind option_bind step Async.step receiver_step]. by rewrite Hr. }
  apply failed_settles; [by eapply step_wf|]. cbn in Hs'. rewrite Hr in Hs'. injection Hs' as <-.
  unfold _mark_failed. by rewrite decide_True.
Qed.

(** ** Lively backends *)

Context `{!LivelyBackend B LP}.

Definition is_crashed s : Prop := match _receiver s with Crashed _ => True | _ => False end.

(** Until the channels are closed. *)
Definition live s : Prop := _state s ≠ CLOSED → lively (backend s) ∧ ¬ is_crashed s.

Lemma put_live command s :
  lively (backend s) → ∃ b, on_backend (_put_command command) s = (Ok tt, set_backend b s) ∧ lively b.
Proof.
  intros Hl. unfold on_backend. destruct (put_lively command (backend s) Hl) as (b & -> & Hb). by exists b.
Qed.

(** Sections that leave the receiver and the lifecycle alone. *)
Definition as_was (r : Receiver LP) (x : _Lifecycle) s : Prop := lively (backend s) ∧ _receiver s = r ∧ _state s = x.
Definition keeps {A} (m : St Engine A) : Prop := ∀ r x, triple (as_was r x) m (λ _, as_was r x) (λ _, as_was r x).

Lemma keeps_bind {A A'} (m : St Engine A) (f : A → St Engine A') : keeps m → (∀ a, keeps (f a)) → keeps (mbind f m).
Proof. intros Hm Hf r x. eapply triple_bind; [apply Hm|]. intros a. apply Hf. Qed.
Lemma keeps_lift {A} (y : result A) : keeps (lift y).
Proof. intros r x s Hs. unfold lift. by destruct y. Qed.
Lemma keeps_require b e : keeps (require b e).
Proof. apply keeps_lift. Qed.
Lemma keeps_gets {A} (f : Engine → A) : keeps (gets f).
Proof. by intros r x s Hs. Qed.
Lemma keeps_ret {A} (a : A) : keeps (mret a).
Proof. by intros r x s Hs. Qed.
Lemma keeps_call i f : keeps (modify (on_call i f)).
Proof. by intros r x s Hs. Qed.
Lemma keeps_put command : keeps (on_backend (_put_command command)).
Proof. intros r x s [Hl Hs]. destruct (put_live command s Hl) as (b & -> & Hb). by split. Qed.

Lemma keeps_submit i : keeps (submit encode i).
Proof.
  unfold submit, _require_running. repeat (apply keeps_bind; [|intros ?]);
    eauto using keeps_gets, keeps_lift, keeps_require, keeps_put, keeps_call.
Qed.

Lemma keeps_abort rid : keeps (abort rid).
Proof.
  unfold abort. apply keeps_bind; [apply keeps_gets|]. intros x. case_decide; [apply keeps_put|apply keeps_ret].
Qed.

Lemma keeps_live {A} (m : St Engine A) s : keeps m → live s → _state s ≠ CLOSED →
  lively (backend (m s).2) ∧ ¬ is_crashed (m s).2 ∧ _state (m s).2 = _state s.
Proof.
  intros Hm Hl Hs. destruct (Hl Hs) as [H1 H2]. specialize (Hm _ _ s (conj H1 (conj eq_refl eq_refl))). unfold is_crashed in *.
  by destruct (m s) as [[a|e] s']; destruct Hm as (? & Hr & ?); cbn [snd]; rewrite Hr.
Qed.

(** No step of a client closes the engine or crashes the receiver. *)
Lemma client_step_live a i c s s' :
  calls s !! i = Some c → client_step encode a i c s = Some s' → _state s' = _state s ∧ (live s → live s').
Proof.
  intros Hi Hc. assert (Hboth : ∀ f g (m : St Engine unit), keeps m → (∀ r, m s = r → _state r.2 = _state s) →
    s' = (match m s with (Ok _, s1) => on_call i f s1 | (Err e, s1) => on_call i (g e) s1 end) → _state s' = _state s ∧ (live s → live s')).
  { intros f g m Hm Hst Es. assert (Hst' : _state s' = _state s).
    { specialize (Hst _ eq_refl). rewrite Es. by destruct (m s) as [[u|e] s1]. }
    split; [done|]. intros Hl Hs'. rewrite Hst' in Hs'. destruct (keeps_live m s Hm Hl Hs') as (H1 & H2 & _).
    rewrite Es. by destruct (m s) as [[u|e] s1]. }
  assert (Hplain : ∀ f, s' = on_call i f s → _state s' = _state s ∧ (live s → live s')) by (by intros f ->).
  unfold client_step in Hc. destruct a, (phase c) as [| |l|o|o|o]; try done.
  - injection Hc as <-. apply (Hboth (set_phase Waiting) (λ e, set_phase (Leaving (Raised e))) (submit encode i)); [apply keeps_submit| |done].
    intros r <-. destruct (submit_run encode i s c Hi) as [(b & _ & ->)|(e & b & ->)]; done.
  - destruct (_queue (stream c)); [done|]. injection Hc as <-. by eapply Hplain.
  - injection Hc as <-. by eapply Hplain.
  - injection Hc as <-. by eapply Hplain.
  - injection Hc as <-. by eapply Hplain.
  - injection Hc as <-. by eapply Hplain.
  - injection Hc as <-. unfold remove. by case_decide.
  - injection Hc as <-. destruct (submitted c && _); [|by eapply Hplain].
    apply (Hboth (set_phase (Over o)) (λ e, set_phase (Over (Raised e))) (abort (request_id (stream c)))); [apply keeps_abort| |done].
    intros r <-. by destruct (abort_run (request_id (stream c)) s) as ([u|e] & b & ->).
Qed.

Lemma live_receiver r s : live s → match r with Crashed _ => False | _ => True end → live (set_receiver r s).
Proof.
  intros Hl Hr Hs. destruct (Hl Hs) as [H1 _]. split; [done|]. unfold is_crashed. cbn. by destruct r; try tauto.
Qed.

Lemma live_backend b s : (_state s ≠ CLOSED → lively b) → live s → live (set_backend b s).
Proof. intros Hb Hl Hs. split; [by apply Hb|]. by destruct (Hl Hs). Qed.

Lemma end_turn_live s : live s → live (end_turn s).
Proof. intros Hl. unfold end_turn. apply live_receiver; [done|]. by destruct (_stop_receiver s). Qed.

Lemma live_calls i f s : live s → live (on_call i f s).
Proof. intros Hl Hs. by apply Hl. Qed.

Lemma deliver_one_run output outs s :
  wf s → ∃ f, deliver_one decode output outs s = set_receiver (Delivering outs) s ∨
    ∃ i, deliver_one decode output outs s = set_receiver (Delivering outs) (on_call i f s).
Proof.
  intros Hw. unfold deliver_one. destruct (_snapshot s !! ev_request_id output) as [i|]; cbn [mbind option_bind]; [|exists id; by left].
  destruct (calls s !! i) as [c|] eqn:Hi; cbn [mbind option_bind]; [|exists id; by left].
  destruct (push_event_adds decode output (stream c)) as (x & items & -> & _); [rewrite (wf_detok s Hw i c Hi); lia|].
  exists (set_stream x). right. by exists i.
Qed.

Lemma receiver_step_live a s s' : wf s → live s → _state s ≠ CLOSED → receiver_step decode a s = Some s' → live s'.
Proof.
  intros Hw Hl Hs. destruct (Hl Hs) as [Hb Hc]. unfold receiver_step.
  destruct a; try done; destruct (_receiver s) as [| |outs|message|message todo| | |] eqn:Er; try done.
  - intros [= <-]. unfold output_turn. destruct (_stop_receiver s); [by apply live_receiver|].
    unfold on_backend. pose proof (get_lively polls (backend s) Hb) as Hget. destruct (_get_event polls (backend s)) as [[event|e] b].
    + assert (live (set_backend b s)) by (by apply live_backend).
      destruct event; cbn [_handle_event]; try (by apply end_turn_live); by apply live_receiver.
    + destruct Hget as [-> Hb']. assert (live (set_backend b s)) by (by apply live_backend).
      destruct (alive (backend _) polls); [by apply end_turn_live|]. unfold _on_process_exit. case_decide; by apply live_receiver.
  - destruct outs as [|output outs]; intros [= <-]; [by apply end_turn_live|].
    destruct (deliver_one_run output outs s Hw) as (f & [->|[i ->]]); by apply live_receiver.
  - intros [= <-]. unfold _mark_failed. case_decide; [|by apply end_turn_live]. intros _. split; [done|]. by cbn; tauto.
  - destruct todo as [[|i rest]|]; intros [= <-]; [by apply end_turn_live|apply live_receiver; [by apply live_calls|done]|by apply live_receiver].
  - intros [= <-]. unfold query_stats. destruct due; [|by apply live_receiver].
    destruct (put_live (CmdUtility (Z.of_nat (_utility_ids s)) "step_stats") (set_utility_ids (S (_utility_ids s)) s) Hb) as (b & -> & Hb').
    apply live_receiver; [|done]. by apply live_backend.
Qed.

Lemma shutdown_step_live a s s' : wf s → live s → shutdown_step a s = Some s' → live s'.
Proof.
  intros Hw Hl. pose proof (wf_shutdown s Hw) as Hsh. unfold shutdown_step.
  destruct a; try done; destruct (_shutdown s) as [| | |todo] eqn:Es; try done.
  - intros [= <-]. assert (Hs : _state s ≠ CLOSED) by (intros E; rewrite E in Hsh; congruence).
    destruct (Hl Hs) as [Hb Hc]. unfold shutdown_start, suppress.
    destruct (put_live CmdShutdown (set_state CLOSING s) Hb) as (b & -> & Hb'). intros _. by split.
  - intros [= <-]. assert (Hs : _state s ≠ CLOSED) by (intros E; rewrite E in Hsh; congruence).
    destruct (Hl Hs) as [Hb Hc]. pose proof (join_lively (backend s) Hb) as Hj. unfold on_backend.
    destruct (_join_backend (backend s)) as [r b]. intros _. by split.
  - intros [= <-]. exact Hl.
  - destruct todo as [|i rest]; [|intros [= <-]; exact Hl]. case_decide; [done|]. intros [= <-] Hs. by destruct Hs.
Qed.

Lemma output_turn_state polls s : _state (output_turn polls s) = _state s.
Proof.
  unfold output_turn. destruct (_stop_receiver s); [done|].
  destruct (on_backend_run (_get_event polls) s) as ([event|e] & b & ->); [by destruct event|].
  destruct e; try done. by destruct (alive (backend _) polls).
Qed.

Lemma receiver_step_state a s s' : wf s → receiver_step decode a s = Some s' → _state s' = _state s ∨ _state s = RUNNING.
Proof.
  intros Hw. unfold receiver_step.
  destruct a; try done; destruct (_receiver s) as [| |outs|message|message todo| | |] eqn:Er; try done.
  - intros [= <-]. left. apply output_turn_state.
  - destruct outs as [|output outs]; intros [= <-]; left; [done|].
    by destruct (deliver_one_run output outs s Hw) as (f & [->|[i ->]]).
  - intros [= <-]. unfold _mark_failed. case_decide; [by right|by left].
  - destruct todo as [[|i rest]|]; intros [= <-]; by left.
  - intros [= <-]. left. unfold query_stats. destruct due; [|done].
    by destruct (on_backend_run (_put_command (CmdUtility (Z.of_nat (_utility_ids s)) "step_stats"))
      (set_utility_ids (S (_utility_ids s)) s)) as ([u|e] & b & ->).
Qed.

Lemma start_run s : (start s).2 = if decide (_state s = RUNNING) then _start_receiver_locked s else s.
Proof.
  unfold start. rewrite run_bind. destruct (require_running_run s) as [[Hs ->]|[Hs ->]]; case_decide; done.
Qed.

Lemma register_rest (c : Call LP) s : backend (register c s).2 = backend s ∧ _receiver (register c s).2 = _receiver s ∧
  _state (register c s).2 = _state s.
Proof.
  unfold register. st_prim. by destruct (rguard _ _) as [u|e].
Qed.

Lemma generate_start_rest prompt params rid s :
  let s' := (generate_start prompt params rid s).2 in
  backend s' = backend s ∧ _state s' = _state s ∧ (_receiver s' = _receiver s ∨ _receiver s' = Polling).
Proof.
  cbn zeta. unfold generate_start. rewrite run_bind. destruct (require_running_run s) as [[Hs ->]|[_ ->]]; [|by split_and!; [..|left]].
  st_prim. assert (Hs1 : backend (_start_receiver_locked s) = backend s ∧ _state (_start_receiver_locked s) = _state s ∧
    (_receiver (_start_receiver_locked s) = _receiver s ∨ _receiver (_start_receiver_locked s) = Polling)).
  { unfold _start_receiver_locked. destruct (_receiver s) eqn:E; cbn; rewrite ?E; auto. }
  destruct (given rid) as [r|]; st_prim;
    match goal with |- context [register ?c ?s1] => destruct (register_rest c s1) as (-> & -> & ->) end; done.
Qed.

Lemma step_live a s s' : wf s → live s → step a s = Some s' → live s'.
Proof.
  intros Hw Hl.
  assert (Hclient : ∀ i, (c ← calls s !! i; client_step encode a i c s) = Some s' → live s').
  { intros i (c & Hi & Hc)%bind_Some. by apply (client_step_live _ _ _ _ _ Hi Hc). }
  assert (Hrec : receiver_step decode a s = Some s' → live s').
  { intros Ha. destruct (decide (_state s = CLOSED)) as [E|E]; [|by eapply receiver_step_live].
    intros Hs'. exfalso. destruct (receiver_step_state a s s' Hw Ha); congruence. }
  destruct a as [|pr pa rid| | | | | | | | | | | | | | |]; cbn [Async.step]; try done; try (by apply Hclient); try (by eapply shutdown_step_live).
  - intros [= <-]. rewrite start_run. case_decide; [|done]. unfold _start_receiver_locked.
    destruct (_receiver s); try done. by apply live_receiver.
  - intros [= <-] Hs. destruct (generate_start_rest pr pa rid s) as (Hb & Hst & Hr). rewrite Hst in Hs. destruct (Hl Hs) as [H1 H2].
    rewrite Hb. split; [done|]. unfold is_crashed in *. by destruct Hr as [-> | ->]; cbn; try tauto.
Qed.

Lemma reachable_live b s : lively b → reachable b s → live s.
Proof.
  intros Hb. induction 1 as [|s a s' Hr IH Ha].
  - intros _. split; [done|]. by cbn; tauto.
  - eapply step_live; [by eapply async_reachable_wf|done|done].
Qed.

(** ** A failure reaches the streams *)

Ltac own_turn Hr := apply settles_step; unfold receiver_own, receiver_action; rewrite Hr;
  cbn [mbind option_bind step Async.step receiver_step]; rewrite Hr; cbn [default].

Lemma polling_settles s : wf s → live s → _state s = RUNNING → _receiver s = Polling → settles s.
Proof.
  intros Hw Hl Hs Hr. destruct (Hl ltac:(congruence)) as [Hb _]. destruct (death_seen (backend s) Hb) as [Eg Ea].
  assert (Ha : step (Receive dead_poll) s = Some (set_receiver (Marking exited) s)).
  { cbn [Async.step receiver_step]. rewrite Hr. unfold output_turn.
    destruct (_stop_receiver s) eqn:E; [by apply (wf_stop s Hw) in E|]. unfold on_backend. rewrite Eg.
    cbn [set_backend backend]. rewrite Ea. unfold _on_process_exit. cbn [set_backend _state]. rewrite decide_True by done.
    by destruct s. }
  apply settles_step. unfold receiver_own, receiver_action. rewrite Hr. cbn [mbind option_bind]. rewrite Ha. cbn [default].
  by eapply marking_settles; [by eapply step_wf|done|].
Qed.

Lemma counting_settles s : wf s → live s → _state s = RUNNING → _receiver s = Counting → settles s.
Proof.
  intros Hw Hl Hs Hr. own_turn Hr. apply polling_settles; [|by apply live_receiver|done|done].
  apply wf_receiver_running; [done|congruence|cbn; congruence].
Qed.

Lemma delivering_settles outs : ∀ s, wf s → live s → _state s = RUNNING → _receiver s = Delivering outs → settles s.
Proof.
  induction outs as [|output outs IH]; intros s Hw Hl Hs Hr.
  - own_turn Hr. unfold end_turn. destruct (_stop_receiver s) eqn:E; [by apply (wf_stop s Hw) in E|].
    apply counting_settles; [|by apply live_receiver|done|done]. apply wf_receiver_running; [done|congruence|cbn; congruence].
  - assert (Ha : step Deliver s = Some (deliver_one decode output outs s)) by (cbn; by rewrite Hr).
    own_turn Hr. apply IH; [by eapply step_wf|by eapply step_live| |];
      by destruct (deliver_one_run output outs s Hw) as (f & [->|[i ->]]).
Qed.

Lemma running_settles s :
  wf s → live s → _state s = RUNNING → (∃ i, is_Some (calls s !! i)) → settles s.
Proof.
  intros Hw Hl Hs [i [c Hi]]. pose proof (wf_receiver s Hw) as Hrec. destruct (Hl ltac:(congruence)) as [_ Hc].
  unfold is_crashed in Hc. destruct (_receiver s) as [| |outs|message|message todo| | |] eqn:Hr; try tauto.
  - destruct Hrec as [E _]. by rewrite E in Hi.
  - by apply polling_settles.
  - by eapply delivering_settles.
  - by eapply marking_settles.
  - by apply counting_settles.
Qed.

Lemma receiver_own_calls s : wf s → length (calls (receiver_own s)) = length (calls s).
Proof.
  intros Hw. unfold receiver_own, receiver_action.
  destruct (_receiver s) as [| |outs|message|message todo| | |] eqn:Hr; cbn [mbind option_bind default]; try done;
    cbn [Async.step receiver_step]; rewrite Hr; cbn [default].
  - unfold output_turn. destruct (_stop_receiver s); [done|].
    destruct (on_backend_run (_get_event dead_poll) s) as ([event|e] & b & ->); [by destruct event|].
    destruct e; try done. by destruct (alive (backend _) dead_poll).
  - destruct outs as [|output outs]; [done|]. destruct (deliver_one_run output outs s Hw) as (f & [-> | [i ->]]); [done|].
    cbn. by rewrite length_alter.
  - unfold _mark_failed. by case_decide.
  - destruct todo as [[|i rest]|]; [done| |done]. cbn. by rewrite length_alter.
  - done.
Qed.

Lemma receiver_iter b n s : reachable b s →
  reachable b (Nat.iter n receiver_own s) ∧ length (calls (Nat.iter n receiver_own s)) = length (calls s).
Proof.
  intros Hr. induction n as [|n [IH Hl]]; [done|]. change (Nat.iter (S n) receiver_own s) with (receiver_own (Nat.iter n receiver_own s)).
  rewrite receiver_own_calls, Hl by (by eapply async_reachable_wf). split; [|done]. set (s1 := Nat.iter n receiver_own s) in *.
  unfold receiver_own. destruct (receiver_action s1) as [a|]; [|done]. cbn [mbind option_bind].
  destruct (step a s1) as [s2|] eqn:Ha; [|done]. by eapply reach_step.
Qed.

(** C21: no client is stranded.  In every reachable state of an engine with a
    scheduler process, whatever interleaving of clients, receiver and shutdown
    led to it: once the engine is closed or has passed a failure on, every call
    comes to its end within a bounded number of its own steps; and while it is
    running or failing, if the process is dead from now on, the receiver's own
    steps pass the failure on, and then the call comes to its end. *)
Theorem no_client_is_stranded b s i c (Hb : lively b) (Hr : reachable b s) (Hi : calls s !! i = Some c) :
  (settled s → ∃ c' o, calls (Nat.iter (2 * length (_queue (stream c)) + 4) (own_step i) s) !! i = Some c' ∧ phase c' = Over o) ∧
  (_state s = RUNNING ∨ _state s = FAILED → ∃ n m c' o, settled (Nat.iter n receiver_own s) ∧
     calls (Nat.iter m (own_step i) (Nat.iter n receiver_own s)) !! i = Some c' ∧ phase c' = Over o).
Proof.
  pose proof (async_reachable_wf encode decode b s Hr) as Hw. split; [intros Hs; by eapply settled_calls_end|]. intros Hst.
  assert (Hsettles : settles s).
  { destruct Hst; [|by apply failed_settles]. apply running_settles; [done|by eapply reachable_live|done|]. exists i. by rewrite Hi. }
  destruct Hsettles as [n Hn]. destruct (receiver_iter b n s Hr) as [Hr' Hl].
  destruct (lookup_lt_is_Some_2 (calls (Nat.iter n receiver_own s)) i) as [c1 Hi1].
  { rewrite Hl. by eapply lookup_lt_Some. }
  destruct (settled_calls_end _ i c1 (async_reachable_wf _ _ _ _ Hr') Hn Hi1) as (c' & o & Hc & Ho).
  by exists n, (2 * length (_queue (stream c1)) + 4), c', o.
Qed.
End Engine.
End AsyncSpec.
