(* ===== verification/AsyncText.v ===== *)
(** * What a client is told

    The outputs a call has yielded and those queued for it, against the tokens
    the receiver delivered to its stream. *)

From S2P Require Export AsyncSpec.

Module AsyncText.
Import LoadPolicy Loop Sched Router Async AsyncInv AsyncSpec.

Section Engine.
Context {B LP : Type} `{!Backend B LP}.
Context (encode : Text.text → result (list Z)) (decode : list Z → Text.text).
Notation Engine := (AsyncLLMEngine B LP).
Notation step := (step encode decode).
Implicit Types (s : Engine) (c : Call LP) (i : nat).

(** The chunks of a call: given to the client, and waiting for it. *)
Definition chunk_of (item : Item LP) : option (StreamedOutput LP) :=
  match item with Chunk o => Some o | _ => None end.
Definition chunks c : list (StreamedOutput LP) := yielded c ++ omap chunk_of (_queue (stream c)).

(** ** The deliveries of a run *)

(** The event a step hands to the stream of a call. *)
Definition delivery (a : Action (LP := LP)) s : list (nat * RequestEvent LP) :=
  match a, _receiver s with
  | Deliver, Delivering (output :: _) =>
      match _snapshot s !! ev_request_id output with Some i => [(i, output)] | None => [] end
  | _, _ => []
  end.

Inductive history (b : B) : list (nat * RequestEvent LP) → Engine → Prop :=
  | hist_new : history b [] (new_engine b)
  | hist_step h s a s' : history b h s → step a s = Some s' → history b (h ++ delivery a s) s'.

Lemma history_reachable b h s : history b h s → reachable encode decode b s.
Proof. induction 1; [constructor|by econstructor]. Qed.

(** The tokens delivered to call [i]. *)
Definition tokens_for i (h : list (nat * RequestEvent LP)) : list Z :=
  concat ((λ x, match ev_error x.2 with None => new_token_ids x.2 | Some _ => [] end) <$> filter (λ x, x.1 = i) h).

Lemma tokens_for_app i h1 h2 : tokens_for i (h1 ++ h2) = tokens_for i h1 ++ tokens_for i h2.
Proof. unfold tokens_for. by rewrite filter_app, fmap_app, concat_app. Qed.

Lemma tokens_for_other i h : Forall (λ x, x.1 ≠ i) h → tokens_for i h = [].
Proof.
  intros Hh. unfold tokens_for. replace (filter (λ x, x.1 = i) h) with (@nil (nat * RequestEvent LP)); [done|].
  induction Hh as [|x h Hx _ IH]; [done|]. by rewrite filter_cons_False.
Qed.

(** ** The invariant of a call *)

(** Only the phase of the call and the place of its chunks differ. *)
Definition same_says c c' : Prop :=
  _detokenizer (stream c') = _detokenizer (stream c) ∧ _text (stream c') = _text (stream c) ∧
  _completion_tokens (stream c') = _completion_tokens (stream c) ∧ chunks c' = chunks c.

Lemma same_says_refl c : same_says c c.
Proof. by split_and!. Qed.

(** A step that neither delivers nor adds a call. *)
Definition quiet s s' : Prop :=
  length (calls s') = length (calls s) ∧
  ∀ j c', calls s' !! j = Some c' → ∃ c, calls s !! j = Some c ∧ same_says c c'.

Lemma quiet_same s s' : calls s' = calls s → quiet s s'.
Proof.
  intros E. split; [by rewrite E|]. intros j c'. rewrite E. intros Hj. exists c'. by split; [|apply same_says_refl].
Qed.

Lemma quiet_call i f s s1 : calls s1 = calls s → (∀ c, calls s !! i = Some c → same_says c (f c)) → quiet s (on_call i f s1).
Proof.
  intros E Hf. split; [cbn; by rewrite length_alter, E|]. intros j c'. rewrite lookup_on_call, E. case_decide as Ej; [subst j|].
  - intros (c & Hi & ->)%fmap_Some. exists c. split; [done|by apply Hf].
  - intros Hj. exists c'. by split; [|apply same_says_refl].
Qed.

Lemma quiet_finish item i s : chunk_of item = None → quiet s (finish_with item i s).
Proof.
  intros Hitem. apply quiet_call; [done|]. intros c _. split_and!; [done..|]. unfold chunks. cbn.
  rewrite omap_app. cbn. by rewrite Hitem, app_nil_r.
Qed.

Lemma client_step_quiet a i c s s' : calls s !! i = Some c → client_step encode a i c s = Some s' → quiet s s'.
Proof.
  intros Hi. assert (Hphase : ∀ p s1, calls s1 = calls s → quiet s (on_call i (set_phase p) s1)) by (intros; by apply quiet_call).
  unfold client_step. destruct a, (phase c) as [| |l|o|o|o]; try done.
  - intros [= <-]. unfold guarded. destruct (submit_run encode i s c Hi) as [(b & Hs & ->)|(e & b & ->)]; [|by apply Hphase].
    rewrite on_call_twice. by apply quiet_call.
  - destruct (_queue (stream c)) as [|it rest] eqn:Eq; [done|]. intros [= <-]. apply quiet_call; [done|].
    intros c0. rewrite Hi. intros [= <-]. unfold same_says, chunks, take_item. destruct it; cbn; rewrite Eq; cbn; by rewrite <- ?app_assoc.
  - intros [= <-]. by apply Hphase.
  - intros [= <-]. by apply Hphase.
  - intros [= <-]. by apply Hphase.
  - intros [= <-]. by apply Hphase.
  - intros [= <-]. apply Hphase. unfold remove. by case_decide.
  - intros [= <-]. destruct (submitted c && _); [|by apply Hphase].
    destruct (abort_run (request_id (stream c)) s) as ([u|e] & b & ->); by apply Hphase.
Qed.

Lemma receiver_step_quiet a s s' :
  receiver_step decode a s = Some s' → match a, _receiver s with Deliver, Delivering (_ :: _) => False | _, _ => True end → quiet s s'.
Proof.
  unfold receiver_step. destruct a; try done; destruct (_receiver s) as [| |outs|message|message todo| | |]; try done.
  - intros [= <-] _. apply quiet_same. unfold output_turn. destruct (_stop_receiver s); [done|].
    destruct (on_backend_run (_get_event polls) s) as ([event|e] & b & ->); [by destruct event|].
    destruct e; try done. by destruct (alive (backend _) polls).
  - destruct outs; [|done]. intros [= <-] _. by apply quiet_same.
  - intros [= <-] _. apply quiet_same. unfold _mark_failed. by case_decide.
  - destruct todo as [[|i rest]|]; intros [= <-] _; [by apply quiet_same| |by apply quiet_same].
    by apply (quiet_finish (Raise (ProcessError message)) i s).
  - intros [= <-] _. apply quiet_same. unfold query_stats. destruct due; [|done].
    by destruct (on_backend_run (_put_command (CmdUtility (Z.of_nat (_utility_ids s)) "step_stats"))
      (set_utility_ids (S (_utility_ids s)) s)) as ([u|e] & b & ->).
Qed.

Lemma shutdown_step_quiet a s s' : shutdown_step a s = Some s' → quiet s s'.
Proof.
  unfold shutdown_step. destruct a; try done; destruct (_shutdown s) as [| | |todo]; try done.
  - intros [= <-]. apply quiet_same. unfold shutdown_start, suppress.
    by destruct (on_backend_run (_put_command CmdShutdown) (set_state CLOSING s)) as (r & b & ->).
  - intros [= <-]. apply quiet_same. by destruct (on_backend_run _join_backend s) as (r & b & ->).
  - intros [= <-]. by apply quiet_same.
  - destruct todo as [|i rest]; [case_decide; [done|]; intros [= <-]; by apply quiet_same|].
    intros [= <-]. by apply (quiet_finish End i s).
Qed.

(** ** Deliveries *)

(** The tokenizer's tokens read the same after any complete text. *)
Context (cont : list Z → Text.text) `{!Detok.Reads decode cont}.

Record says (toks : list Z) c : Prop := {
  say_detok : ∃ st, _detokenizer (stream c) = [st] ∧ Detok.seq_ok decode cont st (_text (stream c)) ∧ Detok.tokens st = toks;
  say_count : _completion_tokens (stream c) = length toks;
  say_text : concat (delta <$> chunks c) = _text (stream c);
  say_chunks pre o post : chunks c = pre ++ o :: post → text o = concat (delta <$> pre ++ [o]);
}.

Lemma says_same toks c c' : same_says c c' → says toks c → says toks c'.
Proof. intros (E1 & E2 & E3 & E4) [H1 H2 H3 H4]. split; rewrite ?E1, ?E2, ?E3, ?E4; done. Qed.

Lemma push_event_run event (y x : _RequestStream LP) :
  ev_error event = None → push_event decode event y = Ok x →
  ∃ d d' items, Detok.append_all decode 0 (new_token_ids event) (_detokenizer y) = Ok (d, d') ∧
    _detokenizer x = d' ∧ _text x = _text y ++ d ∧ _completion_tokens x = _completion_tokens y + length (new_token_ids event) ∧
    _queue x = _queue y ++ items ∧
    ((items = [] ∧ d = []) ∨ ∃ o, items = [Chunk o] ∧ delta o = d ∧ text o = _text y ++ d).
Proof.
  intros He. unfold push_event. rewrite He.
  destruct (Detok.append_all decode 0 (new_token_ids event) (_detokenizer y)) as [[d d']|e] eqn:E; [|done].
  cbn [mbind result_bind]. intros [= <-].
  assert (Hnil : new_token_ids event = [] → d = []) by (intros Hn; rewrite Hn in E; by injection E as <- _).
  exists d, d'. destruct (decide (new_token_ids event = [])) as [Hn|Hn], (finished event);
    rewrite ?(Hnil Hn), ?Hn; (case_decide as Hq; [destruct Hq as [Hd Hq]; try discriminate Hq; exists []|eexists [_]]);
    cbn; rewrite ?app_nil_r, ?Nat.add_0_r; try (rewrite Hd, app_nil_r); split_and!; try done; (by left) || (right; by eexists).
Qed.

Lemma push_event_says event toks c x :
  says toks c → push_event decode event (stream c) = Ok x →
  says (toks ++ match ev_error event with None => new_token_ids event | Some _ => [] end) (set_stream x c).
Proof.
  intros [(st & Ed & Hok & Ht) Hcount Htext Hchunks] Hx. destruct (ev_error event) as [e|] eqn:He.
  { unfold push_event in Hx. rewrite He in Hx. injection Hx as <-. rewrite app_nil_r. apply (says_same toks c); [|by split; eauto].
    split_and!; [done..|]. unfold chunks. cbn. rewrite omap_app. cbn. by rewrite app_nil_r. }
  destruct (push_event_run event _ x He Hx) as (d & d' & items & E & Hd & Htx & Hct & Hq & Hitems).
  destruct (Detok.append_all_ok decode cont 0 (new_token_ids event) (_detokenizer (stream c)) st (_text (stream c)))
    as (d1 & d1' & st' & E1 & Hst' & Hok' & Ht' & _); [by rewrite Ed|done|].
  rewrite E in E1. injection E1 as <- <-.
  destruct (append_all_total decode (new_token_ids event) (_detokenizer (stream c))) as (d2 & d2' & E2 & Hlen); [rewrite Ed; cbn; lia|].
  rewrite E in E2. injection E2 as <- <-. rewrite Ed in Hlen.
  assert (Hd' : d' = [st']).
  { destruct d' as [|y [|z l]]; cbn in Hlen; try lia. cbn in Hst'. by injection Hst' as ->. }
  assert (Hch : ∃ os, chunks (set_stream x c) = chunks c ++ os ∧ concat (delta <$> os) = d ∧
    (os = [] ∨ ∃ o, os = [o] ∧ text o = _text (stream c) ++ d)).
  { unfold chunks. cbn [set_stream yielded stream]. rewrite Hq, omap_app.
    destruct Hitems as [[-> ->]|(o & -> & Ho1 & Ho2)]; [exists []|exists [o]]; cbn; rewrite ?app_nil_r, ?app_assoc.
    - split_and!; [done|done|by left].
    - split_and!; [done|done|right; by exists o]. }
  destruct Hch as (os & Hch & Hos & Hone). split; cbn [set_stream stream].
  - exists st'. split_and!; [by rewrite Hd, Hd'|by rewrite Htx|by rewrite Ht', Ht].
  - by rewrite Hct, Hcount, length_app.
  - by rewrite Hch, fmap_app, concat_app, Htext, Hos, Htx.
  - intros pre o post. rewrite Hch. intros Es.
    destruct Hone as [->|(o1 & -> & Ho1)]; [rewrite app_nil_r in Es; by eapply Hchunks|].
    destruct post as [|o2 post] using rev_ind.
    + apply app_inj_tail in Es as [<- ->]. by rewrite Ho1, fmap_app, concat_app, Htext, <- Hos.
    + rewrite app_comm_cons, app_assoc in Es. apply app_inj_tail in Es as [Es _]. by eapply Hchunks.
Qed.

(** ** Runs *)

Record told (h : list (nat * RequestEvent LP)) s : Prop := {
  told_says i c : calls s !! i = Some c → says (tokens_for i h) c;
  told_bound : Forall (λ x, x.1 < length (calls s)) h;
}.

Lemma told_quiet h s s' : told h s → quiet s s' → told h s'.
Proof.
  intros [Hs Hb] [Hl Hq]. split; [|by rewrite Hl]. intros j c' Hj. destruct (Hq j c' Hj) as (c & Hc & Hsame).
  eapply says_same; [done|by apply Hs].
Qed.

Lemma new_says rid prompt params : says [] (MkCall LP prompt params (new_stream rid) false Encoding []).
Proof.
  split; cbn; try done.
  - exists Detok.fresh_state. split_and!; [done|apply Detok.fresh_ok|done].
  - intros pre o post E. by destruct pre.
Qed.

Lemma deliver_told h output outs s :
  wf s → told h s → told (h ++ match _snapshot s !! ev_request_id output with Some i => [(i, output)] | None => [] end)
    (deliver_one decode output outs s).
Proof.
  intros Hw [Hs Hb]. unfold deliver_one. destruct (_snapshot s !! ev_request_id output) as [i|] eqn:Ei; cbn [mbind option_bind];
    [|rewrite app_nil_r; by split].
  rewrite (wf_snapshot s Hw) in Ei. destruct (wf_streams s Hw _ _ Ei) as (c & Hi & _ & _). rewrite Hi. cbn [mbind option_bind].
  destruct (push_event_adds decode output (stream c)) as (x & items & Ex & _); [rewrite (wf_detok s Hw i c Hi); lia|].
  rewrite Ex. split.
  - intros j c'. change (calls (set_receiver (Delivering outs) (on_call i (set_stream x) s))) with (calls (on_call i (set_stream x) s)).
    rewrite lookup_on_call, tokens_for_app. case_decide as Ej.
    + subst j. rewrite Hi. intros [= <-]. unfold tokens_for at 2. rewrite filter_cons_True by done. cbn. rewrite app_nil_r.
      by apply push_event_says; [apply Hs|].
    + intros Hj. rewrite (tokens_for_other j [(i, output)]), app_nil_r by (by repeat constructor). by apply Hs.
  - apply Forall_app. split; cbn; rewrite length_alter; [done|]. repeat constructor. cbn. by eapply lookup_lt_Some.
Qed.

Lemma generate_start_calls pr pa rid s :
  calls (generate_start pr pa rid s).2 = calls s ∨
  ∃ r, calls (generate_start pr pa rid s).2 = calls s ++ [MkCall LP pr pa (new_stream r) false Encoding []].
Proof.
  unfold generate_start. rewrite run_bind. destruct (require_running_run s) as [[Hs ->]|[_ ->]]; [|by left].
  st_prim. assert (Hc : calls (_start_receiver_locked s) = calls s) by (unfold _start_receiver_locked; by destruct (_receiver s)).
  assert (Hreg : ∀ r s1, calls s1 = calls s → calls (register (MkCall LP pr pa (new_stream r) false Encoding []) s1).2 = calls s ∨
    calls (register (MkCall LP pr pa (new_stream r) false Encoding []) s1).2 = calls s ++ [MkCall LP pr pa (new_stream r) false Encoding []]).
  { intros r s1 E. unfold register. st_prim. destruct (rguard _ _) as [u|e]; [right|left; done]. st_prim. cbn. by rewrite E. }
  destruct (given rid) as [r|]; st_prim.
  - destruct (Hreg r _ Hc) as [|]; [by left|right; by exists r].
  - match goal with |- context [register (MkCall _ _ _ (new_stream ?r) _ _ _) ?s1] => destruct (Hreg r s1 Hc) as [|] end;
      [by left|right; by eexists].
Qed.


Lemma step_told h a s s' : wf s → told h s → step a s = Some s' → told (h ++ delivery a s) s'.
Proof.
  intros Hw Ht. assert (Hquiet : quiet s s' → delivery a s = [] → told (h ++ delivery a s) s').
  { intros Hq ->. rewrite app_nil_r. by eapply told_quiet. }
  assert (Hclient : ∀ i, (c ← calls s !! i; client_step encode a i c s) = Some s' → quiet s s').
  { intros i (c & Hi & Hc)%bind_Some. by eapply client_step_quiet. }
  destruct a as [|pr pa rid| | | | | | | | | | | | | | |]; cbn [Async.step]; intros Ha;
    try (by apply Hquiet; [by eapply Hclient|]); try (by apply Hquiet; [by eapply shutdown_step_quiet|]);
    try (by apply Hquiet; [by eapply receiver_step_quiet|]).
  - injection Ha as <-. apply Hquiet; [|done]. apply quiet_same. rewrite start_run. case_decide; [|done].
    unfold _start_receiver_locked. by destruct (_receiver s).
  - injection Ha as <-. cbn [delivery]. rewrite app_nil_r. destruct (generate_start_calls pr pa rid s) as [E|[r E]].
    + by eapply told_quiet; [|apply quiet_same].
    + destruct Ht as [Hs Hb]. split; rewrite E.
      * intros j c [[_ Hj]|[-> <-]]%lookup_snoc_Some; [by apply Hs|].
        rewrite tokens_for_other; [apply new_says|]. eapply Forall_impl; [exact Hb|]. cbn. lia.
      * eapply Forall_impl; [exact Hb|]. intros x Hx. rewrite length_app. cbn in *. lia.
  - cbn [receiver_step] in Ha. destruct (_receiver s) as [| |outs| | | | |] eqn:Er; try done.
    destruct outs as [|output outs]; injection Ha as <-.
    + cbn [delivery]. rewrite Er, app_nil_r. by eapply told_quiet; [|apply quiet_same].
    + cbn [delivery]. rewrite Er. by apply deliver_told.
Qed.

Lemma history_told b h s : history b h s → told h s.
Proof.
  induction 1 as [|h s a s' Hh IH Ha]; [split; [done|constructor]|].
  eapply step_told; [|done|done]. by eapply async_reachable_wf, history_reachable.
Qed.

(** C23: clients are told the text of their tokens.  In every run of the engine,
    with a tokenizer whose tokens read the same after any complete text
    (byte-level ones and SentencePiece ones): what a call has yielded, followed by
    what is queued for it, are chunks whose concatenated deltas decode exactly the
    tokens the receiver delivered to that call, up to a held tail that is empty
    or ends in an incomplete character; each chunk carries the text so far; and
    the token count is that of the delivered tokens. *)
Theorem clients_are_told_the_text b h s i c (Hh : history b h s) (Hi : calls s !! i = Some c) :
  (∃ held, Detok._decode decode (tokens_for i h) = concat (delta <$> chunks c) ++ held ∧
     (held = [] ∨ ¬ Detok.complete held)) ∧
  (∀ pre o post, chunks c = pre ++ o :: post → text o = concat (delta <$> pre ++ [o])) ∧
  _completion_tokens (stream c) = length (tokens_for i h).
Proof.
  destruct (told_says h s (history_told b h s Hh) i c Hi) as [(st & _ & Hok & Ht) Hcount Htext Hchunks].
  split_and!; [|done|done]. rewrite Htext, <- Ht. exists (Detok.unread decode cont st).
  split; [by apply Detok.seq_ok_text|by eapply Detok.so_tail].
Qed.
End Engine.
End AsyncText.
