(* ===== verification/AsyncDemo.v ===== *)
(** * Runs of the asynchronous engine

    Witnesses on a scheduler process; a client that a dead replica of the
    data-parallel controller leaves waiting for ever; and the events of an
    aborted request that reach the next holder of its id. *)

From S2P Require Export AsyncText RouterDemo.

Module AsyncDemo.
Import LoadPolicy PolicySpec Loop Sched Router Async AsyncInv AsyncSpec AsyncText RouterDemo.

Section Play.
Context {B LP : Type} `{!Backend B LP}.
Context (encode : Text.text → result (list Z)) (decode : list Z → Text.text).
Notation Engine := (AsyncLLMEngine B LP).
Implicit Types (s : Engine) (i : nat).

(** A run, with its deliveries. *)
Fixpoint play (h : list (nat * RequestEvent LP)) (acts : list (Action (LP := LP))) s :
    option (list (nat * RequestEvent LP) * Engine) :=
  match acts with
  | [] => Some (h, s)
  | a :: acts => s' ← step encode decode a s; play (h ++ delivery a s) acts s'
  end.

Lemma play_history b acts : ∀ h s h' s',
  history encode decode b h s → play h acts s = Some (h', s') → history encode decode b h' s'.
Proof.
  induction acts as [|a acts IH]; intros h s h' s' Hh; cbn [play]; [by intros [= <- <-]|].
  intros (s1 & Ha & Hp)%bind_Some. eapply IH; [|exact Hp]. by eapply hist_step.
Qed.

(** ** A crashed receiver *)

(** What a step of a client leaves alone. *)
Lemma client_step_rest a i c s s' :
  calls s !! i = Some c → client_step encode a i c s = Some s' →
  _state s' = _state s ∧ _receiver s' = _receiver s ∧ _shutdown s' = _shutdown s ∧
  ∀ j, j ≠ i → calls s' !! j = calls s !! j.
Proof.
  intros Hi. assert (Hcall : ∀ f s1, _state s1 = _state s → _receiver s1 = _receiver s → _shutdown s1 = _shutdown s →
    calls s1 = calls s → let s' := on_call i f s1 in _state s' = _state s ∧ _receiver s' = _receiver s ∧
    _shutdown s' = _shutdown s ∧ ∀ j, j ≠ i → calls s' !! j = calls s !! j).
  { intros f s1 H1 H2 H3 H4. split_and!; try done. intros j Hj. by rewrite lookup_on_call, decide_False, H4. }
  unfold client_step. destruct a, (phase c) as [| |l|o|o|o]; try done.
  - intros [= <-]. unfold guarded. destruct (submit_run encode i s c Hi) as [(b & Hs & ->)|(e & b & ->)];
      rewrite ?on_call_twice; by apply Hcall.
  - destruct (_queue (stream c)); [done|]. intros [= <-]. by apply Hcall.
  - intros [= <-]. by apply Hcall.
  - intros [= <-]. by apply Hcall.
  - intros [= <-]. by apply Hcall.
  - intros [= <-]. by apply Hcall.
  - intros [= <-]. apply Hcall; unfold remove; by case_decide.
  - intros [= <-]. destruct (submitted c && _); [|by apply Hcall].
    destruct (abort_run (request_id (stream c)) s) as ([u|e] & b & ->); by apply Hcall.
Qed.

(** Waiting, with nothing queued, no receiver and nobody shutting down. *)
Definition stranded s i : Prop :=
  (∃ e, _receiver s = Crashed e) ∧ _shutdown s = NoShutdown ∧
  ∃ c, calls s !! i = Some c ∧ phase c = Waiting ∧ _queue (stream c) = [].

Definition rescues i (a : Action (LP := LP)) : Prop := a = Close i ∨ a = ShutdownStart.

Lemma generate_start_crashed pr pa rid s e :
  _receiver s = Crashed e →
  _receiver (generate_start pr pa rid s).2 = Crashed e ∧ _shutdown (generate_start pr pa rid s).2 = _shutdown s.
Proof.
  intros He. unfold generate_start. rewrite run_bind. destruct (require_running_run s) as [[Hs ->]|[_ ->]]; [|done].
  st_prim. unfold _start_receiver_locked. rewrite He. destruct (given rid) as [r|]; st_prim; unfold register; st_prim;
    by destruct (rguard _ _).
Qed.

Lemma step_stranded a i s s' : stranded s i → ¬ rescues i a → step encode decode a s = Some s' → stranded s' i.
Proof.
  intros ([e He] & Hs & c & Hi & Hp & Hq) Ha.
  assert (Hkeep : _receiver s' = Crashed e → _shutdown s' = NoShutdown → calls s' !! i = Some c → stranded s' i).
  { intros H1 H2 H3. split_and!; [by exists e|done|by exists c]. }
  assert (Hclient : ∀ j, (∀ c, phase c = Waiting → _queue (stream c) = [] → client_step encode a i c s = None) →
    (c ← calls s !! j; client_step encode a j c s) = Some s' → stranded s' i).
  { intros j Hnone (cj & Hj & Hc)%bind_Some. destruct (client_step_rest a j cj s s' Hj Hc) as (_ & H2 & H3 & H4).
    destruct (decide (i = j)) as [<-|Hne]; [rewrite Hi in Hj; injection Hj as <-; by rewrite Hnone in Hc|].
    apply Hkeep; [by rewrite H2|by rewrite H3|by rewrite H4]. }
  assert (Hnext : ∀ c, phase c = Waiting → _queue (stream c) = [] → client_step encode (Next i) i c s = None).
  { intros c0 H1 H2. cbn. by rewrite H1, H2. }
  destruct a as [|pr pa rid|j|j|j|j|j|j| | | | | | | | |]; cbn [step]; unfold receiver_step, shutdown_step; rewrite ?He, ?Hs;
    try done; try (apply Hclient; intros c0 H1 H2; cbn; by rewrite ?H1, ?H2).
  - intros [= <-]. apply Hkeep; rewrite start_run; case_decide; try done; unfold _start_receiver_locked; by rewrite He.
  - intros [= <-]. destruct (generate_start_crashed pr pa rid s e He) as [H1 H2]. apply Hkeep; [done|by rewrite H2|].
    destruct (generate_start_calls pr pa rid s) as [->|[r ->]]; [done|]. by apply lookup_app_l_Some.
  - destruct (decide (j = i)) as [->|Hne]; [destruct Ha; by left|]. intros (cj & Hj & Hc)%bind_Some.
    destruct (client_step_rest (Close j) j cj s s' Hj Hc) as (_ & H2 & H3 & H4).
    apply Hkeep; [by rewrite H2|by rewrite H3|by rewrite H4].
  - destruct Ha. by right.
Qed.

Lemma play_stranded i acts : ∀ h s h' s',
  stranded s i → Forall (λ a, ¬ rescues i a) acts → play h acts s = Some (h', s') → stranded s' i.
Proof.
  induction acts as [|a acts IH]; intros h s h' s' Hs Ha; cbn [play]; [by intros [= <- <-]|].
  apply Forall_cons in Ha as [Ha Hacts]. intros (s1 & H1 & Hp)%bind_Some.
  eapply IH; [|done|exact Hp]. by eapply step_stranded.
Qed.
End Play.

(** ** With a scheduler process *)

Definition demo_ids (prompt : Text.text) : result (list Z) := Ok prompt.
Definition idle_process : CommandQueue := MkQueue true [].
Notation process := (AsyncLLMEngine CommandQueue unit).
Notation process_play := (play (B := CommandQueue) (LP := unit) demo_ids Detok.pair_decode).

Definition arrives (rid : string) (tokens : list Z) (reason : option string) : Action (LP := unit) :=
  Receive [demo_poll [demo_event rid tokens reason]].

(** A request that gets two tokens, the second half a character. *)
Definition one_request : list (Action (LP := unit)) :=
  [Generate [65]%Z None (Some "x"%string); Submit 0; arrives "x" [70; 200]%Z None; Deliver; Deliver; Stats false].

Definition outcome (acts : list (Action (LP := unit))) : list (nat * RequestEvent unit) * process :=
  default ([], new_engine idle_process) (process_play [] acts (new_engine idle_process)).

Lemma outcome_history acts :
  bool_decide (is_Some (process_play [] acts (new_engine idle_process))) = true →
  history demo_ids Detok.pair_decode idle_process (outcome acts).1 (outcome acts).2.
Proof.
  intros [[h s] E]%bool_decide_eq_true. unfold outcome. rewrite E. cbn.
  eapply play_history; [apply hist_new|exact E].
Qed.

Lemma no_client_is_stranded_witness :
  let s := (outcome one_request).2 in
  (phase <$> calls s !! 0) = Some Waiting ∧
  ∃ n m c' o, settled (Nat.iter n (receiver_own demo_ids Detok.pair_decode) s) ∧
    calls (Nat.iter m (own_step demo_ids Detok.pair_decode 0) (Nat.iter n (receiver_own demo_ids Detok.pair_decode) s)) !! 0 = Some c' ∧
    phase c' = Over o.
Proof.
  cbn zeta. split; [vm_compute; reflexivity|].
  destruct (calls (outcome one_request).2 !! 0) as [c|] eqn:Hi; [|vm_compute in Hi; discriminate Hi].
  refine (proj2 (no_client_is_stranded demo_ids Detok.pair_decode idle_process (outcome one_request).2 0 c _ _ Hi) _).
  - reflexivity.
  - eapply history_reachable. apply outcome_history. vm_compute. reflexivity.
  - left. vm_compute. reflexivity.
Defined.

Lemma clients_are_told_the_text_witness :
  ∃ c, calls (outcome one_request).2 !! 0 = Some c ∧ tokens_for 0 (outcome one_request).1 = [70; 200]%Z ∧
    concat (delta <$> chunks c) = [70]%Z ∧
    ∃ held, Detok._decode Detok.pair_decode [70; 200]%Z = concat (delta <$> chunks c) ++ held ∧
      (held = [] ∨ ¬ Detok.complete held).
Proof.
  destruct (calls (outcome one_request).2 !! 0) as [c|] eqn:Hi; [|vm_compute in Hi; discriminate Hi].
  assert (Et : tokens_for 0 (outcome one_request).1 = [70; 200]%Z) by (vm_compute; reflexivity).
  assert (Ec : concat (delta <$> chunks c) = [70]%Z) by (vm_compute in Hi; injection Hi as <-; vm_compute; reflexivity).
  exists c. split; [reflexivity|]. split; [exact Et|]. split; [exact Ec|]. rewrite <- Et.
  refine (proj1 (clients_are_told_the_text demo_ids Detok.pair_decode Detok.pair_decode
    idle_process _ _ 0 c _ Hi)).
  apply outcome_history. vm_compute. reflexivity.
Defined.

(** The client closes its call and another takes the id: what was published for
    the first before its abort is delivered to the second. *)
Definition id_taken_again : list (Action (LP := unit)) :=
  [Generate [65]%Z None (Some "x"%string); Submit 0; Close 0; Remove 0; Abort 0;
   Generate [66]%Z None (Some "x"%string); Submit 1; arrives "x" [70]%Z None; Deliver].

Lemma stale_events_cross :
  let s := (outcome id_taken_again).2 in
  commands (backend s) = [CmdAdd (MkAdd "x" [65]%Z default_params true); CmdAbort "x"; CmdAdd (MkAdd "x" [66]%Z default_params true)] ∧
  (λ c, (delta <$> chunks c)) <$> calls s !! 1 = Some [[70]%Z].
Proof. vm_compute. by split. Qed.

(** ** With the data-parallel controller *)

#[local] Existing Instance RouterDemo.toy_policy.
Notation grid_play := (play (B := grid) (LP := unit) demo_ids Detok.pair_decode).

(** A replica dies while a client waits: [receive] raises, which ends the
    receiver thread instead of failing the streams. *)
Definition replica_dies : list (Action (LP := unit)) :=
  [Generate [65]%Z None (Some "x"%string); Submit 0; Receive [MkPoll false None true false]].

(** C22: a dead replica strands the clients.  Behind the data-parallel controller
    a reachable engine is still running, its receiver thread is gone, and a
    client whose request was submitted waits on an empty queue: whatever is done
    from then on, short of closing its call or shutting the engine down, it
    waits for ever. *)
Theorem dead_replica_strands_clients :
  ∃ b s, make_controller (demo_args "round_robin") 0 "0" = Ok b ∧
    reachable demo_ids Detok.pair_decode b s ∧ _state s = RUNNING ∧ submitted <$> calls s !! 0 = Some true ∧
    ∀ acts h h' s', Forall (λ a, ¬ rescues 0 a) acts → grid_play h acts s = Some (h', s') → stranded s' 0.
Proof.
  destruct (make_controller (demo_args "round_robin") 0 "0") as [b|e] eqn:Eb; [|vm_compute in Eb; discriminate Eb].
  destruct (grid_play [] replica_dies (new_engine b)) as [[h s]|] eqn:Es.
  2: { vm_compute in Eb. injection Eb as <-. vm_compute in Es. discriminate Es. }
  exists b, s. split; [done|]. split; [eapply history_reachable, play_history; [apply hist_new|exact Es]|].
  assert (Hs : _state s = RUNNING ∧ submitted <$> calls s !! 0 = Some true ∧ stranded s 0).
  { vm_compute in Eb. injection Eb as <-. vm_compute in Es. injection Es as _ <-.
    split; [reflexivity|]. split; [reflexivity|]. split; [by eexists|]. split; [reflexivity|]. eexists. split_and!; reflexivity. }
  destruct Hs as (H1 & H2 & Hst). split_and!; [done|done|]. intros acts h1 h' s'. by apply play_stranded.
Qed.
End AsyncDemo.
