(* ===== verification/Lockstep.v ===== *)
(** * Replicas in lockstep ([run_event_loop] and [step] under DP attention)

    With DP attention every model pass of a replica meets the passes of the
    other replicas in collectives, so replicas agree each turn on whether anyone
    has work and on the number of passes, and run dummy passes to make up the
    difference.  [run] is the loop of scheduler.py as the program of one rank;
    [together] is what all replicas compute side by side, a plain function.

    A replica is one rank here (a TP size of one).  [_execute_inner] of worker.py
    joins the handshake of the region; what runs inside it is the parameter
    [forward]. *)

From S2P Require Export EventLoop.
From S2P Require Import Spmd Topology ParallelState Collectives DPAttention.

Module Lockstep.
Import Spmd Planner Sched Loop ParallelState Collectives DPAttention.

Section lockstep.
Context {T X LP Row H W : Type} `{!Offload.OffloadingManager T} `{!Executor X LP Row} `{!HiddenOps H W}
  (digest : list Z → list Z) (decode_ids : list Z → Text.text)
  (encode : Text.text → result (list Z)) (is_digit : Z → bool).

Notation Scheduler := (@Scheduler T X LP).
Notation EventLoop := (@EventLoop T X LP).
Notation prog := (@prog (list (@row H W))).
Notation Launched := (Work * list Z * option (PassLogprobs LP))%type.
Notation answer := (list Z * option (PassLogprobs LP) * X)%type.

(** The rows of a prepared pass, what runs inside the region, the slot of the
    reserved block and the padding token. *)
Context (rows : ModelInput → X → nat)
  (forward : grid → option DPMetadata → ModelInput → X → prog answer)
  (dummy_slot : nat) (pad_id : Z).

(** ** The worker *)

(** The plan of [execute_dummy]. *)
Definition dummy_plan : ModelInput :=
  MkInput EXTEND [Some dummy_slot] [0%Z] [1%Z] [pad_id] [] [] [] [] [] [] false.

Section rank.
Context (g : grid).

Definition _execute_inner (model_input : ModelInput) (x : X) : prog answer :=
  m ← dp_attention_region g false (rows model_input x);
  forward g m model_input x.

Definition execute_dummy (x : X) : prog X :=
  '(_, x) ← _execute_inner dummy_plan x; Ret x.

(** ** The scheduler *)

Definition lockstep_pass (work : list Work) (index : nat) (st : list Launched * Scheduler) :
    prog (list Launched * Scheduler) :=
  let '(completed, s) := st in
  match work !! index with
  | None => x ← execute_dummy (executor s); Ret (completed, set_executor x s)
  | Some w =>
      '(tokens, lps, x) ← _execute_inner (work_plan w) (executor s);
      Ret (completed ++ [(w, tokens, lps)], set_executor x s)
  end.

Definition _execute_lockstep (work : list Work) (s : Scheduler) : prog (list Launched * Scheduler) :=
  target ← coordinate_forward_count_across_dp g (length work);
  pfold (lockstep_pass work) (seq 0 target) ([], s).

(** The constructor refuses speculation under DP attention ([Sched.init]), so the
    verify pass only ever runs on a replica of its own. *)
Definition _step_synchronous (s : Scheduler) : prog (list nat * Scheduler) :=
  '(scheduled, s) ← lift (schedule digest s);
  if is_empty scheduled && negb (_DP_ATTENTION g) then Ret ([], s)
  else
    let s := count_step s in
    first ← lift
      (if decide (prefill scheduled = []) then Ok []
       else prefill_work (prefill scheduled) (prefill_chunk_lens scheduled)
              (chunked_min_rows (settings s)) s);
    '(spec_advanced, remaining, s) ← lift
      (match proposer (settings s) with
       | Some p => if decide (decode scheduled = []) then Ok ([], decode scheduled, s)
                   else speculate_verify (Row := Row) digest decode_ids is_digit p (decode scheduled) s
       | None => Ok ([], decode scheduled, s)
       end);
    later ← lift
      (if decide (remaining = []) then Ok []
       else w ← decode_work remaining false s; Ok [w]);
    '(pending, s) ← _execute_lockstep (first ++ later) s;
    '(emitted, s) ← lift (rfold collect_one pending ([], s));
    '(advanced, s) ← lift (harvest digest decode_ids is_digit emitted s);
    Ret (advanced ++ spec_advanced, s).

Definition _step_pipelined (s : Scheduler) : prog (list nat * Scheduler) :=
  '(scheduled, s) ← lift (schedule digest s);
  if is_empty scheduled && bool_decide (inflight s = []) && negb (_DP_ATTENTION g) then Ret ([], s)
  else
    let s := count_step s in
    first ← lift
      (if decide (prefill scheduled = []) then Ok []
       else prefill_work (prefill scheduled) (prefill_chunk_lens scheduled) None s);
    later ← lift
      (if decide (decode scheduled = []) then Ok []
       else w ← decode_work (decode scheduled) true s; Ok [w]);
    let can_pop := bool_decide (pipeline_depth (settings s) ≤ length (inflight s)) || is_empty scheduled in
    '(previous, s) ← lift
      (if can_pop then
         match inflight s with
         | [] => Err IndexError
         | l :: rest => Ok (l, set_inflight rest s)
         end
       else Ok ([], s));
    '(staged, s) ← _execute_lockstep (first ++ later) s;
    '(advanced, s) ← lift (rfold (harvest_pass digest decode_ids is_digit) previous ([], s));
    Ret (advanced,
      if decide (staged = []) then s
      else
        let s := foldl (λ s oid, update_request oid (λ r,
          Req.set_pending_tokens (Req.pending_tokens r + 1) r) s) s
          (concat ((λ l : Launched, work_requests l.1.1) <$> staged)) in
        set_inflight (inflight s ++ [staged]) s).

Definition step (s : Scheduler) : prog (list nat * Scheduler) :=
  let s := collect_tokenized s in
  if pipeline (settings s) then _step_pipelined s else _step_synchronous s.

(** ** The event loop *)

(** The head of a turn: drain the queue, then learn whether anyone has work. *)
Definition open_turn (enable_dp_attention : bool) (commands : list SchedulerCommand) (l : EventLoop) :
    prog (EventLoop * bool) :=
  '(_, l) ← lift (drain digest encode commands l);
  let local_active := has_unfinished_requests (sched l) in
  if enable_dp_attention then
    n ← coordinate_forward_count_across_dp g (Nat.b2n local_active); Ret (l, 0 <? n)
  else Ret (l, local_active).

(** [run_event_loop], over what is in the queue each time the loop drains it.
    [true] when the loop returned. *)
Fixpoint run (enable_dp_attention : bool) (turns : list (list SchedulerCommand)) (l : EventLoop) :
    prog (bool * EventLoop) :=
  match turns with
  | [] => Ret (false, l)
  | commands :: turns =>
      '(l, active) ← open_turn enable_dp_attention commands l;
      if stopping l && negb active then Ret (true, l)
      else if negb active then run enable_dp_attention turns l
      else
        '(advanced, s) ← step (sched l);
        l ← lift (publish advanced (set_sched s l));
        run enable_dp_attention turns l
  end.
End rank.

(** A replica's process: join the grid, then serve. *)
Definition _run_replica_process (a : init_args) (cuda_available initialized : bool) (prior : grid) (count r : nat)
    (turns : list (list SchedulerCommand)) (l : EventLoop) : prog (bool * EventLoop) :=
  '(g, _) ← init_parallel (Z.of_nat r) a cuda_available initialized prior count;
  run g (enable_dp_attention a) turns l.

(** ** All replicas side by side *)

(** One value per rank, if every rank computes one. *)
Definition all_ranks {A} (n : nat) (d : nat → A) (f : nat → result A) : result (nat → A) :=
  l ← rmap f (seq 0 n); Ok (λ r, default (d r) (l !! r)).

(** The passes a replica wants this turn. *)
Definition plan_passes (s : Scheduler) : result (list Work * Scheduler) :=
  '(scheduled, s) ← schedule digest (collect_tokenized s);
  let s := count_step s in
  first ← (if decide (prefill scheduled = []) then Ok []
           else prefill_work (prefill scheduled) (prefill_chunk_lens scheduled) (chunked_min_rows (settings s)) s);
  later ← (if decide (decode scheduled = []) then Ok []
           else w ← decode_work (decode scheduled) false s; Ok [w]);
  Ok (first ++ later, s).

(** The passes it runs: its own, then dummies. *)
Definition local_pass (work : list Work) (index : nat) (st : list Launched * Scheduler) :
    result (list Launched * Scheduler) :=
  let '(completed, s) := st in
  '(tokens, lps, x) ← execute (default dummy_plan (work_plan <$> work !! index)) (executor s);
  Ok (match work !! index with None => completed | Some w => completed ++ [(w, tokens, lps)] end, set_executor x s).

Definition close_step (target : nat) (planned : list Work * Scheduler) : result (list nat * Scheduler) :=
  '(pending, s) ← rfold (local_pass planned.1) (seq 0 target) ([], planned.2);
  '(emitted, s) ← rfold collect_one pending ([], s);
  harvest digest decode_ids is_digit emitted s.

Definition close_turn (target : nat) (planned : list Work * Scheduler) (l : EventLoop) : result EventLoop :=
  '(advanced, s) ← close_step target planned;
  publish advanced (set_sched s l).

(** The loops of the [n] replicas.  A turn without work in which some replicas
    stop and others do not has no answer: the ones that stay would wait. *)
Fixpoint together (n : nat) (turns : list (nat → list SchedulerCommand)) (ls : nat → EventLoop) :
    result (bool * (nat → EventLoop)) :=
  match turns with
  | [] => Ok (false, ls)
  | commands :: turns =>
      ls ← all_ranks n ls (λ r, '(_, l) ← drain digest encode (commands r) (ls r); Ok l);
      if existsb (λ r, has_unfinished_requests (sched (ls r))) (seq 0 n) then
        plans ← all_ranks n (λ r, ([], sched (ls r))) (λ r, plan_passes (sched (ls r)));
        let target := maximum ((λ r, length (plans r).1) <$> seq 0 n) in
        ls ← all_ranks n ls (λ r, close_turn target (plans r) (ls r));
        together n turns ls
      else if forallb (λ r, stopping (ls r)) (seq 0 n) then Ok (true, ls)
      else if existsb (λ r, stopping (ls r)) (seq 0 n) then Err TimeoutError
      else together n turns ls
  end.
End lockstep.
End Lockstep.
