(* ===== verification/LockstepSpec.v ===== *)
(** * Replicas under DP attention never wait in vain

    Side by side, the loops of the replicas compute what [together] says: every
    collective of one meets its counterparts in the others. *)

From Stdlib Require Import FunctionalExtensionality.
From S2P Require Import Spmd Topology ParallelState Collectives CollectiveSpec DPAttention TokenExchange.
From S2P Require Export Lockstep EventLoopSpec.

Module LockstepSpec.
Import Spmd ParallelState Collectives CollectiveSpec DPAttention TokenExchange.
Import Planner Inv PlannerSpec Sched Loop SchedInv Harvest Passes Evolve Sync Ops SchedSpec LoopSpec Lockstep.

(** ** One value per rank *)

Lemma all_ranks_lookup {A} n (d : nat → A) f a :
  all_ranks n d f = Ok a → ∀ r, r < n → f r = Ok (a r).
Proof.
  intros (l & Hl & [= <-])%bind_Ok r Hr. apply rmap_inv in Hl.
  destruct (Forall2_lookup_l _ _ _ r r Hl) as (b & Hb & E); [by apply lookup_seq_lt|]. by rewrite Hb.
Qed.

Lemma all_ranks_returns {A} n (d : nat → A) f (P : nat → A → Prop) :
  (∀ r, r < n → returns (f r) (P r)) → returns (all_ranks n d f) (λ a, ∀ r, r < n → P r (a r)).
Proof.
  intros Hf. assert (returns (rmap f (seq 0 n)) (λ _, True)) as (l & Hl & _).
  { eapply returns_mono; [apply (returns_rmap f P)|done]. intros r [_ Hr]%elem_of_seq. by apply Hf. }
  unfold all_ranks. rewrite Hl. apply returns_ret. intros r Hr.
  assert (all_ranks n d f = Ok (λ r, default (d r) (l !! r))) as E by (unfold all_ranks; by rewrite Hl).
  pose proof (all_ranks_lookup _ _ _ _ E r Hr) as Er. destruct (Hf r Hr) as (b & Hb & HP). rewrite Hb in Er. by injection Er as ->.
Qed.

Section programs.
Context {V : Type} (wire : collective → list V → option (list (list V))).

Lemma prog_bind_assoc {A B C} (p : prog (V := V) A) (f : A → prog (V := V) B) (g : B → prog (V := V) C) :
  (p ≫= f) ≫= g = p ≫= λ x, f x ≫= g.
Proof.
  induction p as [| |? ? ? ? IH]; [done|done|]. cbn. f_equal. apply functional_extensionality. exact IH.
Qed.

(** A first part the ranks run in step, whatever comes next. *)
Lemma spmd_prefix {A B} n (p : nat → prog A) (f : nat → A → prog B) a :
  spmd wire n p a → rtc (Spmd.step wire) ((λ r, p r ≫= f r) <$> seq 0 n) ((λ r, f r (a r)) <$> seq 0 n).
Proof.
  unfold spmd. intros Hp.
  assert (rtc (Spmd.step wire) (bind_all f (p <$> seq 0 n)) (bind_all f ((λ r, Ret (a r)) <$> seq 0 n))) as H.
  { revert Hp. generalize (p <$> seq 0 n) as c1. intros c1. induction 1 as [c1|c1 c2 c3 H1 _ IH]; [apply rtc_refl|].
    eapply rtc_l; [|exact IH]. by apply bind_all_step. }
  by rewrite !bind_all_seq in H.
Qed.

(** A rank that has left leaves whoever waits for it in a collective. *)
Lemma left_behind {A} (cfg cfg' : list (@prog V A)) p q P g c x k :
  rtc (Spmd.step wire) cfg cfg' → cfg !! p = Some P → match P with Call _ _ _ _ => False | _ => True end →
  p ∈ ranks g → cfg !! q = Some (Call g c x k) → cfg' !! q = Some (Call g c x k).
Proof.
  intros Hrun Hp HP Hin. revert Hp. induction Hrun as [cfg|cfg1 cfg2 cfg3 Hs _ IH]; intros Hp Hq; [done|].
  destruct Hs as (g' & c' & xs & ys & _ & _ & Hr & _ & _ & ->).
  assert (p ∉ ranks g') as Hp'.
  { intros (x' & k' & E)%(ready_call _ _ _ _ _ Hr). rewrite Hp in E. injection E as ->. exact HP. }
  assert (q ∉ ranks g') as Hq'.
  { intros (x' & k' & E)%(ready_call _ _ _ _ _ Hr). rewrite Hq in E. by injection E as <- _ _ _. }
  apply IH; by rewrite deliver_other.
Qed.

(** A loop whose body the ranks run in step. *)
Lemma spmd_rfold {A S} n (f : nat → A → S → prog S) (g : nat → A → S → result S) l : ∀ s a : nat → S,
  (∀ x s s', x ∈ l → (∀ r, r < n → g r x (s r) = Ok (s' r)) → spmd wire n (λ r, f r x (s r)) s') →
  (∀ r, r < n → rfold (g r) l (s r) = Ok (a r)) → spmd wire n (λ r, pfold (f r) l (s r)) a.
Proof.
  induction l as [|x l IH]; intros s a Hf Ha; cbn [rfold pfold] in *.
  - apply (spmd_lift wire n (λ r, Ok (s r))). intros r Hr. by apply Ha.
  - set (s' := λ r, match g r x (s r) with Ok y => y | Err _ => s r end).
    assert (∀ r, r < n → g r x (s r) = Ok (s' r) ∧ rfold (g r) l (s' r) = Ok (a r)) as Hs.
    { intros r Hr. pose proof (Ha r Hr) as (y & Hy & Hl)%bind_Ok. unfold s'. by rewrite Hy. }
    apply (spmd_bind wire n _ (λ r, pfold (f r) l) s'); [apply Hf; [left|]; intros r Hr; by apply Hs|].
    apply IH; [|intros r Hr; by apply Hs]. intros y s1 s2 Hy. apply Hf. by right.
Qed.

(** A step of the ranks that computes what the first half of a fallible
    computation does, and a rest that does the second half. *)
Lemma spmd_then {A B C} n (p : nat → result A) (q : nat → A → result B) (b : nat → B) (d : nat → A)
    (P : nat → prog A) (K : nat → A → prog C) (c : nat → C) :
  (∀ r, r < n → p r ≫= q r = Ok (b r)) →
  (∀ a, (∀ r, r < n → p r = Ok (a r)) → spmd wire n P a) →
  (∀ a, (∀ r, r < n → p r = Ok (a r)) → (∀ r, r < n → q r (a r) = Ok (b r)) → spmd wire n (λ r, K r (a r)) c) →
  spmd wire n (λ r, P r ≫= K r) c.
Proof.
  intros Hpq HP HK. set (a := λ r, match p r with Ok y => y | Err _ => d r end).
  assert (∀ r, r < n → p r = Ok (a r) ∧ q r (a r) = Ok (b r)) as Ha.
  { intros r Hr. pose proof (Hpq r Hr) as (y & Hy & Hq)%bind_Ok. unfold a. by rewrite Hy. }
  eapply (spmd_bind wire n P K a); [apply HP|apply HK]; intros r Hr; by apply Ha.
Qed.
End programs.

(** ** A grid of replicas *)

Section Replicas.
Context {T X LP Row H W : Type} `{!Offload.OffloadingManager T} `{!Executor X LP Row} `{!HiddenOps H W}
  (digest : list Z → list Z) (digest_ok : Chain.digest_ok digest)
  (decode_ids : list Z → Text.text) (encode : Text.text → result (list Z)) (is_digit : Z → bool)
  (k c : nat) (resumes : bool) `{!ExecutorLaws X LP Row k c resumes}.
Hypothesis encode_tokens : ∀ prompt l, encode prompt = Ok l → Forall Chain.is_token l.

Notation EventLoop := (@EventLoop T X LP).
Notation Scheduler := (@Scheduler T X LP).
Notation tensor := (list (@DPAttention.row H W)).
Notation Launched := (Work * list Z * option (PassLogprobs LP))%type.
Notation answer := (list Z * option (PassLogprobs LP) * X)%type.
Implicit Types (l : EventLoop) (s : Scheduler).

Context (rows : ModelInput → X → nat)
  (forward : grid → option DPMetadata → ModelInput → X → @prog tensor answer)
  (dummy_slot : nat) (pad_id : Z).

Notation together := (Lockstep.together (Row := Row) digest decode_ids encode is_digit dummy_slot pad_id).
Notation run := (Lockstep.run (Row := Row) digest decode_ids encode is_digit rows forward dummy_slot pad_id).
Notation dummy_plan := (Lockstep.dummy_plan dummy_slot pad_id).
Notation local_pass := (Lockstep.local_pass (Row := Row) dummy_slot pad_id).
Notation close_turn := (Lockstep.close_turn (Row := Row) digest decode_ids is_digit dummy_slot pad_id).

(** *** One replica *)

(** The executor runs the dummy pass. *)
Hypothesis dummy_runs : ∀ x, returns (execute dummy_plan x) (λ _, True).

(** The passes a turn has planned on [s], and what the rest of the turn needs. *)
Definition planned s (work : list Work) : Prop :=
  ∃ out first later, let owed := λ o, o ∈ prefill out in
    work = first ++ later ∧ covers_group resumes s (prefill out) first ∧ Forall (pass_ok resumes s) later ∧
    (∀ o, o ∈ prefill out → o ∈ running (planner s) ∧ o ∉ decode out) ∧
    speculated digest owed (decode out) s (decode out) s.

Lemma plan_passes_Ok s :
  good digest nobody nobody s → sized k c resumes s →
  returns (plan_passes digest s) (λ '(work, s'), planned s' work ∧ sized k c resumes s' ∧ evolves s s').
Proof.
  intros Hg Hsz. destruct (collect_tokenized_Ok digest s Hg) as [Hg0 He0]. unfold plan_passes.
  step_with (schedule_Ok digest digest_ok (collect_tokenized s) Hg0). intros [out s1] (Hg1 & Hsound & He1 & _ & _ & Hown).
  cbv zeta. set (s2 := count_step s1).
  assert (He : evolves s s2).
  { eapply evolves_trans; [exact He0|]. eapply evolves_trans; [exact He1|]. by eapply planner_evolves. }
  destruct (planned_decodable digest out s1 Hg1 Hsound) as (Hnd & Hdec & Hgroup).
  assert (Hg2 : good digest (λ o, o ∈ prefill out) nobody s2) by (by apply count_good).
  assert (Hsz2 : sized k c resumes s2) by (by eapply evolves_sized).
  step_with (first_passes_Ok digest resumes out s1 (chunked_min_rows (settings s2)) (proj2 (proj2 Hsz2)) Hg1 Hsound Hown). intros first Hfirst.
  step_with (later_passes_Ok digest resumes (λ o, o ∈ prefill out) s2 (decode out) Hg2 Hnd Hdec). intros later Hlater.
  apply returns_ret. split_and!; [|done|done].
  exists out, first, later. split_and!; try done. by apply speculated_none.
Qed.

Lemma own_passes {A} (work : list A) target : length work ≤ target → omap (work !!.) (seq 0 target) = work.
Proof.
  revert target. induction work as [|w work IH]; intros target Hl.
  - induction (seq 0 target) as [|i l IHl]; [done|exact IHl].
  - destruct target as [|target]; [cbn in Hl; lia|]. cbn. f_equal. rewrite <- fmap_S_seq.
    etrans; [|apply (IH target); cbn in Hl; lia]. induction (seq 0 target) as [|i l IHl]; [done|]. cbn. by rewrite IHl.
Qed.

(** A replica's passes answer as its executor would alone; the dummies leave
    everything but the executor as it is. *)
Lemma local_passes_Ok work target s :
  Forall (λ w, fits k c resumes (work_plan w)) work → length work ≤ target →
  returns (rfold (local_pass work) (seq 0 target) ([], s)) (λ '(pending, s'),
    Forall2 (λ w (e : Launched), e.1.1 = w ∧ answers (work_plan w) e.1.2 e.2) work pending ∧
    s' = set_executor (executor s') s).
Proof.
  intros Hf Hl. eapply returns_mono.
  - apply (returns_rfold (λ pre '(completed, s1),
      Forall2 (λ w (e : Launched), e.1.1 = w ∧ answers (work_plan w) e.1.2 e.2) (omap (work !!.) pre) completed ∧
      s1 = set_executor (executor s1) s)).
    + split; [constructor|by destruct s].
    + intros pre i post [completed s1] _ [Hd Hs]. unfold local_pass. rewrite omap_app. cbn [omap list_omap].
      destruct (work !! i) as [w|] eqn:Ei; cbn [fmap option_fmap option_map from_option id].
      * destruct (execute_ok (work_plan w) (executor s1)) as (toks & lps & x & E & Ha).
        { rewrite Forall_forall in Hf. by eapply Hf, list_elem_of_lookup_2. }
        rewrite E. cbn [mbind result_bind]. apply returns_ret. split; [|by rewrite Hs].
        apply Forall2_app; [done|]. by apply Forall2_cons.
      * destruct (dummy_runs (executor s1)) as ([[toks lps] x] & E & _). rewrite E. cbn [mbind result_bind].
        apply returns_ret. rewrite app_nil_r. split; [done|by rewrite Hs].
  - intros [pending s']. by rewrite own_passes.
Qed.

Context (st : Settings) (synchronous : pipeline st = false).
Notation healthy := (LoopSpec.healthy digest k c resumes st).

Lemma close_turn_Ok target l work s :
  healthy l → planned s work → sized k c resumes s → evolves (sched l) s → length work ≤ target →
  returns (close_turn target (work, s) l) healthy.
Proof.
  intros Hh (out & first & later & -> & Hfirst & Hlater & Hgroup & Hsp) Hsz He Hl.
  unfold Lockstep.close_turn, Lockstep.close_step. cbn [fst snd]. apply returns_bind.
  assert (Hfits : Forall (λ w, fits k c resumes (work_plan w)) (first ++ later)).
  { apply Forall_app. split; apply (pass_fits k c resumes resumes s); try done. apply (cg_ok _ _ _ _ Hfirst). }
  step_with (local_passes_Ok (first ++ later) target s Hfits Hl). intros [pending s1] [Hpend Es1].
  step_with (finish_step_Ok digest digest_ok decode_ids is_digit k c resumes out first later pending s s s1 (decode out)
    Hfirst Hgroup Hsp Hlater Hsz Hsz Es1 Hpend).
  intros [emitted s2] Hf. eapply returns_mono; [exact Hf|]. intros [advanced s3] (Hg3 & Hev3 & Hadv).
  apply (publish_Ok digest k c resumes st); [|done]. apply (healthy_op digest k c resumes st l); [done|done|by eapply evolves_trans].
Qed.

(** *** The grid *)

Context (wire : collective → list tensor → option (list (list tensor))) `{!WireLaws wire}
  (t : Topology.ParallelTopology) (Ht : Topology.valid t) (a : init_args) (G : nat → grid).
Hypothesis HG : placed t a G.
Hypothesis Htp : Topology.tp_size t = 1.
Hypothesis Hdp : dp_attention_wanted t a = true.
Notation n := (Topology.world_size t).
Notation spmd := (Spmd.spmd wire n).

(** What runs inside the region: when every replica brings a pass, and the
    region agreed on their rows, the replicas run it together and each gets the
    answer of its executor. *)
Hypothesis forward_meets : ∀ (plans : nat → ModelInput) (xs : nat → X) (ans : nat → answer),
  (∀ r, r < n → execute (plans r) (xs r) = Ok (ans r)) →
  spmd (λ r, forward (G r) (Some (MkMetadata ((λ q, rows (plans q) (xs q)) <$> seq 0 n) r)) (plans r) (xs r)) ans.

Lemma one_replica_per_rank : Topology.dp_size t = n.
Proof. unfold Topology.world_size. rewrite Htp. lia. Qed.

Lemma enabled r : r < n → _DP_ATTENTION (G r) = true.
Proof. intros Hr. destruct (placed_sizes _ _ _ HG r Hr) as (_ & _ & _ & _ & _ & -> & _). done. Qed.

Lemma spmd_target (count : nat → nat) :
  spmd (λ r, coordinate_forward_count_across_dp (G r) (count r)) (λ _, maximum (count <$> seq 0 n)).
Proof.
  pose proof (spmd_forward_count wire t a G HG Hdp count) as Hs. rewrite one_replica_per_rank in Hs.
  eapply spmd_ext; [| |exact Hs]; [|done]. intros r _. cbn. by rewrite Htp, Nat.div_1_r.
Qed.

Lemma spmd_inner (plans : nat → ModelInput) (xs : nat → X) (ans : nat → answer) :
  (∀ r, r < n → execute (plans r) (xs r) = Ok (ans r)) →
  spmd (λ r, _execute_inner rows forward (G r) (plans r) (xs r)) ans.
Proof.
  intros Ha. apply (spmd_bind wire n _ (λ r m, forward (G r) m (plans r) (xs r))
    (λ r, Some (MkMetadata ((λ q, rows (plans q) (xs q)) <$> seq 0 n) r))); [|by apply forward_meets].
  apply (spmd_ext wire n (λ r, m ← coordinate_tokens_across_dp (G r) (rows (plans (r / Topology.tp_size t)) (xs (r / Topology.tp_size t)));
    Ret (Some m)) _ (λ r, Some (metadata t (λ q, rows (plans q) (xs q)) r))).
  - intros r Hr. unfold dp_attention_region. rewrite enabled by done. by rewrite Htp, Nat.div_1_r.
  - intros r _. unfold metadata. by rewrite one_replica_per_rank, Htp, Nat.div_1_r.
  - eapply spmd_bind; [apply (spmd_tokens wire t a G HG Hdp (λ q, rows (plans q) (xs q)))|apply spmd_ret].
Qed.

Lemma spmd_pass work index (sts sts' : nat → list Launched * Scheduler) :
  (∀ r, r < n → local_pass (work r) index (sts r) = Ok (sts' r)) →
  spmd (λ r, lockstep_pass rows forward dummy_slot pad_id (G r) (work r) index (sts r)) sts'.
Proof.
  intros Hs. set (plan r := default dummy_plan (work_plan <$> work r !! index)).
  set (put r (e : answer) := (match work r !! index with None => (sts r).1 | Some w => (sts r).1 ++ [(w, e.1.1, e.1.2)] end,
    set_executor e.2 (sts r).2)).
  apply (spmd_ext wire n (λ r, e ← _execute_inner rows forward (G r) (plan r) (executor (sts r).2); Ret (put r e)) _ sts' _).
  - intros r _. unfold lockstep_pass, plan, put. destruct (sts r) as [completed s]. cbn [fst snd].
    destruct (work r !! index) as [w|]; cbn [fmap option_fmap option_map from_option id].
    + f_equal. apply functional_extensionality. by intros [[toks lps] x].
    + unfold execute_dummy. rewrite prog_bind_assoc. f_equal. apply functional_extensionality. by intros [[toks lps] x].
  - done.
  - eapply (spmd_then wire n (λ r, execute (plan r) (executor (sts r).2)) (λ r e, Ok (put r e)) sts'
      (λ r, ([], None, executor (sts r).2))).
    + intros r Hr. rewrite <- (Hs r Hr). unfold Lockstep.local_pass, plan, put. destruct (sts r) as [completed s]. cbn [fst snd].
      by destruct (execute _ _) as [[[toks lps] x]|].
    + intros ans Ha. by apply spmd_inner.
    + intros ans _ Hq. apply (spmd_lift wire n (λ r, Ok (put r (ans r)))). done.
Qed.

Lemma spmd_execute (works : nat → list Work) (ss : nat → Scheduler) res :
  (∀ r, r < n → rfold (local_pass (works r)) (seq 0 (maximum ((λ r, length (works r)) <$> seq 0 n))) ([], ss r) = Ok (res r)) →
  spmd (λ r, _execute_lockstep rows forward dummy_slot pad_id (G r) (works r) (ss r)) res.
Proof.
  intros Hr. apply (spmd_bind wire n _ (λ r target, pfold (lockstep_pass rows forward dummy_slot pad_id (G r) (works r))
    (seq 0 target) ([], ss r)) _ res (spmd_target (λ r, length (works r)))).
  apply (spmd_rfold wire n (λ r, lockstep_pass rows forward dummy_slot pad_id (G r) (works r)) (λ r, local_pass (works r)));
    [|done]. intros index sts sts' _. by apply spmd_pass.
Qed.

(** Without speculation a replica's step is planning, passes and harvest. *)
Lemma step_stages g s :
  _DP_ATTENTION g = true → pipeline (settings (collect_tokenized s)) = false →
  proposer (settings (collect_tokenized s)) = None →
  Lockstep.step (Row := Row) digest decode_ids is_digit rows forward dummy_slot pad_id g s =
  ('(work, s) ← lift (plan_passes digest s);
   '(pending, s) ← _execute_lockstep rows forward dummy_slot pad_id g work s;
   '(emitted, s) ← lift (rfold collect_one pending ([], s));
   lift (harvest digest decode_ids is_digit emitted s)).
Proof.
  intros Hg Hp Hn. unfold Lockstep.step, plan_passes. rewrite Hp. set (s0 := collect_tokenized s) in *.
  unfold _step_synchronous. destruct (schedule digest s0) as [[out s1]|e] eqn:E; [|done].
  cbn [lift mbind prog_bind result_bind]. rewrite Hg, andb_false_r. cbv zeta.
  assert (proposer (settings (count_step s1)) = None) as ->.
  { unfold schedule in E. apply bind_Ok in E as ([out' p'] & _ & [= _ <-]).
    destruct (preempted_fronts digest digest_ok (preempted out') (set_planner p' s0)) as (_ & _ & (F & _) & _).
    cbn. rewrite F. exact Hn. }
  destruct (if decide (prefill out = []) then _ else _) as [first|e]; [|done]. cbn [lift mbind prog_bind result_bind].
  destruct (if decide (decode out = []) then _ else _) as [later|e]; [|done]. cbn [lift mbind prog_bind result_bind].
  f_equal. apply functional_extensionality. intros [pending s3].
  destruct (rfold _ _ _) as [[emitted s4]|e]; [|done]. cbn [lift mbind prog_bind result_bind].
  destruct (harvest _ _ _ _ _) as [[advanced s5]|e]; [|done]. cbn. by rewrite app_nil_r.
Qed.

Lemma spmd_step ss plans res :
  (∀ r, r < n → pipeline (settings (collect_tokenized (ss r))) = false ∧ proposer (settings (collect_tokenized (ss r))) = None) →
  (∀ r, r < n → plan_passes digest (ss r) = Ok (plans r)) →
  (∀ r, r < n → close_step digest decode_ids is_digit dummy_slot pad_id
    (maximum ((λ r, length (plans r).1) <$> seq 0 n)) (plans r) = Ok (res r)) →
  spmd (λ r, Lockstep.step (Row := Row) digest decode_ids is_digit rows forward dummy_slot pad_id (G r) (ss r)) res.
Proof.
  intros Hs Hp Hc. eapply (spmd_ext wire n _ _ res res).
  { intros r Hr. destruct (Hs r Hr). symmetry. apply step_stages; [by apply enabled|done|done]. }
  { done. }
  apply (spmd_bind wire n _ (λ r '(work, s), '(pending, s) ← _execute_lockstep rows forward dummy_slot pad_id (G r) work s;
    '(emitted, s) ← lift (rfold collect_one pending ([], s)); lift (harvest digest decode_ids is_digit emitted s)) plans);
    [by apply spmd_lift|].
  eapply spmd_ext; [intros r _; by rewrite (surjective_pairing (plans r))|done|].
  eapply (spmd_then wire n _ _ res (λ r, ([], (plans r).2)) _ _ res); [exact Hc|intros st' Hst; by apply spmd_execute|].
  intros pend _ Hq. eapply spmd_ext; [intros r _; by rewrite (surjective_pairing (pend r))|done|].
  eapply (spmd_then wire n (λ r, rfold collect_one (pend r).1 ([], (pend r).2))
    (λ _ '(emitted, s), harvest digest decode_ids is_digit emitted s) res (λ r, ([], (plans r).2)) _ _ res);
    [|intros em Hem; by apply spmd_lift|].
  - intros r Hr. pose proof (Hq r Hr) as Hqr. rewrite (surjective_pairing (pend r)) in Hqr. exact Hqr.
  - intros em _ Hem. eapply spmd_ext; [intros r _; by rewrite (surjective_pairing (em r))|done|].
    apply spmd_lift. intros r Hr. pose proof (Hem r Hr) as Hh. by rewrite (surjective_pairing (em r)) in Hh.
Qed.

(** *** The loops *)

Context (unspeculative : proposer st = None).

Lemma collected_settings l :
  healthy l → pipeline (settings (collect_tokenized (sched l))) = false ∧
  proposer (settings (collect_tokenized (sched l))) = None.
Proof.
  intros (Hg & _ & Es). destruct (collect_tokenized_Ok digest (sched l) Hg) as [_ He].
  by rewrite (proj1 (ev_limits _ _ He)), Es.
Qed.

Lemma positive_maximum (b : nat → bool) (js : list nat) :
  (0 <? maximum ((λ r, Nat.b2n (b r)) <$> js)) = existsb b js.
Proof.
  unfold maximum. induction js as [|r js IH]; [done|]. cbn [fmap list_fmap foldr existsb]. rewrite <- IH.
  destruct (b r); cbn [Nat.b2n orb]; [|by rewrite Nat.max_0_l]. apply Nat.ltb_lt. lia.
Qed.

Definition turn_ok (commands : nat → list SchedulerCommand) : Prop := ∀ r, r < n → Forall command_ok (commands r).

(** The replicas drain their queues and agree on whether anyone is active. *)
Lemma spmd_open commands (ls ls1 : nat → EventLoop) :
  (∀ r, r < n → ('(_, l) ← drain digest encode (commands r) (ls r); Ok l) = Ok (ls1 r)) →
  spmd (λ r, open_turn digest encode (G r) true (commands r) (ls r))
    (λ r, (ls1 r, existsb (λ r, has_unfinished_requests (sched (ls1 r))) (seq 0 n))).
Proof.
  intros Hd.
  apply (spmd_ext wire n (λ r, l ← lift ('(_, l) ← drain digest encode (commands r) (ls r); Ok l);
    count ← coordinate_forward_count_across_dp (G r) (Nat.b2n (has_unfinished_requests (sched l)));
    Ret (l, 0 <? count)) _ (λ r, (ls1 r, existsb (λ r, has_unfinished_requests (sched (ls1 r))) (seq 0 n)))); [|done|].
  { intros r _. unfold open_turn. by destruct (drain _ _ _ _) as [[u l]|]. }
  eapply spmd_bind; [by apply spmd_lift|]. cbv beta.
  eapply spmd_bind; [apply (spmd_target (λ r, Nat.b2n (has_unfinished_requests (sched (ls1 r)))))|].
  rewrite <- positive_maximum. apply spmd_ret.
Qed.

(** The queues drained, every loop is healthy. *)
Lemma drained_Ok commands (ls : nat → EventLoop) r :
  turn_ok commands → r < n → healthy (ls r) →
  returns ('(_, l) ← drain digest encode (commands r) (ls r); Ok l) healthy.
Proof.
  intros Hc Hr Hl.
  step_with (loop_drain_Ok digest digest_ok encode k c resumes encode_tokens st (commands r) (ls r) Hl (Hc r Hr)).
  intros [u l'] Hl'. by apply returns_ret.
Qed.

(** A turn planned by all replicas, with as many passes as any of them wants. *)
Lemma closed_Ok (ls : nat → EventLoop) (plans : nat → list Work * Scheduler) r :
  r < n → healthy (ls r) → plan_passes digest (sched (ls r)) = Ok (plans r) →
  returns (close_turn (maximum ((λ r, length (plans r).1) <$> seq 0 n)) (plans r) (ls r)) healthy.
Proof.
  intros Hr Hl E. destruct Hl as (Hg & Hsz & Hst).
  destruct (plan_passes_Ok (sched (ls r)) Hg Hsz) as ([work s'] & E' & Hpl & Hsz' & He). rewrite E in E'.
  injection E' as E'. assert (length work ≤ maximum ((λ r, length (plans r).1) <$> seq 0 n)) as Hle.
  { apply elem_le_maximum, list_elem_of_fmap. exists r. rewrite E'. split; [done|]. apply elem_of_seq. lia. }
  rewrite E'. by apply close_turn_Ok.
Qed.

(** Whatever [together] answers, the replicas reach. *)
Lemma spmd_run turns : ∀ (ls : nat → EventLoop) res,
  (∀ r, r < n → healthy (ls r)) → Forall turn_ok turns → together n turns ls = Ok res →
  spmd (λ r, run (G r) true ((λ f : nat → list SchedulerCommand, f r) <$> turns) (ls r)) (λ r, (res.1, res.2 r)).
Proof.
  induction turns as [|commands turns IH]; intros ls res Hls Hc; cbn [Lockstep.together fmap list_fmap Lockstep.run].
  { intros [= <-]. apply spmd_ret. }
  apply Forall_cons in Hc as [Hc Hcs]. intros (ls1 & Hd & Hrest)%bind_Ok.
  pose proof (all_ranks_lookup _ _ _ _ Hd) as Hd'. clear Hd.
  assert (∀ r, r < n → healthy (ls1 r)) as Hls1.
  { intros r Hr. destruct (drained_Ok commands ls r Hc Hr (Hls r Hr)) as (l & E & Hl). rewrite (Hd' r Hr) in E. by injection E as ->. }
  apply (spmd_bind wire n _ _ _ _ (spmd_open commands ls ls1 Hd')). cbv beta iota.
  destruct (existsb _ (seq 0 n)) eqn:Eactive; cbn [negb].
  - apply bind_Ok in Hrest as (plans & Hp & Hrest). pose proof (all_ranks_lookup _ _ _ _ Hp) as Hp'. clear Hp. cbv zeta in Hrest.
    apply bind_Ok in Hrest as (ls2 & Hq & Hrest). pose proof (all_ranks_lookup _ _ _ _ Hq) as Hq'. clear Hq.
    eapply spmd_ext; [intros r _; by rewrite andb_false_r|done|].
    eapply (spmd_then wire n _ _ ls2 (λ r, ([], sched (ls1 r))) _ _ (λ r, (res.1, res.2 r))); [exact Hq'| |].
    + intros out Hout. apply (spmd_step (λ r, sched (ls1 r)) plans out); [|done|done].
      intros r Hr. by apply collected_settings, Hls1.
    + intros out _ Hout. eapply spmd_ext; [intros r _; by rewrite (surjective_pairing (out r))|done|].
      apply (spmd_bind wire n _ (λ r, run (G r) true ((λ f : nat → list SchedulerCommand, f r) <$> turns)) ls2).
      * apply spmd_lift. intros r Hr. pose proof (Hout r Hr) as Ho. by rewrite (surjective_pairing (out r)) in Ho.
      * apply (IH ls2 res); [|done|done]. intros r Hr.
        destruct (closed_Ok ls1 plans r Hr (Hls1 r Hr) (Hp' r Hr)) as (l & E & Hl). rewrite (Hq' r Hr) in E. by injection E as ->.
  - destruct (forallb _ _) eqn:Estop.
    + injection Hrest as <-. eapply spmd_ext; [| |apply spmd_ret]; [|done]. intros r Hr. cbn.
      rewrite forallb_forall in Estop. rewrite Estop; [done|]. apply in_seq. lia.
    + destruct (existsb (λ r, stopping (ls1 r)) (seq 0 n)) eqn:Ewait; [done|].
      eapply spmd_ext; [| |by apply (IH ls1 res)]; [|done]. intros r Hr. cbn.
      destruct (stopping (ls1 r)) eqn:Es; [|done]. exfalso. apply not_true_iff_false in Ewait. apply Ewait.
      apply existsb_exists. exists r. split; [apply in_seq; lia|done].
Qed.

(** *** Shutdowns *)

Definition is_shutdown (x : SchedulerCommand) : bool := match x with CmdShutdown => true | _ => false end.

Lemma apply_add_stopping c0 l l' : apply_add encode c0 l = Ok l' → stopping l' = stopping l.
Proof.
  unfold apply_add. destruct (stopping l) eqn:E; [by intros [= <-]|].
  destruct (Sched.add_request _ _ _ _ _ _ _) as [[o s]|[]]; by (intros [= <-] || intros [=]).
Qed.

Lemma apply_stopping x l l' : apply digest encode x l = Ok l' → stopping l' = stopping l || is_shutdown x.
Proof.
  destruct x as [c0|cs|rid|call method| |]; cbn [apply is_shutdown]; rewrite ?orb_false_r.
  - apply apply_add_stopping.
  - revert l. induction cs as [|c0 cs IH]; intros l; cbn [rfold]; [by intros [= <-]|].
    intros (l1 & E & E')%bind_Ok. rewrite (IH l1 E'). by eapply apply_add_stopping.
  - intros ([o s] & _ & [= <-])%bind_Ok. done.
  - by intros [= <-].
  - by intros [= <-].
  - intros [= <-]. by rewrite orb_true_r.
Qed.

Lemma drain_stopping commands : ∀ l u l',
  drain digest encode commands l = Ok (u, l') → stopping l' = stopping l || existsb is_shutdown commands.
Proof.
  induction commands as [|x commands IH]; intros l u l'; cbn [drain existsb]; destruct (stopping l) eqn:El.
  - intros [= <- <-]. by rewrite El.
  - intros [= <- <-]. by rewrite El.
  - intros [= <- <-]. by rewrite El.
  - intros (l1 & E & E')%bind_Ok. by rewrite (IH _ _ _ E'), (apply_stopping _ _ _ E), El.
Qed.

Lemma publish_stopping advanced l l' : publish advanced l = Ok l' → stopping l' = stopping l.
Proof.
  intros ([events l1] & E & [= <-])%bind_Ok.
  assert (stopping l1 = stopping l) as <-; [|by case_decide].
  revert E. generalize ([] : list (RequestEvent LP)). revert l.
  induction advanced as [|o advanced IH]; intros l evs; cbn [rfold]; [by intros [= _ <-]|].
  intros ([evs' l2] & E & E')%bind_Ok. rewrite (IH _ _ E'). unfold publish_one in E.
  apply bind_Ok in E as (r & _ & E). apply bind_Ok in E as (f & _ & E). cbv zeta in E.
  case_match; [by injection E as _ <-|]. case_decide; injection E as _ <-; by repeat (case_decide || case_match).
Qed.

(** Every turn brings a shutdown to all replicas or to none. *)
Definition shutdown_agrees (commands : nat → list SchedulerCommand) : Prop :=
  ∀ r r', r < n → r' < n → existsb is_shutdown (commands r) = existsb is_shutdown (commands r').

Lemma together_Ok turns : ∀ ls : nat → EventLoop,
  (∀ r, r < n → healthy (ls r)) → (∀ r r', r < n → r' < n → stopping (ls r) = stopping (ls r')) →
  Forall turn_ok turns → Forall shutdown_agrees turns →
  returns (together n turns ls) (λ '(over, ls'), over = true →
    ∀ r, r < n → stopping (ls' r) = true ∧ has_unfinished_requests (sched (ls' r)) = false).
Proof.
  induction turns as [|commands turns IH]; intros ls Hls Hs Hc Ha; cbn [Lockstep.together]; [by apply returns_ret|].
  apply Forall_cons in Hc as [Hc Hcs]. apply Forall_cons in Ha as [Ha Has].
  apply returns_bind. eapply returns_mono.
  { apply (all_ranks_returns _ _ _ (λ r l, healthy l ∧ stopping l = stopping (ls r) || existsb is_shutdown (commands r))).
    intros r Hr. destruct (drained_Ok commands ls r Hc Hr (Hls r Hr)) as (l & E & Hl). exists l. split; [done|]. split; [done|].
    apply bind_Ok in E as ([u l'] & E & [= <-]). by eapply drain_stopping. }
  intros ls1 H1. assert (∀ r r', r < n → r' < n → stopping (ls1 r) = stopping (ls1 r')) as Hs1.
  { intros r r' Hr Hr'. destruct (H1 r Hr) as (_ & ->), (H1 r' Hr') as (_ & ->). by rewrite (Hs r r'), (Ha r r'). }
  destruct (existsb _ (seq 0 n)) eqn:Eactive.
  - apply returns_bind. eapply returns_mono.
    { apply (all_ranks_returns _ _ _ (λ r plan, plan_passes digest (sched (ls1 r)) = Ok plan)). intros r Hr.
      destruct (H1 r Hr) as ((Hg & Hsz & _) & _). destruct (plan_passes_Ok (sched (ls1 r)) Hg Hsz) as (plan & E & _). by exists plan. }
    intros plans Hp. cbv zeta. apply returns_bind. eapply returns_mono.
    { apply (all_ranks_returns _ _ _ (λ r l, healthy l ∧ stopping l = stopping (ls1 r))). intros r Hr.
      destruct (closed_Ok ls1 plans r Hr (proj1 (H1 r Hr)) (Hp r Hr)) as (l & E & Hl). exists l. split; [done|]. split; [done|].
      apply bind_Ok in E as ([advanced s] & _ & E). by rewrite (publish_stopping _ _ _ E). }
    intros ls2 H2. apply IH; [by intros r Hr; apply H2| |done|done].
    intros r r' Hr Hr'. destruct (H2 r Hr) as (_ & ->), (H2 r' Hr') as (_ & ->). by apply Hs1.
  - destruct (forallb _ _) eqn:Estop.
    + apply returns_ret. intros _ r Hr. assert (In r (seq 0 n)) as Hin by (apply in_seq; lia). split.
      * rewrite forallb_forall in Estop. by apply Estop.
      * destruct (has_unfinished_requests (sched (ls1 r))) eqn:Eu; [|done]. exfalso. apply not_true_iff_false in Eactive.
        apply Eactive, existsb_exists. by exists r.
    + destruct (existsb (λ r, stopping (ls1 r)) (seq 0 n)) eqn:Ewait; [|by apply IH; [intros r Hr; apply H1| | |]].
      exfalso. apply existsb_exists in Ewait as (r & Hr%in_seq & Es). apply not_true_iff_false in Estop. apply Estop.
      apply forallb_forall. intros r' Hr'%in_seq. rewrite (Hs1 r' r); [done|lia|lia].
Qed.
End Replicas.

(** ** A replica of its own

    Without DP attention the program of a rank is the command loop of
    [EventLoop], so its theorems apply. *)

Section Alone.
Context {T X LP Row H W : Type} `{!Offload.OffloadingManager T} `{!Executor X LP Row} `{!HiddenOps H W}
  (digest : list Z → list Z) (decode_ids : list Z → Text.text)
  (encode : Text.text → result (list Z)) (is_digit : Z → bool)
  (rows : ModelInput → X → nat)
  (forward : grid → option DPMetadata → ModelInput → X → @prog (list (@DPAttention.row H W)) (list Z * option (PassLogprobs LP) * X))
  (dummy_slot : nat) (pad_id : Z) (g : grid).
Hypothesis off : _DP_ATTENTION g = false.
Hypothesis forward_executes : ∀ plan x, forward g None plan x = lift (execute plan x).

Lemma alone_passes suf : ∀ pre st,
  pfold (lockstep_pass rows forward dummy_slot pad_id g (pre ++ suf)) (seq (length pre) (length suf)) st =
  lift (rfold (execute_one (X := X) (LP := LP) (Row := Row) (T := T)) suf st).
Proof.
  induction suf as [|w suf IH]; intros pre st; [done|]. cbn [length seq pfold rfold].
  assert (lockstep_pass rows forward dummy_slot pad_id g (pre ++ w :: suf) (length pre) st = lift (execute_one w st)) as ->.
  { destruct st as [completed s]. unfold lockstep_pass, execute_one, _execute_inner, dp_attention_region.
    rewrite list_lookup_middle, off by done. cbn [negb mbind prog_bind]. rewrite forward_executes.
    by destruct (execute _ _) as [[[toks lps] x]|e]. }
  destruct (execute_one w st) as [st'|e]; [|done]. cbn [lift mbind prog_bind result_bind].
  specialize (IH (pre ++ [w]) st'). rewrite <- app_assoc, length_app, Nat.add_1_r in IH. apply IH.
Qed.

Lemma alone_lockstep work (s : @Scheduler T X LP) :
  _execute_lockstep rows forward dummy_slot pad_id g work s = lift (execute_lockstep (Row := Row) work s).
Proof.
  unfold _execute_lockstep, coordinate_forward_count_across_dp. rewrite off. apply (alone_passes work []).
Qed.

Lemma lift_bind {A B} (r : result A) (f : A → result B) (k : A → @prog (list (@DPAttention.row H W)) B) :
  (∀ x, k x = lift (f x)) → lift r ≫= k = lift (r ≫= f).
Proof. intros Hk. by destruct r; cbn. Qed.

Lemma alone_step s :
  Lockstep.step (Row := Row) digest decode_ids is_digit rows forward dummy_slot pad_id g s =
  lift (Sched.step digest decode_ids is_digit s).
Proof.
  unfold Lockstep.step, Sched.step. destruct (pipeline _).
  - unfold _step_pipelined, step_pipelined. apply lift_bind. intros [out s1].
    rewrite off, andb_true_r. destruct (_ && _); [done|]. cbv zeta.
    apply lift_bind. intros first. apply lift_bind. intros later. apply lift_bind. intros [previous s2].
    rewrite alone_lockstep. apply lift_bind. intros [staged s3]. apply lift_bind. by intros [advanced s4].
  - unfold _step_synchronous, step_synchronous. apply lift_bind. intros [out s1].
    rewrite off, andb_true_r. destruct (is_empty out); [done|]. cbv zeta.
    apply lift_bind. intros first. apply lift_bind. intros [[spec remaining] s2]. apply lift_bind. intros later.
    rewrite alone_lockstep. apply lift_bind. intros [pending s3]. apply lift_bind. intros [emitted s4].
    apply lift_bind. by intros [advanced s5].
Qed.

Lemma drain_stopped commands (l : @EventLoop T X LP) :
  stopping l = true → drain digest encode commands l = Ok (commands, l).
Proof. intros E. destruct commands; cbn [drain]; by rewrite E. Qed.

Lemma drain_rest commands : ∀ (l : @EventLoop T X LP) u l',
  drain digest encode commands l = Ok (u, l') → u = [] ∨ stopping l' = true.
Proof.
  induction commands as [|x commands IH]; intros l u l'; cbn [drain]; destruct (stopping l) eqn:E.
  - intros [= <- <-]. by right.
  - intros [= <- <-]. by left.
  - intros [= <- <-]. by right.
  - intros (l1 & _ & E1)%bind_Ok. by eapply IH.
Qed.

(** The loop of a lone replica is [serve]: what a stopping loop leaves unread
    is never looked at. *)
Lemma alone_run turns : ∀ unread l, unread = [] ∨ stopping l = true →
  Lockstep.run (Row := Row) digest decode_ids encode is_digit rows forward dummy_slot pad_id g false turns l =
  lift (serve (Row := Row) digest decode_ids encode is_digit unread turns l).
Proof.
  induction turns as [|commands turns IH]; intros unread l Hu; [done|]. cbn [Lockstep.run serve].
  unfold open_turn, Loop.turn.
  assert ((∃ u u' l1, drain digest encode (unread ++ commands) l = Ok (u, l1) ∧ drain digest encode commands l = Ok (u', l1) ∧
      (u = [] ∨ stopping l1 = true)) ∨ ∃ e, drain digest encode (unread ++ commands) l = Err e ∧ drain digest encode commands l = Err e)
    as [(u & u' & l1 & -> & -> & Hl1)|(e & -> & ->)]; [| |done].
  { destruct Hu as [->|Hs].
    - cbn [app]. destruct (drain _ _ _ _) as [[u l1]|e] eqn:E; [|right; by exists e].
      left. exists u, u, l1. split_and!; [done|done|by eapply drain_rest].
    - left. rewrite !drain_stopped by done. exists (unread ++ commands), commands, l. split_and!; [done|done|by right]. }
  cbn [lift mbind prog_bind result_bind]. destruct (has_unfinished_requests (sched l1)); cbn [negb].
  - rewrite andb_false_r, alone_step. destruct (Sched.step _ _ _ _) as [[advanced s]|e]; [|done].
    cbn [lift mbind prog_bind result_bind]. destruct (publish _ _) as [l2|e] eqn:E; [|done].
    cbn [lift mbind prog_bind result_bind]. apply IH. by rewrite (publish_stopping _ _ _ E).
  - rewrite andb_true_r. cbn [mbind result_bind]. destruct (stopping l1) eqn:Es; cbn [mbind result_bind]; [done|].
    apply IH. destruct Hl1 as [Hu'|?]; [by left|done].
Qed.
End Alone.

(** The constructor gives replicas with the same options the same settings, and
    no proposer under DP attention. *)
Lemma init_settings {T X LP : Type} `{!Offload.OffloadingManager T} d cfg (x : X) depth async
    (s : @Scheduler T X LP) :
  Sched.init d (Some cfg) x false depth async None = Ok s → dp_attention d = true →
  settings s = MkSettings (engine_stop_token_ids d) false 1
    (if fused_chunk d && negb (decode_context_parallel d) then Some (graph_cap d + 1) else None) None async.
Proof.
  intros Hi Hd. unfold Sched.init in Hi. apply bind_Ok in Hi as (u1 & _ & Hi).
  cbn [mbind result_bind] in Hi. do 3 apply bind_Ok in Hi as (? & _ & Hi).
  apply bind_Ok in Hi as (p & _ & Hi). apply bind_Ok in Hi as (u5 & H5 & Hi). injection Hi as <-. cbn [settings].
  rewrite Hd, andb_true_r in H5. by destruct (speculate_enabled d).
Qed.

(** C8: replicas under DP attention never wait in vain.  On a grid of TP size 1,
    with the pipeline off, each rank joins it, builds its scheduler and serves whatever commands its queue
    receives, with requests, aborts and queries spread over the replicas in any
    way; replicas are busy and idle at different times and want different numbers
    of passes.  If each turn brings a shutdown to all replicas or to none, then on
    every schedule of the collectives no replica raises or blocks for good: all
    of them complete the turns, or return together, each in the state the
    side-by-side computation gives, and a replica only returns when nothing it
    accepted is left unfinished.  The executor runs the passes that fit it
    ([ExecutorLaws], which [Worker] proves of the repository's worker; with the
    chunked kernel off unless it takes resumed padded grids) and the dummy pass,
    and what runs inside the region answers as the executor does when every
    replica brings a pass ([LockstepModel.model_meets]). *)
Theorem replicas_never_wait_in_vain {T X LP Row H W : Type} `{!Offload.OffloadingManager T} `{!Executor X LP Row}
    `{!HiddenOps H W} digest (digest_ok : Chain.digest_ok digest) decode_ids encode is_digit k c resumes
    `{!ExecutorLaws X LP Row k c resumes} (encode_tokens : ∀ prompt l, encode prompt = Ok l → Forall Chain.is_token l)
    (rows : ModelInput → X → nat)
    (forward : grid → option DPMetadata → ModelInput → X → @prog (list (@DPAttention.row H W)) (list Z * option (PassLogprobs LP) * X))
    (dummy_slot : nat) (pad_id : Z) (wire : collective → list (list DPAttention.row) → option (list (list (list DPAttention.row))))
    `{!WireLaws wire} (a : init_args) (cuda_available initialized : bool) (prior : grid) (count : nat) r0 t
    d raw cfg x depth async (s0 : nat → @Scheduler T X LP) turns
    (Ht : Topology.resolve_topology r0 (arg_tp_size a) (arg_dp_size a) (prefill_context_parallel_size a)
      (decode_context_parallel_size a) (prefill_context_parallel_strategy a) (arg_dcp_comm_backend a) = Ok t)
    (Htp : Topology.tp_size t = 1) (Hdp : dp_attention_wanted t a = true)
    (dummy_runs : ∀ y, returns (execute (dummy_plan dummy_slot pad_id) y) (λ _, True))
    (forward_meets : ∀ G, placed t a G → ∀ (plans : nat → ModelInput) (xs : nat → X) ans,
      (∀ r, r < Topology.world_size t → execute (plans r) (xs r) = Ok (ans r)) →
      spmd wire (Topology.world_size t) (λ r, forward (G r)
        (Some (MkMetadata ((λ q, rows (plans q) (xs q)) <$> seq 0 (Topology.world_size t)) r)) (plans r) (xs r)) ans)
    (Hc : make_config raw = Ok cfg) (Hk : executor_num_slots d = k) (Hl : max_seq_len cfg = c) (Hd : dp_attention d = true)
    (Hgrid : grids_taken d resumes)
    (Hi : ∀ r, r < Topology.world_size t → Sched.init d (Some cfg) (x r) false depth async None = Ok (s0 r))
    (Hcmd : Forall (turn_ok t) turns) (Hstop : Forall (shutdown_agrees t) turns) :
  let n := Topology.world_size t in
  let start r := MkLoop (s0 r) ∅ ∅ false [] in
  ∃ over ls, together (Row := Row) digest decode_ids encode is_digit dummy_slot pad_id n turns start = Ok (over, ls) ∧
    always wire n (λ r, _run_replica_process (Row := Row) digest decode_ids encode is_digit rows forward dummy_slot pad_id
      a cuda_available initialized prior count r ((λ f : nat → list SchedulerCommand, f r) <$> turns) (start r))
      (λ r, (over, ls r)) ∧
    (over = true → ∀ r, r < n → stopping (ls r) = true ∧ has_unfinished_requests (sched (ls r)) = false).
Proof.
  intros n start. set (st := MkSettings (engine_stop_token_ids d) false 1
    (if fused_chunk d && negb (decode_context_parallel d) then Some (graph_cap d + 1) else None) None async).
  assert (∀ r, r < n → healthy digest k c resumes st (start r)) as Hh.
  { intros r Hr. destruct (engine_init_good digest resumes d raw cfg (x r) depth async (s0 r) Hc (Hi r Hr)) as (Hg & _ & E1 & E2 & E3).
    split; [done|]. split; [split_and!; cbn; [congruence|congruence|by apply E3]|]. by apply (init_settings d cfg (x r) depth async (s0 r)); [apply Hi|]. }
  pose proof (Topology.resolve_topology_Ok _ _ _ _ _ _ _ _ Ht) as (Hv & _).
  destruct (init_parallel_runs wire r0 t a cuda_available initialized prior count Ht) as (G & count' & Hrun & HG).
  destruct (together_Ok digest digest_ok decode_ids encode is_digit k c resumes encode_tokens dummy_slot pad_id dummy_runs st t Htp
    turns start Hh) as ([over ls] & E & Hover); [done|done|done|].
  exists over, ls. split_and!; [done| |done]. apply spmd_always. unfold _run_replica_process.
  eapply spmd_bind; [exact Hrun|]. cbv beta iota.
  assert (enable_dp_attention a = true) as -> by (by apply andb_prop in Hdp as [Hw _]).
  by apply (spmd_run digest digest_ok decode_ids encode is_digit k c resumes encode_tokens rows forward dummy_slot pad_id dummy_runs st
    eq_refl wire t a G HG Htp Hdp (forward_meets G HG) eq_refl turns start (over, ls) Hh Hcmd).
Qed.

End LockstepSpec.
