(* ===== verification/LockstepModel.v ===== *)
(** * A model of routed layers keeps replicas in step

    What the lockstep theorems assume of a forward is proved here for a model
    whose layers work on the replica's own rows (attention, norms, residuals)
    and then go through the routed expert layer of [MoE]: with the geometry of
    the step agreed once and at least a token of every replica, the replicas get
    through every layer together, and each computes on its rows what the unpartitioned model would. *)

From S2P Require Import Spmd Topology ParallelState Collectives CollectiveSpec DPAttention MoE ExpertSum TokenExchange MoESpec MoEForward.
From S2P Require Export LockstepSpec.

Module LockstepModel.
Import Spmd ParallelState Collectives CollectiveSpec DPAttention MoE TokenExchange MoESpec MoEForward.
Import Sched Lockstep LockstepSpec.

Section model.
Context {X LP H W : Type} `{!HiddenOps H W, !HiddenLaws H W}.
Notation tensor := (list (@DPAttention.row H W)).
Notation answer := (list Z * option (PassLogprobs LP) * X)%type.

(** A layer: the part on the replica's own rows, its experts and router, and
    the residual. *)
Record layer := Layer {
  mixes : ModelInput → X → list H → list H;
  l_experts : list (H → H);
  l_slices : list (nat → H → H);
  l_route : H → list W * list Z;
  l_shared : option (nat → H → H);
  joins : list H → list H → list H;
}.

Context (embed : ModelInput → X → list H) (layers : list layer) (sample : ModelInput → X → list H → result answer).

(** The model on its own. *)
Definition layer_rows (t : Topology.ParallelTopology) (i : ModelInput) (x : X) (h : list H) (l : layer) : list H :=
  joins l h (reference t (l_route l) (l_shared l) (l_experts l) <$> mixes l i x h).
Definition model_rows (t : Topology.ParallelTopology) (i : ModelInput) (x : X) : list H :=
  foldl (layer_rows t i x) (embed i x) layers.

(** The model on a rank of the grid. *)
Context (payload : tensor → nat) (env : option string) (intermediate k : nat) (dev : nat → device (H := H))
  (slack : nat) (fused strict overlap : bool).

Definition run_layer (g : grid) (m : option DPMetadata) (i : ModelInput) (x : X) (l : layer) (h : list H) :
    @prog tensor (list H) :=
  y ← (p ← lift (SparseMoeBlock_init g env (length (l_experts l)) intermediate);
       forward g (dev (me g)) payload p (own_experts (l_experts l) (l_slices l) g p) k
         (own_dispatcher slack fused strict p) (l_route l)
         ((λ part : nat → H → H, part (_TP_RANK g)) <$> l_shared l) overlap m (mixes l i x h));
  Ret (joins l h y).

Definition run_model (g : grid) (m : option DPMetadata) (i : ModelInput) (x : X) : @prog tensor answer :=
  h ← pfold (run_layer g m i x) layers (embed i x);
  lift (sample i x h).

Context (wire : collective → list tensor → option (list (list tensor))) `{!WireLaws wire}
  (t : Topology.ParallelTopology) (Ht : Topology.valid t) (a : init_args) (G : nat → grid).
Hypothesis HG : placed t a G.
Hypothesis Htp : Topology.tp_size t = 1.
Hypothesis Hdp : dp_attention_wanted t a = true.
Hypothesis Hpayload : ∀ x y, length x = length y → payload x = payload y.
Hypothesis Harr : ∀ r m, arrival (dev r) m ≡ₚ seq 0 m.
Hypothesis Hdev : ∀ r r', cuda (dev r) = cuda (dev r').
Notation n := (Topology.world_size t).

(** The experts divide over the grid, the router names [k] of them, at least one,
    and the parts of a layer keep the rows apart. *)
Definition layer_ok (l : layer) : Prop :=
  k ≠ 0 ∧ routes (l_experts l) k (l_route l) ∧ sliced (l_experts l) (l_slices l) (Topology.tp_size t) ∧ l_experts l ≠ [] ∧
  (if enable_expert_parallel a then length (l_experts l) mod (expert_place t a).2 = 0
   else intermediate mod Topology.tp_size t = 0) ∧
  (∀ i x h, length (mixes l i x h) = length h) ∧
  (∀ h y, length y = length h → length (joins l h y) = length h).
Hypothesis Hlayers : Forall layer_ok layers.

Lemma spmd_run_layer plans (xs : nat → X) (hs : nat → list H) counts l :
  layer_ok l → (∀ r, r < n → length (hs r) = counts r ∧ hs r ≠ []) →
  spmd wire n (λ r, run_layer (G r) (Some (MkMetadata (counts <$> seq 0 n) r)) (plans r) (xs r) l (hs r))
    (λ r, layer_rows t (plans r) (xs r) (hs r) l).
Proof.
  intros (Hk & Hroute & Hs & HE & Hw & Hmix & Hjoin) Hl. set (ys r := mixes l (plans r) (xs r) (hs r)).
  apply (spmd_bind wire n _ (λ r y, Ret (joins l (hs r) y)) (λ r, reference t (l_route l) (l_shared l) (l_experts l) <$> ys r));
    [|apply spmd_ret].
  pose proof (spmd_layer payload a env (l_experts l) (l_slices l) intermediate k (l_route l) (l_shared l) dev slack fused strict
    overlap wire Hpayload t Ht Hroute Hs HE Hw Harr Hdev G HG ys) as [Hrun _].
  { intros _. split; [done|]. intros i Hi E. rewrite (one_replica_per_rank t Htp) in Hi. destruct (Hl i Hi) as [_ []].
    apply nil_length_inv. rewrite <- (Hmix (plans i) (xs i)). unfold ys in E. by rewrite E. }
  eapply spmd_ext; [| |exact Hrun]; intros r Hr; cbv beta; rewrite Htp, Nat.div_1_r; [|done].
  rewrite (placed_me t a G HG r Hr). unfold agreed. rewrite Hdp, Htp, Nat.div_1_r.
  assert (TokenExchange.counts t ys = counts <$> seq 0 n) as ->; [|done].
  unfold TokenExchange.counts. rewrite (one_replica_per_rank t Htp). apply list_fmap_ext.
  intros i q [-> Hq]%lookup_seq. cbn. unfold ys. rewrite Hmix. apply Hl. lia.
Qed.

Lemma layer_rows_length i x h l : layer_ok l → length (layer_rows t i x h l) = length h.
Proof. intros (_ & _ & _ & _ & _ & Hmix & Hjoin). apply Hjoin. by rewrite length_fmap, Hmix. Qed.

Lemma spmd_layers plans (xs : nat → X) counts ls : Forall layer_ok ls → ∀ hs : nat → list H,
  (∀ r, r < n → length (hs r) = counts r ∧ hs r ≠ []) →
  spmd wire n (λ r, pfold (run_layer (G r) (Some (MkMetadata (counts <$> seq 0 n) r)) (plans r) (xs r)) ls (hs r))
    (λ r, foldl (layer_rows t (plans r) (xs r)) (hs r) ls).
Proof.
  induction 1 as [|l ls Hl _ IH]; intros hs Hhs; [apply spmd_ret|]. cbn [pfold foldl].
  apply (spmd_bind wire n _ (λ r, pfold (run_layer (G r) (Some (MkMetadata (counts <$> seq 0 n) r)) (plans r) (xs r)) ls)
    (λ r, layer_rows t (plans r) (xs r) (hs r) l)); [by apply spmd_run_layer|].
  apply IH. intros r Hr. destruct (Hhs r Hr) as [Hc Hne]. pose proof (layer_rows_length (plans r) (xs r) (hs r) l Hl) as Hlen.
  split; [congruence|]. intros E. apply Hne, nil_length_inv. by rewrite <- Hlen, E.
Qed.

(** Every rank computes what its executor would with the model on its own. *)
Lemma model_meets (plans : nat → ModelInput) (xs : nat → X) (ans : nat → answer) :
  (∀ r, r < n → embed (plans r) (xs r) ≠ []) →
  (∀ r, r < n → sample (plans r) (xs r) (model_rows t (plans r) (xs r)) = Ok (ans r)) →
  spmd wire n (λ r, run_model (G r)
    (Some (MkMetadata ((λ q, length (embed (plans q) (xs q))) <$> seq 0 n) r)) (plans r) (xs r)) ans.
Proof.
  intros He Ha. apply (spmd_bind wire n _ (λ r h, lift (sample (plans r) (xs r) h)) (λ r, model_rows t (plans r) (xs r)));
    [|by apply spmd_lift].
  apply (spmd_layers plans xs (λ r, length (embed (plans r) (xs r)))); auto.
Qed.
End model.
End LockstepModel.
