(* ===== verification/LockstepLimits.v ===== *)
(** * Where replicas under DP attention leave each other waiting

    The controller puts the shutdown in one queue after the other, and the
    pipelined step pops an empty queue on an idle replica. *)

From S2P Require Export LockstepSpec.
From S2P Require Import Spmd Topology ParallelState Collectives CollectiveSpec DPAttention TokenExchange.

Module LockstepLimits.
Import Spmd ParallelState Collectives CollectiveSpec DPAttention TokenExchange.
Import Planner Sched Loop Lockstep LockstepSpec.

Section Limits.
Context {T X LP Row H W : Type} `{!Offload.OffloadingManager T} `{!Executor X LP Row} `{!HiddenOps H W}
  (digest : list Z → list Z) (decode_ids : list Z → Text.text) (encode : Text.text → result (list Z)) (is_digit : Z → bool)
  (rows : ModelInput → X → nat)
  (forward : grid → option DPMetadata → ModelInput → X → @prog (list (@DPAttention.row H W)) (list Z * option (PassLogprobs LP) * X))
  (dummy_slot : nat) (pad_id : Z).

Notation tensor := (list (@DPAttention.row H W)).
Notation EventLoop := (@EventLoop T X LP).
Notation Scheduler := (@Scheduler T X LP).
Notation run := (Lockstep.run (Row := Row) digest decode_ids encode is_digit rows forward dummy_slot pad_id).
Notation process := (_run_replica_process (Row := Row) digest decode_ids encode is_digit rows forward dummy_slot pad_id).

Context (wire : collective → list tensor → option (list (list tensor))) `{!WireLaws wire}
  (a : init_args) (cuda_available initialized : bool) (prior : grid) (count : nat) (r0 : Z) (t : Topology.ParallelTopology).
Hypothesis Ht : Topology.resolve_topology r0 (arg_tp_size a) (arg_dp_size a) (prefill_context_parallel_size a)
  (decode_context_parallel_size a) (prefill_context_parallel_strategy a) (arg_dcp_comm_backend a) = Ok t.
Hypothesis Htp : Topology.tp_size t = 1.
Hypothesis Hdp : dp_attention_wanted t a = true.
Notation n := (Topology.world_size t).
Notation processes turns ls :=
  ((λ r, process a cuda_available initialized prior count r (turns r) (ls r)) <$> seq 0 n).

(** The first turn of all processes, over what their queues hold. *)
Lemma first_turn (commands : nat → list SchedulerCommand) turns (ls ls1 : nat → EventLoop) :
  (∀ r, r < n → ('(_, l) ← drain digest encode (commands r) (ls r); Ok l) = Ok (ls1 r)) →
  ∃ G, placed t a G ∧
  let active := existsb (λ r, has_unfinished_requests (sched (ls1 r))) (seq 0 n) in
  rtc (Spmd.step wire) (processes (λ r, commands r :: turns r) ls)
    ((λ r, if stopping (ls1 r) && negb active then Ret (true, ls1 r)
           else if negb active then run (G r) true (turns r) (ls1 r)
           else '(advanced, s) ← Lockstep.step (Row := Row) digest decode_ids is_digit rows forward dummy_slot pad_id (G r) (sched (ls1 r));
                l ← lift (publish advanced (set_sched s (ls1 r))); run (G r) true (turns r) l) <$> seq 0 n).
Proof.
  intros Hd. pose proof (Topology.resolve_topology_Ok _ _ _ _ _ _ _ _ Ht) as (Hv & _).
  destruct (init_parallel_runs wire r0 t a cuda_available initialized prior count Ht) as (G & count' & Hrun & HG).
  exists G. split; [done|]. cbv zeta. etrans; [apply (spmd_prefix wire n _ _ _ Hrun)|]. cbv beta iota.
  assert (enable_dp_attention a = true) as -> by (by apply andb_prop in Hdp as [Hw _]).
  cbn [Lockstep.run].
  etrans; [apply (spmd_prefix wire n _ _ _ (spmd_open digest encode wire t a G HG Htp Hdp commands ls ls1 Hd))|].
  cbv beta iota. apply rtc_refl.
Qed.

(** Whoever asks for the count waits for every replica. *)
Lemma count_waits (G : nat → grid) q m :
  placed t a G → q < n → ∃ (g : group) (x : tensor) k, ranks g = seq 0 n ∧
    coordinate_forward_count_across_dp (G q) m = Call g AllGather x k.
Proof.
  intros HG Hq. destruct (placed_dp _ _ _ HG Hdp) as (_ & (grp & Hf & Hg) & _).
  destruct (placed_sizes _ _ _ HG q Hq) as (_ & _ & _ & _ & _ & Ed & _).
  assert (Topology.dp_size t = n) as En by (unfold Topology.world_size; rewrite Htp; lia).
  pose proof (dp_many t a Hdp) as Hmany.
  assert (∀ r, r < n → group_rank (grp r) r = id r ∧ group_size (grp r) = Topology.dp_size t) as Hc.
  { intros r Hr. destruct (Hg r Hr) as (_ & Hk & Hs). destruct (placed_sizes _ _ _ HG r Hr) as (_ & _ & _ & _ & _ & _ & _ & E).
    rewrite E, Htp, Nat.div_1_r in Hk. done. }
  pose proof (group_coordinates t grp id (Topology.dp_size t) q Hf Hc Hq) as Er. rewrite list_fmap_id, En in Er.
  destruct (Hg q Hq) as (Eg & _ & Es).
  unfold coordinate_forward_count_across_dp, data_parallel_all_gather. rewrite Ed, Hdp, Eg, Es. cbn [negb].
  destruct (Topology.dp_size t <=? 1) eqn:E; [apply Nat.leb_le in E; lia|]. cbn [mbind prog_bind]. by eexists _, _, _.
Qed.

Lemma lookup_rank {A} (f : nat → A) r : r < n → (f <$> seq 0 n) !! r = Some (f r).
Proof. intros Hr. by rewrite list_lookup_fmap, lookup_seq_lt. Qed.

(** C10: a shutdown that reaches one replica a turn before the others strands
    them.  The controller puts the command in one queue after the other; if the
    replicas are idle and the first drains its queue in a turn in which the others
    find nothing yet, it returns, and every other replica waits for it in the
    count of the next turn for good, the shutdown in its own queue notwithstanding. *)
Theorem late_shutdown_strands_replicas (ls : nat → EventLoop) p :
  (∀ r, r < n → has_unfinished_requests (sched (ls r)) = false ∧ stopping (ls r) = false) → p < n →
  ∃ cfg, rtc (Spmd.step wire)
      (processes (λ r, if decide (r = p) then [[CmdShutdown]] else [[]; [CmdShutdown]]) ls) cfg ∧
    (∃ l, cfg !! p = Some (Ret (true, l))) ∧
    ∀ q cfg', q < n → q ≠ p → rtc (Spmd.step wire) cfg cfg' → ∃ g c x k, cfg' !! q = Some (Call g c x k).
Proof.
  intros Hidle Hp. set (stop (l : EventLoop) := MkLoop (sched l) (sent_tokens l) (stream_outputs l) true (event_queue l)).
  set (commands (r : nat) := if decide (r = p) then [CmdShutdown] else [] : list SchedulerCommand).
  set (turns (r : nat) := if decide (r = p) then [] else [[CmdShutdown]] : list (list SchedulerCommand)).
  set (ls1 r := if decide (r = p) then stop (ls r) else ls r).
  destruct (first_turn commands turns ls ls1) as (G & HG & Hrun).
  { intros r Hr. destruct (Hidle r Hr) as (_ & Es). unfold commands, ls1. case_decide; cbn [drain]; by rewrite Es. }
  cbv zeta in Hrun.
  assert (existsb (λ r, has_unfinished_requests (sched (ls1 r))) (seq 0 n) = false) as E.
  { apply not_true_iff_false. intros (r & Hr%in_seq & Hu)%existsb_exists. destruct (Hidle r) as (Hn & _); [lia|].
    unfold ls1 in Hu. by case_decide; cbn in Hu; rewrite Hn in Hu. }
  rewrite E in Hrun. cbn [negb] in Hrun.
  assert ((λ r, process a cuda_available initialized prior count r (if decide (r = p) then [[CmdShutdown]] else [[]; [CmdShutdown]]) (ls r)) <$> seq 0 n
    = (λ r, process a cuda_available initialized prior count r (commands r :: turns r) (ls r)) <$> seq 0 n) as ->.
  { apply list_fmap_ext. intros i r _. unfold commands, turns. by case_decide. }
  eexists. split; [exact Hrun|]. split.
  - exists (ls1 p). rewrite lookup_rank by done. unfold ls1. by rewrite decide_True.
  - intros q cfg' Hq Hne Hs. destruct (Hidle q Hq) as (_ & Es).
    destruct (count_waits G q (Nat.b2n (has_unfinished_requests (sched (stop (ls q))))) HG Hq) as (g & x & k & Hg & Ec).
    eexists g, AllGather, x, _. eapply (left_behind wire _ _ p q); [exact Hs| | | |].
    + by apply lookup_rank.
    + unfold ls1. rewrite decide_True by done. done.
    + rewrite Hg. apply elem_of_seq. lia.
    + rewrite lookup_rank by done. unfold ls1, turns. rewrite !decide_False by done. rewrite Es. cbn [andb Lockstep.run].
      unfold open_turn. cbn [drain]. rewrite Es. cbn [apply mbind result_bind drain stopping lift prog_bind sched].
      change (sched (ls q)) with (sched (stop (ls q))). rewrite Ec. reflexivity.
Qed.

(** C9: an idle replica of a pipelined engine dies.  Nothing refuses the pipeline
    under DP attention, and then a replica takes part in a turn for its peers'
    work without having any: its plan is empty, so the step pops the oldest pass
    in flight, and there is none. *)
Theorem idle_pipelined_replica_raises commands turns (ls ls1 : nat → EventLoop) p q out s1 :
  (∀ r, r < n → ('(_, l) ← drain digest encode (commands r) (ls r); Ok l) = Ok (ls1 r)) →
  p < n → has_unfinished_requests (sched (ls1 p)) = true →
  q < n → pipeline (settings (collect_tokenized (sched (ls1 q)))) = true →
  schedule digest (collect_tokenized (sched (ls1 q))) = Ok (out, s1) → is_empty out = true → inflight s1 = [] →
  ∃ cfg, rtc (Spmd.step wire) (processes (λ r, commands r :: turns r) ls) cfg ∧ cfg !! q = Some (Raise IndexError).
Proof.
  intros Hd Hp Hu Hq Hpipe Hout Hempty Hin. destruct (first_turn commands turns ls ls1 Hd) as (G & HG & Hrun). cbv zeta in Hrun.
  eexists. split; [exact Hrun|]. rewrite lookup_rank by done.
  assert (existsb (λ r, has_unfinished_requests (sched (ls1 r))) (seq 0 n) = true) as ->.
  { apply existsb_exists. exists p. split; [apply in_seq; lia|done]. }
  cbn [negb]. rewrite andb_false_r. unfold Lockstep.step. rewrite Hpipe. unfold _step_pipelined. rewrite Hout.
  destruct (placed_sizes _ _ _ HG q Hq) as (_ & _ & _ & _ & _ & Ed & _).
  cbn [lift mbind prog_bind]. rewrite Hempty, Ed, Hdp. cbn [negb]. rewrite andb_false_r.
  unfold is_empty in Hempty. apply bool_decide_eq_true in Hempty as [-> ->]. cbv zeta.
  rewrite !decide_True by done. cbn [lift mbind prog_bind]. rewrite orb_true_r. cbn [inflight count_step set_counters].
  rewrite Hin. done.
Qed.
End Limits.
End LockstepLimits.
