(* ===== verification/LockstepDemo.v ===== *)
(** * Two replicas in lockstep

    A small engine on two replicas under DP attention, whose passes run two
    routed layers with four experts spread over both: the witnesses of the
    lockstep properties. *)

From S2P Require Import Spmd Topology ParallelState Collectives CollectiveSpec DPAttention MoE TokenExchange MoESpec MoEForward ParallelDemo LockstepModel.
From S2P Require Export LockstepLimits EngineDemo.

Module LockstepDemo.
Import Spmd ParallelState Collectives CollectiveSpec DPAttention MoE TokenExchange MoESpec MoEForward ParallelDemo.
Import Planner PlannerSpec Sched Loop SchedInv Worker SchedSpec EngineDemo Lockstep LockstepSpec LockstepModel LockstepLimits.

Definition pair_args : init_args := InitArgs 1 2 (Some gloo) true true 1 1 "zigzag" "ag_rs".
Definition pair_topology : Topology.ParallelTopology := Topology.MkTopology 0 1 2 1 1 "zigzag" "ag_rs".

Lemma pair_resolves :
  let a := pair_args in
  Topology.resolve_topology 0 (arg_tp_size a) (arg_dp_size a) (prefill_context_parallel_size a)
    (decode_context_parallel_size a) (prefill_context_parallel_strategy a) (arg_dcp_comm_backend a) = Ok pair_topology.
Proof. vm_compute. reflexivity. Qed.

Notation pair_row := (@DPAttention.row Z Z).
Notation pair_wire := (ideal_wire (Row := pair_row)).

(** The model: token ids as hidden states, two equal layers. *)
Definition pair_layer : layer (X := nat) (H := Z) (W := Z) :=
  Layer (λ _ _ h, Z.succ <$> h) demo_experts demo_slices demo_route (Some demo_shared)
    (λ h y, zip_with (λ v w, (v + w) mod 50)%Z h y).
Definition pair_embed (i : ModelInput) (x : nat) : list Z := tokens i.

(** Sampling, with the records the pass asks for; a pass without tokens raises.
    The executor counts its passes. *)
Definition pair_records (i : ModelInput) : option (PassLogprobs unit) :=
  if wants (logprobs <$> sampling i)
  then Some (MkLogprobs ((λ p, (λ _, tt) <$> logprobs p) <$> sampling i) (replicate (length (slots i)) None))
  else None.
Definition pair_sample (i : ModelInput) (x : nat) (h : list Z) : result (list Z * option (PassLogprobs unit) * nat) :=
  _ ← rguard (bool_decide (tokens i ≠ [])) RuntimeError;
  Ok ((λ j, default 0 (h !! j) mod 90)%Z <$> sampled i, pair_records i, S x).

#[global] Instance pair_executor : Executor nat unit Z := {
  execute i x := pair_sample i x (model_rows pair_embed [pair_layer; pair_layer] pair_topology i x);
  execute_verify i x := Ok (None, x);
  argmax row := (row mod 1000)%Z;
}.

#[global] Instance pair_laws k c resumes : ExecutorLaws nat unit Z k c resumes.
Proof.
  split.
  - intros i x Hf. eexists _, _, _. cbn [execute pair_executor]. unfold pair_sample.
    rewrite bool_decide_true by by eapply fits_feeds. cbn [rguard mbind result_bind]. split; [reflexivity|].
    assert (Hr : ∀ l, pair_records i = Some l →
      l = MkLogprobs ((λ p, (λ _, tt) <$> logprobs p) <$> sampling i) (replicate (length (slots i)) None))
      by (intros l; unfold pair_records; destruct (wants _); congruence).
    destruct (fits_columns k c resumes i Hf) as [_ _ _ _ _ _ [Hs _] _]. split.
    + by rewrite length_fmap.
    + apply Forall_fmap, Forall_forall. intros j _. apply small_token. lia.
    + intros l ->%Hr. right. cbn [lp_sampled]. by rewrite !length_fmap.
    + intros l ->%Hr. right. cbn [lp_prompt]. by rewrite length_replicate.
    + intros l j records ->%Hr. cbn [lp_prompt]. by intros [? _]%lookup_replicate.
    + intros l j records n ->%Hr. cbn [lp_prompt]. by intros [? _]%lookup_replicate.
  - intros i x Hf _. eexists _, _. split; [reflexivity|]. by intros rows [=].
  - intros row. apply small_token. lia.
Qed.

Definition pair_rows (i : ModelInput) (x : nat) : nat := length (pair_embed i x).
Notation pair_payload := (length (A := pair_row)).
Definition pair_forward : grid → option DPMetadata → ModelInput → nat → @prog (list pair_row) (list Z * option (PassLogprobs unit) * nat) :=
  run_model pair_embed [pair_layer; pair_layer] pair_sample pair_payload None 8 2 (λ _, demo_device) 8 true false false.

Lemma pair_sliced : sliced demo_experts demo_slices 1.
Proof. unfold sliced, demo_experts, demo_slices. cbn. repeat constructor; intros h; cbn; lia. Qed.

Lemma pair_layer_ok : layer_ok 8 2 pair_topology pair_args pair_layer.
Proof.
  split; [done|]. split; [exact demo_routes|]. split; [exact pair_sliced|]. split; [done|]. split; [done|]. split.
  - intros i x h. cbn [mixes pair_layer]. apply length_fmap.
  - intros h y Hy. cbn [joins pair_layer]. rewrite length_zip_with. lia.
Qed.

Lemma pair_forward_meets (G : nat → grid) :
  placed pair_topology pair_args G → ∀ (plans : nat → ModelInput) (xs : nat → nat) ans,
  (∀ r, r < 2 → execute (plans r) (xs r) = Ok (ans r)) →
  spmd pair_wire 2 (λ r, pair_forward (G r)
    (Some (MkMetadata ((λ q, pair_rows (plans q) (xs q)) <$> seq 0 2) r)) (plans r) (xs r)) ans.
Proof.
  intros HG plans xs ans Ha.
  apply (model_meets pair_embed [pair_layer; pair_layer] pair_sample pair_payload None 8 2 (λ _, demo_device) 8 true false false
    pair_wire pair_topology (proj1 (Topology.resolve_topology_Ok _ _ _ _ _ _ _ _ pair_resolves)) pair_args G HG eq_refl eq_refl);
    [done|done|done| | |done].
  - do 2 (constructor; [exact pair_layer_ok|]). constructor.
  - intros r Hr. specialize (Ha r Hr). cbn [execute pair_executor] in Ha. unfold pair_sample in Ha.
    apply bind_Ok in Ha as (u & Hu & _). unfold pair_embed. intros E. by rewrite E in Hu.
Qed.

Notation pair_engine := (@Scheduler demo_tier nat unit).
Definition pair_deployment : Deployment := MkDeployment false 64 [99%Z] 2 8 false false 8 false true.
Definition pair_config (pipelined : bool) : SchedulerConfig := MkConfig 64 2 64 true 16 true None (negb pipelined) 0.
Definition pair_init (pipelined : bool) : result pair_engine :=
  cfg ← make_config (pair_config pipelined);
  Sched.init pair_deployment (Some cfg) 0 pipelined 1 false None.

Notation pair_together := (together (T := demo_tier) (X := nat) (LP := unit) (Row := Z)
  Chain.toy_digest id demo_encode demo_digit 2 0).
Notation fresh s := (MkLoop (LP := unit) s ∅ ∅ false []).

(** Replica 0 has a request from the first turn, replica 1 from the second; both
    are told to stop while they are busy. *)
Definition pair_turns : list (nat → list SchedulerCommand) :=
  (λ r, if decide (r = 0) then [CmdAdd (MkAdd "a" [10; 11]%Z demo_params true)] else []) ::
  (λ r, if decide (r = 0) then [] else [CmdAdd (MkAdd "b" [7; 8; 9]%Z asking_params true)]) ::
  (λ _, []) :: (λ _, [CmdShutdown]) :: replicate 12 (λ _, []).

(** What a replica has published, event by event. *)
Definition published (l : @EventLoop demo_tier nat unit) : list (string * list Z * option string) :=
  (λ e, (ev_request_id e, new_token_ids e, ev_finish_reason e)) <$> concat (outputs <$> event_queue l).

Definition pair_run : result (bool * list (list (string * list Z * option string) * nat)) :=
  s ← pair_init false;
  '(over, ls) ← pair_together 2 pair_turns (λ _, fresh s);
  Ok (over, (λ r, (published (ls r), executor (sched (ls r)))) <$> seq 0 2).

Notation pair_processes turns ls := ((λ r, _run_replica_process (T := demo_tier) (X := nat) (LP := unit) (Row := Z)
  Chain.toy_digest id demo_encode demo_digit pair_rows pair_forward 2 0 pair_args false false _reset_grid 0 r (turns r) (ls r))).

(** Nine tokens each, and both took part in ten passes. *)
Lemma replicas_never_wait_in_vain_witness :
  ∃ s over ls, pair_init false = Ok s ∧ pair_together 2 pair_turns (λ _, fresh s) = Ok (over, ls) ∧
    always pair_wire 2 (pair_processes (λ r, (λ f : nat → list SchedulerCommand, f r) <$> pair_turns) (λ _, fresh s)) (λ r, (over, ls r)) ∧
    over = true ∧ ((λ r, (length (published (ls r)), executor (sched (ls r)))) <$> seq 0 2) = [(9, 10); (9, 10)].
Proof.
  assert (match pair_run with Ok (over, seen) => over = true ∧ ((λ e, (length e.1, e.2)) <$> seen) = [(9, 10); (9, 10)] | Err _ => False end)
    as Hrun by (vm_compute; auto). unfold pair_run in Hrun.
  destruct (pair_init false) as [s|e] eqn:E0; [|destruct Hrun]. cbn [mbind result_bind] in Hrun.
  pose proof E0 as (cfg & Hc & Hi)%bind_Ok.
  assert (Hcfg : max_seq_len cfg = 64) by (clear -Hc; vm_compute in Hc; by injection Hc as <-).
  destruct (replicas_never_wait_in_vain (T := demo_tier) (X := nat) (LP := unit) (Row := Z) Chain.toy_digest Chain.toy_digest_ok
    id demo_encode demo_digit 2 64 false demo_encode_tokens pair_rows pair_forward 2 0 pair_wire pair_args false false _reset_grid 0 0
    pair_topology pair_deployment (pair_config false) cfg (λ _, 0) 1 false (λ _, s) pair_turns pair_resolves eq_refl eq_refl)
    as (over & ls & E & Hrun' & _).
  - intros x. by eexists.
  - exact pair_forward_meets.
  - exact Hc.
  - done.
  - exact Hcfg.
  - done.
  - by intros ?.
  - intros r _. exact Hi.
  - unfold pair_turns. repeat constructor; intros r _; cbn; try (case_decide; repeat constructor; done); repeat constructor.
  - unfold pair_turns. repeat constructor; intros r r' _ _; cbn; repeat case_decide; done.
  - exists s, over, ls. change (Topology.world_size pair_topology) with 2 in E. rewrite E in Hrun. cbn [mbind result_bind] in Hrun.
    exact (conj eq_refl (conj E (conj Hrun' Hrun))).
Defined.

Lemma late_shutdown_strands_replicas_witness :
  ∃ s, pair_init false = Ok s ∧
  ∃ cfg, rtc (Spmd.step pair_wire)
      (pair_processes (λ r, if decide (r = 0) then [[CmdShutdown]] else [[]; [CmdShutdown]]) (λ _, fresh s) <$> seq 0 2) cfg ∧
    (∃ l, cfg !! 0 = Some (Ret (true, l))) ∧
    ∀ q cfg', q < 2 → q ≠ 0 → rtc (Spmd.step pair_wire) cfg cfg' → ∃ g c x k, cfg' !! q = Some (Call g c x k).
Proof.
  assert (match pair_init false with Ok s => has_unfinished_requests s = false | Err _ => False end) as Hs by (vm_compute; done).
  destruct (pair_init false) as [s|e]; [|destruct Hs]. exists s. split; [done|].
  apply (late_shutdown_strands_replicas (T := demo_tier) (X := nat) (LP := unit) (Row := Z) Chain.toy_digest id demo_encode
    demo_digit pair_rows pair_forward 2 0 pair_wire pair_args false false _reset_grid 0 0 pair_topology pair_resolves eq_refl eq_refl
    (λ _, fresh s) 0); [intros r _; by split|cbn; lia].
Defined.

(** Replica 0 gets a request, replica 1 nothing. *)
Definition lopsided (r : nat) : list SchedulerCommand :=
  if decide (r = 0) then [CmdAdd (MkAdd "a" [10; 11]%Z demo_params true)] else [].
Definition lopsided_loop (s : pair_engine) (r : nat) : result (@EventLoop demo_tier nat unit) :=
  '(_, l) ← drain Chain.toy_digest demo_encode (lopsided r) (fresh s); Ok l.

Lemma idle_pipelined_replica_raises_witness :
  ∃ s, pair_init true = Ok s ∧
  ∃ cfg, rtc (Spmd.step pair_wire) (pair_processes (λ r, lopsided r :: []) (λ _, fresh s) <$> seq 0 2) cfg ∧
    cfg !! 1 = Some (Raise IndexError).
Proof.
  assert (match (s ← pair_init true; l0 ← lopsided_loop s 0; l1 ← lopsided_loop s 1;
      '(out, s1) ← schedule Chain.toy_digest (collect_tokenized (sched l1)); Ok (l0, l1, out, s1)) with
    | Ok (l0, l1, out, s1) => has_unfinished_requests (sched l0) = true ∧
        pipeline (settings (collect_tokenized (sched l1))) = true ∧ is_empty out = true ∧ inflight s1 = []
    | Err _ => False end) as Hs by (vm_compute; auto).
  destruct (pair_init true) as [s|e]; [|destruct Hs]. exists s. split; [done|]. cbn [mbind result_bind] in Hs.
  destruct (lopsided_loop s 0) as [l0|e] eqn:E0; [|destruct Hs]. cbn [mbind result_bind] in Hs.
  destruct (lopsided_loop s 1) as [l1|e] eqn:E1; [|destruct Hs]. cbn [mbind result_bind] in Hs.
  destruct (schedule _ _) as [[out s1]|e] eqn:E; [|destruct Hs]. cbn [mbind result_bind] in Hs.
  destruct Hs as (H1 & H2 & H3 & H4).
  apply (idle_pipelined_replica_raises (T := demo_tier) (X := nat) (LP := unit) (Row := Z) Chain.toy_digest id demo_encode
    demo_digit pair_rows pair_forward 2 0 pair_wire pair_args false false _reset_grid 0 0 pair_topology pair_resolves eq_refl eq_refl
    lopsided (λ _, []) (λ _, fresh s) (λ r, if decide (r = 0) then l0 else l1) 0 1 out s1); try done; try (cbn; lia).
  intros [|[|r]] Hr; [exact E0|exact E1|cbn in Hr; lia].
Defined.
End LockstepDemo.
